(* ===== verification/_CoqProject ===== *)
-Q . S2P
Prelude.v
Text.v
Proto.v
BlockMapper.v
Errors.v
Retry.v
RangeCoalesce.v
Crc.v
Murmur3.v
HashRing.v
Router.v
BlockLocations.v
UriStatus.v
PageCache.v
PageStore.v
Uring.v
UringStore.v
LocalCache.v
LocalCacheFacts.v
LocalCacheProps.v
LocalCacheRestore.v
LocalCacheTheorems.v
MetadataCache.v
MasterInquire.v
WorkerPool.v
WorkerPoolTheorems.v
BlockReader.v
InStream.v
InStreamFacts.v
InStreamProps.v
InStreamDeliver.v
InStreamTheorems.v
AsyncReader.v
PyErrors.v
PyStream.v
BlockAccess.v
FileReader.v
FileReaderTheorems.v
StreamOpen.v
PyPositioned.v
Auth.v
Metrics.v
Pushgateway.v
ReplicaPlan.v
BlockWriter.v
WriteStream.v
BlockWriterFacts.v
FileWriter.v
FileWriterFacts.v
FileWriterProps.v
FileWriterInv.v
StreamOwnership.v
WriterTermination.v
FileWriterTheorems.v
Master.v
MasterTheorems.v
Config.v
PyWriter.v
ConfigLoad.v
ConfigLoadTheorems.v
PyConfig.v
Context.v
BaseFileSystem.v
PyClient.v
