(* ===== verification/Prelude.v ===== *)
(** * Verification of the GooseFS Rust SDK *)

From Stdlib Require Export ZArith Lia Sorted.
From stdpp Require Export base option list numbers strings gmap sorting.

Open Scope Z_scope.

(** ** Machine integers

    Rust's [u64], [u32], [i64], [i32] are [Z] values kept in range; the release
    profile of the crate does not enable overflow checks, so [+], [-] and [*]
    wrap.  [usize] is 64 bits wide. *)

Definition u64_mod : Z := 18446744073709551616.
Definition u32_mod : Z := 4294967296.
Definition u64_max : Z := u64_mod - 1.
Definition i64_max : Z := 9223372036854775807.

(** [x as u64], [x as u32], [x as i64], [x as i32] between integer types. *)
Definition as_u64 (x : Z) : Z := x mod u64_mod.
Definition as_u32 (x : Z) : Z := x mod u32_mod.
Definition as_i64 (x : Z) : Z := (x + 9223372036854775808) mod u64_mod - 9223372036854775808.
Definition as_i32 (x : Z) : Z := (x + 2147483648) mod u32_mod - 2147483648.

Definition u64_add (a b : Z) : Z := as_u64 (a + b).
Definition u64_sub (a b : Z) : Z := as_u64 (a - b).
Definition u64_mul (a b : Z) : Z := as_u64 (a * b).
Definition i64_add (a b : Z) : Z := as_i64 (a + b).
Definition i64_sub (a b : Z) : Z := as_i64 (a - b).
Definition i64_mul (a b : Z) : Z := as_i64 (a * b).
Definition u64_saturating_add (a b : Z) : Z := Z.min (a + b) u64_max.
Definition u64_saturating_sub (a b : Z) : Z := Z.max 0 (a - b).

Definition is_u64 (x : Z) : Prop := 0 <= x < u64_mod.
Definition is_i64 (x : Z) : Prop := - 9223372036854775808 <= x < 9223372036854775808.

#[global] Instance is_u64_dec (x : Z) : Decision (is_u64 x).
Proof. unfold is_u64. apply _. Defined.
#[global] Instance is_i64_dec (x : Z) : Decision (is_i64 x).
Proof. unfold is_i64. apply _. Defined.

Lemma as_u64_range (x : Z) : is_u64 (as_u64 x).
Proof. unfold is_u64, as_u64. apply Z.mod_pos_bound. reflexivity. Qed.

Lemma as_u64_small (x : Z) : is_u64 x -> as_u64 x = x.
Proof. apply Z.mod_small. Qed.

Lemma as_i64_range (x : Z) : is_i64 (as_i64 x).
Proof.
  unfold is_i64, as_i64.
  pose proof (Z.mod_pos_bound (x + 9223372036854775808) u64_mod eq_refl).
  unfold u64_mod in *. lia.
Qed.

Lemma as_i64_small (x : Z) : is_i64 x -> as_i64 x = x.
Proof. unfold is_i64, as_i64. intros. rewrite Z.mod_small; unfold u64_mod; lia. Qed.

Lemma u64_add_small (a b : Z) : 0 <= a + b < u64_mod -> u64_add a b = a + b.
Proof. apply Z.mod_small. Qed.

Lemma u64_sub_small (a b : Z) : 0 <= a - b < u64_mod -> u64_sub a b = a - b.
Proof. apply Z.mod_small. Qed.

(** The two casts between the 64-bit types are mutually inverse on their ranges. *)
Lemma as_i64_as_u64 (x : Z) : is_i64 x -> as_i64 (as_u64 x) = x.
Proof.
  unfold is_i64, as_i64, as_u64. intros.
  rewrite Z.add_mod_idemp_l by discriminate.
  rewrite Z.mod_small; unfold u64_mod; lia.
Qed.

(** ** Results of fallible code *)

Inductive result (E A : Type) : Type :=
| Ok (a : A)
| Err (e : E).
Arguments Ok {E A} a.
Arguments Err {E A} e.

Definition result_bind {E A B : Type} (m : result E A) (k : A -> result E B) : result E B :=
  match m with
  | Ok a => k a
  | Err e => Err e
  end.

Definition is_ok {E A : Type} (m : result E A) : bool :=
  match m with
  | Ok _ => true
  | Err _ => false
  end.

Declare Scope goose_scope.
Delimit Scope goose_scope with goose.
Notation "'let?' x := m 'in' k" := (result_bind m (fun x => k))
  (at level 10, x name, m at level 100, k at level 200) : goose_scope.
Open Scope goose_scope.

(** ** Byte buffers and their sub-ranges *)

Abbreviation bytes := (list Z).

Definition zlen {A : Type} (l : list A) : Z := Z.of_nat (length l).

(** [slice lo hi l] is the Rust range [l[lo..hi]]. *)
Definition slice {A : Type} (lo hi : Z) (l : list A) : list A :=
  take (Z.to_nat (hi - lo)) (drop (Z.to_nat lo) l).

(** [l.get(i)] with a [u64]/[usize] index. *)
Definition zget {A : Type} (l : list A) (i : Z) : option A := l !! Z.to_nat i.

Lemma zlen_nonneg {A : Type} (l : list A) : 0 <= zlen l.
Proof. unfold zlen. lia. Qed.

Lemma zlen_nil_inv {A : Type} (l : list A) : zlen l = 0 -> l = [].
Proof. unfold zlen. destruct l; [done|]. cbn. lia. Qed.

Lemma zlen_app {A : Type} (l k : list A) : zlen (l ++ k) = zlen l + zlen k.
Proof. unfold zlen. rewrite length_app. lia. Qed.

Lemma slice_nil {A : Type} (lo hi : Z) (l : list A) : hi <= lo -> slice lo hi l = [].
Proof. unfold slice. intros. replace (Z.to_nat (hi - lo)) with 0%nat by lia. reflexivity. Qed.

Lemma slice_all {A : Type} (l : list A) : slice 0 (zlen l) l = l.
Proof. unfold slice, zlen. rewrite drop_0. apply take_ge. lia. Qed.

Lemma slice_app {A : Type} (a b c : Z) (l : list A) :
  0 <= a <= b -> b <= c -> slice a b l ++ slice b c l = slice a c l.
Proof.
  unfold slice. intros.
  replace (Z.to_nat (c - a)) with (Z.to_nat (b - a) + Z.to_nat (c - b))%nat by lia.
  replace (Z.to_nat b) with (Z.to_nat a + Z.to_nat (b - a))%nat by lia.
  rewrite <- drop_drop. apply take_take_drop.
Qed.

Lemma zlen_slice {A : Type} (lo hi : Z) (l : list A) :
  0 <= lo <= hi -> hi <= zlen l -> zlen (slice lo hi l) = hi - lo.
Proof. unfold slice, zlen. intros. rewrite length_take, length_drop. lia. Qed.

Lemma slice_slice {A : Type} (a b c d : Z) (l : list A) :
  0 <= a <= b -> 0 <= c <= d -> d <= b - a ->
  slice c d (slice a b l) = slice (a + c) (a + d) l.
Proof.
  unfold slice. intros.
  rewrite skipn_firstn_comm, take_take, drop_drop.
  f_equal; [lia|]. f_equal. lia.
Qed.

Lemma slice_past {A : Type} (lo hi : Z) (l : list A) : zlen l <= lo -> slice lo hi l = [].
Proof. unfold slice, zlen. intros. rewrite drop_ge by lia. apply take_nil. Qed.

(** Reading past the end of a buffer stops at the end. *)
Lemma slice_clamp {A : Type} (lo hi : Z) (l : list A) :
  zlen l <= hi -> 0 <= lo -> slice lo hi l = slice lo (zlen l) l.
Proof.
  unfold slice, zlen. intros.
  rewrite !take_ge by (rewrite length_drop; lia). reflexivity.
Qed.

(** ** Strings *)

(** [hay.contains(needle)]. *)
Fixpoint str_contains (needle hay : string) : bool :=
  String.prefix needle hay
  || match hay with
     | String _ rest => str_contains needle rest
     | EmptyString => false
     end.

(** ** Sorting

    [sort_by_key] is the stable [slice::sort_by_key]; [sort_by] also serves for
    [sort_unstable] under a total order, where equal elements are the same.  Both
    are insertion sorts: the order fixes the result, not the algorithm. *)

Fixpoint insert_by {A : Type} (leb : A -> A -> bool) (x : A) (l : list A) : list A :=
  match l with
  | [] => [x]
  | y :: l' => if leb x y then x :: y :: l' else y :: insert_by leb x l'
  end.

Definition sort_by {A : Type} (leb : A -> A -> bool) (l : list A) : list A :=
  foldr (insert_by leb) [] l.

Definition sort_by_key {A : Type} (key : A -> Z) (l : list A) : list A :=
  sort_by (fun a b => key a <=? key b) l.

Section Sorting.
Context {A : Type} (leb : A -> A -> bool).
Hypothesis leb_total : forall x y, leb x y = false -> leb y x = true.
Hypothesis leb_trans : forall x y z, leb x y = true -> leb y z = true -> leb x z = true.

Lemma insert_by_perm (x : A) (l : list A) : insert_by leb x l ≡ₚ x :: l.
Proof.
  clear. induction l as [|y l IH]; simpl; [done|]. case_match; [done|].
  rewrite IH. constructor.
Qed.

Lemma sort_by_perm (l : list A) : sort_by leb l ≡ₚ l.
Proof.
  clear. induction l as [|x l IH]; simpl; [done|].
  rewrite insert_by_perm. by constructor.
Qed.

Lemma insert_by_sorted (x : A) (l : list A) :
  StronglySorted (fun a b => leb a b = true) l ->
  StronglySorted (fun a b => leb a b = true) (insert_by leb x l).
Proof.
  induction 1 as [|y l Hl IH Hy]; simpl; [by repeat constructor|].
  destruct (leb x y) eqn:E.
  - constructor; [by constructor|]. constructor; [done|].
    eapply Forall_impl; [exact Hy|]. simpl. eauto.
  - constructor; [done|]. rewrite insert_by_perm. constructor; [by apply leb_total|done].
Qed.

Lemma sort_by_sorted (l : list A) : StronglySorted (fun a b => leb a b = true) (sort_by leb l).
Proof. induction l; simpl; [constructor|]. by apply insert_by_sorted. Qed.
End Sorting.

Lemma sort_by_key_perm {A : Type} (key : A -> Z) (l : list A) : sort_by_key key l ≡ₚ l.
Proof. apply sort_by_perm. Qed.

Lemma sort_by_key_sorted {A : Type} (key : A -> Z) (l : list A) :
  StronglySorted (fun a b => key a <= key b) (sort_by_key key l).
Proof.
  assert (H : StronglySorted (fun a b => (key a <=? key b) = true) (sort_by_key key l)).
  { apply sort_by_sorted; [intros x y ?%Z.leb_gt; apply Z.leb_le; lia|].
    intros x y z ?%Z.leb_le ?%Z.leb_le. apply Z.leb_le. lia. }
  induction H as [|x l' _ IH Hx]; constructor; [done|].
  eapply Forall_impl; [exact Hx|]. intros y. apply Z.leb_le.
Qed.

(** Total orders given by a comparison function, as [#[derive(Ord)]] makes them;
    tuples compare lexicographically. *)
Class CompareOk {A : Type} (cmp : A -> A -> comparison) : Prop := {
  cmp_eq : forall x y, cmp x y = Eq -> x = y;
  cmp_antisym : forall x y, cmp y x = CompOpp (cmp x y);
  cmp_lt_trans : forall x y z, cmp x y = Lt -> cmp y z = Lt -> cmp x z = Lt;
}.

Definition lex_compare {A B : Type} (cmpA : A -> A -> comparison) (cmpB : B -> B -> comparison)
    (x y : A * B) : comparison :=
  match cmpA (fst x) (fst y) with
  | Eq => cmpB (snd x) (snd y)
  | c => c
  end.

#[export] Instance Z_compare_ok : CompareOk Z.compare.
Proof.
  split.
  - intros x y. apply Z.compare_eq.
  - intros x y. apply Z.compare_antisym.
  - intros x y z. rewrite !Z.compare_lt_iff. lia.
Qed.

Lemma cmp_refl {A : Type} (cmp : A -> A -> comparison) `{!CompareOk cmp} x : cmp x x = Eq.
Proof. pose proof (cmp_antisym (cmp := cmp) x x) as H. by destruct (cmp x x). Qed.

#[export] Instance lex_compare_ok {A B : Type} (cmpA : A -> A -> comparison)
  (cmpB : B -> B -> comparison) `{!CompareOk cmpA} `{!CompareOk cmpB} :
  CompareOk (lex_compare cmpA cmpB).
Proof.
  unfold lex_compare. split.
  - intros [a b] [a' b']; simpl. destruct (cmpA a a') eqn:E; try done.
    intros ->%cmp_eq. by apply cmp_eq in E as ->.
  - intros [a b] [a' b']; simpl. rewrite (cmp_antisym a a').
    destruct (cmpA a a'); simpl; [apply cmp_antisym|done..].
  - intros [a b] [a' b'] [a'' b'']; simpl.
    destruct (cmpA a a') eqn:E1, (cmpA a' a'') eqn:E2; try done; intros H1 H2;
      repeat match goal with H : cmpA _ _ = Eq |- _ => apply cmp_eq in H as -> end.
    + rewrite (cmp_refl cmpA). by eapply cmp_lt_trans.
    + by rewrite E2.
    + by rewrite E1.
    + by rewrite (cmp_lt_trans _ _ _ E1 E2).
Qed.

#[export] Instance String_compare_ok : CompareOk String.compare.
Proof.
  split.
  - apply String.compare_eq_iff.
  - intros x y. apply String.compare_antisym.
  - induction x as [|c x IH]; intros [|c' y] [|c'' z]; simpl; try done.
    unfold Ascii.compare.
    destruct (N.compare_spec (Ascii.N_of_ascii c) (Ascii.N_of_ascii c'))
      as [E1|E1|E1], (N.compare_spec (Ascii.N_of_ascii c') (Ascii.N_of_ascii c''))
      as [E2|E2|E2]; try done; intros H1 H2.
    + rewrite E1, E2, N.compare_refl. by eapply IH.
    + rewrite E1. by rewrite (proj2 (N.compare_lt_iff _ _) E2).
    + rewrite <- E2. by rewrite (proj2 (N.compare_lt_iff _ _) E1).
    + by rewrite (proj2 (N.compare_lt_iff _ _) (N.lt_trans _ _ _ E1 E2)).
Qed.

Definition cmp_leb {A : Type} (cmp : A -> A -> comparison) (x y : A) : bool :=
  match cmp x y with
  | Gt => false
  | _ => true
  end.

Section CompareSort.
Context {A : Type} (cmp : A -> A -> comparison) `{!CompareOk cmp}.

Lemma cmp_leb_total x y : cmp_leb cmp x y = false -> cmp_leb cmp y x = true.
Proof. unfold cmp_leb. rewrite (cmp_antisym x y). by destruct (cmp x y). Qed.

Lemma cmp_leb_antisym x y : cmp_leb cmp x y = true -> cmp_leb cmp y x = true -> x = y.
Proof.
  unfold cmp_leb. rewrite (cmp_antisym x y).
  destruct (cmp x y) eqn:E; try done. by apply cmp_eq in E.
Qed.

Lemma cmp_leb_trans x y z :
  cmp_leb cmp x y = true -> cmp_leb cmp y z = true -> cmp_leb cmp x z = true.
Proof.
  unfold cmp_leb. destruct (cmp x y) eqn:E1, (cmp y z) eqn:E2; try done; intros _ _;
    repeat match goal with H : cmp _ _ = Eq |- _ => apply cmp_eq in H as -> end.
  - by rewrite (cmp_refl cmp).
  - by rewrite E2.
  - by rewrite E1.
  - by rewrite (cmp_lt_trans _ _ _ E1 E2).
Qed.

(** Sorting forgets the order of its input. *)
Lemma sort_by_canonical l l' : l ≡ₚ l' -> sort_by (cmp_leb cmp) l = sort_by (cmp_leb cmp) l'.
Proof.
  intros Hp. apply (StronglySorted_unique_strong (fun a b => cmp_leb cmp a b = true)).
  - intros x y _ _. apply cmp_leb_antisym.
  - apply sort_by_sorted; [apply cmp_leb_total|apply cmp_leb_trans].
  - apply sort_by_sorted; [apply cmp_leb_total|apply cmp_leb_trans].
  - by rewrite !sort_by_perm.
Qed.
End CompareSort.

Lemma length_omap_le {A B : Type} (f : A -> option B) (l : list A) :
  (length (omap f l) <= length l)%nat.
Proof. induction l as [|x l IH]; csimpl; [done|]. destruct (f x); csimpl; lia. Qed.

Lemma StronglySorted_snoc {A : Type} (R : A -> A -> Prop) (l : list A) (x : A) :
  StronglySorted R l -> Forall (fun y => R y x) l -> StronglySorted R (l ++ [x]).
Proof.
  induction 1 as [|y l Hl IH Hy]; intros Hx; simpl; [repeat constructor|].
  apply Forall_cons in Hx as [Hyx Hx]. constructor; [by apply IH|].
  apply Forall_app_2; [done|]. by constructor.
Qed.

(** ** Automation *)

Create HintDb goose.
Create Rewrite HintDb goose.
#[export] Hint Resolve as_u64_range as_i64_range zlen_nonneg : goose.
#[export] Hint Rewrite @zlen_app @app_nil_r : goose.

(** Side conditions on machine-integer ranges. *)
Ltac solve_range :=
  unfold is_u64, is_i64, u64_max, i64_max, u64_mod, u32_mod in *; lia.

(** Case analysis on the boolean comparisons of a model's guards. *)
Ltac case_cmp :=
  match goal with
  | |- context [Z.ltb ?a ?b] => destruct (Z.ltb_spec a b)
  | |- context [Z.leb ?a ?b] => destruct (Z.leb_spec a b)
  | |- context [Z.eqb ?a ?b] => destruct (Z.eqb_spec a b)
  | H : context [Z.ltb ?a ?b] |- _ => destruct (Z.ltb_spec a b)
  | H : context [Z.leb ?a ?b] |- _ => destruct (Z.leb_spec a b)
  | H : context [Z.eqb ?a ?b] |- _ => destruct (Z.eqb_spec a b)
  end.
Ltac case_cmps := repeat (case_cmp; simpl in *; try lia).
