(* ===== verification/Text.v ===== *)
(** * Text: the parts of Rust's [str] the sources use

    Strings are byte strings.  [trim] removes ASCII whitespace; [parse_u64] and
    [parse_i64] are [str::parse], [show_Z] is the [Display] of an integer.  The
    round trip between the last two serves every component that persists a
    number. *)

From Stdlib Require Import Ascii.
From S2P Require Import Prelude.

Definition is_space (c : ascii) : bool :=
  let n := Z.of_N (N_of_ascii c) in (n =? 32) || ((9 <=? n) && (n <=? 13)).

Fixpoint trim_start (s : string) : string :=
  match s with
  | String c s' => if is_space c then trim_start s' else s
  | EmptyString => EmptyString
  end.

Fixpoint trim_end (s : string) : string :=
  match s with
  | String c s' =>
      match trim_end s' with
      | EmptyString => if is_space c then EmptyString else String c EmptyString
      | s'' => String c s''
      end
  | EmptyString => EmptyString
  end.

Definition trim (s : string) : string := trim_end (trim_start s).

(** [str::split_once]: at the first occurrence of [c]. *)
Fixpoint split_once (c : ascii) (s : string) : option (string * string) :=
  match s with
  | EmptyString => None
  | String d s' =>
      if Ascii.eqb c d then Some (EmptyString, s')
      else match split_once c s' with
           | Some (a, b) => Some (String d a, b)
           | None => None
           end
  end.

Definition digit_of (c : ascii) : option Z :=
  let n := Z.of_N (N_of_ascii c) in
  if (48 <=? n) && (n <=? 57) then Some (n - 48) else None.

Definition digit_char (d : Z) : ascii := ascii_of_N (Z.to_N (d + 48)).

Fixpoint parse_digits (acc : Z) (s : string) : option Z :=
  match s with
  | EmptyString => Some acc
  | String c s =>
      match digit_of c with
      | Some d => parse_digits (acc * 10 + d) s
      | None => None
      end
  end.

(** A non-empty run of digits. *)
Definition parse_magnitude (s : string) : option Z :=
  match s with
  | EmptyString => None
  | _ => parse_digits 0 s
  end.

Definition within (lo hi : Z) (n : Z) : option Z :=
  if (lo <=? n) && (n <=? hi) then Some n else None.

Definition parse_u64 (s : string) : option Z :=
  n ← (match s with
       | String "+" s => parse_magnitude s
       | _ => parse_magnitude s
       end);
  within 0 u64_max n.

Definition parse_i64 (s : string) : option Z :=
  n ← (match s with
       | String "+" s => parse_magnitude s
       | String "-" s => n ← parse_magnitude s; Some (- n)
       | _ => parse_magnitude s
       end);
  within (- 9223372036854775808) i64_max n.

Fixpoint digits (fuel : nat) (n : Z) (acc : string) : string :=
  let acc := String (digit_char (n mod 10)) acc in
  match fuel with
  | O => acc
  | S fuel => if n <? 10 then acc else digits fuel (n / 10) acc
  end.

(** A number below [2 ^ k] has at most [k] decimal digits. *)
Definition show_nonneg (n : Z) : string := digits (Z.to_nat (Z.log2 n)) n EmptyString.

Definition show_Z (n : Z) : string :=
  if n <? 0 then String "-" (show_nonneg (- n)) else show_nonneg n.

(** ** Case, prefixes and lines *)

Definition to_ascii_lowercase (c : ascii) : ascii :=
  let n := N_of_ascii c in
  if ((65 <=? n) && (n <=? 90))%N then ascii_of_N (n + 32) else c.

Definition to_ascii_uppercase (c : ascii) : ascii :=
  let n := N_of_ascii c in
  if ((97 <=? n) && (n <=? 122))%N then ascii_of_N (n - 32) else c.

Fixpoint str_map (f : ascii -> ascii) (s : string) : string :=
  match s with
  | EmptyString => EmptyString
  | String c s => String (f c) (str_map f s)
  end.

Fixpoint eq_ignore_ascii_case (s t : string) : bool :=
  match s, t with
  | EmptyString, EmptyString => true
  | String a s, String b t =>
      Ascii.eqb (to_ascii_lowercase a) (to_ascii_lowercase b) && eq_ignore_ascii_case s t
  | _, _ => false
  end.

Fixpoint strip_prefix (p s : string) : option string :=
  match p, s with
  | EmptyString, _ => Some s
  | String a p, String b s => if Ascii.eqb a b then strip_prefix p s else None
  | String _ _, EmptyString => None
  end.

(** [str::split] at every occurrence of [c]. *)
Fixpoint split (c : ascii) (s : string) : list string :=
  match s with
  | EmptyString => [EmptyString]
  | String d s =>
      if Ascii.eqb c d then EmptyString :: split c s
      else match split c s with
           | part :: parts => String d part :: parts
           | [] => [String d EmptyString]
           end
  end.

(** ** Printing then parsing *)

Definition digit_string (s : string) : Prop :=
  forall c, In c (String.list_ascii_of_string s) -> exists d, 0 <= d < 10 /\ c = digit_char d.

Lemma digit_of_char d : 0 <= d < 10 -> digit_of (digit_char d) = Some d.
Proof.
  intros H. assert (Hd : d = 0 \/ d = 1 \/ d = 2 \/ d = 3 \/ d = 4 \/ d = 5 \/ d = 6 \/ d = 7 \/
    d = 8 \/ d = 9) by lia.
  by repeat destruct Hd as [->|Hd]; [..|subst d].
Qed.

Lemma digits_nonempty fuel n acc : exists c s, digits fuel n acc = String c s.
Proof.
  revert n acc. induction fuel as [|fuel IH]; intros n acc; cbn; [eauto|].
  destruct (n <? 10); eauto.
Qed.

(** Parsing the digits of [n] followed by [acc] is parsing [acc] from [n]. *)
Lemma parse_digits_digits fuel n acc :
  0 <= n -> n < 2 ^ (Z.of_nat fuel + 1) ->
  parse_digits 0 (digits fuel n acc) = parse_digits n acc.
Proof.
  revert n acc. induction fuel as [|fuel IH]; intros n acc Hn Hf; cbn [digits].
  - cbn in Hf. cbn. rewrite Z.mod_small by lia. by rewrite digit_of_char by lia.
  - pose proof (Z.mod_pos_bound n 10 ltac:(lia)). destruct (Z.ltb_spec n 10).
    + cbn. rewrite Z.mod_small by lia. by rewrite digit_of_char by lia.
    + rewrite IH.
      * cbn. rewrite digit_of_char by lia.
        replace (n / 10 * 10 + n mod 10) with n; [done|].
        pose proof (Z.div_mod n 10). lia.
      * apply Z.div_pos; lia.
      * apply Z.div_lt_upper_bound; [lia|].
        rewrite Nat2Z.inj_succ, Z.add_succ_l, Z.pow_succ_r in Hf by lia. lia.
Qed.

Lemma digits_digit_string fuel n acc :
  0 <= n -> digit_string acc -> digit_string (digits fuel n acc).
Proof.
  assert (Hstep : forall n acc, digit_string acc ->
    digit_string (String (digit_char (n mod 10)) acc)).
  { intros m a Ha c [<-|Hc]; [|by apply Ha].
    exists (m mod 10). split; [apply Z.mod_pos_bound; lia|done]. }
  revert n acc. induction fuel as [|fuel IH]; intros n acc Hn Hacc; cbn [digits]; [by auto|].
  destruct (n <? 10); [by auto|]. apply IH; [apply Z.div_pos; lia|by auto].
Qed.

Lemma show_nonneg_parse n : 0 <= n -> parse_magnitude (show_nonneg n) = Some n.
Proof.
  intros Hn. unfold show_nonneg.
  assert (Hp : parse_digits 0 (digits (Z.to_nat (Z.log2 n)) n EmptyString) = Some n).
  { rewrite parse_digits_digits; [done..|].
    rewrite Z2Nat.id by apply Z.log2_nonneg.
    destruct (Z.eq_dec n 0) as [->|]; [done|]. by apply Z.log2_spec; lia. }
  destruct (digits_nonempty (Z.to_nat (Z.log2 n)) n EmptyString) as (c & s & Hd).
  rewrite Hd in *. exact Hp.
Qed.

Lemma show_nonneg_digits n : 0 <= n -> digit_string (show_nonneg n).
Proof. intros. apply digits_digit_string; [done|]. by intros c []. Qed.

(** The first character of a printed number decides the sign branch. *)
Lemma show_nonneg_head n :
  0 <= n -> exists d s, 0 <= d < 10 /\ show_nonneg n = String (digit_char d) s.
Proof.
  intros Hn. destruct (digits_nonempty (Z.to_nat (Z.log2 n)) n EmptyString) as (c & s & Hd).
  destruct (show_nonneg_digits n Hn c) as (d & Hd' & ->); [|by exists d, s].
  unfold show_nonneg. rewrite Hd. by left.
Qed.

Lemma parse_i64_digit d s :
  0 <= d < 10 ->
  parse_i64 (String (digit_char d) s) =
    (n ← parse_magnitude (String (digit_char d) s); within (- 9223372036854775808) i64_max n).
Proof.
  intros H. assert (Hd : d = 0 \/ d = 1 \/ d = 2 \/ d = 3 \/ d = 4 \/ d = 5 \/ d = 6 \/ d = 7 \/
    d = 8 \/ d = 9) by lia.
  by repeat destruct Hd as [->|Hd]; [..|subst d].
Qed.

Lemma within_in lo hi n : lo <= n <= hi -> within lo hi n = Some n.
Proof. intros. unfold within. by rewrite !(proj2 (Z.leb_le _ _)) by lia. Qed.

Lemma parse_i64_show n : is_i64 n -> parse_i64 (show_Z n) = Some n.
Proof.
  unfold is_i64, show_Z. intros Hn. destruct (Z.ltb_spec n 0).
  - cbv beta iota delta [parse_i64]. rewrite show_nonneg_parse by lia. cbn. rewrite Z.opp_involutive.
    apply within_in. unfold i64_max. lia.
  - destruct (show_nonneg_head n ltac:(lia)) as (d & s & Hd & Hs).
    rewrite Hs, parse_i64_digit, <- Hs, show_nonneg_parse by lia. cbn.
    apply within_in. unfold i64_max. lia.
Qed.

Lemma parse_u64_digit d s :
  0 <= d < 10 ->
  parse_u64 (String (digit_char d) s) =
    (n ← parse_magnitude (String (digit_char d) s); within 0 u64_max n).
Proof.
  intros H. assert (Hd : d = 0 \/ d = 1 \/ d = 2 \/ d = 3 \/ d = 4 \/ d = 5 \/ d = 6 \/ d = 7 \/
    d = 8 \/ d = 9) by lia.
  by repeat destruct Hd as [->|Hd]; [..|subst d].
Qed.

Lemma parse_u64_show n : 0 <= n <= u64_max -> parse_u64 (show_nonneg n) = Some n.
Proof.
  intros Hn. destruct (show_nonneg_head n ltac:(lia)) as (d & s & Hd & Hs).
  rewrite Hs, parse_u64_digit, <- Hs, show_nonneg_parse by lia. by apply within_in.
Qed.

(** ** Characters of a string *)

Definition str_forall (P : ascii -> bool) (s : string) : Prop :=
  Forall (fun c => P c = true) (String.list_ascii_of_string s).

Lemma str_forall_app P s t : str_forall P (s +:+ t) <-> str_forall P s /\ str_forall P t.
Proof.
  unfold str_forall. rewrite <- Forall_app.
  enough (String.list_ascii_of_string (s +:+ t) =
          String.list_ascii_of_string s ++ String.list_ascii_of_string t) as -> by done.
  induction s as [|c s IH]; [done|].
  change (String c s +:+ t) with (String c (s +:+ t)). cbn. by f_equal.
Qed.

(** A sign or a digit: what [show_Z] is made of. *)
Definition is_numeral (c : ascii) : bool :=
  Ascii.eqb c "-" || match digit_of c with Some _ => true | None => false end.

Lemma show_Z_numeral n : str_forall is_numeral (show_Z n).
Proof.
  assert (Hdig : forall k, 0 <= k -> str_forall is_numeral (show_nonneg k)).
  { intros k Hk. apply Forall_forall. intros c Hc.
    destruct (show_nonneg_digits k Hk c) as (d & Hd & ->); [by apply list_elem_of_In|].
    unfold is_numeral. rewrite digit_of_char by done. apply orb_true_r. }
  unfold show_Z. destruct (Z.ltb_spec n 0); [|apply Hdig; lia].
  constructor; [done|]. apply Hdig. lia.
Qed.

Lemma str_forall_weaken (P Q : ascii -> bool) s :
  (forall c, P c = true -> Q c = true) -> str_forall P s -> str_forall Q s.
Proof. intros HPQ Hs. eapply Forall_impl; [exact Hs|]. auto. Qed.

Lemma numeral_not_space c : is_numeral c = true -> negb (is_space c) = true.
Proof. destruct c as [[] [] [] [] [] [] [] []]; vm_compute; congruence. Qed.

Lemma numeral_not_comma c : is_numeral c = true -> negb (Ascii.eqb "," c) = true.
Proof. destruct c as [[] [] [] [] [] [] [] []]; vm_compute; congruence. Qed.

Lemma trim_start_no_space s : str_forall (fun c => negb (is_space c)) s -> trim_start s = s.
Proof.
  intros Hs. destruct s as [|c s]; [done|]. inversion Hs as [|? ? Hc]; subst.
  cbn. by rewrite (proj1 (negb_true_iff _) Hc).
Qed.

Lemma trim_no_space s : str_forall (fun c => negb (is_space c)) s -> trim s = s.
Proof.
  intros Hs. unfold trim. rewrite trim_start_no_space by done.
  induction s as [|c s IH]; [done|]. inversion Hs as [|? ? Hc Hs']; subst.
  cbn. rewrite (IH Hs'). rewrite (proj1 (negb_true_iff _) Hc). by destruct s.
Qed.

Lemma split_once_app c s t :
  str_forall (fun d => negb (Ascii.eqb c d)) s -> split_once c (s +:+ String c t) = Some (s, t).
Proof.
  induction s as [|d s IH]; intros Hs.
  - change (EmptyString +:+ String c t) with (String c t). cbn. by rewrite Ascii.eqb_refl.
  - inversion Hs as [|? ? Hd Hs']; subst.
    change (String d s +:+ String c t) with (String d (s +:+ String c t)). cbn.
    by rewrite (proj1 (negb_true_iff _) Hd), (IH Hs').
Qed.
