(* ===== verification/Proto.v ===== *)
(** * Protocol messages

    The protobuf records the client exchanges with the master and the workers
    (src/src/generated/), with the fields the modelled code reads or writes.
    Proto2 optional fields are [option]s, repeated fields are lists.  Omitted:
    nested messages no modelled operation looks into ([acl], [default_acl],
    [capability], [tiered_identity]) and the one [f64] field of [WorkerInfo]. *)

From S2P Require Import Prelude.

Record WorkerNetAddress : Type := mkWorkerNetAddress {
  wna_host : option string;
  wna_rpc_port : option Z;
  wna_data_port : option Z;
  wna_web_port : option Z;
  wna_domain_socket_path : option string;
  wna_container_host : option string;
  wna_secure_rpc_port : option Z;
  wna_vpc_mapping_host : option string;
  wna_vpc_mapping_port : option Z;
  wna_vpc_mapping_data_port : option Z;
}.

#[global] Instance WorkerNetAddress_eq_dec : EqDecision WorkerNetAddress.
Proof. solve_decision. Defined.

Record WorkerInfo : Type := mkWorkerInfo {
  wi_id : option Z;
  wi_address : option WorkerNetAddress;
  wi_last_contact_sec : option Z;
  wi_state : option Z;
  wi_capacity_bytes : option Z;
  wi_used_bytes : option Z;
  wi_cache_used_bytes : option Z;
  wi_persist_used_bytes : option Z;
  wi_start_time_ms : option Z;
  wi_virtual_node_num : option Z;
  wi_alive : option bool;
  wi_forbid_write : option bool;
}.

#[global] Instance WorkerInfo_eq_dec : EqDecision WorkerInfo.
Proof. solve_decision. Defined.

Record BlockLocation : Type := mkBlockLocation {
  bl_worker_id : option Z;
  bl_worker_address : option WorkerNetAddress;
}.

#[global] Instance BlockLocation_eq_dec : EqDecision BlockLocation.
Proof. solve_decision. Defined.

Record BlockInfo : Type := mkBlockInfo {
  bi_block_id : option Z;
  bi_length : option Z;
  bi_max_replicas : option Z;
  bi_locations : list BlockLocation;
}.

#[global] Instance BlockInfo_eq_dec : EqDecision BlockInfo.
Proof. solve_decision. Defined.

Record FileBlockInfo : Type := mkFileBlockInfo {
  fbi_block_info : option BlockInfo;
  fbi_offset : option Z;
  fbi_ufs_locations : list WorkerNetAddress;
  fbi_ufs_string_locations : list string;
}.

#[global] Instance FileBlockInfo_eq_dec : EqDecision FileBlockInfo.
Proof. solve_decision. Defined.

Record FileInfo : Type := mkFileInfo {
  fi_file_id : option Z;
  fi_name : option string;
  fi_path : option string;
  fi_ufs_path : option string;
  fi_length : option Z;
  fi_block_size_bytes : option Z;
  fi_creation_time_ms : option Z;
  fi_completed : option bool;
  fi_folder : option bool;
  fi_cacheable : option bool;
  fi_persisted : option bool;
  fi_block_ids : list Z;
  fi_last_modification_time_ms : option Z;
  fi_owner : option string;
  fi_group : option string;
  fi_mode : option Z;
  fi_persistence_state : option string;
  fi_mount_point : option bool;
  fi_file_block_infos : list FileBlockInfo;
  fi_mount_id : option Z;
  fi_in_goose_fs_percentage : option Z;
  fi_in_memory_percentage : option Z;
  fi_ufs_fingerprint : option string;
  fi_last_access_time_ms : option Z;
  fi_xattr : list (string * list Z);
  fi_symlink : option string;
}.

#[global] Instance FileInfo_eq_dec : EqDecision FileInfo.
Proof. solve_decision. Defined.

(** [Default::default()] of the generated messages: every field unset. *)
Definition default_WorkerNetAddress : WorkerNetAddress :=
  mkWorkerNetAddress None None None None None None None None None None.

Definition default_WorkerInfo : WorkerInfo :=
  mkWorkerInfo None None None None None None None None None None None None.

Definition default_FileInfo : FileInfo :=
  mkFileInfo None None None None None None None None None None None [] None None
    None None None None [] None None None None None [] None.

(** [FileInfo { length, block_size_bytes, block_ids, ..Default::default() }]. *)
Definition file_info_of (len bs : option Z) (ids : list Z) : FileInfo :=
  mkFileInfo None None None None len bs None None None None None ids None None
    None None None None [] None None None None None [] None.
