(* ===== verification/BlockMapper.v ===== *)
(** * Block mapper (src/src/block/mapper.rs)

    Splits a byte range of a file into per-block segments for reading and for
    writing.  The loops are fuelled by one more than the number of blocks the
    range can touch; [tiles_plan_loop] shows that this is always enough. *)

From S2P Require Import Prelude Proto.

Record BlockReadPlan : Type := mkBlockReadPlan {
  brp_block_id : Z;
  brp_block_index : Z;
  brp_offset_in_block : Z;
  brp_length : Z;
}.

Record BlockWritePlan : Type := mkBlockWritePlan {
  bwp_block_index : Z;
  bwp_offset_in_block : Z;
  bwp_length : Z;
}.

(** ** Operations *)

(** The [while remaining > 0] loop of [plan_write]. *)
Fixpoint plan_write_loop (fuel : nat) (block_size current_offset remaining : Z)
  : list BlockWritePlan :=
  match fuel with
  | O => []
  | S fuel =>
      if 0 <? remaining then
        let block_index := current_offset / block_size in
        let offset_in_block := current_offset mod block_size in
        let bytes_in_block := Z.min remaining (block_size - offset_in_block) in
        mkBlockWritePlan block_index offset_in_block bytes_in_block
          :: plan_write_loop fuel block_size
               (u64_add current_offset bytes_in_block) (remaining - bytes_in_block)
      else []
  end.

Definition plan_fuel (block_size remaining : Z) : nat :=
  S (S (Z.to_nat (remaining / block_size))).

Definition plan_write (block_size file_offset length : Z) : list BlockWritePlan :=
  if (block_size =? 0) || (length =? 0) then []
  else plan_write_loop (plan_fuel block_size length) block_size file_offset length.

(** The [while remaining > 0] loop of [plan_read]; a block index past the end of
    [block_ids] yields the placeholder id [-1]. *)
Fixpoint plan_read_loop (fuel : nat) (block_ids : list Z)
  (block_size current_offset remaining : Z) : list BlockReadPlan :=
  match fuel with
  | O => []
  | S fuel =>
      if 0 <? remaining then
        let block_index := current_offset / block_size in
        let offset_in_block := current_offset mod block_size in
        let bytes_in_block := Z.min remaining (block_size - offset_in_block) in
        let block_id := default (-1) (zget block_ids block_index) in
        mkBlockReadPlan block_id block_index offset_in_block bytes_in_block
          :: plan_read_loop fuel block_ids block_size
               (u64_add current_offset bytes_in_block) (remaining - bytes_in_block)
      else []
  end.

Definition plan_read (file_info : FileInfo) (offset length : Z) : list BlockReadPlan :=
  let block_size := as_u64 (default (64 * 1024 * 1024) (fi_block_size_bytes file_info)) in
  let file_length := as_u64 (default 0 (fi_length file_info)) in
  if (block_size =? 0) || (length =? 0) || (file_length <=? offset) then []
  else
    let effective_length := Z.min length (u64_saturating_sub file_length offset) in
    if effective_length =? 0 then []
    else plan_read_loop (plan_fuel block_size effective_length)
           (fi_block_ids file_info) block_size offset effective_length.

(** ** Specification

    A list of segments [(block index, offset in block, length)] tiles the byte
    range [[start, stop)] of a file cut into blocks of [bs] bytes: each segment
    is non-empty, lies inside its block, begins where the previous one ends, and
    only the last one may stop before the end of its block. *)

Inductive tiles (bs : Z) : Z -> Z -> list (Z * Z * Z) -> Prop :=
| tiles_nil o : tiles bs o o []
| tiles_cons i o len stop rest :
    0 <= o -> 0 < len -> o + len <= bs ->
    (rest = [] \/ o + len = bs) ->
    tiles bs (i * bs + o + len) stop rest ->
    tiles bs (i * bs + o) stop ((i, o, len) :: rest).

#[export] Hint Constructors tiles : goose.

Definition read_seg (p : BlockReadPlan) : Z * Z * Z :=
  (brp_block_index p, brp_offset_in_block p, brp_length p).
Definition write_seg (p : BlockWritePlan) : Z * Z * Z :=
  (bwp_block_index p, bwp_offset_in_block p, bwp_length p).

(** Executing a read plan against a store of block contents, the loop body of a
    reader: each segment is a sub-range of its block. *)
Definition exec_read_plan (store : Z -> bytes) (plans : list BlockReadPlan) : bytes :=
  mjoin (map (fun p => slice (brp_offset_in_block p)
                         (brp_offset_in_block p + brp_length p)
                         (store (brp_block_id p))) plans).

(** The contents of block [i] of a file. *)
Definition file_block (bs : Z) (data : bytes) (i : Z) : bytes :=
  slice (i * bs) ((i + 1) * bs) data.

(** ** Lemmas *)

(** The read and the write loop cut a range the same way. *)
Lemma plan_read_loop_segs fuel ids bs off rem :
  map read_seg (plan_read_loop fuel ids bs off rem)
  = map write_seg (plan_write_loop fuel bs off rem).
Proof.
  revert off rem. induction fuel as [|fuel IH]; intros; simpl; [done|].
  destruct (0 <? rem); simpl; [|done]. by rewrite IH.
Qed.

Lemma plan_read_loop_ids fuel ids bs off rem :
  Forall (fun p => brp_block_id p = default (-1) (zget ids (brp_block_index p)))
    (plan_read_loop fuel ids bs off rem).
Proof.
  revert off rem. induction fuel as [|fuel IH]; intros; simpl; [by constructor|].
  destruct (0 <? rem); by constructor.
Qed.

(** With fuel for [(off mod bs + rem) / bs] rounded up, the loop tiles its range. *)
Lemma tiles_plan_loop fuel bs off rem :
  0 < bs -> 0 <= off -> 0 <= rem -> off + rem < u64_mod ->
  rem = 0 \/ off mod bs + rem <= Z.of_nat fuel * bs ->
  tiles bs off (off + rem) (map write_seg (plan_write_loop fuel bs off rem)).
Proof.
  intros Hbs. revert off rem.
  induction fuel as [|fuel IH]; intros off rem Hoff Hrem Hmax Hfuel; simpl.
  { assert (rem = 0) as -> by (pose proof (Z.mod_pos_bound off bs Hbs); lia).
    rewrite Z.add_0_r. constructor. }
  pose proof (Z.mod_pos_bound off bs Hbs) as Hmod.
  pose proof (Z.div_mod off bs ltac:(lia)) as Hdm.
  destruct (Z.ltb_spec 0 rem); simpl; last first.
  { replace rem with 0 by lia. rewrite Z.add_0_r. constructor. }
  set (n := Z.min rem (bs - off mod bs)).
  assert (Hlast : rem - n = 0 \/ off mod bs + n = bs) by (unfold n; lia).
  rewrite u64_add_small by (unfold n; lia).
  replace off with (off / bs * bs + off mod bs) at 1 by lia.
  replace (off + rem) with ((off + n) + (rem - n)) by lia.
  apply tiles_cons; simpl; [unfold n; lia.. | |].
  - destruct Hlast as [->| ?]; [left; by destruct fuel | by right].
  - replace (off / bs * bs + off mod bs + n) with (off + n) by lia.
    apply IH; [unfold n; lia..|].
    destruct Hlast as [|Hfull]; [by left|right].
    replace (off + n) with ((off / bs + 1) * bs) by lia.
    rewrite Z.mod_mul by lia. lia.
Qed.

Lemma plan_fuel_enough bs off rem :
  0 < bs -> 0 <= rem -> off mod bs + rem <= Z.of_nat (plan_fuel bs rem) * bs.
Proof.
  intros. unfold plan_fuel.
  pose proof (Z.mod_pos_bound off bs). pose proof (Z.div_mod rem bs ltac:(lia)).
  pose proof (Z.mod_pos_bound rem bs). pose proof (Z.div_pos rem bs). nia.
Qed.

(** A tiling is determined by the range: there is one way to cut it. *)
Lemma tiles_le bs start stop segs : tiles bs start stop segs -> start <= stop.
Proof. induction 1; lia. Qed.

Lemma tiles_functional bs start stop s1 s2 :
  tiles bs start stop s1 -> tiles bs start stop s2 -> s1 = s2.
Proof.
  intros H1. revert s2.
  induction H1 as [o|i o len stop rest ??? Hr Ht IH]; intros s2 H2.
  - inversion H2 as [|????????? Ht]; subst; [done|]. apply tiles_le in Ht. lia.
  - inversion H2 as [|i' o' len' ? rest' ??? Hr' Ht']; subst.
    { apply tiles_le in Ht. lia. }
    assert (i' = i) as -> by nia. assert (o' = o) as -> by lia.
    assert (len' = len) as ->; [|by f_equal; apply IH].
    pose proof (tiles_le _ _ _ _ Ht). pose proof (tiles_le _ _ _ _ Ht').
    destruct Hr as [->|]; [inversion Ht|]; (destruct Hr' as [->|]; [inversion Ht'|]); lia.
Qed.

(** Reading the segments of a tiling block by block gives the range. *)
Lemma tiles_bytes bs data start stop segs :
  tiles bs start stop segs -> 0 <= start ->
  mjoin (map (fun '(i, o, len) => slice o (o + len) (file_block bs data i)) segs)
  = slice start stop data.
Proof.
  induction 1 as [o|i o len stop rest ??? Hr Ht IH]; intros Hpos; simpl.
  { by rewrite slice_nil by lia. }
  assert (0 <= i) by nia. unfold file_block at 1.
  rewrite slice_slice by nia. rewrite IH by lia.
  rewrite Z.add_assoc. pose proof (tiles_le _ _ _ _ Ht).
  apply slice_app; lia.
Qed.

Lemma plan_write_loop_tiles bs off rem :
  0 < bs -> 0 <= off -> 0 <= rem -> off + rem < u64_mod ->
  tiles bs off (off + rem)
    (map write_seg (plan_write_loop (plan_fuel bs rem) bs off rem)).
Proof. intros. apply tiles_plan_loop; auto. right. by apply plan_fuel_enough. Qed.

(** The block size and the length [plan_read] works with. *)
Definition plan_block_size (fi : FileInfo) : Z :=
  as_u64 (default (64 * 1024 * 1024) (fi_block_size_bytes fi)).
Definition plan_file_length (fi : FileInfo) : Z := as_u64 (default 0 (fi_length fi)).

Lemma plan_block_size_range fi : is_u64 (plan_block_size fi).
Proof. apply as_u64_range. Qed.

Lemma plan_file_length_range fi : is_u64 (plan_file_length fi).
Proof. apply as_u64_range. Qed.

#[export] Hint Resolve plan_block_size_range plan_file_length_range : goose.

Lemma plan_read_tiles_core fi off len :
  plan_block_size fi <> 0 -> is_u64 off -> is_u64 len ->
  tiles (plan_block_size fi) off
    (Z.max off (Z.min (off + len) (plan_file_length fi)))
    (map read_seg (plan_read fi off len)).
Proof.
  intros Hbs Hoff Hlen. unfold plan_read.
  fold (plan_block_size fi) (plan_file_length fi).
  pose proof (plan_block_size_range fi) as Hb. pose proof (plan_file_length_range fi) as Hf.
  unfold is_u64 in *. unfold u64_saturating_sub.
  destruct (Z.eqb_spec (plan_block_size fi) 0); [lia|]; cbn [orb].
  destruct (Z.eqb_spec len 0); cbn [orb].
  { replace (Z.max _ _) with off by lia. constructor. }
  destruct (Z.leb_spec (plan_file_length fi) off).
  { replace (Z.max _ _) with off by lia. constructor. }
  destruct (Z.eqb_spec (Z.min len (Z.max 0 (plan_file_length fi - off))) 0); [lia|].
  rewrite plan_read_loop_segs.
  replace (Z.max off _)
    with (off + Z.min len (Z.max 0 (plan_file_length fi - off))) by lia.
  apply plan_write_loop_tiles; lia.
Qed.

Lemma plan_read_ids fi off len :
  Forall (fun p => brp_block_id p
                   = default (-1) (zget (fi_block_ids fi) (brp_block_index p)))
    (plan_read fi off len).
Proof.
  unfold plan_read. case_match; [constructor|]. case_match; [constructor|].
  apply plan_read_loop_ids.
Qed.

Lemma tiles_index_bound bs start stop segs :
  tiles bs start stop segs -> 0 <= start ->
  Forall (fun '(i, _, _) => 0 <= i /\ i * bs < stop /\ start < stop) segs.
Proof.
  induction 1 as [|i o len stop rest ??? Hr Ht IH]; intros; constructor.
  - apply tiles_le in Ht. nia.
  - eapply Forall_impl; [apply IH; lia|]. intros [[??]?] ?. lia.
Qed.

(** A read plan executed against the blocks of a file, whatever their ids. *)
Lemma exec_read_plan_blocks fi store data off len :
  plan_block_size fi <> 0 -> is_u64 off -> is_u64 len ->
  plan_file_length fi <= plan_block_size fi * zlen (fi_block_ids fi) ->
  (forall i id, zget (fi_block_ids fi) i = Some id -> 0 <= i ->
     store id = file_block (plan_block_size fi) data i) ->
  exec_read_plan store (plan_read fi off len)
  = slice off (Z.max off (Z.min (off + len) (plan_file_length fi))) data.
Proof.
  intros Hbs Hoff Hlen Hids Hstore.
  pose proof (plan_read_tiles_core fi off len Hbs Hoff Hlen) as Ht.
  pose proof (plan_read_ids fi off len) as Hid.
  pose proof (tiles_index_bound _ _ _ _ Ht (proj1 Hoff)) as Hidx.
  rewrite <- (tiles_bytes _ data _ _ _ Ht (proj1 Hoff)).
  unfold exec_read_plan. rewrite map_map. f_equal. apply map_ext_Forall.
  rewrite Forall_map in Hidx. revert Hid Hidx. rewrite !Forall_forall.
  intros Hid Hidx p Hp. unfold read_seg. rewrite (Hid p Hp).
  destruct (Hidx p Hp) as (Hi0 & Hi1 & Hi2). f_equal.
  destruct (zget (fi_block_ids fi) (brp_block_index p)) as [id|] eqn:E.
  - by apply Hstore.
  - unfold zget in E. apply lookup_ge_None in E. unfold zlen in *.
    assert (brp_block_index p * plan_block_size fi < plan_file_length fi) by lia.
    pose proof (plan_block_size_range fi) as Hr. unfold is_u64 in Hr. nia.
Qed.

(** ** Properties *)

(** C24. Reading a planned range: if the block store holds, under the id listed
    for each block index, that block of the file, then executing the plan that
    [plan_read] makes for [[offset, offset + length)] yields exactly those bytes
    of the file (clamped at its end), for any block size and any [u64] range. *)
Theorem plan_read_reads_range (fi : FileInfo) (store : Z -> bytes) (data : bytes)
    (offset length : Z) :
  is_u64 offset -> is_u64 length ->
  plan_block_size fi <> 0 -> plan_file_length fi = zlen data ->
  zlen data <= plan_block_size fi * zlen (fi_block_ids fi) ->
  (forall i id, zget (fi_block_ids fi) i = Some id -> 0 <= i ->
     store id = file_block (plan_block_size fi) data i) ->
  exec_read_plan store (plan_read fi offset length) = slice offset (offset + length) data.
Proof.
  intros Hoff Hlen Hbs Hfl Hids Hstore.
  rewrite (exec_read_plan_blocks fi store data) by (rewrite ?Hfl; auto).
  rewrite Hfl. unfold is_u64 in *. pose proof (zlen_nonneg data).
  destruct (decide (offset <= zlen data)); [|rewrite !slice_past by lia; done].
  destruct (decide (offset + length <= zlen data)).
  - f_equal. lia.
  - rewrite (slice_clamp _ (offset + length)) by lia. f_equal. lia.
Qed.

(** The file "abcdefghij" in blocks of four bytes, read from offset 2 for 5. *)
Lemma plan_read_reads_range_witness :
  exec_read_plan (fun id => file_block 4 [97;98;99;100;101;102;103;104;105;106] (id - 7))
    (plan_read (file_info_of (Some 10) (Some 4) [7; 8; 9]) 2 5)
  = [99;100;101;102;103].
Proof.
  rewrite (plan_read_reads_range _ _ [97;98;99;100;101;102;103;104;105;106]);
    try (vm_compute; split; congruence); try (vm_compute; congruence).
  intros i id Hget Hi. unfold zget in Hget.
  change (plan_block_size _) with 4.
  destruct (Z.to_nat i) as [|[|[|]]] eqn:E; simplify_eq/=; f_equal; lia.
Defined.

(** [plan_write] cuts the written range [[file_offset, file_offset + length)]
    into the unique block-aligned tiling: contiguous, non-empty segments, one
    per block touched, none crossing a block boundary, nothing left over. *)
Theorem plan_write_tiles (block_size file_offset length : Z) (segs : list (Z * Z * Z)) :
  0 < block_size -> 0 <= file_offset -> 0 <= length ->
  file_offset + length < u64_mod ->
  tiles block_size file_offset (file_offset + length) segs
  <-> segs = map write_seg (plan_write block_size file_offset length).
Proof.
  intros. assert (Hw : tiles block_size file_offset (file_offset + length)
    (map write_seg (plan_write block_size file_offset length))).
  { unfold plan_write. destruct (Z.eqb_spec block_size 0); [lia|]; cbn [orb].
    destruct (Z.eqb_spec length 0) as [->|].
    - rewrite Z.add_0_r. constructor.
    - by apply plan_write_loop_tiles. }
  split; [intros; by eapply tiles_functional|by intros ->].
Qed.

Lemma plan_write_tiles_witness :
  tiles 4 3 (3 + 6) [(0, 3, 1); (1, 0, 4); (2, 0, 1)].
Proof. apply plan_write_tiles; vm_compute; congruence. Defined.
