(* ===== verification/Errors.v ===== *)
(** * Errors (src/src/error.rs)

    The SDK's error type, its conversion from a gRPC status and the
    classification predicates that drive retries and metrics. *)

From S2P Require Import Prelude.

(** The status codes the source distinguishes; [OtherCode] stands for the rest
    of tonic's enumeration, by number. *)
Inductive Code : Type :=
| CodeNotFound
| CodeAlreadyExists
| CodePermissionDenied
| CodeInvalidArgument
| CodeUnauthenticated
| CodeFailedPrecondition
| CodeUnavailable
| CodeDeadlineExceeded
| CodeAborted
| CodeCancelled
| OtherCode (n : Z).

#[global] Instance Code_eq_dec : EqDecision Code.
Proof. solve_decision. Defined.

Record Status : Type := mkStatus {
  status_code : Code;
  status_message : string;
}.

#[global] Instance Status_eq_dec : EqDecision Status.
Proof. solve_decision. Defined.

(** Boxed causes are kept by their printed form only. *)
Inductive Error : Type :=
| GrpcError (message : string) (source : Status)
| TransportError (message : string) (source : string)
| NotFound (path : string)
| AlreadyExists (path : string)
| PermissionDenied (message : string)
| InvalidArgument (message : string)
| MissingField (field : string)
| BlockIoError (message : string)
| NoWorkerAvailable (message : string)
| ResourceExhausted (message : string)
| MasterUnavailable (message : string)
| ConfigError (message : string)
| Internal (message : string) (source : option string)
| FileIncomplete (message : string)
| DirectoryNotEmpty (message : string)
| OpenDirectory (path : string)
| InvalidPath (path : string)
| AuthenticationFailed (message : string).

#[global] Instance Error_eq_dec : EqDecision Error.
Proof. solve_decision. Defined.

(** ** Operations *)

(** [impl From<tonic::Status> for Error].  [code_display] is tonic's [Display]
    of a code, used only in the message of the catch-all variant. *)
Definition from_status (code_display : Code -> string) (status : Status) : Error :=
  let msg := status_message status in
  match status_code status with
  | CodeNotFound => NotFound msg
  | CodeAlreadyExists => AlreadyExists msg
  | CodePermissionDenied => PermissionDenied msg
  | CodeInvalidArgument => InvalidArgument msg
  | CodeUnauthenticated => AuthenticationFailed msg
  | CodeFailedPrecondition =>
      if str_contains "is not empty" msg then DirectoryNotEmpty msg
      else if str_contains "is incomplete" msg then FileIncomplete msg
      else if str_contains "Is a directory" msg then OpenDirectory msg
      else GrpcError ("[" +:+ code_display (status_code status) +:+ "] " +:+ msg) status
  | _ => GrpcError ("[" +:+ code_display (status_code status) +:+ "] " +:+ msg) status
  end.

(** [impl From<tonic::transport::Error> for Error], on the error's printed form. *)
Definition from_transport (err : string) : Error := TransportError err err.

Definition is_retriable (e : Error) : bool :=
  match e with
  | GrpcError _ source =>
      match status_code source with
      | CodeUnavailable | CodeDeadlineExceeded | CodeAborted => true
      | _ => false
      end
  | TransportError _ _ => true
  | AuthenticationFailed _ => true
  | _ => false
  end.

Definition is_not_found (e : Error) : bool :=
  match e with NotFound _ => true | _ => false end.
Definition is_already_exists (e : Error) : bool :=
  match e with AlreadyExists _ => true | _ => false end.
Definition is_file_incomplete (e : Error) : bool :=
  match e with FileIncomplete _ => true | _ => false end.
Definition is_directory_not_empty (e : Error) : bool :=
  match e with DirectoryNotEmpty _ => true | _ => false end.
Definition is_authentication_failed (e : Error) : bool :=
  match e with AuthenticationFailed _ => true | _ => false end.

Definition is_unavailable (e : Error) : bool :=
  match e with
  | GrpcError _ source =>
      match status_code source with
      | CodeUnavailable => true
      | _ => false
      end
  | TransportError _ _ => true
  | _ => false
  end.

Definition is_authentication_error (e : Error) : bool := is_authentication_failed e.

Definition is_access_denied (e : Error) : bool :=
  match e with
  | PermissionDenied _ | AuthenticationFailed _ => true
  | _ => false
  end.

Definition missing_field (field : string) : Error := MissingField field.

(** ** Properties *)

(** Classification of a server status: whatever the message text, the error
    built from a status is retriable exactly for UNAVAILABLE, DEADLINE_EXCEEDED,
    ABORTED and UNAUTHENTICATED, counts as unavailable exactly for UNAVAILABLE,
    as an access problem exactly for PERMISSION_DENIED and UNAUTHENTICATED, as
    not-found exactly for NOT_FOUND; and a rejected credential is never taken
    for an unreachable endpoint. *)
Theorem from_status_classification (code_display : Code -> string) (status : Status) :
  let e := from_status code_display status in
  let c := status_code status in
  (is_retriable e = true <->
     c = CodeUnavailable \/ c = CodeDeadlineExceeded \/ c = CodeAborted
     \/ c = CodeUnauthenticated) /\
  (is_unavailable e = true <-> c = CodeUnavailable) /\
  (is_access_denied e = true <-> c = CodePermissionDenied \/ c = CodeUnauthenticated) /\
  (is_not_found e = true <-> c = CodeNotFound) /\
  (is_authentication_error e = true -> is_unavailable e = false).
Proof.
  destruct status as [c m]. unfold from_status. simpl.
  destruct (str_contains "is not empty" m), (str_contains "is incomplete" m),
    (str_contains "Is a directory" m), c; simpl; intuition congruence.
Qed.
