(* ===== verification/Retry.v ===== *)
(** * Retry policies (src/src/retry.rs)

    The two exponential back-off policies behind the [RetryPolicy] trait.
    Durations are nanoseconds.  The monotonic clock is an input: each call to
    [should_retry] takes the time elapsed since the policy was created.  The
    random jitter is a parameter with the law its range gives it. *)

From S2P Require Import Prelude.

(** [Duration::MAX]: [u64::MAX] seconds and 999,999,999 ns. *)
Definition duration_max : Z := u64_max * 1000000000 + 999999999.

Definition duration_saturating_mul (d n : Z) : Z := Z.min (d * n) duration_max.

(** The [RetryPolicy] trait: [should_retry] updates the policy, reading the
    clock; [base_sleep] is the argument [next_sleep] passes to [add_jitter]. *)
Class RetryPolicy (P : Type) : Type := {
  should_retry : P -> Z -> P * bool;
  attempt_count : P -> Z;
  base_sleep : P -> Z;
}.

Definition next_sleep `{RetryPolicy P} (add_jitter : Z -> Z) (s : P) : Z :=
  add_jitter (base_sleep s).

(** ** ExponentialTimeBoundedRetry *)

Record ExponentialTimeBoundedRetry : Type := mkTimeBounded {
  tb_max_duration : Z;
  tb_max_sleep : Z;
  tb_attempts : Z;
  tb_current_sleep : Z;
}.

Definition time_bounded_new (max_duration initial_sleep max_sleep : Z)
  : ExponentialTimeBoundedRetry :=
  mkTimeBounded max_duration max_sleep 0 initial_sleep.

Definition time_bounded_with_defaults : ExponentialTimeBoundedRetry :=
  time_bounded_new 120000000000 50000000 3000000000.

Definition time_bounded_should_retry (s : ExponentialTimeBoundedRetry) (elapsed : Z)
  : ExponentialTimeBoundedRetry * bool :=
  if tb_attempts s =? 0 then
    (mkTimeBounded (tb_max_duration s) (tb_max_sleep s) 1 (tb_current_sleep s), true)
  else if tb_max_duration s <=? elapsed then (s, false)
  else
    let attempts := as_u32 (tb_attempts s + 1) in
    let current_sleep :=
      if 2 <=? attempts
      then Z.min (duration_saturating_mul (tb_current_sleep s) 2) (tb_max_sleep s)
      else tb_current_sleep s in
    (mkTimeBounded (tb_max_duration s) (tb_max_sleep s) attempts current_sleep, true).

#[global] Instance time_bounded_policy : RetryPolicy ExponentialTimeBoundedRetry := {
  should_retry := time_bounded_should_retry;
  attempt_count := tb_attempts;
  base_sleep := tb_current_sleep;
}.

(** ** ExponentialBackoffRetry *)

Record ExponentialBackoffRetry : Type := mkBackoff {
  bo_max_sleep : Z;
  bo_max_retries : Z;
  bo_attempts : Z;
  bo_current_sleep : Z;
}.

Definition backoff_new (base max_sleep max_retries : Z) : ExponentialBackoffRetry :=
  mkBackoff max_sleep max_retries 0 base.

Definition backoff_should_retry (s : ExponentialBackoffRetry) (elapsed : Z)
  : ExponentialBackoffRetry * bool :=
  if bo_attempts s =? 0 then
    (mkBackoff (bo_max_sleep s) (bo_max_retries s) 1 (bo_current_sleep s), true)
  else if bo_max_retries s <? bo_attempts s then (s, false)
  else
    let attempts := as_u32 (bo_attempts s + 1) in
    let current_sleep :=
      if 2 <=? attempts
      then Z.min (duration_saturating_mul (bo_current_sleep s) 2) (bo_max_sleep s)
      else bo_current_sleep s in
    (mkBackoff (bo_max_sleep s) (bo_max_retries s) attempts current_sleep, true).

#[global] Instance backoff_policy : RetryPolicy ExponentialBackoffRetry := {
  should_retry := backoff_should_retry;
  attempt_count := bo_attempts;
  base_sleep := bo_current_sleep;
}.

(** ** Driving a policy

    The caller's loop [while retry.should_retry() { attempt; sleep }]: one clock
    reading per call, the base sleeps taken after each permitted attempt, until
    the first refusal or the end of the given readings. *)
Fixpoint drive `{RetryPolicy P} (s : P) (clock : list Z) : list Z * P :=
  match clock with
  | [] => ([], s)
  | t :: clock =>
      let '(s', go) := should_retry s t in
      if go then let '(sleeps, s'') := drive s' clock in (base_sleep s' :: sleeps, s'')
      else ([], s')
  end.

(** The documented schedule: the base sleep, then doubling under the cap. *)
Definition backoff_schedule (base max_sleep : Z) (n : nat) : Z :=
  match n with
  | O => base
  | S _ => Z.min (base * 2 ^ Z.of_nat n) max_sleep
  end.

(** ** Lemmas *)

Lemma backoff_schedule_step base max n :
  0 <= base -> 0 <= max <= duration_max ->
  Z.min (duration_saturating_mul (backoff_schedule base max n) 2) max
  = backoff_schedule base max (S n).
Proof.
  intros Hb Hm. unfold duration_saturating_mul.
  pose proof (Z.pow_pos_nonneg 2 (Z.of_nat n) ltac:(lia) ltac:(lia)).
  assert (backoff_schedule base max (S n) = Z.min (base * (2 * 2 ^ Z.of_nat n)) max) as ->.
  { unfold backoff_schedule. rewrite Nat2Z.inj_succ, Z.pow_succ_r by lia. done. }
  destruct n as [|n]; unfold backoff_schedule.
  - change (2 ^ Z.of_nat 0) with 1. lia.
  - set (p := 2 ^ Z.of_nat (S n)) in *. nia.
Qed.

Section Schedules.
Context (base max : Z) (Hbase : 0 <= base) (Hmax : 0 <= max <= duration_max).

(** The state of a count-bounded policy after [k + 1] permitted attempts. *)
Let backoff_at (r : Z) (k : nat) : ExponentialBackoffRetry :=
  mkBackoff max r (Z.of_nat k + 1) (backoff_schedule base max k).

Lemma backoff_step r k t :
  r + 1 < u32_mod ->
  backoff_should_retry (backoff_at r k) t
  = if r <? Z.of_nat k + 1 then (backoff_at r k, false) else (backoff_at r (S k), true).
Proof.
  intros Hk. unfold backoff_should_retry, backoff_at. simpl.
  destruct (Z.eqb_spec (Z.of_nat k + 1) 0); [lia|].
  destruct (Z.ltb_spec r (Z.of_nat k + 1)); [done|].
  unfold as_u32. rewrite Z.mod_small by lia.
  destruct (Z.leb_spec 2 (Z.of_nat k + 1 + 1)); [|lia].
  rewrite backoff_schedule_step by done. do 3 f_equal; lia.
Qed.

Lemma backoff_drive_from r n k clock :
  Z.of_nat (k + n) = r -> r + 1 < u32_mod -> (n < length clock)%nat ->
  drive (backoff_at r k) clock
  = (map (backoff_schedule base max) (seq (S k) n), backoff_at r (k + n)).
Proof.
  revert k clock. induction n as [|n IH]; intros k [|t clock] Hr Hu Hl; simpl in *; [lia| |lia|].
  - rewrite backoff_step by lia. destruct (Z.ltb_spec r (Z.of_nat k + 1)); [|lia].
    by rewrite Nat.add_0_r.
  - rewrite backoff_step by lia. destruct (Z.ltb_spec r (Z.of_nat k + 1)); [lia|].
    rewrite (IH (S k)) by lia. simpl. by rewrite Nat.add_succ_r.
Qed.

(** The state of a time-bounded policy after [k + 1] permitted attempts. *)
Let time_bounded_at (d : Z) (k : nat) : ExponentialTimeBoundedRetry :=
  mkTimeBounded d max (Z.of_nat k + 1) (backoff_schedule base max k).

Lemma time_bounded_step d k t :
  Z.of_nat k + 2 < u32_mod ->
  time_bounded_should_retry (time_bounded_at d k) t
  = if d <=? t then (time_bounded_at d k, false) else (time_bounded_at d (S k), true).
Proof.
  intros Hk. unfold time_bounded_should_retry, time_bounded_at. simpl.
  destruct (Z.eqb_spec (Z.of_nat k + 1) 0); [lia|]. case_match; [done|].
  unfold as_u32. rewrite Z.mod_small by lia.
  destruct (Z.leb_spec 2 (Z.of_nat k + 1 + 1)); [|lia].
  rewrite backoff_schedule_step by done. do 3 f_equal; lia.
Qed.

Lemma time_bounded_drive_from d early late k :
  Forall (fun t => t < d) early ->
  Z.of_nat (k + length early) + 2 < u32_mod ->
  (match late with [] => True | t :: _ => d <= t end) ->
  drive (time_bounded_at d k) (early ++ late)
  = (map (backoff_schedule base max) (seq (S k) (length early)),
     time_bounded_at d (k + length early)).
Proof.
  intros He. revert k. induction He as [|t early Ht He IH]; intros k Hu Hl; simpl in *.
  - rewrite Nat.add_0_r. destruct late as [|t late]; simpl; [done|].
    rewrite time_bounded_step by lia. destruct (Z.leb_spec d t); [done|lia].
  - rewrite time_bounded_step by lia. destruct (Z.leb_spec d t); [lia|].
    rewrite IH by (done || lia). simpl. by rewrite Nat.add_succ_r.
Qed.
End Schedules.

(** ** Properties *)

(** A count-bounded policy allows exactly [max_retries + 1] attempts,
    whatever the clock says, and the sleeps between them follow the documented
    schedule: the base sleep, then doubled at each retry under the cap. *)
Theorem backoff_attempts_and_sleeps (base max retries : Z) (clock : list Z) :
  0 <= base -> 0 <= max <= duration_max -> 0 <= retries -> retries + 1 < u32_mod ->
  retries + 2 <= zlen clock ->
  let run := drive (backoff_new base max retries) clock in
  fst run = map (backoff_schedule base max) (seq 0 (S (Z.to_nat retries))) /\
  attempt_count (snd run) = retries + 1.
Proof.
  intros Hb Hm Hr Hu Hc. unfold zlen in Hc. destruct clock as [|t clock]; simpl in Hc; [lia|].
  pose proof (backoff_drive_from base max Hb Hm retries (Z.to_nat retries) 0 clock
    ltac:(lia) Hu ltac:(lia)) as Hd.
  simpl in *. change (Z.of_nat 0 + 1) with 1 in Hd. rewrite Hd. split; [done|]. simpl. lia.
Qed.

Lemma backoff_attempts_and_sleeps_witness :
  fst (drive (backoff_new 50 150 3) [0; 0; 0; 0; 0]) = [50; 100; 150; 150].
Proof.
  pose proof (backoff_attempts_and_sleeps 50 150 3 [0; 0; 0; 0; 0]
    ltac:(lia) ltac:(vm_compute; split; congruence) ltac:(lia) ltac:(reflexivity)
    ltac:(vm_compute; congruence)) as [H _].
  exact H.
Defined.

(** A time-bounded policy always permits the first attempt, then exactly the
    attempts whose clock reading is before the deadline, and stops at the first
    reading that is not; the sleeps follow the same schedule. *)
Theorem time_bounded_attempts_and_sleeps (base max d t0 : Z) (early late : list Z) :
  0 <= base -> 0 <= max <= duration_max ->
  Forall (fun t => t < d) early -> (match late with [] => True | t :: _ => d <= t end) ->
  zlen early + 2 < u32_mod ->
  let run := drive (time_bounded_new d base max) (t0 :: early ++ late) in
  fst run = map (backoff_schedule base max) (seq 0 (S (length early))) /\
  attempt_count (snd run) = zlen early + 1.
Proof.
  intros Hb Hm He Hl Hu. unfold zlen in *.
  pose proof (time_bounded_drive_from base max Hb Hm d early late 0 He ltac:(lia) Hl) as Hd.
  simpl in *. change (Z.of_nat 0 + 1) with 1 in Hd. rewrite Hd. done.
Qed.

Lemma time_bounded_attempts_and_sleeps_witness :
  fst (drive (time_bounded_new 100 10 25) [200; 30; 90; 100; 50]) = [10; 20; 25].
Proof.
  pose proof (time_bounded_attempts_and_sleeps 10 25 100 200 [30; 90] [100; 50]
    ltac:(lia) ltac:(vm_compute; split; congruence) ltac:(repeat constructor)
    ltac:(simpl; lia) ltac:(reflexivity)) as [H _].
  exact H.
Defined.

(** The cap does not bound the first sleep: a base above the ceiling is used
    once as it is. *)
Example backoff_first_sleep_above_cap :
  fst (drive (backoff_new 500 100 1) [0; 0; 0]) = [500; 100].
Proof. reflexivity. Qed.
