(* ===== verification/RangeCoalesce.v ===== *)
(** * Range coalescing (src/src/io/range_coalesce.rs and the [read_ranges] entry
      of src/src/io/file_reader.rs)

    The planner merges the ranges of a vectored read into fewer, larger fetches;
    the reader issues the fetches and splices each caller range back out.  The
    read of one range is a parameter of the model. *)

From S2P Require Import Prelude Errors.

Record SliceMap : Type := mkSliceMap {
  sm_fetch_index : Z;
  sm_offset_in_fetch : Z;
  sm_len : Z;
}.

Record MergedFetch : Type := mkMergedFetch {
  mf_offset : Z;
  mf_len : Z;
}.

Record CoalescePlan : Type := mkCoalescePlan {
  cp_fetches : list MergedFetch;
  cp_slices : list SliceMap;
  cp_total_input_bytes : Z;
  cp_total_fetch_bytes : Z;
}.

(** ** Operations *)

Definition wasted_bytes (p : CoalescePlan) : Z :=
  u64_saturating_sub (cp_total_fetch_bytes p) (cp_total_input_bytes p).

(** [usize::MAX]. *)
Definition NO_FETCH : Z := u64_max.

Definition u64_sum (l : list Z) : Z := foldl u64_add 0 l.

(** The inputs that need a fetch, with their positions in the caller's order. *)
Definition indexed_nonempty (ranges : list (Z * Z)) : list (nat * Z * Z) :=
  omap (fun '(i, (o, l)) => if 0 <? l then Some (i, o, l) else None)
    (imap pair ranges).

(** The body of the merge loop: absorb one range, in offset order, into the last
    fetch or open a new one. *)
Definition merge_step (gap max_bytes : Z)
    (st : list MergedFetch * list SliceMap) (r : nat * Z * Z)
  : list MergedFetch * list SliceMap :=
  let '(fetches, slices) := st in
  let '(orig_idx, off, len) := r in
  let last_idx := pred (length fetches) in
  match fetches !! last_idx with
  | None => (fetches, slices)
  | Some cur =>
      let cur_offset := mf_offset cur in
      let cur_len := mf_len cur in
      let cur_end := u64_add cur_offset cur_len in
      let candidate_end := Z.max cur_end (u64_add off len) in
      let candidate_len := u64_sub candidate_end cur_offset in
      let within_gap := off <=? u64_saturating_add cur_end gap in
      let effective_cap := Z.max max_bytes cur_len in
      let within_cap := candidate_len <=? effective_cap in
      if within_gap && within_cap then
        (<[last_idx := mkMergedFetch cur_offset candidate_len]> fetches,
         <[orig_idx := mkSliceMap (Z.of_nat last_idx) (u64_sub off cur_offset) len]> slices)
      else
        (fetches ++ [mkMergedFetch off len],
         <[orig_idx := mkSliceMap (Z.of_nat (length fetches)) 0 len]> slices)
  end.

(** The final pass: entries of zero-length inputs get [len = 0]. *)
Definition fill_empty (ranges : list (Z * Z)) (slices : list SliceMap) : list SliceMap :=
  zip_with (fun '(_, l) s =>
    if l =? 0 then mkSliceMap (sm_fetch_index s) (sm_offset_in_fetch s) 0 else s)
    ranges slices.

Definition plan (ranges : list (Z * Z)) (gap max_bytes : Z) : CoalescePlan :=
  let n := length ranges in
  let max_bytes := Z.max max_bytes 1 in
  let slices := replicate n (mkSliceMap NO_FETCH 0 0) in
  let total_input_bytes := u64_sum (map snd ranges) in
  let nonempty := indexed_nonempty ranges in
  match sort_by_key (fun '(_, off, _) => off) nonempty with
  | [] =>
      mkCoalescePlan []
        (zip_with (fun '(_, l) s =>
           mkSliceMap (sm_fetch_index s) (sm_offset_in_fetch s) l) ranges slices)
        total_input_bytes 0
  | (first_orig_idx, first_off, first_len) :: rest =>
      let '(fetches, slices) :=
        foldl (merge_step gap max_bytes)
          ([mkMergedFetch first_off first_len],
           <[first_orig_idx := mkSliceMap 0 0 first_len]> slices) rest in
      mkCoalescePlan fetches (fill_empty ranges slices) total_input_bytes
        (u64_sum (map mf_len fetches))
  end.

(** One [src.slice(offset..offset + len)] per input; [None] is the panic of an
    index or slice out of bounds. *)
Definition splice_one (fetch_bufs : list bytes) (s : SliceMap) : option bytes :=
  if sm_fetch_index s =? NO_FETCH then Some []
  else
    src ← zget fetch_bufs (sm_fetch_index s);
    let e := u64_add (sm_offset_in_fetch s) (sm_len s) in
    if (sm_offset_in_fetch s <=? e) && (e <=? zlen src)
    then Some (slice (sm_offset_in_fetch s) e src)
    else None.

Definition splice_from_plan (p : CoalescePlan) (fetch_bufs : list bytes) : option (list bytes) :=
  mapM (splice_one fetch_bufs) (cp_slices p).

(** The configuration keys the entry point consults. *)
Record RangeConfig : Type := mkRangeConfig {
  range_coalesce_enabled : bool;
  range_coalesce_gap_bytes : Z;
  range_coalesce_max_bytes : Z;
}.

Section ReadRanges.
(** [read_range_with_context(ctx, path, offset, len)] of the open file, and the
    text of the short-read error. *)
Context (read_range : Z -> Z -> result Error bytes).
Context (short_fetch_message : MergedFetch -> bytes -> string).

(** Feature off: one independent read per non-empty range. *)
Fixpoint read_each (ranges : list (Z * Z)) : result Error (list bytes) :=
  match ranges with
  | [] => Ok []
  | (off, len) :: ranges =>
      if len =? 0 then let? out := read_each ranges in Ok ([] :: out)
      else
        let? b := read_range off len in
        let? out := read_each ranges in
        Ok (b :: out)
  end.

(** One read per merged fetch; a fetch of the wrong length fails the batch. *)
Fixpoint read_fetches (fetches : list MergedFetch) : result Error (list bytes) :=
  match fetches with
  | [] => Ok []
  | f :: fetches =>
      let? b := read_range (mf_offset f) (mf_len f) in
      if zlen b =? mf_len f then
        let? out := read_fetches fetches in
        Ok (b :: out)
      else Err (BlockIoError (short_fetch_message f b))
  end.

(** [None] is a panic in the splice layer. *)
Definition read_ranges_with_context (cfg : RangeConfig) (ranges : list (Z * Z))
  : option (result Error (list bytes)) :=
  if negb (range_coalesce_enabled cfg) then Some (read_each ranges)
  else
    let p := plan ranges (range_coalesce_gap_bytes cfg) (range_coalesce_max_bytes cfg) in
    match read_fetches (cp_fetches p) with
    | Err e => Some (Err e)
    | Ok bufs => Ok <$> splice_from_plan p bufs
    end.
End ReadRanges.

(** ** Invariant of the merge loop *)

Definition range_ok (r : Z * Z) : Prop := 0 <= fst r /\ 0 <= snd r /\ fst r + snd r < u64_mod.
Definition fetch_ok (f : MergedFetch) : Prop :=
  0 <= mf_offset f /\ 0 < mf_len f /\ mf_offset f + mf_len f < u64_mod.

(** Slice [s] finds the range [(o, l)] inside its fetch. *)
Definition fits (fetches : list MergedFetch) (s : SliceMap) (o l : Z) : Prop :=
  exists f, zget fetches (sm_fetch_index s) = Some f /\ 0 <= sm_fetch_index s /\
    mf_offset f + sm_offset_in_fetch s = o /\ 0 <= sm_offset_in_fetch s /\
    sm_offset_in_fetch s + l <= mf_len f /\ sm_len s = l.

(** [fs'] extends [fs]: no fetch moves or shrinks. *)
Definition grows (fs fs' : list MergedFetch) : Prop :=
  forall i f, fs !! i = Some f ->
    exists f', fs' !! i = Some f' /\ mf_offset f' = mf_offset f /\ mf_len f <= mf_len f'.

Lemma fits_grows fs fs' s o l : grows fs fs' -> fits fs s o l -> fits fs' s o l.
Proof.
  intros Hg (f & Hf & ? & ? & ? & ? & ?). destruct (Hg _ _ Hf) as (f' & ? & ? & ?).
  exists f'. unfold zget. repeat split; try done; lia.
Qed.

Lemma grows_app fs f : grows fs (fs ++ [f]).
Proof. intros i g Hi. exists g. rewrite lookup_app_l by (by eapply lookup_lt_Some). done. Qed.

Lemma grows_insert fs i f f' :
  fs !! i = Some f -> mf_offset f' = mf_offset f -> mf_len f <= mf_len f' ->
  grows fs (<[i := f']> fs).
Proof.
  intros Hi Ho Hl j g Hj. destruct (decide (i = j)) as [->|Hne].
  - exists f'. rewrite list_lookup_insert_eq by (by eapply lookup_lt_Some).
    by simplify_eq.
  - exists g. by rewrite list_lookup_insert_ne.
Qed.

(** After absorbing the ranges [todo] (a list of indexed inputs), every one of
    them is found by its slice entry, the other entries are untouched, and the
    last fetch starts at or before [lo], the latest offset seen. *)
Record merge_inv (n : nat) (seen : list (nat * Z * Z)) (lo cap hi : Z)
    (st : list MergedFetch * list SliceMap) : Prop := {
  mi_len : length (snd st) = n;
  mi_fetch_ok : Forall fetch_ok (fst st);
  mi_sorted : StronglySorted Z.le (mf_offset <$> fst st);
  mi_cap : Forall (fun f => mf_len f <= cap) (fst st);
  mi_end : Forall (fun f => mf_offset f + mf_len f <= hi) (fst st);
  mi_count : (0 < length (fst st) <= length seen)%nat;
  mi_last : Forall (fun f => mf_offset f <= lo) (fst st);
  mi_seen : forall i o l, (i, o, l) ∈ seen ->
    exists s, snd st !! i = Some s /\ fits (fst st) s o l;
  mi_unseen : forall i, (i < n)%nat -> i ∉ (fst <$> (fst <$> seen)) ->
    snd st !! i = Some (mkSliceMap NO_FETCH 0 0);
}.

(** Recording one more range: only what concerns the fetches is left to show. *)
Lemma merge_inv_record n seen lo cap hi fs ss fs' s i o l :
  merge_inv n seen lo cap hi (fs, ss) ->
  grows fs fs' -> Forall fetch_ok fs' -> StronglySorted Z.le (mf_offset <$> fs') ->
  Forall (fun f => mf_len f <= cap) fs' ->
  Forall (fun f => mf_offset f + mf_len f <= hi) fs' -> (0 < length fs' <= length seen + 1)%nat ->
  Forall (fun f => mf_offset f <= o) fs' ->
  fits fs' s o l -> (i < n)%nat -> i ∉ (fst <$> (fst <$> seen)) ->
  merge_inv n (seen ++ [(i, o, l)]) o cap hi (fs', <[i := s]> ss).
Proof.
  intros [Hlen _ _ _ _ _ _ Hseen Hun] Hg Hok Hs Hc He Hn Hl Hfit Hi Hnew. simpl in *.
  constructor; simpl; try done.
  - by rewrite length_insert.
  - rewrite length_app. simpl. lia.
  - intros j o' l'. rewrite elem_of_app, list_elem_of_singleton.
    intros [Hin|?]; simplify_eq.
    + destruct (Hseen _ _ _ Hin) as (s' & Hs' & Hf). exists s'. split.
      * rewrite list_lookup_insert_ne; [done|]. intros ->. apply Hnew.
        apply list_elem_of_fmap. exists (j, o'). split; [done|].
        apply list_elem_of_fmap. by exists (j, o', l').
      * by eapply fits_grows.
    + exists s. rewrite list_lookup_insert_eq by lia. done.
  - intros j Hj. rewrite !fmap_app, not_elem_of_app. simpl.
    intros [Hj1 Hj2]. rewrite list_lookup_insert_ne; [by apply Hun|].
    intros ->. apply Hj2. left.
Qed.

Lemma merge_step_inv n seen lo cap hi gap max_bytes st i o l :
  merge_inv n seen lo cap hi st ->
  range_ok (o, l) -> o + l <= hi -> 0 < l -> l <= cap -> max_bytes <= cap -> lo <= o -> (i < n)%nat ->
  i ∉ (fst <$> (fst <$> seen)) ->
  merge_inv n (seen ++ [(i, o, l)]) o cap hi (merge_step gap max_bytes st (i, o, l)).
Proof.
  destruct st as [fs ss]. intros Hinv (Ho & Hl0 & Hol) Hhi Hl Hlc Hmc Hlo Hi Hnew.
  pose proof Hinv as [_ Hok Hsort Hcap Hend Hcount Hlast _ _]. simpl in *.
  destruct (fs !! pred (length fs)) as [cur|] eqn:Hcur; last first.
  { apply lookup_ge_None in Hcur. lia. }
  pose proof (Forall_lookup_1 _ _ _ _ Hok Hcur) as (Hc0 & Hc1 & Hc2).
  pose proof (Forall_lookup_1 _ _ _ _ Hlast Hcur) as Hclo. simpl in Hclo.
  pose proof (Forall_lookup_1 _ _ _ _ Hcap Hcur) as Hccap. simpl in Hccap.
  pose proof (Forall_lookup_1 _ _ _ _ Hend Hcur) as Hcend. simpl in Hcend.
  rewrite !(u64_add_small) by lia. rewrite !u64_sub_small by lia.
  assert (Hlast' : Forall (fun f => mf_offset f <= o) fs)
    by (eapply Forall_impl; [exact Hlast|]; simpl; lia).
  set (cand := Z.max (mf_offset cur + mf_len cur) (o + l) - mf_offset cur).
  destruct (_ && _) eqn:Hm; eapply merge_inv_record; eauto.
  all: rewrite ?andb_true_iff, ?Z.leb_le in Hm.
  - eapply grows_insert; [done..|]. simpl. unfold cand. lia.
  - apply Forall_insert; [done|]. repeat split; simpl; unfold cand; lia.
  - rewrite list_fmap_insert. simpl. rewrite list_insert_id; [done|].
    by rewrite list_lookup_fmap, Hcur.
  - apply Forall_insert; [done|]. simpl. lia.
  - apply Forall_insert; [done|]. simpl. unfold cand. lia.
  - rewrite length_insert. lia.
  - apply Forall_insert; [done|]. simpl. lia.
  - eexists. unfold zget. simpl. rewrite Nat2Z.id, list_lookup_insert_eq by lia.
    split; [done|]. simpl. unfold cand. lia.
  - apply grows_app.
  - apply Forall_app_2; [done|]. repeat constructor; simpl; lia.
  - rewrite fmap_app. apply StronglySorted_snoc; [done|]. by apply Forall_fmap.
  - apply Forall_app_2; [done|]. by constructor.
  - apply Forall_app_2; [done|]. by constructor.
  - rewrite length_app. simpl. lia.
  - apply Forall_app_2; [done|]. constructor; simpl; [lia|done].
  - eexists. unfold zget. simpl. rewrite Nat2Z.id, list_lookup_middle by done.
    split; [done|]. simpl. lia.
Qed.

Lemma merge_loop_inv n cap hi gap max_bytes rest seen lo st :
  merge_inv n seen lo cap hi st ->
  max_bytes <= cap ->
  Forall (fun '(i, o, l) => range_ok (o, l) /\ o + l <= hi /\ 0 < l <= cap /\
    (i < n)%nat /\ lo <= o) rest ->
  StronglySorted (fun a b : nat * Z * Z => snd (fst a) <= snd (fst b)) rest ->
  NoDup (fst <$> (fst <$> (seen ++ rest))) ->
  exists lo', merge_inv n (seen ++ rest) lo' cap hi (foldl (merge_step gap max_bytes) st rest).
Proof.
  intros Hinv Hmc. revert seen lo st Hinv.
  induction rest as [|[[i o] l] rest IH]; intros seen lo st Hinv Hall Hs Hnd; simpl.
  { exists lo. by rewrite app_nil_r. }
  apply Forall_cons in Hall as [(Hok & Hhi & Hl & Hi & Hlo) Hall].
  apply StronglySorted_inv in Hs as [Hs Hle].
  change (seen ++ (i, o, l) :: rest) with (seen ++ [(i, o, l)] ++ rest) in *.
  rewrite app_assoc in *. apply (IH _ o); [|..|done|done].
  - eapply merge_step_inv; eauto; [lia..|].
    rewrite !fmap_app in Hnd. apply NoDup_app in Hnd as [Hnd _].
    apply NoDup_app in Hnd as (_ & Hd & _). intros Hin. apply (Hd _ Hin). left.
  - rewrite Forall_forall in *. intros [[j o'] l'] Hin.
    specialize (Hall _ Hin). specialize (Hle _ Hin). simpl in *. tauto.
Qed.

(** ** The indexed inputs *)

Lemma elem_of_indexed_nonempty ranges i o l :
  (i, o, l) ∈ indexed_nonempty ranges <-> ranges !! i = Some (o, l) /\ 0 < l.
Proof.
  unfold indexed_nonempty. rewrite list_elem_of_omap. split.
  - intros ([j [o' l']] & Hin & Hif). apply elem_of_lookup_imap in Hin as (k & [? ?] & ? & ?).
    simplify_eq. destruct (Z.ltb_spec 0 z0); [|done]. by simplify_eq.
  - intros [Hi Hl]. exists (i, (o, l)). split.
    + apply elem_of_lookup_imap. eauto.
    + by destruct (Z.ltb_spec 0 l); [|lia].
Qed.

Lemma NoDup_indexed_nonempty ranges : NoDup (fst <$> (fst <$> indexed_nonempty ranges)).
Proof.
  unfold indexed_nonempty.
  assert (Hgen : forall k,
    let l := omap (fun '(i, (o, l)) => if 0 <? l then Some (i, o, l) else None)
               (imap (fun i x => ((k + i)%nat, x)) ranges) in
    NoDup (fst <$> (fst <$> l)) /\ Forall (fun i => k <= i)%nat (fst <$> (fst <$> l)));
    [|apply (Hgen 0%nat)].
  induction ranges as [|[o l] ranges IH]; intros k; simpl; [by repeat constructor|].
  destruct (IH (S k)) as [Hnd Hge].
  rewrite (imap_ext _ (fun i x => ((S k + i)%nat, x))) by (intros; simpl; f_equal; lia).
  assert (Forall (fun i => k <= i)%nat (fst <$> (fst <$>
    omap (fun '(i, (o, l)) => if 0 <? l then Some (i, o, l) else None)
      (imap (fun i x => ((S k + i)%nat, x)) ranges))))
    by (eapply Forall_impl; [exact Hge|]; simpl; lia).
  destruct (0 <? l); simpl; [|done]. rewrite Nat.add_0_r. split.
  - constructor; [|done]. intros Hin. rewrite Forall_forall in Hge.
    specialize (Hge _ Hin). lia.
  - constructor; [lia|done].
Qed.

(** The largest requested range or the configured bound: the size cap. *)
Definition fetch_cap (ranges : list (Z * Z)) (max_bytes : Z) : Z :=
  foldr Z.max (Z.max max_bytes 1) (map snd ranges).

Lemma fetch_cap_ge ranges max_bytes :
  Z.max max_bytes 1 <= fetch_cap ranges max_bytes /\
  Forall (fun r => snd r <= fetch_cap ranges max_bytes) ranges.
Proof.
  unfold fetch_cap. induction ranges as [|r ranges [IH1 IH2]]; simpl; [split; [lia|done]|].
  split; [lia|]. constructor; [lia|]. eapply Forall_impl; [exact IH2|]. simpl. lia.
Qed.

(** The end of the last requested range. *)
Definition ranges_end (ranges : list (Z * Z)) : Z :=
  foldr Z.max 0 (map (fun r => fst r + snd r) ranges).

Lemma ranges_end_ge ranges : Forall (fun r => fst r + snd r <= ranges_end ranges) ranges.
Proof.
  unfold ranges_end. induction ranges as [|r ranges IH]; simpl; [done|].
  constructor; [lia|]. eapply Forall_impl; [exact IH|]. simpl. lia.
Qed.

Lemma ranges_end_le ranges hi :
  0 <= hi -> Forall (fun r => fst r + snd r <= hi) ranges -> ranges_end ranges <= hi.
Proof. unfold ranges_end. induction 2; simpl; lia. Qed.

(** What the planner guarantees. *)
Record plan_ok (ranges : list (Z * Z)) (cap : Z) (p : CoalescePlan) : Prop := {
  po_len : length (cp_slices p) = length ranges;
  po_fetch_ok : Forall fetch_ok (cp_fetches p);
  po_sorted : StronglySorted Z.le (mf_offset <$> cp_fetches p);
  po_cap : Forall (fun f => mf_len f <= cap) (cp_fetches p);
  po_end : Forall (fun f => mf_offset f + mf_len f <= ranges_end ranges) (cp_fetches p);
  po_count : (length (cp_fetches p) <= length ranges)%nat;
  po_empty : forall i o, ranges !! i = Some (o, 0) ->
    exists s, cp_slices p !! i = Some s /\ sm_fetch_index s = NO_FETCH;
  po_slice : forall i o l, ranges !! i = Some (o, l) -> 0 < l ->
    exists s, cp_slices p !! i = Some s /\ fits (cp_fetches p) s o l;
}.

Lemma lookup_fill_empty ranges slices i o l s :
  ranges !! i = Some (o, l) -> slices !! i = Some s ->
  fill_empty ranges slices !! i
  = Some (if l =? 0 then mkSliceMap (sm_fetch_index s) (sm_offset_in_fetch s) 0 else s).
Proof. intros Hr Hs. unfold fill_empty. by rewrite lookup_zip_with, Hr, Hs. Qed.

(** The state the loop starts from, after the first range in offset order. *)
Lemma merge_inv_first n cap hi i o l :
  range_ok (o, l) -> o + l <= hi -> 0 < l <= cap -> (i < n)%nat ->
  merge_inv n [(i, o, l)] o cap hi
    ([mkMergedFetch o l], <[i := mkSliceMap 0 0 l]> (replicate n (mkSliceMap NO_FETCH 0 0))).
Proof.
  intros (Ho & _ & Hol) Hhi Hl Hi. simpl in *. constructor; simpl.
  - by rewrite length_insert, length_replicate.
  - repeat constructor; simpl; lia.
  - repeat constructor.
  - repeat constructor; simpl; lia.
  - repeat constructor; simpl; lia.
  - lia.
  - repeat constructor; simpl; lia.
  - intros j o' l' ?%list_elem_of_singleton. simplify_eq. eexists.
    rewrite list_lookup_insert_eq by (by rewrite length_replicate).
    split; [done|]. eexists. split; [done|]. simpl. lia.
  - intros j Hj Hne. rewrite list_lookup_insert_ne by (intros ->; apply Hne; left).
    by apply lookup_replicate.
Qed.

Lemma plan_all_empty ranges cap :
  indexed_nonempty ranges = [] -> Forall range_ok ranges ->
  plan_ok ranges cap
    (mkCoalescePlan []
       (zip_with (fun '(_, l) s => mkSliceMap (sm_fetch_index s) (sm_offset_in_fetch s) l)
          ranges (replicate (length ranges) (mkSliceMap NO_FETCH 0 0)))
       (u64_sum (map snd ranges)) 0).
Proof.
  intros Hnil Hok. constructor; simpl; try (by constructor).
  - rewrite length_zip_with, length_replicate. lia.
  - lia.
  - intros i o Hi. exists (mkSliceMap NO_FETCH 0 0). split; [|done].
    rewrite lookup_zip_with, Hi. simpl.
    rewrite lookup_replicate_2 by (by eapply lookup_lt_Some). done.
  - intros i o l Hi Hl.
    assert ((i, o, l) ∈ indexed_nonempty ranges) as Hin by (by apply elem_of_indexed_nonempty).
    rewrite Hnil in Hin. by apply not_elem_of_nil in Hin.
Qed.

(** The invariant at the end of the loop is the planner's guarantee. *)
Lemma plan_ok_of_inv ranges seen lo cap fs ss t1 t2 :
  Forall range_ok ranges -> seen ≡ₚ indexed_nonempty ranges ->
  merge_inv (length ranges) seen lo cap (ranges_end ranges) (fs, ss) ->
  plan_ok ranges cap (mkCoalescePlan fs (fill_empty ranges ss) t1 t2).
Proof.
  intros Hok Hperm [Hlen Hfok Hsort Hcap Hend Hcount _ Hseen Hun]. simpl in *.
  constructor; simpl; try done.
  - unfold fill_empty. rewrite length_zip_with. lia.
  - etrans; [apply Hcount|]. rewrite Hperm. unfold indexed_nonempty.
    etrans; [apply length_omap_le|]. by rewrite length_imap.
  - intros i o Hi. eexists. split; [eapply lookup_fill_empty; [done|]|].
    + apply Hun; [by eapply lookup_lt_Some|]. intros Hin.
      apply list_elem_of_fmap in Hin as ([j o'] & -> & Hin).
      apply list_elem_of_fmap in Hin as ([[j' o''] l'] & ? & Hin). simplify_eq/=.
      rewrite Hperm, elem_of_indexed_nonempty in Hin. destruct Hin. simplify_eq. lia.
    + done.
  - intros i o l Hi Hl. destruct (Hseen i o l) as (s & Hs & Hf).
    { by rewrite Hperm, elem_of_indexed_nonempty. }
    exists s. rewrite (lookup_fill_empty _ _ _ _ _ _ Hi Hs).
    by destruct (Z.eqb_spec l 0); [lia|].
Qed.

Lemma plan_spec ranges gap max_bytes :
  Forall range_ok ranges ->
  plan_ok ranges (fetch_cap ranges max_bytes) (plan ranges gap max_bytes).
Proof.
  intros Hok. unfold plan. set (cap := fetch_cap ranges max_bytes).
  set (key := fun '(_, off, _) => off : Z).
  pose proof (sort_by_key_perm key (indexed_nonempty ranges)) as Hperm.
  pose proof (sort_by_key_sorted key (indexed_nonempty ranges)) as Hsorted.
  pose proof (fetch_cap_ge ranges max_bytes) as [Hmb Hcap].
  pose proof (ranges_end_ge ranges) as Hend.
  assert (Hin : Forall (fun '(i, o, l) => range_ok (o, l) /\ o + l <= ranges_end ranges /\
    0 < l <= cap /\ (i < length ranges)%nat) (sort_by_key key (indexed_nonempty ranges))).
  { rewrite Hperm, Forall_forall. intros [[i o] l]. rewrite elem_of_indexed_nonempty.
    intros [Hi Hl].
    pose proof (Forall_lookup_1 _ _ _ _ Hok Hi). pose proof (Forall_lookup_1 _ _ _ _ Hcap Hi).
    pose proof (Forall_lookup_1 _ _ _ _ Hend Hi).
    repeat (split; [done|]). by eapply lookup_lt_Some. }
  assert (Hnd : NoDup (fst <$> (fst <$> sort_by_key key (indexed_nonempty ranges))))
    by (rewrite Hperm; apply NoDup_indexed_nonempty).
  destruct (sort_by_key key (indexed_nonempty ranges)) as [|[[i0 o0] l0] rest] eqn:Hsort.
  { apply plan_all_empty; [|done]. symmetry. by apply Permutation_nil_l. }
  apply Forall_cons in Hin as [(H1 & H2 & H3 & H4) Hin].
  apply StronglySorted_inv in Hsorted as [Hsorted Hle].
  destruct (merge_loop_inv (length ranges) cap (ranges_end ranges) gap (Z.max max_bytes 1) rest [(i0, o0, l0)] o0
    ([mkMergedFetch o0 l0], <[i0 := mkSliceMap 0 0 l0]>
       (replicate (length ranges) (mkSliceMap NO_FETCH 0 0)))) as [lo' Hinv].
  - by apply merge_inv_first.
  - done.
  - rewrite Forall_forall in *. intros [[i o] l] Hx.
    specialize (Hin _ Hx). specialize (Hle _ Hx). simpl in *. tauto.
  - clear -Hsorted. induction Hsorted as [|[[??]?] l ? IH Hf]; constructor; [done|].
    eapply Forall_impl; [exact Hf|]. by intros [[??]?].
  - done.
  - destruct (foldl _ _ _) as [fs ss]. by eapply plan_ok_of_inv.
Qed.

(** ** Reading through a plan *)

Section Reading.
Context (data : bytes).
Context (read_range : Z -> Z -> result Error bytes).
Context (short_fetch_message : MergedFetch -> bytes -> string).
Hypothesis read_range_ok : forall off len,
  0 <= off -> 0 < len -> off + len <= zlen data ->
  read_range off len = Ok (slice off (off + len) data).

(** The bytes of a fetch. *)
Let fetch_bytes (f : MergedFetch) : bytes :=
  slice (mf_offset f) (mf_offset f + mf_len f) data.

Lemma read_each_in_file ranges :
  Forall range_ok ranges -> Forall (fun r => fst r + snd r <= zlen data) ranges ->
  read_each read_range ranges
  = Ok (map (fun r => slice (fst r) (fst r + snd r) data) ranges).
Proof.
  induction 1 as [|[o l] ranges (Ho & Hl & _) _ IH]; intros Hin; simpl; [done|].
  apply Forall_cons in Hin as [Hr Hin]. simpl in *. rewrite (IH Hin).
  destruct (Z.eqb_spec l 0) as [->|].
  - simpl. by rewrite slice_nil by lia.
  - by rewrite read_range_ok by lia.
Qed.

Lemma read_fetches_in_file fs :
  Forall fetch_ok fs -> Forall (fun f => mf_offset f + mf_len f <= zlen data) fs ->
  read_fetches read_range short_fetch_message fs = Ok (map fetch_bytes fs).
Proof.
  induction 1 as [|f fs (Ho & Hl & _) _ IH]; intros Hin; simpl; [done|].
  apply Forall_cons in Hin as [Hr Hin]. rewrite read_range_ok by lia. simpl.
  rewrite zlen_slice by lia.
  replace (mf_offset f + mf_len f - mf_offset f) with (mf_len f) by lia.
  rewrite Z.eqb_refl. by rewrite (IH Hin).
Qed.

(** A slice that fits its fetch is the caller's range of the file. *)
Lemma splice_one_fits fs s o l :
  Forall fetch_ok fs -> Forall (fun f => mf_offset f + mf_len f <= zlen data) fs ->
  zlen fs < u64_max -> 0 < l -> fits fs s o l ->
  splice_one (map fetch_bytes fs) s = Some (slice o (o + l) data).
Proof.
  intros Hok Hin Hn Hl (f & Hf & H0 & Ho & Hoff & Hlen & Hsl).
  unfold zget in Hf. pose proof (lookup_lt_Some _ _ _ Hf) as Hlt.
  pose proof (Forall_lookup_1 _ _ _ _ Hok Hf) as (? & ? & ?).
  pose proof (Forall_lookup_1 _ _ _ _ Hin Hf) as Hend. simpl in Hend.
  unfold splice_one, zlen in *.
  destruct (Z.eqb_spec (sm_fetch_index s) NO_FETCH) as [E|_]; [unfold NO_FETCH in *; lia|].
  unfold zget. rewrite list_lookup_fmap, Hf. simpl.
  rewrite u64_add_small by lia. rewrite Hsl.
  destruct (Z.leb_spec (sm_offset_in_fetch s) (sm_offset_in_fetch s + l)); [|lia].
  unfold fetch_bytes. fold (zlen (slice (mf_offset f) (mf_offset f + mf_len f) data)).
  rewrite zlen_slice by (unfold zlen; lia).
  destruct (Z.leb_spec (sm_offset_in_fetch s + l) (mf_offset f + mf_len f - mf_offset f));
    [simpl|lia].
  rewrite slice_slice by lia. do 2 f_equal; lia.
Qed.
End Reading.

Lemma splice_from_plan_ok data ranges cap p :
  plan_ok ranges cap p -> Forall range_ok ranges ->
  Forall (fun r => fst r + snd r <= zlen data) ranges -> zlen ranges < u64_max ->
  splice_from_plan p
    (map (fun f => slice (mf_offset f) (mf_offset f + mf_len f) data) (cp_fetches p))
  = Some (map (fun r => slice (fst r) (fst r + snd r) data) ranges).
Proof.
  intros [Hlen Hfok _ _ Hend Hcount Hempty Hslice] Hok Hin Hn.
  assert (Forall (fun f => mf_offset f + mf_len f <= zlen data) (cp_fetches p)) as Hfin.
  { eapply Forall_impl; [exact Hend|]. simpl.
    pose proof (ranges_end_le ranges (zlen data) (zlen_nonneg data) Hin). lia. }
  unfold splice_from_plan. apply mapM_Some_2, Forall2_lookup. intros i.
  rewrite list_lookup_fmap. destruct (ranges !! i) as [[o l]|] eqn:Hi; simpl.
  - pose proof (Forall_lookup_1 _ _ _ _ Hok Hi) as (? & ? & ?). simpl in *.
    destruct (decide (l = 0)) as [->|].
    + destruct (Hempty _ _ Hi) as (s & -> & Hs). constructor.
      unfold splice_one. rewrite Hs. simpl. by rewrite slice_nil by lia.
    + destruct (Hslice _ _ _ Hi ltac:(lia)) as (s & -> & Hs). constructor.
      eapply splice_one_fits; eauto; [|lia]. unfold zlen in *. lia.
  - apply lookup_ge_None in Hi. rewrite lookup_ge_None_2 by lia. constructor.
Qed.

(** ** Properties *)

(** C23. Coalescing is transparent: for ranges that lie inside the file (possibly
    empty, overlapping, unsorted or repeated), [read_ranges] returns, for every
    setting of the three coalescing keys, exactly one buffer per input in the
    caller's order, each holding the bytes of its range. *)
Theorem read_ranges_returns_ranges (data : bytes)
    (read_range : Z -> Z -> result Error bytes)
    (short_fetch_message : MergedFetch -> bytes -> string)
    (cfg : RangeConfig) (ranges : list (Z * Z)) :
  (forall off len, 0 <= off -> 0 < len -> off + len <= zlen data ->
     read_range off len = Ok (slice off (off + len) data)) ->
  Forall range_ok ranges ->
  Forall (fun r => fst r + snd r <= zlen data) ranges -> zlen ranges < u64_max ->
  read_ranges_with_context read_range short_fetch_message cfg ranges
  = Some (Ok (map (fun r => slice (fst r) (fst r + snd r) data) ranges)).
Proof.
  intros Hread Hok Hin Hn. unfold read_ranges_with_context.
  destruct (range_coalesce_enabled cfg); simpl; last first.
  { by rewrite (read_each_in_file data). }
  pose proof (plan_spec ranges (range_coalesce_gap_bytes cfg)
    (range_coalesce_max_bytes cfg) Hok) as Hp.
  rewrite (read_fetches_in_file data); [|done|apply Hp|].
  - by erewrite splice_from_plan_ok by done.
  - eapply Forall_impl; [apply (po_end _ _ _ Hp)|]. simpl.
    pose proof (ranges_end_le ranges (zlen data) (zlen_nonneg data) Hin). lia.
Qed.

Lemma read_ranges_returns_ranges_witness :
  read_ranges_with_context (fun off len => Ok (slice off (off + len) [10;11;12;13;14;15]))
    (fun _ _ => "short"%string) (mkRangeConfig true 1 100) [(4, 2); (0, 2); (5, 0); (1, 3)]
  = Some (Ok [[14; 15]; [10; 11]; []; [11; 12; 13]]).
Proof.
  rewrite (read_ranges_returns_ranges [10;11;12;13;14;15]).
  - reflexivity.
  - reflexivity.
  - repeat constructor; simpl; lia.
  - repeat constructor; simpl; unfold zlen; simpl; lia.
  - reflexivity.
Defined.

(** The fetches of a plan: in ascending offset order, never more than the
    inputs, none reaching past the end of the requested data, and none larger
    than the configured bound unless a single input already is. *)
Theorem plan_fetches_bounded (ranges : list (Z * Z)) (gap max_bytes : Z) :
  Forall range_ok ranges ->
  let fetches := cp_fetches (plan ranges gap max_bytes) in
  StronglySorted Z.le (map mf_offset fetches) /\
  (length fetches <= length ranges)%nat /\
  Forall (fun f => 0 < mf_len f /\ mf_offset f + mf_len f <= ranges_end ranges /\
    mf_len f <= fetch_cap ranges max_bytes) fetches.
Proof.
  intros Hok. destruct (plan_spec ranges gap max_bytes Hok) as [_ Hf Hs Hc He Hn _ _].
  split; [done|]. split; [done|]. rewrite Forall_forall in *.
  intros f Hin. split; [apply (Hf f Hin)|]. split; [apply (He f Hin)|apply (Hc f Hin)].
Qed.

Lemma plan_fetches_bounded_witness :
  Nat.le (length (cp_fetches (plan [(0, 10); (12, 8); (100, 4)] 4 64))) 3.
Proof.
  apply (plan_fetches_bounded [(0, 10); (12, 8); (100, 4)] 4 64).
  repeat constructor; simpl; lia.
Defined.

(** Overlapping inputs can make the fetched total smaller than the requested
    one. *)
Example plan_fetch_total_below_input_total :
  let p := plan [(0, 20); (10, 15)] 0 1024 in
  cp_total_fetch_bytes p = 25 /\ cp_total_input_bytes p = 35.
Proof. vm_compute. split; reflexivity. Qed.

(** A range that runs past the end of the file: served clamped when coalescing is
    off, an error for the whole batch when it is on. *)
Example read_ranges_past_eof_differs :
  let data := [10;11;12;13;14;15] in
  let read off len := Ok (slice off (off + len) data) : result Error bytes in
  let msg := fun _ _ => "short"%string in
  read_ranges_with_context read msg (mkRangeConfig false 0 1) [(4, 10)] = Some (Ok [[14; 15]]) /\
  read_ranges_with_context read msg (mkRangeConfig true 0 1) [(4, 10)]
  = Some (Err (BlockIoError "short")).
Proof. vm_compute. split; reflexivity. Qed.
