(* ===== verification/Crc.v ===== *)
(** * Checksums (src/src/io/crc32.rs, src/src/io/crc32c.rs)

    The two table-driven CRC-32 routines, which differ only in the polynomial,
    as one construction over [poly]; the reference is the bit-by-bit division. *)

From S2P Require Import Prelude.

(** Bitwise complement of a [u32]. *)
Definition u32_not (x : Z) : Z := Z.lxor x 4294967295.

Section Crc.
Context (poly : Z).

(** One iteration of the [while bit < 8] loop. *)
Definition crc_bit (crc : Z) : Z :=
  if negb (Z.land crc 1 =? 0) then Z.lxor (Z.shiftr crc 1) poly else Z.shiftr crc 1.

Fixpoint crc_bits (n : nat) (crc : Z) : Z :=
  match n with
  | O => crc
  | S n => crc_bits n (crc_bit crc)
  end.

(** [make_table]: entry [i] is [i] after eight bit steps. *)
Definition make_table : list Z := map (fun i => crc_bits 8 (Z.of_nat i)) (seq 0 256).

(** The loop of [crc32_append], with [table] the precomputed constant. *)
Definition crc_loop (table : list Z) (crc : Z) (data : bytes) : Z :=
  foldl (fun crc b =>
    let idx := Z.lxor (crc mod 256) b in
    Z.lxor (default 0 (zget table idx)) (Z.shiftr crc 8)) crc data.

(** The reference: shift the message in bit by bit. *)
Definition crc_reference_loop (crc : Z) (data : bytes) : Z :=
  foldl (fun crc b => crc_bits 8 (Z.lxor crc b)) crc data.

Definition crc_reference (crc : Z) (data : bytes) : Z :=
  u32_not (crc_reference_loop (u32_not crc) data).
End Crc.

(** The IEEE and the Castagnoli instances. *)
Definition CRC32_POLY : Z := 3988292384.
Definition CRC32C_POLY : Z := 2197175160.

Definition CRC32_TABLE : list Z := make_table CRC32_POLY.
Definition CRC32C_TABLE : list Z := make_table CRC32C_POLY.

Definition crc32_append (crc : Z) (data : bytes) : Z :=
  u32_not (crc_loop CRC32_TABLE (u32_not crc) data).
Definition crc32 (data : bytes) : Z := crc32_append 0 data.

Definition crc32c_append (crc : Z) (data : bytes) : Z :=
  u32_not (crc_loop CRC32C_TABLE (u32_not crc) data).
Definition crc32c (data : bytes) : Z := crc32c_append 0 data.

(** ** Lemmas *)

Definition is_byte (b : Z) : Prop := 0 <= b < 256.
Definition is_u32 (x : Z) : Prop := 0 <= x < u32_mod.

Lemma land_1_testbit x : negb (Z.land x 1 =? 0) = Z.testbit x 0.
Proof.
  change 1 with (Z.ones 1). rewrite Z.land_ones by lia. change (2 ^ 1) with 2.
  rewrite <- Z.bit0_mod. by destruct (Z.testbit x 0).
Qed.

Section CrcLemmas.
Context (poly : Z).

Lemma crc_bit_alt x :
  crc_bit poly x = Z.lxor (Z.shiftr x 1) (if Z.testbit x 0 then poly else 0).
Proof.
  unfold crc_bit. rewrite land_1_testbit. destruct (Z.testbit x 0); [done|].
  by rewrite Z.lxor_0_r.
Qed.

(** A bit step is linear over exclusive or. *)
Lemma crc_bit_lxor x y : crc_bit poly (Z.lxor x y) = Z.lxor (crc_bit poly x) (crc_bit poly y).
Proof.
  rewrite !crc_bit_alt, Z.shiftr_lxor, Z.lxor_spec.
  destruct (Z.testbit x 0), (Z.testbit y 0); simpl; apply Z.bits_inj; intros i;
    rewrite !Z.lxor_spec, ?Z.bits_0; repeat destruct (Z.testbit _ _); done.
Qed.

Lemma crc_bits_lxor n x y :
  crc_bits poly n (Z.lxor x y) = Z.lxor (crc_bits poly n x) (crc_bits poly n y).
Proof. revert x y. induction n; intros; simpl; [done|]. by rewrite crc_bit_lxor. Qed.

(** Steps over zero low bits only shift. *)
Lemma crc_bits_shiftl n x : crc_bits poly n (Z.shiftl x (Z.of_nat n)) = x.
Proof.
  revert x. induction n as [|n IH]; intros; simpl; [apply Z.shiftl_0_r|].
  rewrite crc_bit_alt, Z.shiftl_spec_low by lia. rewrite Z.lxor_0_r.
  rewrite Z.shiftr_shiftl_l by lia.
  replace (Z.of_nat (S n) - 1) with (Z.of_nat n) by lia. apply IH.
Qed.

(** Eight steps split into a table entry and a shift. *)
Lemma crc_bits_8 x :
  crc_bits poly 8 x = Z.lxor (crc_bits poly 8 (x mod 256)) (Z.shiftr x 8).
Proof.
  rewrite <- (crc_bits_shiftl 8 (Z.shiftr x 8)) at 1. rewrite <- crc_bits_lxor.
  f_equal. change 256 with (2 ^ 8). rewrite <- Z.land_ones by lia.
  apply Z.bits_inj'. intros i Hi. rewrite Z.lxor_spec, Z.land_spec.
  destruct (decide (i < 8)).
  - rewrite Z.ones_spec_low, Z.shiftl_spec_low by lia. by destruct (Z.testbit x i).
  - rewrite Z.ones_spec_high, Z.shiftl_spec, Z.shiftr_spec by lia.
    rewrite andb_false_r. simpl. f_equal. simpl. lia.
Qed.

Lemma make_table_lookup i :
  is_byte i -> default 0 (zget (make_table poly) i) = crc_bits poly 8 i.
Proof.
  unfold is_byte, zget, make_table. intros Hi.
  rewrite list_lookup_fmap, lookup_seq_lt by lia.
  cbn -[crc_bits Z.to_nat]. by rewrite Z2Nat.id by lia.
Qed.

Lemma lxor_byte x b : is_byte b -> Z.lxor x b mod 256 = Z.lxor (x mod 256) b.
Proof.
  unfold is_byte. intros Hb. change 256 with (2 ^ 8).
  rewrite <- !Z.land_ones by lia.
  rewrite <- (Z.mod_small b (2 ^ 8)) at 2 by (simpl; lia).
  rewrite <- Z.land_ones by lia.
  apply Z.bits_inj. intros i. rewrite !Z.land_spec, !Z.lxor_spec, !Z.land_spec.
  by destruct (Z.testbit x i), (Z.testbit b i), (Z.testbit (Z.ones 8) i).
Qed.

Lemma crc_loop_reference crc data :
  Forall is_byte data ->
  crc_loop (make_table poly) crc data = crc_reference_loop poly crc data.
Proof.
  intros Hd. revert crc. induction Hd as [|b data Hb _ IH]; intros crc; [done|].
  unfold crc_loop, crc_reference_loop in *. cbn [foldl]. rewrite IH. f_equal.
  rewrite (crc_bits_8 (Z.lxor crc b)), lxor_byte by done.
  rewrite make_table_lookup.
  - f_equal. rewrite Z.shiftr_lxor.
    rewrite (Z.shiftr_div_pow2 b) by lia. rewrite Z.div_small by (apply Hb).
    by rewrite Z.lxor_0_r.
  - rewrite <- lxor_byte by done. apply Z.mod_pos_bound. lia.
Qed.
End CrcLemmas.

(** The complement undoes itself, so a running value can be taken up again. *)
Lemma u32_not_involutive x : u32_not (u32_not x) = x.
Proof. unfold u32_not. by rewrite Z.lxor_assoc, Z.lxor_nilpotent, Z.lxor_0_r. Qed.

Lemma crc_loop_app table crc a b :
  crc_loop table crc (a ++ b) = crc_loop table (crc_loop table crc a) b.
Proof. unfold crc_loop. apply foldl_app. Qed.

(** ** Properties *)

(** C40. The table-driven CRC-32 and CRC-32C equal the bit-by-bit polynomial
    division they tabulate, on every running value and every byte string. *)
Theorem crc_tables_match_reference (crc : Z) (data : bytes) :
  Forall is_byte data ->
  crc32_append crc data = crc_reference CRC32_POLY crc data /\
  crc32c_append crc data = crc_reference CRC32C_POLY crc data.
Proof.
  intros Hd. unfold crc32_append, crc32c_append, crc_reference, CRC32_TABLE, CRC32C_TABLE.
  by rewrite !crc_loop_reference.
Qed.

(** "123456789", the check string of both polynomials. *)
Lemma crc_tables_match_reference_witness :
  crc32 [49;50;51;52;53;54;55;56;57] = 3421780262 /\
  crc32c [49;50;51;52;53;54;55;56;57] = 3808858755.
Proof.
  destruct (crc_tables_match_reference 0 [49;50;51;52;53;54;55;56;57]) as [H1 H2].
  - repeat constructor; unfold is_byte; lia.
  - unfold crc32, crc32c. rewrite H1, H2. vm_compute. split; reflexivity.
Defined.

(** Checksums can be computed piecewise: continuing from the output for a
    prefix gives the checksum of the whole, for both polynomials and any cut. *)
Theorem crc_append_app (crc : Z) (a b : bytes) :
  crc32_append (crc32_append crc a) b = crc32_append crc (a ++ b) /\
  crc32c_append (crc32c_append crc a) b = crc32c_append crc (a ++ b).
Proof.
  unfold crc32_append, crc32c_append.
  by rewrite !u32_not_involutive, !crc_loop_app.
Qed.
