(* ===== verification/Murmur3.v ===== *)
(** * Murmur3 (src/src/block/murmur3.rs)

    MurmurHash3_x64_128 and the Guava-compatible key hash the hash ring uses.
    Words are [u64]s; every operation wraps as the source's [wrapping_*]. *)

From S2P Require Import Prelude.

(** ** Word operations *)

Definition rotate_left (x k : Z) : Z :=
  Z.lor (as_u64 (Z.shiftl x k)) (Z.shiftr x (64 - k)).

(** [u64::from_le_bytes] and [to_le_bytes]. *)
Fixpoint from_le_bytes (l : bytes) : Z :=
  match l with
  | [] => 0
  | b :: l => b + 256 * from_le_bytes l
  end.

Fixpoint to_le_bytes (n : nat) (x : Z) : bytes :=
  match n with
  | O => []
  | S n => x mod 256 :: to_le_bytes n (x / 256)
  end.

Definition C1 : Z := 9782798678568883157.
Definition C2 : Z := 5545529020109919103.

Definition read_u64_le (data : bytes) (off : Z) : Z :=
  from_le_bytes (slice off (off + 8) data).

(** ** The hash *)

Definition mix_k1 (k1 : Z) : Z := u64_mul (rotate_left (u64_mul k1 C1) 31) C2.
Definition mix_k2 (k2 : Z) : Z := u64_mul (rotate_left (u64_mul k2 C2) 33) C1.

(** One 16-byte block of the body loop. *)
Definition murmur_block (data : bytes) (h : Z * Z) (i : nat) : Z * Z :=
  let '(h1, h2) := h in
  let off := Z.of_nat i * 16 in
  let k1 := read_u64_le data off in
  let k2 := read_u64_le data (off + 8) in
  let h1 := Z.lxor h1 (mix_k1 k1) in
  let h1 := u64_add (rotate_left h1 27) h2 in
  let h1 := u64_add (u64_mul h1 5) 1390208809 in
  let h2 := Z.lxor h2 (mix_k2 k2) in
  let h2 := u64_add (rotate_left h2 31) h1 in
  let h2 := u64_add (u64_mul h2 5) 944331445 in
  (h1, h2).

(** [if n >= j + 1 { k ^= u64::from(tail[j]) << shift }]. *)
Definition tail_byte (tail : bytes) (k : Z) (j : nat) (shift : Z) : Z :=
  match tail !! j with
  | Some b => Z.lxor k (Z.shiftl b shift)
  | None => k
  end.

Definition murmur_tail (tail : bytes) (h : Z * Z) : Z * Z :=
  let '(h1, h2) := h in
  let n := length tail in
  let h2 :=
    if (9 <=? n)%nat then
      let k2 := tail_byte tail 0 14 48 in
      let k2 := tail_byte tail k2 13 40 in
      let k2 := tail_byte tail k2 12 32 in
      let k2 := tail_byte tail k2 11 24 in
      let k2 := tail_byte tail k2 10 16 in
      let k2 := tail_byte tail k2 9 8 in
      let k2 := tail_byte tail k2 8 0 in
      Z.lxor h2 (mix_k2 k2)
    else h2 in
  let h1 :=
    if (1 <=? n)%nat then
      let k1 := tail_byte tail 0 7 56 in
      let k1 := tail_byte tail k1 6 48 in
      let k1 := tail_byte tail k1 5 40 in
      let k1 := tail_byte tail k1 4 32 in
      let k1 := tail_byte tail k1 3 24 in
      let k1 := tail_byte tail k1 2 16 in
      let k1 := tail_byte tail k1 1 8 in
      let k1 := tail_byte tail k1 0 0 in
      Z.lxor h1 (mix_k1 k1)
    else h1 in
  (h1, h2).

Definition fmix64 (k : Z) : Z :=
  let k := Z.lxor k (Z.shiftr k 33) in
  let k := u64_mul k 18397679294719823053 in
  let k := Z.lxor k (Z.shiftr k 33) in
  let k := u64_mul k 14181476777654086739 in
  Z.lxor k (Z.shiftr k 33).

Definition murmurhash3_x64_128 (data : bytes) (seed : Z) : Z * Z :=
  let len := zlen data in
  let nblocks := (length data / 16)%nat in
  let '(h1, h2) := foldl (murmur_block data) (seed, seed) (seq 0 nblocks) in
  let '(h1, h2) := murmur_tail (drop (nblocks * 16) data) (h1, h2) in
  let h1 := Z.lxor h1 len in
  let h2 := Z.lxor h2 len in
  let h1 := u64_add h1 h2 in
  let h2 := u64_add h2 h1 in
  let h1 := fmix64 h1 in
  let h2 := fmix64 h2 in
  let h1 := u64_add h1 h2 in
  let h2 := u64_add h2 h1 in
  (h1, h2).

Definition murmur3_128_as_long_put_long_int (key index : Z) : Z :=
  let buf := to_le_bytes 8 key ++ to_le_bytes 4 index in
  as_i64 (fst (murmurhash3_x64_128 buf 0)).

(** ** Lemmas *)

(** The inverse of the finaliser: the same xor-shifts around the multiplicative
    inverses of its two odd constants. *)
Definition fmix64_inv (k : Z) : Z :=
  let k := Z.lxor k (Z.shiftr k 33) in
  let k := u64_mul k 11291846944257947611 in
  let k := Z.lxor k (Z.shiftr k 33) in
  let k := u64_mul k 5725274745694666757 in
  Z.lxor k (Z.shiftr k 33).

Lemma shiftr_small x n : 0 <= n -> 0 <= x < 2 ^ n -> Z.shiftr x n = 0.
Proof. intros. rewrite Z.shiftr_div_pow2 by lia. by apply Z.div_small. Qed.

(** Shifting by more than half the word twice clears it. *)
Lemma xorshift_involutive x :
  is_u64 x -> Z.lxor (Z.lxor x (Z.shiftr x 33)) (Z.shiftr (Z.lxor x (Z.shiftr x 33)) 33) = x.
Proof.
  intros Hx. rewrite Z.shiftr_lxor, Z.shiftr_shiftr by lia.
  rewrite (shiftr_small x (33 + 33)) by (unfold is_u64, u64_mod in Hx; lia).
  by rewrite Z.lxor_0_r, Z.lxor_assoc, Z.lxor_nilpotent, Z.lxor_0_r.
Qed.

Lemma lxor_u64 x y : is_u64 x -> is_u64 y -> is_u64 (Z.lxor x y).
Proof.
  unfold is_u64. change u64_mod with (2 ^ 64). intros Hx Hy.
  assert (Hn : 0 <= Z.lxor x y) by (apply Z.lxor_nonneg; lia). split; [done|].
  destruct (Z.eq_dec (Z.lxor x y) 0) as [->|Hne]; [lia|].
  apply Z.log2_lt_pow2; [lia|].
  pose proof (Z.log2_lxor x y ltac:(lia) ltac:(lia)).
  assert (Hlog : forall z, 0 <= z < 2 ^ 64 -> Z.log2 z < 64).
  { intros z Hz. destruct (Z.eq_dec z 0) as [->|]; [done|]. apply Z.log2_lt_pow2; lia. }
  pose proof (Hlog x Hx). pose proof (Hlog y Hy). lia.
Qed.

Lemma shiftr_u64 x n : is_u64 x -> 0 <= n -> is_u64 (Z.shiftr x n).
Proof.
  unfold is_u64. intros Hx Hn. rewrite Z.shiftr_div_pow2 by lia.
  pose proof (Z.pow_pos_nonneg 2 n ltac:(lia) Hn). split.
  - apply Z.div_pos; lia.
  - apply Z.div_lt_upper_bound; nia.
Qed.

Lemma u64_mul_inverse x c c' : is_u64 x -> as_u64 (c * c') = 1 -> u64_mul (u64_mul x c) c' = x.
Proof.
  intros Hx Hc. unfold u64_mul, as_u64 in *.
  rewrite Z.mul_mod_idemp_l by done. rewrite <- Z.mul_assoc, <- Z.mul_mod_idemp_r by done.
  rewrite Hc, Z.mul_1_r. by apply Z.mod_small.
Qed.

#[export] Hint Resolve lxor_u64 shiftr_u64 as_u64_range : goose.

Lemma u64_mul_range a b : is_u64 (u64_mul a b).
Proof. apply as_u64_range. Qed.
Lemma xorshift_u64 x : is_u64 x -> is_u64 (Z.lxor x (Z.shiftr x 33)).
Proof. intros. apply lxor_u64; [done|]. by apply shiftr_u64. Qed.
#[export] Hint Resolve u64_mul_range xorshift_u64 : goose.

Lemma from_to_le_bytes n x :
  from_le_bytes (to_le_bytes n x) = x mod 256 ^ Z.of_nat n.
Proof.
  revert x. induction n as [|n IH]; intros x; simpl; [by rewrite Z.mod_1_r|].
  rewrite IH, Nat2Z.inj_succ, Z.pow_succ_r by lia.
  rewrite Z.rem_mul_r; lia.
Qed.

(** ** Properties *)

(** The finaliser loses nothing: [fmix64] has an explicit inverse on 64-bit
    words, so distinct words keep distinct hashes through it. *)
Theorem fmix64_invertible (k : Z) : is_u64 k -> fmix64_inv (fmix64 k) = k.
Proof.
  intros Hk. unfold fmix64_inv, fmix64. cbv zeta.
  rewrite xorshift_involutive by auto with goose.
  rewrite u64_mul_inverse by (auto with goose || reflexivity).
  rewrite xorshift_involutive by auto with goose.
  rewrite u64_mul_inverse by (auto with goose || reflexivity).
  by apply xorshift_involutive.
Qed.

Lemma fmix64_invertible_witness : fmix64_inv (fmix64 1234567890123456789) = 1234567890123456789.
Proof. apply fmix64_invertible. vm_compute. split; congruence. Defined.

(** Parity with Guava: the key hash reproduces the golden vectors the server
    side computes with [murmur3_128().putLong(key).putInt(index).asLong()]. *)
Theorem murmur3_golden_vectors :
  map (fun '(key, index) => murmur3_128_as_long_put_long_int key index)
    [(1, 0); (42, 7); (100, 1); (-1, 0); (0, 0); (85429583872, 0);
     (8769479697893324776, 0)]
  = [8673688779682957586; 1969424773395075097; -8854681018154386345;
     7097917686268154775; -6568239567428591645; -5867849384608515022;
     -6296241382218419536].
Proof. vm_compute. reflexivity. Qed.
