(* ===== verification/HashRing.v ===== *)
(** * Consistent hashing (src/src/block/router.rs, free functions)

    The hash ring over virtual nodes, its ceiling lookup, and the two selection
    walks shared by the router and its per-reader view.  A [BTreeMap] is its
    list of entries in ascending key order; [binary_search] is specified by the
    position it returns on a sorted slice. *)

From stdpp Require Import pretty.
From S2P Require Import Prelude Proto Murmur3.

Definition VIRTUAL_NODES_PER_WORKER : Z := 5000.
Definition DEFAULT_HASH_POLICY_MAX_ATTEMPTS : Z := 100.

(** ** Addresses *)

Definition worker_addr_key (addr : WorkerNetAddress) : string :=
  let host := default "unknown"%string (wna_host addr) in
  let port := default 0 (wna_rpc_port addr) in
  host +:+ ":" +:+ pretty port.

Definition rpc_endpoint (addr : WorkerNetAddress) : string :=
  let host := default "127.0.0.1"%string (wna_host addr) in
  let port := default 9203 (wna_rpc_port addr) in
  host +:+ ":" +:+ pretty port.

(** ** The ring *)

Definition murmur3_guava_long_int (key index : Z) : Z :=
  murmur3_128_as_long_put_long_int key index.

(** [BTreeMap::insert]: replaces the value of an equal key. *)
Fixpoint btree_insert {A : Type} (k : Z) (v : A) (m : list (Z * A)) : list (Z * A) :=
  match m with
  | [] => [(k, v)]
  | (k', v') :: m' =>
      if k <? k' then (k, v) :: m
      else if k =? k' then (k, v) :: m'
      else (k', v') :: btree_insert k v m'
  end.

(** [for vn in 0..virtual_nodes { map.insert(hash, idx) }], [n] iterations
    starting at [vn]. *)
Fixpoint insert_virtual_nodes (n : nat) (vn worker_id : Z) (idx : nat)
    (m : list (Z * nat)) : list (Z * nat) :=
  match n with
  | O => m
  | S n =>
      insert_virtual_nodes n (vn + 1) worker_id idx
        (btree_insert (murmur3_guava_long_int worker_id (as_i32 vn)) idx m)
  end.

Definition ring_worker_id (idx : nat) (w : WorkerInfo) : Z :=
  default (Z.of_nat idx) (wi_id w).
Definition ring_virtual_nodes (w : WorkerInfo) : Z :=
  as_u32 (default VIRTUAL_NODES_PER_WORKER (wi_virtual_node_num w)).

Fixpoint build_ring_from (idx : nat) (workers : list WorkerInfo) (m : list (Z * nat))
  : list (Z * nat) :=
  match workers with
  | [] => m
  | w :: workers =>
      build_ring_from (S idx) workers
        (insert_virtual_nodes (Z.to_nat (ring_virtual_nodes w)) 0 (ring_worker_id idx w) idx m)
  end.

Definition build_hash_ring (workers : list WorkerInfo) : list (Z * nat) :=
  build_ring_from 0 workers [].

(** [binary_search_by_key] on a slice sorted by distinct keys: [inl i] is [Ok(i)],
    [inr i] is [Err(i)] with [i] the insertion point. *)
Fixpoint binary_search_by_key {A : Type} (ring : list (Z * A)) (target : Z) : nat + nat :=
  match ring with
  | [] => inr O
  | (h, _) :: ring =>
      if target <? h then inr O
      else if target =? h then inl O
      else match binary_search_by_key ring target with
           | inl i => inl (S i)
           | inr i => inr (S i)
           end
  end.

Definition ring_ceiling_worker_index (ring : list (Z * nat)) (target : Z) : option nat :=
  match ring with
  | [] => None
  | first :: _ =>
      match binary_search_by_key ring target with
      | inl i => snd <$> ring !! i
      | inr i => if (i <? length ring)%nat then snd <$> ring !! i else Some (snd first)
      end
  end.

(** ** Selecting one worker *)

Section Select.
(** The failure predicate the caller passes in. *)
Context (is_failed_fn : string -> bool).
Context (block_id : Z) (workers : list WorkerInfo) (ring : list (Z * nat)).

Fixpoint select_loop (fuel : nat) (skip_failed : bool) (visited : gset nat) (attempts : Z)
  : option WorkerInfo :=
  match fuel with
  | O => None
  | S fuel =>
      if (size visited <? length workers)%nat
         && (attempts <? DEFAULT_HASH_POLICY_MAX_ATTEMPTS) then
        let target := murmur3_guava_long_int block_id attempts in
        match ring_ceiling_worker_index ring target with
        | None => None
        | Some worker_idx =>
            let visited := {[ worker_idx ]} ∪ visited in
            let continue := select_loop fuel skip_failed visited (attempts + 1) in
            match workers !! worker_idx with
            | None => continue
            | Some w =>
                if negb skip_failed then Some w
                else match wi_address w with
                     | Some addr =>
                         if negb (is_failed_fn (worker_addr_key addr)) then Some w
                         else continue
                     | None => continue
                     end
            end
        end
      else None
  end.

Definition consistent_hash_select_from_ring (skip_failed : bool) : option WorkerInfo :=
  match ring, workers with
  | [], _ | _, [] => None
  | _, _ => select_loop (Z.to_nat DEFAULT_HASH_POLICY_MAX_ATTEMPTS) skip_failed ∅ 0
  end.

(** ** Selecting several workers *)

Record SelectState : Type := mkSelectState {
  ss_selected : list WorkerInfo;
  ss_hosts : gset string;
  ss_idxs : gset nat;
  ss_visited : gset nat;
}.

(** One iteration of the loop body after the ceiling lookup gave [worker_idx]. *)
Definition select_n_body (skip_failed : bool) (worker_idx : nat) (st : SelectState)
  : SelectState :=
  let visited := {[ worker_idx ]} ∪ ss_visited st in
  let continue := mkSelectState (ss_selected st) (ss_hosts st) (ss_idxs st) visited in
  if bool_decide (worker_idx ∈ ss_idxs st) then continue
  else match workers !! worker_idx with
  | None => continue
  | Some w =>
      match wi_address w with
      | None => continue
      | Some addr =>
          if skip_failed && is_failed_fn (worker_addr_key addr) then continue
          else
            let host := default ""%string (wna_host addr) in
            if negb (bool_decide (host = ""%string)) && bool_decide (host ∈ ss_hosts st)
            then continue
            else
              mkSelectState (ss_selected st ++ [w])
                (if negb (bool_decide (host = ""%string)) then {[ host ]} ∪ ss_hosts st
                 else ss_hosts st)
                ({[ worker_idx ]} ∪ ss_idxs st) visited
      end
  end.

Fixpoint select_n_loop (fuel count : nat) (skip_failed : bool) (attempts : Z)
    (st : SelectState) : SelectState :=
  match fuel with
  | O => st
  | S fuel =>
      if (length (ss_selected st) <? count)%nat
         && (size (ss_visited st) <? length workers)%nat
         && (attempts <? DEFAULT_HASH_POLICY_MAX_ATTEMPTS) then
        let target := murmur3_guava_long_int block_id attempts in
        match ring_ceiling_worker_index ring target with
        | None => st
        | Some worker_idx =>
            select_n_loop fuel count skip_failed (attempts + 1)
              (select_n_body skip_failed worker_idx st)
        end
      else st
  end.

Definition consistent_hash_select_n_from_ring (count : nat) (skip_failed : bool)
  : list WorkerInfo :=
  match count, ring, workers with
  | O, _, _ | _, [], _ | _, _, [] => []
  | _, _, _ =>
      ss_selected (select_n_loop (Z.to_nat DEFAULT_HASH_POLICY_MAX_ATTEMPTS) count
        skip_failed 0 (mkSelectState [] ∅ ∅ ∅))
  end.

(** ** Workers named by the master's block locations *)

Fixpoint workers_from_locations_loop (locations : list BlockLocation) (count : nat)
    (seen_ids : gset Z) (selected : list WorkerInfo) : list WorkerInfo :=
  match locations with
  | [] => selected
  | loc :: locations =>
      let continue := workers_from_locations_loop locations count in
      match bl_worker_id loc with
      | None => continue seen_ids selected
      | Some wid =>
          if bool_decide (wid ∈ seen_ids) then continue seen_ids selected
          else
            let seen_ids := {[ wid ]} ∪ seen_ids in
            match List.find (fun w => bool_decide (wi_id w = Some wid)) workers with
            | None => continue seen_ids selected
            | Some w =>
                match wi_address w with
                | None => continue seen_ids selected
                | Some addr =>
                    if is_failed_fn (worker_addr_key addr) then continue seen_ids selected
                    else
                      let selected := selected ++ [w] in
                      if (count <=? length selected)%nat then selected
                      else continue seen_ids selected
                end
            end
      end
  end.

Definition workers_from_block_locations (locations : list BlockLocation) (count : nat)
  : list WorkerInfo :=
  match locations, count with
  | [], _ | _, O => []
  | _, _ => workers_from_locations_loop locations count ∅ []
  end.
End Select.

(** ** The ring is a sorted map from virtual-node hashes to workers *)

Definition ring_sorted {A : Type} (m : list (Z * A)) : Prop := StronglySorted Z.lt (fst <$> m).

Lemma ring_sorted_cons {A : Type} k (v : A) m :
  ring_sorted ((k, v) :: m) <-> ring_sorted m /\ Forall (fun e => k < fst e) m.
Proof.
  unfold ring_sorted. simpl. split.
  - intros [Hs Hf]%StronglySorted_inv. split; [done|]. exact (proj1 (Forall_fmap _ _ _) Hf).
  - intros [Hs Hf]. constructor; [done|]. exact (proj2 (Forall_fmap _ _ _) Hf).
Qed.

Lemma elem_of_btree_insert {A : Type} k (v : A) m k' v' :
  ring_sorted m ->
  (k', v') ∈ btree_insert k v m <-> (k' = k /\ v' = v) \/ (k' <> k /\ (k', v') ∈ m).
Proof.
  induction m as [|[k0 v0] m IH]; intros Hs; simpl.
  { rewrite list_elem_of_singleton. set_solver. }
  apply ring_sorted_cons in Hs as [Hs Hk]. rewrite Forall_forall in Hk.
  destruct (Z.ltb_spec k k0); [|destruct (Z.eqb_spec k k0) as [<-|Hne]].
  - rewrite elem_of_cons, pair_equal_spec. split; [|tauto].
    intros [?|Hin]; [tauto|]. right. split; [|done].
    apply elem_of_cons in Hin as [?|Hin]; [simplify_eq; lia|].
    apply Hk in Hin. simpl in Hin. lia.
  - rewrite !elem_of_cons, !pair_equal_spec. split.
    + intros [?|Hin]; [tauto|]. right. split; [|by right].
      apply Hk in Hin. simpl in Hin. lia.
    + intros [?|[? [?|?]]]; tauto.
  - rewrite !elem_of_cons, IH, pair_equal_spec by done.
    destruct (decide (k' = k)) as [->|]; [|tauto].
    split; [intros [[-> _]|?]; [lia|tauto]|tauto].
Qed.

Lemma btree_insert_sorted {A : Type} k (v : A) m :
  ring_sorted m -> ring_sorted (btree_insert k v m).
Proof.
  induction m as [|[k0 v0] m IH]; intros Hs; simpl; [by repeat constructor|].
  pose proof Hs as [Hs' Hk]%ring_sorted_cons.
  destruct (Z.ltb_spec k k0); [|destruct (Z.eqb_spec k k0) as [<-|Hne]].
  - apply ring_sorted_cons. split; [done|]. constructor; [done|].
    eapply Forall_impl; [exact Hk|]. simpl. lia.
  - by apply ring_sorted_cons.
  - apply ring_sorted_cons. split; [by apply IH|].
    rewrite Forall_forall in *. intros [k' v'] Hin.
    apply elem_of_btree_insert in Hin as [[-> ->]|[_ Hin]]; [simpl; lia|by apply Hk|done].
Qed.

#[export] Hint Resolve btree_insert_sorted : goose.

Lemma insert_virtual_nodes_sorted n vn id idx m :
  ring_sorted m -> ring_sorted (insert_virtual_nodes n vn id idx m).
Proof. revert vn m. induction n; intros; simpl; auto with goose. Qed.

Lemma build_ring_from_sorted idx ws m : ring_sorted m -> ring_sorted (build_ring_from idx ws m).
Proof.
  revert idx m. induction ws; intros; simpl; [done|].
  apply IHws. by apply insert_virtual_nodes_sorted.
Qed.

Lemma build_hash_ring_sorted ws : ring_sorted (build_hash_ring ws).
Proof. apply build_ring_from_sorted. constructor. Qed.

(** Hash [h] is that of one of the [n] virtual nodes of worker [id] from [vn] on. *)
Definition vnode_hash (id vn n h : Z) : Prop :=
  exists k, vn <= k < vn + n /\ murmur3_guava_long_int id (as_i32 k) = h.

Lemma vnode_hash_S id vn n h :
  vnode_hash id vn (Z.of_nat (S n)) h <->
  murmur3_guava_long_int id (as_i32 vn) = h \/ vnode_hash id (vn + 1) (Z.of_nat n) h.
Proof.
  unfold vnode_hash. split.
  - intros (k & Hk & <-). destruct (decide (k = vn)) as [->|]; [by left|].
    right. exists k. split; [lia|done].
  - intros [<-|(k & Hk & <-)]; [exists vn|exists k]; (split; [lia|done]).
Qed.

Lemma vnode_hash_dec id vn n h : Decision (vnode_hash id vn (Z.of_nat n) h).
Proof.
  revert vn. induction n as [|n IH]; intros vn.
  - right. intros (k & Hk & _). lia.
  - destruct (decide (murmur3_guava_long_int id (as_i32 vn) = h)) as [He|He];
      [|destruct (IH (vn + 1)) as [Hv|Hv]].
    + left. apply vnode_hash_S. by left.
    + left. apply vnode_hash_S. by right.
    + right. intros [?|?]%vnode_hash_S; done.
Qed.

Lemma elem_of_insert_virtual_nodes n vn id idx m h i :
  ring_sorted m ->
  (h, i) ∈ insert_virtual_nodes n vn id idx m <->
  (vnode_hash id vn (Z.of_nat n) h /\ i = idx) \/
  (~ vnode_hash id vn (Z.of_nat n) h /\ (h, i) ∈ m).
Proof.
  revert vn m. induction n as [|n IH]; intros vn m Hs; cbn [insert_virtual_nodes].
  { unfold vnode_hash. split; [right; split; [|done]|]; [intros (?&?&?); lia|].
    intros [[(?&?&?) _]|[_ ?]]; [lia|done]. }
  rewrite IH, elem_of_btree_insert by auto with goose.
  rewrite vnode_hash_S.
  destruct (vnode_hash_dec id (vn + 1) n h),
    (decide (h = murmur3_guava_long_int id (as_i32 vn))); intuition congruence.
Qed.

(** Worker [i] of the list (numbered from [idx]) has a virtual node hashing to [h]. *)
Definition owns_from (idx : nat) (ws : list WorkerInfo) (h : Z) (i : nat) : Prop :=
  exists w, (idx <= i)%nat /\ ws !! (i - idx)%nat = Some w /\
    vnode_hash (ring_worker_id i w) 0 (ring_virtual_nodes w) h.
Definition owns (ws : list WorkerInfo) (h : Z) (i : nat) : Prop := owns_from 0 ws h i.

Lemma ring_virtual_nodes_nonneg w : 0 <= ring_virtual_nodes w.
Proof. unfold ring_virtual_nodes, as_u32. apply Z.mod_pos_bound. reflexivity. Qed.

Lemma owns_from_cons idx w ws h i :
  owns_from idx (w :: ws) h i <->
  (i = idx /\ vnode_hash (ring_worker_id i w) 0 (ring_virtual_nodes w) h) \/
  owns_from (S idx) ws h i.
Proof.
  unfold owns_from. split.
  - intros (w' & Hi & Hw & Hv). destruct (decide (i = idx)) as [->|].
    + rewrite Nat.sub_diag in Hw. simplify_eq/=. by left.
    + right. exists w'. replace (i - idx)%nat with (S (i - S idx)) in Hw by lia.
      split; [lia|]. done.
  - intros [[-> Hv]|(w' & Hi & Hw & Hv)].
    + exists w. rewrite Nat.sub_diag. done.
    + exists w'. replace (i - idx)%nat with (S (i - S idx)) by lia. split; [lia|]. done.
Qed.

Lemma owns_from_dec idx ws h :
  {i | owns_from idx ws h i /\ forall j, owns_from idx ws h j -> (j <= i)%nat}
  + {forall j, ~ owns_from idx ws h j}.
Proof.
  revert idx. induction ws as [|w ws IH]; intros idx.
  { right. intros j (w & _ & Hw & _). done. }
  destruct (IH (S idx)) as [(i & Hi & Hmax)|Hno].
  - left. exists i. split; [apply owns_from_cons; by right|].
    intros j [[-> _]|Hj]%owns_from_cons; [|by apply Hmax].
    destruct Hi as (? & ? & _). lia.
  - destruct (vnode_hash_dec (ring_worker_id idx w) 0 (Z.to_nat (ring_virtual_nodes w)) h)
      as [Hv|Hv]; rewrite Z2Nat.id in Hv by apply ring_virtual_nodes_nonneg.
    + left. exists idx. split; [apply owns_from_cons; by left|].
      intros j [[-> _]|Hj]%owns_from_cons; [lia|]. by apply Hno in Hj.
    + right. intros j [[-> ?]|Hj]%owns_from_cons; [done|]. by apply Hno in Hj.
Qed.

Lemma elem_of_build_ring_from idx ws m h i :
  ring_sorted m ->
  (h, i) ∈ build_ring_from idx ws m <->
  (owns_from idx ws h i /\ forall j, owns_from idx ws h j -> (j <= i)%nat) \/
  ((forall j, ~ owns_from idx ws h j) /\ (h, i) ∈ m).
Proof.
  revert idx m. induction ws as [|w ws IH]; intros idx m Hs; simpl.
  { split; [right; split; [|done]|]; [intros j (? & _ & ? & _); done|].
    intros [[(? & _ & ? & _) _]|[_ ?]]; done. }
  rewrite IH by (by apply insert_virtual_nodes_sorted).
  rewrite elem_of_insert_virtual_nodes, Z2Nat.id by (done || apply ring_virtual_nodes_nonneg).
  setoid_rewrite owns_from_cons.
  assert (Hge : forall j, owns_from (S idx) ws h j -> (idx < j)%nat)
    by (intros j (? & ? & _); lia).
  destruct (owns_from_dec (S idx) ws h) as [(k & Hk & Hmax)|Hno].
  - split.
    + intros [[Hi Hi']|[Hi _]]; [|by apply Hi in Hk].
      left. split; [by right|]. intros j [[-> _]|Hj]; [|by apply Hi'].
      apply Hge in Hi. lia.
    + intros [[[[-> _]|Hi] Hi']|[Hi _]].
      * specialize (Hi' k (or_intror Hk)). apply Hge in Hk. lia.
      * left. split; [done|]. intros j Hj. apply Hi'. by right.
      * exfalso. apply (Hi k). by right.
  - split.
    + intros [[Hi _]|[_ [[Hv ->]|[Hv Hin]]]]; [by apply Hno in Hi| |].
      * left. split; [by left|]. intros j [[-> _]|Hj]; [lia|by apply Hno in Hj].
      * right. split; [|done]. intros j [[-> ?]|Hj]; [done|by apply Hno in Hj].
    + intros [[[[-> Hv]|Hi] _]|[Hi Hin]]; [|by apply Hno in Hi|].
      * right. split; [done|]. by left.
      * right. split; [done|]. right. split; [|done]. intros Hv. apply (Hi idx). by left.
Qed.

Lemma elem_of_build_hash_ring ws h i :
  (h, i) ∈ build_hash_ring ws <->
  owns ws h i /\ forall j, owns ws h j -> (j <= i)%nat.
Proof.
  unfold build_hash_ring, owns. rewrite elem_of_build_ring_from by constructor.
  split; [intros [?|[_ Hin]]; [done|by apply not_elem_of_nil in Hin]|by left].
Qed.

Lemma owns_lt ws h i : owns ws h i -> (i < length ws)%nat.
Proof. intros (w & _ & Hw & _). rewrite Nat.sub_0_r in Hw. by eapply lookup_lt_Some. Qed.

(** ** The ceiling lookup *)

Lemma binary_search_spec {A : Type} (ring : list (Z * A)) target :
  ring_sorted ring ->
  match binary_search_by_key ring target with
  | inl i => exists v, ring !! i = Some (target, v)
  | inr i => forall j e, ring !! j = Some e ->
      ((j < i)%nat -> fst e < target) /\ ((i <= j)%nat -> target < fst e)
  end.
Proof.
  induction ring as [|[h v] ring IH]; intros Hs; simpl; [done|].
  apply ring_sorted_cons in Hs as [Hs Hh].
  destruct (Z.ltb_spec target h); [|destruct (Z.eqb_spec target h) as [->|]; [by exists v|]].
  - intros [|j] e He; simplify_eq/=; [lia|].
    apply (Forall_lookup_1 _ _ _ _ Hh) in He. simpl in He. lia.
  - specialize (IH Hs). destruct (binary_search_by_key ring target) as [i|i]; [done|].
    intros [|j] e He; simplify_eq/=; [lia|]. specialize (IH j e He). lia.
Qed.

(** Worker [i] owns the least ring position at or above [target] or, when there is
    none, the least position of all. *)
Definition is_ceiling (ring : list (Z * nat)) (target : Z) (i : nat) : Prop :=
  exists h, (h, i) ∈ ring /\
    ((target <= h /\ forall e, e ∈ ring -> target <= fst e -> h <= fst e) \/
     ((forall e, e ∈ ring -> fst e < target) /\ forall e, e ∈ ring -> h <= fst e)).

Lemma ring_sorted_lookup_le {A : Type} (ring : list (Z * A)) i j e e' :
  ring_sorted ring -> ring !! i = Some e -> ring !! j = Some e' ->
  (i <= j)%nat -> fst e <= fst e'.
Proof.
  revert i j. induction ring as [|[h v] ring IH]; intros i j Hs Hi Hj Hij; [done|].
  apply ring_sorted_cons in Hs as [Hs Hh].
  destruct i as [|i], j as [|j]; simplify_eq/=; [lia| |lia|by eapply (IH i j); eauto; lia].
  apply (Forall_lookup_1 _ _ _ _ Hh) in Hj. lia.
Qed.

Lemma ring_ceiling_ok ring target :
  ring_sorted ring -> ring <> [] ->
  exists i, ring_ceiling_worker_index ring target = Some i /\ is_ceiling ring target i.
Proof.
  intros Hs Hne. pose proof (binary_search_spec ring target Hs) as Hb.
  unfold ring_ceiling_worker_index. destruct ring as [|first rest] eqn:Er; [done|].
  rewrite <- Er in *. assert (Hfirst : ring !! 0%nat = Some first) by (by rewrite Er).
  destruct (binary_search_by_key ring target) as [k|k].
  - destruct Hb as [i Hi]. exists i. rewrite Hi. split; [done|].
    exists target. split; [by eapply list_elem_of_lookup_2|]. left. split; [lia|]. lia.
  - destruct (Nat.ltb_spec k (length ring)) as [Hk|Hk].
    + destruct (lookup_lt_is_Some_2 _ _ Hk) as [[h i] Hi]. exists i. rewrite Hi.
      split; [done|]. exists h. split; [by eapply list_elem_of_lookup_2|]. left.
      split; [destruct (Hb k _ Hi) as [_ Ht]; simpl in Ht; lia|].
      intros e [j He]%list_elem_of_lookup Hte. destruct (decide (k <= j)%nat).
      * by apply (ring_sorted_lookup_le ring k j (h, i) e).
      * destruct (Hb j e He). lia.
    + exists (snd first). split; [done|]. destruct first as [h i]. exists h.
      split; [by eapply list_elem_of_lookup_2|]. right. split.
      * intros e [j He]%list_elem_of_lookup. pose proof (lookup_lt_Some _ _ _ He).
        apply (Hb j e He). lia.
      * intros e [j He]%list_elem_of_lookup.
        apply (ring_sorted_lookup_le ring 0 j (h, i) e); auto. lia.
Qed.

(** Every worker index on a built ring is in range. *)
Lemma build_hash_ring_index ws target i :
  ring_ceiling_worker_index (build_hash_ring ws) target = Some i -> (i < length ws)%nat.
Proof.
  intros Hi. destruct (decide (build_hash_ring ws = [])) as [E|E]; [by rewrite E in Hi|].
  destruct (ring_ceiling_ok _ target (build_hash_ring_sorted ws) E) as (j & Hj & h & Hin & _).
  simplify_eq. apply elem_of_build_hash_ring in Hin as [Ho _]. by eapply owns_lt.
Qed.

(** ** The selection walks *)

Definition healthy (is_failed : string -> bool) (w : WorkerInfo) : bool :=
  match wi_address w with
  | Some addr => negb (is_failed (worker_addr_key addr))
  | None => false
  end.

Section SelectLemmas.
Context (is_failed : string -> bool) (block_id : Z).
Context (workers : list WorkerInfo) (ring : list (Z * nat)).

Lemma select_loop_sound fuel skip visited attempts w :
  select_loop is_failed block_id workers ring fuel skip visited attempts = Some w ->
  w ∈ workers /\ (skip = true -> healthy is_failed w = true).
Proof.
  revert visited attempts. induction fuel as [|fuel IH]; intros visited attempts; [done|].
  cbn [select_loop]. case_match; [|done].
  destruct (ring_ceiling_worker_index ring _) as [idx|]; [|done].
  destruct (workers !! idx) as [w'|] eqn:Hw; [|by apply IH].
  destruct skip; simpl.
  - destruct (wi_address w') as [addr|] eqn:Ha; [|by apply IH].
    destruct (is_failed (worker_addr_key addr)) eqn:Hf; simpl; [by apply IH|].
    intros. simplify_eq. split; [by eapply list_elem_of_lookup_2|].
    intros _. unfold healthy. by rewrite Ha, Hf.
  - intros. simplify_eq. split; [by eapply list_elem_of_lookup_2|done].
Qed.

(** What one iteration may do to the selection. *)
Lemma select_n_body_cases skip idx st :
  ss_selected (select_n_body is_failed workers skip idx st) = ss_selected st \/
  exists w, workers !! idx = Some w /\ idx ∉ ss_idxs st /\
    ss_selected (select_n_body is_failed workers skip idx st) = ss_selected st ++ [w].
Proof.
  unfold select_n_body. case_bool_decide as Hidx; [by left|].
  destruct (workers !! idx) as [w|] eqn:Hw; [|by left].
  destruct (wi_address w) as [addr|]; [|by left].
  case_match; [by left|]. case_match; [by left|]. right. by exists w.
Qed.

Lemma select_n_loop_prefix fuel count skip attempts st :
  exists l, ss_selected (select_n_loop is_failed block_id workers ring fuel count skip attempts st)
            = ss_selected st ++ l.
Proof.
  revert attempts st. induction fuel as [|fuel IH]; intros attempts st; simpl.
  { exists []. by rewrite app_nil_r. }
  case_match; [|exists []; by rewrite app_nil_r].
  destruct (ring_ceiling_worker_index ring _) as [idx|]; [|exists []; by rewrite app_nil_r].
  destruct (IH (attempts + 1) (select_n_body is_failed workers skip idx st)) as [l ->].
  destruct (select_n_body_cases skip idx st) as [->|(w & _ & _ & ->)]; [by exists l|].
  exists (w :: l). by rewrite <- app_assoc.
Qed.

(** Asking for fewer workers stops the same walk earlier. *)
Lemma select_n_loop_take fuel count count' skip attempts st :
  (length (ss_selected st) <= count <= count')%nat ->
  ss_selected (select_n_loop is_failed block_id workers ring fuel count skip attempts st)
  = take count
      (ss_selected (select_n_loop is_failed block_id workers ring fuel count' skip attempts st)).
Proof.
  revert attempts st. induction fuel as [|fuel IH]; intros attempts st Hle.
  { simpl. rewrite take_ge by lia. done. }
  destruct (decide (length (ss_selected st) = count)) as [E|].
  - destruct (select_n_loop_prefix (S fuel) count' skip attempts st) as [l ->].
    rewrite take_app_le, take_ge by lia. simpl.
    destruct (Nat.ltb_spec (length (ss_selected st)) count); [lia|done].
  - simpl. destruct (Nat.ltb_spec (length (ss_selected st)) count); [|lia].
    destruct (Nat.ltb_spec (length (ss_selected st)) count'); [|lia]. simpl.
    case_match; [|by rewrite take_ge by lia].
    destruct (ring_ceiling_worker_index ring _) as [idx|]; [|by rewrite take_ge by lia].
    apply IH. destruct (select_n_body_cases skip idx st) as [->|(w & _ & _ & ->)]; [lia|].
    rewrite length_app. simpl. lia.
Qed.
End SelectLemmas.

(** The host used for de-duplication; workers without one are never duplicates. *)
Definition worker_host (w : WorkerInfo) : string :=
  match wi_address w with
  | Some addr => default ""%string (wna_host addr)
  | None => ""%string
  end.

Definition named_hosts (ws : list WorkerInfo) : list string :=
  filter (fun h => h <> ""%string) (worker_host <$> ws).

Lemma named_hosts_snoc ws w :
  named_hosts (ws ++ [w])
  = named_hosts ws ++ (if bool_decide (worker_host w = ""%string) then [] else [worker_host w]).
Proof.
  unfold named_hosts. rewrite fmap_app, filter_app. f_equal. simpl.
  rewrite filter_cons, filter_nil. by repeat case_decide; case_bool_decide.
Qed.

Section SelectInv.
Context (is_failed : string -> bool) (workers : list WorkerInfo) (skip : bool).

(** The selection holds distinct positions of the worker list, every worker in
    it has an address (and is healthy when failures are skipped), and no host
    name occurs twice. *)
Record select_inv (count : nat) (st : SelectState) : Prop := {
  si_len : (length (ss_selected st) <= count)%nat;
  si_idxs : exists idxs, NoDup idxs /\
    Forall2 (fun i w => workers !! i = Some w) idxs (ss_selected st) /\
    forall i, i ∈ idxs <-> i ∈ ss_idxs st;
  si_addr : Forall (fun w => is_Some (wi_address w)) (ss_selected st);
  si_healthy : skip = true -> Forall (fun w => healthy is_failed w = true) (ss_selected st);
  si_hosts : NoDup (named_hosts (ss_selected st)) /\
    forall h, h ∈ named_hosts (ss_selected st) -> h ∈ ss_hosts st;
}.

(** Nothing but the visited set changed. *)
Lemma select_inv_visited count sel hosts idxs v v' :
  select_inv count (mkSelectState sel hosts idxs v) ->
  select_inv count (mkSelectState sel hosts idxs v').
Proof. intros [????]. by constructor. Qed.

Lemma select_inv_push count sel hosts idxs v v' idx w addr :
  select_inv count (mkSelectState sel hosts idxs v) ->
  (length sel < count)%nat -> idx ∉ idxs -> workers !! idx = Some w ->
  wi_address w = Some addr -> (skip = true -> is_failed (worker_addr_key addr) = false) ->
  (worker_host w <> ""%string -> worker_host w ∉ hosts) ->
  select_inv count (mkSelectState (sel ++ [w])
    (if bool_decide (worker_host w = ""%string) then hosts else {[ worker_host w ]} ∪ hosts)
    ({[ idx ]} ∪ idxs) v').
Proof.
  intros [Hlen (js & Hnd & Hall & His) Haddr Hheal [Hhosts Hin]] Hlt Hidx Hw Ha Hf Hnew.
  simpl in *. constructor; simpl.
  - rewrite length_app. simpl. lia.
  - exists (js ++ [idx]). split; [|split].
    + apply NoDup_app. split; [done|]. split; [|apply NoDup_singleton].
      intros i Hi ->%list_elem_of_singleton. by apply Hidx, His.
    + apply Forall2_app; [done|]. by constructor.
    + intros i. rewrite elem_of_app, His, list_elem_of_singleton. set_solver.
  - apply Forall_app_2; [done|]. repeat constructor. by exists addr.
  - intros Hs. apply Forall_app_2; [by apply Hheal|]. repeat constructor.
    unfold healthy. by rewrite Ha, Hf.
  - rewrite named_hosts_snoc. case_bool_decide as E.
    + by rewrite app_nil_r.
    + split.
      * apply NoDup_app. split; [done|]. split; [|apply NoDup_singleton].
        intros h Hh ->%list_elem_of_singleton. by apply (Hnew E), Hin.
      * intros h. rewrite elem_of_app, list_elem_of_singleton. set_solver.
Qed.

Lemma select_n_body_inv count idx st :
  select_inv count st -> (length (ss_selected st) < count)%nat ->
  select_inv count (select_n_body is_failed workers skip idx st).
Proof.
  destruct st as [sel hosts idxs v]. intros Hinv Hlt. unfold select_n_body. simpl in *.
  case_bool_decide as Hidx; [by eapply select_inv_visited|].
  destruct (workers !! idx) as [w|] eqn:Hw; [|by eapply select_inv_visited].
  destruct (wi_address w) as [addr|] eqn:Ha; [|by eapply select_inv_visited].
  assert (Hhost : default ""%string (wna_host addr) = worker_host w)
    by (unfold worker_host; by rewrite Ha).
  rewrite Hhost.
  destruct (skip && is_failed (worker_addr_key addr)) eqn:Hsk; [by eapply select_inv_visited|].
  destruct (negb _ && bool_decide _) eqn:Hh; [by eapply select_inv_visited|].
  replace (if negb (bool_decide (worker_host w = ""%string)) then _ else _)
    with (if bool_decide (worker_host w = ""%string) then hosts
          else {[ worker_host w ]} ∪ hosts) by (by case_bool_decide).
  eapply select_inv_push; eauto.
  - intros ->. done.
  - intros Hne Hin. rewrite !bool_decide_eq_false_2, bool_decide_eq_true_2 in Hh by done.
    done.
Qed.

Lemma select_n_loop_inv block_id ring fuel count attempts st :
  select_inv count st ->
  select_inv count (select_n_loop is_failed block_id workers ring fuel count skip attempts st).
Proof.
  revert attempts st. induction fuel as [|fuel IH]; intros attempts st Hinv; simpl; [done|].
  destruct (Nat.ltb_spec (length (ss_selected st)) count); simpl; [|done].
  case_match; [|done]. destruct (ring_ceiling_worker_index ring _); [|done].
  apply IH. by apply select_n_body_inv.
Qed.

Lemma select_inv_init count : select_inv count (mkSelectState [] ∅ ∅ ∅).
Proof.
  constructor; simpl; [lia| |done|done|].
  - exists []. split; [constructor|]. split; [constructor|]. set_solver.
  - split; [constructor|]. set_solver.
Qed.

Lemma select_n_inv block_id ring count :
  exists st, select_inv count st /\
    consistent_hash_select_n_from_ring is_failed block_id workers ring count skip
    = ss_selected st.
Proof.
  unfold consistent_hash_select_n_from_ring.
  destruct count as [|count], ring as [|e ring], workers as [|w ws] eqn:Ew;
    try (exists (mkSelectState [] ∅ ∅ ∅); split; [apply select_inv_init|done]).
  rewrite <- Ew. eexists. split; [apply select_n_loop_inv, select_inv_init|done].
Qed.
End SelectInv.

(** With failures ignored, the first attempt already selects: the walk over a
    ring whose worker has an address is never empty. *)
Lemma select_n_loop_first is_failed block_id workers ring fuel count idx w :
  (0 < count)%nat ->
  ring_ceiling_worker_index ring (murmur3_guava_long_int block_id 0) = Some idx ->
  workers !! idx = Some w -> is_Some (wi_address w) ->
  ss_selected (select_n_loop is_failed block_id workers ring (S fuel) count false 0
    (mkSelectState [] ∅ ∅ ∅)) <> [].
Proof.
  intros Hc Hidx Hw [addr Ha]. cbn [select_n_loop ss_selected ss_visited length].
  rewrite Hidx, size_empty.
  destruct (Nat.ltb_spec 0 count); [|lia].
  destruct (Nat.ltb_spec 0 (length workers)); [|apply lookup_lt_Some in Hw; lia].
  change (0 <? DEFAULT_HASH_POLICY_MAX_ATTEMPTS) with true. cbn [andb].
  destruct (select_n_loop_prefix is_failed block_id workers ring fuel count false (0 + 1)
    (select_n_body is_failed workers false idx (mkSelectState [] ∅ ∅ ∅))) as [l ->].
  assert (ss_selected (select_n_body is_failed workers false idx
    (mkSelectState [] ∅ ∅ ∅)) = [w]) as ->; [|done].
  unfold select_n_body. cbn [ss_idxs ss_hosts ss_selected].
  rewrite bool_decide_eq_false_2 by set_solver. rewrite Hw, Ha. cbn [andb].
  rewrite (bool_decide_eq_false_2 (_ ∈ ∅)) by set_solver. by rewrite andb_false_r.
Qed.

Lemma select_n_first is_failed block_id workers ring count idx w :
  (0 < count)%nat ->
  ring_ceiling_worker_index ring (murmur3_guava_long_int block_id 0) = Some idx ->
  workers !! idx = Some w -> is_Some (wi_address w) ->
  consistent_hash_select_n_from_ring is_failed block_id workers ring count false <> [].
Proof.
  intros Hc Hidx Hw Ha.
  pose proof (select_n_loop_first is_failed block_id workers ring
    (pred (Z.to_nat DEFAULT_HASH_POLICY_MAX_ATTEMPTS)) count idx w Hc Hidx Hw Ha) as Hne.
  unfold consistent_hash_select_n_from_ring.
  destruct count as [|count]; [lia|]. destruct ring as [|e ring]; [done|].
  destruct workers as [|w0 ws]; [done|]. exact Hne.
Qed.

(** ** Properties *)

(** C31. The hash ring is a strictly ordered map from virtual-node hashes to
    worker positions: it holds exactly the hashes of the workers' virtual nodes,
    each assigned to the last worker of the list that has it. *)
Theorem build_hash_ring_spec (workers : list WorkerInfo) :
  StronglySorted Z.lt (map fst (build_hash_ring workers)) /\
  forall h i, (h, i) ∈ build_hash_ring workers <->
    owns workers h i /\ forall j, owns workers h j -> (j <= i)%nat.
Proof. split; [apply build_hash_ring_sorted|]. intros. apply elem_of_build_hash_ring. Qed.

(** Looking a hash up on a built ring finds the worker of the next virtual
    node at or above it, wrapping around to the lowest one. *)
Theorem ring_lookup_is_ceiling (workers : list WorkerInfo) (target : Z) :
  build_hash_ring workers <> [] ->
  exists i, ring_ceiling_worker_index (build_hash_ring workers) target = Some i /\
    (i < length workers)%nat /\ is_ceiling (build_hash_ring workers) target i.
Proof.
  intros Hne. destruct (ring_ceiling_ok _ target (build_hash_ring_sorted workers) Hne)
    as (i & Hi & Hc).
  exists i. split; [done|]. split; [by eapply build_hash_ring_index|done].
Qed.

Definition example_worker (id : Z) (host : string) (vn : Z) : WorkerInfo :=
  mkWorkerInfo (Some id)
    (Some (mkWorkerNetAddress (Some host) (Some 9203) None None None None None None None None))
    None None None None None None None (Some vn) None None.

Lemma ring_lookup_is_ceiling_witness :
  exists i, ring_ceiling_worker_index
      (build_hash_ring [example_worker 1 "a" 2; example_worker 2 "b" 2]) 0 = Some i /\
    Nat.lt i 2 /\
    is_ceiling (build_hash_ring [example_worker 1 "a" 2; example_worker 2 "b" 2]) 0 i.
Proof.
  apply (ring_lookup_is_ceiling [example_worker 1 "a" 2; example_worker 2 "b" 2] 0).
  vm_compute. congruence.
Defined.

(** A multi-worker selection never repeats a worker or a host: it returns at
    most [count] workers, from distinct positions of the list, all with an
    address, with pairwise different host names, and none of them failed when
    failures are skipped. *)
Theorem select_n_distinct (is_failed : string -> bool) (block_id : Z)
    (workers : list WorkerInfo) (ring : list (Z * nat)) (count : nat) (skip : bool) :
  let sel := consistent_hash_select_n_from_ring is_failed block_id workers ring count skip in
  (length sel <= count)%nat /\
  (exists idxs, NoDup idxs /\ Forall2 (fun i w => workers !! i = Some w) idxs sel) /\
  Forall (fun w => is_Some (wi_address w)) sel /\
  NoDup (named_hosts sel) /\
  (skip = true -> Forall (fun w => healthy is_failed w = true) sel).
Proof.
  destruct (select_n_inv is_failed workers skip block_id ring count) as (st & Hinv & ->).
  destruct Hinv as [Hlen (idxs & Hnd & Hall & _) Haddr Hheal [Hhosts _]].
  repeat split; eauto.
Qed.

(** The candidates for a block do not depend on how many are asked for: a
    selection of [count] workers is the beginning of any longer selection, so
    readers and writers that use different replication numbers agree on the
    primary worker. *)
Theorem select_n_prefix (is_failed : string -> bool) (block_id : Z)
    (workers : list WorkerInfo) (ring : list (Z * nat)) (count more : nat) (skip : bool) :
  consistent_hash_select_n_from_ring is_failed block_id workers ring count skip
  = take count
      (consistent_hash_select_n_from_ring is_failed block_id workers ring (count + more) skip).
Proof.
  unfold consistent_hash_select_n_from_ring.
  destruct count as [|count], ring as [|e ring], workers as [|w ws]; try done.
  all: try (by rewrite take_nil).
  apply select_n_loop_take. simpl. lia.
Qed.
