(* ===== verification/Router.v ===== *)
(** * Worker router (src/src/block/router.rs)

    The shared [WorkerRouter] and the immutable per-reader [WorkerRouterView].
    Both track failed workers in the same way, so the failure map, its counter
    and its TTL are one record with one set of operations, used by each.  The
    clock is an explicit [now] argument (nanoseconds); the operating system's
    answers (host name, whether an address is local), the hash of the
    fingerprint and the random pick are parameters. *)

From Stdlib Require Import Ascii.
From stdpp Require Import pretty.
From S2P Require Import Prelude Proto Errors Murmur3 HashRing.

Definition DEFAULT_FAILURE_TTL : Z := 60000000000.
Definition DEFAULT_WORKER_REFRESH_TTL : Z := 30000000000.

(** [Instant::elapsed] saturates at zero. *)
Definition elapsed (now t : Z) : Z := Z.max 0 (now - t).

(** ** Failure tracking *)

Record FailureTracker : Type := mkTracker {
  ft_failed_workers : option (gmap string Z);
  ft_failed_count : Z;
  ft_failure_ttl : Z;
}.

Definition tracker_new (failure_ttl : Z) : FailureTracker := mkTracker None 0 failure_ttl.

Definition mark_failed (now : Z) (addr : WorkerNetAddress) (t : FailureTracker)
  : FailureTracker :=
  let key := worker_addr_key addr in
  let map := default ∅ (ft_failed_workers t) in
  mkTracker (Some (<[key := now]> map))
    (match map !! key with
     | None => u64_add (ft_failed_count t) 1
     | Some _ => ft_failed_count t
     end)
    (ft_failure_ttl t).

Definition clear_failed (t : FailureTracker) : FailureTracker :=
  mkTracker ((fun _ => ∅) <$> ft_failed_workers t) 0 (ft_failure_ttl t).

Definition is_failed (now : Z) (t : FailureTracker) (key : string) : bool :=
  match ft_failed_workers t with
  | None => false
  | Some map =>
      match map !! key with
      | Some at_ => elapsed now at_ <? ft_failure_ttl t
      | None => false
      end
  end.

Definition cleanup_expired_failures (now : Z) (t : FailureTracker) : FailureTracker :=
  if ft_failed_count t =? 0 then t
  else match ft_failed_workers t with
  | None => t
  | Some map =>
      let kept := filter (fun kv => elapsed now (snd kv) < ft_failure_ttl t) map in
      let removed := Z.of_nat (size map) - Z.of_nat (size kept) in
      mkTracker (Some kept)
        (if 0 <? removed then u64_sub (ft_failed_count t) removed else ft_failed_count t)
        (ft_failure_ttl t)
  end.

(** ** Selection over a worker snapshot

    The bodies shared word for word by the router and the view: everything but
    where the snapshot and the local worker id come from. *)

Definition no_workers_registered : Error := NoWorkerAvailable "no workers registered".
Definition no_suitable_worker (block_id : Z) : Error :=
  NoWorkerAvailable ("no suitable worker for block_id=" +:+ pretty block_id).

Record Snapshot : Type := mkSnapshot {
  sn_workers : list WorkerInfo;
  sn_ring : list (Z * nat);
}.

Section Selection.
Context (now : Z) (sn : Snapshot).

(** The local-first step: the local worker, when known, present and healthy. *)
Definition local_candidate (local_id : option Z) (t : FailureTracker) : option WorkerInfo :=
  id ← local_id;
  w ← List.find (fun w => bool_decide (wi_id w = Some id)) (sn_workers sn);
  addr ← wi_address w;
  if negb (is_failed now t (worker_addr_key addr)) then Some w else None.

Definition select_with_local (block_id : Z) (local_id : option Z) (t : FailureTracker)
  : result Error WorkerInfo :=
  match local_candidate local_id t with
  | Some w => Ok w
  | None =>
      match consistent_hash_select_from_ring (is_failed now t) block_id
              (sn_workers sn) (sn_ring sn) true with
      | Some w => Ok w
      | None =>
          match consistent_hash_select_from_ring (is_failed now t) block_id
                  (sn_workers sn) (sn_ring sn) false with
          | Some w => Ok w
          | None => Err (no_suitable_worker block_id)
          end
      end
  end.

Definition select_several (block_id : Z) (count : nat) (t : FailureTracker)
  : FailureTracker * result Error (list WorkerInfo) :=
  if (count =? 0)%nat then (t, Err (InvalidArgument "count must be greater than 0"))
  else match sn_workers sn with
  | [] => (t, Err no_workers_registered)
  | _ =>
      let t := cleanup_expired_failures now t in
      let pick skip := consistent_hash_select_n_from_ring (is_failed now t) block_id
                         (sn_workers sn) (sn_ring sn) count skip in
      match pick true with
      | [] => match pick false with
              | [] => (t, Err (no_suitable_worker block_id))
              | fallback => (t, Ok fallback)
              end
      | selected => (t, Ok selected)
      end
  end.

Definition first_of (block_id : Z) (r : result Error (list WorkerInfo))
  : result Error WorkerInfo :=
  let? ws := r in
  match ws with
  | w :: _ => Ok w
  | [] => Err (no_suitable_worker block_id)
  end.

Definition select_several_for_read (block_id : Z) (locations : list BlockLocation)
    (count : nat) (t : FailureTracker) : FailureTracker * result Error (list WorkerInfo) :=
  if (count =? 0)%nat then (t, Err (InvalidArgument "count must be greater than 0"))
  else match sn_workers sn with
  | [] => (t, Err no_workers_registered)
  | _ =>
      let t := cleanup_expired_failures now t in
      match workers_from_block_locations (is_failed now t) (sn_workers sn) locations count with
      | [] => select_several block_id count t
      | from_locations => (t, Ok from_locations)
      end
  end.

(** [choose n] is the index [random_range(0..n)] draws. *)
Definition pick_any (choose : nat -> nat) (t : FailureTracker)
  : FailureTracker * result Error WorkerInfo :=
  match sn_workers sn with
  | [] => (t, Err no_workers_registered)
  | _ =>
      let t := cleanup_expired_failures now t in
      let eligible := List.filter (healthy (is_failed now t)) (sn_workers sn) in
      let pool := match eligible with [] => sn_workers sn | _ => eligible end in
      match pool !! choose (length pool) with
      | Some w => (t, Ok w)
      | None => (t, Err (NoWorkerAvailable "no eligible workers")) (* empty pool *)
      end
  end.
End Selection.

Definition read_worker_candidate_count (replication max_retry_node : Z) : nat :=
  Z.to_nat (Z.max (Z.max replication max_retry_node) 1).

(** ** The shared router *)

Record WorkerRouter : Type := mkRouter {
  wr_workers : list WorkerInfo;
  wr_tracker : FailureTracker;
  wr_last_refresh : Z;
  wr_worker_refresh_ttl : Z;
  wr_local_worker_id : option (option Z);
  wr_hash_ring : list (Z * nat);
}.

Definition router_snapshot (r : WorkerRouter) : Snapshot :=
  mkSnapshot (wr_workers r) (wr_hash_ring r).

Definition set_tracker (r : WorkerRouter) (t : FailureTracker) : WorkerRouter :=
  mkRouter (wr_workers r) t (wr_last_refresh r) (wr_worker_refresh_ttl r)
    (wr_local_worker_id r) (wr_hash_ring r).
Definition set_last_refresh (r : WorkerRouter) (now : Z) : WorkerRouter :=
  mkRouter (wr_workers r) (wr_tracker r) now (wr_worker_refresh_ttl r)
    (wr_local_worker_id r) (wr_hash_ring r).
Definition set_local (r : WorkerRouter) (l : option (option Z)) : WorkerRouter :=
  mkRouter (wr_workers r) (wr_tracker r) (wr_last_refresh r) (wr_worker_refresh_ttl r)
    l (wr_hash_ring r).

Definition with_ttls (now failure_ttl worker_refresh_ttl : Z) : WorkerRouter :=
  mkRouter [] (tracker_new failure_ttl) now worker_refresh_ttl None [].
Definition with_failure_ttl (now failure_ttl : Z) : WorkerRouter :=
  with_ttls now failure_ttl DEFAULT_WORKER_REFRESH_TTL.
Definition router_new (now : Z) : WorkerRouter :=
  with_ttls now DEFAULT_FAILURE_TTL DEFAULT_WORKER_REFRESH_TTL.

Definition snapshot_from (now : Z) (shared : WorkerRouter) : WorkerRouter :=
  mkRouter (wr_workers shared) (tracker_new (ft_failure_ttl (wr_tracker shared))) now
    (wr_worker_refresh_ttl shared) (wr_local_worker_id shared) (wr_hash_ring shared).

Definition needs_refresh (now : Z) (r : WorkerRouter) : bool :=
  wr_worker_refresh_ttl r <=? elapsed now (wr_last_refresh r).

Definition workers_is_empty (r : WorkerRouter) : bool :=
  match wr_workers r with [] => true | _ => false end.

(** The tuples a fingerprint covers, and their order. *)
Definition fingerprint_tuple (w : WorkerInfo) : Z * string * Z * Z :=
  let host := default ""%string (wi_address w ≫= wna_host) in
  let port := default 0 (wi_address w ≫= wna_rpc_port) in
  let vn := default VIRTUAL_NODES_PER_WORKER (wi_virtual_node_num w) in
  (default 0 (wi_id w), host, port, vn).

Definition tuple_compare : Z * string * Z * Z -> Z * string * Z * Z -> comparison :=
  lex_compare (lex_compare (lex_compare Z.compare String.compare) Z.compare) Z.compare.

Definition string_bytes (s : string) : bytes :=
  map (fun c => Z.of_N (Ascii.N_of_ascii c)) (String.list_ascii_of_string s).

(** The bytes written to the hasher for one tuple. *)
Definition encode_tuple (t : Z * string * Z * Z) : bytes :=
  let '(id, host, port, vn) := t in
  to_le_bytes 8 id ++ to_le_bytes 4 port ++ to_le_bytes 4 vn
    ++ to_le_bytes 4 (Z.of_nat (String.length host)) ++ string_bytes host ++ [0].

Section RouterEnv.
(** [xxh3] hashes the concatenation of the writes; [hostname] is the system host
    name when it is readable as UTF-8; [is_local_address] is the bind probe. *)
Context (xxh3 : bytes -> Z).
Context (hostname : option string) (is_local_address : string -> bool).

Definition workers_fingerprint (workers : list WorkerInfo) : Z :=
  match workers with
  | [] => 0
  | _ => xxh3 (mjoin (map encode_tuple (sort_by (cmp_leb tuple_compare) (map fingerprint_tuple workers))))
  end.

(** [s.split('.').next()]. *)
Fixpoint short_name (s : string) : string :=
  match s with
  | EmptyString => EmptyString
  | String c rest => if Ascii.eqb c "."%char then EmptyString else String c (short_name rest)
  end.

Definition local_hostnames : list string :=
  ["localhost"; "127.0.0.1"; "::1"]%string
    ++ match hostname with
       | Some s => [s; short_name s]
       | None => []
       end.

Definition is_local_host (host : string) : bool :=
  negb (String.eqb host "")
  && (existsb (fun n => String.eqb n host) local_hostnames || is_local_address host).

Fixpoint detect_local_worker (workers : list WorkerInfo) : Z :=
  match workers with
  | [] => 0
  | w :: workers =>
      match wi_address w with
      | Some addr =>
          if is_local_host (default ""%string (wna_host addr)) then default 0 (wi_id w)
          else detect_local_worker workers
      | None => detect_local_worker workers
      end
  end.

(** The probe result as it is cached. *)
Definition probe_local (workers : list WorkerInfo) : option Z :=
  let detected := detect_local_worker workers in
  if 0 <? detected then Some detected else None.

Definition update_workers (now : Z) (workers : list WorkerInfo) (r : WorkerRouter)
  : WorkerRouter :=
  let new_fp := workers_fingerprint workers in
  let cur_fp := workers_fingerprint (wr_workers r) in
  if (new_fp =? cur_fp) && negb (workers_is_empty r) then set_last_refresh r now
  else mkRouter workers (wr_tracker r) now (wr_worker_refresh_ttl r)
         (Some (probe_local workers)) (build_hash_ring workers).

(** [fetched] is the answer of [get_worker_info_list]; failures keep the list. *)
Definition refresh_workers (now : Z) (fetched : result Error (list WorkerInfo))
    (r : WorkerRouter) : WorkerRouter * result Error unit :=
  match fetched with
  | Ok workers => (update_workers now workers r, Ok tt)
  | Err _ => (set_last_refresh r now, Ok tt)
  end.

Definition select_worker (now block_id : Z) (r : WorkerRouter)
  : WorkerRouter * result Error WorkerInfo :=
  match wr_workers r with
  | [] => (r, Err no_workers_registered)
  | workers =>
      let r := set_tracker r (cleanup_expired_failures now (wr_tracker r)) in
      let local_id := match wr_local_worker_id r with
                      | Some cached => cached
                      | None => probe_local workers
                      end in
      let r := set_local r (Some local_id) in
      (r, select_with_local now (router_snapshot r) block_id local_id (wr_tracker r))
  end.

Definition lift_tracker {A : Type} (r : WorkerRouter) (x : FailureTracker * A)
  : WorkerRouter * A := (set_tracker r (fst x), snd x).

Definition select_workers (now block_id : Z) (count : nat) (r : WorkerRouter)
  : WorkerRouter * result Error (list WorkerInfo) :=
  lift_tracker r (select_several now (router_snapshot r) block_id count (wr_tracker r)).

Definition select_worker_with_replication (now block_id replication : Z) (r : WorkerRouter)
  : WorkerRouter * result Error WorkerInfo :=
  let '(r, ws) := select_workers now block_id (Z.to_nat (Z.max replication 1)) r in
  (r, first_of block_id ws).

Definition select_workers_for_read (now block_id : Z) (locations : list BlockLocation)
    (count : nat) (r : WorkerRouter) : WorkerRouter * result Error (list WorkerInfo) :=
  lift_tracker r
    (select_several_for_read now (router_snapshot r) block_id locations count (wr_tracker r)).

Definition select_worker_for_read (now block_id : Z) (locations : list BlockLocation)
    (replication max_retry_node : Z) (r : WorkerRouter)
  : WorkerRouter * result Error WorkerInfo :=
  let '(r, ws) := select_workers_for_read now block_id locations
                    (read_worker_candidate_count replication max_retry_node) r in
  (r, first_of block_id ws).

Definition pick_any_worker (now : Z) (choose : nat -> nat) (r : WorkerRouter)
  : WorkerRouter * result Error WorkerInfo :=
  lift_tracker r (pick_any now (router_snapshot r) choose (wr_tracker r)).

Definition router_mark_failed (now : Z) (addr : WorkerNetAddress) (r : WorkerRouter)
  : WorkerRouter := set_tracker r (mark_failed now addr (wr_tracker r)).

Definition router_clear_failed (r : WorkerRouter) : WorkerRouter :=
  set_tracker r (clear_failed (wr_tracker r)).
End RouterEnv.

(** ** The per-reader view *)

Record WorkerRouterView : Type := mkView {
  vw_workers : list WorkerInfo;
  vw_hash_ring : list (Z * nat);
  vw_local_worker_id : option Z;
  vw_tracker : FailureTracker;
}.

Definition view_snapshot (v : WorkerRouterView) : Snapshot :=
  mkSnapshot (vw_workers v) (vw_hash_ring v).

Definition view_set_tracker (v : WorkerRouterView) (t : FailureTracker) : WorkerRouterView :=
  mkView (vw_workers v) (vw_hash_ring v) (vw_local_worker_id v) t.

Definition from_shared (shared : WorkerRouter) : WorkerRouterView :=
  mkView (wr_workers shared) (wr_hash_ring shared) (mjoin (wr_local_worker_id shared))
    (tracker_new (ft_failure_ttl (wr_tracker shared))).

Definition from_workers (workers : list WorkerInfo) (failure_ttl : Z) : WorkerRouterView :=
  mkView workers (build_hash_ring workers) None (tracker_new failure_ttl).

Definition view_empty : WorkerRouterView := mkView [] [] None (tracker_new DEFAULT_FAILURE_TTL).

Definition view_lift {A : Type} (v : WorkerRouterView) (x : FailureTracker * A)
  : WorkerRouterView * A := (view_set_tracker v (fst x), snd x).

Definition filter_not_failed (now : Z) (workers : list WorkerInfo) (v : WorkerRouterView)
  : WorkerRouterView * list WorkerInfo :=
  let t := cleanup_expired_failures now (vw_tracker v) in
  (view_set_tracker v t, List.filter (healthy (is_failed now t)) workers).

Definition view_select_worker (now block_id : Z) (v : WorkerRouterView)
  : WorkerRouterView * result Error WorkerInfo :=
  match vw_workers v with
  | [] => (v, Err no_workers_registered)
  | _ =>
      let t := cleanup_expired_failures now (vw_tracker v) in
      (view_set_tracker v t,
       select_with_local now (view_snapshot v) block_id (vw_local_worker_id v) t)
  end.

Definition view_select_workers (now block_id : Z) (count : nat) (v : WorkerRouterView)
  : WorkerRouterView * result Error (list WorkerInfo) :=
  view_lift v (select_several now (view_snapshot v) block_id count (vw_tracker v)).

Definition view_select_worker_with_replication (now block_id replication : Z)
    (v : WorkerRouterView) : WorkerRouterView * result Error WorkerInfo :=
  let '(v, ws) := view_select_workers now block_id (Z.to_nat (Z.max replication 1)) v in
  (v, first_of block_id ws).

Definition view_select_workers_for_read (now block_id : Z) (locations : list BlockLocation)
    (count : nat) (v : WorkerRouterView) : WorkerRouterView * result Error (list WorkerInfo) :=
  view_lift v
    (select_several_for_read now (view_snapshot v) block_id locations count (vw_tracker v)).

Definition view_select_worker_for_read (now block_id : Z) (locations : list BlockLocation)
    (replication max_retry_node : Z) (v : WorkerRouterView)
  : WorkerRouterView * result Error WorkerInfo :=
  let '(v, ws) := view_select_workers_for_read now block_id locations
                    (read_worker_candidate_count replication max_retry_node) v in
  (v, first_of block_id ws).

Definition view_pick_any_worker (now : Z) (choose : nat -> nat) (v : WorkerRouterView)
  : WorkerRouterView * result Error WorkerInfo :=
  view_lift v (pick_any now (view_snapshot v) choose (vw_tracker v)).

Definition view_mark_failed (now : Z) (addr : WorkerNetAddress) (v : WorkerRouterView)
  : WorkerRouterView := view_set_tracker v (mark_failed now addr (vw_tracker v)).

Definition view_clear_failed (v : WorkerRouterView) : WorkerRouterView :=
  view_set_tracker v (clear_failed (vw_tracker v)).

(** ** Failure tracking against its specification

    The specification remembers, per worker key, when it was last marked; nothing
    ever expires from it.  The tracker drops expired entries when it likes. *)

Inductive TrackerOp : Type :=
| TMark (addr : WorkerNetAddress)
| TClear
| TCleanup.

Definition run_tracker_op (t : FailureTracker) (e : Z * TrackerOp) : FailureTracker :=
  match snd e with
  | TMark addr => mark_failed (fst e) addr t
  | TClear => clear_failed t
  | TCleanup => cleanup_expired_failures (fst e) t
  end.

Definition spec_tracker_op (marks : gmap string Z) (e : Z * TrackerOp) : gmap string Z :=
  match snd e with
  | TMark addr => <[worker_addr_key addr := fst e]> marks
  | TClear => ∅
  | TCleanup => marks
  end.

Definition spec_failed (now ttl : Z) (marks : gmap string Z) (key : string) : bool :=
  match marks !! key with
  | Some at_ => elapsed now at_ <? ttl
  | None => false
  end.

(** The failure map, empty before its first use. *)
Definition tracker_map (t : FailureTracker) : gmap string Z := default ∅ (ft_failed_workers t).

(** The tracker holds a part of the marks, and what it lacks has expired. *)
Definition tracks (now : Z) (t : FailureTracker) (marks : gmap string Z) : Prop :=
  tracker_map t ⊆ marks /\
  forall key at_, marks !! key = Some at_ -> tracker_map t !! key = None ->
    ft_failure_ttl t <= elapsed now at_.

Lemma is_failed_alt now t key :
  is_failed now t key = spec_failed now (ft_failure_ttl t) (tracker_map t) key.
Proof. unfold is_failed, spec_failed, tracker_map. by destruct (ft_failed_workers t). Qed.

Lemma tracks_is_failed now t marks key :
  tracks now t marks -> is_failed now t key = spec_failed now (ft_failure_ttl t) marks key.
Proof.
  intros [Hsub Hexp]. rewrite is_failed_alt. unfold spec_failed.
  destruct (tracker_map t !! key) as [at_|] eqn:E.
  - by rewrite (lookup_weaken _ _ _ _ E Hsub).
  - destruct (marks !! key) as [at_|] eqn:E'; [|done].
    symmetry. apply Z.ltb_ge. by eapply Hexp.
Qed.

Lemma tracks_later now now' t marks : now <= now' -> tracks now t marks -> tracks now' t marks.
Proof.
  intros Hle [Hsub Hexp]. split; [done|]. intros key at_ Hm Ht.
  specialize (Hexp key at_ Hm Ht). unfold elapsed in *. lia.
Qed.

Lemma cleanup_ttl now t : ft_failure_ttl (cleanup_expired_failures now t) = ft_failure_ttl t.
Proof. unfold cleanup_expired_failures. by repeat case_match. Qed.

Lemma cleanup_map now t key at_ :
  tracker_map (cleanup_expired_failures now t) !! key = Some at_ ->
  tracker_map t !! key = Some at_.
Proof.
  unfold cleanup_expired_failures, tracker_map. case_match; [done|].
  destruct (ft_failed_workers t) as [m|] eqn:E; simpl; [|by rewrite E].
  by intros [? _]%map_lookup_filter_Some.
Qed.

Lemma cleanup_lost now t key at_ :
  tracker_map t !! key = Some at_ ->
  tracker_map (cleanup_expired_failures now t) !! key = None ->
  ft_failure_ttl t <= elapsed now at_.
Proof.
  unfold cleanup_expired_failures, tracker_map. case_match; [congruence|].
  destruct (ft_failed_workers t) as [m|] eqn:E; simpl; [|by rewrite E].
  intros Hm [Hn|Hn]%map_lookup_filter_None; [congruence|].
  specialize (Hn at_ Hm). simpl in Hn. lia.
Qed.

Lemma tracker_map_mark now addr t :
  tracker_map (mark_failed now addr t) = <[worker_addr_key addr := now]> (tracker_map t).
Proof. done. Qed.

Lemma tracker_map_clear t : tracker_map (clear_failed t) = ∅.
Proof. unfold tracker_map. simpl. by destruct (ft_failed_workers t). Qed.

Lemma tracks_step t marks e :
  tracks (fst e) t marks -> tracks (fst e) (run_tracker_op t e) (spec_tracker_op marks e).
Proof.
  destruct e as [now' [addr| |]]; intros [Hsub Hexp];
    unfold tracks, run_tracker_op, spec_tracker_op; cbn [fst snd] in *.
  - rewrite tracker_map_mark. split; [by apply insert_mono|]. intros key at_.
    destruct (decide (key = worker_addr_key addr)) as [->|];
      [by rewrite !lookup_insert_eq|]. rewrite !lookup_insert_ne by done. apply Hexp.
  - rewrite tracker_map_clear. split; [apply map_empty_subseteq|done].
  - split.
    + apply map_subseteq_spec. intros key at_ Hk.
      eapply lookup_weaken; [|exact Hsub]. by eapply cleanup_map.
    + rewrite cleanup_ttl. intros key at_ Hm Hn.
      destruct (tracker_map t !! key) as [at'|] eqn:E; [|by eapply Hexp].
      assert (at' = at_) as -> by (pose proof (lookup_weaken _ _ _ _ E Hsub); congruence).
      by eapply cleanup_lost.
Qed.

Lemma run_tracker_op_ttl t e : ft_failure_ttl (run_tracker_op t e) = ft_failure_ttl t.
Proof. destruct e as [? []]; [done|done|apply cleanup_ttl]. Qed.

Lemma tracks_run trace t marks now0 now :
  tracks now0 t marks -> StronglySorted Z.le (now0 :: map fst trace ++ [now]) ->
  tracks now (foldl run_tracker_op t trace) (foldl spec_tracker_op marks trace) /\
  ft_failure_ttl (foldl run_tracker_op t trace) = ft_failure_ttl t.
Proof.
  revert t marks now0. induction trace as [|e trace IH]; intros t marks now0 Ht Hs; simpl in *.
  - apply StronglySorted_inv in Hs as [_ Hs]. apply Forall_inv in Hs.
    split; [by apply (tracks_later now0)|done].
  - apply StronglySorted_inv in Hs as [Hs Hle]. apply Forall_cons in Hle as [Hle _].
    destruct (IH (run_tracker_op t e) (spec_tracker_op marks e) (fst e)) as [H1 H2]; [|done|].
    + apply tracks_step. by eapply tracks_later.
    + split; [done|]. by rewrite H2, run_tracker_op_ttl.
Qed.

(** ** The counter *)

(** The counter is exact: it is the size of the failure map. *)
Definition tracker_ok (t : FailureTracker) : Prop :=
  ft_failed_count t = Z.of_nat (size (tracker_map t)).

Lemma tracker_ok_new ttl : tracker_ok (tracker_new ttl).
Proof. done. Qed.

Lemma mark_failed_ok now addr t :
  tracker_ok t -> Z.of_nat (size (tracker_map t)) + 1 < u64_mod ->
  tracker_ok (mark_failed now addr t).
Proof.
  intros Hok Hb. unfold tracker_ok. rewrite tracker_map_mark. simpl. fold (tracker_map t).
  destruct (tracker_map t !! worker_addr_key addr) as [at_|] eqn:E.
  - rewrite map_size_insert_Some by (by exists at_). done.
  - rewrite map_size_insert_None by done. rewrite Hok, u64_add_small by lia. lia.
Qed.

Lemma clear_failed_ok t : tracker_ok (clear_failed t).
Proof. unfold tracker_ok. by rewrite tracker_map_clear. Qed.

Lemma cleanup_ok now t : tracker_ok t -> Z.of_nat (size (tracker_map t)) < u64_mod ->
  tracker_ok (cleanup_expired_failures now t).
Proof.
  unfold cleanup_expired_failures, tracker_ok. intros Hok Hb.
  destruct (Z.eqb_spec (ft_failed_count t) 0); [done|].
  unfold tracker_map in *. destruct (ft_failed_workers t) as [m|]; [|done]. simpl in *.
  set (kept := filter _ m).
  assert (Hle : (size kept <= size m)%nat) by (apply map_subseteq_size, map_filter_subseteq).
  destruct (Z.ltb_spec 0 (Z.of_nat (size m) - Z.of_nat (size kept))).
  - rewrite Hok, u64_sub_small by lia. lia.
  - lia.
Qed.

Lemma cleanup_size now t :
  (size (tracker_map (cleanup_expired_failures now t)) <= size (tracker_map t))%nat.
Proof.
  apply map_subseteq_size, map_subseteq_spec. intros key at_. apply cleanup_map.
Qed.

(** ** Runs of operations *)

(** The operations the router and the view have in common. *)
Inductive SelectOp : Type :=
| SelOne (block_id : Z)
| SelMany (block_id : Z) (count : nat)
| SelReplication (block_id replication : Z)
| SelManyForRead (block_id : Z) (locations : list BlockLocation) (count : nat)
| SelOneForRead (block_id : Z) (locations : list BlockLocation) (replication max_retry : Z)
| SelAny (choose : nat -> nat)
| SelMark (addr : WorkerNetAddress)
| SelClear.

Inductive SelectOut : Type :=
| OutWorker (r : result Error WorkerInfo)
| OutWorkers (r : result Error (list WorkerInfo))
| OutUnit.

Definition view_op (now : Z) (op : SelectOp) (v : WorkerRouterView)
  : WorkerRouterView * SelectOut :=
  match op with
  | SelOne b => prod_map id OutWorker (view_select_worker now b v)
  | SelMany b n => prod_map id OutWorkers (view_select_workers now b n v)
  | SelReplication b k => prod_map id OutWorker (view_select_worker_with_replication now b k v)
  | SelManyForRead b l n => prod_map id OutWorkers (view_select_workers_for_read now b l n v)
  | SelOneForRead b l k m => prod_map id OutWorker (view_select_worker_for_read now b l k m v)
  | SelAny choose => prod_map id OutWorker (view_pick_any_worker now choose v)
  | SelMark addr => (view_mark_failed now addr v, OutUnit)
  | SelClear => (view_clear_failed v, OutUnit)
  end.

Section RouterRuns.
Context (xxh3 : bytes -> Z) (hostname : option string) (is_local_address : string -> bool).

Definition router_op (now : Z) (op : SelectOp) (r : WorkerRouter)
  : WorkerRouter * SelectOut :=
  match op with
  | SelOne b => prod_map id OutWorker (select_worker hostname is_local_address now b r)
  | SelMany b n => prod_map id OutWorkers (select_workers now b n r)
  | SelReplication b k => prod_map id OutWorker (select_worker_with_replication now b k r)
  | SelManyForRead b l n => prod_map id OutWorkers (select_workers_for_read now b l n r)
  | SelOneForRead b l k m => prod_map id OutWorker (select_worker_for_read now b l k m r)
  | SelAny choose => prod_map id OutWorker (pick_any_worker now choose r)
  | SelMark addr => (router_mark_failed now addr r, OutUnit)
  | SelClear => (router_clear_failed r, OutUnit)
  end.

(** Everything that can happen to a shared router. *)
Inductive RouterOp : Type :=
| RSelect (op : SelectOp)
| RUpdate (workers : list WorkerInfo)
| RRefresh (fetched : result Error (list WorkerInfo)).

Definition run_router_op (r : WorkerRouter) (e : Z * RouterOp) : WorkerRouter :=
  match snd e with
  | RSelect op => fst (router_op (fst e) op r)
  | RUpdate ws => update_workers xxh3 hostname is_local_address (fst e) ws r
  | RRefresh fetched =>
      fst (refresh_workers xxh3 hostname is_local_address (fst e) fetched r)
  end.

(** The outputs of a sequence of timed operations. *)
Fixpoint run_router (trace : list (Z * SelectOp)) (r : WorkerRouter) : list SelectOut :=
  match trace with
  | [] => []
  | (now, op) :: trace =>
      let '(r, out) := router_op now op r in out :: run_router trace r
  end.

Fixpoint run_view (trace : list (Z * SelectOp)) (v : WorkerRouterView) : list SelectOut :=
  match trace with
  | [] => []
  | (now, op) :: trace =>
      let '(v, out) := view_op now op v in out :: run_view trace v
  end.

(** A view and a router that agree on everything a selection consults. *)
Record view_sim (v : WorkerRouterView) (r : WorkerRouter) : Prop := {
  vs_workers : vw_workers v = wr_workers r;
  vs_ring : vw_hash_ring v = wr_hash_ring r;
  vs_local : wr_local_worker_id r = Some (vw_local_worker_id v);
  vs_tracker : vw_tracker v = wr_tracker r;
}.

Lemma view_sim_step now op v r :
  view_sim v r ->
  snd (view_op now op v) = snd (router_op now op r) /\
  view_sim (fst (view_op now op v)) (fst (router_op now op r)).
Proof.
  destruct v as [ws ring loc t], r as [ws' t' lr ttl loc' ring'].
  intros [H1 H2 H3 H4]; simpl in *; subst.
  destruct op; simpl; unfold view_select_worker, select_worker, router_snapshot,
    view_snapshot, view_select_worker_with_replication, select_worker_with_replication,
    view_select_worker_for_read, select_worker_for_read; simpl;
    try (split; [done|by constructor]).
  destruct ws'; simpl; (split; [done|by constructor]).
Qed.

Lemma view_sim_run trace v r : view_sim v r -> run_view trace v = run_router trace r.
Proof.
  revert v r. induction trace as [|[now op] trace IH]; intros v r Hs; simpl; [done|].
  destruct (view_sim_step now op v r Hs) as [Hout Hs'].
  destruct (view_op now op v), (router_op now op r). simpl in *. subst.
  f_equal. by apply IH.
Qed.

(** ** Invariant of the shared router *)

Record router_inv (n : nat) (r : WorkerRouter) : Prop := {
  ri_ring : wr_hash_ring r = build_hash_ring (wr_workers r);
  ri_local : wr_local_worker_id r = Some (probe_local hostname is_local_address (wr_workers r))
             \/ (wr_local_worker_id r = None /\ wr_workers r = []);
  ri_tracker : tracker_ok (wr_tracker r);
  ri_size : (size (tracker_map (wr_tracker r)) <= n)%nat;
}.

(** What a selection does to the failure tracker: at most the clean-up. *)
Definition tracker_evolves (now : Z) (t t' : FailureTracker) : Prop :=
  t' = t \/ t' = cleanup_expired_failures now t \/
  t' = cleanup_expired_failures now (cleanup_expired_failures now t).

Lemma select_several_tracker now sn b n t :
  fst (select_several now sn b n t) = t \/
  fst (select_several now sn b n t) = cleanup_expired_failures now t.
Proof.
  unfold select_several. destruct (n =? 0)%nat; [by left|].
  destruct (sn_workers sn); [by left|]. right. by repeat case_match.
Qed.

Lemma select_several_for_read_tracker now sn b l n t :
  tracker_evolves now t (fst (select_several_for_read now sn b l n t)).
Proof.
  unfold select_several_for_read, tracker_evolves. destruct (n =? 0)%nat; [by left|].
  destruct (sn_workers sn); [by left|].
  destruct (workers_from_block_locations _ _ _ _); [|by right; left].
  destruct (select_several_tracker now sn b n (cleanup_expired_failures now t)) as [->| ->];
    tauto.
Qed.

Lemma tracker_evolves_ok now t t' n :
  tracker_evolves now t t' -> tracker_ok t -> Z.of_nat n < u64_mod ->
  (size (tracker_map t) <= n)%nat ->
  tracker_ok t' /\ (size (tracker_map t') <= n)%nat.
Proof.
  intros Hev Hok Hn Hs.
  pose proof (cleanup_size now t). pose proof (cleanup_size now (cleanup_expired_failures now t)).
  destruct Hev as [-> |[-> | ->]]; (split; [|lia]); [done| |];
    repeat (apply cleanup_ok; [|lia]); done.
Qed.

Lemma router_inv_tracker n m r t :
  router_inv n r -> tracker_ok t -> (size (tracker_map t) <= m)%nat ->
  router_inv m (set_tracker r t).
Proof. intros [????] ??. by constructor. Qed.

Lemma router_inv_weaken n m r : (n <= m)%nat -> router_inv n r -> router_inv m r.
Proof. intros ? [????]. constructor; auto. lia. Qed.

Lemma router_inv_evolve n now r t :
  router_inv n r -> tracker_evolves now (wr_tracker r) t -> Z.of_nat n < u64_mod ->
  router_inv n (set_tracker r t).
Proof.
  intros Hinv Hev Hn. pose proof Hinv as [_ _ Hok Hs].
  destruct (tracker_evolves_ok now _ _ n Hev Hok Hn Hs).
  by eapply router_inv_tracker.
Qed.

Lemma router_op_inv n now op r :
  router_inv n r -> Z.of_nat n + 1 < u64_mod -> router_inv (S n) (fst (router_op now op r)).
Proof.
  intros Hinv Hn. assert (Hev : forall t, tracker_evolves now (wr_tracker r) t ->
    router_inv (S n) (set_tracker r t)).
  { intros t Ht. apply (router_inv_weaken n); [lia|]. eapply router_inv_evolve; eauto. lia. }
  destruct op as [b|b k|b k|b l k|b l k m|choose|addr|]; simpl.
  - unfold select_worker. destruct (wr_workers r) as [|w ws] eqn:E; simpl.
    { apply (router_inv_weaken n); [lia|done]. }
    destruct (Hev (cleanup_expired_failures now (wr_tracker r)) ltac:(by right; left))
      as [H1 H2 H3 H4]. constructor; [done| |done|done]. left. simpl.
    pose proof (ri_local n r Hinv) as [Hl|[_ Hl]]; [|by rewrite E in Hl].
    rewrite Hl. done.
  - apply Hev. pose proof (select_several_tracker now (router_snapshot r) b k (wr_tracker r)).
    unfold tracker_evolves. tauto.
  - unfold select_worker_with_replication, select_workers, lift_tracker. simpl. apply Hev.
    pose proof (select_several_tracker now (router_snapshot r) b (Z.to_nat (Z.max k 1))
      (wr_tracker r)). unfold tracker_evolves. tauto.
  - apply Hev, select_several_for_read_tracker.
  - apply Hev, select_several_for_read_tracker.
  - apply Hev. unfold pick_any, tracker_evolves. destruct (sn_workers _); [by left|].
    right; left. simpl. by destruct (_ !! _).
  - destruct Hinv as [H1 H2 H3 H4]. constructor; [done|done| |].
    + apply mark_failed_ok; [done|lia].
    + simpl. rewrite tracker_map_mark, map_size_insert. case_match; unfold id; lia.
  - destruct Hinv as [H1 H2 H3 H4]. constructor; [done|done|apply clear_failed_ok|].
    simpl. rewrite tracker_map_clear, map_size_empty. lia.
Qed.

Lemma run_router_op_inv n r e :
  router_inv n r -> Z.of_nat n + 1 < u64_mod -> router_inv (S n) (run_router_op r e).
Proof.
  intros Hinv Hn. pose proof Hinv as [H1 H2 H3 H4].
  assert (Hup : forall ws, router_inv (S n)
    (update_workers xxh3 hostname is_local_address (fst e) ws r)).
  { intros ws. unfold update_workers. case_match.
    - constructor; [done|done|done|simpl; lia].
    - constructor; [done|by left|done|simpl; lia]. }
  destruct e as [now [op|ws|[ws|err]]]; simpl in *; [by apply router_op_inv|apply Hup..|].
  constructor; [done|done|done|simpl; lia].
Qed.

Lemma run_router_ops_inv trace n r :
  router_inv n r -> Z.of_nat (n + length trace) < u64_mod ->
  router_inv (n + length trace) (foldl run_router_op r trace).
Proof.
  revert n r. induction trace as [|e trace IH]; intros n r Hinv Hn; simpl in *.
  - by rewrite Nat.add_0_r.
  - replace (n + S (length trace))%nat with (S n + length trace)%nat by lia.
    apply IH; [|lia]. apply run_router_op_inv; [done|lia].
Qed.

Lemma with_ttls_inv now ft wt : router_inv 0 (with_ttls now ft wt).
Proof. constructor; [done|by right|apply tracker_ok_new|done]. Qed.
End RouterRuns.

(** ** The fingerprint *)

#[export] Instance tuple_compare_ok : CompareOk tuple_compare.
Proof. unfold tuple_compare. apply _. Qed.

Lemma workers_fingerprint_perm xxh3 ws ws' :
  ws ≡ₚ ws' -> workers_fingerprint xxh3 ws = workers_fingerprint xxh3 ws'.
Proof.
  intros Hp. unfold workers_fingerprint.
  rewrite (sort_by_canonical tuple_compare (map fingerprint_tuple ws) (map fingerprint_tuple ws'))
    by (by apply Permutation_map).
  destruct ws, ws'; [done| | |done].
  - by apply Permutation_nil_cons in Hp.
  - symmetry in Hp. by apply Permutation_nil_cons in Hp.
Qed.

(** ** Properties *)

(** C29. Failure tracking is exact: whatever sequence of marks, clears and
    clean-ups happened (at non-decreasing times), a worker counts as failed
    exactly when it was marked within the TTL and not cleared since; the lazy
    expiry and its counter gate are unobservable. *)
Theorem failure_tracking_exact (ttl start now : Z) (trace : list (Z * TrackerOp)) (key : string) :
  StronglySorted Z.le (start :: map fst trace ++ [now]) ->
  is_failed now (foldl run_tracker_op (tracker_new ttl) trace) key
  = spec_failed now ttl (foldl spec_tracker_op ∅ trace) key.
Proof.
  intros Hs. destruct (tracks_run trace (tracker_new ttl) ∅ start now) as [Ht Httl]; [|done|].
  - split; [done|]. intros ??. by rewrite lookup_empty.
  - rewrite (tracks_is_failed _ _ _ _ Ht). by rewrite Httl.
Qed.

Definition example_addr (host : string) : WorkerNetAddress :=
  mkWorkerNetAddress (Some host) (Some 9203) None None None None None None None None.

Lemma failure_tracking_exact_witness :
  is_failed 12 (foldl run_tracker_op (tracker_new 5)
    [(1, TMark (example_addr "a")); (9, TMark (example_addr "b")); (10, TCleanup)]) "b:9203"
  = true.
Proof.
  rewrite (failure_tracking_exact 5 0 12).
  - reflexivity.
  - simpl; repeat constructor; lia.
Defined.

(** Invariant of the shared router, over every history of updates,
    refreshes, selections and failure reports: the published ring is the one of
    the published worker list, the local-worker probe is resolved for that list
    whenever there are workers, and the failure counter is the exact size of the
    failure map. *)
Theorem router_history_invariant (xxh3 : bytes -> Z) (hostname : option string)
    (is_local_address : string -> bool) (start failure_ttl refresh_ttl : Z)
    (history : list (Z * RouterOp)) :
  zlen history < u64_mod ->
  let r := foldl (run_router_op xxh3 hostname is_local_address)
             (with_ttls start failure_ttl refresh_ttl) history in
  wr_hash_ring r = build_hash_ring (wr_workers r) /\
  (wr_workers r <> [] ->
   wr_local_worker_id r = Some (probe_local hostname is_local_address (wr_workers r))) /\
  ft_failed_count (wr_tracker r) = Z.of_nat (size (tracker_map (wr_tracker r))).
Proof.
  intros Hn. unfold zlen in Hn.
  pose proof (run_router_ops_inv xxh3 hostname is_local_address history 0 _
    (with_ttls_inv hostname is_local_address start failure_ttl refresh_ttl) Hn) as [H1 H2 H3 _].
  split; [done|]. split; [|done]. intros Hne. by destruct H2 as [?|[_ ?]].
Qed.

Lemma router_history_invariant_witness :
  let r := foldl (run_router_op (fun _ => 7) None (fun _ => false)) (with_ttls 0 60 30)
    [(1, RUpdate [example_worker 1 "a" 2; example_worker 2 "b" 2]);
     (2, RSelect (SelMark (example_addr "a"))); (3, RSelect (SelMark (example_addr "a")));
     (4, RSelect (SelMany 17 2))] in
  ft_failed_count (wr_tracker r) = 1.
Proof.
  pose proof (router_history_invariant (fun _ => 7) None (fun _ => false) 0 60 30
    [(1, RUpdate [example_worker 1 "a" 2; example_worker 2 "b" 2]);
     (2, RSelect (SelMark (example_addr "a"))); (3, RSelect (SelMark (example_addr "a")));
     (4, RSelect (SelMany 17 2))] ltac:(reflexivity)) as (_ & _ & Hc).
  etransitivity; [exact Hc|]. vm_compute. reflexivity.
Defined.


Definition example_router : WorkerRouter :=
  update_workers (fun _ => 7) None (fun _ => false) 1
    [example_worker 1 "a" 2; example_worker 2 "localhost" 2] (router_new 0).


(** Selecting workers for a block never comes back empty-handed: on a router
    whose ring is that of its workers, when every worker has an address and the
    ring has a node, any positive count yields a non-empty list of at most
    [count] registered workers, even when all of them are marked failed. *)
Theorem select_workers_total (now block_id : Z) (count : nat) (r : WorkerRouter) :
  wr_hash_ring r = build_hash_ring (wr_workers r) -> wr_hash_ring r <> [] ->
  Forall (fun w => is_Some (wi_address w)) (wr_workers r) -> (0 < count)%nat ->
  exists ws, snd (select_workers now block_id count r) = Ok ws /\ ws <> [] /\
    (length ws <= count)%nat /\ Forall (fun w => w ∈ wr_workers r) ws.
Proof.
  intros Hring Hne Haddr Hc. unfold select_workers, lift_tracker, select_several. simpl.
  destruct (Nat.eqb_spec count 0); [lia|].
  destruct (wr_workers r) as [|w0 ws0] eqn:Ew; [by rewrite Hring in Hne|]. rewrite <- Ew in *.
  set (t := cleanup_expired_failures now (wr_tracker r)).
  assert (Hpick : forall skip ws, consistent_hash_select_n_from_ring (is_failed now t) block_id
      (wr_workers r) (wr_hash_ring r) count skip = ws -> ws <> [] ->
    exists ws', Ok (E := Error) ws = Ok ws' /\ ws' <> [] /\ (length ws' <= count)%nat /\
      Forall (fun w => w ∈ wr_workers r) ws').
  { intros skip ws <- Hws. eexists. split; [done|]. split; [done|].
    destruct (select_n_inv (is_failed now t) (wr_workers r) skip block_id (wr_hash_ring r) count)
      as (st & [Hl (idxs & _ & Hall & _) _ _ _] & Hsel).
    rewrite Hsel. split; [done|]. clear -Hall. induction Hall; constructor; [|done].
    by eapply list_elem_of_lookup_2. }
  destruct (consistent_hash_select_n_from_ring _ _ _ _ count true) eqn:Et; last first.
  { by apply (Hpick true). }
  destruct (consistent_hash_select_n_from_ring _ _ _ _ count false) eqn:Ef; last first.
  { by apply (Hpick false). }
  exfalso. rewrite Hring in Hne.
  destruct (ring_ceiling_ok (build_hash_ring (wr_workers r)) (murmur3_guava_long_int block_id 0)
    (build_hash_ring_sorted _) Hne) as (i & Hi & _).
  destruct (lookup_lt_is_Some_2 (wr_workers r) i) as [w Hw]; [by eapply build_hash_ring_index|].
  rewrite <- Hring in Hi. revert Ef. eapply select_n_first; eauto.
  by apply (Forall_lookup_1 _ _ _ _ Haddr Hw).
Qed.

Lemma select_workers_total_witness :
  exists ws, snd (select_workers 3 5 2 (router_mark_failed 2 (example_addr "a") example_router))
    = Ok ws /\ ws <> [] /\ Nat.le (length ws) 2 /\
    Forall (fun w => w ∈ wr_workers example_router) ws.
Proof.
  apply (select_workers_total 3 5 2 (router_mark_failed 2 (example_addr "a") example_router)).
  - vm_compute. reflexivity.
  - vm_compute. congruence.
  - repeat constructor; eexists; reflexivity.
  - lia.
Defined.

(** Order does not matter: a refresh that returns the registered workers in
    another order, for any hash function, leaves the published workers, ring
    and probe as they are and only restarts the refresh clock. *)
Theorem update_workers_reordered (xxh3 : bytes -> Z) (hostname : option string)
    (is_local_address : string -> bool) (now : Z) (workers : list WorkerInfo) (r : WorkerRouter) :
  wr_workers r <> [] -> workers ≡ₚ wr_workers r ->
  update_workers xxh3 hostname is_local_address now workers r = set_last_refresh r now.
Proof.
  intros Hne Hp. unfold update_workers. rewrite (workers_fingerprint_perm xxh3 _ _ Hp).
  rewrite Z.eqb_refl. unfold workers_is_empty. by destruct (wr_workers r).
Qed.

Lemma update_workers_reordered_witness :
  update_workers (fun _ => 7) None (fun _ => false) 9
    [example_worker 2 "localhost" 2; example_worker 1 "a" 2] example_router
  = set_last_refresh example_router 9.
Proof.
  apply (update_workers_reordered (fun _ => 7) None (fun _ => false) 9
    [example_worker 2 "localhost" 2; example_worker 1 "a" 2] example_router).
  - vm_compute. congruence.
  - apply perm_swap.
Defined.

(** A worker whose usage the master reports. *)
Definition example_worker_used (id : Z) (host : string) (used : Z) : WorkerInfo :=
  mkWorkerInfo (Some id) (Some (example_addr host)) None None (Some 100) (Some used) None
    (Some used) None (Some 2) None None.

(** The fingerprint covers what the ring depends on, not the usage figures: a
    refresh that brings new figures for an unchanged worker set is dropped, for
    any hash function, and the router goes on serving the old ones. *)
Example update_workers_drops_usage (xxh3 : bytes -> Z) :
  let upd now ws := update_workers xxh3 None (fun _ => false) now ws in
  let r := upd 1 [example_worker_used 1 "a" 10] (router_new 0) in
  map wi_persist_used_bytes (wr_workers (upd 2 [example_worker_used 1 "a" 99] r)) = [Some 10].
Proof.
  unfold update_workers. simpl. rewrite andb_false_r. simpl.
  change (workers_fingerprint xxh3 [example_worker_used 1 "a" 99])
    with (workers_fingerprint xxh3 [example_worker_used 1 "a" 10]).
  rewrite Z.eqb_refl. reflexivity.
Qed.
