(* ===== verification/BlockLocations.v ===== *)
(** * Block locations

    [src/src/block/locations.rs]: the block ids of a file the master omits, the probe that
    asks workers which blocks they hold, and the share of a file that is cached.  The
    theorems relate the locations a probe leaves in the [FileInfo] to the answers of the
    workers, and follow them into the router's choice of a worker to read from. *)

From S2P Require Import Prelude Text Proto Errors HashRing Router.

(** ** Updates of the message *)

Definition set_block_ids (fi : FileInfo) (ids : list Z) : FileInfo :=
  let 'mkFileInfo a b c d e f g h i j k _ m n o p q r s t u v w x y z := fi in
  mkFileInfo a b c d e f g h i j k ids m n o p q r s t u v w x y z.

Definition set_file_block_infos (fi : FileInfo) (infos : list FileBlockInfo) : FileInfo :=
  let 'mkFileInfo a b c d e f g h i j k l m n o p q r _ t u v w x y z := fi in
  mkFileInfo a b c d e f g h i j k l m n o p q r infos t u v w x y z.

Definition set_in_goose_fs_percentage (fi : FileInfo) (pct : option Z) : FileInfo :=
  let 'mkFileInfo a b c d e f g h i j k l m n o p q r s t _ v w x y z := fi in
  mkFileInfo a b c d e f g h i j k l m n o p q r s t pct v w x y z.

Definition set_locations (bi : BlockInfo) (locations : list BlockLocation) : BlockInfo :=
  mkBlockInfo (bi_block_id bi) (bi_length bi) (bi_max_replicas bi) locations.

Definition set_block_info (fbi : FileBlockInfo) (bi : BlockInfo) : FileBlockInfo :=
  mkFileBlockInfo (Some bi) (fbi_offset fbi) (fbi_ufs_locations fbi) (fbi_ufs_string_locations fbi).

(** ** Block ids *)

Definition fbi_block_id (fbi : FileBlockInfo) : option Z :=
  bi ← fbi_block_info fbi; bi_block_id bi.

Definition offset_and_id (fbi : FileBlockInfo) : option (Z * Z) :=
  id ← fbi_block_id fbi;
  if 0 <? id then Some (default 0 (fbi_offset fbi), id) else None.

Definition ensure_block_ids_from_file_block_infos (fi : FileInfo) : FileInfo :=
  match fi_block_ids fi, fi_file_block_infos fi with
  | _ :: _, _ | _, [] => fi
  | [], infos => set_block_ids fi (map snd (sort_by_key fst (omap offset_and_id infos)))
  end.

(** ** The cached share of a file *)

(** [cache_size += block_length] wraps as in a release build. *)
Definition cached_length (infos : list FileBlockInfo) : Z :=
  foldl (fun acc fbi =>
    match fbi_block_info fbi with
    | None => acc
    | Some bi =>
        match bi_locations bi with
        | [] => acc
        | _ => i64_add acc (Z.max (default 0 (bi_length bi)) 0)
        end
    end) 0 infos.

Definition i64_min : Z := - 9223372036854775808.

Definition i64_saturating_mul (a b : Z) : Z := Z.max i64_min (Z.min (a * b) i64_max).

(** [/] on [i64] truncates towards zero. *)
Definition recompute_in_goosefs_percentage (fi : FileInfo) : FileInfo :=
  let file_length := default 0 (fi_length fi) in
  if file_length =? 0 then set_in_goose_fs_percentage fi (Some 100)
  else
    let cache_size := cached_length (fi_file_block_infos fi) in
    let pct := Z.min (Z.quot (i64_saturating_mul cache_size 100) file_length) 100 in
    set_in_goose_fs_percentage fi (Some (as_i32 pct)).

Definition fill_in_goosefs_percentage_without_probe (fi : FileInfo) : FileInfo :=
  let full := set_in_goose_fs_percentage fi (Some 100) in
  let state := default ""%string (fi_persistence_state fi) in
  if default false (fi_folder fi) then fi
  else if default 0 (fi_length fi) =? 0 then full
  else if eq_ignore_ascii_case state "TO_BE_PERSISTED" then full
  else if default false (fi_completed fi) && default false (fi_cacheable fi)
          && negb (default false (fi_persisted fi))
          && (String.eqb state "" || eq_ignore_ascii_case state "NOT_PERSISTED") then full
  else recompute_in_goosefs_percentage fi.

(** ** The probe *)

Record ProbedLocations : Type := mkProbed {
  pl_locations : gmap Z (list BlockLocation);
  pl_probed_ok : gset Z;
}.

(** [WorkerCheckOutcome]: [None] is [Failed]. *)
Record WorkerCheck : Type := mkWorkerCheck {
  wc_worker : WorkerInfo;
  wc_queried : gset Z;
  wc_cached_bytes : gmap Z Z;
}.

Definition apply_probed (probed : ProbedLocations) (fbi : FileBlockInfo) : FileBlockInfo :=
  match fbi_block_info fbi with
  | None => fbi
  | Some bi =>
      match bi_block_id bi with
      | None => fbi
      | Some block_id =>
          if bool_decide (block_id ∈ pl_probed_ok probed) then
            set_block_info fbi (set_locations bi (default [] (pl_locations probed !! block_id)))
          else fbi
      end
  end.

Definition apply_probed_locations (fi : FileInfo) (probed : ProbedLocations) : FileInfo :=
  recompute_in_goosefs_percentage
    (set_file_block_infos fi (map (apply_probed probed) (fi_file_block_infos fi))).

Section Probe.
(** The order in which the two hash maps are iterated, and what a worker answers:
    [None] when it cannot be reached or its [CheckBlocks] fails. *)
Context (blocks_order : gmap Z (list WorkerInfo) -> list (Z * list WorkerInfo)).
Context (workers_order : gmap string (WorkerInfo * gset Z) -> list (string * (WorkerInfo * gset Z))).
Context (check_blocks : string -> gset Z -> option (gmap Z Z)).

(** [clock i] is the time of the [i]-th selection. *)
Fixpoint select_candidates (clock : nat -> Z) (i : nat) (block_ids : list Z) (check_count : nat)
    (view : WorkerRouterView) (acc : gmap Z (list WorkerInfo))
  : WorkerRouterView * gmap Z (list WorkerInfo) :=
  match block_ids with
  | [] => (view, acc)
  | block_id :: block_ids =>
      let '(view, r) := view_select_workers (clock i) block_id check_count view in
      let acc := match r with Ok workers => <[block_id := workers]> acc | Err _ => acc end in
      select_candidates clock (S i) block_ids check_count view acc
  end.

Definition add_candidate (block_id : Z) (m : gmap string (WorkerInfo * gset Z)) (w : WorkerInfo)
  : gmap string (WorkerInfo * gset Z) :=
  match wi_address w with
  | None => m
  | Some addr =>
      let key := rpc_endpoint addr in
      <[key := match m !! key with
               | Some (w', ids) => (w', {[block_id]} ∪ ids)
               | None => (w, {[block_id]})
               end]> m
  end.

Definition worker_to_blocks (block_to_workers : gmap Z (list WorkerInfo))
  : gmap string (WorkerInfo * gset Z) :=
  foldl (fun m '(block_id, workers) => foldl (add_candidate block_id) m workers) ∅
    (blocks_order block_to_workers).

Definition check_worker (entry : string * (WorkerInfo * gset Z)) : option WorkerCheck :=
  let '(endpoint, (worker, ids)) := entry in
  cached_bytes ← check_blocks endpoint ids;
  Some (mkWorkerCheck worker ids cached_bytes).

Definition location_of (w : WorkerInfo) : BlockLocation := mkBlockLocation (wi_id w) (wi_address w).

Definition mark_queried (p : ProbedLocations) (block_id : Z) : ProbedLocations :=
  mkProbed (<[block_id := default [] (pl_locations p !! block_id)]> (pl_locations p))
    ({[block_id]} ∪ pl_probed_ok p).

Definition add_location (w : WorkerInfo) (p : ProbedLocations) (answer : Z * Z) : ProbedLocations :=
  let '(block_id, bytes) := answer in
  if bytes <=? 0 then p
  else mkProbed (<[block_id := default [] (pl_locations p !! block_id) ++ [location_of w]]>
                   (pl_locations p)) (pl_probed_ok p).

Definition record_outcome (p : ProbedLocations) (o : option WorkerCheck) : ProbedLocations :=
  match o with
  | None => p
  | Some c =>
      foldl (add_location (wc_worker c)) (foldl mark_queried p (elements (wc_queried c)))
        (map_to_list (wc_cached_bytes c))
  end.

Definition fetch_block_locations (clock : nat -> Z) (view : WorkerRouterView) (block_ids : list Z)
    (check_count : nat) : WorkerRouterView * ProbedLocations :=
  let '(view, block_to_workers) := select_candidates clock 0 block_ids check_count view ∅ in
  let outcomes := map check_worker (workers_order (worker_to_blocks block_to_workers)) in
  (view, foldl record_outcome (mkProbed ∅ ∅) outcomes).

Definition probe_ids (fi : FileInfo) : list Z :=
  List.filter (fun id => 0 <? id) (omap fbi_block_id (fi_file_block_infos fi)).

(** [fetch_block_locations] never fails, so neither does this. *)
Definition enrich_file_block_locations (clock : nat -> Z) (view : WorkerRouterView)
    (check_count : nat) (fi : FileInfo) : WorkerRouterView * FileInfo :=
  let fi := ensure_block_ids_from_file_block_infos fi in
  if (check_count =? 0)%nat || bool_decide (fi_file_block_infos fi = []) then (view, fi)
  else match probe_ids fi with
  | [] => (view, fi)
  | block_ids =>
      let '(view, probed) := fetch_block_locations clock view block_ids check_count in
      (view, apply_probed_locations fi probed)
  end.

(** The shared router is probed through a snapshot. *)
Definition enrich_file_block_locations_with_router (clock : nat -> Z) (router : WorkerRouter)
    (check_count : nat) (fi : FileInfo) : FileInfo :=
  snd (enrich_file_block_locations clock (from_shared router) check_count fi).

Definition maybe_enrich_file_block_locations (clock : nat -> Z) (view : WorkerRouterView)
    (check_count : Z) (fi : FileInfo) : WorkerRouterView * FileInfo :=
  let count := Z.to_nat (Z.max check_count 0) in
  if (count =? 0)%nat then (view, ensure_block_ids_from_file_block_infos fi)
  else enrich_file_block_locations clock view count fi.
End Probe.

(** ** Who is asked about which block *)

Definition endpoint_of (w : WorkerInfo) (e : string) : Prop :=
  exists addr, wi_address w = Some addr /\ rpc_endpoint addr = e.

Lemma endpoint_of_inj w e e' : endpoint_of w e -> endpoint_of w e' -> e = e'.
Proof. intros (a & Ha & <-) (a' & Ha' & <-). congruence. Qed.

(** [m] asks each endpoint about exactly the blocks paired with a worker there. *)
Definition plan_ok (pairs : list (Z * WorkerInfo)) (m : gmap string (WorkerInfo * gset Z)) : Prop :=
  forall e,
    match m !! e with
    | None => forall b w, (b, w) ∈ pairs -> ~ endpoint_of w e
    | Some (w, ids) =>
        endpoint_of w e /\ (exists b, (b, w) ∈ pairs) /\
        forall b, b ∈ ids <-> exists w', (b, w') ∈ pairs /\ endpoint_of w' e
    end.

Lemma add_candidate_ok pairs m b w :
  plan_ok pairs m -> plan_ok (pairs ++ [(b, w)]) (add_candidate b m w).
Proof.
  intros Hm e. specialize (Hm e). unfold add_candidate. destruct (wi_address w) as [addr|] eqn:Ha.
  - destruct (decide (rpc_endpoint addr = e)) as [<-|Hne].
    + assert (He : endpoint_of w (rpc_endpoint addr)) by by exists addr.
      rewrite lookup_insert_eq. destruct (m !! rpc_endpoint addr) as [[w0 ids]|]; set_solver.
    + rewrite lookup_insert_ne by done.
      assert (He : ~ endpoint_of w e) by (intros (a & ? & ?); congruence).
      destruct (m !! e) as [[w0 ids]|]; set_solver.
  - assert (He : ~ endpoint_of w e) by (intros (a & ? & ?); congruence).
    destruct (m !! e) as [[w0 ids]|]; set_solver.
Qed.

Lemma add_candidates_ok b ws : forall pairs m,
  plan_ok pairs m -> plan_ok (pairs ++ map (pair b) ws) (foldl (add_candidate b) m ws).
Proof.
  induction ws as [|w ws IH]; intros pairs m Hm; cbn; [by rewrite app_nil_r|].
  rewrite cons_middle, app_assoc. by apply IH, add_candidate_ok.
Qed.

Lemma worker_to_blocks_ok_list l : forall pairs m,
  plan_ok pairs m ->
  plan_ok (pairs ++ flat_map (fun '(b, ws) => map (pair b) ws) l)
    (foldl (fun m '(b, ws) => foldl (add_candidate b) m ws) m l).
Proof.
  induction l as [|[b ws] l IH]; intros pairs m Hm; cbn; [by rewrite app_nil_r|].
  rewrite app_assoc. by apply IH, add_candidates_ok.
Qed.

Definition candidate (m : gmap Z (list WorkerInfo)) (b : Z) (w : WorkerInfo) : Prop :=
  exists ws, m !! b = Some ws /\ w ∈ ws.

(** ** What the answers add up to *)

(** The probe knows the blocks of the successful answers, and lists a worker for a block
    when that worker's answer says it holds some of it. *)
Definition outcomes_ok (os : list (option WorkerCheck)) (p : ProbedLocations) : Prop :=
  (forall b, b ∈ pl_probed_ok p <-> exists c, Some c ∈ os /\ b ∈ wc_queried c) /\
  forall b l, l ∈ default [] (pl_locations p !! b) <->
    exists c n, Some c ∈ os /\ wc_cached_bytes c !! b = Some n /\ 0 < n /\ l = location_of (wc_worker c).

Lemma mark_queried_list l : forall p,
  (forall b, b ∈ pl_probed_ok (foldl mark_queried p l) <-> b ∈ l \/ b ∈ pl_probed_ok p) /\
  forall b, default [] (pl_locations (foldl mark_queried p l) !! b) = default [] (pl_locations p !! b).
Proof.
  induction l as [|b l IH]; intros p; cbn; [split; [set_solver|done]|].
  destruct (IH (mark_queried p b)) as [H1 H2]. split.
  - intros b'. rewrite H1. cbn. set_solver.
  - intros b'. rewrite H2. cbn. destruct (decide (b = b')) as [->|Hne].
    + by rewrite lookup_insert_eq.
    + by rewrite lookup_insert_ne.
Qed.

Lemma add_location_list w l : forall p,
  pl_probed_ok (foldl (add_location w) p l) = pl_probed_ok p /\
  forall b x, x ∈ default [] (pl_locations (foldl (add_location w) p l) !! b) <->
    x ∈ default [] (pl_locations p !! b) \/ exists n, (b, n) ∈ l /\ 0 < n /\ x = location_of w.
Proof.
  induction l as [|[b0 n0] l IH]; intros p; cbn [foldl]; [split; [done|set_solver]|].
  destruct (IH (add_location w p (b0, n0))) as [H1 H2]. split.
  { rewrite H1. cbn. by destruct (n0 <=? 0). }
  intros b x. rewrite H2. cbn. destruct (Z.leb_spec n0 0); cbn.
  - split; [set_solver|]. intros [?|(n & Hin & Hn & ->)]; [by left|right; exists n].
    split; [|done]. apply elem_of_cons in Hin as [[= <- <-]|]; [lia|done].
  - destruct (decide (b0 = b)) as [->|Hne].
    + rewrite lookup_insert_eq. cbn. rewrite elem_of_app, list_elem_of_singleton. split.
      * intros [[?| ->]|(n & ? & ? & ?)]; [by left|right; exists n0; set_solver|right; exists n; set_solver].
      * intros [?|(n & [[= <-]|?]%elem_of_cons & ? & ->)]; [by left; left|by left; right|right; by exists n].
    + rewrite lookup_insert_ne by done. split.
      * intros [?|(n & ? & ?)]; [by left|right; exists n; set_solver].
      * intros [?|(n & [[= <- <-]|?]%elem_of_cons & ? & ?)]; [by left|done|right; by exists n].
Qed.

Lemma record_outcome_ok os p o : outcomes_ok os p -> outcomes_ok (os ++ [o]) (record_outcome p o).
Proof.
  intros [Hp Hl]. destruct o as [c|]; cbn; [|split; set_solver].
  destruct (mark_queried_list (elements (wc_queried c)) p) as [M1 M2].
  destruct (add_location_list (wc_worker c) (map_to_list (wc_cached_bytes c))
              (foldl mark_queried p (elements (wc_queried c)))) as [A1 A2]. split.
  - intros b. rewrite A1, M1, Hp, elem_of_elements. set_solver.
  - intros b l. rewrite A2, M2, Hl. setoid_rewrite elem_of_map_to_list. split.
    + intros [(c' & n & Hin & H)|(n & H)]; [exists c', n|exists c, n]; set_solver.
    + intros (c' & n & Hin & H). apply elem_of_app in Hin as [Hin|Hin]; [left; by exists c', n|].
      apply list_elem_of_singleton in Hin as [= ->]. right. by exists n.
Qed.

Lemma record_outcomes_ok l : forall os p,
  outcomes_ok os p -> outcomes_ok (os ++ l) (foldl record_outcome p l).
Proof.
  induction l as [|o l IH]; intros os p Hp; cbn; [by rewrite app_nil_r|].
  rewrite cons_middle, app_assoc. by apply IH, record_outcome_ok.
Qed.

(** ** Candidates are registered workers *)

Lemma select_n_members is_failed block_id workers ring count skip w :
  w ∈ consistent_hash_select_n_from_ring is_failed block_id workers ring count skip -> w ∈ workers.
Proof.
  destruct (select_n_inv is_failed workers skip block_id ring count) as (st & Hinv & ->).
  destruct Hinv as [_ (idxs & _ & Hall & _) _ _ _]. intros Hw.
  apply list_elem_of_lookup in Hw as [k Hk].
  apply (Forall2_lookup_r _ _ _ _ _ Hall) in Hk as (i & _ & Hi). by apply list_elem_of_lookup_2 in Hi.
Qed.

Lemma view_select_workers_members now b count v v' ws :
  view_select_workers now b count v = (v', Ok ws) -> forall w, w ∈ ws -> w ∈ vw_workers v.
Proof.
  unfold view_select_workers, view_lift, select_several. cbn.
  destruct (count =? 0)%nat; [done|]. destruct (vw_workers v) as [|w0 l] eqn:Hv; [done|].
  destruct (consistent_hash_select_n_from_ring _ _ _ _ _ true) as [|x1 l1] eqn:H1;
    [destruct (consistent_hash_select_n_from_ring _ _ _ _ _ false) as [|x2 l2] eqn:H2; [done|]|];
    intros [= _ <-] w Hw.
  - rewrite <- H2 in Hw. by apply select_n_members in Hw.
  - rewrite <- H1 in Hw. by apply select_n_members in Hw.
Qed.

Lemma view_select_workers_keeps now b count v :
  vw_workers (fst (view_select_workers now b count v)) = vw_workers v.
Proof. done. Qed.

Lemma select_candidates_members clock ids count : forall i v acc,
  (forall b w, candidate acc b w -> w ∈ vw_workers v) ->
  forall b w, candidate (snd (select_candidates clock i ids count v acc)) b w -> w ∈ vw_workers v.
Proof.
  induction ids as [|b0 ids IH]; intros i v acc Hacc b w; cbn [select_candidates]; [apply Hacc|].
  destruct (view_select_workers (clock i) b0 count v) as [v1 r] eqn:Hsel.
  pose proof (view_select_workers_keeps (clock i) b0 count v) as Hk. rewrite Hsel in Hk. cbn in Hk.
  rewrite <- Hk. apply IH.
  intros b' w'. rewrite Hk. destruct r as [ws|e]; [|apply Hacc]. intros (ws' & Hws & Hin).
  destruct (decide (b0 = b')) as [->|Hne].
  - rewrite lookup_insert_eq in Hws. injection Hws as ->. by eapply view_select_workers_members.
  - rewrite lookup_insert_ne in Hws by done. apply (Hacc b'). by exists ws'.
Qed.

(** ** What the probe leaves behind *)

Definition at_endpoint (e : string) (w : WorkerInfo) : bool :=
  match wi_address w with Some addr => bool_decide (rpc_endpoint addr = e) | None => false end.

Lemma at_endpoint_spec e w : at_endpoint e w = true <-> endpoint_of w e.
Proof.
  unfold at_endpoint, endpoint_of. destruct (wi_address w) as [addr|].
  - rewrite bool_decide_eq_true. split; [by exists addr|by intros (a & [= ->] & ?)].
  - split; [done|by intros (a & ? & _)].
Qed.

(** The blocks an endpoint is asked about: those with a candidate there. *)
Definition asked_ids (cands : gmap Z (list WorkerInfo)) (e : string) : gset Z :=
  list_to_set (map fst (List.filter (fun '(_, ws) => existsb (at_endpoint e) ws) (map_to_list cands))).

Lemma elem_of_asked_ids cands e b :
  b ∈ asked_ids cands e <-> exists w, candidate cands b w /\ endpoint_of w e.
Proof.
  unfold asked_ids. rewrite elem_of_list_to_set, list_elem_of_In, in_map_iff. split.
  - intros ([b' ws] & <- & [Hin Hex]%filter_In). apply existsb_exists in Hex as (w & Hw & He).
    exists w. split; [|by apply at_endpoint_spec]. exists ws.
    rewrite <- elem_of_map_to_list, !list_elem_of_In. done.
  - intros (w & (ws & Hb & Hw) & He). exists (b, ws). split; [done|]. apply filter_In.
    rewrite <- list_elem_of_In, elem_of_map_to_list. split; [done|].
    apply existsb_exists. exists w. rewrite <- list_elem_of_In. split; [done|by apply at_endpoint_spec].
Qed.

Section Correct.
Context (blocks_order : gmap Z (list WorkerInfo) -> list (Z * list WorkerInfo)).
Context (workers_order : gmap string (WorkerInfo * gset Z) -> list (string * (WorkerInfo * gset Z))).
Context (check_blocks : string -> gset Z -> option (gmap Z Z)).
(** A hash map is iterated over its entries, in some order. *)
Hypothesis blocks_order_perm : forall m, blocks_order m ≡ₚ map_to_list m.
Hypothesis workers_order_perm : forall m, workers_order m ≡ₚ map_to_list m.

Definition answer (cands : gmap Z (list WorkerInfo)) (e : string) : option (gmap Z Z) :=
  check_blocks e (asked_ids cands e).

Lemma worker_to_blocks_spec cands e :
  match worker_to_blocks blocks_order cands !! e with
  | None => asked_ids cands e = ∅
  | Some (w, ids) => endpoint_of w e /\ (exists b, candidate cands b w) /\ ids = asked_ids cands e
  end.
Proof.
  pose proof (worker_to_blocks_ok_list (blocks_order cands) [] ∅) as Hok. cbn in Hok.
  assert (Hpairs : forall b w, (b, w) ∈ flat_map (fun '(b, ws) => map (pair b) ws) (blocks_order cands)
                               <-> candidate cands b w).
  { intros b w. rewrite list_elem_of_In, in_flat_map. unfold candidate. split.
    - intros ([b' ws] & Hin & (w' & [= <- <-] & Hw)%in_map_iff). exists ws.
      rewrite <- elem_of_map_to_list, <- (blocks_order_perm cands), !list_elem_of_In. done.
    - intros (ws & Hb & Hw). exists (b, ws). rewrite <- list_elem_of_In, (blocks_order_perm cands),
        elem_of_map_to_list. split; [done|]. apply in_map. by rewrite <- list_elem_of_In. }
  specialize (Hok ltac:(intros e'; rewrite lookup_empty; set_solver) e). unfold worker_to_blocks.
  destruct (foldl _ ∅ _ !! e) as [[w ids]|].
  - destruct Hok as (He & (b & Hb) & Hids). split; [done|]. split; [exists b; by apply Hpairs|].
    apply set_eq. intros b'. rewrite Hids, elem_of_asked_ids. by setoid_rewrite Hpairs.
  - apply elem_of_equiv_empty_L. intros b (w & Hw & He)%elem_of_asked_ids. by apply (Hok b w); [apply Hpairs|].
Qed.

(** A worker that was asked, answered, and said it holds some of block [b]. *)
Definition reports (cands : gmap Z (list WorkerInfo)) (b : Z) (w : WorkerInfo) : Prop :=
  exists e reply n, endpoint_of w e /\ (exists b', candidate cands b' w) /\
    answer cands e = Some reply /\ reply !! b = Some n /\ 0 < n.

Definition probed (cands : gmap Z (list WorkerInfo)) (b : Z) : Prop :=
  exists e, b ∈ asked_ids cands e /\ is_Some (answer cands e).

Abbreviation ask_plan := (worker_to_blocks blocks_order).
Abbreviation outcomes cands := (map (check_worker check_blocks) (workers_order (ask_plan cands))).

Lemma elem_of_outcomes cands c :
  Some c ∈ outcomes cands <->
  exists e, ask_plan cands !! e = Some (wc_worker c, wc_queried c) /\
    check_blocks e (wc_queried c) = Some (wc_cached_bytes c).
Proof.
  rewrite list_elem_of_In, in_map_iff. split.
  - intros ([e [w ids]] & Hc & Hin). cbn in Hc.
    rewrite <- list_elem_of_In, workers_order_perm, elem_of_map_to_list in Hin.
    destruct (check_blocks e ids) as [reply|] eqn:Hr; [|done]. injection Hc as <-. by exists e.
  - intros (e & Hp & Hr). exists (e, (wc_worker c, wc_queried c)). split.
    + cbn. rewrite Hr. by destruct c.
    + by rewrite <- list_elem_of_In, workers_order_perm, elem_of_map_to_list.
Qed.

Section OneCandidate.
Context (cands : gmap Z (list WorkerInfo)).
(** No two candidates share an endpoint. *)
Hypothesis unique : forall b b' w w' e,
  candidate cands b w -> candidate cands b' w' -> endpoint_of w e -> endpoint_of w' e -> w = w'.

Lemma ask_plan_at b w e : candidate cands b w -> endpoint_of w e -> ask_plan cands !! e = Some (w, asked_ids cands e).
Proof.
  intros Hc He. pose proof (worker_to_blocks_spec cands e) as Hspec.
  destruct (ask_plan cands !! e) as [[w0 ids]|].
  - destruct Hspec as (He0 & (b0 & Hc0) & ->). f_equal. f_equal. by apply (unique b0 b w0 w e).
  - exfalso. apply (not_elem_of_empty (C := gset Z) b). rewrite <- Hspec. apply elem_of_asked_ids. by exists w.
Qed.

Lemma probe_spec :
  let p := foldl record_outcome (mkProbed ∅ ∅) (outcomes cands) in
  (forall b, b ∈ pl_probed_ok p <-> probed cands b) /\
  forall b l, l ∈ default [] (pl_locations p !! b) <-> exists w, reports cands b w /\ l = location_of w.
Proof.
  destruct (record_outcomes_ok (outcomes cands) [] (mkProbed ∅ ∅)) as [Hp Hl]; [split; set_solver|].
  cbn in Hp, Hl. split.
  - intros b. rewrite Hp. setoid_rewrite elem_of_outcomes. split.
    + intros (c & (e & Hpl & Hr) & Hb). exists e. pose proof (worker_to_blocks_spec cands e) as Hs.
      rewrite Hpl in Hs. destruct Hs as (_ & _ & Hids). unfold answer. by rewrite <- Hids, Hr.
    + intros (e & Hb & [reply Hr]). pose proof Hb as (w & Hw & He)%elem_of_asked_ids.
      exists (mkWorkerCheck w (asked_ids cands e) reply). split; [|done]. exists e. cbn.
      split; [by eapply ask_plan_at|done].
  - intros b l. rewrite Hl. setoid_rewrite elem_of_outcomes. split.
    + intros (c & n & (e & Hpl & Hr) & Hn & Hpos & ->). pose proof (worker_to_blocks_spec cands e) as Hs.
      rewrite Hpl in Hs. destruct Hs as (He & Hc & Hids). exists (wc_worker c). split; [|done].
      exists e, (wc_cached_bytes c), n. unfold answer. by rewrite <- Hids.
    + intros (w & (e & reply & n & He & (b' & Hc) & Hr & Hn & Hpos) & ->).
      exists (mkWorkerCheck w (asked_ids cands e) reply), n. split; [|done]. exists e. cbn.
      split; [by eapply ask_plan_at|done].
Qed.
End OneCandidate.
End Correct.

(** ** The file the probe returns *)

Lemma ensure_keeps_infos fi :
  fi_file_block_infos (ensure_block_ids_from_file_block_infos fi) = fi_file_block_infos fi.
Proof.
  unfold ensure_block_ids_from_file_block_infos. destruct fi as [? ? ? ? ? ? ? ? ? ? ? [|] ? ? ? ? ? ? infos]; [|done].
  by destruct infos.
Qed.

Lemma recompute_keeps_infos fi :
  fi_file_block_infos (recompute_in_goosefs_percentage fi) = fi_file_block_infos fi.
Proof. unfold recompute_in_goosefs_percentage. destruct fi. by case_match. Qed.

Lemma apply_probed_locations_infos fi p :
  fi_file_block_infos (apply_probed_locations fi p) = map (apply_probed p) (fi_file_block_infos fi).
Proof. unfold apply_probed_locations. rewrite recompute_keeps_infos. by destruct fi. Qed.

Lemma probe_ids_ensure fi : probe_ids (ensure_block_ids_from_file_block_infos fi) = probe_ids fi.
Proof. unfold probe_ids. by rewrite ensure_keeps_infos. Qed.

Definition candidates_of (clock : nat -> Z) (view : WorkerRouterView) (count : nat) (fi : FileInfo)
  : gmap Z (list WorkerInfo) :=
  snd (select_candidates clock 0 (probe_ids fi) count view ∅).

Definition distinct_endpoints (workers : list WorkerInfo) : Prop :=
  forall w w' e, w ∈ workers -> w' ∈ workers -> endpoint_of w e -> endpoint_of w' e -> w = w'.

Lemma candidates_registered clock view count fi b w :
  candidate (candidates_of clock view count fi) b w -> w ∈ vw_workers view.
Proof.
  apply select_candidates_members. intros b' w' (ws & Hws & _). by rewrite lookup_empty in Hws.
Qed.

Section Enrich.
Context (blocks_order : gmap Z (list WorkerInfo) -> list (Z * list WorkerInfo)).
Context (workers_order : gmap string (WorkerInfo * gset Z) -> list (string * (WorkerInfo * gset Z))).
Context (check_blocks : string -> gset Z -> option (gmap Z Z)).
Hypothesis blocks_order_perm : forall m, blocks_order m ≡ₚ map_to_list m.
Hypothesis workers_order_perm : forall m, workers_order m ≡ₚ map_to_list m.
Context (clock : nat -> Z) (view : WorkerRouterView) (count : nat) (fi : FileInfo).
Hypothesis distinct : distinct_endpoints (vw_workers view).

Abbreviation cands := (candidates_of clock view count fi).

(** How one block of the file comes out of the probe. *)
Definition located (fbi fbi' : FileBlockInfo) : Prop :=
  match fbi_block_id fbi with
  | None => fbi' = fbi
  | Some b =>
      (~ probed check_blocks cands b -> fbi' = fbi) /\
      (probed check_blocks cands b ->
       exists bi locs, fbi_block_info fbi = Some bi /\ fbi' = set_block_info fbi (set_locations bi locs) /\
         forall l, l ∈ locs <-> exists w, reports check_blocks cands b w /\ l = location_of w)
  end.

Lemma not_probed_empty b : probe_ids fi = [] -> ~ probed check_blocks cands b.
Proof.
  unfold candidates_of. intros -> (e & Hb & _). apply elem_of_asked_ids in Hb as (w & (ws & Hws & _) & _).
  change ((∅ : gmap Z (list WorkerInfo)) !! b = Some ws) in Hws. by rewrite lookup_empty in Hws.
Qed.

Lemma enrich_located k fbi :
  (count <> 0)%nat -> fi_file_block_infos fi !! k = Some fbi ->
  exists fbi', fi_file_block_infos (snd (enrich_file_block_locations blocks_order workers_order
                 check_blocks clock view count fi)) !! k = Some fbi' /\ located fbi fbi'.
Proof.
  intros Hcount Hk. unfold enrich_file_block_locations. rewrite ensure_keeps_infos, probe_ids_ensure.
  replace (count =? 0)%nat with false by (symmetry; by apply Nat.eqb_neq).
  destruct (bool_decide_reflect (fi_file_block_infos fi = [])) as [Hnil|_]; [by rewrite Hnil in Hk|]. cbn.
  destruct (probe_ids fi) as [|id ids] eqn:Hids; cbn.
  - exists fbi. rewrite ensure_keeps_infos. split; [done|]. unfold located.
    destruct (fbi_block_id fbi); [|done]. split; [done|]. intros Hp. by apply not_probed_empty in Hp.
  - rewrite <- Hids. unfold fetch_block_locations. pose proof (eq_refl cands) as Hc.
    unfold candidates_of in Hc at 2.
    destruct (select_candidates clock 0 (probe_ids fi) count view ∅) as [v1 cs] eqn:Hsel. cbn in Hc |- *.
    rewrite apply_probed_locations_infos, ensure_keeps_infos.
    exists (apply_probed (foldl record_outcome (mkProbed ∅ ∅)
              (map (check_worker check_blocks) (workers_order (worker_to_blocks blocks_order cs)))) fbi).
    split; [by rewrite list_lookup_fmap, Hk|]. unfold located, apply_probed, fbi_block_id. rewrite Hc.
    destruct (probe_spec blocks_order workers_order check_blocks blocks_order_perm workers_order_perm cs)
      as [Hp Hl].
    { intros b b' w w' e Hb Hb'. rewrite <- Hc in Hb, Hb'. apply distinct; by eapply candidates_registered. }
    destruct (fbi_block_info fbi) as [bi|]; [|done]. cbn. destruct (bi_block_id bi) as [b|]; [|done].
    case_bool_decide as Hok; rewrite Hp in Hok; (split; [done|]).
    + intros _. eexists bi, _. split; [done|]. split; [done|apply Hl].
    + done.
Qed.
End Enrich.

Lemma select_candidates_keeps clock ids count : forall i v acc,
  vw_workers (fst (select_candidates clock i ids count v acc)) = vw_workers v.
Proof.
  induction ids as [|b ids IH]; intros i v acc; cbn [select_candidates]; [done|].
  destruct (view_select_workers (clock i) b count v) as [v1 r] eqn:Hsel.
  rewrite IH, <- (view_select_workers_keeps (clock i) b count v). by rewrite Hsel.
Qed.

Lemma enrich_keeps_workers blocks_order workers_order check_blocks clock v count fi :
  vw_workers (fst (enrich_file_block_locations blocks_order workers_order check_blocks clock v count fi))
  = vw_workers v.
Proof.
  unfold enrich_file_block_locations, fetch_block_locations. case_match; [done|]. case_match; [done|].
  rewrite <- (select_candidates_keeps clock (z :: l) count 0 v ∅).
  by destruct (select_candidates clock 0 (z :: l) count v ∅).
Qed.

(** ** The cached share *)

Definition fbi_length (fbi : FileBlockInfo) : Z :=
  match fbi_block_info fbi with Some bi => default 0 (bi_length bi) | None => 0 end.

Definition fbi_located (fbi : FileBlockInfo) : bool :=
  match fbi_block_info fbi with
  | Some bi => match bi_locations bi with [] => false | _ => true end
  | None => false
  end.

Definition total_length (infos : list FileBlockInfo) : Z := foldr (fun fbi n => fbi_length fbi + n) 0 infos.

Definition located_length (infos : list FileBlockInfo) : Z :=
  foldr (fun fbi n => (if fbi_located fbi then fbi_length fbi else 0) + n) 0 infos.

Lemma located_length_bounds infos :
  Forall (fun fbi => 0 <= fbi_length fbi) infos ->
  0 <= located_length infos <= total_length infos /\
  (located_length infos = total_length infos <->
   Forall (fun fbi => 0 < fbi_length fbi -> fbi_located fbi = true) infos).
Proof.
  induction 1 as [|fbi infos Hfbi _ [IH1 IH2]]; cbn; [split; [lia|by split]|].
  fold (located_length infos) (total_length infos).
  rewrite Forall_cons, <- IH2. destruct (fbi_located fbi).
  - split; [lia|]. split; [intros H; split; [done|lia]|intros [_ H]; lia].
  - split; [lia|]. split; [intros H; split; lia|]. intros [H1 H2].
    destruct (decide (0 < fbi_length fbi)) as [Hp|]; [by specialize (H1 Hp)|lia].
Qed.

Lemma cached_length_spec infos :
  Forall (fun fbi => 0 <= fbi_length fbi) infos -> total_length infos <= i64_max ->
  cached_length infos = located_length infos.
Proof.
  intros Hpos Hmax. unfold cached_length.
  enough (H : forall acc, 0 <= acc -> acc + total_length infos <= i64_max ->
    foldl (fun acc fbi =>
      match fbi_block_info fbi with
      | None => acc
      | Some bi => match bi_locations bi with
                   | [] => acc
                   | _ => i64_add acc (Z.max (default 0 (bi_length bi)) 0)
                   end
      end) acc infos = acc + located_length infos) by (rewrite H; lia).
  clear Hmax. induction Hpos as [|fbi infos Hfbi Hpos IH]; intros acc Hacc Hmax; cbn; [lia|].
  fold (located_length infos).   pose proof (proj1 (located_length_bounds infos Hpos)) as Hb. cbn in Hmax. fold (total_length infos) in Hmax.
  unfold fbi_length, fbi_located in *. unfold i64_max in *.
  destruct (fbi_block_info fbi) as [bi|]; [|rewrite IH; lia].
  destruct (bi_locations bi) as [|l ls]; [rewrite IH; lia|]. unfold i64_add.
  rewrite as_i64_small by (unfold is_i64; lia). rewrite IH; lia.
Qed.

(** ** Where the block is read *)

Section Locations.
Context (is_failed_fn : string -> bool) (workers : list WorkerInfo).

(** A healthy registered worker that a location names. *)
Definition named (locations : list BlockLocation) (w : WorkerInfo) (id : Z) : Prop :=
  (exists loc, loc ∈ locations /\ bl_worker_id loc = Some id) /\
  List.find (fun w => bool_decide (wi_id w = Some id)) workers = Some w /\
  healthy is_failed_fn w = true.

Abbreviation loop := (workers_from_locations_loop is_failed_fn workers).

Lemma loop_sound locations count : forall seen selected w,
  w ∈ loop locations count seen selected -> w ∈ selected \/ exists id, named locations w id.
Proof.
  unfold named, healthy. induction locations as [|loc locations IH]; intros seen selected w Hw; [by left|].
  assert (Hskip : forall seen selected', w ∈ loop locations count seen selected' ->
    w ∈ selected' \/ exists id, named (loc :: locations) w id).
  { intros seen' sel' H. apply IH in H as [?|(id & (l & ? & ?) & ?)]; [by left|right].
    exists id. split; [|done]. exists l. set_solver. }
  cbn in Hw. destruct (bl_worker_id loc) as [id|] eqn:Hid; [|by eapply Hskip].
  case_bool_decide; [by eapply Hskip|].
  destruct (List.find _ workers) as [w0|] eqn:Hf; [|by eapply Hskip].
  destruct (wi_address w0) as [addr|] eqn:Ha; [|by eapply Hskip].
  destruct (is_failed_fn (worker_addr_key addr)) eqn:Hfail; [by eapply Hskip|].
  assert (Hnew : w ∈ selected ++ [w0] -> w ∈ selected \/ exists id, named (loc :: locations) w id).
  { intros [?| ->%list_elem_of_singleton]%elem_of_app; [by left|right]. exists id.
    split; [exists loc; set_solver|]. unfold healthy. by rewrite Ha, Hfail. }
  destruct (count <=? _)%nat; [by apply Hnew|]. apply Hskip in Hw as [?|?]; [by apply Hnew|by right].
Qed.

Lemma loop_extends locations count : forall seen selected,
  selected <> [] -> loop locations count seen selected <> [].
Proof.
  induction locations as [|loc locations IH]; intros seen selected Hs; cbn; [done|].
  assert (Happ : forall w : WorkerInfo, selected ++ [w] <> []) by (intros w ?%app_eq_nil; naive_solver).
  repeat case_match; eauto.
Qed.

Lemma loop_complete locations count : forall seen w id,
  named locations w id -> id ∉ seen -> loop locations count seen [] <> [].
Proof.
  induction locations as [|loc locations IH]; intros seen w id (Hloc & Hfind & Hheal) Hseen.
  { destruct Hloc as (l & Hl & _). set_solver. }
  destruct Hloc as (l & Hl & Hid). cbn.
  assert (Hskip : forall seen', bl_worker_id loc <> Some id -> id ∉ seen' -> loop locations count seen' [] <> []).
  { intros seen' Hne Hs. apply (IH seen' w id); [|done]. split; [|done]. exists l.
    split; [|done]. apply elem_of_cons in Hl as [->|]; [done|done]. }
  destruct (bl_worker_id loc) as [id0|] eqn:Hid0; [|by apply Hskip].
  destruct (decide (id0 = id)) as [->|Hne].
  - rewrite bool_decide_eq_false_2 by done. rewrite Hfind. unfold healthy in Hheal.
    destruct (wi_address w) as [addr|]; [|done]. apply negb_true_iff in Hheal. rewrite Hheal.
    case_match; [done|by apply loop_extends].
  - assert (Hs' : id ∉ {[id0]} ∪ seen) by set_solver.
    repeat case_match; try (apply Hskip; [congruence|done]); [done|by apply loop_extends].
Qed.
End Locations.

Lemma read_from_named now b locations replication retry v w id :
  named (is_failed now (cleanup_expired_failures now (vw_tracker v))) (vw_workers v) locations w id ->
  exists w' id', snd (view_select_worker_for_read now b locations replication retry v) = Ok w' /\
    named (is_failed now (cleanup_expired_failures now (vw_tracker v))) (vw_workers v) locations w' id'.
Proof.
  intros Hn. unfold view_select_worker_for_read, view_select_workers_for_read, select_several_for_read.
  assert (Hc : exists n, read_worker_candidate_count replication retry = S n).
  { unfold read_worker_candidate_count. exists (Nat.pred (Z.to_nat (Z.max (Z.max replication retry) 1))). lia. }
  destruct Hc as [n ->]. cbn [Nat.eqb view_snapshot sn_workers].
  destruct (vw_workers v) as [|w0 ws] eqn:Hws; [by destruct Hn as (_ & ? & _)|]. rewrite <- Hws in *.
  set (failed := is_failed now (cleanup_expired_failures now (vw_tracker v))) in *.
  unfold workers_from_block_locations.
  destruct locations as [|loc locs] eqn:Hl; [by destruct Hn as ((? & ? & _) & _); set_solver|].
  rewrite <- Hl in *. pose proof (loop_complete failed (vw_workers v) locations (S n) ∅ w id Hn ltac:(set_solver)) as Hne.
  pose proof (loop_sound failed (vw_workers v) locations (S n) ∅ []) as Hs.
  destruct (workers_from_locations_loop _ _ locations (S n) ∅ []) as [|w' sel]; [done|].
  destruct (Hs w' ltac:(set_solver)) as [?|[id' H']]; [set_solver|]. by exists w', id'.
Qed.

Definition distinct_ids (workers : list WorkerInfo) : Prop :=
  forall w w' id, w ∈ workers -> w' ∈ workers -> wi_id w = Some id -> wi_id w' = Some id -> w = w'.

Lemma find_by_id workers w id :
  distinct_ids workers -> w ∈ workers -> wi_id w = Some id ->
  List.find (fun w => bool_decide (wi_id w = Some id)) workers = Some w.
Proof.
  intros Hd Hw Hid. destruct (List.find _ workers) as [w'|] eqn:Hf.
  - apply find_some in Hf as [Hin He]. apply bool_decide_eq_true in He. f_equal.
    apply (Hd w' w id); [by rewrite list_elem_of_In|done..].
  - rewrite list_elem_of_In in Hw. by apply (find_none _ _ Hf), bool_decide_eq_false in Hw.
Qed.

Lemma candidate_reports_probed check_blocks cands b w :
  candidate cands b w -> reports check_blocks cands b w -> probed check_blocks cands b.
Proof.
  intros Hc (e & reply & n & He & _ & Hr & _). exists e. rewrite elem_of_asked_ids, Hr. split; [by exists w|done].
Qed.

(** ** Theorems *)

(** The cached share is a percentage, and it is 100 exactly when everything is
    cached: for a file whose block lengths add up to its length, it lies in 0..100 and
    equals 100 if and only if every block with bytes has a location. *)
Theorem percentage_full_iff_all_located (fi : FileInfo) (len : Z) :
  fi_length fi = Some len -> 0 < len -> 100 * len <= i64_max ->
  Forall (fun fbi => 0 <= fbi_length fbi) (fi_file_block_infos fi) ->
  total_length (fi_file_block_infos fi) = len ->
  exists pct, fi_in_goose_fs_percentage (recompute_in_goosefs_percentage fi) = Some pct /\
    0 <= pct <= 100 /\
    (pct = 100 <-> Forall (fun fbi => 0 < fbi_length fbi -> fbi_located fbi = true) (fi_file_block_infos fi)).
Proof.
  intros Hlen Hpos Hmax Hall Htot. destruct (located_length_bounds _ Hall) as [Hb Hiff].
  pose proof (cached_length_spec _ Hall ltac:(lia)) as Hc. rewrite Htot in Hb, Hiff.
  unfold recompute_in_goosefs_percentage. rewrite Hlen. unfold default, id. cbv zeta.
  replace (len =? 0) with false by lia. rewrite Hc. clear Hc.
  set (c := located_length (fi_file_block_infos fi)) in *. unfold i64_saturating_mul, i64_min.
  replace (Z.max _ _) with (c * 100) by lia. rewrite Z.quot_div_nonneg by lia.
  assert (Hq : 0 <= c * 100 / len <= 100).
  { split; [apply Z.div_pos; lia|]. apply Z.div_le_upper_bound; lia. }
  exists (c * 100 / len). split; [|split; [done|]].
  - replace (as_i32 _) with (c * 100 / len); [by destruct fi|]. unfold as_i32, u32_mod. 
    rewrite Z.mod_small; lia.
  - rewrite <- Hiff. split; [|intros ->; symmetry; apply Z.div_unique_exact; lia]. intros H100.
    pose proof (Z.mul_div_le (c * 100) len Hpos). lia.
Qed.

(** C21. The probe overwrites locations by what the workers say and by nothing else.
    Every block keeps its place; a block with no id, or about which no asked worker
    answered, keeps the master's locations; a block some worker answered for lists
    exactly the workers that were asked, answered and hold some of it. *)
Theorem enrich_locations_exact blocks_order workers_order check_blocks clock view count fi :
  (forall m, blocks_order m ≡ₚ map_to_list m) -> (forall m, workers_order m ≡ₚ map_to_list m) ->
  distinct_endpoints (vw_workers view) -> (count <> 0)%nat ->
  forall k fbi, fi_file_block_infos fi !! k = Some fbi ->
  exists fbi', fi_file_block_infos (snd (enrich_file_block_locations blocks_order workers_order
                 check_blocks clock view count fi)) !! k = Some fbi' /\
    located check_blocks clock view count fi fbi fbi'.
Proof. intros Hb Hw Hd Hc k fbi. by apply enrich_located. Qed.

(** C20. A probed block is read where it is.  When some worker chosen for the block says it
    holds some of it, and that worker is healthy, the router given the block's new
    locations picks a worker that said so, and a healthy one. *)
Theorem probed_block_read_from_holder blocks_order workers_order check_blocks clock view count fi
    now replication retry k fbi b h id :
  let cands := candidates_of clock view count fi in
  let '(view', fi') := enrich_file_block_locations blocks_order workers_order check_blocks clock
                         view count fi in
  let up := healthy (is_failed now (cleanup_expired_failures now (vw_tracker view'))) in
  (forall m, blocks_order m ≡ₚ map_to_list m) -> (forall m, workers_order m ≡ₚ map_to_list m) ->
  distinct_endpoints (vw_workers view) -> distinct_ids (vw_workers view) -> (count <> 0)%nat ->
  fi_file_block_infos fi !! k = Some fbi -> fbi_block_id fbi = Some b ->
  candidate cands b h -> reports check_blocks cands b h -> wi_id h = Some id -> up h = true ->
  exists fbi' bi w, fi_file_block_infos fi' !! k = Some fbi' /\ fbi_block_info fbi' = Some bi /\
    snd (view_select_worker_for_read now b (bi_locations bi) replication retry view') = Ok w /\
    reports check_blocks cands b w /\ up w = true.
Proof.
  intros cands. pose proof (enrich_keeps_workers blocks_order workers_order check_blocks clock view count fi) as Hkeep.
  pose proof (enrich_located blocks_order workers_order check_blocks) as Hloc.
  specialize (Hloc) with (clock := clock) (view := view) (count := count) (fi := fi) (k := k) (fbi := fbi).
  destruct (enrich_file_block_locations _ _ _ clock view count fi) as [view' fi']. cbn in Hkeep, Hloc.
  intros up Hb Hw He Hi Hc Hk Hid Hcand Hrep Hhid Hup.
  destruct (Hloc Hb Hw He Hc Hk) as (fbi' & Hk' & Hl). unfold located in Hl. rewrite Hid in Hl.
  destruct (proj2 Hl (candidate_reports_probed _ _ _ _ Hcand Hrep)) as (bi & locs & Hbi & -> & Hlocs).
  destruct (read_from_named now b locs replication retry view' h id) as (w & id' & Hsel & Hn).
  { rewrite Hkeep. split; [exists (location_of h); split; [apply Hlocs; by exists h|done]|].
    split; [|done]. apply find_by_id; [done| |done]. by eapply candidates_registered. }
  exists (set_block_info fbi (set_locations bi locs)), (set_locations bi locs), w.
  split; [done|]. split; [done|]. split; [done|]. destruct Hn as ((loc & Hin & Hlid) & Hf & Hh).
  split; [|done]. apply Hlocs in Hin as (w1 & Hw1 & ->). apply find_some in Hf as [Hf1 Hf2].
  apply bool_decide_eq_true in Hf2. rewrite Hkeep, <- list_elem_of_In in Hf1.
  assert (w = w1) as ->; [|done]. destruct Hw1 as (e & reply & n & _ & (b' & Hb') & _).
  apply (Hi w w1 id'); [done|by eapply candidates_registered|done|done].
Qed.

(** ** Witnesses *)

Definition two_workers : list WorkerInfo := [example_worker 1 "a" 2; example_worker 2 "b" 2].

Definition two_worker_view : WorkerRouterView := from_workers two_workers DEFAULT_FAILURE_TTL.

(** One block, number 7, that the master knows no location of. *)
Definition unlocated_block : FileBlockInfo :=
  mkFileBlockInfo (Some (mkBlockInfo (Some 7) (Some 10) None [])) (Some 0) [] [].

Definition unlocated_file : FileInfo :=
  set_file_block_infos (file_info_of (Some 10) (Some 10) []) [unlocated_block].

(** Worker a holds every block it is asked about, worker b cannot be reached. *)
Definition only_a_answers (e : string) (ids : gset Z) : option (gmap Z Z) :=
  if String.eqb e "a:9203"
  then Some (list_to_map (map (fun b => (b, 10)) (elements ids))) else None.

Lemma two_workers_distinct : distinct_endpoints two_workers /\ distinct_ids two_workers.
Proof.
  split; intros w w' x Hw Hw'; unfold two_workers in *; rewrite !elem_of_cons in Hw, Hw';
    destruct Hw as [->|[->|?%elem_of_nil]], Hw' as [->|[->|?%elem_of_nil]]; try done.
  - intros (a & [= <-] & <-) (a' & [= <-] & He). by vm_compute in He.
  - intros (a & [= <-] & <-) (a' & [= <-] & He). by vm_compute in He.
  - intros [= <-] [=].
  - intros [= <-] [=].
Qed.

Abbreviation a_cands := (candidates_of (fun _ => 0) two_worker_view 2 unlocated_file).

Lemma a_is_candidate : candidate a_cands 7 (example_worker 1 "a" 2).
Proof. exists (rev two_workers). split; [reflexivity|set_solver]. Qed.

Lemma a_reports : reports only_a_answers a_cands 7 (example_worker 1 "a" 2).
Proof.
  exists "a:9203"%string, {[7 := 10]}, 10. split; [eexists; split; reflexivity|].
  split; [exists 7; exact a_is_candidate|]. split; [vm_compute; reflexivity|]. split; [reflexivity|lia].
Qed.

Lemma percentage_full_iff_all_located_witness :
  exists pct, fi_in_goose_fs_percentage (recompute_in_goosefs_percentage unlocated_file) = Some pct /\
    0 <= pct <= 100 /\
    (pct = 100 <-> Forall (fun fbi => 0 < fbi_length fbi -> fbi_located fbi = true) [unlocated_block]).
Proof.
  apply (percentage_full_iff_all_located unlocated_file 10); [reflexivity|lia|vm_compute; congruence| |reflexivity].
  repeat constructor. vm_compute. congruence.
Defined.

Lemma enrich_locations_exact_witness :
  exists fbi', fi_file_block_infos (snd (enrich_file_block_locations map_to_list map_to_list
                 only_a_answers (fun _ => 0) two_worker_view 2 unlocated_file)) !! 0%nat = Some fbi' /\
    located only_a_answers (fun _ => 0) two_worker_view 2 unlocated_file unlocated_block fbi'.
Proof.
  apply (enrich_locations_exact map_to_list map_to_list only_a_answers (fun _ => 0) two_worker_view 2
           unlocated_file); [done|done|apply two_workers_distinct|done|reflexivity].
Defined.

Lemma probed_block_read_from_holder_witness :
  let '(view', fi') := enrich_file_block_locations map_to_list map_to_list only_a_answers (fun _ => 0)
                         two_worker_view 2 unlocated_file in
  exists fbi' bi w, fi_file_block_infos fi' !! 0%nat = Some fbi' /\ fbi_block_info fbi' = Some bi /\
    snd (view_select_worker_for_read 5 7 (bi_locations bi) 1 3 view') = Ok w /\
    reports only_a_answers a_cands 7 w /\
    healthy (is_failed 5 (cleanup_expired_failures 5 (vw_tracker view'))) w = true.
Proof.
  pose proof (probed_block_read_from_holder map_to_list map_to_list only_a_answers (fun _ => 0)
    two_worker_view 2 unlocated_file 5 1 3 0 unlocated_block 7 (example_worker 1 "a" 2) 1) as H.
  destruct (enrich_file_block_locations _ _ _ _ _ _ _) as [view' fi'] eqn:Henr.
  apply H; [done|done|apply two_workers_distinct|apply two_workers_distinct|done|reflexivity|reflexivity
    |exact a_is_candidate|exact a_reports|reflexivity|].
  vm_compute in Henr. by injection Henr as <- <-.
Defined.
