(* ===== verification/UriStatus.v ===== *)
(** * File status

    [src/src/fs/uri_status.rs]: the [URIStatus] built from the master's [FileInfo], with
    its block ids in file order and its table of block infos.  The theorem shows the way
    from a byte offset to the block that holds it. *)

From S2P Require Import Prelude Proto BlockLocations.

Record URIStatus : Type := mkURIStatus {
  us_file_id : Z;
  us_name : string;
  us_path : string;
  us_ufs_path : string;
  us_length : Z;
  us_block_size_bytes : Z;
  us_block_ids : list Z;
  us_creation_time_ms : Z;
  us_last_modification_time_ms : Z;
  us_last_access_time_ms : Z;
  us_completed : bool;
  us_folder : bool;
  us_cacheable : bool;
  us_persisted : bool;
  us_mount_point : bool;
  us_in_goose_fs_percentage : Z;
  us_in_memory_percentage : Z;
  us_owner : string;
  us_group : string;
  us_mode : Z;
  us_persistence_state : string;
  us_mount_id : Z;
  us_ufs_fingerprint : string;
  us_xattr : list (string * list Z);
  us_symlink : option string;
  us_block_infos : gmap Z FileBlockInfo;
}.

(** [collect()] into a [HashMap]: a later entry replaces an earlier one. *)
Definition collect_block_info (m : gmap Z FileBlockInfo) (fbi : FileBlockInfo) : gmap Z FileBlockInfo :=
  match fbi_block_id fbi with Some id => <[id := fbi]> m | None => m end.

Definition collect_block_infos (infos : list FileBlockInfo) : gmap Z FileBlockInfo :=
  foldl collect_block_info ∅ infos.

Definition from_proto (fi : FileInfo) : URIStatus :=
  let fi := ensure_block_ids_from_file_block_infos fi in
  let str := default ""%string in
  mkURIStatus
    (default 0 (fi_file_id fi))
    (str (fi_name fi))
    (str (fi_path fi))
    (str (fi_ufs_path fi))
    (default 0 (fi_length fi))
    (default 0 (fi_block_size_bytes fi))
    (fi_block_ids fi)
    (default 0 (fi_creation_time_ms fi))
    (default 0 (fi_last_modification_time_ms fi))
    (default 0 (fi_last_access_time_ms fi))
    (default false (fi_completed fi))
    (default false (fi_folder fi))
    (default false (fi_cacheable fi))
    (default false (fi_persisted fi))
    (default false (fi_mount_point fi))
    (default 0 (fi_in_goose_fs_percentage fi))
    (default 0 (fi_in_memory_percentage fi))
    (str (fi_owner fi))
    (str (fi_group fi))
    (default 0 (fi_mode fi))
    (str (fi_persistence_state fi))
    (default 0 (fi_mount_id fi))
    (str (fi_ufs_fingerprint fi))
    (fi_xattr fi)
    (fi_symlink fi)
    (collect_block_infos (fi_file_block_infos fi)).

Definition is_readable (s : URIStatus) : bool := us_folder s || us_completed s.

Definition is_persisted (s : URIStatus) : bool := us_persisted s.

Definition get_block_info (s : URIStatus) (block_id : Z) : option FileBlockInfo :=
  us_block_infos s !! block_id.

Definition has_block_infos (s : URIStatus) : bool := negb (bool_decide (us_block_infos s = ∅)).

Definition add_block_info (s : URIStatus) (fbi : FileBlockInfo) : URIStatus :=
  match fbi_block_id fbi with
  | None => s
  | Some id =>
      let 'mkURIStatus a b c d e f g h i j k l m n o p q r t u v w x y z infos := s in
      mkURIStatus a b c d e f g h i j k l m n o p q r t u v w x y z (<[id := fbi]> infos)
  end.

Definition block_count (s : URIStatus) : nat := length (us_block_ids s).

(** [as usize] of an [i64] quotient; [/] and [%] truncate. *)
Definition block_index_for_offset (s : URIStatus) (offset : Z) : option Z :=
  if (us_block_size_bytes s <=? 0) || (us_length s <=? offset) then None
  else Some (as_u64 (Z.quot offset (us_block_size_bytes s))).

Definition uri_offset_in_block (s : URIStatus) (offset : Z) : option Z :=
  if (us_block_size_bytes s <=? 0) || (us_length s <=? offset) then None
  else Some (Z.rem offset (us_block_size_bytes s)).

(** ** The table of block infos *)

Lemma collect_lookup_notin infos id : forall m,
  id ∉ omap fbi_block_id infos ->
  foldl collect_block_info m infos !! id
  = m !! id.
Proof.
  induction infos as [|fbi infos IH]; intros m; cbn; [done|]. unfold collect_block_info at 2.
  destruct (fbi_block_id fbi) as [id'|]; cbn; intros Hn; rewrite IH by set_solver; [|done].
  rewrite lookup_insert_ne; set_solver.
Qed.

Lemma collect_lookup infos fbi id : forall m,
  NoDup (omap fbi_block_id infos) -> fbi ∈ infos -> fbi_block_id fbi = Some id ->
  foldl collect_block_info m infos !! id
  = Some fbi.
Proof.
  induction infos as [|fbi' infos IH]; intros m Hnd Hin Hid; [set_solver|]. cbn in *.
  unfold collect_block_info at 2.
  apply elem_of_cons in Hin as [->|Hin].
  - rewrite Hid in *. apply NoDup_cons in Hnd as [Hnot _]. rewrite collect_lookup_notin by done.
    apply lookup_insert_eq.
  - apply IH; [|done|done]. destruct (fbi_block_id fbi'); [by apply NoDup_cons in Hnd as [_ ?]|done].
Qed.

(** ** Block ids in file order *)

(** The infos of a file cut into blocks of [bs] bytes, in file order. *)
Definition blocks_in_order (bs : Z) (infos : list FileBlockInfo) : Prop :=
  forall k fbi, infos !! k = Some fbi ->
    fbi_offset fbi = Some (Z.of_nat k * bs) /\ exists id, fbi_block_id fbi = Some id /\ 0 < id.

Lemma offsets_in_order bs infos :
  blocks_in_order bs infos ->
  forall k fbi id, infos !! k = Some fbi -> fbi_block_id fbi = Some id ->
    omap offset_and_id infos !! k = Some (Z.of_nat k * bs, id).
Proof.
  intros Hb. assert (H : omap offset_and_id infos
    = imap (fun k fbi => (Z.of_nat k * bs, default 0 (fbi_block_id fbi))) infos).
  { enough (H : forall n l, (forall k fbi, l !! k = Some fbi ->
        fbi_offset fbi = Some (Z.of_nat (n + k) * bs) /\ exists id, fbi_block_id fbi = Some id /\ 0 < id) ->
      omap offset_and_id l = imap (fun k fbi => (Z.of_nat (n + k) * bs, default 0 (fbi_block_id fbi))) l).
    { by apply (H 0%nat). }
    intros n l. revert n. induction l as [|fbi l IH]; intros n Hl; [done|]. cbn.
    destruct (Hl 0%nat fbi eq_refl) as (Ho & id & Hid & Hpos). unfold offset_and_id at 1.
    rewrite Hid, Ho. cbn. replace (0 <? id) with true by lia. f_equal.
    rewrite (IH (S n)); [|intros k fbi' Hk; rewrite Nat.add_succ_comm; by apply (Hl (S k))].
    apply imap_ext. intros k x _. cbn. by rewrite Nat.add_succ_r. }
  intros k fbi id Hk Hid. rewrite H, list_lookup_imap, Hk. cbn. by rewrite Hid.
Qed.

Lemma offsets_sorted bs infos :
  0 < bs -> blocks_in_order bs infos ->
  StronglySorted (fun a b => fst a < fst b) (omap offset_and_id infos).
Proof.
  intros Hbs Hb.
  assert (Hlen : forall k p, omap offset_and_id infos !! k = Some p -> fst p = Z.of_nat k * bs).
  { intros k p Hp. assert (Hk : (k < length infos)%nat).
    { apply lookup_lt_Some in Hp. pose proof (length_omap_le offset_and_id infos). lia. }
    apply lookup_lt_is_Some in Hk as [fbi Hfbi]. destruct (Hb k fbi Hfbi) as (_ & id & Hid & _).
    rewrite (offsets_in_order bs infos Hb k fbi id Hfbi Hid) in Hp. by injection Hp as <-. }
  revert Hlen. generalize (omap offset_and_id infos).
  enough (H : forall l n, (forall k p, l !! k = Some p -> fst p = Z.of_nat (n + k) * bs) ->
    StronglySorted (fun a b : Z * Z => fst a < fst b) l) by (intros l Hl; by apply (H l 0%nat)).
  induction l as [|p l IH]; intros n Hl; constructor.
  - apply (IH (S n)). intros k q Hq. rewrite Nat.add_succ_comm. by apply (Hl (S k)).
  - apply Forall_lookup. intros k q Hq. rewrite (Hl 0%nat p eq_refl), (Hl (S k) q Hq). nia.
Qed.

Lemma strictly_sorted_fst_inj (l : list (Z * Z)) i j x y :
  StronglySorted (fun a b => fst a < fst b) l -> l !! i = Some x -> l !! j = Some y -> fst x = fst y -> i = j.
Proof.
  intros Hs. revert i j. induction Hs as [|p l _ IH Hp]; intros [|i] [|j] Hi Hj Heq; try done; cbn in *.
  - simplify_eq. eapply Forall_lookup in Hp; [|exact Hj]. lia.
  - simplify_eq. eapply Forall_lookup in Hp; [|exact Hi]. lia.
  - f_equal. by apply IH.
Qed.

(** Sorting by offset recovers the file's order, however the infos were listed. *)
Lemma sorted_offsets bs infos l :
  0 < bs -> blocks_in_order bs infos -> l ≡ₚ infos ->
  sort_by_key fst (omap offset_and_id l) = omap offset_and_id infos.
Proof.
  intros Hbs Hb Hperm.
  assert (Hp : sort_by_key fst (omap offset_and_id l) ≡ₚ omap offset_and_id infos)
    by (by rewrite sort_by_key_perm, Hperm).
  pose proof (offsets_sorted bs infos Hbs Hb) as Hs.
  apply (StronglySorted_unique_strong (fun a b : Z * Z => fst a <= fst b)); [|apply sort_by_key_sorted| |done].
  - intros x y Hx Hy Hxy Hyx. rewrite Hp in Hx. apply list_elem_of_lookup in Hx as [i Hi], Hy as [j Hj].
    assert (Hij : i = j) by (by eapply strictly_sorted_fst_inj; [exact Hs|exact Hi|exact Hj|lia]).
    subst. congruence.
  - clear -Hs. induction Hs as [|x k _ IH Hx]; constructor; [done|].
    eapply Forall_impl; [exact Hx|]. cbn. lia.
Qed.

(** The ids come out in file order. *)
Lemma block_ids_in_order bs fi infos :
  0 < bs -> fi_block_ids fi = [] -> blocks_in_order bs infos -> fi_file_block_infos fi ≡ₚ infos ->
  fi_block_ids (ensure_block_ids_from_file_block_infos fi) = map snd (omap offset_and_id infos).
Proof.
  intros Hbs Hids Hb Hperm. pose proof (sorted_offsets bs infos _ Hbs Hb Hperm) as Hsort.
  unfold ensure_block_ids_from_file_block_infos. rewrite Hids.
  destruct (fi_file_block_infos fi) as [|fbi l]; [|rewrite Hsort; by destruct fi].
  apply Permutation_nil_l in Hperm as <-. by rewrite Hids.
Qed.

(** ** From an offset to its block *)

(** An offset leads to its block.  For a file the master describes by its block infos
    alone, in any order, [block_index_for_offset] gives the place in [block_ids] of the
    block that holds the byte, [get_block_info] finds that block's info, and
    [uri_offset_in_block] is the byte's distance from the block's start. *)
Theorem offset_names_its_block (bs len offset : Z) (fi : FileInfo) (infos : list FileBlockInfo) :
  fi_block_size_bytes fi = Some bs -> fi_length fi = Some len -> 0 < bs -> len <= i64_max ->
  fi_block_ids fi = [] -> fi_file_block_infos fi ≡ₚ infos -> blocks_in_order bs infos ->
  NoDup (omap fbi_block_id infos) -> len <= zlen infos * bs -> 0 <= offset < len ->
  let s := from_proto fi in
  exists k id fbi start,
    block_index_for_offset s offset = Some (Z.of_nat k) /\ us_block_ids s !! k = Some id /\
    get_block_info s id = Some fbi /\ fbi_block_id fbi = Some id /\ fbi_offset fbi = Some start /\
    uri_offset_in_block s offset = Some (offset - start) /\ start <= offset < start + bs.
Proof.
  intros Hbs Hlen Hpos Hmax Hids Hperm Hb Hnd Hcover Hoff s. set (k := Z.to_nat (offset / bs)).
  assert (Hq : 0 <= offset / bs < zlen infos).
  { split; [apply Z.div_pos; lia|]. apply Z.div_lt_upper_bound; lia. }
  assert (Hk : Z.of_nat k = offset / bs) by lia.
  assert (Hlt : (k < length infos)%nat) by (unfold zlen in Hq; lia).
  apply lookup_lt_is_Some in Hlt as [fbi Hfbi]. destruct (Hb k fbi Hfbi) as (Hstart & id & Hid & _).
  exists k, id, fbi, (Z.of_nat k * bs).
  assert (Hs : us_block_size_bytes s = bs /\ us_length s = len).
  { unfold s, from_proto, ensure_block_ids_from_file_block_infos. rewrite Hids. cbn.
    destruct fi; cbn in *; subst; by destruct fi_file_block_infos. }
  destruct Hs as [Hs1 Hs2].
  assert (Hguard : (bs <=? 0) || (len <=? offset) = false) by (apply orb_false_iff; lia).
  pose proof (Z.div_mod offset bs ltac:(lia)). pose proof (Z.mod_pos_bound offset bs Hpos).
  assert (offset / bs <= offset) by (apply Z.div_le_upper_bound; nia).
  repeat split; [| | |done|done| |nia|nia].
  - unfold block_index_for_offset. rewrite Hs1, Hs2, Hguard, Z.quot_div_nonneg by lia.
    rewrite Hk, as_u64_small; [done|]. unfold is_u64, u64_mod, i64_max in *. lia.
  - unfold s, from_proto. cbn. rewrite (block_ids_in_order bs fi infos) by done.
    rewrite list_lookup_fmap, (offsets_in_order bs infos Hb k fbi id Hfbi Hid). done.
  - unfold get_block_info, s, from_proto. cbn. rewrite ensure_keeps_infos.
    apply collect_lookup; [by rewrite Hperm|by rewrite Hperm; eapply list_elem_of_lookup_2|done].
  - unfold uri_offset_in_block. rewrite Hs1, Hs2, Hguard, Z.rem_mod_nonneg by lia. f_equal. nia.
Qed.

(** Two blocks of 4 bytes, listed last block first. *)
Definition two_blocks : list FileBlockInfo :=
  [mkFileBlockInfo (Some (mkBlockInfo (Some 71) (Some 4) None [])) (Some 0) [] [];
   mkFileBlockInfo (Some (mkBlockInfo (Some 72) (Some 3) None [])) (Some 4) [] []].

Definition two_block_file : FileInfo :=
  set_file_block_infos (file_info_of (Some 7) (Some 4) []) (rev two_blocks).

Lemma offset_names_its_block_witness :
  let s := from_proto two_block_file in
  exists k id fbi start,
    block_index_for_offset s 5 = Some (Z.of_nat k) /\ us_block_ids s !! k = Some id /\
    get_block_info s id = Some fbi /\ fbi_block_id fbi = Some id /\ fbi_offset fbi = Some start /\
    uri_offset_in_block s 5 = Some (5 - start) /\ start <= 5 < start + 4.
Proof.
  apply (offset_names_its_block 4 7 5 two_block_file two_blocks); try reflexivity; try (vm_compute; congruence).
  - apply Permutation_swap.
  - intros [|[|k]] fbi [= <-]; (split; [reflexivity|]); [exists 71|exists 72]; (split; [reflexivity|lia]).
  - apply (bool_decide_unpack _). vm_compute. exact I.
  - lia.
Defined.
