(* ===== verification/PageCache.v ===== *)
(** * Page cache interface and read-through reader (src/src/cache/mod.rs,
      src/src/cache/page_id.rs, src/src/cache/caching_reader.rs)

    [CacheManager] is the interface the reader is written against, with the
    manager's state threaded explicitly; [CacheSound] is what the reader relies
    on.  The reader's theorems hold for every sound cache and every source of
    cache misses.  Metrics counters are not modelled. *)

From S2P Require Import Prelude Errors.

(** ** Pages *)

Record PageId : Type := mkPageId {
  pg_file_id : string;
  pg_index : Z;
}.

#[global] Instance PageId_eq_dec : EqDecision PageId.
Proof. solve_decision. Defined.

#[global] Instance PageId_countable : Countable PageId.
Proof.
  refine (inj_countable' (fun p => (pg_file_id p, pg_index p))
                         (fun '(f, i) => mkPageId f i) _).
  by intros [].
Defined.

(** [None] is the panic on a zero page size. *)
Definition from_file_offset (file_id : string) (offset page_size : Z) : option PageId :=
  if 0 <? page_size then Some (mkPageId file_id (offset / page_size)) else None.

Definition page_start (p : PageId) (page_size : Z) : Z := u64_mul (pg_index p) page_size.

Record PageReadRequest : Type := mkPageReadRequest {
  pr_page_id : PageId;
  pr_page_offset : Z;
  pr_len : Z;
}.

Definition page_cache_eligible (file_id : Z) : bool := 0 <? file_id.

Inductive CacheState : Type := NotInUse | ReadOnly | ReadWrite.

#[global] Instance CacheState_eq_dec : EqDecision CacheState.
Proof. solve_decision. Defined.

Definition cache_state_as_i64 (s : CacheState) : Z :=
  match s with
  | NotInUse => 0
  | ReadOnly => 1
  | ReadWrite => 2
  end.

(** ** The cache interface *)

(** The [CacheManager] trait.  [get_bytes] answers the empty buffer for a miss. *)
Class CacheManager (C : Type) : Type := {
  cm_put : C -> PageId -> bytes -> C * bool;
  cm_schedule_fill : C -> PageId -> bytes -> C;
  cm_get_bytes : C -> PageId -> Z -> Z -> C * bytes;
  cm_get_batch_bytes : C -> list PageReadRequest -> C * list bytes;
  cm_delete : C -> PageId -> C * bool;
  cm_invalidate : C -> string -> C;
  cm_on_file_open : C -> string -> Z -> Z -> C;
  cm_state : C -> CacheState;
}.

(** The trait's default [get_batch_bytes]: one [get_bytes] per request, in order. *)
Fixpoint default_get_batch_bytes {C : Type} (get_bytes : C -> PageId -> Z -> Z -> C * bytes)
    (c : C) (requests : list PageReadRequest) : C * list bytes :=
  match requests with
  | [] => (c, [])
  | r :: requests =>
      let '(c, b) := get_bytes c (pr_page_id r) (pr_page_offset r) (pr_len r) in
      let '(c, out) := default_get_batch_bytes get_bytes c requests in
      (c, b :: out)
  end.

(** The trait's default [get_bytes], over a [get] that fills the first [n] bytes
    of the caller's buffer: [get] returns those bytes. *)
Definition default_get_bytes {C : Type} (get : C -> PageId -> Z -> Z -> C * bytes)
    (c : C) (p : PageId) (page_offset len : Z) : C * bytes :=
  if len =? 0 then (c, []) else get c p page_offset len.

(** [DisabledCacheManager] caches nothing. *)
Inductive DisabledCacheManager : Type := Disabled.

#[global] Instance disabled_cache_manager : CacheManager DisabledCacheManager := {
  cm_put := fun c _ _ => (c, false);
  cm_schedule_fill := fun c _ _ => c;
  cm_get_bytes := default_get_bytes (fun c _ _ _ => (c, []));
  cm_get_batch_bytes := default_get_batch_bytes (default_get_bytes (fun c _ _ _ => (c, [])));
  cm_delete := fun c _ => (c, false);
  cm_invalidate := fun c _ => c;
  cm_on_file_open := fun c _ _ _ => c;
  cm_state := fun _ => NotInUse;
}.

(** ** Reading through the cache *)

Inductive FillMode : Type := FillNone | FillSync | FillAsync.

(** One entry of the page list the reader builds; offsets within a page are
    [usize] (64 bits), file positions [i64]. *)
Record PagePiece : Type := mkPagePiece {
  pp_page_id : PageId;
  pp_page_index : Z;
  pp_page_start : Z;
  pp_page_end : Z;
  pp_in_page_off : Z;
  pp_want : Z;
}.

Definition page_piece (file_id : string) (page_size file_length end_ cur : Z) : PagePiece :=
  let page_index := as_u64 cur / page_size in
  let page_start := as_i64 (u64_mul page_index page_size) in
  let page_end := Z.min (as_i64 (u64_mul (u64_add page_index 1) page_size)) file_length in
  mkPagePiece (mkPageId file_id page_index) page_index page_start page_end
    (as_u64 (cur - page_start)) (as_u64 (Z.min end_ page_end - cur)).

(** The [while cur < end] loop; [None] when the fuel runs out. *)
Fixpoint split_pages (fuel : nat) (file_id : string) (page_size file_length end_ cur : Z)
  : option (list PagePiece) :=
  if cur <? end_ then
    match fuel with
    | O => None
    | S fuel =>
        let piece := page_piece file_id page_size file_length end_ cur in
        rest ← split_pages fuel file_id page_size file_length end_
                  (i64_add cur (as_i64 (pp_want piece)));
        Some (piece :: rest)
    end
  else Some [].

Definition piece_request (p : PagePiece) : PageReadRequest :=
  mkPageReadRequest (pp_page_id p) (pp_in_page_off p) (pp_want p).

Section ReadThrough.
Context {C : Type} `{!CacheManager C}.
(** The miss source: reads [[offset, end)] and may keep state of its own. *)
Context {X : Type} (read_range : X -> Z -> Z -> X * result Error bytes).
Context (short_read_message zero_bytes_message : PagePiece -> bytes -> string).

Definition fill (fill_mode : FillMode) (c : C) (p : PageId) (page : bytes) : C :=
  match page with
  | [] => c
  | _ => match fill_mode with
         | FillNone => c
         | FillSync => fst (cm_put c p page)
         | FillAsync => cm_schedule_fill c p page
         end
  end.

(** One page that the cache did not serve in full.  The slice is in order: a
    piece whose [want] wrapped belongs to a page loop that does not end. *)
Definition read_missed_page (fill_mode : FillMode) (c : C) (x : X) (piece : PagePiece)
  : C * X * result Error bytes :=
  let '(x, r) := read_range x (pp_page_start piece) (pp_page_end piece) in
  match r with
  | Err e => (c, x, Err e)
  | Ok page_bytes =>
      let expected := as_u64 (pp_page_end piece - pp_page_start piece) in
      if zlen page_bytes <? expected then
        (c, x, Err (Internal (short_read_message piece page_bytes) None))
      else
        let page_bytes := slice 0 expected page_bytes in
        let c := fill fill_mode c (pp_page_id piece) page_bytes in
        let avail := zlen page_bytes in
        let s := Z.min (pp_in_page_off piece) avail in
        let e := Z.min (u64_add (pp_in_page_off piece) (pp_want piece)) avail in
        if e - s =? 0 then (c, x, Err (Internal (zero_bytes_message piece page_bytes) None))
        else (c, x, Ok (slice s e page_bytes))
  end.

(** The loop over the pages and the cached buffers. *)
Fixpoint read_pieces (fill_mode : FillMode) (c : C) (x : X) (pieces : list (PagePiece * bytes))
  : C * X * result Error (list bytes) :=
  match pieces with
  | [] => (c, x, Ok [])
  | (piece, cached) :: pieces =>
      if zlen cached =? pp_want piece then
        let '(c, x, r) := read_pieces fill_mode c x pieces in
        (c, x, let? chunks := r in Ok (cached :: chunks))
      else
        match read_missed_page fill_mode c x piece with
        | (c, x, Err e) => (c, x, Err e)
        | (c, x, Ok chunk) =>
            let '(c, x, r) := read_pieces fill_mode c x pieces in
            (c, x, let? chunks := r in Ok (chunk :: chunks))
        end
  end.

Definition split_fuel (page_size offset end_ : Z) : nat :=
  S (S (Z.to_nat ((end_ - offset) / page_size))).

(** [None] stands for a page loop that does not end. *)
Definition read_through_cache (c : C) (x : X) (file_id : string)
    (page_size file_length offset end_ : Z) (fill_mode : FillMode)
  : option (C * X * result Error bytes) :=
  let page_size := Z.max page_size 1 in
  pages ← split_pages (split_fuel page_size offset end_) file_id page_size file_length
            end_ offset;
  let '(c, cached) := cm_get_batch_bytes c (map piece_request pages) in
  let cached := if (length cached =? length pages)%nat then cached
                else replicate (length pages) [] in
  let '(c, x, r) := read_pieces fill_mode c x (zip pages cached) in
  Some (c, x, let? chunks := r in Ok (mjoin chunks)).
End ReadThrough.

(** ** What the reader relies on *)

(** Page [i] of a file: the last page is short. *)
Definition page_of (page_size : Z) (data : bytes) (i : Z) : bytes :=
  slice (i * page_size) ((i + 1) * page_size) data.

(** A full-length answer is the requested part of the page. *)
Definition answer_ok (page_size : Z) (data : bytes) (r : PageReadRequest) (b : bytes) : Prop :=
  zlen b = pr_len r ->
  b = slice (pr_page_offset r) (pr_page_offset r + pr_len r)
        (page_of page_size data (pg_index (pr_page_id r))).

Definition request_ok (file_id : string) (r : PageReadRequest) : Prop :=
  pg_file_id (pr_page_id r) = file_id /\ 0 <= pg_index (pr_page_id r) /\
  0 <= pr_page_offset r /\ 0 < pr_len r.

(** [cache_sound c f ps data]: what [c] serves for the file [f] is [data], cut in
    pages of [ps] bytes. *)
Class CacheSound (C : Type) `{!CacheManager C} : Type := {
  cache_sound : C -> string -> Z -> bytes -> Prop;
  cache_sound_get_batch : forall c f ps data rs c' out,
    0 < ps -> cache_sound c f ps data -> Forall (request_ok f) rs ->
    cm_get_batch_bytes c rs = (c', out) ->
    cache_sound c' f ps data /\
    (length out = length rs -> Forall2 (answer_ok ps data) rs out);
  cache_sound_put : forall c f ps data i,
    0 < ps -> 0 <= i -> cache_sound c f ps data ->
    cache_sound (fst (cm_put c (mkPageId f i) (page_of ps data i))) f ps data;
  cache_sound_schedule_fill : forall c f ps data i,
    0 < ps -> 0 <= i -> cache_sound c f ps data ->
    cache_sound (cm_schedule_fill c (mkPageId f i) (page_of ps data i)) f ps data;
}.

Lemma disabled_batch c rs :
  cm_get_batch_bytes (C := DisabledCacheManager) c rs = (c, map (fun _ => []) rs).
Proof.
  change (cm_get_batch_bytes c rs)
    with (default_get_batch_bytes (default_get_bytes (fun c _ _ _ => (c, []))) c rs).
  unfold default_get_bytes.
  induction rs as [|r rs IH]; [done|]. cbn [default_get_batch_bytes map].
  destruct (pr_len r =? 0); by rewrite IH.
Qed.

#[global] Program Instance disabled_cache_sound : CacheSound DisabledCacheManager := {
  cache_sound := fun _ _ _ _ => True;
}.
Next Obligation.
  intros c f ps data rs c' out Hps _ Hrs Hb. rewrite disabled_batch in Hb.
  inversion Hb; subst. split; [done|]. intros _.
  induction Hrs as [|r rs (_ & _ & _ & Hl) _ IH]; cbn; constructor; [|auto using disabled_batch].
  unfold answer_ok, zlen. cbn. lia.
Qed.
Next Obligation. done. Qed.
Next Obligation. done. Qed.

(** ** The page list *)

Lemma join_cons {A : Type} (l : list A) (ls : list (list A)) : mjoin (l :: ls) = l ++ mjoin ls.
Proof. reflexivity. Qed.

Record piece_ok (file_id : string) (ps fl : Z) (p : PagePiece) : Prop := {
  po_id : pp_page_id p = mkPageId file_id (pp_page_index p);
  po_index : 0 <= pp_page_index p;
  po_start : pp_page_start p = pp_page_index p * ps;
  po_end : pp_page_end p = Z.min ((pp_page_index p + 1) * ps) fl;
  po_off : 0 <= pp_in_page_off p;
  po_want : 0 < pp_want p;
  po_in : pp_page_start p + pp_in_page_off p + pp_want p <= pp_page_end p;
}.

(** The bytes of the file a piece asks for. *)
Definition piece_bytes (data : bytes) (p : PagePiece) : bytes :=
  let a := pp_page_start p + pp_in_page_off p in
  slice a (a + pp_want p) data.

Section SplitPages.
Context (file_id : string) (ps fl : Z).
Context (Hps : 0 < ps) (Hfl : fl + ps <= i64_max).

Lemma page_piece_ok end_ cur :
  0 <= cur < end_ -> end_ <= fl ->
  let p := page_piece file_id ps fl end_ cur in
  piece_ok file_id ps fl p /\ pp_page_index p = cur / ps /\
  pp_page_start p + pp_in_page_off p = cur /\
  cur + pp_want p = Z.min end_ ((cur / ps + 1) * ps).
Proof.
  intros Hcur Hend. unfold page_piece, u64_add, u64_mul. unfold i64_max in Hfl.
  pose proof (Z.div_pos cur ps ltac:(lia) Hps).
  pose proof (Z.mul_div_le cur ps Hps). pose proof (Z.mul_succ_div_gt cur ps Hps).
  assert (0 <= cur / ps * ps) by nia.
  assert ((cur / ps + 1) * ps <= cur + ps) by nia.
  assert (cur < (cur / ps + 1) * ps) by nia.
  assert (cur / ps <= cur) by (apply Z.div_le_upper_bound; nia).
  rewrite (as_u64_small cur) by solve_range.
  rewrite (as_u64_small (cur / ps + 1)) by solve_range.
  rewrite !(as_u64_small (_ * _)) by solve_range.
  rewrite !as_i64_small by solve_range.
  rewrite (as_u64_small (cur - _)) by solve_range.
  rewrite (as_u64_small (Z.min _ _ - cur)) by solve_range.
  cbn. split; [constructor; cbn; try done; lia|]. lia.
Qed.

Lemma split_pages_spec (data : bytes) (fuel : nat) end_ cur :
  0 <= cur <= end_ -> end_ <= fl -> (cur < end_ -> (end_ - 1) / ps - cur / ps < Z.of_nat fuel) ->
  exists pages, split_pages fuel file_id ps fl end_ cur = Some pages /\
    Forall (piece_ok file_id ps fl) pages /\
    mjoin (map (piece_bytes data) pages) = slice cur end_ data.
Proof.
  revert cur. induction fuel as [|fuel IH]; intros cur Hcur Hend Hfuel; cbn [split_pages];
    (destruct (Z.ltb_spec cur end_) as [Hlt|Hge];
      [|exists []; rewrite slice_nil by lia; done]).
  - specialize (Hfuel Hlt). pose proof (Z.div_le_mono cur (end_ - 1) ps Hps). lia.
  - specialize (Hfuel Hlt).
    destruct (page_piece_ok end_ cur ltac:(lia) Hend) as (Hok & Hidx & Hstart & Hnext).
    set (p := page_piece file_id ps fl end_ cur) in *.
    pose proof (po_want _ _ _ _ Hok) as Hw.
    unfold i64_add. unfold i64_max in Hfl.
    rewrite (as_i64_small (pp_want p)) by solve_range. rewrite as_i64_small by solve_range.
    destruct (IH (cur + pp_want p)) as (pages & -> & Hall & Hjoin); [lia|lia| |].
    { intros Hmore. replace (cur + pp_want p) with ((cur / ps + 1) * ps) by lia.
      rewrite Z.div_mul by lia. lia. }
    exists (p :: pages). split; [done|]. split; [by constructor|].
    cbn [map]. rewrite join_cons, Hjoin. unfold piece_bytes. rewrite Hstart. apply slice_app; lia.
Qed.
End SplitPages.

(** ** Correctness of the reader *)

(** The miss source never lies: a buffer long enough for the range it was asked
    for starts with that range of the file. *)
Definition reader_honest {X : Type} (read_range : X -> Z -> Z -> X * result Error bytes)
    (data : bytes) : Prop :=
  forall x a b bs, 0 <= a <= b -> b <= zlen data ->
    snd (read_range x a b) = Ok bs -> b - a <= zlen bs -> slice 0 (b - a) bs = slice a b data.

(** The miss source delivers every non-empty range inside the file. *)
Definition reader_delivers {X : Type} (read_range : X -> Z -> Z -> X * result Error bytes)
    (data : bytes) : Prop :=
  forall x a b, 0 <= a < b -> b <= zlen data ->
    exists bs, snd (read_range x a b) = Ok bs /\ b - a <= zlen bs.

Section ReaderCorrect.
Context {C : Type} `{!CacheManager C, !CacheSound C}.
Context {X : Type} (read_range : X -> Z -> Z -> X * result Error bytes).
Context (short_msg zero_msg : PagePiece -> bytes -> string).
Context (f : string) (ps : Z) (data : bytes).
Context (Hps : 0 < ps) (Hlen : zlen data + ps <= i64_max).

Lemma page_of_piece p :
  piece_ok f ps (zlen data) p ->
  page_of ps data (pp_page_index p) = slice (pp_page_start p) (pp_page_end p) data.
Proof.
  intros [_ Hi -> -> Ho Hw Hin]. unfold page_of.
  destruct (Z.min_spec ((pp_page_index p + 1) * ps) (zlen data)) as [[_ ->]|[? ->]]; [done|].
  apply slice_clamp; nia.
Qed.

Lemma piece_request_ok p : piece_ok f ps (zlen data) p -> request_ok f (piece_request p).
Proof. intros [Hid Hi _ _ Ho Hw _]. unfold request_ok. cbn. rewrite Hid. cbn. auto. Qed.

Lemma cached_answer p b :
  piece_ok f ps (zlen data) p -> answer_ok ps data (piece_request p) b ->
  zlen b = pp_want p -> b = piece_bytes data p.
Proof.
  intros Hok Hb Hl. pose proof Hok as [Hid Hi Hs He Ho Hw Hin].
  specialize (Hb Hl). cbn in Hb. rewrite Hid in Hb. cbn in Hb.
  rewrite Hb. unfold page_of. rewrite slice_slice by nia. unfold piece_bytes.
  rewrite Hs, Z.add_assoc. reflexivity.
Qed.

(** A missed page: the cache stays sound, and what is returned is the piece. *)
Lemma read_missed_page_sound fill_mode c x p c' x' r :
  piece_ok f ps (zlen data) p -> cache_sound c f ps data -> reader_honest read_range data ->
  read_missed_page read_range short_msg zero_msg fill_mode c x p = (c', x', r) ->
  cache_sound c' f ps data /\ (forall b, r = Ok b -> b = piece_bytes data p) /\
  (reader_delivers read_range data -> is_ok r = true).
Proof.
  intros Hok Hc Hr Hread. pose proof Hok as [Hid Hi Hs He Ho Hw Hin].
  pose proof (zlen_nonneg data). unfold i64_max in Hlen.
  assert (0 <= pp_page_start p <= pp_page_end p) by nia.
  assert (pp_page_end p <= zlen data) by lia.
  unfold read_missed_page in Hread.
  specialize (Hr x (pp_page_start p) (pp_page_end p)).
  assert (Hd : reader_delivers read_range data -> exists bs,
    snd (read_range x (pp_page_start p) (pp_page_end p)) = Ok bs /\
    pp_page_end p - pp_page_start p <= zlen bs) by (intros Hd; apply Hd; lia).
  destruct (read_range x _ _) as [x1 [bs|e]]; cbn in Hr, Hd;
    [|inversion Hread; subst; split; [done|]; split; [done|];
      intros Hdd; by destruct (Hd Hdd) as (? & ? & _)].
  rewrite as_u64_small in Hread by solve_range.
  destruct (Z.ltb_spec (zlen bs) (pp_page_end p - pp_page_start p)) as [Hshort|Hlong].
  { inversion Hread; subst. split; [done|]. split; [done|].
    intros Hdd. destruct (Hd Hdd) as (? & [= <-] & ?). lia. }
  rewrite (Hr bs) in Hread by (done || lia).
  rewrite zlen_slice in Hread by lia.
  unfold u64_add in Hread. rewrite as_u64_small in Hread by solve_range.
  rewrite !Z.min_l in Hread by lia.
  destruct (Z.eqb_spec (pp_in_page_off p + pp_want p - pp_in_page_off p) 0) as [|_]; [lia|].
  inversion Hread; subst. split; [|split; [|done]].
  - unfold fill. rewrite <- page_of_piece, Hid by done.
    destruct (page_of ps data (pp_page_index p)) eqn:Hpage; [done|]. rewrite <- Hpage.
    destruct fill_mode; [done|by apply cache_sound_put|by apply cache_sound_schedule_fill].
  - intros b [= <-]. rewrite slice_slice by lia. unfold piece_bytes. f_equal; lia.
Qed.

Lemma read_pieces_sound fill_mode c x pieces c' x' r :
  Forall (fun '(p, b) => piece_ok f ps (zlen data) p /\
                         answer_ok ps data (piece_request p) b) pieces ->
  cache_sound c f ps data -> reader_honest read_range data ->
  read_pieces read_range short_msg zero_msg fill_mode c x pieces = (c', x', r) ->
  cache_sound c' f ps data /\
  (forall chunks, r = Ok chunks -> chunks = map (piece_bytes data ∘ fst) pieces) /\
  (reader_delivers read_range data -> is_ok r = true).
Proof.
  intros Hall Hc Hr. revert c x c' x' r Hc.
  induction Hall as [|[p b] pieces [Hp Hb] Hall IH]; intros c x c' x' r Hc; cbn [read_pieces].
  { intros [= <- <- <-]. split; [done|]. split; [by intros ? [= <-]|done]. }
  destruct (Z.eqb_spec (zlen b) (pp_want p)) as [Hhit|Hmiss].
  - destruct (read_pieces _ _ _ _ _ _ _) as [[c1 x1] r1] eqn:Hrest. intros [= <- <- <-].
    destruct (IH _ _ _ _ _ Hc Hrest) as (Hc1 & Hok & Hdel). split; [done|].
    split; [|intros Hd; specialize (Hdel Hd); by destruct r1].
    intros chunks. destruct r1; [|done]. cbn. intros [= <-].
    f_equal; [by apply cached_answer|by apply Hok].
  - destruct (read_missed_page _ _ _ _ _ _ _) as [[c1 x1] r1] eqn:Hm.
    destruct (read_missed_page_sound _ _ _ _ _ _ _ Hp Hc Hr Hm) as (Hc1 & Hok1 & Hdel1).
    destruct r1 as [chunk|e];
      [|intros [= <- <- <-]; split; [done|]; split; [done|]; exact Hdel1].
    destruct (read_pieces _ _ _ _ _ _ _) as [[c2 x2] r2] eqn:Hrest. intros [= <- <- <-].
    destruct (IH _ _ _ _ _ Hc1 Hrest) as (Hc2 & Hok & Hdel). split; [done|].
    split; [|intros Hd; specialize (Hdel Hd); by destruct r2].
    intros chunks. destruct r2; [|done]. cbn. intros [= <-].
    f_equal; [by apply Hok1|by apply Hok].
Qed.
End ReaderCorrect.

Section ReaderTheorems.
Context {C : Type} `{!CacheManager C, !CacheSound C}.
Context {X : Type} (read_range : X -> Z -> Z -> X * result Error bytes).
Context (short_msg zero_msg : PagePiece -> bytes -> string).

Lemma split_fuel_enough ps offset end_ :
  0 < ps -> 0 <= offset < end_ ->
  (end_ - 1) / ps - offset / ps < Z.of_nat (split_fuel ps offset end_).
Proof.
  intros Hps Ho. unfold split_fuel.
  pose proof (Z.div_pos (end_ - offset) ps ltac:(lia) Hps).
  rewrite !Nat2Z.inj_succ, Z2Nat.id by lia.
  assert ((end_ - 1) / ps < offset / ps + (end_ - offset) / ps + 2); [|lia].
  apply Z.div_lt_upper_bound; [lia|].
  pose proof (Z.mul_succ_div_gt offset ps Hps).
  pose proof (Z.mul_succ_div_gt (end_ - offset) ps Hps). nia.
Qed.

Lemma Forall2_zip {A B : Type} (P : A -> Prop) (Q : A -> B -> Prop) (l : list A) (k : list B) :
  Forall P l -> Forall2 Q l k -> Forall (fun '(a, b) => P a /\ Q a b) (zip l k).
Proof. intros HP HQ. induction HQ; inversion HP; subst; cbn; constructor; auto. Qed.

Lemma answer_ok_empty ps data r : 0 < pr_len r -> answer_ok ps data r [].
Proof. unfold answer_ok, zlen. cbn. lia. Qed.

(** The batch answer after the length check: one usable buffer per page. *)
Lemma batch_answers c f ps data pages c' cached :
  0 < ps -> cache_sound c f ps data -> Forall (piece_ok f ps (zlen data)) pages ->
  cm_get_batch_bytes c (map piece_request pages) = (c', cached) ->
  let cached := if (length cached =? length pages)%nat then cached
                else replicate (length pages) [] in
  cache_sound c' f ps data /\ length cached = length pages /\
  Forall2 (fun p => answer_ok ps data (piece_request p)) pages cached.
Proof.
  intros Hps Hc Hpages Hbatch.
  assert (Hreq : Forall (request_ok f) (map piece_request pages)).
  { clear Hbatch. induction Hpages; constructor; [by eapply piece_request_ok|done]. }
  destruct (cache_sound_get_batch _ _ _ _ _ _ _ Hps Hc Hreq Hbatch) as [Hc' Hout].
  split; [done|]. rewrite length_map in Hout.
  destruct (Nat.eqb_spec (length cached) (length pages)) as [Heq|_]; cbn.
  - split; [done|]. exact (proj1 (Forall2_fmap_l piece_request (answer_ok ps data) pages cached) (Hout Heq)).
  - rewrite length_replicate. split; [done|]. clear -Hpages.
    induction Hpages as [|p pages Hp _ IH]; cbn; constructor; [|done].
    apply answer_ok_empty. apply Hp.
Qed.

Lemma read_through_cache_spec c x f ps data offset end_ fill_mode :
  ps + zlen data < i64_max -> 0 <= offset <= end_ -> end_ <= zlen data -> 0 <= ps ->
  cache_sound c f (Z.max ps 1) data -> reader_honest read_range data ->
  exists c' x' r,
    read_through_cache read_range short_msg zero_msg c x f ps (zlen data) offset end_ fill_mode
      = Some (c', x', r) /\
    cache_sound c' f (Z.max ps 1) data /\ (forall b, r = Ok b -> b = slice offset end_ data) /\
    (reader_delivers read_range data -> is_ok r = true).
Proof.
  intros Hlen Ho He Hps Hc Hr. unfold read_through_cache.
  set (ps1 := Z.max ps 1) in *. assert (Hps1 : 0 < ps1) by lia.
  destruct (split_pages_spec f ps1 (zlen data) Hps1 ltac:(lia) data
              (split_fuel ps1 offset end_) end_ offset) as (pages & -> & Hpages & Hjoin);
    [lia|done|intros; apply split_fuel_enough; lia|].
  cbn [mbind option_bind].
  destruct (cm_get_batch_bytes c _) as [c1 cached] eqn:Hbatch.
  destruct (batch_answers _ _ _ _ _ _ _ Hps1 Hc Hpages Hbatch) as (Hc1 & Hl & Hans).
  set (cached1 := if (length cached =? length pages)%nat then _ else _) in *.
  destruct (read_pieces _ _ _ _ _ _ _) as [[c2 x2] r] eqn:Hread.
  destruct (read_pieces_sound _ _ _ f ps1 data Hps1 ltac:(lia) _ _ _ _ _ _ _
              (Forall2_zip _ _ _ _ Hpages Hans) Hc1 Hr Hread) as (Hc2 & Hok & Hdel).
  do 3 eexists. split; [done|]. split; [done|]. split.
  - destruct r as [chunks|]; [|done]. cbn. intros b [= <-].
    rewrite (Hok _ eq_refl), <- Hjoin. f_equal.
    rewrite <- (fst_zip pages cached1) at 2 by lia. by rewrite map_map.
  - intros Hd. specialize (Hdel Hd). by destruct r.
Qed.

(** C19. Reading [[offset, end)] of a file through any sound page cache, with a
    miss source that delivers the file's bytes, returns exactly those bytes of the
    file, whatever the cache answers, evicts or refuses, for every page size and
    fill mode, and leaves the cache sound. *)
Theorem read_through_cache_returns_file_bytes c x f ps data offset end_ fill_mode
    (Hlen : ps + zlen data < i64_max) (Ho : 0 <= offset <= end_) (He : end_ <= zlen data)
    (Hps : 0 <= ps) (Hc : cache_sound c f (Z.max ps 1) data)
    (Hr : reader_honest read_range data) (Hd : reader_delivers read_range data) :
  exists c' x',
    read_through_cache read_range short_msg zero_msg c x f ps (zlen data) offset end_ fill_mode
      = Some (c', x', Ok (slice offset end_ data)) /\
    cache_sound c' f (Z.max ps 1) data.
Proof.
  destruct (read_through_cache_spec c x f ps data offset end_ fill_mode)
    as (c' & x' & [b|e] & Hread & Hc' & Hb & Hok); try done.
  - exists c', x'. by rewrite <- (Hb b eq_refl).
  - by specialize (Hok Hd).
Qed.

(** When the miss source may fail or return short buffers (but no wrong
    bytes), the read ends, leaves the cache sound, and returns either an error or
    exactly the requested bytes: never a truncated or a wrong buffer. *)
Theorem read_through_cache_never_wrong c x f ps data offset end_ fill_mode
    (Hlen : ps + zlen data < i64_max) (Ho : 0 <= offset <= end_) (He : end_ <= zlen data)
    (Hps : 0 <= ps) (Hc : cache_sound c f (Z.max ps 1) data)
    (Hr : reader_honest read_range data) :
  exists c' x' r,
    read_through_cache read_range short_msg zero_msg c x f ps (zlen data) offset end_ fill_mode
      = Some (c', x', r) /\
    cache_sound c' f (Z.max ps 1) data /\
    (r = Ok (slice offset end_ data) \/ exists e, r = Err e).
Proof.
  destruct (read_through_cache_spec c x f ps data offset end_ fill_mode)
    as (c' & x' & [b|e] & Hread & Hc' & Hb & _); try done.
  - exists c', x', (Ok b). rewrite (Hb b eq_refl) in *. eauto.
  - exists c', x', (Err e). eauto.
Qed.
End ReaderTheorems.

(** ** Witnesses *)

Definition plain_reader (data : bytes) (calls : list (Z * Z)) (a b : Z)
  : list (Z * Z) * result Error bytes := ((a, b) :: calls, Ok (slice a b data)).

(** A source that fails from its second call on. *)
Definition failing_reader (data : bytes) (calls : list (Z * Z)) (a b : Z)
  : list (Z * Z) * result Error bytes :=
  ((a, b) :: calls, match calls with [] => Ok (slice a b data) | _ => Ok (slice a (b - 1) data) end).

Lemma slice_self (data : bytes) a b :
  0 <= a <= b -> b <= zlen data -> slice 0 (b - a) (slice a b data) = slice a b data.
Proof. intros. rewrite slice_slice by lia. f_equal; lia. Qed.

Lemma plain_reader_honest data : reader_honest (plain_reader data) data.
Proof. intros x a b bs Ha Hb [= <-] _. by apply slice_self. Qed.

Lemma plain_reader_delivers data : reader_delivers (plain_reader data) data.
Proof. intros x a b Ha Hb. eexists. split; [done|]. rewrite zlen_slice; lia. Qed.

Lemma failing_reader_honest data : reader_honest (failing_reader data) data.
Proof.
  intros x a b bs Ha Hb. unfold failing_reader. cbn.
  destruct x; intros [= <-] Hl; [by apply slice_self|].
  destruct (Z.le_gt_cases (b - 1) a).
  - rewrite slice_nil in Hl by lia. unfold zlen in Hl. cbn in Hl.
    rewrite !slice_nil by lia. done.
  - rewrite zlen_slice in Hl; lia.
Qed.

Definition ten_bytes : bytes := [10; 11; 12; 13; 14; 15; 16; 17; 18; 19].

Lemma read_through_cache_returns_file_bytes_witness :
  read_through_cache (plain_reader ten_bytes) (fun _ _ => "short"%string)
    (fun _ _ => "zero"%string) Disabled [] "7" 4 10 3 9 FillSync
    = Some (Disabled, [(8, 10); (4, 8); (0, 4)], Ok [13; 14; 15; 16; 17; 18]) /\
  exists c' x', read_through_cache (plain_reader ten_bytes) (fun _ _ => "short"%string)
    (fun _ _ => "zero"%string) Disabled [] "7" 4 10 3 9 FillSync
    = Some (c', x', Ok (slice 3 9 ten_bytes)) /\ cache_sound c' "7" (Z.max 4 1) ten_bytes.
Proof.
  split; [vm_compute; reflexivity|].
  apply (read_through_cache_returns_file_bytes (plain_reader ten_bytes) (fun _ _ => "short"%string)
    (fun _ _ => "zero"%string) Disabled [] "7" 4 ten_bytes 3 9 FillSync);
    try (vm_compute; intuition congruence).
  - apply plain_reader_honest.
  - apply plain_reader_delivers.
Defined.

Lemma read_through_cache_never_wrong_witness :
  exists c' x' r, read_through_cache (failing_reader ten_bytes) (fun _ _ => "short"%string)
    (fun _ _ => "zero"%string) Disabled [] "7" 4 10 3 9 FillSync = Some (c', x', r) /\
    cache_sound c' "7" (Z.max 4 1) ten_bytes /\
    (r = Ok (slice 3 9 ten_bytes) \/ exists e, r = Err e).
Proof.
  apply (read_through_cache_never_wrong (failing_reader ten_bytes) (fun _ _ => "short"%string)
    (fun _ _ => "zero"%string) Disabled [] "7" 4 ten_bytes 3 9 FillSync);
    try (vm_compute; intuition congruence).
  apply failing_reader_honest.
Defined.
