(* ===== verification/PageStore.v ===== *)
(** * Local page store (src/src/cache/store/local.rs, src/src/cache/store/mod.rs)

    The files below one store root.  A path is [bucket/file_id/name] where the
    bucket is a function of [file_id], so [(file_id, name)] identifies it.  The
    outcome of each system call is an input of the operation. *)

From Stdlib Require Import Ascii.
From S2P Require Import Prelude Text Errors PageCache.

(** Names in a file's directory: page files and their temporary siblings. *)
Inductive PageName : Type :=
| PageFile (page_index : Z)
| PageTmp (page_index : Z) (uuid : string).

#[global] Instance PageName_eq_dec : EqDecision PageName.
Proof. solve_decision. Defined.

#[global] Instance PageName_countable : Countable PageName.
Proof.
  refine (inj_countable'
    (fun n => match n with PageFile i => (i, None) | PageTmp i u => (i, Some u) end)
    (fun '(i, o) => match o with None => PageFile i | Some u => PageTmp i u end) _).
  by intros [].
Defined.

(** [ps_files] holds pages by [(file_id, name)], [ps_sidecars] the contents of the
    [.identity] files by [file_id]. *)
Record LocalPageStore : Type := mkLocalPageStore {
  ps_files : gmap (string * PageName) bytes;
  ps_sidecars : gmap string string;
}.

Definition empty_store : LocalPageStore := mkLocalPageStore ∅ ∅.

Definition page_path (p : PageId) : string * PageName :=
  (pg_file_id p, PageFile (pg_index p)).

Definition page_file (s : LocalPageStore) (p : PageId) : option bytes :=
  ps_files s !! page_path p.

Definition set_files (s : LocalPageStore) (fs : gmap (string * PageName) bytes) : LocalPageStore :=
  mkLocalPageStore fs (ps_sidecars s).

Definition set_sidecars (s : LocalPageStore) (m : gmap string string) : LocalPageStore :=
  mkLocalPageStore (ps_files s) m.

(** ** Writing a page *)

(** How far a [put] got: nothing on disk yet, the temporary file with its first
    [n] bytes, or the rename. *)
Inductive PutProgress : Type :=
| PutStarted
| PutWritten (n : nat)
| PutRenamed.

Definition put_state (s : LocalPageStore) (p : PageId) (page : bytes) (uuid : string)
    (g : PutProgress) : LocalPageStore :=
  let tmp := (pg_file_id p, PageTmp (pg_index p) uuid) in
  match g with
  | PutStarted => s
  | PutWritten n => set_files s (<[tmp := take n page]> (ps_files s))
  | PutRenamed => set_files s (<[page_path p := page]> (delete tmp (ps_files s)))
  end.

(** Where the writing stops, if it fails. *)
Inductive PutFault : Type :=
| PutNoFault
| PutFailMkdir
| PutFailCreate
| PutFailWrite (n : nat)
| PutFailRename.

(** [cleanup_ok]: the best-effort [remove_file] of the temporary file succeeds. *)
Definition store_put (s : LocalPageStore) (p : PageId) (page : bytes) (uuid : string)
    (fault : PutFault) (cleanup_ok : bool) : LocalPageStore * bool :=
  let tmp := (pg_file_id p, PageTmp (pg_index p) uuid) in
  let clean s := if cleanup_ok then set_files s (delete tmp (ps_files s)) else s in
  match fault with
  | PutNoFault => (put_state s p page uuid PutRenamed, true)
  | PutFailMkdir => (s, false)
  | PutFailCreate => (clean s, false)
  | PutFailWrite n => (clean (put_state s p page uuid (PutWritten n)), false)
  | PutFailRename => (clean (put_state s p page uuid (PutWritten (length page))), false)
  end.

(** ** Reading and deleting a page *)

(** The read loop over a file positioned at [pos]: each system call returns at
    least one byte and at most [r], and the last one fills the buffer or meets the
    end of the file. *)
Fixpoint fill_dst (content : bytes) (pos want : Z) (reads : list Z) : bytes :=
  if want <=? 0 then []
  else
    match reads with
    | [] => slice pos (pos + want) content
    | r :: reads =>
        let n := Z.min (Z.max 1 r) (Z.min want (zlen content - pos)) in
        if n <=? 0 then []
        else slice pos (pos + n) content ++ fill_dst content (pos + n) (want - n) reads
    end.

(** A missing file reads as zero bytes.  [reads = None] is an I/O error. *)
Definition store_get (s : LocalPageStore) (p : PageId) (offset len : Z)
    (reads : option (list Z)) : option bytes :=
  match page_file s p with
  | None => Some []
  | Some content => reads ← reads; Some (fill_dst content offset len reads)
  end.

(** [PageStore::get_bytes]: no read for a zero length. *)
Definition store_get_bytes (s : LocalPageStore) (p : PageId) (offset len : Z)
    (reads : option (list Z)) : option bytes :=
  if len =? 0 then Some [] else store_get s p offset len reads.

(** Deleting a missing file succeeds. *)
Definition store_delete (s : LocalPageStore) (p : PageId) (ok : bool) : LocalPageStore * bool :=
  match page_file s p with
  | None => (s, true)
  | Some _ => if ok then (set_files s (delete (page_path p) (ps_files s)), true) else (s, false)
  end.

(** ** Identity sidecars *)

Definition format_identity (length mtime : Z) : string :=
  show_Z length +:+ String "," (show_Z mtime).

Definition parse_identity (contents : string) : option (Z * Z) :=
  '(l, m) ← split_once "," (trim contents);
  l ← parse_i64 (trim l);
  m ← parse_i64 (trim m);
  Some (l, m).

Definition write_identity (s : LocalPageStore) (file_id : string) (length mtime : Z) (ok : bool)
  : LocalPageStore * bool :=
  if ok then (set_sidecars s (<[file_id := format_identity length mtime]> (ps_sidecars s)), true)
  else (s, false).

Definition read_identity (s : LocalPageStore) (file_id : string) (ok : bool) : option (Z * Z) :=
  if ok then contents ← ps_sidecars s !! file_id; parse_identity contents else None.

Definition delete_identity (s : LocalPageStore) (file_id : string) (ok : bool)
  : LocalPageStore * bool :=
  match ps_sidecars s !! file_id with
  | None => (s, true)
  | Some _ => if ok then (set_sidecars s (delete file_id (ps_sidecars s)), true) else (s, false)
  end.

(** ** Pages *)

Lemma page_path_inj p q : page_path p = page_path q -> p = q.
Proof. destruct p, q. unfold page_path. cbn. congruence. Qed.

Lemma page_file_put_state s p page uuid g q :
  page_file (put_state s p page uuid g) q =
    match g with
    | PutRenamed => if decide (q = p) then Some page else page_file s q
    | _ => page_file s q
    end.
Proof.
  unfold page_file. destruct g; cbn; [done|by rewrite lookup_insert_ne|].
  destruct (decide (q = p)) as [->|Hne]; [by rewrite lookup_insert_eq|].
  rewrite lookup_insert_ne by (intros ?%page_path_inj; done).
  by rewrite lookup_delete_ne.
Qed.

Lemma page_file_clean s p uuid q :
  page_file (set_files s (delete (pg_file_id p, PageTmp (pg_index p) uuid) (ps_files s))) q
    = page_file s q.
Proof. unfold page_file. cbn. by rewrite lookup_delete_ne. Qed.

Lemma page_file_store_put s p page uuid fault cleanup_ok s' ok q :
  store_put s p page uuid fault cleanup_ok = (s', ok) ->
  page_file s' q = if ok then (if decide (q = p) then Some page else page_file s q)
                   else page_file s q.
Proof.
  unfold store_put. intros Hs.
  destruct fault, cleanup_ok; apply pair_eq in Hs as [<- <-];
    rewrite ?page_file_clean, ?page_file_put_state; try done.
Qed.

Lemma page_file_store_delete s p ok s' r q :
  store_delete s p ok = (s', r) ->
  page_file s' q = if decide (q = p) then (if r then None else page_file s q) else page_file s q.
Proof.
  unfold store_delete. intros Hd. destruct (page_file s p) as [c|] eqn:Hp;
    [destruct ok|]; inversion Hd; subst; unfold page_file in *; cbn;
    (destruct (decide (q = p)) as [->|Hne]; [try done; by rewrite lookup_delete_eq|]); try done.
  by rewrite lookup_delete_ne by (intros ?%page_path_inj; done).
Qed.

(** Short reads do not show: the loop returns the part of the file asked for. *)
Lemma fill_dst_slice content pos want reads :
  0 <= pos -> fill_dst content pos want reads = slice pos (pos + want) content.
Proof.
  revert pos want. induction reads as [|r reads IH]; intros pos want Hpos; cbn [fill_dst];
    (destruct (Z.leb_spec want 0); [by rewrite slice_nil by lia|]); [done|].
  destruct (Z.leb_spec (Z.min (Z.max 1 r) (Z.min want (zlen content - pos))) 0).
  - symmetry. apply slice_past. lia.
  - rewrite IH by lia. rewrite slice_app by lia. f_equal; lia.
Qed.

Lemma store_get_bytes_spec s p offset len reads b :
  0 <= offset -> 0 < len -> store_get_bytes s p offset len reads = Some b ->
  b = match page_file s p with Some c => slice offset (offset + len) c | None => [] end.
Proof.
  intros Ho Hl. unfold store_get_bytes, store_get.
  destruct (Z.eqb_spec len 0); [lia|].
  destruct (page_file s p), reads; cbn; intros [= <-]; rewrite ?fill_dst_slice; done.
Qed.

(** ** Identities *)

Lemma parse_format_identity l m :
  is_i64 l -> is_i64 m -> parse_identity (format_identity l m) = Some (l, m).
Proof.
  intros Hl Hm. unfold parse_identity, format_identity.
  pose proof (str_forall_weaken _ _ _ numeral_not_space (show_Z_numeral l)).
  pose proof (str_forall_weaken _ _ _ numeral_not_space (show_Z_numeral m)).
  rewrite trim_no_space.
  - rewrite split_once_app
      by exact (str_forall_weaken _ _ _ numeral_not_comma (show_Z_numeral l)).
    cbn. rewrite !trim_no_space by done. by rewrite !parse_i64_show.
  - apply str_forall_app. split; [done|]. by constructor.
Qed.

(** ** Theorems *)

(** C33. Page writes are atomic for readers.  At every point of a [put], a read of
    any page returns what it returned before the [put] or, for the page being
    written, the new bytes, however the system splits the reads; a [put] that
    reports success leaves the new page readable and one that fails leaves every
    page as it was. *)
Theorem store_put_atomic s p page uuid g fault cleanup_ok q offset len reads
    (Ho : 0 <= offset) (Hl : 0 < len) :
  (store_get_bytes (put_state s p page uuid g) q offset len (Some reads) =
     store_get_bytes s q offset len (Some reads) \/
   (q = p /\ store_get_bytes (put_state s p page uuid g) q offset len (Some reads) =
               Some (slice offset (offset + len) page))) /\
  (let '(s', ok) := store_put s p page uuid fault cleanup_ok in
   store_get_bytes s' q offset len (Some reads) =
     if ok && bool_decide (q = p) then Some (slice offset (offset + len) page)
     else store_get_bytes s q offset len (Some reads)).
Proof.
  assert (Hget : forall s1 s2, page_file s1 q = page_file s2 q ->
    store_get_bytes s1 q offset len (Some reads) = store_get_bytes s2 q offset len (Some reads))
    by (intros s1 s2 H; unfold store_get_bytes, store_get; by rewrite H).
  assert (Hnew : forall s1, page_file s1 q = Some page ->
    store_get_bytes s1 q offset len (Some reads) = Some (slice offset (offset + len) page)).
  { intros s1 H. unfold store_get_bytes, store_get. rewrite H. cbn.
    rewrite fill_dst_slice by done. destruct (Z.eqb_spec len 0); [lia|done]. }
  split.
  - pose proof (page_file_put_state s p page uuid g q) as Hf.
    destruct g; try (left; by apply Hget). case_decide; [right; auto|left; by apply Hget].
  - destruct (store_put _ _ _ _ _ _) as [s' ok] eqn:Hs.
    pose proof (page_file_store_put _ _ _ _ _ _ _ _ q Hs) as Hf.
    destruct ok; cbn; [|by apply Hget].
    destruct (decide (q = p)) as [->|Hne].
    + rewrite bool_decide_eq_true_2 by done. by apply Hnew.
    + rewrite bool_decide_eq_false_2 by done. by apply Hget.
Qed.

Lemma store_put_atomic_witness :
  let p := mkPageId "7" 0 in
  let s := fst (store_put empty_store p [1; 2; 3] "u1" PutNoFault true) in
  store_get_bytes (put_state s p [4; 5; 6] "u2" (PutWritten 1)) p 1 8 (Some [1]) = Some [2; 3] /\
  store_get_bytes (fst (store_put s p [4; 5; 6] "u2" PutNoFault true)) p 1 8 (Some [1])
    = Some [5; 6].
Proof.
  split; [vm_compute; reflexivity|].
  pose proof (store_put_atomic
    (fst (store_put empty_store (mkPageId "7" 0) [1; 2; 3] "u1" PutNoFault true))
    (mkPageId "7" 0) [4; 5; 6] "u2" (PutWritten 1) PutNoFault true (mkPageId "7" 0) 1 8 [1]
    ltac:(lia) ltac:(lia)) as [_ H].
  exact H.
Defined.

(** The identity sidecar round-trips: any length and modification time in
    [i64] written for a file is read back exactly, and other files' identities are
    not affected. *)
Theorem identity_roundtrip s f l t (Hl : is_i64 l) (Ht : is_i64 t) :
  read_identity (fst (write_identity s f l t true)) f true = Some (l, t) /\
  forall g ok, g <> f ->
    read_identity (fst (write_identity s f l t true)) g ok = read_identity s g ok.
Proof.
  unfold read_identity, write_identity. cbn. split.
  - rewrite lookup_insert_eq. cbn. by apply parse_format_identity.
  - intros g ok Hg. by rewrite lookup_insert_ne.
Qed.

Lemma identity_roundtrip_witness :
  read_identity (fst (write_identity empty_store "7" 4096 (-17) true)) "7" true
    = Some (4096, -17).
Proof.
  apply (identity_roundtrip empty_store "7" 4096 (-17)); unfold is_i64; lia.
Defined.
