(* ===== verification/Uring.v ===== *)
(** * io_uring driver (src/src/cache/store/uring/driver.rs, requests.rs, future.rs)

    One driver thread with its ring: requests arrive over a bounded channel, become entries
    of the submission queue, are carried out by the kernel, and come back over the
    completion queue; short reads and writes are pushed again for their rest.  The futures
    poll the request states.  The kernel is an argument: the relation [answers] states what
    its documentation says of a completed entry.

    A file descriptor stands for the open file behind it.  Pages are read from descriptors
    whose contents do not change and written to descriptors of fresh temporary files. *)

From S2P Require Import Prelude PageCache.

(** ** Requests *)

Inductive UringOpType : Type := OpRead | OpWrite | OpOpenAt | OpClose | OpUnlinkAt.

#[global] Instance UringOpType_eq_dec : EqDecision UringOpType.
Proof. solve_decision. Defined.

(** [io::Error] by its [raw_os_error]; an error without one is made by the driver. *)
Inductive IoError : Type :=
| OsError (errno : Z)
| DriverError (what : string).

Definition raw_os_error (e : IoError) : option Z :=
  match e with OsError errno => Some errno | DriverError _ => None end.

(** [rq_given] is the buffer as the submitter filled it. *)
Record IoRequest : Type := mkIoRequest {
  rq_fd : Z;
  rq_offset : Z;
  rq_length : Z;
  rq_op : UringOpType;
  rq_given : bytes;
}.

Record RequestState : Type := mkRequestState {
  rs_completed : bool;
  rs_consumed : bool;
  rs_waker : bool;
  rs_err : option IoError;
  rs_buffer : bytes;
  rs_transferred : Z;
  rs_code : Z;
}.

Definition fresh_state (buffer : bytes) : RequestState := mkRequestState false false false None buffer 0 0.

(** [IoRequest::fail]. *)
Definition fail (e : IoError) (s : RequestState) : RequestState :=
  mkRequestState true (rs_consumed s) false (Some e) (rs_buffer s) (rs_transferred s) (rs_code s).

(** ** The future *)

Definition FALLBACK_ERRNO : Z := 5.
Definition CONSUMED_ERRNO : Z := 5.

(** [UringOpFuture::poll]: [None] is [Pending]. *)
Definition poll (s : RequestState) : RequestState * option (Z * bytes) :=
  if rs_completed s then
    if rs_consumed s then (s, Some (- CONSUMED_ERRNO, []))
    else
      match rs_err s with
      | Some e =>
          (mkRequestState true true (rs_waker s) None (rs_buffer s) (rs_transferred s) (rs_code s),
           Some (- Z.abs (default FALLBACK_ERRNO (raw_os_error e)), []))
      | None =>
          (mkRequestState true true (rs_waker s) None [] (rs_transferred s) (rs_code s),
           Some (rs_code s, rs_buffer s))
      end
  else
    (mkRequestState false (rs_consumed s) true (rs_err s) (rs_buffer s) (rs_transferred s) (rs_code s), None).

(** ** Completions *)

Definition buffer_usable_for_transfer (transferred total buffer_len : Z) : bool :=
  (transferred <? total) && (total <=? buffer_len).

Definition completed_with (s : RequestState) (buffer : bytes) (transferred code : Z) : RequestState :=
  mkRequestState true (rs_consumed s) false (rs_err s) buffer transferred code.

(** What one result does to its request; [true] asks for a resubmission. *)
Definition complete (q : IoRequest) (res : Z) (s : RequestState) : RequestState * bool :=
  if res <? 0 then
    (mkRequestState true (rs_consumed s) false (Some (OsError (- res))) (rs_buffer s) (rs_transferred s) (rs_code s),
     false)
  else
    let advanced := rs_transferred s + res in
    let again := mkRequestState (rs_completed s) (rs_consumed s) (rs_waker s) (rs_err s) (rs_buffer s) advanced (rs_code s) in
    match rq_op q with
    | OpRead =>
        if res =? 0 then
          (completed_with s (slice 0 (rs_transferred s) (rs_buffer s)) (rs_transferred s) (as_i32 (rs_transferred s)), false)
        else if rq_length q <=? advanced then
          (completed_with s (slice 0 advanced (rs_buffer s)) advanced (as_i32 advanced), false)
        else (again, true)
    | OpWrite =>
        if rq_length q <=? advanced then (completed_with s (rs_buffer s) advanced 0, false) else (again, true)
    | OpOpenAt => (completed_with s (rs_buffer s) (rs_transferred s) res, false)
    | OpClose | OpUnlinkAt => (completed_with s (rs_buffer s) (rs_transferred s) 0, false)
    end.

(** ** The driver *)

(** An entry: its buffer is that of request [sqe_request] from [sqe_at] on. *)
Record Sqe : Type := mkSqe {
  sqe_user_data : Z;
  sqe_request : nat;
  sqe_op : UringOpType;
  sqe_fd : Z;
  sqe_at : Z;
  sqe_offset : Z;
  sqe_len : Z;
}.

(** The channel, the queues, what the kernel works on, and the map from [user_data] to
    requests.  [dr_files] are the files being written, by descriptor. *)
Record Driver : Type := mkDriver {
  dr_requests : gmap nat (IoRequest * RequestState);
  dr_channel : list nat;
  dr_pending : gmap Z nat;
  dr_sq : list Sqe;
  dr_kernel : list Sqe;
  dr_cq : list (Z * Z);
  dr_counter : Z;
  dr_files : gmap Z bytes;
}.

Definition set_request (r : nat) (q : IoRequest) (s : RequestState) (d : Driver) : Driver :=
  let 'mkDriver rs ch p sq k cq c fs := d in mkDriver (<[r := (q, s)]> rs) ch p sq k cq c fs.

Definition set_channel (ch : list nat) (d : Driver) : Driver :=
  let 'mkDriver rs _ p sq k cq c fs := d in mkDriver rs ch p sq k cq c fs.

Definition take_cqe (ud : Z) (cq : list (Z * Z)) (d : Driver) : Driver :=
  let 'mkDriver rs ch p sq k _ c fs := d in mkDriver rs ch (delete ud p) sq k cq c fs.

Definition take_user_data (d : Driver) : Driver :=
  let 'mkDriver rs ch p sq k cq c fs := d in mkDriver rs ch p sq k cq (c + 1) fs.

Definition queue_sqe (s : Sqe) (d : Driver) : Driver :=
  let 'mkDriver rs ch p sq k cq c fs := d in
  mkDriver rs ch (<[sqe_user_data s := sqe_request s]> p) (sq ++ [s]) k cq c fs.

Definition submit_queue (d : Driver) : Driver :=
  let 'mkDriver rs ch p sq k cq c fs := d in mkDriver rs ch p [] (k ++ sq) cq c fs.

Definition DEFAULT_SUBMIT_BATCH_SIZE : nat := 128.

Section Driver.
(** The channel and the submission queue are this deep. *)
Context (queue_depth : nat).

(** [process_completions] over the completion queue: the requests to push again. *)
Fixpoint process_completions (cq : list (Z * Z)) (d : Driver) (retries : list nat) : Driver * list nat :=
  match cq with
  | [] => (d, retries)
  | (ud, res) :: cq =>
      match dr_pending d !! ud with
      | None => process_completions cq (take_cqe ud cq d) retries
      | Some r =>
          let d := take_cqe ud cq d in
          match dr_requests d !! r with
          | None => process_completions cq d retries
          | Some (q, s) =>
              let '(s, again) := complete q res s in
              process_completions cq (set_request r q s d) (if again then retries ++ [r] else retries)
          end
      end
  end.

(** The entry of a request; none when its buffer cannot take the rest of the transfer. *)
Definition build_sqe (ud : Z) (r : nat) (q : IoRequest) (s : RequestState) : option Sqe :=
  match rq_op q with
  | OpRead | OpWrite =>
      if buffer_usable_for_transfer (rs_transferred s) (rq_length q) (zlen (rs_buffer s))
      then Some (mkSqe ud r (rq_op q) (rq_fd q) (rs_transferred s) (rq_offset q + rs_transferred s)
                   (as_u32 (rq_length q - rs_transferred s)))
      else None
  | OpOpenAt | OpClose | OpUnlinkAt => Some (mkSqe ud r (rq_op q) (rq_fd q) 0 0 0)
  end.

Definition push_to_sq (r : nat) (d : Driver) : Driver * bool :=
  let ud := dr_counter d in
  let d := take_user_data d in
  match dr_requests d !! r with
  | None => (d, false)
  | Some (q, s) =>
      match build_sqe ud r q s with
      | None => (set_request r q (fail (DriverError "buffer no longer valid for retry") s) d, false)
      | Some sqe =>
          if (queue_depth <=? length (dr_sq d))%nat
          then (set_request r q (fail (DriverError "io_uring submission queue full") s) d, false)
          else (queue_sqe sqe d, true)
      end
  end.

(** The retries of a turn: whether any was pushed. *)
Fixpoint push_all (rs : list nat) (d : Driver) (pushed : bool) : Driver * bool :=
  match rs with
  | [] => (d, pushed)
  | r :: rs => let '(d, ok) := push_to_sq r d in push_all rs d (pushed || ok)
  end.

(** Receiving until the channel is empty or the batch is full. *)
Fixpoint receive (ch : list nat) (batch : nat) (d : Driver) : Driver * nat :=
  match ch with
  | [] => (d, batch)
  | r :: ch =>
      let '(d, ok) := push_to_sq r (set_channel ch d) in
      let batch := if ok then S batch else batch in
      if (DEFAULT_SUBMIT_BATCH_SIZE <=? batch)%nat then (d, batch) else receive ch batch d
  end.

(** One turn of [run_uring_thread]; [submitted]: [ring.submit()] succeeds. *)
Definition turn (submitted : bool) (d : Driver) : Driver :=
  let '(d, retries) := process_completions (dr_cq d) d [] in
  let '(d, needs_submit) := push_all retries d false in
  let '(d, batch) := receive (dr_channel d) 0 d in
  if ((0 <? batch)%nat || needs_submit) && submitted then submit_queue d else d.

(** [submit_request] of a new request [r]. *)
Definition submit_request (r : nat) (q : IoRequest) (d : Driver) : Driver :=
  let s := fresh_state (rq_given q) in
  if (queue_depth <=? length (dr_channel d))%nat
  then set_request r q (fail (DriverError "io_uring submission channel full") s) d
  else set_channel (dr_channel d ++ [r]) (set_request r q s d).

(** A poll of the future of [r]. *)
Definition poll_request (r : nat) (d : Driver) : Driver * option (Z * bytes) :=
  match dr_requests d !! r with
  | None => (d, None)
  | Some (q, s) => let '(s, out) := poll s in (set_request r q s d, out)
  end.
End Driver.

(** ** The kernel *)

(** The bytes of [l] from [at_] on replaced by [data], which may extend it. *)
Definition write_at (l : bytes) (at_ : Z) (data : bytes) : bytes :=
  slice 0 at_ l ++ data ++ slice (at_ + zlen data) (zlen l) l.

Section Kernel.
(** What a descriptor opened for reading shows. *)
Context (content : Z -> bytes).

(** What is documented of a result, and what it does to the buffer and to the file: a read
    moves some bytes of the file, none only at its end; a write takes some of the buffer. *)
Inductive answers (s : Sqe) (buffer : bytes) (file : option bytes) : Z -> bytes -> option bytes -> Prop :=
| AnswerError errno : 0 < errno -> answers s buffer file (- errno) buffer file
| AnswerRead n :
    sqe_op s = OpRead -> 0 <= n <= sqe_len s -> n <= Z.max 0 (zlen (content (sqe_fd s)) - sqe_offset s) ->
    (n = 0 -> sqe_len s = 0 \/ zlen (content (sqe_fd s)) <= sqe_offset s) ->
    answers s buffer file n
      (write_at buffer (sqe_at s) (slice (sqe_offset s) (sqe_offset s + n) (content (sqe_fd s)))) file
| AnswerWrite n old :
    sqe_op s = OpWrite -> 0 < n <= sqe_len s -> file = Some old ->
    answers s buffer file n buffer
      (Some (write_at old (sqe_offset s) (slice (sqe_at s) (sqe_at s + n) buffer)))
| AnswerOpen fd : sqe_op s = OpOpenAt -> 2 < fd -> answers s buffer file fd buffer file
| AnswerDone : sqe_op s = OpClose \/ sqe_op s = OpUnlinkAt -> answers s buffer file 0 buffer file.

(** The kernel finishes one entry, in any order. *)
Definition finish (s : Sqe) (res : Z) (buffer : bytes) (file : option bytes) (before after : list Sqe)
    (q : IoRequest) (st : RequestState) (d : Driver) : Driver :=
  let st := mkRequestState (rs_completed st) (rs_consumed st) (rs_waker st) (rs_err st) buffer (rs_transferred st)
              (rs_code st) in
  mkDriver (<[sqe_request s := (q, st)]> (dr_requests d)) (dr_channel d) (dr_pending d) (dr_sq d) (before ++ after)
    (dr_cq d ++ [(sqe_user_data s, res)]) (dr_counter d)
    (match file with Some f => <[sqe_fd s := f]> (dr_files d) | None => dr_files d end).

(** A request as the store makes them. *)
Definition request_ok (q : IoRequest) : Prop :=
  match rq_op q with
  | OpRead => 0 <= rq_offset q /\ 0 < rq_length q < 2147483648 /\ zlen (rq_given q) = rq_length q
  | OpWrite => rq_offset q = 0 /\ 0 < rq_length q < 2147483648 /\ zlen (rq_given q) = rq_length q
  | _ => True
  end.

(** A write goes to a file that was just created. *)
Definition create_file (q : IoRequest) (d : Driver) : Driver :=
  let 'mkDriver rs ch p sq k cq c fs := d in
  mkDriver rs ch p sq k cq c (match rq_op q with OpWrite => <[rq_fd q := []]> fs | _ => fs end).

Definition file_is_new (q : IoRequest) (d : Driver) : Prop :=
  rq_op q = OpWrite -> dr_files d !! rq_fd q = None.

Inductive driver_step (queue_depth : nat) (d : Driver) : Driver -> Prop :=
| StepSubmit r q :
    dr_requests d !! r = None -> request_ok q -> file_is_new q d ->
    driver_step queue_depth d (submit_request queue_depth r q (create_file q d))
| StepPoll r : driver_step queue_depth d (fst (poll_request r d))
| StepKernel before s after q st res buffer file :
    dr_kernel d = before ++ s :: after -> dr_requests d !! sqe_request s = Some (q, st) ->
    answers s (rs_buffer st) (dr_files d !! sqe_fd s) res buffer file ->
    driver_step queue_depth d (finish s res buffer file before after q st d)
| StepTurn submitted : driver_step queue_depth d (turn queue_depth submitted d).
End Kernel.

Definition empty_driver : Driver := mkDriver ∅ [] ∅ [] [] [] 1 ∅.

(** ** Invariant *)

(** The kernel and the queues own a [user_data]. *)
Definition rings (d : Driver) : list Z :=
  map sqe_user_data (dr_sq d) ++ map sqe_user_data (dr_kernel d) ++ map fst (dr_cq d).

(** The driver still has to answer [r]: it is in [hands], in the channel or in the ring. *)
Definition holds (hands : list nat) (d : Driver) (r : nat) : Prop :=
  r ∈ hands ++ dr_channel d \/ exists ud, dr_pending d !! ud = Some r.

Section Invariant.
Context (content : Z -> bytes).

(** So many bytes of the transfer are in the buffer, or in the file. *)
Definition moved (files : gmap Z bytes) (q : IoRequest) (s : RequestState) (t : Z) : Prop :=
  match rq_op q with
  | OpRead => zlen (rs_buffer s) = rq_length q /\ 0 <= t <= rq_length q /\
      t <= Z.max 0 (zlen (content (rq_fd q)) - rq_offset q) /\
      slice 0 t (rs_buffer s) = slice (rq_offset q) (rq_offset q + t) (content (rq_fd q))
  | OpWrite => rs_buffer s = rq_given q /\ 0 <= t <= rq_length q /\
      files !! rq_fd q = Some (slice 0 t (rq_given q))
  | _ => True
  end.

(** Before the kernel answers. *)
Definition settled (files : gmap Z bytes) (q : IoRequest) (s : RequestState) : Prop :=
  moved files q s (rs_transferred s) /\
  match rq_op q with OpRead | OpWrite => rs_transferred s < rq_length q | _ => rs_transferred s = 0 end.

(** With a result that the driver has not looked at. *)
Definition answered (files : gmap Z bytes) (q : IoRequest) (s : RequestState) (res : Z) : Prop :=
  res < 0 \/
  moved files q s (rs_transferred s + res) /\
  match rq_op q with
  | OpRead => 0 <= rs_transferred s /\ 0 <= res /\
      (res = 0 -> zlen (content (rq_fd q)) <= rq_offset q + rs_transferred s)
  | OpWrite => 0 < res /\ 0 <= rs_transferred s
  | OpOpenAt => 2 < res
  | _ => res = 0
  end.

(** The answer of a request as its future sees it. *)
Definition outcome_ok (files : gmap Z bytes) (q : IoRequest) (code : Z) (b : bytes) : Prop :=
  code < 0 \/
  match rq_op q with
  | OpRead => b = slice (rq_offset q) (rq_offset q + rq_length q) (content (rq_fd q)) /\ code = zlen b
  | OpWrite => files !! rq_fd q = Some (rq_given q) /\ code = 0
  | OpOpenAt => 2 < code
  | _ => code = 0
  end.

(** A completed request: an error with a usable number, or the outcome. *)
Definition delivered (files : gmap Z bytes) (q : IoRequest) (s : RequestState) : Prop :=
  match rs_err s with
  | Some e => from_option (fun errno => 0 < errno) True (raw_os_error e)
  | None => rs_consumed s = false -> outcome_ok files q (rs_code s) (rs_buffer s)
  end.

Definition request_inv (d : Driver) (r : nat) (q : IoRequest) (s : RequestState) : Prop :=
  request_ok q /\ (rq_op q = OpWrite -> is_Some (dr_files d !! rq_fd q)) /\
  if rs_completed s then delivered (dr_files d) q s
  else rs_err s = None /\ rs_consumed s = false /\
    (forall ud res, dr_pending d !! ud = Some r -> (ud, res) ∈ dr_cq d -> answered (dr_files d) q s res) /\
    ((forall ud res, dr_pending d !! ud = Some r -> (ud, res) ∉ dr_cq d) -> settled (dr_files d) q s).

(** [loose]: a request whose state is being changed. *)
Record Inv (loose : option nat) (hands : list nat) (d : Driver) : Prop := {
  inv_uds : NoDup (rings d);
  inv_pending : forall ud, ud ∈ rings d <-> is_Some (dr_pending d !! ud);
  inv_counter : forall ud, is_Some (dr_pending d !! ud) -> ud < dr_counter d;
  inv_inj : forall u v r, dr_pending d !! u = Some r -> dr_pending d !! v = Some r -> u = v;
  inv_held : NoDup (hands ++ dr_channel d);
  inv_apart : forall r u, r ∈ hands ++ dr_channel d -> dr_pending d !! u <> Some r;
  inv_open : forall r, holds hands d r <->
    exists q s, dr_requests d !! r = Some (q, s) /\ rs_completed s = false;
  inv_requests : forall r q s, dr_requests d !! r = Some (q, s) -> loose <> Some r -> request_inv d r q s;
  inv_sqes : forall s, s ∈ dr_sq d ++ dr_kernel d ->
    dr_pending d !! sqe_user_data s = Some (sqe_request s) /\
    forall q st, dr_requests d !! sqe_request s = Some (q, st) ->
      build_sqe (sqe_user_data s) (sqe_request s) q st = Some s;
  inv_files : forall r r' q q' s s', dr_requests d !! r = Some (q, s) -> dr_requests d !! r' = Some (q', s') ->
    rq_op q = OpWrite -> rq_op q' = OpWrite -> rq_fd q = rq_fd q' -> r = r';
}.

Lemma inv_empty : Inv None [] empty_driver.
Proof.
  constructor; unfold rings, holds; cbn; try (intros *; rewrite ?lookup_empty; done); try constructor.
  - intros H. by apply elem_of_nil in H.
  - intros [? H]. by rewrite lookup_empty in H.
  - intros [H|[u H]]; [by apply elem_of_nil in H|]. by rewrite lookup_empty in H.
  - intros (q & s & H & _). by rewrite lookup_empty in H.
  - by apply elem_of_nil in H.
  - by apply elem_of_nil in H.
Qed.

Lemma inv_hands_perm loose hands hands' d : hands ≡ₚ hands' -> Inv loose hands d -> Inv loose hands' d.
Proof.
  intros Hp [H1 H2 H3 H4 H5 H6 H7 H8 H9 H10]. constructor; try done.
  - by rewrite <- Hp.
  - intros r u. rewrite <- Hp. apply H6.
  - intros r. rewrite <- H7. unfold holds. by rewrite Hp.
Qed.

(** A request in nobody's queue but in the driver's hands. *)
Lemma in_hands_free loose r hands d u : Inv loose (r :: hands) d -> dr_pending d !! u <> Some r.
Proof. intros H. apply (inv_apart _ _ _ H). left. Qed.

Lemma in_hands_open loose r hands d :
  Inv loose (r :: hands) d -> exists q s, dr_requests d !! r = Some (q, s) /\ rs_completed s = false.
Proof. intros H. apply (inv_open _ _ _ H). left. left. Qed.

Lemma request_inv_set d r q s r' q' s' :
  request_inv d r q s -> request_inv (set_request r' q' s' d) r q s.
Proof. by destruct d. Qed.

(** Changing the state of a request changes no request. *)
Lemma insert_state (rs : gmap nat (IoRequest * RequestState)) r q s s' z qz sz :
  rs !! r = Some (q, s) -> <[r := (q, s')]> rs !! z = Some (qz, sz) -> exists sz', rs !! z = Some (qz, sz').
Proof.
  intros Hr. destruct (decide (z = r)) as [->|Hne].
  - rewrite lookup_insert_eq. intros [= <- _]. eauto.
  - rewrite lookup_insert_ne by done. eauto.
Qed.

(** The state of a request in the driver's hands is changed, the request stays open. *)
Lemma inv_set_open r hands d q s s' :
  Inv (Some r) (r :: hands) d -> dr_requests d !! r = Some (q, s) ->
  request_ok q -> (rq_op q = OpWrite -> is_Some (dr_files d !! rq_fd q)) ->
  rs_completed s' = false -> rs_err s' = None -> rs_consumed s' = false -> settled (dr_files d) q s' ->
  Inv None (r :: hands) (set_request r q s' d).
Proof.
  intros HI Hr Hok Hw Hc He Hco Hs. pose proof (fun u => in_hands_free _ _ _ _ u HI) as Hfree.
  destruct HI as [H1 H2 H3 H4 H5 H6 H7 H8 H9 H10]. destruct d as [rs ch p sq k cq c fs]. cbn in *.
  constructor; cbn; try done.
  - intros x. change (holds (r :: hands) (mkDriver (<[r:=(q, s')]> rs) ch p sq k cq c fs) x)
      with (holds (r :: hands) (mkDriver rs ch p sq k cq c fs) x). rewrite H7.
    destruct (decide (x = r)) as [->|Hne].
    + rewrite lookup_insert_eq. split; intros _; [by eauto|]. destruct (proj1 (H7 r)) as (q0 & s0 & ? & ?);
        [left; left|eauto].
    + by rewrite lookup_insert_ne.
  - intros x q0 s0 Hx _. destruct (decide (x = r)) as [->|Hne].
    + rewrite lookup_insert_eq in Hx. injection Hx as <- <-. unfold request_inv. cbn. rewrite Hc.
      split; [done|]. split; [done|]. split; [done|]. split; [done|]. split; [|done].
      intros ud res Hp. by apply Hfree in Hp.
    + rewrite lookup_insert_ne in Hx by done. apply (H8 x q0 s0 Hx). congruence.
  - intros e He'. destruct (H9 e He') as [Hp Hb]. split; [done|]. intros q0 s0 Hx.
    destruct (decide (sqe_request e = r)) as [Heq|Hne].
    + rewrite Heq in Hp. by apply Hfree in Hp.
    + rewrite lookup_insert_ne in Hx by done. by apply Hb.
  - intros x y qx qy sx sy Hx Hy. destruct (insert_state _ _ _ _ _ _ _ _ Hr Hx) as [? Hx'].
    destruct (insert_state _ _ _ _ _ _ _ _ Hr Hy) as [? Hy']. by eapply H10.
Qed.

(** The request is answered and leaves the driver's hands. *)
Lemma inv_set_done r hands d q s s' :
  Inv (Some r) (r :: hands) d -> dr_requests d !! r = Some (q, s) ->
  request_ok q -> (rq_op q = OpWrite -> is_Some (dr_files d !! rq_fd q)) ->
  rs_completed s' = true -> delivered (dr_files d) q s' -> Inv None hands (set_request r q s' d).
Proof.
  intros HI Hr Hok Hw Hc Hd. pose proof (fun u => in_hands_free _ _ _ _ u HI) as Hfree.
  destruct HI as [H1 H2 H3 H4 H5 H6 H7 H8 H9 H10]. destruct d as [rs ch p sq k cq c fs]. cbn in *.
  apply NoDup_cons in H5 as [Hnin H5].
  constructor; cbn; try done.
  - intros x u Hx. apply H6. by right.
  - intros x. specialize (H7 x). unfold holds in *. cbn in *. destruct (decide (x = r)) as [->|Hne].
    + rewrite lookup_insert_eq. split; [intros [?|[u Hu]]; [done|by apply Hfree in Hu]|].
      intros (q0 & s0 & [= <- <-] & ?). congruence.
    + rewrite lookup_insert_ne by done. rewrite <- H7, elem_of_cons. tauto.
  - intros x q0 s0 Hx _. destruct (decide (x = r)) as [->|Hne].
    + rewrite lookup_insert_eq in Hx. injection Hx as <- <-. unfold request_inv. cbn. by rewrite Hc.
    + rewrite lookup_insert_ne in Hx by done. apply (H8 x q0 s0 Hx). congruence.
  - intros e He'. destruct (H9 e He') as [Hp Hb]. split; [done|]. intros q0 s0 Hx.
    destruct (decide (sqe_request e = r)) as [Heq|Hne].
    + rewrite Heq in Hp. by apply Hfree in Hp.
    + rewrite lookup_insert_ne in Hx by done. by apply Hb.
  - intros x y qx qy sx sy Hx Hy. destruct (insert_state _ _ _ _ _ _ _ _ Hr Hx) as [? Hx'].
    destruct (insert_state _ _ _ _ _ _ _ _ Hr Hy) as [? Hy']. by eapply H10.
Qed.

Lemma inv_loosen r hands d : Inv None hands d -> Inv (Some r) hands d.
Proof. intros [H1 H2 H3 H4 H5 H6 H7 H8 H9 H10]. constructor; try done. intros x q s Hx _. by apply H8. Qed.

(** *** Completions *)

(** A completion is taken from the queue: its request is in the driver's hands. *)
Lemma inv_take_cqe hands d ud res cq :
  Inv None hands d -> dr_cq d = (ud, res) :: cq ->
  exists r q s, dr_pending d !! ud = Some r /\ dr_requests d !! r = Some (q, s) /\
    request_ok q /\ (rq_op q = OpWrite -> is_Some (dr_files d !! rq_fd q)) /\
    rs_completed s = false /\ rs_err s = None /\ rs_consumed s = false /\ answered (dr_files d) q s res /\
    Inv (Some r) (r :: hands) (take_cqe ud cq d).
Proof.
  intros HI Hcq. destruct HI as [H1 H2 H3 H4 H5 H6 H7 H8 H9 H10].
  destruct d as [rs ch p sq k cq0 c fs]. cbn in *. subst cq0. unfold rings in *. cbn in *.
  assert (Hin : ud ∈ map sqe_user_data sq ++ map sqe_user_data k ++ ud :: map fst cq)
    by (rewrite !elem_of_app, elem_of_cons; tauto).
  destruct (proj1 (H2 ud) Hin) as [r Hr].
  destruct (proj1 (H7 r)) as (q & s & Hq & Hopen); [right; eauto|].
  destruct (H8 r q s Hq ltac:(done)) as (Hok & Hw & Hinv). rewrite Hopen in Hinv. cbn in Hinv.
  destruct Hinv as (He & Hco & Hans & _). exists r, q, s.
  assert (Hans' : answered fs q s res) by (apply (Hans ud); [done|left]).
  assert (Hperm : map sqe_user_data sq ++ map sqe_user_data k ++ ud :: map fst cq ≡ₚ
                  ud :: map sqe_user_data sq ++ map sqe_user_data k ++ map fst cq)
    by (rewrite (app_assoc _ _ (ud :: _)), <- Permutation_middle, app_assoc; done).
  rewrite Hperm in H1. apply NoDup_cons in H1 as [Hnin H1].
  repeat (split; [done|]). constructor; cbn; unfold rings, holds; cbn.
  - done.
  - intros u. rewrite lookup_delete_is_Some, <- H2, Hperm, elem_of_cons. split; [|naive_solver].
    intros Hu. split; [congruence|tauto].
  - intros u [_ Hu]%lookup_delete_is_Some. by apply H3.
  - intros u v x [_ Hu]%lookup_delete_Some [_ Hv]%lookup_delete_Some. by eapply H4.
  - apply NoDup_cons. split; [|done]. intros Hx. by apply (H6 r ud Hx).
  - intros x u Hx [Hne Hu]%lookup_delete_Some. apply elem_of_cons in Hx as [->|Hx]; [|by apply (H6 x u)].
    apply Hne. by eapply H4.
  - intros x. rewrite <- H7. unfold holds. cbn. rewrite elem_of_cons. split.
    + intros [[->|Hx]|[u Hu%lookup_delete_Some]]; [right; eauto|by left|right; naive_solver].
    + intros [Hx|[u Hu]]; [tauto|]. destruct (decide (u = ud)) as [->|Hne]; [left; left; congruence|].
      right. exists u. by rewrite lookup_delete_ne.
  - intros x q0 s0 Hx Hloose. destruct (H8 x q0 s0 Hx ltac:(done)) as (Hok0 & Hw0 & Hinv0).
    split; [done|]. split; [done|]. cbn in *. destruct (rs_completed s0); [done|].
    destruct Hinv0 as (He0 & Hc0 & Ha0 & Hs0). split; [done|]. split; [done|]. split.
    + intros u res0 [_ Hu]%lookup_delete_Some Hin0. apply (Ha0 u); [done|by right].
    + intros Hnone. apply Hs0. intros u res0 Hu Hin0. apply elem_of_cons in Hin0 as [[= -> ->]|Hin0]; [congruence|].
      apply (Hnone u res0); [|done]. rewrite lookup_delete_ne; [done|]. intros <-. congruence.
  - intros e He0. destruct (H9 e He0) as [Hp Hb]. split; [|done]. rewrite lookup_delete_ne; [done|]. intros ->.
    apply Hnin. rewrite !elem_of_app. apply elem_of_app in He0.
    destruct He0 as [Hx|Hx]; [left|right; left]; by apply list_elem_of_fmap_2.
  - done.
Qed.

Lemma as_i32_small t : 0 <= t < 2147483648 -> as_i32 t = t.
Proof. intros Ht. unfold as_i32, u32_mod. rewrite Z.mod_small by lia. lia. Qed.

Lemma zlen_read off t (l : bytes) : 0 <= off -> 0 <= t <= Z.max 0 (zlen l - off) -> zlen (slice off (off + t) l) = t.
Proof. intros Ho Ht. unfold slice, zlen in *. rewrite length_take, length_drop. lia. Qed.

Lemma slice_to_end off t n (l : bytes) :
  0 <= off -> 0 <= t <= n -> zlen l <= off + t -> slice off (off + t) l = slice off (off + n) l.
Proof.
  intros Ho Ht Hl. by rewrite (slice_clamp off (off + t)), (slice_clamp off (off + n)) by lia.
Qed.

Lemma complete_spec files q res s :
  request_ok q -> rs_completed s = false -> rs_err s = None -> rs_consumed s = false -> answered files q s res ->
  let '(s', again) := complete q res s in
  if again then rs_completed s' = false /\ rs_err s' = None /\ rs_consumed s' = false /\ settled files q s'
  else rs_completed s' = true /\ delivered files q s'.
Proof.
  intros Hok Hc He Hco Hans. unfold complete. destruct (Z.ltb_spec res 0) as [Hneg|Hpos].
  { split; [done|]. cbn. lia. }
  destruct Hans as [?|[Hm Hans]]; [lia|]. unfold moved, request_ok in *. destruct (rq_op q) eqn:Hop; cbn.
  - destruct Hm as (Hlen & Ht & Havail & Hsl), Hans as (Ht0 & _ & Heof), Hok as (Ho & Hl & _).
    destruct (Z.eqb_spec res 0) as [->|Hne]; [|destruct (Z.leb_spec (rq_length q) (rs_transferred s + res))]; cbn.
    + rewrite Z.add_0_r in *. split; [done|]. unfold delivered, completed_with. cbn. rewrite He. intros _. right.
      rewrite Hop, Hsl. rewrite <- (slice_to_end (rq_offset q) (rs_transferred s) (rq_length q)) by (auto; lia).
      split; [done|]. rewrite zlen_read by lia. apply as_i32_small. lia.
    + replace (rs_transferred s + res) with (rq_length q) in * by lia. split; [done|]. unfold delivered, completed_with.
      cbn. rewrite He. intros _. right. rewrite Hop, Hsl. split; [done|]. rewrite zlen_read by lia. apply as_i32_small. lia.
    + repeat (split; [done|]). unfold settled, moved. rewrite Hop. cbn. repeat split; try done; lia.
  - destruct Hm as (Hb & Ht & Hf), Hok as (_ & Hl & Hg).
    destruct (Z.leb_spec (rq_length q) (rs_transferred s + res)); cbn.
    + split; [done|]. unfold delivered, completed_with. cbn. rewrite He. intros _. right. rewrite Hop. split; [|done].
      rewrite Hf. replace (rs_transferred s + res) with (zlen (rq_given q)) by lia. by rewrite slice_all.
    + repeat (split; [done|]). unfold settled, moved. rewrite Hop. cbn. repeat split; try done; lia.
  - split; [done|]. unfold delivered, completed_with. cbn. rewrite He. intros _. right. by rewrite Hop.
  - split; [done|]. unfold delivered, completed_with. cbn. rewrite He. intros _. right. by rewrite Hop.
  - split; [done|]. unfold delivered, completed_with. cbn. rewrite He. intros _. right. by rewrite Hop.
Qed.

Lemma complete_again q res s files :
  answered files q s res -> snd (complete q res s) = true -> 0 < res.
Proof.
  unfold complete, answered. intros Hans. destruct (Z.ltb_spec res 0); [done|]. destruct Hans as [?|[_ Hans]]; [lia|].
  destruct (rq_op q); try done.
  - destruct (Z.eqb_spec res 0); [done|]. intros _. lia.
  - intros _. lia.
Qed.

(** The head of the completion queue. *)
Lemma reap_head hands retries d ud res cq :
  Inv None (retries ++ hands) d -> dr_cq d = (ud, res) :: cq ->
  exists r q s, dr_pending d !! ud = Some r /\ dr_requests d !! r = Some (q, s) /\
    (snd (complete q res s) = true -> 0 < res) /\
    let d' := set_request r q (fst (complete q res s)) (take_cqe ud cq d) in
    let retries' := if snd (complete q res s) then retries ++ [r] else retries in
    process_completions ((ud, res) :: cq) d retries = process_completions cq d' retries' /\
    Inv None (retries' ++ hands) d' /\ dr_cq d' = cq.
Proof.
  intros HI Hcq.
  destruct (inv_take_cqe _ d ud res cq HI Hcq) as (r & q & s & Hp & Hq & Hok & Hw & Hc & He & Hco & Hans & HI').
  exists r, q, s. split; [done|]. split; [done|]. split; [by eapply complete_again|]. cbn [process_completions]. rewrite Hp.
  assert (dr_requests (take_cqe ud cq d) = dr_requests d /\ dr_files (take_cqe ud cq d) = dr_files d)
    as [Hrs Hfs] by by destruct d. rewrite Hrs, Hq.
  pose proof (complete_spec _ q res s Hok Hc He Hco Hans) as Hsp. destruct (complete q res s) as [s' again]. cbn [fst snd].
  split; [done|]. split; [|by destruct d]. rewrite <- Hfs in Hw, Hsp. rewrite <- Hrs in Hq. destruct again.
  - destruct Hsp as (Hc' & He' & Hco' & Hs'). eapply inv_hands_perm; [|by eapply (inv_set_open r)].
    rewrite <- app_assoc. apply Permutation_middle.
  - destruct Hsp as [Hc' Hd']. by eapply inv_set_done.
Qed.

Lemma process_completions_inv cq d hands retries :
  dr_cq d = cq -> Inv None (retries ++ hands) d ->
  let '(d', retries') := process_completions cq d retries in
  Inv None (retries' ++ hands) d' /\ dr_cq d' = [].
Proof.
  revert d retries. induction cq as [|[ud res] cq IH]; intros d retries Hcq HI; [done|].
  destruct (reap_head hands retries d ud res cq HI Hcq) as (r & q & s & _ & _ & _ & -> & HI' & Hcq'). by apply IH.
Qed.

(** *** Pushing *)

Lemma build_sqe_fields ud r q s e : build_sqe ud r q s = Some e -> sqe_user_data e = ud /\ sqe_request e = r.
Proof. unfold build_sqe. destruct (rq_op q); try (destruct (buffer_usable_for_transfer _ _ _)); by intros [= <-]. Qed.

Lemma inv_take_user_data hands d : Inv None hands d -> Inv None hands (take_user_data d).
Proof.
  intros [H1 H2 H3 H4 H5 H6 H7 H8 H9 H10]. destruct d as [rs ch p sq k cq c fs]. cbn in *. constructor; cbn in *; try done.
  intros ud Hu. specialize (H3 ud Hu). lia.
Qed.

(** An entry with a fresh [user_data] is queued for a request in the driver's hands. *)
Lemma inv_queue hands d ud r q s e :
  Inv None (r :: hands) d -> dr_requests d !! r = Some (q, s) -> build_sqe ud r q s = Some e ->
  dr_pending d !! ud = None -> ud < dr_counter d -> Inv None hands (queue_sqe e d).
Proof.
  intros HI Hq Hb Hnone Hud. destruct (build_sqe_fields _ _ _ _ _ Hb) as [Hu Hr].
  pose proof (fun u => in_hands_free _ _ _ _ u HI) as Hfree. destruct HI as [H1 H2 H3 H4 H5 H6 H7 H8 H9 H10].
  destruct d as [rs ch p sq k cq c fs]. unfold rings, holds in *. cbn in *. apply NoDup_cons in H5 as [Hnin H5].
  assert (Hperm : map sqe_user_data (sq ++ [e]) ++ map sqe_user_data k ++ map fst cq ≡ₚ
                  ud :: map sqe_user_data sq ++ map sqe_user_data k ++ map fst cq).
  { rewrite map_app, <- app_assoc. cbn. rewrite Hu. by rewrite <- Permutation_middle. }
  constructor; unfold rings, holds; cbn; rewrite ?Hu, ?Hr.
  - rewrite Hperm. apply NoDup_cons. split; [|done]. rewrite H2, Hnone. by intros [? ?].
  - intros u. rewrite Hperm, elem_of_cons, H2, lookup_insert_is_Some. destruct (decide (u = ud)); naive_solver.
  - intros u [<-|[_ Hx]]%lookup_insert_is_Some; [done|by apply H3].
  - intros u v x [[<- <-]|[Hx1 Hx2]]%lookup_insert_Some [[<- ?]|[Hy1 Hy2]]%lookup_insert_Some.
    + done.
    + by apply Hfree in Hy2.
    + subst x. by apply Hfree in Hx2.
    + by eapply H4.
  - done.
  - intros x u Hx. rewrite lookup_insert_Some. intros [[<- <-]|[_ Hp]]; [done|]. apply (H6 x u); [by right|done].
  - intros x. rewrite <- H7, elem_of_cons. split.
    + intros [Hx|[u [[<- <-]|[_ Hp]]%lookup_insert_Some]]; [tauto|tauto|right; eauto].
    + intros [[->|Hx]|[u Hp]]; [right; exists ud; apply lookup_insert_eq|tauto|].
      right. exists u. rewrite lookup_insert_ne; [done|]. intros <-. congruence.
  - intros x q0 s0 Hx Hl. destruct (H8 x q0 s0 Hx Hl) as (Hok & Hw & Hinv). split; [done|]. split; [done|]. cbn in *.
    destruct (rs_completed s0); [done|]. destruct Hinv as (He & Hco & Ha & Hs). split; [done|]. split; [done|]. split.
    + intros u res Hp Hin. apply (Ha u); [|done]. apply lookup_insert_Some in Hp as [[<- <-]|[_ Hp]]; [|done].
      exfalso. assert (ud ∈ map sqe_user_data sq ++ map sqe_user_data k ++ map fst cq) as Hin'
        by (rewrite !elem_of_app; right; right; by apply (list_elem_of_fmap_2 fst _ (ud, res))).
      apply H2 in Hin' as [? ?]. congruence.
    + intros Hn. apply Hs. intros u res Hp. apply Hn. rewrite lookup_insert_ne; [done|]. intros <-. congruence.
  - intros x Hx. rewrite <- app_assoc, elem_of_app, elem_of_app, list_elem_of_singleton in Hx.
    assert (Hold : x ∈ sq ++ k \/ x = e) by (rewrite elem_of_app; tauto). clear Hx. destruct Hold as [Hx| ->].
    + destruct (H9 x Hx) as [Hp Hb']. split; [|done].
      rewrite lookup_insert_ne; [done|]. intros Heq. rewrite <- Heq in Hp. congruence.
    + rewrite Hu, Hr, lookup_insert_eq. split; [done|]. intros q0 s0 Hx'. congruence.
  - done.
Qed.

Lemma push_to_sq_inv depth hands d r : Inv None (r :: hands) d -> Inv None hands (fst (push_to_sq depth r d)).
Proof.
  intros HI. apply inv_take_user_data in HI as HI'. unfold push_to_sq.
  destruct (in_hands_open _ _ _ _ HI') as (q & s & Hq & Hopen). rewrite Hq.
  destruct (inv_requests _ _ _ HI' r q s Hq ltac:(done)) as (Hok & Hw & _).
  assert (Hfail : forall what, Inv None hands (set_request r q (fail (DriverError what) s) (take_user_data d))).
  { intros what. eapply inv_set_done; [by apply inv_loosen|done..]. }
  destruct (build_sqe (dr_counter d) r q s) as [e|] eqn:Hb; [|apply Hfail].
  destruct (_ <=? _)%nat; [apply Hfail|]. eapply inv_queue; [done|done|done| |].
  - destruct (dr_pending (take_user_data d) !! dr_counter d) as [x|] eqn:Hx; [|done]. exfalso.
    assert (dr_pending (take_user_data d) = dr_pending d) as Hp by by destruct d. rewrite Hp in Hx.
    pose proof (inv_counter _ _ _ HI (dr_counter d) (mk_is_Some _ _ Hx)). lia.
  - destruct d. cbn. lia.
Qed.

Lemma push_all_inv depth rs hands d pushed :
  Inv None (rs ++ hands) d -> Inv None hands (fst (push_all depth rs d pushed)).
Proof.
  revert d pushed. induction rs as [|r rs IH]; intros d pushed HI; [done|]. cbn [push_all].
  pose proof (push_to_sq_inv depth (rs ++ hands) d r HI) as Hp. destruct (push_to_sq depth r d) as [d' ok].
  by apply IH.
Qed.

Lemma inv_receive r ch hands d : dr_channel d = r :: ch -> Inv None hands d -> Inv None (r :: hands) (set_channel ch d).
Proof.
  intros Hch [H1 H2 H3 H4 H5 H6 H7 H8 H9 H10]. destruct d as [rs ch0 p sq k cq c fs]. cbn in *. subst ch0.
  assert (Hperm : r :: hands ++ ch ≡ₚ hands ++ r :: ch) by apply Permutation_middle.
  constructor; cbn; try done.
  - by rewrite Hperm.
  - intros x u. rewrite Hperm. apply H6.
  - intros x. rewrite <- H7. unfold holds. cbn. by rewrite Hperm.
Qed.

Lemma push_to_sq_channel depth r d : dr_channel (fst (push_to_sq depth r d)) = dr_channel d.
Proof.
  destruct d as [rs ch p sq k cq c fs]. unfold push_to_sq. cbn. destruct (rs !! r) as [[q s]|]; [|done].
  destruct (build_sqe c r q s); [|done]. by destruct (_ <=? _)%nat.
Qed.

Lemma receive_inv depth ch batch d : dr_channel d = ch -> Inv None [] d -> Inv None [] (fst (receive depth ch batch d)).
Proof.
  revert d batch. induction ch as [|r ch IH]; intros d batch Hch HI; [done|]. cbn [receive].
  pose proof (push_to_sq_inv depth [] _ r (inv_receive r ch [] d Hch HI)) as Hp.
  pose proof (push_to_sq_channel depth r (set_channel ch d)) as Hc. destruct (push_to_sq depth r _) as [d' ok]. cbn [fst] in *.
  destruct (_ <=? _)%nat; [done|]. apply IH; [|done]. rewrite Hc. by destruct d.
Qed.

Lemma inv_submit d : Inv None [] d -> Inv None [] (submit_queue d).
Proof.
  intros [H1 H2 H3 H4 H5 H6 H7 H8 H9 H10]. destruct d as [rs ch p sq k cq c fs]. unfold rings in *. cbn in *.
  assert (Hperm : map sqe_user_data (k ++ sq) ++ map fst cq ≡ₚ map sqe_user_data sq ++ map sqe_user_data k ++ map fst cq)
    by (rewrite map_app, (app_assoc (map sqe_user_data sq)); f_equiv; apply Permutation_app_comm).
  constructor; unfold rings; cbn; try done.
  - by rewrite Hperm.
  - intros ud. by rewrite Hperm.
  - intros e He. apply H9. rewrite elem_of_app in *. tauto.
Qed.

Lemma turn_inv depth submitted d : Inv None [] d -> Inv None [] (turn depth submitted d).
Proof.
  intros HI. unfold turn. pose proof (process_completions_inv (dr_cq d) d [] [] eq_refl HI) as Hp.
  destruct (process_completions (dr_cq d) d []) as [d1 retries]. destruct Hp as [Hp _].
  pose proof (push_all_inv depth retries [] d1 false Hp) as Hpush. destruct (push_all depth retries d1 false) as [d2 needs].
  pose proof (receive_inv depth (dr_channel d2) 0 d2 eq_refl Hpush) as Hr.
  destruct (receive depth (dr_channel d2) 0 d2) as [d3 batch]. cbn [fst] in *.
  destruct (_ && _); [by apply inv_submit|done].
Qed.

(** *** Clients *)

Lemma poll_completed s : rs_completed (fst (poll s)) = rs_completed s.
Proof. unfold poll. destruct (rs_completed s) eqn:Hc, (rs_consumed s), (rs_err s); done. Qed.

Lemma poll_inv d r q s : request_inv d r q s -> request_inv d r q (fst (poll s)).
Proof.
  intros (Hok & Hw & Hi). split; [done|]. split; [done|]. rewrite poll_completed. destruct (rs_completed s) eqn:Hc.
  - unfold poll. rewrite Hc. destruct (rs_consumed s) eqn:Hco; [done|]. by destruct (rs_err s).
  - unfold poll. rewrite Hc. cbn. done.
Qed.

Lemma poll_build_sqe ud r q s : rs_completed s = false -> build_sqe ud r q (fst (poll s)) = build_sqe ud r q s.
Proof. intros Hc. unfold poll. rewrite Hc. by destruct (rq_op q). Qed.

Lemma poll_request_inv r d : Inv None [] d -> Inv None [] (fst (poll_request r d)).
Proof.
  intros HI. unfold poll_request. destruct (dr_requests d !! r) as [[q s]|] eqn:Hr; [|done].
  destruct (poll s) as [s' out] eqn:Hp. cbn [fst]. assert (s' = fst (poll s)) as -> by by rewrite Hp. clear Hp out.
  destruct HI as [H1 H2 H3 H4 H5 H6 H7 H8 H9 H10].
  assert (Hopen : forall e, e ∈ dr_sq d ++ dr_kernel d -> sqe_request e = r -> rs_completed s = false).
  { intros e He Heq. destruct (H9 e He) as [Hp _]. destruct (proj1 (H7 r)) as (q0 & s0 & Hx & Hc);
      [right; exists (sqe_user_data e); congruence|]. congruence. }
  destruct d as [rs ch p sq k cq c fs]. cbn in *. constructor; cbn; try done.
  - intros x. change (holds [] (mkDriver (<[r:=(q, (poll s).1)]> rs) ch p sq k cq c fs) x)
      with (holds [] (mkDriver rs ch p sq k cq c fs) x).
    rewrite H7. destruct (decide (x = r)) as [->|Hne]; [|by rewrite lookup_insert_ne].
    rewrite lookup_insert_eq. split; intros (q0 & s0 & Hx & Hc).
    + rewrite Hr in Hx. injection Hx as <- <-. do 2 eexists. split; [done|]. by rewrite poll_completed.
    + injection Hx as <- <-. rewrite poll_completed in Hc. eauto.
  - intros x q0 s0 Hx Hl. destruct (decide (x = r)) as [->|Hne].
    + rewrite lookup_insert_eq in Hx. injection Hx as <- <-. apply poll_inv. by apply H8.
    + rewrite lookup_insert_ne in Hx by done. by apply H8.
  - intros e He. destruct (H9 e He) as [Hp Hb]. split; [done|]. intros q0 s0 Hx.
    destruct (decide (sqe_request e = r)) as [Heq|Hne]; [|rewrite lookup_insert_ne in Hx by done; by apply Hb].
    rewrite Heq, lookup_insert_eq in Hx. injection Hx as <- <-. rewrite Heq in Hb. rewrite Heq, poll_build_sqe by eauto.
    by apply Hb.
  - intros x y qx qy sx sy Hx Hy. destruct (insert_state _ _ _ _ _ _ _ _ Hr Hx) as [? Hx'].
    destruct (insert_state _ _ _ _ _ _ _ _ Hr Hy) as [? Hy']. by eapply H10.
Qed.

(** What is said of a request depends on no file but its own. *)
Lemma moved_frame files files' q s t :
  (rq_op q = OpWrite -> files' !! rq_fd q = files !! rq_fd q) -> moved files q s t -> moved files' q s t.
Proof. unfold moved. intros Hf. destruct (rq_op q); try done. by rewrite Hf. Qed.

Lemma settled_frame files files' q s :
  (rq_op q = OpWrite -> files' !! rq_fd q = files !! rq_fd q) -> settled files q s -> settled files' q s.
Proof. intros Hf [Hm Hl]. split; [by eapply moved_frame|done]. Qed.

Lemma answered_frame files files' q s res :
  (rq_op q = OpWrite -> files' !! rq_fd q = files !! rq_fd q) -> answered files q s res -> answered files' q s res.
Proof. intros Hf [Hn|[Hm Ha]]; [by left|right]. split; [by eapply moved_frame|done]. Qed.

Lemma delivered_frame files files' q s :
  (rq_op q = OpWrite -> files' !! rq_fd q = files !! rq_fd q) -> delivered files q s -> delivered files' q s.
Proof.
  intros Hf. unfold delivered, outcome_ok. destruct (rs_err s); [done|]. intros Hd Hc. specialize (Hd Hc).
  destruct (rq_op q); try done. by rewrite Hf.
Qed.

Lemma request_inv_frame d d' r q s :
  dr_pending d' = dr_pending d -> dr_cq d' = dr_cq d ->
  (rq_op q = OpWrite -> dr_files d' !! rq_fd q = dr_files d !! rq_fd q) ->
  request_inv d r q s -> request_inv d' r q s.
Proof.
  intros Hp Hc Hf (Hok & Hw & Hi). split; [done|]. split; [intros Ho; rewrite Hf by done; by apply Hw|].
  destruct (rs_completed s); [by eapply delivered_frame|]. rewrite Hp, Hc. destruct Hi as (He & Hco & Ha & Hs).
  split; [done|]. split; [done|]. split.
  - intros ud res Hu Hin. eapply answered_frame; [done|by eapply Ha].
  - intros Hn. eapply settled_frame; [done|by apply Hs].
Qed.

Lemma settled_fresh files q :
  request_ok q -> (rq_op q = OpWrite -> files !! rq_fd q = Some []) -> settled files q (fresh_state (rq_given q)).
Proof.
  unfold request_ok, settled, moved. intros Hok Hf. destruct (rq_op q); cbn; try done.
  - rewrite !slice_nil by lia. repeat split; try done; lia.
  - rewrite Hf by done. rewrite slice_nil by lia. repeat split; try done; lia.
Qed.

(** No request writes to the file of a new one. *)
Definition file_is_own (q : IoRequest) (d : Driver) : Prop :=
  forall x qx sx, dr_requests d !! x = Some (qx, sx) -> rq_op qx = OpWrite -> rq_op q = OpWrite ->
    rq_fd qx <> rq_fd q.

Lemma new_file_is_own hands q d : Inv None hands d -> file_is_new q d -> file_is_own q d.
Proof.
  intros HI Hnew x qx sx Hx Hox Ho Heq. destruct (inv_requests _ _ _ HI x qx sx Hx ltac:(done)) as (_ & Hw & _).
  destruct (Hw Hox) as [f Hf]. rewrite Heq, (Hnew Ho) in Hf. done.
Qed.

Lemma inv_create q d : Inv None [] d -> file_is_own q d -> Inv None [] (create_file q d).
Proof.
  intros [H1 H2 H3 H4 H5 H6 H7 H8 H9 H10] Hown.
  assert (Hframe : forall x qx sx, dr_requests d !! x = Some (qx, sx) -> request_inv (create_file q d) x qx sx).
  { intros x qx sx Hx. eapply (request_inv_frame d); [by destruct d|by destruct d| |by apply H8].
    intros Hox. destruct d. cbn in *. destruct (rq_op q) eqn:Ho; try done.
    rewrite lookup_insert_ne; [done|]. intros Heq. symmetry in Heq. by apply (Hown x qx sx Hx Hox) in Heq. }
  destruct d as [rs ch p sq k cq c fs]. cbn in *. constructor; cbn; try done. intros x qx sx Hx _. by apply Hframe.
Qed.

(** A request is added: answered, or in the driver's hands. *)
Lemma inv_add r q s d :
  Inv None [] d -> dr_requests d !! r = None -> file_is_own q d -> request_inv d r q s ->
  Inv None (if rs_completed s then [] else [r]) (set_request r q s d).
Proof.
  intros [H1 H2 H3 H4 H5 H6 H7 H8 H9 H10] Hr Hown Hinv.
  assert (Hnot : ~ holds [] d r) by (intros (? & ? & ? & _)%H7; congruence). unfold holds in *.
  destruct d as [rs ch p sq k cq c fs]. unfold file_is_own in Hown. cbn in *. constructor; cbn; try done.
  - destruct (rs_completed s); [done|]. apply NoDup_cons. tauto.
  - intros x u Hx Hp. destruct (rs_completed s); [by apply (H6 x u)|].
    apply elem_of_cons in Hx as [->|Hx]; [apply Hnot; eauto|by apply (H6 x u)].
  - intros x. unfold holds. cbn. destruct (decide (x = r)) as [->|Hne].
    + rewrite lookup_insert_eq. destruct (rs_completed s) eqn:Hc.
      * split; [done|]. intros (? & ? & [= <- <-] & ?). congruence.
      * split; [eauto|]. intros _. left. left.
    + rewrite lookup_insert_ne by done. rewrite <- H7. destruct (rs_completed s); [done|]. cbn. rewrite elem_of_cons. tauto.
  - intros x qx sx Hx _. destruct (decide (x = r)) as [->|Hne].
    + rewrite lookup_insert_eq in Hx. by injection Hx as <- <-.
    + rewrite lookup_insert_ne in Hx by done. by apply H8.
  - intros e He. destruct (H9 e He) as [Hp Hb]. split; [done|]. intros qx sx Hx. apply Hb.
    rewrite lookup_insert_ne in Hx; [done|]. intros ->. apply Hnot. eauto.
  - intros x y qx qy sx sy Hx Hy Hox Hoy Heq. destruct (decide (x = r)) as [->|Hnx], (decide (y = r)) as [->|Hny]; [done|..].
    + rewrite lookup_insert_eq in Hx. rewrite lookup_insert_ne in Hy by done. injection Hx as <- <-.
      by destruct (Hown y qy sy Hy Hoy Hox).
    + rewrite lookup_insert_eq in Hy. rewrite lookup_insert_ne in Hx by done. injection Hy as <- <-.
      by destruct (Hown x qx sx Hx Hox Hoy).
    + rewrite lookup_insert_ne in Hx, Hy by done. by eapply H10.
Qed.

Lemma inv_send r d : Inv None [r] d -> Inv None [] (set_channel (dr_channel d ++ [r]) d).
Proof.
  intros [H1 H2 H3 H4 H5 H6 H7 H8 H9 H10]. destruct d as [rs ch p sq k cq c fs]. unfold holds in *. cbn in *.
  assert (Hperm : ch ++ [r] ≡ₚ r :: ch) by (rewrite <- Permutation_middle, app_nil_r; done).
  constructor; cbn; try done.
  - by rewrite Hperm.
  - intros x u. rewrite Hperm. apply H6.
  - intros x. unfold holds. cbn. rewrite <- H7. by rewrite Hperm.
Qed.

(** A new request: failed on the spot, or at the end of the channel. *)
Lemma submit_request_inv depth r q d :
  Inv None [] d -> dr_requests d !! r = None -> request_ok q -> file_is_new q d ->
  Inv None [] (submit_request depth r q (create_file q d)).
Proof.
  intros HI Hr Hok Hnew. pose proof (new_file_is_own _ _ _ HI Hnew) as Hown.
  pose proof (inv_create q d HI Hown) as HI0. set (d0 := create_file q d) in *.
  assert (Hfile : rq_op q = OpWrite -> dr_files d0 !! rq_fd q = Some []).
  { intros Ho. unfold d0, create_file. destruct d. cbn in *. rewrite Ho. apply lookup_insert_eq. }
  assert (Hr0 : dr_requests d0 !! r = None) by by destruct d.
  assert (Hown0 : file_is_own q d0) by by destruct d.
  assert (Hw : rq_op q = OpWrite -> is_Some (dr_files d0 !! rq_fd q)) by (intros Ho; rewrite Hfile by done; eauto).
  unfold submit_request. destruct (_ <=? _)%nat; [by apply (inv_add r q (fail _ _))|].
  assert (Hadd : Inv None [r] (set_request r q (fresh_state (rq_given q)) d0)).
  { apply (inv_add r q (fresh_state (rq_given q)) d0); try done. split; [done|]. split; [done|]. cbn.
    split; [done|]. split; [done|]. split; [|intros _; by apply settled_fresh].
    intros ud res Hp. exfalso. destruct (proj1 (inv_open _ _ _ HI0 r)) as (? & ? & ? & _); [right; eauto|congruence]. }
  assert (dr_channel d0 = dr_channel (set_request r q (fresh_state (rq_given q)) d0)) as -> by by destruct d0.
  by apply inv_send.
Qed.

(** *** The kernel *)

Lemma zlen_write_at (l data : bytes) at_ :
  0 <= at_ -> at_ + zlen data <= zlen l -> zlen (write_at l at_ data) = zlen l.
Proof.
  intros Ha Hl. pose proof (zlen_nonneg data). unfold write_at. rewrite !zlen_app, !zlen_slice by lia. lia.
Qed.

Lemma slice_prefix (a b : bytes) : slice 0 (zlen a) (a ++ b) = a.
Proof. unfold slice, zlen. rewrite drop_0, Z.sub_0_r, Nat2Z.id. apply take_app_length. Qed.

Lemma slice_write_at (l data : bytes) at_ :
  0 <= at_ <= zlen l -> slice 0 (at_ + zlen data) (write_at l at_ data) = slice 0 at_ l ++ data.
Proof.
  intros Ha. unfold write_at. rewrite app_assoc.
  replace (at_ + zlen data) with (zlen (slice 0 at_ l ++ data)) by (rewrite zlen_app, zlen_slice; lia).
  apply slice_prefix.
Qed.

(** Writing on at the end of what has been written. *)
Lemma write_at_end (given : bytes) t n :
  0 <= t -> 0 <= n -> t + n <= zlen given ->
  write_at (slice 0 t given) t (slice t (t + n) given) = slice 0 (t + n) given.
Proof.
  intros Ht Hn Hl. unfold write_at. rewrite (zlen_slice 0 t) by lia. rewrite (zlen_slice t) by lia.
  rewrite (slice_nil (t + _)) by lia. rewrite app_nil_r, slice_slice, !Z.add_0_l by lia. apply slice_app; lia.
Qed.

(** What the entry of a request says, and that the result fits it. *)
Lemma answers_spec e buffer file res buffer' file' files q s ud r :
  answers content e (rs_buffer s) file res buffer' file' -> buffer = buffer' ->
  build_sqe ud r q s = Some e -> request_ok q -> settled files q s -> file = files !! rq_fd q ->
  sqe_fd e = rq_fd q /\
  (rq_op q <> OpWrite -> file' = file) /\
  answered (match file' with Some f => <[rq_fd q := f]> files | None => files end) q
    (mkRequestState (rs_completed s) (rs_consumed s) (rs_waker s) (rs_err s) buffer (rs_transferred s) (rs_code s)) res.
Proof.
  intros Ha -> Hb Hok [Hm Hlt] ->. unfold build_sqe in Hb. unfold request_ok in Hok.
  assert (He : sqe_op e = rq_op q /\ sqe_fd e = rq_fd q /\
    match rq_op q with OpRead | OpWrite => sqe_at e = rs_transferred s /\ sqe_offset e = rq_offset q + rs_transferred s /\
      sqe_len e = rq_length q - rs_transferred s | _ => True end).
  { unfold moved in Hm. destruct (rq_op q); try (by injection Hb as <-);
      (destruct (buffer_usable_for_transfer _ _ _); [|done]); injection Hb as <-; cbn; repeat split; try done;
      unfold as_u32, u32_mod; rewrite Z.mod_small; lia. }
  destruct He as (Hop & Hfd & Hio). split; [done|]. unfold answered, moved in *.
  destruct Ha as [errno Hn|n Ho Hn Hav Heof|n old Ho Hn Hold|fd Ho Hfd2|Ho]; cbn.
  - split; [done|]. left. lia.
  - split; [done|]. right. rewrite <- Hop, Ho in *. destruct Hio as (Hat & Hoff & Hlen). destruct Hok as (Hoo & Hll & _).
    destruct Hm as (Hbl & Ht & Hav0 & Hsl). rewrite Hat, Hoff, Hlen, Hfd in *.
    assert (Hn' : zlen (slice (rq_offset q + rs_transferred s) (rq_offset q + rs_transferred s + n) (content (rq_fd q))) = n)
      by (apply zlen_read; lia).
    split; [|repeat split; try lia; intros ->; destruct (Heof eq_refl); lia].
    split; [|split; [lia|split; [lia|]]].
    + rewrite zlen_write_at by lia. done.
    + rewrite <- (slice_app (rq_offset q) (rq_offset q + rs_transferred s)) by lia. rewrite <- Hsl.
      rewrite <- Hn' at 1. rewrite slice_write_at by lia. by rewrite Z.add_assoc.
  - rewrite <- Hop, Ho in *. split; [done|]. right. destruct Hio as (Hat & Hoff & Hlen), Hok as (Hoo & Hll & Hg).
    destruct Hm as (Hbuf & Ht & Hf). rewrite Hat, Hoff, Hlen in *. rewrite Hf in Hold. injection Hold as <-.
    split; [|lia]. split; [done|]. split; [lia|]. rewrite lookup_insert_eq. f_equal. rewrite Hoo, Z.add_0_l, Hbuf.
    apply write_at_end; lia.
  - split; [done|]. right. rewrite <- Hop, Ho. done.
  - split; [done|]. right. rewrite <- Hop. by destruct Ho as [-> | ->].
Qed.

(** The entry the kernel finishes: its request is open, has no other entry, and is settled. *)
Lemma kernel_entry d before e after q st :
  Inv None [] d -> dr_kernel d = before ++ e :: after -> dr_requests d !! sqe_request e = Some (q, st) ->
  let rest := map sqe_user_data (dr_sq d) ++ map sqe_user_data (before ++ after) ++ map fst (dr_cq d) in
  rings d ≡ₚ sqe_user_data e :: rest /\ sqe_user_data e ∉ rest /\
  dr_pending d !! sqe_user_data e = Some (sqe_request e) /\ build_sqe (sqe_user_data e) (sqe_request e) q st = Some e /\
  rs_completed st = false /\ request_ok q /\ (rq_op q = OpWrite -> is_Some (dr_files d !! rq_fd q)) /\
  rs_err st = None /\ rs_consumed st = false /\ settled (dr_files d) q st.
Proof.
  intros HI Hk Hq rest. assert (Hin : e ∈ dr_sq d ++ dr_kernel d) by (rewrite Hk, !elem_of_app, elem_of_cons; tauto).
  destruct (inv_sqes _ _ _ HI e Hin) as [Hp Hb]. specialize (Hb q st Hq).
  assert (Hperm : rings d ≡ₚ sqe_user_data e :: rest).
  { unfold rings, rest. rewrite Hk, !map_app. cbn. rewrite <- !Permutation_middle. cbn. by rewrite <- Permutation_middle. }
  assert (Hnd : sqe_user_data e ∉ rest) by (pose proof (inv_uds _ _ _ HI) as Hu; rewrite Hperm in Hu; by inversion Hu).
  assert (Hc : rs_completed st = false).
  { destruct (proj1 (inv_open _ _ _ HI (sqe_request e))) as (? & ? & Hx & ?); [right; eauto|]. congruence. }
  destruct (inv_requests _ _ _ HI _ _ _ Hq ltac:(done)) as (Hok & Hw & Hi). rewrite Hc in Hi.
  destruct Hi as (He & Hco & _ & Hs). repeat (split; [done|]). apply Hs. intros u res Hu Hcq.
  apply (inv_inj _ _ _ HI _ _ _ Hp) in Hu. subst u. apply Hnd. unfold rest. rewrite !elem_of_app. right. right.
  by apply (list_elem_of_fmap_2 fst _ (sqe_user_data e, res)).
Qed.

(** A result changes no file but that of its write. *)
Lemma finish_files d e file q st x qx sx :
  Inv None [] d -> dr_requests d !! sqe_request e = Some (q, st) ->
  (rq_op q <> OpWrite -> file = dr_files d !! rq_fd q) ->
  dr_requests d !! x = Some (qx, sx) -> x <> sqe_request e -> rq_op qx = OpWrite ->
  match file with Some f => <[rq_fd q := f]> (dr_files d) | None => dr_files d end !! rq_fd qx = dr_files d !! rq_fd qx.
Proof.
  intros HI Hq Hsame Hx Hne Hox. destruct (decide (rq_op q = OpWrite)) as [Ho|Ho].
  - destruct file; [|done]. apply lookup_insert_ne. intros Heq. apply Hne. by eapply (inv_files _ _ _ HI).
  - rewrite (Hsame Ho). destruct (dr_files d !! rq_fd q) as [f|] eqn:Hf; [|done]. by rewrite insert_id.
Qed.

(** The other requests do not see the result. *)
Lemma finish_other d e res x qx sx files' :
  Inv None [] d -> dr_pending d !! sqe_user_data e = Some (sqe_request e) -> x <> sqe_request e ->
  dr_requests d !! x = Some (qx, sx) -> (rq_op qx = OpWrite -> files' !! rq_fd qx = dr_files d !! rq_fd qx) ->
  request_ok qx /\ (rq_op qx = OpWrite -> is_Some (files' !! rq_fd qx)) /\
  if rs_completed sx then delivered files' qx sx
  else rs_err sx = None /\ rs_consumed sx = false /\
    (forall ud r, dr_pending d !! ud = Some x -> (ud, r) ∈ dr_cq d ++ [(sqe_user_data e, res)] -> answered files' qx sx r) /\
    ((forall ud r, dr_pending d !! ud = Some x -> (ud, r) ∉ dr_cq d ++ [(sqe_user_data e, res)]) -> settled files' qx sx).
Proof.
  intros HI Hp Hne Hx Hf. destruct (inv_requests _ _ _ HI x qx sx Hx ltac:(done)) as (Hok & Hw & Hi).
  split; [done|]. split; [intros Ho; rewrite Hf by done; auto|].
  destruct (rs_completed sx); [by eapply delivered_frame|]. destruct Hi as (He & Hc & Ha & Hs).
  split; [done|]. split; [done|]. split.
  - intros u r Hu Hin. eapply answered_frame; [done|]. apply (Ha u); [done|].
    apply elem_of_app in Hin as [Hin|Hin]; [done|]. apply list_elem_of_singleton in Hin. injection Hin as -> _.
    exfalso. apply Hne. rewrite Hp in Hu. by injection Hu.
  - intros Hn. eapply settled_frame; [done|]. apply Hs. intros u r Hu Hin. apply (Hn u r Hu).
    rewrite elem_of_app. by left.
Qed.

Lemma finish_inv before e after q st res buffer file d :
  Inv None [] d -> dr_kernel d = before ++ e :: after -> dr_requests d !! sqe_request e = Some (q, st) ->
  answers content e (rs_buffer st) (dr_files d !! sqe_fd e) res buffer file ->
  Inv None [] (finish e res buffer file before after q st d).
Proof.
  intros HI Hk Hq Ha. destruct (kernel_entry d before e after q st HI Hk Hq)
    as (Hperm & Hnd & Hp & Hb & Hc & Hok & Hw & He & Hco & Hs).
  assert (Hfd : sqe_fd e = rq_fd q).
  { revert Hb. unfold build_sqe. destruct (rq_op q); try (destruct (buffer_usable_for_transfer _ _ _)); by intros [= <-]. }
  rewrite Hfd in Ha.
  destruct (answers_spec e buffer _ res buffer file (dr_files d) q st _ _ Ha eq_refl Hb Hok Hs eq_refl) as (_ & Hsame & Hans).
  pose proof (fun x qx sx => finish_files d e file q st x qx sx HI Hq Hsame) as Hfiles.
  pose proof (fun x qx sx files' => finish_other d e res x qx sx files' HI Hp) as Hother.
  destruct HI as [H1 H2 H3 H4 H5 H6 H7 H8 H9 H10]. rewrite Hperm in H1.
  assert (Hperm' : rings (finish e res buffer file before after q st d) ≡ₚ rings d).
  { rewrite Hperm. unfold rings, finish. cbn. rewrite (map_app fst). cbn.
    by rewrite !app_assoc, <- Permutation_middle, app_nil_r. }
  destruct d as [rs ch p sq k cq c fs]. unfold finish in *. cbn in *. subst k. rewrite Hfd in *.
  constructor; cbn; try done.
  - by rewrite Hperm', Hperm.
  - intros u. rewrite Hperm'. apply H2.
  - intros x. unfold holds in *. cbn in *. rewrite H7. destruct (decide (x = sqe_request e)) as [->|Hne].
    + rewrite lookup_insert_eq. split; intros _; eauto.
    + by rewrite lookup_insert_ne.
  - intros x qx sx Hx _. destruct (decide (x = sqe_request e)) as [->|Hne].
    + rewrite lookup_insert_eq in Hx. injection Hx as <- <-. split; [done|]. cbn. split.
      { intros Ho. destruct file; [rewrite lookup_insert_eq; eauto|by apply Hw]. }
      rewrite Hc. split; [done|]. split; [done|]. split.
      * intros u res' Hu Hin. apply (H4 _ _ _ Hp) in Hu. subst u. apply elem_of_app in Hin as [Hin|Hin].
        -- exfalso. apply Hnd. rewrite !elem_of_app. right. right.
           by apply (list_elem_of_fmap_2 fst _ (sqe_user_data e, res')).
        -- apply list_elem_of_singleton in Hin. injection Hin as ->. exact Hans.
      * intros Hn. exfalso. apply (Hn _ res Hp). rewrite elem_of_app. right. by apply list_elem_of_singleton.
    + rewrite lookup_insert_ne in Hx by done. by apply Hother; [..|apply (Hfiles x qx sx)].
  - intros x Hx. destruct (H9 x) as [Hpx Hbx]; [rewrite !elem_of_app, elem_of_cons in *; tauto|]. split; [done|].
    intros qx sx Hqx. apply Hbx. rewrite lookup_insert_ne in Hqx; [done|]. intros Heq. rewrite <- Heq in Hpx.
    pose proof (H4 _ _ _ Hp Hpx) as Hud. apply Hnd. rewrite Hud, app_assoc, elem_of_app, <- map_app. left.
    by apply list_elem_of_fmap_2.
  - intros x y qx qy sx sy Hx Hy. destruct (insert_state _ _ _ _ _ _ _ _ Hq Hx) as [? Hx'].
    destruct (insert_state _ _ _ _ _ _ _ _ Hq Hy) as [? Hy']. by eapply H10.
Qed.

Lemma driver_step_inv depth d d' : driver_step content depth d d' -> Inv None [] d -> Inv None [] d'.
Proof.
  destruct 1; intros HI.
  - by apply submit_request_inv.
  - by apply poll_request_inv.
  - by eapply finish_inv.
  - by apply turn_inv.
Qed.

Lemma reachable_inv depth d : rtc (driver_step content depth) empty_driver d -> Inv None [] d.
Proof.
  intros Hreach. pose proof inv_empty as HI. revert Hreach HI. generalize empty_driver as d0.
  induction 1 as [|d1 d2 d3 Hstep _ IH]; [done|]. intros HI. by eapply IH, driver_step_inv.
Qed.

(** C1. The driver loses no request and delivers what was transferred.  In every state the
    driver, its clients and the kernel can reach, a request without an answer is still in the
    channel or in the ring, once, and an answered one is in neither; the first poll of an
    answered one reports a negative number for an error, whatever its origin, and
    otherwise, however the kernel split the transfer, all the bytes of the file a read
    asked for, a file with the whole page for a write, a descriptor above the standard
    streams for an open; any later poll reports an error. *)
Theorem driver_answers_requests (depth : nat) (d : Driver) (r : nat) (q : IoRequest) (s : RequestState) :
  rtc (driver_step content depth) empty_driver d -> dr_requests d !! r = Some (q, s) ->
  (rs_completed s = false <-> r ∈ dr_channel d \/ exists ud, ud ∈ rings d /\ dr_pending d !! ud = Some r) /\
  (forall u v, dr_pending d !! u = Some r -> dr_pending d !! v = Some r -> u = v) /\
  NoDup (dr_channel d) /\
  (snd (poll s) = None <-> rs_completed s = false) /\
  (forall code b, snd (poll s) = Some (code, b) ->
     if rs_consumed s then code < 0 else outcome_ok (dr_files d) q code b).
Proof.
  intros Hreach Hr. pose proof (reachable_inv depth d Hreach) as HI. split; [|split; [|split; [|split]]].
  - transitivity (holds [] d r).
    + rewrite (inv_open _ _ _ HI). split; [eauto|]. intros (q0 & s0 & Hx & Hc). congruence.
    + unfold holds. cbn. split; (intros [?|[ud Hu]]; [by left|right; exists ud]); [split; [|done]|apply Hu].
      apply (inv_pending _ _ _ HI). eauto.
  - intros u v. apply (inv_inj _ _ _ HI).
  - exact (inv_held _ _ _ HI).
  - unfold poll. destruct (rs_completed s); [|done]. destruct (rs_consumed s); [done|]. by destruct (rs_err s).
  - intros code b. destruct (inv_requests _ _ _ HI r q s Hr ltac:(done)) as (_ & _ & Hi). unfold poll.
    destruct (rs_completed s); [|done]. destruct (rs_consumed s) eqn:Hco; [by intros [= <- <-]|].
    unfold delivered in Hi. destruct (rs_err s) as [e|]; intros [= <- <-]; [|by apply Hi].
    left. destruct e as [errno|what]; [cbn in Hi |- *; lia|reflexivity].
Qed.

(** ** Progress *)

Inductive kernel_step (d : Driver) : Driver -> Prop :=
| KernelStep before e after q st res buffer file :
    dr_kernel d = before ++ e :: after -> dr_requests d !! sqe_request e = Some (q, st) ->
    answers content e (rs_buffer st) (dr_files d !! sqe_fd e) res buffer file ->
    kernel_step d (finish e res buffer file before after q st d).

(** The kernel answers all it was given, and the driver makes a turn. *)
Definition round (depth : nat) (d d' : Driver) : Prop :=
  exists d0, rtc kernel_step d d0 /\ dr_kernel d0 = [] /\ d' = turn depth true d0.

(** [r] is answered, or its transfer has moved by at least [n] bytes. *)
Definition moves (n : Z) (r : nat) (d d' : Driver) : Prop :=
  forall q s, dr_requests d !! r = Some (q, s) -> exists s', dr_requests d' !! r = Some (q, s') /\
    (rs_completed s' = true \/ rs_transferred s + n <= rs_transferred s').

Lemma moves_refl r d : moves 0 r d d.
Proof. intros q s Hr. exists s. split; [done|]. right. lia. Qed.

Lemma moves_eq r d d' : dr_requests d' = dr_requests d -> moves 0 r d d'.
Proof. intros Heq q s Hr. exists s. rewrite Heq. split; [done|]. right. lia. Qed.

(** An answered request stays answered. *)
Definition stays (r : nat) (d d' : Driver) : Prop :=
  forall q s, dr_requests d !! r = Some (q, s) -> rs_completed s = true ->
    exists s', dr_requests d' !! r = Some (q, s') /\ rs_completed s' = true.

Lemma moves_trans n m r d1 d2 d3 : moves n r d1 d2 -> moves m r d2 d3 -> stays r d2 d3 -> moves (n + m) r d1 d3.
Proof.
  intros H12 H23 Hst q s Hr. destruct (H12 q s Hr) as (s2 & Hr2 & Hm2). destruct (H23 q s2 Hr2) as (s3 & Hr3 & Hm3).
  exists s3. split; [done|]. destruct Hm2 as [Hc2|Hm2].
  - left. destruct (Hst q s2 Hr2 Hc2) as (s3' & Hr3' & Hc3). congruence.
  - destruct Hm3 as [Hc3|Hm3]; [by left|right; lia].
Qed.

Lemma complete_completed q res s : rs_completed s = true -> rs_completed (fst (complete q res s)) = true.
Proof.
  intros Hc. unfold complete. destruct (res <? 0); [done|]. destruct (rq_op q); try done;
    repeat match goal with |- context [if ?b then _ else _] => destruct b end; done.
Qed.

Lemma complete_moves q res s :
  rs_completed (fst (complete q res s)) = true \/ rs_transferred s + res <= rs_transferred (fst (complete q res s)) /\ 0 <= res.
Proof.
  unfold complete. destruct (Z.ltb_spec res 0); [by left|]. destruct (rq_op q); try (by left);
    repeat match goal with |- context [if ?b then _ else _] => destruct b end; cbn; try (by left); right; lia.
Qed.

Lemma process_completions_stays cq d retries r : stays r d (fst (process_completions cq d retries)).
Proof.
  revert d retries. induction cq as [|[ud res] cq IH]; intros d retries q s Hr Hc; cbn [process_completions]; [eauto|].
  assert (Hr' : dr_requests (take_cqe ud cq d) !! r = Some (q, s)) by by destruct d.
  destruct (dr_pending d !! ud) as [x|]; [|by apply (IH _ retries q s)].
  destruct (dr_requests (take_cqe ud cq d) !! x) as [[qx sx]|] eqn:Hx; [|by apply (IH _ retries q s)].
  pose proof (complete_completed qx res sx) as Hcc. destruct (complete qx res sx) as [sx' again]. cbn in Hcc.
  destruct (decide (x = r)) as [->|Hne].
  - rewrite Hr' in Hx. injection Hx as <- <-. eapply IH; [|by apply Hcc]. destruct d. apply lookup_insert_eq.
  - eapply IH; [|exact Hc]. destruct d. cbn in *. by rewrite lookup_insert_ne.
Qed.

Lemma process_completions_moves cq d retries r : moves 0 r d (fst (process_completions cq d retries)).
Proof.
  revert d retries. induction cq as [|[ud res] cq IH]; intros d retries; cbn [process_completions]; [apply moves_refl|].
  assert (Ht : moves 0 r d (take_cqe ud cq d)) by (by apply moves_eq; destruct d).
  destruct (dr_pending d !! ud) as [x|];
    [|by apply (moves_trans 0 0 _ _ (take_cqe ud cq d)); [done|apply IH|apply process_completions_stays]].
  destruct (dr_requests (take_cqe ud cq d) !! x) as [[qx sx]|] eqn:Hx;
    [|by apply (moves_trans 0 0 _ _ (take_cqe ud cq d)); [done|apply IH|apply process_completions_stays]].
  pose proof (complete_moves qx res sx) as Hcm. destruct (complete qx res sx) as [sx' again]. cbn in Hcm.
  apply (moves_trans 0 0 _ _ (set_request x qx sx' (take_cqe ud cq d)));
    [|apply IH|apply process_completions_stays].
  intros q s Hr. destruct (Ht q s Hr) as (s1 & Hr1 & Hm1). destruct (decide (x = r)) as [->|Hne].
  - rewrite Hx in Hr1. injection Hr1 as <- <-. exists sx'. split; [destruct d; apply lookup_insert_eq|].
    assert (sx = s) as -> by (destruct d; cbn in *; congruence). destruct Hcm as [?|?]; [by left|right; lia].
  - exists s1. split; [|done]. destruct d. cbn in *. by rewrite lookup_insert_ne.
Qed.

Lemma push_to_sq_state depth x d r q s :
  dr_requests d !! r = Some (q, s) ->
  exists s', dr_requests (fst (push_to_sq depth x d)) !! r = Some (q, s') /\
    rs_transferred s' = rs_transferred s /\ (rs_completed s = true -> rs_completed s' = true).
Proof.
  intros Hr. assert (Hfail : forall qx sx what, dr_requests d !! x = Some (qx, sx) ->
    exists s', dr_requests (set_request x qx (fail (DriverError what) sx) (take_user_data d)) !! r = Some (q, s') /\
      rs_transferred s' = rs_transferred s /\ (rs_completed s = true -> rs_completed s' = true)).
  { intros qx sx what Hx. destruct d as [rs ch p sq k cq c fs]. cbn in *. destruct (decide (x = r)) as [->|Hne].
    - rewrite lookup_insert_eq. rewrite Hr in Hx. injection Hx as <- <-. by eexists.
    - rewrite lookup_insert_ne by done. eauto. }
  unfold push_to_sq. assert (Hd : dr_requests (take_user_data d) = dr_requests d) by by destruct d. rewrite Hd.
  destruct (dr_requests d !! x) as [[qx sx]|] eqn:Hx; [|exists s; cbn [fst]; by rewrite Hd].
  destruct (build_sqe (dr_counter d) x qx sx); [|by apply Hfail]. destruct (_ <=? _)%nat; [by apply Hfail|].
  exists s. destruct d. done.
Qed.

(** Pushing changes no transfer. *)
Definition keeps (r : nat) (d d' : Driver) : Prop :=
  forall q s, dr_requests d !! r = Some (q, s) ->
    exists s', dr_requests d' !! r = Some (q, s') /\ rs_transferred s' = rs_transferred s /\
      (rs_completed s = true -> rs_completed s' = true).

Lemma keeps_refl r d : keeps r d d.
Proof. intros q s Hr. eauto. Qed.

Lemma keeps_trans r d1 d2 d3 : keeps r d1 d2 -> keeps r d2 d3 -> keeps r d1 d3.
Proof.
  intros H12 H23 q s Hr. destruct (H12 q s Hr) as (s2 & Hr2 & Ht2 & Hc2). destruct (H23 q s2 Hr2) as (s3 & Hr3 & Ht3 & Hc3).
  exists s3. split; [done|]. split; [congruence|auto].
Qed.

Lemma keeps_moves r d d' : keeps r d d' -> moves 0 r d d' /\ stays r d d'.
Proof.
  intros Hk. split; intros q s Hr; [|intros Hc]; destruct (Hk q s Hr) as (s' & Hr' & Ht & Hc'); exists s'.
  - split; [done|]. right. lia.
  - auto.
Qed.

Lemma push_all_keeps depth rs d pushed r : keeps r d (fst (push_all depth rs d pushed)).
Proof.
  revert d pushed. induction rs as [|x rs IH]; intros d pushed; [apply keeps_refl|]. cbn [push_all].
  pose proof (push_to_sq_state depth x d r) as Hp. destruct (push_to_sq depth x d) as [d1 ok].
  eapply keeps_trans; [exact Hp|apply IH].
Qed.

Lemma receive_keeps depth ch batch d r : keeps r d (fst (receive depth ch batch d)).
Proof.
  revert d batch. induction ch as [|x ch IH]; intros d batch; [apply keeps_refl|]. cbn [receive].
  pose proof (push_to_sq_state depth x (set_channel ch d) r) as Hp. destruct (push_to_sq depth x _) as [d1 ok].
  assert (Hk : keeps r d d1) by (intros q s Hr; apply Hp; by destruct d).
  destruct (_ <=? _)%nat; [done|]. eapply keeps_trans; [done|apply IH].
Qed.

(** A turn changes a transfer only by its completions. *)
Lemma turn_moves depth submitted d r n :
  moves n r d (fst (process_completions (dr_cq d) d [])) -> moves n r d (turn depth submitted d).
Proof.
  intros Hm. unfold turn. destruct (process_completions (dr_cq d) d []) as [d1 retries]. cbn [fst] in Hm.
  pose proof (push_all_keeps depth retries d1 false r) as Hp. destruct (push_all depth retries d1 false) as [d2 needs].
  pose proof (receive_keeps depth (dr_channel d2) 0 d2 r) as Hr. destruct (receive depth (dr_channel d2) 0 d2) as [d3 batch].
  assert (Hk : keeps r d1 (if ((0 <? batch)%nat || needs) && submitted then submit_queue d3 else d3)).
  { eapply keeps_trans; [exact Hp|]. eapply keeps_trans; [exact Hr|]. cbn [fst].
    destruct (_ && _); [|apply keeps_refl]. intros q s Hq. exists s. by destruct d3. }
  apply keeps_moves in Hk as [Hk1 Hk2]. rewrite <- (Z.add_0_r n). by eapply moves_trans.
Qed.

(** A request with a result makes progress when the results are looked at. *)
Lemma process_completions_progress cq d retries hands r ud res :
  Inv None (retries ++ hands) d -> dr_cq d = cq -> (ud, res) ∈ cq -> dr_pending d !! ud = Some r ->
  moves 1 r d (fst (process_completions cq d retries)).
Proof.
  revert d retries. induction cq as [|[u v] cq IH]; intros d retries HI Hcq Hin Hp; [by apply elem_of_nil in Hin|].
  destruct (reap_head hands retries d u v cq HI Hcq) as (x & q & s & Hx & Hq & Hpos & -> & HI' & Hcq').
  destruct (decide (x = r)) as [->|Hne].
  - rewrite <- (Z.add_0_r 1). eapply moves_trans; [|apply process_completions_moves|apply process_completions_stays].
    intros q0 s0 Hr. rewrite Hq in Hr. injection Hr as <- <-. eexists. split; [destruct d; apply lookup_insert_eq|].
    pose proof (complete_moves q v s) as Hcm.
    destruct Hcm as [Hcm|Hcm]; [by left|]. destruct (rs_completed (complete q v s).1) eqn:Hc; [by left|right].
    enough (0 < v) by lia. apply Hpos. revert Hc. unfold complete. destruct (v <? 0); [done|].
    destruct (rq_op q); try done; repeat match goal with |- context [if ?b then _ else _] => destruct b end; done.
  - assert (Hneu : u <> ud) by (intros ->; congruence).
    assert (Hin' : (ud, res) ∈ cq) by (apply elem_of_cons in Hin as [[= -> ->]|Hin]; [congruence|done]).
    rewrite <- (Z.add_0_l 1). eapply moves_trans; [|eapply IH; [exact HI'|done|done|]|apply process_completions_stays].
    + intros q0 s0 Hr. exists s0. split; [|right; lia]. destruct d. cbn in *. by rewrite lookup_insert_ne.
    + destruct d. cbn in *. by rewrite lookup_delete_ne.
Qed.

(** What pushing does to the queues. *)
Lemma push_to_sq_sq depth x d : snd (push_to_sq depth x d) = false -> dr_sq (fst (push_to_sq depth x d)) = dr_sq d.
Proof.
  destruct d as [rs ch p sq k cq c fs]. unfold push_to_sq. cbn. destruct (rs !! x) as [[q s]|]; [|done].
  destruct (build_sqe c x q s); [|done]. by destruct (_ <=? _)%nat.
Qed.

Lemma push_all_queues depth rs d pushed :
  dr_channel (fst (push_all depth rs d pushed)) = dr_channel d /\
  (snd (push_all depth rs d pushed) = false -> dr_sq (fst (push_all depth rs d pushed)) = dr_sq d /\ pushed = false).
Proof.
  revert d pushed. induction rs as [|x rs IH]; intros d pushed; [done|]. cbn [push_all].
  pose proof (push_to_sq_channel depth x d) as Hc. pose proof (push_to_sq_sq depth x d) as Hs.
  destruct (push_to_sq depth x d) as [d1 ok]. cbn [fst snd] in *. destruct (IH d1 (pushed || ok)) as [IH1 IH2].
  split; [congruence|]. intros H. destruct (IH2 H) as [-> [-> ->]%orb_false_iff]. by rewrite Hs.
Qed.

Lemma receive_grows depth ch batch d : (batch <= snd (receive depth ch batch d))%nat.
Proof.
  revert batch d. induction ch as [|y ch IH]; intros batch d; [done|]. cbn [receive].
  destruct (push_to_sq depth y _) as [d2 ok]. destruct (_ <=? _)%nat; cbn [snd]; [destruct ok; lia|].
  pose proof (IH (if ok then S batch else batch) d2). destruct ok; lia.
Qed.

Lemma receive_queues depth ch batch d :
  dr_channel d = ch ->
  (exists j, dr_channel (fst (receive depth ch batch d)) = drop j ch /\ (ch <> [] -> (1 <= j)%nat)) /\
  (snd (receive depth ch batch d) = 0%nat -> dr_sq (fst (receive depth ch batch d)) = dr_sq d).
Proof.
  revert d batch. induction ch as [|x ch IH]; intros d batch Hch; [split; [by exists 0%nat|done]|]. cbn [receive].
  pose proof (push_to_sq_channel depth x (set_channel ch d)) as Hc. pose proof (push_to_sq_sq depth x (set_channel ch d)) as Hs.
  destruct (push_to_sq depth x (set_channel ch d)) as [d1 ok]. cbn [fst snd] in *.
  assert (Hch1 : dr_channel d1 = ch) by (rewrite Hc; by destruct d).
  assert (Hsq : ok = false -> dr_sq d1 = dr_sq d) by (intros H; rewrite Hs by done; by destruct d).
  destruct (IH d1 (if ok then S batch else batch) Hch1) as [(j & Hj & _) IHs].
  destruct (_ <=? _)%nat eqn:Hb; cbn [fst snd].
  - split; [exists 1%nat; split; [done|lia]|]. intros Hz. apply Hsq. destruct ok; [lia|done].
  - split; [exists (S j); split; [done|lia]|]. intros Hz. rewrite (IHs Hz). apply Hsq. destruct ok; [|done].
    pose proof (receive_grows depth ch (S batch) d1). lia.
Qed.

Lemma process_completions_queues cq d retries :
  dr_channel (fst (process_completions cq d retries)) = dr_channel d /\
  dr_sq (fst (process_completions cq d retries)) = dr_sq d /\
  dr_kernel (fst (process_completions cq d retries)) = dr_kernel d.
Proof.
  revert d retries. induction cq as [|[ud res] cq IH]; intros d retries; [done|]. cbn [process_completions].
  destruct (dr_pending d !! ud) as [r|]; [|destruct (IH (take_cqe ud cq d) retries) as (-> & -> & ->); by destruct d].
  destruct (dr_requests (take_cqe ud cq d) !! r) as [[q s]|];
    [|destruct (IH (take_cqe ud cq d) retries) as (-> & -> & ->); by destruct d].
  destruct (complete q res s) as [s' again].
  destruct (IH (set_request r q s' (take_cqe ud cq d)) (if again then retries ++ [r] else retries)) as (-> & -> & ->).
  by destruct d.
Qed.

(** A turn takes something from the channel, and leaves nothing unsubmitted. *)
Lemma turn_queues depth d :
  dr_sq d = [] ->
  dr_sq (turn depth true d) = [] /\
  exists j, dr_channel (turn depth true d) = drop j (dr_channel d) /\ (dr_channel d <> [] -> (1 <= j)%nat).
Proof.
  intros Hsq. unfold turn. destruct (process_completions_queues (dr_cq d) d []) as (Hc1 & Hs1 & _).
  destruct (process_completions (dr_cq d) d []) as [d1 retries]. cbn [fst] in *.
  destruct (push_all_queues depth retries d1 false) as [Hc2 Hs2].
  destruct (push_all depth retries d1 false) as [d2 needs]. cbn [fst snd] in *.
  destruct (receive_queues depth (dr_channel d2) 0 d2 eq_refl) as [(j & Hc3 & Hj) Hs3].
  destruct (receive depth (dr_channel d2) 0 d2) as [d3 batch]. cbn [fst snd] in *. rewrite Hc2, Hc1 in *.
  rewrite andb_true_r. destruct (Nat.ltb_spec 0 batch) as [Hb|Hb]; cbn [orb]; [|destruct needs].
  - split; [by destruct d3|]. exists j. split; [by destruct d3|done].
  - split; [by destruct d3|]. exists j. split; [by destruct d3|done].
  - split; [|by exists j]. rewrite Hs3 by lia. destruct (Hs2 eq_refl) as [-> _]. congruence.
Qed.

Lemma push_to_sq_cq depth x d : dr_cq (fst (push_to_sq depth x d)) = dr_cq d.
Proof.
  destruct d as [rs ch p sq k cq c fs]. unfold push_to_sq. cbn. destruct (rs !! x) as [[q s]|]; [|done].
  destruct (build_sqe c x q s); [|done]. by destruct (_ <=? _)%nat.
Qed.

Lemma turn_cq depth submitted d : Inv None [] d -> dr_cq (turn depth submitted d) = [].
Proof.
  intros HI. assert (Hpush : forall rs d pushed, dr_cq (fst (push_all depth rs d pushed)) = dr_cq d).
  { induction rs as [|x rs IH]; intros d0 pushed; [done|]. cbn [push_all]. pose proof (push_to_sq_cq depth x d0) as Hc.
    destruct (push_to_sq depth x d0) as [d1 ok]. rewrite IH. exact Hc. }
  assert (Hrec : forall ch batch d, dr_cq (fst (receive depth ch batch d)) = dr_cq d).
  { induction ch as [|x ch IH]; intros batch d0; [done|]. cbn [receive].
    pose proof (push_to_sq_cq depth x (set_channel ch d0)) as Hc. destruct (push_to_sq depth x _) as [d1 ok].
    cbn [fst] in *. assert (dr_cq d1 = dr_cq d0) as Hd by (rewrite Hc; by destruct d0).
    destruct (_ <=? _)%nat; [done|]. by rewrite IH. }
  unfold turn. pose proof (process_completions_inv (dr_cq d) d [] [] eq_refl HI) as Hp.
  destruct (process_completions (dr_cq d) d []) as [d1 retries]. destruct Hp as [_ Hp].
  specialize (Hpush retries d1 false). destruct (push_all depth retries d1 false) as [d2 needs].
  specialize (Hrec (dr_channel d2) 0%nat d2). destruct (receive depth (dr_channel d2) 0 d2) as [d3 batch].
  cbn [fst] in *. assert (dr_cq d3 = []) by congruence. destruct (_ && _); [by destruct d3|done].
Qed.

Lemma kernel_step_inv d d' :
  kernel_step d d' -> Inv None [] d ->
  Inv None [] d' /\ dr_sq d' = dr_sq d /\ dr_channel d' = dr_channel d /\ forall r, keeps r d d'.
Proof.
  destruct 1 as [before e after q st res buffer file Hk Hq Ha]. intros HI. split; [by eapply finish_inv|].
  split; [done|]. split; [done|]. intros r q0 s0 Hr. cbn. destruct (decide (r = sqe_request e)) as [->|Hne].
  - rewrite lookup_insert_eq. rewrite Hq in Hr. injection Hr as <- <-. by eexists.
  - rewrite lookup_insert_ne by done. by exists s0.
Qed.

Lemma kernel_steps_inv d d' :
  rtc kernel_step d d' -> Inv None [] d ->
  Inv None [] d' /\ dr_sq d' = dr_sq d /\ dr_channel d' = dr_channel d /\ forall r, keeps r d d'.
Proof.
  induction 1 as [d|d1 d2 d3 Hs _ IH]; intros HI.
  { split; [done|]. split; [done|]. split; [done|]. intros r. apply keeps_refl. }
  destruct (kernel_step_inv _ _ Hs HI) as (HI2 & Hsq & Hch & Hk). destruct (IH HI2) as (HI3 & Hsq3 & Hch3 & Hk3).
  split; [done|]. split; [congruence|]. split; [congruence|]. intros r. by eapply keeps_trans.
Qed.

Lemma turn_stays depth submitted d r : stays r d (turn depth submitted d).
Proof.
  unfold turn. pose proof (process_completions_stays (dr_cq d) d [] r) as H1.
  destruct (process_completions (dr_cq d) d []) as [d1 retries]. cbn [fst] in *.
  pose proof (push_all_keeps depth retries d1 false r) as Hp. destruct (push_all depth retries d1 false) as [d2 needs].
  pose proof (receive_keeps depth (dr_channel d2) 0 d2 r) as Hr. destruct (receive depth (dr_channel d2) 0 d2) as [d3 batch].
  pose proof (keeps_trans _ _ _ _ Hp Hr) as [_ Hk]%keeps_moves. cbn [fst] in *. intros q s Hq Hc.
  destruct (H1 q s Hq Hc) as (s1 & Hq1 & Hc1). destruct (Hk q s1 Hq1 Hc1) as (s3 & Hq3 & Hc3). exists s3.
  destruct (_ && _); [by destruct d3|done].
Qed.

(** A round moves every transfer that is not waiting in the channel. *)
Lemma round_progress depth d d' :
  round depth d d' -> Inv None [] d -> dr_sq d = [] ->
  Inv None [] d' /\ dr_sq d' = [] /\ dr_cq d' = [] /\
  (exists j, dr_channel d' = drop j (dr_channel d) /\ (dr_channel d <> [] -> (1 <= j)%nat)) /\
  forall r, stays r d d' /\ moves 0 r d d' /\ (r ∉ dr_channel d -> moves 1 r d d').
Proof.
  intros (d0 & Hrtc & Hk0 & ->) HI Hsq. destruct (kernel_steps_inv _ _ Hrtc HI) as (HI0 & Hsq0 & Hch0 & Hkeep).
  rewrite Hsq in Hsq0. destruct (turn_queues depth d0 Hsq0) as [Hsq' Hch']. rewrite Hch0 in Hch'.
  split; [by apply turn_inv|]. split; [done|]. split; [|split; [done|]].
  - by apply turn_cq.
  - intros r. destruct (keeps_moves _ _ _ (Hkeep r)) as [Hm0 Hst0]. split.
    { intros q s Hq Hc. destruct (Hst0 q s Hq Hc) as (s0 & Hq0 & Hc0). by apply (turn_stays depth true d0 r q s0). }
    split.
    { apply (moves_trans 0 0 _ _ d0); [done| |apply turn_stays]. apply turn_moves, process_completions_moves. }
    intros Hnch. rewrite <- (Z.add_0_l 1). apply (moves_trans 0 1 _ _ d0); [done| |apply turn_stays].
    apply turn_moves. intros q s Hq. destruct (rs_completed s) eqn:Hc.
    { destruct (process_completions_stays (dr_cq d0) d0 [] r q s Hq Hc) as (s' & ? & ?). eauto. }
    destruct (proj2 (inv_open _ _ _ HI0 r)) as [Hin|[ud Hu]]; [eauto|cbn in Hin; rewrite Hch0 in Hin; done|].
    assert (Hud : ud ∈ rings d0) by (apply (inv_pending _ _ _ HI0); eauto).
    unfold rings in Hud. rewrite Hsq0, Hk0 in Hud. cbn in Hud. apply list_elem_of_fmap in Hud as ([u res] & -> & Hin).
    exact (process_completions_progress (dr_cq d0) d0 [] [] r u res HI0 eq_refl Hin Hu q s Hq).
Qed.

Lemma rounds_inv depth n d d' :
  nsteps (round depth) n d d' -> Inv None [] d -> dr_sq d = [] ->
  Inv None [] d' /\ dr_sq d' = [] /\ (dr_cq d = [] -> dr_cq d' = []) /\
  (length (dr_channel d') <= length (dr_channel d) - n)%nat /\ (forall r, stays r d d') /\ forall r, moves 0 r d d'.
Proof.
  induction 1 as [d|n d1 d2 d3 Hr _ IH]; intros HI Hsq.
  { repeat (split; [done || lia|]). split; [intros r q s; eauto|intros r; apply moves_refl]. }
  destruct (round_progress _ _ _ Hr HI Hsq) as (HI2 & Hsq2 & Hcq2 & (j & Hch & Hj) & Hp).
  destruct (IH HI2 Hsq2) as (HI3 & Hsq3 & Hcq3 & Hch3 & Hst & Hmv). split; [done|]. split; [done|]. split; [auto|]. split; [|split].
  - rewrite Hch, length_drop in Hch3. destruct (dr_channel d1); [cbn in *; lia|]. specialize (Hj ltac:(done)). cbn in *. lia.
  - intros r q s Hq Hc. destruct (proj1 (Hp r) q s Hq Hc) as (s2 & Hq2 & Hc2). by apply (Hst r q s2).
  - intros r. apply (moves_trans 0 0 _ _ d2); [apply Hp|done|done].
Qed.

Lemma rounds_move depth n d d' r :
  nsteps (round depth) n d d' -> Inv None [] d -> dr_sq d = [] -> dr_channel d = [] -> moves (Z.of_nat n) r d d'.
Proof.
  induction 1 as [d|n d1 d2 d3 Hr Hn IH]; intros HI Hsq Hch; [apply moves_refl|].
  destruct (round_progress _ _ _ Hr HI Hsq) as (HI2 & Hsq2 & _ & (j & Hch2 & _) & Hp).
  rewrite Hch, drop_nil in Hch2. rewrite Nat2Z.inj_succ, <- Z.add_1_l.
  eapply moves_trans; [|by apply IH|by apply (rounds_inv _ _ _ _ Hn)]. apply Hp. rewrite Hch. apply not_elem_of_nil.
Qed.

(** An open request without a result has moved less than it asked for. *)
Lemma open_transfer d r q s :
  Inv None [] d -> dr_cq d = [] -> dr_requests d !! r = Some (q, s) -> rs_completed s = false ->
  0 <= rs_transferred s < Z.max 1 (rq_length q).
Proof.
  intros HI Hcq Hr Hc. destruct (inv_requests _ _ _ HI r q s Hr ltac:(done)) as (_ & _ & Hi). rewrite Hc in Hi.
  destruct Hi as (_ & _ & _ & Hs). destruct Hs as [Hm Ht].
  { intros ud res _. rewrite Hcq. apply not_elem_of_nil. }
  unfold moved in Hm. destruct (rq_op q); lia.
Qed.

(** C2. The driver answers every request in time.  From any state it can reach with nothing left
    unsubmitted, when the kernel answers what it is given, however short, and the
    submissions succeed, a request is answered after as many rounds as there are requests
    in the channel, bytes in its transfer and one or two more: no transfer is forgotten
    between two pieces, and none is retried without end. *)
Theorem driver_finishes_requests (depth : nat) (d d' : Driver) (n : nat) (r : nat) (q : IoRequest) (s : RequestState) :
  rtc (driver_step content depth) empty_driver d -> dr_sq d = [] -> dr_requests d !! r = Some (q, s) ->
  nsteps (round depth) n d d' ->
  Z.of_nat (length (dr_channel d)) + 1 + Z.max 1 (rq_length q) <= Z.of_nat n ->
  exists s', dr_requests d' !! r = Some (q, s') /\ rs_completed s' = true.
Proof.
  intros Hreach Hsq Hr Hn Hlen. pose proof (reachable_inv depth d Hreach) as HI.
  replace n with (S (length (dr_channel d)) + (n - S (length (dr_channel d))))%nat in Hn by lia.
  apply nsteps_add_inv in Hn as (d1 & Hn1 & Hn2). destruct (rounds_inv _ _ _ _ Hn1 HI Hsq) as (HI1 & Hsq1 & _ & Hch1 & _ & Hm1).
  assert (Hch : dr_channel d1 = []) by (destruct (dr_channel d1); [done|cbn in *; lia]).
  assert (Hcq1 : dr_cq d1 = []).
  { inversion Hn1 as [|? ? d2 ? Hround Hrest]; subst. destruct (round_progress _ _ _ Hround HI Hsq) as (HI2 & Hsq2 & Hcq2 & _).
    by apply (rounds_inv _ _ _ _ Hrest). }
  destruct (Hm1 r q s Hr) as (s1 & Hr1 & _).
  destruct (rounds_inv _ _ _ _ Hn2 HI1 Hsq1) as (HI3 & Hsq3 & Hcq3 & _ & Hst & _).
  destruct (rs_completed s1) eqn:Hc1; [by apply (Hst r q s1)|].
  pose proof (open_transfer d1 r q s1 HI1 Hcq1 Hr1 Hc1) as Ht1.
  destruct (rounds_move _ _ _ _ r Hn2 HI1 Hsq1 Hch q s1 Hr1) as (s' & Hr' & Hm). exists s'. split; [done|].
  destruct (rs_completed s') eqn:Hc'; [done|]. pose proof (open_transfer d' r q s' HI3 (Hcq3 Hcq1) Hr' Hc') as Ht'.
  destruct Hm as [?|Hm]; [done|]. lia.
Qed.
End Invariant.

(** ** A read in two pieces *)

Module UringDemo.
Definition content (fd : Z) : bytes := if fd =? 7 then [5; 6; 7] else [].

Definition request : IoRequest := mkIoRequest 7 1 2 OpRead [0; 0].

(** The kernel answers the entry at the head of its work with one byte of file 7. *)
Definition one_byte (buffer : bytes) (d : Driver) : Driver :=
  match dr_kernel d with
  | e :: after =>
      match dr_requests d !! sqe_request e with
      | Some (q, st) => finish e 1 buffer (dr_files d !! sqe_fd e) [] after q st d
      | None => d
      end
  | [] => d
  end.

Definition submitted : Driver := submit_request 4 0 request (create_file request empty_driver).
Definition pushed : Driver := turn 4 true submitted.
Definition first_byte : Driver := one_byte [6; 0] pushed.
Definition retried : Driver := turn 4 true first_byte.
Definition second_byte : Driver := one_byte [6; 7] retried.
Definition finished : Driver := turn 4 true second_byte.

Lemma step_first : kernel_step content pushed first_byte.
Proof.
  eapply (KernelStep content pushed [] _ [] _ _ 1 [6; 0] None); [reflexivity|reflexivity|].
  exact (AnswerRead content (mkSqe 1 0 OpRead 7 0 1 2) [0; 0] None 1 eq_refl
    ltac:(by vm_compute) ltac:(by vm_compute) ltac:(done)).
Defined.

Lemma step_second : kernel_step content retried second_byte.
Proof.
  eapply (KernelStep content retried [] _ [] _ _ 1 [6; 7] None); [reflexivity|reflexivity|].
  exact (AnswerRead content (mkSqe 2 0 OpRead 7 1 2 1) [6; 0] None 1 eq_refl
    ltac:(by vm_compute) ltac:(by vm_compute) ltac:(done)).
Defined.

Lemma kernel_driver d d' : kernel_step content d d' -> driver_step content 4 d d'.
Proof. destruct 1. by eapply StepKernel. Defined.

Lemma reach_submitted : rtc (driver_step content 4) empty_driver submitted.
Proof.
  apply rtc_once. apply (StepSubmit content 4 empty_driver 0 request); [reflexivity|by vm_compute|done].
Defined.

Lemma reach_finished : rtc (driver_step content 4) empty_driver finished.
Proof.
  transitivity submitted; [exact reach_submitted|].
  eapply (rtc_l _ _ pushed); [exact (StepTurn content 4 submitted true)|].
  eapply (rtc_l _ _ first_byte); [exact (kernel_driver _ _ step_first)|].
  eapply (rtc_l _ _ retried); [exact (StepTurn content 4 first_byte true)|].
  eapply (rtc_l _ _ second_byte); [exact (kernel_driver _ _ step_second)|].
  apply rtc_once. exact (StepTurn content 4 second_byte true).
Defined.

Lemma four_rounds : nsteps (round content 4) 4 submitted (turn 4 true finished).
Proof.
  apply (nsteps_l _ 3 _ pushed); [exists submitted; by split; [apply rtc_refl|]|].
  apply (nsteps_l _ 2 _ retried); [exists first_byte; by split; [apply rtc_once, step_first|]|].
  apply (nsteps_l _ 1 _ finished); [exists second_byte; by split; [apply rtc_once, step_second|]|].
  apply (nsteps_l _ 0 _ (turn 4 true finished)); [exists finished; by split; [apply rtc_refl|]|apply nsteps_O].
Defined.
End UringDemo.

Lemma driver_answers_requests_witness :
  exists s, dr_requests UringDemo.finished !! 0%nat = Some (UringDemo.request, s) /\
    snd (poll s) = Some (2, [6; 7]) /\ outcome_ok UringDemo.content (dr_files UringDemo.finished) UringDemo.request 2 [6; 7].
Proof.
  eexists. split; [reflexivity|]. split; [reflexivity|].
  refine (proj2 (proj2 (proj2 (proj2 (driver_answers_requests UringDemo.content 4 UringDemo.finished 0
    UringDemo.request _ UringDemo.reach_finished eq_refl)))) 2 [6; 7] eq_refl).
Defined.

Lemma driver_finishes_requests_witness :
  exists s', dr_requests (turn 4 true UringDemo.finished) !! 0%nat = Some (UringDemo.request, s') /\ rs_completed s' = true.
Proof.
  refine (driver_finishes_requests UringDemo.content 4 UringDemo.submitted (turn 4 true UringDemo.finished) 4 0
    UringDemo.request _ UringDemo.reach_submitted eq_refl eq_refl UringDemo.four_rounds _).
  by vm_compute.
Defined.

(** A submission that fails is not repeated until another request comes in: the entry stays in
    the queue, turn after turn. *)
Example failed_submission_waits :
  let d := turn 4 false UringDemo.submitted in
  turn 4 true d = d /\ length (dr_sq d) = 1%nat /\ dr_kernel d = [].
Proof. by vm_compute. Qed.

(** An empty page cannot be written: its request fails without reaching the kernel. *)
Example empty_write_fails :
  let d := turn 4 true (submit_request 4 0 (mkIoRequest 9 0 0 OpWrite []) empty_driver) in
  snd (poll_request 0 d) = Some (-5, []) /\ dr_kernel d = [].
Proof. by vm_compute. Qed.
