(* ===== verification/UringStore.v ===== *)
(** * io_uring page store (src/src/cache/store/uring/store.rs)

    [UringPageStore] over the files of the process: pages are inodes with names, and an open
    descriptor is an inode, so that a file replaced or unlinked behind a cached descriptor
    can still be read through it.  [get_bytes], [put] and [delete] are state machines with
    one step per system call or cache operation; what the system answers is an input of
    the step.  A read or a write that succeeds is complete, which is what [Uring] shows of
    the driver.  Tasks interleave under the page locks of the cache manager
    (src/src/cache/manager.rs): readers together, a writer alone. *)

From S2P Require Import Prelude Errors PageCache PageStore.

(** ** The process *)

Definition DIR_FD_TTL : Z := 300 * 1000000000.
Definition DIR_FD_CACHE_SOFT_CAP : nat := 4096.
Definition PAGE_FD_CACHE_TTL : Z := 60 * 1000000000.

Record PageFdEntry : Type := mkPageFdEntry {
  fe_inode : nat;
  fe_inserted_at : Z;
}.

(** [inserted_at.elapsed() > PAGE_FD_CACHE_TTL]. *)
Definition is_expired (now : Z) (e : PageFdEntry) : bool := PAGE_FD_CACHE_TTL <? now - fe_inserted_at e.

(** Files by root directory and [PageStore]'s paths, and the process-wide [PAGE_FD_CACHE]. *)
Record Process : Type := mkProcess {
  pr_data : gmap nat bytes;
  pr_names : gmap (string * (string * PageName)) nat;
  pr_dirs : gset (string * string);
  pr_next : nat;
  pr_fds : gmap PageId PageFdEntry;
}.

Definition set_data (d : gmap nat bytes) (w : Process) : Process :=
  mkProcess d (pr_names w) (pr_dirs w) (pr_next w) (pr_fds w).
Definition set_names (n : gmap (string * (string * PageName)) nat) (w : Process) : Process :=
  mkProcess (pr_data w) n (pr_dirs w) (pr_next w) (pr_fds w).
Definition set_fds (f : gmap PageId PageFdEntry) (w : Process) : Process :=
  mkProcess (pr_data w) (pr_names w) (pr_dirs w) (pr_next w) f.

(** The bytes behind a descriptor. *)
Definition inode_data (w : Process) (i : nat) : bytes := default [] (pr_data w !! i).

(** The page as it is on disk. *)
Definition page_of (root : string) (w : Process) (p : PageId) : option bytes :=
  inode_data w <$> pr_names w !! (root, page_path p).

(** The directory descriptors of a store, by their last use. *)
Definition DirFds : Type := gmap string Z.

Definition maybe_cleanup_dir_fd_cache (now : Z) (fds : DirFds) : DirFds :=
  if (size fds <=? DIR_FD_CACHE_SOFT_CAP)%nat then fds
  else filter (fun kv => u64_saturating_sub now (snd kv) <= DIR_FD_TTL) fds.

(** A failed system call; only [ErrorKind::NotFound] matters. *)
Inductive Fault : Type := FaultNotFound | FaultOther (what : string).

Record StoreError : Type := mkStoreError { se_context : string; se_fault : Fault }.

(** ** Reading *)

(** [pread_read_sync]: [None] is an interrupted call, [Some n] one that may return [n] bytes; the
    last call fills the buffer or meets the end of the file. *)
Fixpoint pread_read_sync (content : bytes) (offset len filled : Z) (calls : list (option Z)) : bytes :=
  if len <=? filled then []
  else
    match calls with
    | [] => slice (offset + filled) (offset + len) content
    | None :: calls => pread_read_sync content offset len filled calls
    | Some n :: calls =>
        let n := Z.min (Z.max 1 n) (Z.min (len - filled) (zlen content - (offset + filled))) in
        if n <=? 0 then []
        else slice (offset + filled) (offset + filled + n) content
             ++ pread_read_sync content offset len (filled + n) calls
    end.

Inductive GetPc : Type :=
| GetLookup
| GetExpired
| GetHit (inode : nat)
| GetDir
| GetOpen
| GetRead (inode : nat)
| GetInsert (inode : nat) (read : bytes).

(** What a step goes on to, or returns. *)
Abbreviation Goes pc A := (pc + result StoreError A)%type.

Section Steps.
Context (root : string).

(** [evicted]: the descriptors the cache drops on an insertion. *)
Definition get_step (p : PageId) (offset len now : Z) (fault : option Fault) (evicted : list PageId) (pc : GetPc)
    (w : Process) (dirs : DirFds) : Process * DirFds * Goes GetPc bytes :=
  match pc with
  | GetLookup =>
      if len =? 0 then (w, dirs, inr (Ok []))
      else match pr_fds w !! p with
           | Some e => (w, dirs, inl (if is_expired now e then GetExpired else GetHit (fe_inode e)))
           | None => (w, dirs, inl GetDir)
           end
  | GetExpired => (set_fds (delete p (pr_fds w)) w, dirs, inl GetDir)
  | GetHit i =>
      match fault with
      | None => (w, dirs, inr (Ok (slice offset (offset + len) (inode_data w i))))
      | Some f =>
          (set_fds (delete p (pr_fds w)) w, dirs,
           inr match f with
               | FaultNotFound => Ok []
               | FaultOther _ => Err (mkStoreError "uring read (page fd cache hit)" f)
               end)
      end
  | GetDir =>
      match dirs !! pg_file_id p with
      | Some _ => (w, <[pg_file_id p := now]> dirs, inl GetOpen)
      | None =>
          match fault with
          | Some FaultNotFound => (w, dirs, inr (Ok []))
          | Some f => (w, dirs, inr (Err (mkStoreError "uring open dir" f)))
          | None =>
              if decide ((root, pg_file_id p) ∈ pr_dirs w)
              then (w, maybe_cleanup_dir_fd_cache now (<[pg_file_id p := now]> dirs), inl GetOpen)
              else (w, dirs, inr (Ok []))
          end
      end
  | GetOpen =>
      match fault with
      | Some FaultNotFound => (w, dirs, inr (Ok []))
      | Some f => (w, dirs, inr (Err (mkStoreError "uring open page" f)))
      | None =>
          match pr_names w !! (root, page_path p) with
          | Some i => (w, dirs, inl (GetRead i))
          | None => (w, dirs, inr (Ok []))
          end
      end
  | GetRead i =>
      match fault with
      | Some FaultNotFound => (w, dirs, inr (Ok []))
      | Some f => (w, dirs, inr (Err (mkStoreError "uring read" f)))
      | None => (w, dirs, inl (GetInsert i (slice offset (offset + len) (inode_data w i))))
      end
  | GetInsert i read =>
      let fds := <[p := mkPageFdEntry i now]> (pr_fds w) in
      (set_fds (foldr delete fds evicted) w, dirs, inr (Ok read))
  end.

(** ** Writing and deleting *)

Inductive PutPc : Type :=
| PutMkdir
| PutOpenTmp
| PutWrite (inode : nat)
| PutRename (inode : nat)
| PutInvalidate.

(** [partial]: the bytes of a failed write that reached the file; [cleanup]: the removal of the
    temporary file after a failed rename succeeds. *)
Definition put_step (p : PageId) (page : bytes) (uuid : string) (fault : option Fault) (partial : nat) (cleanup : bool)
    (pc : PutPc) (w : Process) : Process * Goes PutPc unit :=
  let tmp := (root, (pg_file_id p, PageTmp (pg_index p) uuid)) in
  let fail context f := inr (Err (mkStoreError context f)) in
  match pc, fault with
  | PutMkdir, Some f => (w, fail "create page dir"%string f)
  | PutMkdir, None =>
      (mkProcess (pr_data w) (pr_names w) ({[(root, pg_file_id p)]} ∪ pr_dirs w) (pr_next w) (pr_fds w), inl PutOpenTmp)
  | PutOpenTmp, Some f => (w, fail "uring open tmp"%string f)
  | PutOpenTmp, None =>
      match pr_names w !! tmp with
      | Some i => (set_data (<[i := []]> (pr_data w)) w, inl (PutWrite i))
      | None =>
          let i := pr_next w in
          (mkProcess (<[i := []]> (pr_data w)) (<[tmp := i]> (pr_names w)) (pr_dirs w) (S i) (pr_fds w), inl (PutWrite i))
      end
  | PutWrite i, Some f => (set_data (<[i := take partial page]> (pr_data w)) w, fail "uring write"%string f)
  | PutWrite i, None => (set_data (<[i := page]> (pr_data w)) w, inl (PutRename i))
  | PutRename _, Some f =>
      (if cleanup then set_names (delete tmp (pr_names w)) w else w, fail "rename temp page file"%string f)
  | PutRename i, None =>
      (set_names (<[(root, page_path p) := i]> (delete tmp (pr_names w))) w, inl PutInvalidate)
  | PutInvalidate, _ => (set_fds (delete p (pr_fds w)) w, inr (Ok tt))
  end.

Inductive DeletePc : Type := DeleteInvalidate | DeleteUnlink.

Definition delete_step (p : PageId) (fault : option Fault) (pc : DeletePc) (w : Process) : Process * Goes DeletePc unit :=
  match pc with
  | DeleteInvalidate => (set_fds (delete p (pr_fds w)) w, inl DeleteUnlink)
  | DeleteUnlink =>
      match fault with
      | Some FaultNotFound => (w, inr (Ok tt))
      | Some f => (w, inr (Err (mkStoreError "uring unlink" f)))
      | None => (set_names (delete (root, page_path p) (pr_names w)) w, inr (Ok tt))
      end
  end.

(** ** Tasks *)

Inductive Task : Type :=
| TGet (p : PageId) (offset len : Z) (pc : GetPc)
| TPut (p : PageId) (page : bytes) (uuid : string) (pc : PutPc)
| TDelete (p : PageId) (pc : DeletePc).

Inductive TaskResult : Type :=
| GotBytes (r : result StoreError bytes)
| PutDone (r : result StoreError unit)
| DeleteDone (r : result StoreError unit).

Definition task_page (t : Task) : PageId :=
  match t with TGet p _ _ _ | TPut p _ _ _ | TDelete p _ => p end.

Definition is_writer (t : Task) : bool := match t with TGet _ _ _ _ => false | _ => true end.

Definition starts (t : Task) : bool :=
  match t with
  | TGet _ _ _ GetLookup | TPut _ _ _ PutMkdir | TDelete _ DeleteInvalidate => true
  | _ => false
  end.

(** What the system does in one step. *)
Record Chance : Type := mkChance {
  ch_now : Z;
  ch_fault : option Fault;
  ch_evicted : list PageId;
  ch_partial : nat;
  ch_cleanup : bool;
}.

Definition task_step (x : Chance) (t : Task) (w : Process) (dirs : DirFds) : Process * DirFds * (Task + TaskResult) :=
  match t with
  | TGet p offset len pc =>
      let '(w, dirs, r) := get_step p offset len (ch_now x) (ch_fault x) (ch_evicted x) pc w dirs in
      (w, dirs, match r with inl pc => inl (TGet p offset len pc) | inr r => inr (GotBytes r) end)
  | TPut p page uuid pc =>
      let '(w, r) := put_step p page uuid (ch_fault x) (ch_partial x) (ch_cleanup x) pc w in
      (w, dirs, match r with inl pc => inl (TPut p page uuid pc) | inr r => inr (PutDone r) end)
  | TDelete p pc =>
      let '(w, r) := delete_step p (ch_fault x) pc w in
      (w, dirs, match r with inl pc => inl (TDelete p pc) | inr r => inr (DeleteDone r) end)
  end.

Record World : Type := mkWorld {
  wo_process : Process;
  wo_dirs : DirFds;
  wo_tasks : gmap nat Task;
}.

(** The page lock lets a reader in beside readers, and a writer in alone. *)
Definition may_start (t : Task) (tasks : gmap nat Task) : Prop :=
  forall id t', tasks !! id = Some t' -> task_page t' = task_page t -> is_writer t = false /\ is_writer t' = false.

(** A step may return the result of a task, with the chance it returned by. *)
Inductive world_step (w : World) : option (Task * Chance * TaskResult) -> World -> Prop :=
| WorldStart id t :
    wo_tasks w !! id = None -> starts t = true -> may_start t (wo_tasks w) ->
    world_step w None (mkWorld (wo_process w) (wo_dirs w) (<[id := t]> (wo_tasks w)))
| WorldGo id t x t' process dirs :
    wo_tasks w !! id = Some t -> task_step x t (wo_process w) (wo_dirs w) = (process, dirs, inl t') ->
    world_step w None (mkWorld process dirs (<[id := t']> (wo_tasks w)))
| WorldDone id t x r process dirs :
    wo_tasks w !! id = Some t -> task_step x t (wo_process w) (wo_dirs w) = (process, dirs, inr r) ->
    world_step w (Some (t, x, r)) (mkWorld process dirs (delete id (wo_tasks w)))
| WorldEvict p :
    world_step w None
      (mkWorld (set_fds (delete p (pr_fds (wo_process w))) (wo_process w)) (wo_dirs w) (wo_tasks w)).
End Steps.

Definition empty_process : Process := mkProcess ∅ ∅ ∅ 0 ∅.
Definition empty_world : World := mkWorld empty_process ∅ ∅.

(** ** Invariant *)

Section Invariant.
Context (root : string).

Definition tmp_name (p : PageId) (uuid : string) : string * (string * PageName) :=
  (root, (pg_file_id p, PageTmp (pg_index p) uuid)).

(** Every file has one name and lies in a directory that exists. *)
Record disk_ok (w : Process) : Prop := {
  dk_single : forall k k' i, pr_names w !! k = Some i -> pr_names w !! k' = Some i -> k = k';
  dk_next : forall k i, pr_names w !! k = Some i -> (i < pr_next w)%nat;
  dk_dirs : forall f n i, pr_names w !! (root, (f, n)) = Some i -> (root, f) ∈ pr_dirs w;
}.

(** What a task knows at its program counter. *)
Definition task_ok (w : Process) (t : Task) : Prop :=
  match t with
  | TGet p offset len pc =>
      match pc with
      | GetLookup => True
      | GetExpired | GetDir | GetOpen => len <> 0
      | GetHit i | GetRead i => len <> 0 /\ pr_names w !! (root, page_path p) = Some i
      | GetInsert i read =>
          len <> 0 /\ pr_names w !! (root, page_path p) = Some i /\ read = slice offset (offset + len) (inode_data w i)
      end
  | TPut p page uuid pc =>
      match pc with
      | PutMkdir => True
      | PutOpenTmp => (root, pg_file_id p) ∈ pr_dirs w
      | PutWrite i => pr_names w !! tmp_name p uuid = Some i
      | PutRename i => pr_names w !! tmp_name p uuid = Some i /\ pr_data w !! i = Some page
      | PutInvalidate => page_of root w p = Some page
      end
  | TDelete p pc => pc = DeleteUnlink -> pr_fds w !! p = None
  end.

(** Between its rename and its invalidation a [put] may leave an old descriptor in the cache. *)
Definition replacing (tasks : gmap nat Task) (p : PageId) : Prop :=
  exists id page uuid, tasks !! id = Some (TPut p page uuid PutInvalidate).

Definition fds_ok (w : Process) (tasks : gmap nat Task) : Prop :=
  forall p e, pr_fds w !! p = Some e -> ~ replacing tasks p -> pr_names w !! (root, page_path p) = Some (fe_inode e).

Definition locked (tasks : gmap nat Task) : Prop :=
  forall id id' t t', tasks !! id = Some t -> tasks !! id' = Some t' -> id <> id' -> task_page t = task_page t' ->
    is_writer t = false /\ is_writer t' = false.

Record store_inv (w : World) : Prop := {
  si_disk : disk_ok (wo_process w);
  si_locks : locked (wo_tasks w);
  si_fds : fds_ok (wo_process w) (wo_tasks w);
  si_tasks : forall id t, wo_tasks w !! id = Some t -> task_ok (wo_process w) t;
}.

(** *** Frames *)

(** The files of page [q], its temporary ones included. *)
Definition owns_name (q : PageId) (k : string * (string * PageName)) : Prop :=
  k = (root, page_path q) \/ exists uuid, k = tmp_name q uuid.

(** A step that leaves the files of page [q] alone. *)
Record leaves (q : PageId) (w w' : Process) : Prop := {
  lv_names : forall k, owns_name q k -> pr_names w' !! k = pr_names w !! k;
  lv_data : forall k i, owns_name q k -> pr_names w !! k = Some i -> pr_data w' !! i = pr_data w !! i;
  lv_dirs : pr_dirs w ⊆ pr_dirs w';
}.

Lemma owns_name_inj p q k : owns_name p k -> owns_name q k -> p = q.
Proof.
  destruct p as [f i], q as [g j]. unfold owns_name, tmp_name, page_path. cbn.
  intros [->|[u ->]] [H|[v H]]; congruence.
Qed.

Lemma leaves_page q w w' : leaves q w w' -> page_of root w' q = page_of root w q.
Proof.
  intros [Hn Hd _]. unfold page_of, inode_data. rewrite (Hn (root, page_path q)) by (by left).
  destruct (pr_names w !! (root, page_path q)) as [i|] eqn:Hi; [|done]. cbn. by rewrite (Hd _ _ (or_introl eq_refl) Hi).
Qed.

Lemma task_ok_frame w w' t :
  leaves (task_page t) w w' ->
  (is_writer t = true -> pr_fds w !! task_page t = None -> pr_fds w' !! task_page t = None) ->
  task_ok w t -> task_ok w' t.
Proof.
  intros Hl Hf. pose proof (leaves_page _ _ _ Hl) as Hpage. destruct Hl as [Hn Hd Hdir].
  destruct t as [p offset len pc|p page uuid pc|p pc]; cbn in *.
  - assert (Hpath : pr_names w' !! (root, page_path p) = pr_names w !! (root, page_path p)) by (apply Hn; by left).
    destruct pc; cbn; rewrite ?Hpath; try done. intros (Hl & Hi & ->). split; [done|]. split; [done|].
    unfold inode_data. by rewrite (Hd _ _ (or_introl eq_refl) Hi).
  - assert (Htmp : owns_name p (tmp_name p uuid)) by (right; eauto).
    destruct pc; cbn; rewrite ?(Hn _ Htmp); try done.
    + set_solver.
    + intros [Hi Hp]. split; [done|]. by rewrite (Hd _ _ Htmp Hi).
    + congruence.
  - intros H Hpc. auto.
Qed.

(** A read changes the cache of descriptors only. *)
Lemma get_step_frame p offset len now fault evicted pc w dirs :
  let '(w', dirs', r) := get_step root p offset len now fault evicted pc w dirs in
  pr_data w' = pr_data w /\ pr_names w' = pr_names w /\ pr_dirs w' = pr_dirs w /\ pr_next w' = pr_next w /\
  forall q e, pr_fds w' !! q = Some e ->
    pr_fds w !! q = Some e \/ exists i read, pc = GetInsert i read /\ q = p /\ fe_inode e = i.
Proof.
  assert (Hdel : forall q e, delete p (pr_fds w) !! q = Some e -> pr_fds w !! q = Some e)
    by (intros q e [_ H]%lookup_delete_Some; done).
  destruct pc; cbn;
    repeat match goal with |- context [match ?x with _ => _ end] =>
      lazymatch x with context [match _ with _ => _ end] => fail | _ => destruct x; cbn end end;
    (split; [done|]; split; [done|]; split; [done|]; split; [done|]); try (by intros ? ? H; left; auto).
  intros q e Hq. assert (Hin : <[p:=mkPageFdEntry inode now]> (pr_fds w) !! q = Some e).
  { clear -Hq. induction evicted as [|v evicted IH]; [done|]. cbn in Hq. apply lookup_delete_Some in Hq as [_ Hq]. auto. }
  apply lookup_insert_Some in Hin as [[<- <-]|[_ Hin]]; [right; eauto|by left].
Qed.

Lemma same_files_leaves q w w' :
  pr_data w' = pr_data w -> pr_names w' = pr_names w -> pr_dirs w' = pr_dirs w -> leaves q w w'.
Proof. intros Hd Hn Hdir. constructor; [by rewrite Hn|by rewrite Hd|by rewrite Hdir]. Qed.

(** What a read returns when the system lets it: the page as it is on disk. *)
Definition read_of (w : Process) (p : PageId) (offset len : Z) : bytes :=
  if len =? 0 then [] else from_option (slice offset (offset + len)) [] (page_of root w p).

Lemma read_of_inode w p offset len i :
  len <> 0 -> pr_names w !! (root, page_path p) = Some i ->
  slice offset (offset + len) (inode_data w i) = read_of w p offset len.
Proof. intros Hl Hi. unfold read_of, page_of. rewrite Hi. cbn. by destruct (Z.eqb_spec len 0). Qed.

Lemma read_of_none w p offset len :
  pr_names w !! (root, page_path p) = None -> read_of w p offset len = [].
Proof. intros Hi. unfold read_of, page_of. rewrite Hi. by destruct (len =? 0). Qed.

Lemma get_step_ok p offset len now fault evicted pc w dirs :
  disk_ok w -> (forall e, pr_fds w !! p = Some e -> pr_names w !! (root, page_path p) = Some (fe_inode e)) ->
  task_ok w (TGet p offset len pc) ->
  match get_step root p offset len now fault evicted pc w dirs with
  | (w', _, inl pc') => task_ok w' (TGet p offset len pc')
  | (_, _, inr (Ok b)) => fault = None -> b = read_of w p offset len
  | (_, _, inr (Err e)) => fault = Some (se_fault e)
  end.
Proof.
  intros Hdisk Hfd Ht. destruct pc as [| |i| | |i|i read]; cbn in *.
  - destruct (Z.eqb_spec len 0) as [->|Hl]; [done|]. destruct (pr_fds w !! p) as [e|] eqn:He; [|done].
    destruct (is_expired now e); cbn; auto.
  - done.
  - destruct fault as [[]|]; cbn; try done. intros _. destruct Ht. by apply read_of_inode.
  - destruct (dirs !! pg_file_id p); cbn; [done|]. destruct fault as [[]|]; cbn; try done.
    destruct (decide _) as [Hd|Hd]; cbn; [done|]. intros _. symmetry. apply read_of_none.
    destruct (pr_names w !! (root, page_path p)) as [i|] eqn:Hi; [|done]. by apply (dk_dirs w Hdisk) in Hi.
  - destruct fault as [[]|]; cbn; try done. destruct (pr_names w !! (root, page_path p)) as [i|] eqn:Hi; cbn; [done|].
    intros _. symmetry. by apply read_of_none.
  - destruct fault as [[]|]; cbn; try done. destruct Ht as [Hl Hi]. done.
  - destruct Ht as (Hl & Hi & ->). intros _. by apply read_of_inode.
Qed.

(** *** Writers *)

Lemma page_key_other p q : p <> q -> (root, page_path q) <> (root, page_path p).
Proof. intros Hne Heq. apply Hne. symmetry. apply (owns_name_inj q p (root, page_path q)); [by left|left; congruence]. Qed.

(** A file written under a name of [p] is not a file of [q]. *)
Lemma leaves_write w p q k i d :
  disk_ok w -> p <> q -> owns_name p k -> pr_names w !! k = Some i -> leaves q w (set_data (<[i := d]> (pr_data w)) w).
Proof.
  intros Hdisk Hne Hk Hi. constructor; cbn; try done. intros k' j Hk' Hj.
  apply lookup_insert_ne. intros ->. apply Hne. apply (owns_name_inj p q k); [done|].
  by rewrite (dk_single w Hdisk _ _ _ Hi Hj).
Qed.

Lemma leaves_create w p q uuid :
  disk_ok w -> p <> q ->
  leaves q w (mkProcess (<[pr_next w := []]> (pr_data w)) (<[tmp_name p uuid := pr_next w]> (pr_names w)) (pr_dirs w)
                (S (pr_next w)) (pr_fds w)).
Proof.
  intros Hdisk Hne. constructor; cbn; try done.
  - intros k Hk. apply lookup_insert_ne. intros <-. apply Hne. apply (owns_name_inj p q (tmp_name p uuid)); [right; eauto|done].
  - intros k i Hk Hi. apply lookup_insert_ne. intros <-. apply (dk_next w Hdisk) in Hi. lia.
Qed.

(** Names of [p] only are changed. *)
Lemma leaves_names w p q names :
  p <> q -> (forall k, ~ owns_name p k -> names !! k = pr_names w !! k) -> leaves q w (set_names names w).
Proof.
  intros Hne Hn. constructor; cbn; try done. intros k Hk. apply Hn. intros Hp. apply Hne. by eapply owns_name_inj.
Qed.

Lemma tmp_not_page p q uuid : tmp_name p uuid <> (root, page_path q).
Proof. unfold tmp_name, page_path. congruence. Qed.

Lemma disk_ok_delete w k : disk_ok w -> disk_ok (set_names (delete k (pr_names w)) w).
Proof.
  intros [H1 H2 H3]. constructor; cbn.
  - intros a b i [_ Ha]%lookup_delete_Some [_ Hb]%lookup_delete_Some. by eapply H1.
  - intros a i [_ Ha]%lookup_delete_Some. by eapply H2.
  - intros f n i [_ Ha]%lookup_delete_Some. by eapply H3.
Qed.

Lemma disk_ok_create w p uuid :
  disk_ok w -> (root, pg_file_id p) ∈ pr_dirs w ->
  disk_ok (mkProcess (<[pr_next w := []]> (pr_data w)) (<[tmp_name p uuid := pr_next w]> (pr_names w)) (pr_dirs w)
             (S (pr_next w)) (pr_fds w)).
Proof.
  intros [H1 H2 H3] Hd. constructor; cbn.
  - intros a b i [[<- <-]|[Ha Hi]]%lookup_insert_Some [[<- Hb]|[Hb Hj]]%lookup_insert_Some; try done.
    + apply H2 in Hj. lia.
    + subst i. apply H2 in Hi. lia.
    + by eapply H1.
  - intros a i [[<- <-]|[_ Hi]]%lookup_insert_Some; [lia|]. apply H2 in Hi. lia.
  - intros f n i [[[= <- <-] <-]|[_ Hi]]%lookup_insert_Some; [done|]. by eapply H3.
Qed.

Lemma disk_ok_rename w p uuid i :
  disk_ok w -> pr_names w !! tmp_name p uuid = Some i ->
  disk_ok (set_names (<[(root, page_path p) := i]> (delete (tmp_name p uuid) (pr_names w))) w).
Proof.
  intros [H1 H2 H3] Hi. constructor; cbn.
  - intros a b j [[<- <-]|[Ha [Ha' Hj]%lookup_delete_Some]]%lookup_insert_Some
      [[<- Hb]|[Hb [Hb' Hk]%lookup_delete_Some]]%lookup_insert_Some; try done.
    + exfalso. apply Hb'. by eapply H1.
    + subst j. exfalso. apply Ha'. by eapply H1.
    + by eapply H1.
  - intros a j [[<- <-]|[_ [_ Hj]%lookup_delete_Some]]%lookup_insert_Some; by eapply H2.
  - intros f n j [[[= <- <-] <-]|[_ [_ Hj]%lookup_delete_Some]]%lookup_insert_Some; [by eapply H3|by eapply H3].
Qed.

(** Writing to a temporary file changes no page. *)
Lemma page_of_write w p q uuid i d names dirs next fds :
  disk_ok w -> pr_names w !! tmp_name p uuid = Some i \/ (pr_next w <= i)%nat ->
  names !! (root, page_path q) = pr_names w !! (root, page_path q) ->
  page_of root (mkProcess (<[i := d]> (pr_data w)) names dirs next fds) q = page_of root w q.
Proof.
  intros Hdisk Hi Hn. unfold page_of, inode_data. cbn. rewrite Hn.
  destruct (pr_names w !! (root, page_path q)) as [j|] eqn:Hj; [|done]. cbn. rewrite lookup_insert_ne; [done|]. intros <-.
  destruct Hi as [Hi|Hi]; [|apply (dk_next w Hdisk) in Hj; lia].
  by apply (tmp_not_page p q uuid), (dk_single w Hdisk _ _ _ Hi).
Qed.

Lemma disk_ok_write w i d : disk_ok w -> disk_ok (set_data (<[i := d]> (pr_data w)) w).
Proof. intros [H1 H2 H3]. by constructor. Qed.

(** A step of a [put]: the files of other pages are left alone, the page changes at the rename
    only, and the descriptors at the invalidation only. *)
Lemma put_step_ok p page uuid fault partial cleanup pc w :
  disk_ok w -> task_ok w (TPut p page uuid pc) ->
  let '(w', r) := put_step root p page uuid fault partial cleanup pc w in
  disk_ok w' /\ (forall q, p <> q -> leaves q w w') /\
  (pr_fds w' = pr_fds w /\ pc <> PutInvalidate \/ pc = PutInvalidate /\ w' = set_fds (delete p (pr_fds w)) w) /\
  match r with
  | inl pc' => task_ok w' (TPut p page uuid pc') /\
      (pc' = PutInvalidate \/ (pr_names w' !! (root, page_path p) = pr_names w !! (root, page_path p) /\
                               page_of root w' p = page_of root w p))
  | inr (Ok _) => pc = PutInvalidate /\ w' = set_fds (delete p (pr_fds w)) w /\ page_of root w' p = Some page
  | inr (Err e) => pr_names w' !! (root, page_path p) = pr_names w !! (root, page_path p) /\
      page_of root w' p = page_of root w p /\ pc <> PutInvalidate /\ fault = Some (se_fault e)
  end.
Proof.
  intros Hdisk Ht. destruct pc as [| |i|i|]; destruct fault as [f|]; cbn [put_step]; fold (tmp_name p uuid).
  - split; [done|]. split; [by intros; apply same_files_leaves|]. split; [by left|done].
  - split; [destruct Hdisk; constructor; cbn; try done; set_solver|].
    split; [intros q Hq; constructor; cbn; try done; set_solver|]. split; [by left|]. cbn. split; [set_solver|by right].
  - split; [done|]. split; [by intros; apply same_files_leaves|]. split; [by left|done].
  - cbn in Ht. destruct (pr_names w !! tmp_name p uuid) as [i|] eqn:Hi.
    + split; [by apply disk_ok_write|].
      split; [intros q Hq; apply (leaves_write w p q (tmp_name p uuid)); try done; right; eauto|].
      split; [by left|]. split; [done|]. right. split; [done|]. apply (page_of_write w p p uuid); auto.
    + split; [by apply disk_ok_create|]. split; [intros q Hq; by apply leaves_create|]. split; [by left|].
      split; [apply lookup_insert_eq|]. right.
      assert (Hn : <[tmp_name p uuid := pr_next w]> (pr_names w) !! (root, page_path p) = pr_names w !! (root, page_path p))
        by (apply lookup_insert_ne, tmp_not_page).
      split; [exact Hn|]. apply (page_of_write w p p uuid); auto.
  - cbn in Ht. split; [by apply disk_ok_write|].
    split; [intros q Hq; apply (leaves_write w p q (tmp_name p uuid)); try done; right; eauto|].
    split; [by left|]. split; [done|]. split; [apply (page_of_write w p p uuid); auto|done].
  - cbn in Ht. split; [by apply disk_ok_write|].
    split; [intros q Hq; apply (leaves_write w p q (tmp_name p uuid)); try done; right; eauto|].
    split; [by left|]. split; [cbn; by rewrite lookup_insert_eq|]. right. split; [done|]. apply (page_of_write w p p uuid); auto.
  - destruct cleanup; [|split; [done|]; split; [by intros; apply same_files_leaves|]; split; [by left|done]].
    assert (Hn : delete (tmp_name p uuid) (pr_names w) !! (root, page_path p) = pr_names w !! (root, page_path p))
      by (apply lookup_delete_ne, tmp_not_page).
    split; [by apply disk_ok_delete|]. split.
    { intros q Hq. apply (leaves_names w p q); [done|]. intros k Hk. apply lookup_delete_ne. intros <-. apply Hk. right. eauto. }
    split; [by left|]. split; [exact Hn|]. split; [|done]. unfold page_of. cbn. by rewrite Hn.
  - destruct Ht as [Hi Hd]. split; [by apply disk_ok_rename|]. split.
    { intros q Hq. apply (leaves_names w p q); [done|]. intros k Hk. rewrite lookup_insert_ne by (intros <-; apply Hk; by left).
      apply lookup_delete_ne. intros <-. apply Hk. right. eauto. }
    split; [by left|]. split; [|by left]. cbn. unfold page_of. cbn. rewrite lookup_insert_eq. cbn. unfold inode_data. cbn. by rewrite Hd.
  - split; [by destruct Hdisk|]. split; [by intros; apply same_files_leaves|]. split; [by right|done].
  - split; [by destruct Hdisk|]. split; [by intros; apply same_files_leaves|]. split; [by right|done].
Qed.

Lemma delete_step_ok p fault pc w :
  disk_ok w -> task_ok w (TDelete p pc) ->
  let '(w', r) := delete_step root p fault pc w in
  disk_ok w' /\ (forall q, p <> q -> leaves q w w') /\
  (pr_fds w' = pr_fds w /\ pc = DeleteUnlink \/ w' = set_fds (delete p (pr_fds w)) w) /\
  match r with
  | inl pc' => task_ok w' (TDelete p pc') /\ w' = set_fds (delete p (pr_fds w)) w
  | inr (Ok _) => pc = DeleteUnlink /\ (fault = None -> page_of root w' p = None)
  | inr (Err e) => pc = DeleteUnlink /\ w' = w /\ fault = Some (se_fault e)
  end.
Proof.
  intros Hdisk Ht. destruct pc; cbn [delete_step].
  - split; [by destruct Hdisk|]. split; [by intros; apply same_files_leaves|]. split; [by right|].
    split; [|done]. intros _. apply lookup_delete_eq.
  - destruct fault as [[|what]|].
    + split; [done|]. split; [by intros; apply same_files_leaves|]. split; [by left|done].
    + split; [done|]. split; [by intros; apply same_files_leaves|]. split; [by left|done].
    + split; [by apply disk_ok_delete|]. split.
      { intros q Hq. apply (leaves_names w p q); [done|]. intros k Hk. apply lookup_delete_ne. intros <-. apply Hk. by left. }
      split; [by left|]. split; [done|]. intros _. unfold page_of. cbn. by rewrite lookup_delete_eq.
Qed.

(** *** Tasks *)

(** What a result promises: by the process before and after the last step. *)
Definition result_ok (x : Chance) (t : Task) (w w' : Process) (r : TaskResult) : Prop :=
  match t, r with
  | TGet p offset len _, GotBytes (Ok b) => ch_fault x = None -> b = read_of w p offset len
  | TPut p page _ _, PutDone (Ok _) => page_of root w' p = Some page
  | TPut p _ _ _, PutDone (Err e) => page_of root w' p = page_of root w p /\ ch_fault x = Some (se_fault e)
  | TDelete p _, DeleteDone (Ok _) => ch_fault x = None -> page_of root w' p = None
  | TDelete p _, DeleteDone (Err e) => page_of root w' p = page_of root w p /\ ch_fault x = Some (se_fault e)
  | TGet _ _ _ _, GotBytes (Err e) => ch_fault x = Some (se_fault e)
  | _, _ => False
  end.

Definition invalidating (p : PageId) (t : Task) : Prop := exists page uuid, t = TPut p page uuid PutInvalidate.

(** What one step of a task guarantees to itself and to the others. *)
Record step_ok (x : Chance) (t : Task) (w w' : Process) (out : Task + TaskResult) : Prop := {
  st_disk : disk_ok w';
  st_leaves : forall q, task_page t <> q \/ is_writer t = false -> leaves q w w';
  st_fds : forall q e, pr_fds w' !! q = Some e ->
    pr_fds w !! q = Some e \/
    is_writer t = false /\ q = task_page t /\ pr_names w' !! (root, page_path q) = Some (fe_inode e);
  st_page : pr_fds w' !! task_page t = None \/
    (exists t', out = inl t' /\ invalidating (task_page t) t') \/
    pr_names w' !! (root, page_path (task_page t)) = pr_names w !! (root, page_path (task_page t)) /\
    ~ invalidating (task_page t) t;
  st_next : forall t', out = inl t' -> task_ok w' t' /\ task_page t' = task_page t /\ is_writer t' = is_writer t;
  st_result : forall r, out = inr r -> result_ok x t w w' r;
  st_kept : page_of root w' (task_page t) = page_of root w (task_page t) \/
    (exists page uuid, out = inl (TPut (task_page t) page uuid PutInvalidate) /\
       page_of root w' (task_page t) = Some page) \/
    (exists pc, t = TDelete (task_page t) pc /\ page_of root w' (task_page t) = None);
}.

Lemma get_task_ok x p offset len pc w dirs :
  disk_ok w -> task_ok w (TGet p offset len pc) ->
  (forall e, pr_fds w !! p = Some e -> pr_names w !! (root, page_path p) = Some (fe_inode e)) ->
  let '(w', _, out) := task_step root x (TGet p offset len pc) w dirs in step_ok x (TGet p offset len pc) w w' out.
Proof.
  intros Hdisk Ht Hfd. cbn [task_step].
  pose proof (get_step_frame p offset len (ch_now x) (ch_fault x) (ch_evicted x) pc w dirs) as Hframe.
  pose proof (get_step_ok p offset len (ch_now x) (ch_fault x) (ch_evicted x) pc w dirs Hdisk Hfd Ht) as Hok.
  destruct (get_step root p offset len _ _ _ pc w dirs) as [[w' dirs'] r].
  destruct Hframe as (Hdata & Hnames & Hdirs & Hnext & Hfds).
  assert (Hl : forall q, leaves q w w') by (intros; by apply same_files_leaves).
  constructor; cbn [task_page is_writer].
  - destruct Hdisk. by constructor; rewrite ?Hnames, ?Hnext, ?Hdirs.
  - auto.
  - intros q e Hq. destruct (Hfds q e Hq) as [?|(i & read & -> & -> & <-)]; [by left|]. right. split; [done|].
    split; [done|]. rewrite Hnames. apply Ht.
  - right. right. rewrite Hnames. split; [done|]. by intros (? & ? & ?).
  - intros t' Ht'. destruct r as [pc'|r]; [|done]. injection Ht' as <-. done.
  - intros r' Hr'. destruct r as [pc'|[b|e]]; [done|..]; injection Hr' as <-; exact Hok.
  - left. by apply leaves_page.
Qed.

Lemma put_task_ok x p page uuid pc w dirs :
  disk_ok w -> task_ok w (TPut p page uuid pc) ->
  let '(w', _, out) := task_step root x (TPut p page uuid pc) w dirs in step_ok x (TPut p page uuid pc) w w' out.
Proof.
  intros Hdisk Ht. cbn [task_step].
  pose proof (put_step_ok p page uuid (ch_fault x) (ch_partial x) (ch_cleanup x) pc w Hdisk Ht) as Hok.
  destruct (put_step root p page uuid _ _ _ pc w) as [w' r]. destruct Hok as (Hdisk' & Hl & Hfds & Hr).
  constructor; cbn [task_page is_writer].
  - done.
  - intros q [Hq|?]; [auto|done].
  - intros q e Hq. left. destruct Hfds as [[<- _]|[_ ->]]; [done|]. cbn in Hq. by apply lookup_delete_Some in Hq as [_ Hq].
  - destruct Hfds as [[_ Hne]|[_ ->]]; [|left; apply lookup_delete_eq]. right.
    assert (Hni : ~ invalidating p (TPut p page uuid pc)) by (intros (? & ? & [= _ _ ->]); done).
    destruct r as [pc'|[u|e]]; [destruct Hr as [_ [->|[Hn _]]]| |].
    + left. eexists. split; [done|]. by do 2 eexists.
    + by right.
    + by destruct Hr as [-> _].
    + right. by destruct Hr as [Hn _].
  - intros t' Ht'. destruct r as [pc'|r]; [|done]. injection Ht' as <-. by destruct Hr.
  - intros r' Hr'. destruct r as [pc'|[u|e]]; [done|..]; injection Hr' as <-; cbn; by destruct_and!.
  - destruct r as [pc'|[u|e]]; [destruct Hr as [Ht' [->|[_ Hp]]]| |].
    + right. left. by do 2 eexists.
    + by left.
    + left. by destruct Hr as (_ & -> & _).
    + left. by destruct Hr as (_ & -> & _).
Qed.

Lemma delete_task_ok x p pc w dirs :
  disk_ok w -> task_ok w (TDelete p pc) ->
  let '(w', _, out) := task_step root x (TDelete p pc) w dirs in step_ok x (TDelete p pc) w w' out.
Proof.
  intros Hdisk Ht. cbn [task_step]. pose proof (delete_step_ok p (ch_fault x) pc w Hdisk Ht) as Hok.
  destruct (delete_step root p _ pc w) as [w' r] eqn:Hstep. destruct Hok as (Hdisk' & Hl & Hfds & Hr).
  constructor; cbn [task_page is_writer].
  - done.
  - intros q [Hq|?]; [auto|done].
  - intros q e Hq. left. destruct Hfds as [[<- _]| ->]; [done|]. cbn in Hq. by apply lookup_delete_Some in Hq as [_ Hq].
  - left. destruct Hfds as [[-> Hpc]| ->]; [by apply Ht|apply lookup_delete_eq].
  - intros t' Ht'. destruct r as [pc'|r]; [|done]. injection Ht' as <-. by destruct Hr.
  - intros r' Hr'. destruct r as [pc'|[u|e]]; [done|..]; injection Hr' as <-; cbn; [by destruct Hr|].
    destruct Hr as (_ & -> & ?). done.
  - destruct r as [pc'|[u|e]].
    + left. by destruct Hr as [_ ->].
    + destruct Hr as [-> Hr]. cbn in Hstep. destruct (ch_fault x) as [[|what]|]; [by injection Hstep as <-; left|done|].
      injection Hstep as <-. right. right. eauto.
    + left. by destruct Hr as (_ & -> & _).
Qed.

Lemma task_step_ok x t w dirs :
  disk_ok w -> task_ok w t ->
  (is_writer t = false -> forall e, pr_fds w !! task_page t = Some e ->
     pr_names w !! (root, page_path (task_page t)) = Some (fe_inode e)) ->
  let '(w', _, out) := task_step root x t w dirs in step_ok x t w w' out.
Proof.
  intros Hdisk Ht Hfd. destruct t as [p offset len pc|p page uuid pc|p pc].
  - apply get_task_ok; auto.
  - by apply put_task_ok.
  - by apply delete_task_ok.
Qed.

(** *** The world *)

(** Under the lock nobody else on the page writes beside a task, and nobody at all beside a
    writer. *)
Lemma locked_other tasks id id' t t' :
  locked tasks -> tasks !! id = Some t -> tasks !! id' = Some t' -> task_page t' = task_page t -> is_writer t' = true ->
  id = id'.
Proof.
  intros Hl Ht Ht' Hp Hw. destruct (decide (id = id')) as [|Hne]; [done|].
  destruct (Hl _ _ _ _ Ht Ht' Hne (eq_sym Hp)) as [_ ?]. congruence.
Qed.

Lemma reader_not_replaced tasks id t :
  locked tasks -> tasks !! id = Some t -> ~ invalidating (task_page t) t -> ~ replacing tasks (task_page t).
Proof.
  intros Hl Ht Hn (id' & page & uuid & Hid). apply Hn. exists page, uuid.
  assert (id = id') as <- by (by eapply locked_other). congruence.
Qed.

(** A step of task [id], which goes on as [next] or is over. *)
Lemma step_inv w id t x process out next :
  store_inv w -> wo_tasks w !! id = Some t -> step_ok x t (wo_process w) process out ->
  (forall t', out = inl t' -> next = Some t') -> (forall t', next = Some t' -> out = inl t') ->
  forall dirs tasks, (forall id', tasks !! id' = if decide (id' = id) then next else wo_tasks w !! id') ->
  store_inv (mkWorld process dirs tasks).
Proof.
  intros [Hdisk Hlock Hfds Htasks] Ht Hstep Hout Hnext dirs tasks Hid.
  assert (Hsame : tasks !! id = next) by (rewrite Hid; by destruct (decide (id = id))).
  assert (Hdiff : forall id', id' <> id -> tasks !! id' = wo_tasks w !! id')
    by (intros id' Hne; rewrite Hid; by destruct (decide (id' = id))).
  destruct Hstep as [Hdisk' Hleaves Hfds' Hpage Hgo _ _]. constructor; cbn.
  - done.
  - assert (Hback : forall i u, tasks !! i = Some u -> exists u', wo_tasks w !! i = Some u' /\
      task_page u' = task_page u /\ is_writer u' = is_writer u).
    { intros i u Hi. destruct (decide (i = id)) as [->|Hne]; [|rewrite Hdiff in Hi by done; eauto].
      rewrite Hsame in Hi. destruct (Hgo u (Hnext u Hi)) as (_ & ? & ?). by exists t. }
    intros i j u v Hi Hj Hne Hp. destruct (Hback i u Hi) as (u' & Hu & Hpu & Hwu), (Hback j v Hj) as (v' & Hv & Hpv & Hwv).
    rewrite <- Hwu, <- Hwv. apply (Hlock i j); congruence.
  - intros q e Hq Hnr. destruct (Hfds' q e Hq) as [Hold|(_ & -> & Hn)]; [|done].
    destruct (decide (q = task_page t)) as [->|Hne].
    + destruct Hpage as [Hnone|[(t' & Ho & page & uuid & ->)|[Hn Hni]]]; [congruence| |].
      * exfalso. apply Hnr. exists id, page, uuid. by rewrite Hsame, (Hout _ Ho).
      * rewrite Hn. apply Hfds; [done|]. by eapply reader_not_replaced.
    + rewrite (lv_names _ _ _ (Hleaves q (or_introl (not_eq_sym Hne)))) by (by left). apply Hfds; [done|].
      intros (id' & page & uuid & Hid'). apply Hnr. exists id', page, uuid. rewrite Hdiff; [done|]. intros ->.
      rewrite Ht in Hid'. by injection Hid' as ->.
  - intros id' t2 Hid'. destruct (decide (id' = id)) as [->|Hne].
    { rewrite Hsame in Hid'. by apply Hgo, Hnext. }
    rewrite Hdiff in Hid' by done. apply (task_ok_frame (wo_process w)); [| |by eapply Htasks].
    + apply Hleaves. destruct (decide (task_page t = task_page t2)) as [Hp|Hp]; [right|by left].
      by destruct (Hlock _ _ _ _ Ht Hid' (not_eq_sym Hne) Hp).
    + intros Hw Hnone. destruct (pr_fds process !! task_page t2) as [e|] eqn:He; [|done].
      destruct (Hfds' _ e He) as [?|(_ & Hp & _)]; [congruence|].
      destruct (Hlock _ _ _ _ Ht Hid' (not_eq_sym Hne) (eq_sym Hp)). congruence.
Qed.

(** A running task's step is one of [step_ok]. *)
Lemma world_task_ok w id t x :
  store_inv w -> wo_tasks w !! id = Some t ->
  let '(process, _, out) := task_step root x t (wo_process w) (wo_dirs w) in step_ok x t (wo_process w) process out.
Proof.
  intros [Hdisk Hlock Hfds Htasks] Ht. apply task_step_ok; [done|by eapply Htasks|]. intros Hr e He. apply Hfds; [done|].
  eapply reader_not_replaced; [done..|]. intros (page & uuid & Heq). by rewrite Heq in Hr.
Qed.

Lemma world_step_inv w l w' : store_inv w -> world_step root w l w' -> store_inv w'.
Proof.
  intros HI Hstep. destruct Hstep as [id t Hid Hst Hmay|id t x t' process dirs Hid Hgo|id t x r process dirs Hid Hgo|p].
  - destruct HI as [Hdisk Hlock Hfds Htasks]. constructor; cbn; try done.
    + intros i j u v Hi Hj Hne Hp. apply lookup_insert_Some in Hi as [[<- <-]|[_ Hi]], Hj as [[<- <-]|[_ Hj]]; [done|..].
      * by apply (Hmay j).
      * by destruct (Hmay i u Hi Hp).
      * by apply (Hlock i j).
    + intros q e Hq Hnr. apply Hfds; [done|]. intros (i & page & uuid & Hi). apply Hnr. exists i, page, uuid.
      rewrite lookup_insert_ne; [done|]. intros <-. congruence.
    + intros i u [[<- <-]|[_ Hi]]%lookup_insert_Some; [|by eapply Htasks].
      destruct t as [? ? ? []|? ? ? []|? []]; done.
  - pose proof (world_task_ok w id t x HI Hid) as Hok. rewrite Hgo in Hok.
    eapply (step_inv w id t x process (inl t') (Some t')); [done..|by intros ? [= ->]|by intros ? [= ->]|].
    intros id'. destruct (decide (id' = id)) as [->|]; [apply lookup_insert_eq|by apply lookup_insert_ne].
  - pose proof (world_task_ok w id t x HI Hid) as Hok. rewrite Hgo in Hok.
    eapply (step_inv w id t x process (inr r) None); [done..|].
    intros id'. destruct (decide (id' = id)) as [->|]; [apply lookup_delete_eq|by apply lookup_delete_ne].
  - destruct HI as [Hdisk Hlock Hfds Htasks]. constructor; cbn.
    + by destruct Hdisk.
    + done.
    + intros q e Hq. cbn in Hq. apply lookup_delete_Some in Hq as [_ Hq]. by apply Hfds.
    + intros id t Hid. apply (task_ok_frame (wo_process w)); [by apply same_files_leaves| |by eapply Htasks].
      intros _ Hnone. cbn. apply lookup_delete_None. by right.
Qed.

(** The worlds a store can be in: any files at the start, no descriptor cached and no task. *)
Inductive reachable (w : World) : Prop :=
| ReachStart : disk_ok (wo_process w) -> pr_fds (wo_process w) = ∅ -> wo_tasks w = ∅ -> reachable w
| ReachStep w0 l : reachable w0 -> world_step root w0 l w -> reachable w.

Lemma reachable_store_inv w : reachable w -> store_inv w.
Proof.
  induction 1 as [w Hdisk Hfds Htasks|w w0 l _ IH Hstep]; [|by eapply world_step_inv].
  constructor; [done|..].
  - intros i j u v Hi. by rewrite Htasks, lookup_empty in Hi.
  - intros p e Hp. by rewrite Hfds, lookup_empty in Hp.
  - intros i u Hi. by rewrite Htasks, lookup_empty in Hi.
Qed.

(** C1. Cached descriptors never show an old page.  Reads, writes and deletions of pages
    interleave step by step under the page locks, descriptors expire and are evicted at any
    time, and any system call can fail.  A read that meets no failure in its last step
    returns exactly the bytes of the page as it is on disk, none when it is missing; a
    [put] that succeeds leaves the page it wrote and one that fails leaves the page
    it found; a page changes only by the rename of a [put] or by a deletion. *)
Theorem cached_descriptors_show_current_page (w w' : World) (l : option (Task * Chance * TaskResult)) :
  reachable w -> world_step root w l w' ->
  match l with
  | Some (t, x, r) => result_ok x t (wo_process w) (wo_process w') r
  | None => True
  end /\
  (forall p, page_of root (wo_process w') p = page_of root (wo_process w) p \/
     (exists id page uuid, wo_tasks w' !! id = Some (TPut p page uuid PutInvalidate) /\
        page_of root (wo_process w') p = Some page) \/
     (exists id pc, wo_tasks w !! id = Some (TDelete p pc) /\ page_of root (wo_process w') p = None)).
Proof.
  intros Hr Hstep. apply reachable_store_inv in Hr as HI.
  destruct Hstep as [id t Hid Hst Hmay|id t x t' process dirs Hid Hgo|id t x r process dirs Hid Hgo|p]; cbn.
  - split; [done|]. by left.
  - pose proof (world_task_ok w id t x HI Hid) as Hok. rewrite Hgo in Hok. split; [done|]. intros q.
    destruct (decide (task_page t = q)) as [<-|Hne]; [|left; apply leaves_page, (st_leaves _ _ _ _ _ Hok); by left].
    destruct (st_kept _ _ _ _ _ Hok) as [?|[(page & uuid & [= ->] & ?)|(pc & Ht & ?)]]; [by left|right; left|right; right].
    + exists id, page, uuid. split; [apply lookup_insert_eq|done].
    + exists id, pc. rewrite <- Ht. done.
  - pose proof (world_task_ok w id t x HI Hid) as Hok. rewrite Hgo in Hok.
    split; [by apply (st_result _ _ _ _ _ Hok)|]. intros q.
    destruct (decide (task_page t = q)) as [<-|Hne]; [|left; apply leaves_page, (st_leaves _ _ _ _ _ Hok); by left].
    destruct (st_kept _ _ _ _ _ Hok) as [?|[(page & uuid & ? & ?)|(pc & Ht & ?)]]; [by left|done|right; right].
    exists id, pc. rewrite <- Ht. done.
  - split; [done|]. by left.
Qed.
End Invariant.

(** Short and interrupted [pread]s do not show. *)
Lemma pread_reads_slice content offset len filled calls :
  0 <= offset -> 0 <= filled ->
  pread_read_sync content offset len filled calls = slice (offset + filled) (offset + len) content.
Proof.
  intros Ho. revert filled. induction calls as [|[n|] calls IH]; intros filled Hf; cbn [pread_read_sync];
    (destruct (Z.leb_spec len filled); [by rewrite slice_nil by lia|]); [done| |by apply IH].
  destruct (Z.leb_spec (Z.min (Z.max 1 n) (Z.min (len - filled) (zlen content - (offset + filled)))) 0).
  - symmetry. apply slice_past. lia.
  - rewrite IH by lia. rewrite Z.add_assoc. apply slice_app; lia.
Qed.

(** ** Runs *)

Module UringStoreDemo.
Definition calm : Chance := mkChance 0 None [] 0 true.

(** A task on its own, to its end. *)
Fixpoint run (root : string) (fuel : nat) (x : Chance) (t : Task) (w : Process) (dirs : DirFds) :
    Process * DirFds * option TaskResult :=
  match fuel with
  | O => (w, dirs, None)
  | S fuel =>
      match task_step root x t w dirs with
      | (w, dirs, inl t) => run root fuel x t w dirs
      | (w, dirs, inr r) => (w, dirs, Some r)
      end
  end.

Definition page : PageId := mkPageId "7" 0.
Definition get : Task := TGet page 0 8 GetLookup.
Definition put (b : bytes) : Task := TPut page b "u" PutMkdir.

(** Two cache directories of one process, with a page of the same number in each. *)
Definition two_roots : Process :=
  let '(w, _, _) := run "/b" 5 calm (put [4; 5]) empty_process ∅ in
  let '(w, _, _) := run "/a" 5 calm (put [1; 2; 3]) w ∅ in w.

Definition on_disk : Process :=
  mkProcess {[0%nat := [1; 2; 3]]} {[("/a", page_path page)%string := 0%nat]} {[("/a", "7")%string]} 1 ∅.

Definition before : World := mkWorld on_disk ∅ ∅.
Definition at_pc (pc : GetPc) (dirs : DirFds) : World := mkWorld on_disk dirs {[0%nat := TGet page 0 8 pc]}.

Lemma on_disk_ok : disk_ok "/a" on_disk.
Proof.
  constructor; cbn.
  - intros k k' i [<- _]%lookup_singleton_Some [<- _]%lookup_singleton_Some. done.
  - intros k i [_ <-]%lookup_singleton_Some. lia.
  - intros f n i [[= <- _] _]%lookup_singleton_Some. set_solver.
Qed.

Lemma reach_before : reachable "/a" before.
Proof. apply ReachStart; [exact on_disk_ok|reflexivity|reflexivity]. Qed.

Lemma reach_insert : reachable "/a" (at_pc (GetInsert 0 [1; 2; 3]) {["7"%string := 0]}).
Proof.
  eapply ReachStep; [|exact (WorldGo "/a" (at_pc (GetRead 0) {["7"%string := 0]}) 0 _ calm _ _ _ eq_refl eq_refl)].
  eapply ReachStep; [|exact (WorldGo "/a" (at_pc GetOpen {["7"%string := 0]}) 0 _ calm _ _ _ eq_refl eq_refl)].
  eapply ReachStep; [|exact (WorldGo "/a" (at_pc GetDir ∅) 0 _ calm _ _ _ eq_refl eq_refl)].
  eapply ReachStep; [|exact (WorldGo "/a" (at_pc GetLookup ∅) 0 _ calm _ _ _ eq_refl eq_refl)].
  eapply ReachStep; [exact reach_before|].
  apply (WorldStart "/a" before 0 get); [reflexivity|reflexivity|]. intros id t Hid. cbn in Hid. by rewrite lookup_empty in Hid.
Qed.
End UringStoreDemo.

Lemma cached_descriptors_show_current_page_witness :
  result_ok "/a" UringStoreDemo.calm (TGet UringStoreDemo.page 0 8 (GetInsert 0 [1; 2; 3])) UringStoreDemo.on_disk
    UringStoreDemo.on_disk (GotBytes (Ok [1; 2; 3])) /\
  read_of "/a" UringStoreDemo.on_disk UringStoreDemo.page 0 8 = [1; 2; 3].
Proof.
  split; [|reflexivity].
  exact (proj1 (cached_descriptors_show_current_page "/a"
    (UringStoreDemo.at_pc (GetInsert 0 [1; 2; 3]) {["7"%string := 0]}) _ _ UringStoreDemo.reach_insert
    (WorldDone "/a" (UringStoreDemo.at_pc (GetInsert 0 [1; 2; 3]) {["7"%string := 0]}) 0 _ UringStoreDemo.calm _ _ _
       eq_refl eq_refl))).
Defined.

(** The descriptors of two stores of one process share their names: after a read of the page in
    the one directory, the store of the other returns the bytes of the first. *)
Example stores_share_descriptors :
  let '(w, _, r) := UringStoreDemo.run "/a" 7 UringStoreDemo.calm UringStoreDemo.get UringStoreDemo.two_roots ∅ in
  r = Some (GotBytes (Ok [1; 2; 3])) /\ page_of "/b" w UringStoreDemo.page = Some [4; 5] /\
  snd (UringStoreDemo.run "/b" 7 UringStoreDemo.calm UringStoreDemo.get w ∅) = Some (GotBytes (Ok [1; 2; 3])).
Proof. by vm_compute. Qed.

(** Without the page lock a read that opened the page before a [put] and caches its descriptor
    after it makes the next read return the old page. *)
Example unlocked_read_caches_old_page :
  let old := UringStoreDemo.on_disk in
  let '(w, _, _) := UringStoreDemo.run "/a" 5 UringStoreDemo.calm (UringStoreDemo.put [9]) old ∅ in
  let '(w, _, _) := UringStoreDemo.run "/a" 1 UringStoreDemo.calm
                      (TGet UringStoreDemo.page 0 8 (GetInsert 0 [1; 2; 3])) w ∅ in
  page_of "/a" w UringStoreDemo.page = Some [9] /\
  snd (UringStoreDemo.run "/a" 7 UringStoreDemo.calm UringStoreDemo.get w ∅) = Some (GotBytes (Ok [1; 2; 3])).
Proof. by vm_compute. Qed.

(** A write that fails leaves its temporary file behind. *)
Example failed_write_leaves_file :
  let '(w, r) := put_step "/a" UringStoreDemo.page [1; 2; 3] "u" (Some (FaultOther "ENOSPC")) 1 true (PutWrite 0)
                   (mkProcess {[0%nat := []]} {[tmp_name "/a" UringStoreDemo.page "u" := 0%nat]} ∅ 1 ∅) in
  r = inr (Err (mkStoreError "uring write" (FaultOther "ENOSPC"))) /\
  is_Some (pr_names w !! tmp_name "/a" UringStoreDemo.page "u").
Proof. vm_compute. split; [done|by eexists]. Qed.
