(* ===== verification/LocalCache.v ===== *)
(** * Local page cache manager (src/src/cache/manager.rs,
      src/src/cache/allocator.rs)

    foyer, the in-memory cache that decides evictions, is the interface [Foyer]
    with its documented behaviour; the page stores are those of [PageStore].  One
    [Io] value gives the outcome of the system calls and the clock of one
    operation.  Operations on one page exclude each other through the page lock and
    are single steps; the reaper and the asynchronous fills are steps of their own,
    and a reap is two steps, as its index update happens outside the page lock.
    Metrics and logs are not modelled; the io_uring store is not modelled. *)

From stdpp Require Import functions.
From S2P Require Import Prelude PageCache PageStore.

(** ** Page metadata and the eviction cache *)

Record PageInfo : Type := mkPageInfo {
  pi_page_id : PageId;
  pi_page_size : Z;
  pi_dir_index : Z;
  pi_created_at : Z;
}.

(** foyer's [Cache]: [foyer_entries] is what [contains] and [get] see, [insert]
    returns the entries it evicted, each reported once to the listener with
    [Event::Evict]. *)
Class Foyer (F : Type) : Type := {
  foyer_entries : F -> gmap PageId PageInfo;
  foyer_get : F -> PageId -> F * option PageInfo;
  foyer_insert : F -> PageId -> PageInfo -> F * list (PageId * PageInfo);
  foyer_remove : F -> PageId -> F * option PageInfo;
}.

Class FoyerOk (F : Type) `{!Foyer F} : Prop := {
  foyer_get_value : forall f p, snd (foyer_get f p) = foyer_entries f !! p;
  foyer_get_entries : forall f p, foyer_entries (fst (foyer_get f p)) = foyer_entries f;
  foyer_remove_value : forall f p, snd (foyer_remove f p) = foyer_entries f !! p;
  foyer_remove_entries : forall f p,
    foyer_entries (fst (foyer_remove f p)) = delete p (foyer_entries f);
  foyer_insert_evicted : forall f p i q j,
    (q, j) ∈ snd (foyer_insert f p i) -> <[p := i]> (foyer_entries f) !! q = Some j;
  foyer_insert_entries : forall f p i q,
    foyer_entries (fst (foyer_insert f p i)) !! q =
      if decide (q ∈ map fst (snd (foyer_insert f p i))) then None
      else <[p := i]> (foyer_entries f) !! q;
}.

Definition foyer_contains {F : Type} `{!Foyer F} (f : F) (p : PageId) : bool :=
  bool_decide (is_Some (foyer_entries f !! p)).

(** ** Options and sizing *)

(** The options the operations below read; [co_num_dirs] is the number of stores. *)
Record CacheManagerOptions : Type := mkCacheManagerOptions {
  co_page_size : Z;
  co_dir_capacity : Z;
  co_num_dirs : Z;
  co_async_write_threads : Z;
  co_ttl : option Z;
}.

Definition MIN_PAGES_PER_SHARD : Z := 4.
Definition MAX_SHARDS : Z := 256.
Definition REAP_QUEUE_CAP : nat := 1024.

Definition shard_count (dir_capacity page_size : Z) : Z :=
  if page_size =? 0 then 1
  else
    let pages := dir_capacity / page_size in
    Z.min (Z.max (pages / MIN_PAGES_PER_SHARD) 1) MAX_SHARDS.

Definition pages_per_dir (o : CacheManagerOptions) : Z :=
  if co_page_size o =? 0 then 0 else co_dir_capacity o / co_page_size o.

Definition total_capacity (o : CacheManagerOptions) : Z :=
  Z.min (co_dir_capacity o * co_num_dirs o) u64_max.

(** ** State *)

Record ReapTask : Type := mkReapTask {
  rt_page_id : PageId;
  rt_page_size : Z;
  rt_dir_index : Z;
}.

(** [lm_stores] and [lm_caches] are the per-directory vectors; [lm_reaping] is the
    task the reaper has taken, with whether its file lost its last indexed page;
    [lm_fills] are the spawned write-backs that have not run, each holding a
    permit. *)
Record LocalCacheManager (F : Type) : Type := mkLocalCacheManager {
  lm_stores : Z -> LocalPageStore;
  lm_caches : Z -> F;
  lm_queue : list ReapTask;
  lm_reaping : option (ReapTask * bool);
  lm_by_file : gmap string (gset Z);
  lm_versions : gmap string (Z * Z);
  lm_fills : list (PageId * bytes);
}.

Arguments mkLocalCacheManager {F}.
Arguments lm_stores {F}.
Arguments lm_caches {F}.
Arguments lm_queue {F}.
Arguments lm_reaping {F}.
Arguments lm_by_file {F}.
Arguments lm_versions {F}.
Arguments lm_fills {F}.

(** The clock and the outcome of the system calls of one operation. *)
Record Io : Type := mkIo {
  io_now : Z;
  io_uuid : string;
  io_put : PutFault;
  io_put_cleanup : bool;
  io_reads : option (list Z);
  io_delete : PageId -> bool;
  io_identity : string -> bool;
}.

Definition io_ok (now : Z) (uuid : string) : Io :=
  mkIo now uuid PutNoFault true (Some []) (fun _ => true) (fun _ => true).

(** [by_file.get_mut(..).remove(..)] as [reap_one], [get_expired_path] and [delete]
    do it: whether the file lost its last page. *)
Definition unindex (by_file : gmap string (gset Z)) (p : PageId) : gmap string (gset Z) * bool :=
  match by_file !! pg_file_id p with
  | None => (by_file, false)
  | Some set =>
      let set := set ∖ {[pg_index p]} in
      if decide (set = ∅) then (delete (pg_file_id p) by_file, true)
      else (<[pg_file_id p := set]> by_file, false)
  end.

Definition index_page (by_file : gmap string (gset Z)) (p : PageId) : gmap string (gset Z) :=
  <[pg_file_id p := {[pg_index p]} ∪ default ∅ (by_file !! pg_file_id p)]> by_file.

(** The listener on each eviction: [try_send], dropping the task when the queue is
    full. *)
Definition on_leave (dir_index : Z) (queue : list ReapTask) (evicted : list (PageId * PageInfo))
  : list ReapTask :=
  foldl (fun queue '(p, info) =>
           if (length queue <? REAP_QUEUE_CAP)%nat
           then queue ++ [mkReapTask p (pi_page_size info) dir_index]
           else queue) queue evicted.

Section Operations.
Context {F : Type} `{!Foyer F}.
Context (xxh3 : string -> Z) (options : CacheManagerOptions).

Abbreviation mgr := (LocalCacheManager F).

(** [HashAllocator::allocate]: every page of a file in the same directory. *)
Definition allocate (p : PageId) (num_dirs : Z) : Z :=
  if num_dirs <=? 1 then 0 else xxh3 (pg_file_id p) mod num_dirs.

Definition dir_of (p : PageId) : Z := allocate p (co_num_dirs options).

Definition set_store (m : mgr) (d : Z) (s : LocalPageStore) : mgr :=
  mkLocalCacheManager (<[d := s]> (lm_stores m)) (lm_caches m) (lm_queue m) (lm_reaping m)
    (lm_by_file m) (lm_versions m) (lm_fills m).

Definition set_cache (m : mgr) (d : Z) (c : F) : mgr :=
  mkLocalCacheManager (lm_stores m) (<[d := c]> (lm_caches m)) (lm_queue m) (lm_reaping m)
    (lm_by_file m) (lm_versions m) (lm_fills m).

Definition set_queue (m : mgr) (q : list ReapTask) : mgr :=
  mkLocalCacheManager (lm_stores m) (lm_caches m) q (lm_reaping m)
    (lm_by_file m) (lm_versions m) (lm_fills m).

Definition set_reaping (m : mgr) (r : option (ReapTask * bool)) : mgr :=
  mkLocalCacheManager (lm_stores m) (lm_caches m) (lm_queue m) r
    (lm_by_file m) (lm_versions m) (lm_fills m).

Definition set_by_file (m : mgr) (b : gmap string (gset Z)) : mgr :=
  mkLocalCacheManager (lm_stores m) (lm_caches m) (lm_queue m) (lm_reaping m)
    b (lm_versions m) (lm_fills m).

Definition set_versions (m : mgr) (v : gmap string (Z * Z)) : mgr :=
  mkLocalCacheManager (lm_stores m) (lm_caches m) (lm_queue m) (lm_reaping m)
    (lm_by_file m) v (lm_fills m).

Definition set_fills (m : mgr) (l : list (PageId * bytes)) : mgr :=
  mkLocalCacheManager (lm_stores m) (lm_caches m) (lm_queue m) (lm_reaping m)
    (lm_by_file m) (lm_versions m) l.

Definition contains (m : mgr) (d : Z) (p : PageId) : bool := foyer_contains (lm_caches m d) p.

(** [caches[d].insert]: victims go to the reaper's queue through the listener. *)
Definition cache_insert (m : mgr) (d : Z) (p : PageId) (info : PageInfo) : mgr :=
  let '(c, evicted) := foyer_insert (lm_caches m d) p info in
  set_queue (set_cache m d c) (on_leave d (lm_queue m) evicted).

(** Drop one page's file, and the sidecar with the last page of its file. *)
Definition remove_page_file (m : mgr) (io : Io) (d : Z) (p : PageId) (file_empty : bool) : mgr :=
  let s := fst (store_delete (lm_stores m d) p (io_delete io p)) in
  let s := if file_empty then fst (delete_identity s (pg_file_id p) (io_identity io (pg_file_id p)))
           else s in
  set_store m d s.

(** The guards on [state] never fire: [create] sets it to [ReadWrite] and nothing
    changes it. *)
Definition put (m : mgr) (io : Io) (p : PageId) (page : bytes) : mgr * bool :=
  let page_len := zlen page in
  if (page_len =? 0) || (co_page_size options <? page_len) then (m, false)
  else
    let d := dir_of p in
    if contains m d p then (m, false)
    else
      let '(s, ok) := store_put (lm_stores m d) p page (io_uuid io) (io_put io)
                        (io_put_cleanup io) in
      let m := set_store m d s in
      if negb ok then (m, false)
      else
        let m := cache_insert m d p (mkPageInfo p page_len d (io_now io)) in
        if negb (contains m d p) then (m, false)
        else
          let identity := match lm_by_file m !! pg_file_id p with
                          | None => lm_versions m !! pg_file_id p
                          | Some _ => None
                          end in
          let m := set_by_file m (index_page (lm_by_file m) p) in
          let m := match identity with
                   | Some (length, mtime) =>
                       set_store m d (fst (write_identity (lm_stores m d) (pg_file_id p)
                                             length mtime (io_identity io (pg_file_id p))))
                   | None => m
                   end in
          (m, true).

(** Lazy expiry: the elapsed time exceeds the TTL. *)
Definition expired (io : Io) (created_at : Z) : bool :=
  match co_ttl options with
  | Some ttl => ttl <? Z.max 0 (io_now io - created_at)
  | None => false
  end.

Definition get_expired_path (m : mgr) (io : Io) (p : PageId) : mgr :=
  match co_ttl options with
  | None => m
  | Some _ =>
      let d := dir_of p in
      let '(c, entry) := foyer_get (lm_caches m d) p in
      let m := set_cache m d c in
      match entry with
      | None => m
      | Some info =>
          if negb (expired io (pi_created_at info)) then m
          else
            let m := set_cache m d (fst (foyer_remove (lm_caches m d) p)) in
            let '(by_file, file_empty) := unindex (lm_by_file m) p in
            remove_page_file (set_by_file m by_file) io d p file_empty
      end
  end.

Definition get_bytes (m : mgr) (io : Io) (p : PageId) (page_offset len : Z) : mgr * bytes :=
  if len =? 0 then (m, [])
  else
    let d := dir_of p in
    let '(c, entry) := foyer_get (lm_caches m d) p in
    let m := set_cache m d c in
    match entry with
    | None => (m, [])
    | Some info =>
        if expired io (pi_created_at info) then (get_expired_path m io p, [])
        else
          match store_get_bytes (lm_stores m d) p page_offset len (io_reads io) with
          | Some bytes => (m, bytes)
          | None => (m, [])
          end
    end.

Definition delete (m : mgr) (io : Io) (p : PageId) : mgr * bool :=
  let d := dir_of p in
  let '(c, entry) := foyer_remove (lm_caches m d) p in
  let m := set_cache m d c in
  match entry with
  | None => (m, false)
  | Some _ =>
      let '(by_file, file_empty) := unindex (lm_by_file m) p in
      (remove_page_file (set_by_file m by_file) io d p file_empty, true)
  end.

(** Every page the reverse index has for the file. *)
Definition invalidate (m : mgr) (io : Io) (file_id : string) : mgr :=
  match lm_by_file m !! file_id with
  | None => m
  | Some set => foldl (fun m i => fst (delete m io (mkPageId file_id i))) m (elements set)
  end.

Definition on_file_open (m : mgr) (io : Io) (file_id : string) (length mtime : Z) : mgr :=
  match lm_versions m !! file_id with
  | Some (l, t) =>
      if (l =? length) && (t =? mtime) then m
      else
        let m := invalidate m io file_id in
        set_versions m (<[file_id := (length, mtime)]> (lm_versions m))
  | None => set_versions m (<[file_id := (length, mtime)]> (lm_versions m))
  end.

(** A write-back is dropped when no permit is left. *)
Definition schedule_fill (m : mgr) (p : PageId) (page : bytes) : mgr :=
  if zlen (lm_fills m) <? Z.max 1 (co_async_write_threads options)
  then set_fills m (lm_fills m ++ [(p, page)])
  else m.

(** The [k]-th spawned write-back runs and returns its permit. *)
Definition run_fill (m : mgr) (io : Io) (k : nat) : mgr :=
  match lm_fills m !! k with
  | None => m
  | Some (p, page) =>
      fst (put (set_fills m (take k (lm_fills m) ++ drop (S k) (lm_fills m))) io p page)
  end.

(** [reap_one] up to the page lock: the reverse index is updated. *)
Definition reap_begin (m : mgr) : mgr :=
  match lm_reaping m, lm_queue m with
  | None, task :: queue =>
      let '(by_file, file_empty) := unindex (lm_by_file m) (rt_page_id task) in
      set_reaping (set_queue (set_by_file m by_file) queue) (Some (task, file_empty))
  | _, _ => m
  end.

(** [reap_one] under the page lock: a page that was re-admitted keeps its file. *)
Definition reap_finish (m : mgr) (io : Io) : mgr :=
  match lm_reaping m with
  | None => m
  | Some (task, file_empty) =>
      let m := set_reaping m None in
      let d := rt_dir_index task in
      if contains m d (rt_page_id task) then m
      else remove_page_file m io d (rt_page_id task) file_empty
  end.

(** *** Restoring from disk *)

Definition remove_dir (s : LocalPageStore) (file_id : string) : LocalPageStore :=
  mkLocalPageStore (filter (fun kv => kv.1.1 <> file_id) (ps_files s))
    (base.delete file_id (ps_sidecars s)).

(** One entry of a file's directory; [n] counts the restored pages. *)
Definition restore_entry (io : Io) (d : Z) (file_id : string) (st : mgr * Z) (name : PageName)
  : mgr * Z :=
  let '(m, n) := st in
  let s := lm_stores m d in
  let remove_file := set_store m d (set_files s (base.delete (file_id, name) (ps_files s))) in
  match name with
  | PageTmp _ _ => (remove_file, n)
  | PageFile i =>
      match ps_files s !! (file_id, name) with
      | None => (m, n)
      | Some content =>
          let size := zlen content in
          if (size =? 0) || (co_page_size options <? size) then (remove_file, n)
          else
            let p := mkPageId file_id i in
            if contains m d p then (remove_file, n)
            else
              let m := cache_insert m d p (mkPageInfo p size d (io_now io)) in
              (set_by_file m (index_page (lm_by_file m) p), n + 1)
      end
  end.

(** One file directory: only pages with a readable identity come back. *)
Definition restore_file (io : Io) (d : Z) (m : mgr) (entry : string * list PageName) : mgr :=
  let '(file_id, names) := entry in
  match read_identity (lm_stores m d) file_id (io_identity io file_id) with
  | None => set_store m d (remove_dir (lm_stores m d) file_id)
  | Some identity =>
      let '(m, n) := foldl (restore_entry io d file_id) (m, 0) names in
      if 0 <? n then set_versions m (<[file_id := identity]> (lm_versions m))
      else set_store m d (remove_dir (lm_stores m d) file_id)
  end.

(** [listing d] is what [read_dir] returns below directory [d]. *)
Definition restore (io : Io) (listing : list (Z * list (string * list PageName))) (m : mgr) : mgr :=
  foldl (fun m '(d, files) => foldl (restore_file io d) m files) m listing.

(** [create]: empty caches over the stores found on disk. *)
Definition create (io : Io) (stores : Z -> LocalPageStore) (empty_cache : F)
    (listing : list (Z * list (string * list PageName))) : mgr :=
  restore io listing
    (mkLocalCacheManager stores (fun _ => empty_cache) [] None ∅ ∅ []).
End Operations.
