(* ===== verification/LocalCacheFacts.v ===== *)
(** * Local page cache manager: the effect of each operation

    Every operation but [put] only forgets pages ([shrinks]); [put] adds at most
    the page it was given, after its bytes are on disk ([admits]).  The invariants
    of [LocalCacheProps] rest on these two facts and on what each operation does to
    the reverse index. *)

From stdpp Require Import functions.
From S2P Require Import Prelude PageCache PageStore LocalCache.

Section Facts.
Context {F : Type} `{!Foyer F, !FoyerOk F}.
Context (xxh3 : string -> Z) (options : CacheManagerOptions).

Abbreviation mgr := (LocalCacheManager F).
Abbreviation dir := (dir_of xxh3 options).

(** ** Views of the state *)

(** The metadata and the file of page [p] in directory [d]. *)
Definition entry (m : mgr) (d : Z) (p : PageId) : option PageInfo :=
  foyer_entries (lm_caches m d) !! p.

Definition file (m : mgr) (d : Z) (p : PageId) : option bytes := page_file (lm_stores m d) p.

Definition indexed (m : mgr) (p : PageId) : Prop :=
  pg_index p ∈ default ∅ (lm_by_file m !! pg_file_id p).

(** Page [p] waits for the reaper, or the reaper holds it. *)
Definition pending (m : mgr) (p : PageId) : Prop :=
  p ∈ map rt_page_id (lm_queue m) \/ exists t e, lm_reaping m = Some (t, e) /\ rt_page_id t = p.

#[global] Instance pending_dec m p : Decision (pending m p).
Proof.
  apply or_dec; [apply _|].
  destruct (lm_reaping m) as [[t e]|] eqn:Hr.
  - destruct (decide (rt_page_id t = p)) as [Hp|Hp]; [left; by exists t, e|].
    right. by intros (? & ? & [= <- <-] & ?).
  - right. by intros (? & ? & ? & _).
Defined.

Lemma contains_spec m d p : contains m d p = true <-> is_Some (entry m d p).
Proof. unfold contains, foyer_contains. by rewrite bool_decide_eq_true. Qed.

Lemma contains_false m d p : contains m d p = false <-> entry m d p = None.
Proof.
  unfold contains, foyer_contains. rewrite bool_decide_eq_false.
  symmetry. apply eq_None_not_Some.
Qed.

Lemma entry_set_cache m d c d' q :
  entry (set_cache m d c) d' q = if decide (d' = d) then foyer_entries c !! q else entry m d' q.
Proof.
  unfold entry. cbn. destruct (decide (d' = d)) as [->|]; [by rewrite fn_lookup_insert|].
  by rewrite fn_lookup_insert_ne.
Qed.

Lemma file_set_store m d s d' q :
  file (set_store m d s) d' q = if decide (d' = d) then page_file s q else file m d' q.
Proof.
  unfold file. cbn. destruct (decide (d' = d)) as [->|]; [by rewrite fn_lookup_insert|].
  by rewrite fn_lookup_insert_ne.
Qed.

(** ** Operations that only forget pages *)

Definition shrinks (m m' : mgr) : Prop :=
  forall d q i, entry m' d q = Some i -> entry m d q = Some i /\ file m' d q = file m d q.

#[global] Instance shrinks_preorder : PreOrder shrinks.
Proof.
  split; [by intros m d q i|].
  intros m1 m2 m3 H12 H23 d q i H3. destruct (H23 d q i H3) as [H2 Hf].
  destruct (H12 d q i H2) as [H1 Hf']. by rewrite Hf.
Qed.

Lemma shrinks_same m m' :
  lm_stores m' = lm_stores m -> lm_caches m' = lm_caches m -> shrinks m m'.
Proof. intros Hs Hc d q i. unfold entry, file. by rewrite Hs, Hc. Qed.

(** A cache touched by [get]. *)
Lemma shrinks_get m d p : shrinks m (set_cache m d (fst (foyer_get (lm_caches m d) p))).
Proof.
  intros d' q i. rewrite entry_set_cache, foyer_get_entries.
  by destruct (decide (d' = d)) as [->|].
Qed.

Lemma entry_remove m d p d' q :
  entry (set_cache m d (fst (foyer_remove (lm_caches m d) p))) d' q =
    if decide (d' = d /\ q = p) then None else entry m d' q.
Proof.
  rewrite entry_set_cache, foyer_remove_entries. unfold entry.
  destruct (decide (d' = d)) as [->|], (decide (q = p)) as [->|];
    repeat case_decide; try tauto; rewrite ?lookup_delete_eq, ?lookup_delete_ne; tauto || done.
Qed.

Lemma shrinks_remove m d p : shrinks m (set_cache m d (fst (foyer_remove (lm_caches m d) p))).
Proof. intros d' q i. rewrite entry_remove. by case_decide. Qed.

Lemma page_file_delete_identity s f ok q :
  page_file (fst (delete_identity s f ok)) q = page_file s q.
Proof. unfold delete_identity. by destruct (ps_sidecars s !! f), ok. Qed.

Lemma page_file_write_identity s f l t ok q :
  page_file (fst (write_identity s f l t ok)) q = page_file s q.
Proof. by destruct ok. Qed.

(** Dropping the file of a page that is not resident. *)
Lemma shrinks_remove_page_file m io d p e :
  entry m d p = None -> shrinks m (remove_page_file m io d p e).
Proof.
  intros Hp d' q i. unfold remove_page_file. intros Hq. split; [done|].
  change (entry m d' q = Some i) in Hq.
  rewrite file_set_store. destruct (decide (d' = d)) as [->|]; [|done].
  assert (q <> p) by congruence.
  destruct (store_delete (lm_stores m d) p (io_delete io p)) as [s r] eqn:Hs.
  enough (page_file s q = file m d q) by (by destruct e; rewrite ?page_file_delete_identity).
  rewrite (page_file_store_delete _ _ _ _ _ q Hs). by rewrite decide_False.
Qed.

(** The same after the reverse index was updated. *)
Lemma shrinks_drop_page m b io d p e :
  entry m d p = None -> shrinks m (remove_page_file (set_by_file m b) io d p e).
Proof.
  intros Hp. etrans; [by apply (shrinks_same m (set_by_file m b))|].
  by apply shrinks_remove_page_file.
Qed.

Lemma delete_shrinks m io p : shrinks m (fst (delete xxh3 options m io p)).
Proof.
  unfold delete. pose proof (shrinks_remove m (dir p) p) as Hs.
  pose proof (entry_remove m (dir p) p (dir p) p) as He. rewrite decide_True in He by done.
  destruct (foyer_remove _ p) as [c [info|]]; cbn in Hs, He; [|done].
  destruct (unindex _ p) as [b e]. cbn. etrans; [exact Hs|].
  by apply shrinks_drop_page.
Qed.

Lemma get_expired_path_shrinks m io p : shrinks m (get_expired_path xxh3 options m io p).
Proof.
  unfold get_expired_path. destruct (co_ttl options); [|done].
  pose proof (shrinks_get m (dir p) p) as Hg.
  destruct (foyer_get _ p) as [c [info|]]; cbn in Hg; [|done].
  destruct (negb _); [done|].
  set (m1 := set_cache m (dir p) c) in *.
  pose proof (entry_remove m1 (dir p) p (dir p) p) as He. rewrite decide_True in He by done.
  etrans; [exact Hg|]. etrans; [apply (shrinks_remove m1 (dir p) p)|].
  destruct (unindex _ p) as [b e].
  by apply shrinks_drop_page.
Qed.

Lemma get_bytes_shrinks m io p off len :
  shrinks m (fst (get_bytes xxh3 options m io p off len)).
Proof.
  unfold get_bytes. destruct (len =? 0); [done|].
  pose proof (shrinks_get m (dir p) p) as Hg.
  destruct (foyer_get _ p) as [c [info|]]; cbn in Hg; [|done].
  destruct (expired _ _ _); cbn.
  - etrans; [exact Hg|]. apply get_expired_path_shrinks.
  - by destruct (store_get_bytes _ _ _ _ _).
Qed.

Lemma foldl_delete_shrinks io f l m :
  shrinks m (foldl (fun m i => fst (delete xxh3 options m io (mkPageId f i))) m l).
Proof.
  revert m. induction l as [|i l IH]; intros m; cbn; [done|].
  etrans; [apply delete_shrinks|apply IH].
Qed.

Lemma invalidate_shrinks m io f : shrinks m (invalidate xxh3 options m io f).
Proof. unfold invalidate. destruct (_ !! f); [apply foldl_delete_shrinks|done]. Qed.

Lemma on_file_open_shrinks m io f l t : shrinks m (on_file_open xxh3 options m io f l t).
Proof.
  unfold on_file_open. destruct (_ !! f) as [[l' t']|]; [|by apply shrinks_same].
  destruct (_ && _); [done|]. etrans; [apply invalidate_shrinks|by apply shrinks_same].
Qed.

Lemma schedule_fill_shrinks m p page : shrinks m (schedule_fill options m p page).
Proof. unfold schedule_fill. destruct (_ <? _); by apply shrinks_same. Qed.

Lemma reap_begin_shrinks m : shrinks m (reap_begin m).
Proof.
  unfold reap_begin. destruct (lm_reaping m), (lm_queue m); try done.
  destruct (unindex _ _). by apply shrinks_same.
Qed.

Lemma reap_finish_shrinks m io : shrinks m (reap_finish m io).
Proof.
  unfold reap_finish. destruct (lm_reaping m) as [[t e]|]; [|done].
  destruct (contains _ _ _) eqn:Hc; [by apply shrinks_same|].
  etrans; [apply (shrinks_same m (set_reaping m None)); done|].
  apply shrinks_remove_page_file. by apply contains_false.
Qed.

(** ** Admitting a page *)

Definition admits (m m' : mgr) (d : Z) (p : PageId) (now : Z) (page : bytes) : Prop :=
  forall d' q i, entry m' d' q = Some i ->
    (entry m d' q = Some i /\ file m' d' q = file m d' q) \/
    (d' = d /\ q = p /\ i = mkPageInfo p (zlen page) d now /\ file m' d' q = Some page).

Lemma entry_cache_insert m d p info d' q i :
  entry (cache_insert m d p info) d' q = Some i ->
  entry m d' q = Some i /\ (d' = d -> q <> p) \/ (d' = d /\ q = p /\ i = info).
Proof.
  unfold cache_insert, entry.
  destruct (foyer_insert _ p info) as [c ev] eqn:Hi. cbn.
  destruct (decide (d' = d)) as [->|Hd].
  - rewrite fn_lookup_insert.
    pose proof (foyer_insert_entries (lm_caches m d) p info q) as He. rewrite Hi in He. cbn in He.
    rewrite He. case_decide; [done|]. destruct (decide (q = p)) as [->|Hq].
    + rewrite lookup_insert_eq. intros [= <-]. by right.
    + rewrite lookup_insert_ne by done. by left.
  - rewrite fn_lookup_insert_ne by done. left. split; [done|]. by intros.
Qed.

Lemma file_cache_insert m d p info d' q : file (cache_insert m d p info) d' q = file m d' q.
Proof. unfold cache_insert. by destruct (foyer_insert _ p info). Qed.

Lemma put_admits m io p page m' r :
  put xxh3 options m io p page = (m', r) -> 
  admits m m' (dir p) p (io_now io) page /\ (r = true -> is_Some (entry m' (dir p) p)) /\
  (shrinks m m' \/ (zlen page <> 0 /\ zlen page <= co_page_size options /\
                    entry m (dir p) p = None)).
Proof.
  unfold put. intros Hput.
  destruct ((zlen page =? 0) || _) eqn:Hlen.
  { inversion Hput; subst. split; [by intros d' q i; left|]. split; [done|]. by left. }
  apply orb_false_iff in Hlen as [Hz%Z.eqb_neq Hl%Z.ltb_ge].
  destruct (contains m (dir p) p) eqn:Hc.
  { inversion Hput; subst. split; [by intros d' q i; left|]. split; [done|]. by left. }
  apply contains_false in Hc. set (d := dir p) in *.
  destruct (store_put _ _ _ _ _ _) as [s ok] eqn:Hs.
  assert (Hfile : forall d' q, file (set_store m d s) d' q =
    if decide (d' = d /\ q = p) then (if ok then Some page else file m d' q) else file m d' q).
  { intros d' q. rewrite file_set_store. unfold file.
    destruct (decide (d' = d)) as [->|]; [|by rewrite decide_False by tauto].
    rewrite (page_file_store_put _ _ _ _ _ _ _ _ q Hs).
    destruct ok; repeat case_decide; done || tauto. }
  assert (Hother : forall m1, (forall d' q, file m1 d' q = file (set_store m d s) d' q) ->
    forall d' q i, entry m d' q = Some i -> file m1 d' q = file m d' q).
  { intros m1 Hm1 d' q i Hq. rewrite Hm1, Hfile. case_decide as Hdq; [|done].
    destruct Hdq as [-> ->]. congruence. }
  destruct ok; cbn [negb] in Hput.
  2:{ inversion Hput; subst. split; [intros d' q i Hq; left; split; [done|]; by eapply Hother|].
      split; [done|]. left. intros d' q i Hq. split; [done|]. by eapply Hother. }
  set (info := mkPageInfo p (zlen page) d (io_now io)) in *.
  set (m1 := cache_insert (set_store m d s) d p info) in *.
  assert (Hm1 : forall m2, (forall d' q, entry m2 d' q = entry m1 d' q) ->
    (forall d' q, file m2 d' q = file m1 d' q) -> admits m m2 d p (io_now io) page).
  { intros m2 He2 Hf2 d' q i Hq. rewrite He2 in Hq. rewrite Hf2. unfold m1 in Hq |- *.
    rewrite file_cache_insert.
    destruct (entry_cache_insert _ _ _ _ _ _ _ Hq) as [[Hq' Hne]|(-> & -> & ->)].
    - left. split; [done|]. rewrite Hfile. rewrite decide_False by tauto. done.
    - right. split_and!; try done. rewrite Hfile. by rewrite decide_True. }
  destruct (contains m1 d p) eqn:Hc1; cbn [negb] in Hput.
  2:{ inversion Hput; subst. split; [by apply Hm1|]. split; [done|]. right. done. }
  apply contains_spec in Hc1. set (bf := index_page _ p) in *.
  destruct (match lm_by_file m1 !! pg_file_id p with Some _ => _ | None => _ end)
    as [[l t]|]; inversion Hput; subst m' r.
  - split; [apply Hm1; [done|]|split; [done|by right]].
    intros d' q. rewrite file_set_store. case_decide; [subst d'|done].
    by rewrite page_file_write_identity.
  - split; [by apply Hm1|]. split; [done|by right].
Qed.
End Facts.
