(* ===== verification/LocalCacheProps.v ===== *)
(** * Local page cache manager: invariants over every sequence of operations

    [Op] is one step of the manager; [run] a sequence of them, with any system-call
    outcomes.  Three properties are kept: a page in the metadata has its bytes on
    disk ([no_zombie]); what is served is what was put ([serves]); and the reverse
    index has every resident page ([index_ok]) as long as no page is re-admitted
    while the reaper still holds its eviction, with the trace that shows why the
    condition is there. *)

From stdpp Require Import functions.
From S2P Require Import Prelude Errors PageCache PageStore LocalCache LocalCacheFacts.

Inductive Op : Type :=
| OpPut (io : Io) (p : PageId) (page : bytes)
| OpGet (io : Io) (p : PageId) (off len : Z)
| OpDelete (io : Io) (p : PageId)
| OpInvalidate (io : Io) (f : string)
| OpOpen (io : Io) (f : string) (length mtime : Z)
| OpScheduleFill (p : PageId) (page : bytes)
| OpRunFill (io : Io) (k : nat)
| OpReapBegin
| OpReapFinish (io : Io).

Section Runs.
Context {F : Type} `{!Foyer F}.
Context (xxh3 : string -> Z) (options : CacheManagerOptions).

Definition apply_op (m : LocalCacheManager F) (op : Op) : LocalCacheManager F :=
  match op with
  | OpPut io p page => fst (put xxh3 options m io p page)
  | OpGet io p off len => fst (get_bytes xxh3 options m io p off len)
  | OpDelete io p => fst (delete xxh3 options m io p)
  | OpInvalidate io f => invalidate xxh3 options m io f
  | OpOpen io f length mtime => on_file_open xxh3 options m io f length mtime
  | OpScheduleFill p page => schedule_fill options m p page
  | OpRunFill io k => run_fill xxh3 options m io k
  | OpReapBegin => reap_begin m
  | OpReapFinish io => reap_finish m io
  end.

Definition run (m : LocalCacheManager F) (ops : list Op) : LocalCacheManager F :=
  foldl apply_op m ops.
End Runs.

(** ** The reverse index as a set of pages *)

Definition in_index (b : gmap string (gset Z)) (q : PageId) : Prop :=
  pg_index q ∈ default ∅ (b !! pg_file_id q).

Lemma in_index_unindex b p q :
  q <> p -> in_index b q -> in_index (fst (unindex b p)) q.
Proof.
  intros Hne. unfold in_index, unindex. destruct p as [f i], q as [g j]; cbn in *.
  destruct (decide (g = f)) as [->|Hfg].
  - destruct (b !! f) as [s|] eqn:Hb; cbn; [|by rewrite Hb].
    intros Hj. assert (j <> i) by congruence. case_decide as Hs; cbn.
    + exfalso. assert (j ∈ s ∖ {[i]}) by set_solver. set_solver.
    + rewrite lookup_insert_eq. cbn. set_solver.
  - destruct (b !! f) as [s|]; [|done]. case_decide; cbn;
      by rewrite ?lookup_delete_ne, ?lookup_insert_ne.
Qed.

Lemma in_index_index_page b p q : q = p \/ in_index b q -> in_index (index_page b p) q.
Proof.
  unfold in_index, index_page. destruct p as [f i], q as [g j]; cbn.
  destruct (decide (g = f)) as [->|Hfg].
  - rewrite lookup_insert_eq. cbn. intros [[= ->]|]; set_solver.
  - rewrite lookup_insert_ne by done. intros [[= -> ->]|]; done.
Qed.

Section Invariants.
Context {F : Type} `{!Foyer F, !FoyerOk F}.
Context (xxh3 : string -> Z) (options : CacheManagerOptions).

Abbreviation mgr := (LocalCacheManager F).
Abbreviation dir := (dir_of xxh3 options).
Abbreviation apply_op := (apply_op xxh3 options).
Abbreviation run := (run xxh3 options).

(** ** One step: a shrink or one admission *)

Definition op_admits (m : mgr) (op : Op) : option (Io * PageId * bytes) :=
  match op with
  | OpPut io p page => Some (io, p, page)
  | OpRunFill io k => '(p, page) ← lm_fills m !! k; Some (io, p, page)
  | _ => None
  end.

Lemma op_effect m op :
  shrinks m (apply_op m op) \/
  exists io p page, op_admits m op = Some (io, p, page) /\
    admits m (apply_op m op) (dir p) p (io_now io) page /\
    0 < zlen page <= co_page_size options /\ entry m (dir p) p = None.
Proof.
  assert (Hput : forall m0 io p page, shrinks m m0 -> entry m0 (dir p) p = entry m (dir p) p ->
    (forall d q, file m0 d q = file m d q) ->
    let m' := fst (put xxh3 options m0 io p page) in
    shrinks m m' \/ (admits m m' (dir p) p (io_now io) page /\
                     0 < zlen page <= co_page_size options /\ entry m (dir p) p = None)).
  { intros m0 io p page Hm0 He Hf. destruct (put xxh3 options m0 io p page) as [m' r] eqn:Hp.
    destruct (put_admits _ _ _ _ _ _ _ _ Hp) as (Ha & _ & [Hs|(Hz & Hl & Hn)]); cbn.
    - left. by etrans.
    - right. rewrite <- He. pose proof (zlen_nonneg page). split_and!; try done || lia.
      intros d q i Hq. destruct (Ha d q i Hq) as [[Hq0 Hf0]|Hnew]; [left|by right].
      destruct (Hm0 d q i Hq0). split; [done|]. by rewrite Hf0. }
  destruct op; cbn [LocalCacheProps.apply_op].
  - destruct (Hput m io p page) as [?|(?&?&?)]; [done..|by left|right].
    exists io, p, page. done.
  - left. apply get_bytes_shrinks.
  - left. apply delete_shrinks.
  - left. apply invalidate_shrinks.
  - left. apply on_file_open_shrinks.
  - left. apply schedule_fill_shrinks.
  - unfold run_fill, op_admits. destruct (lm_fills m !! k) as [[p page]|]; [|by left].
    destruct (Hput (set_fills m (take k (lm_fills m) ++ drop (S k) (lm_fills m))) io p page)
      as [?|(?&?&?)]; [by apply shrinks_same|done|done|by left|right].
    exists io, p, page. done.
  - left. apply reap_begin_shrinks.
  - left. apply reap_finish_shrinks.
Qed.

(** ** No zombies *)

Definition no_zombie (m : mgr) : Prop :=
  forall d q i, entry m d q = Some i ->
    exists content, file m d q = Some content /\ zlen content = pi_page_size i /\
      0 < zlen content <= co_page_size options.

Lemma no_zombie_step m op : no_zombie m -> no_zombie (apply_op m op).
Proof.
  intros Hm d q i Hq. destruct (op_effect m op) as [Hs|(io & p & page & _ & Ha & Hl & _)].
  - destruct (Hs d q i Hq) as [Hq0 ->]. by apply Hm.
  - destruct (Ha d q i Hq) as [[Hq0 ->]|(-> & -> & -> & ->)]; [by apply Hm|].
    by exists page.
Qed.

Lemma no_zombie_run ops m : no_zombie m -> no_zombie (run m ops).
Proof.
  revert m. induction ops as [|op ops IH]; intros m Hm; [done|].
  apply IH, no_zombie_step, Hm.
Qed.

(** ** What is served was put *)

(** Resident pages of [f] hold the file's bytes, and so do the pending fills. *)
Definition serves (f : string) (ps : Z) (data : bytes) (m : mgr) : Prop :=
  (forall i e, entry m (dir (mkPageId f i)) (mkPageId f i) = Some e ->
     file m (dir (mkPageId f i)) (mkPageId f i) = Some (page_of ps data i)) /\
  (forall p page, (p, page) ∈ lm_fills m -> pg_file_id p = f ->
     page = page_of ps data (pg_index p)).

(** The operation stores no other bytes for [f]. *)
Definition stores_only (f : string) (ps : Z) (data : bytes) (op : Op) : Prop :=
  match op with
  | OpPut _ p page | OpScheduleFill p page =>
      pg_file_id p = f -> page = page_of ps data (pg_index p)
  | _ => True
  end.

Lemma fills_delete m io p : lm_fills (fst (delete xxh3 options m io p)) = lm_fills m.
Proof.
  unfold delete. destruct (foyer_remove _ p) as [c [e|]]; [|done].
  by destruct (unindex _ _).
Qed.

Lemma fills_invalidate m io f : lm_fills (invalidate xxh3 options m io f) = lm_fills m.
Proof.
  unfold invalidate. destruct (_ !! f) as [s|]; [|done]. generalize (elements s) as l.
  intros l. revert m. induction l as [|i l IH]; intros m; cbn; [done|].
  by rewrite IH, fills_delete.
Qed.

Lemma fills_put m io p page : lm_fills (fst (put xxh3 options m io p page)) = lm_fills m.
Proof.
  unfold put, cache_insert. repeat case_match; simplify_eq; done.
Qed.

Lemma fills_step m op :
  exists l, lm_fills (apply_op m op) ⊆ l ++ lm_fills m /\
    (forall x, x ∈ l -> exists p page, x = (p, page) /\ op = OpScheduleFill p page).
Proof.
  assert (Hsame : forall m' : mgr, lm_fills m' ⊆ lm_fills m -> exists l,
    lm_fills m' ⊆ l ++ lm_fills m /\
    (forall x, x ∈ l -> exists p page, x = (p, page) /\ op = OpScheduleFill p page)).
  { intros m' Hm'. exists []. split; [done|]. by intros x ?%not_elem_of_nil. }
  destruct op; cbn [LocalCacheProps.apply_op].
  - apply Hsame. by rewrite fills_put.
  - apply Hsame. unfold get_bytes, get_expired_path. repeat case_match; simplify_eq; done.
  - apply Hsame. by rewrite fills_delete.
  - apply Hsame. by rewrite fills_invalidate.
  - apply Hsame. unfold on_file_open. repeat case_match; cbn; by rewrite ?fills_invalidate.
  - unfold schedule_fill. destruct (_ <? _); [|by apply Hsame].
    exists [(p, page)]. cbn. split; [set_solver|].
    intros x ->%list_elem_of_singleton. eauto.
  - apply Hsame. unfold run_fill. destruct (lm_fills m !! k) as [[p page]|]; [|done].
    rewrite fills_put. cbn. intros x [Hx|Hx]%elem_of_app.
    + eapply subseteq_take, Hx.
    + eapply subseteq_drop, Hx.
  - apply Hsame. unfold reap_begin. repeat case_match; done.
  - apply Hsame. unfold reap_finish, remove_page_file. repeat case_match; done.
Qed.

Lemma serves_step f ps data m op :
  stores_only f ps data op -> serves f ps data m -> serves f ps data (apply_op m op).
Proof.
  intros Hop [Hres Hfill]. split.
  - intros i e He. destruct (op_effect m op) as [Hs|(io & p & page & Hadm & Ha & _)].
    + destruct (Hs _ _ _ He) as [He0 ->]. by eapply Hres.
    + destruct (Ha _ _ _ He) as [[He0 ->]|(_ & <- & _ & ->)]; [by eapply Hres|].
      f_equal. destruct op; cbn in Hadm; simplify_eq; [by apply Hop|].
      destruct (lm_fills m !! k) as [[p0 page0]|] eqn:Hk; cbn in Hadm; simplify_eq.
      by apply (Hfill _ _ (list_elem_of_lookup_2 _ _ _ Hk)).
  - intros p page Hin Hf. destruct (fills_step m op) as (l & Hsub & Hnew).
    apply Hsub, elem_of_app in Hin as [(p' & page' & [= <- <-] & ->)%Hnew|Hin]; [|by apply Hfill].
    by apply Hop.
Qed.

Lemma serves_run f ps data ops m :
  Forall (stores_only f ps data) ops -> serves f ps data m -> serves f ps data (run m ops).
Proof.
  intros Hops. revert m. induction Hops as [|op ops Hop _ IH]; intros m Hm; [done|].
  by apply IH, serves_step.
Qed.

(** What a read returns is a part of the page, or nothing. *)
Lemma serves_get f ps data m io p off len :
  serves f ps data m -> pg_file_id p = f -> 0 <= off -> 0 < len ->
  let b := snd (get_bytes xxh3 options m io p off len) in
  b = [] \/ b = slice off (off + len) (page_of ps data (pg_index p)).
Proof.
  intros [Hres _] Hf Ho Hl. unfold get_bytes.
  destruct (Z.eqb_spec len 0); [lia|].
  pose proof (foyer_get_value (lm_caches m (dir p)) p) as Hv.
  destruct (foyer_get _ p) as [c [info|]]; cbn in Hv |- *; [|by left].
  destruct (expired _ _ _); [by left|].
  destruct (store_get_bytes _ _ _ _ _) as [b|] eqn:Hb; [|by left]. cbn. right.
  apply store_get_bytes_spec in Hb; [|done..]. rewrite Hb.
  destruct p as [f' i]. cbn in Hf. subst f'.
  specialize (Hres i info (eq_sym Hv)). unfold file in Hres. by rewrite Hres.
Qed.

(** ** The reverse index *)

(** Pages sit in the directory of their file; a resident page is indexed, and no
    eviction of it is pending. *)
Definition index_ok (m : mgr) : Prop :=
  (forall d q, is_Some (entry m d q) -> d = dir q) /\
  (forall q, is_Some (entry m (dir q) q) -> indexed m q /\ ~ pending m q).

(** The operation does not admit a page whose eviction is pending. *)
Definition no_readmit (m : mgr) (op : Op) : Prop :=
  match op_admits m op with
  | Some (_, p, _) => ~ pending m p
  | None => True
  end.

#[global] Instance no_readmit_dec m op : Decision (no_readmit m op).
Proof. unfold no_readmit. destruct (op_admits m op) as [[[? ?] ?]|]; apply _. Defined.

Fixpoint orderly (m : mgr) (ops : list Op) : Prop :=
  match ops with
  | [] => True
  | op :: ops => no_readmit m op /\ orderly (apply_op m op) ops
  end.

#[global] Instance orderly_dec m ops : Decision (orderly m ops).
Proof. revert m. induction ops as [|op ops IH]; intros m; cbn; apply _. Defined.

(** A shrink keeps the invariant when it keeps the index of the pages it leaves
    resident and queues nothing. *)
Lemma index_ok_shrinks m m' :
  shrinks m m' ->
  (forall q, is_Some (entry m' (dir q) q) -> indexed m q -> ~ pending m q -> indexed m' q) ->
  (forall q, pending m' q -> pending m q) -> index_ok m -> index_ok m'.
Proof.
  intros Hs Hi Hp [Hd Hq].
  assert (Hback : forall d q, is_Some (entry m' d q) -> is_Some (entry m d q)).
  { intros d q [i H]. destruct (Hs _ _ _ H). eauto. }
  split; [eauto|]. intros q Hres. destruct (Hq q (Hback _ _ Hres)). split; [eauto|].
  intros Hpend. eauto.
Qed.

(** Removing the metadata of [p], its index entry and its file. *)
Lemma index_ok_drop m io p (b : gmap string (gset Z)) e :
  index_ok m -> unindex (lm_by_file m) p = (b, e) ->
  index_ok (remove_page_file
    (set_by_file (set_cache m (dir p) (fst (foyer_remove (lm_caches m (dir p)) p))) b)
    io (dir p) p e).
Proof.
  intros Hok Hu. set (m1 := set_cache m _ _).
  assert (He : entry m1 (dir p) p = None)
    by (unfold m1; rewrite entry_remove; by rewrite decide_True).
  apply (index_ok_shrinks m); [| |done|done].
  - etrans; [apply (shrinks_remove m (dir p) p)|]. by apply shrinks_drop_page.
  - intros q [i Hq] Hi _. change (entry m1 (dir q) q = Some i) in Hq.
    destruct (decide (q = p)) as [->|Hne]; [congruence|].
    pose proof (in_index_unindex _ p q Hne Hi) as Hi'. by rewrite Hu in Hi'.
Qed.

Lemma index_ok_same m m' :
  lm_stores m' = lm_stores m -> lm_caches m' = lm_caches m -> lm_by_file m' = lm_by_file m ->
  lm_queue m' = lm_queue m -> lm_reaping m' = lm_reaping m -> index_ok m -> index_ok m'.
Proof.
  intros Hs Hc Hb Hq Hr. apply index_ok_shrinks; [by apply shrinks_same| |].
  - unfold indexed. by rewrite Hb.
  - unfold pending. by rewrite Hq, Hr.
Qed.

Lemma index_ok_get m p :
  index_ok m -> index_ok (set_cache m (dir p) (fst (foyer_get (lm_caches m (dir p)) p))).
Proof. apply index_ok_shrinks; [apply shrinks_get|done|done]. Qed.

Lemma index_ok_delete m io p : index_ok m -> index_ok (fst (delete xxh3 options m io p)).
Proof.
  intros Hok. unfold delete.
  pose proof (index_ok_drop m io p) as Hdrop. pose proof (shrinks_remove m (dir p) p) as Hs.
  destruct (foyer_remove _ p) as [c [info|]]; cbn [fst] in *.
  - change (lm_by_file (set_cache m (dir p) c)) with (lm_by_file m).
    destruct (unindex _ p) as [b e] eqn:Hu. by apply Hdrop.
  - by apply (index_ok_shrinks m).
Qed.

Lemma index_ok_expired m io p :
  index_ok m -> index_ok (get_expired_path xxh3 options m io p).
Proof.
  intros Hok. unfold get_expired_path. destruct (co_ttl options); [|done].
  pose proof (index_ok_get m p Hok) as Hg.
  destruct (foyer_get _ p) as [c [info|]]; cbn [fst] in Hg; [|done].
  destruct (negb _); [done|].
  destruct (unindex _ p) as [b e] eqn:Hu. by apply index_ok_drop.
Qed.

Lemma index_ok_get_bytes m io p off len :
  index_ok m -> index_ok (fst (get_bytes xxh3 options m io p off len)).
Proof.
  intros Hok. unfold get_bytes. destruct (len =? 0); [done|].
  pose proof (index_ok_get m p Hok) as Hg.
  destruct (foyer_get _ p) as [c [info|]]; cbn [fst] in Hg; [|done].
  destruct (expired _ _ _); [by apply index_ok_expired|].
  by destruct (store_get_bytes _ _ _ _ _).
Qed.

Lemma index_ok_foldl_delete io f l m :
  index_ok m ->
  index_ok (foldl (fun m i => fst (delete xxh3 options m io (mkPageId f i))) m l).
Proof.
  revert m. induction l as [|i l IH]; intros m Hm; cbn; [done|].
  by apply IH, index_ok_delete.
Qed.

Lemma index_ok_invalidate m io f : index_ok m -> index_ok (invalidate xxh3 options m io f).
Proof. intros. unfold invalidate. destruct (_ !! f); [by apply index_ok_foldl_delete|done]. Qed.

Lemma index_ok_reap_begin m : index_ok m -> index_ok (reap_begin m).
Proof.
  intros Hok. pose proof (reap_begin_shrinks m) as Hs. revert Hs. unfold reap_begin.
  destruct (lm_reaping m) eqn:Hr; [done|]. destruct (lm_queue m) as [|t q] eqn:Hq; [done|].
  destruct (unindex _ _) as [b e] eqn:Hu. intros Hs.
  apply (index_ok_shrinks m); [done| | |done].
  - intros p _ Hi Hnp. assert (p <> rt_page_id t).
    { intros ->. apply Hnp. left. rewrite Hq. by left. }
    pose proof (in_index_unindex _ _ _ H Hi) as Hi'. by rewrite Hu in Hi'.
  - intros p [Hp|(t' & e' & [= <- <-] & <-)]; left; rewrite Hq; cbn in *; by constructor.
Qed.

Lemma index_ok_reap_finish m io : index_ok m -> index_ok (reap_finish m io).
Proof.
  apply index_ok_shrinks; [apply reap_finish_shrinks| |];
    unfold reap_finish; destruct (lm_reaping m) as [[t e]|]; try done;
    destruct (contains _ _ _); try done.
  - intros q [Hq|(? & ? & ? & _)]; [by left|done].
  - intros q [Hq|(? & ? & ? & _)]; [by left|done].
Qed.

(** *** Admissions *)

Lemma on_leave_elem d evicted queue p :
  p ∈ map rt_page_id (on_leave d queue evicted) ->
  p ∈ map rt_page_id queue \/ p ∈ map fst evicted.
Proof.
  revert queue. induction evicted as [|[q info] evicted IH]; intros queue; cbn; [by left|].
  intros [Hp|Hp]%IH; [|right; by constructor].
  case_match; [|by left].
  rewrite map_app in Hp. apply elem_of_app in Hp as [Hp|Hp]; [by left|].
  cbn in Hp. apply list_elem_of_singleton in Hp as ->. right. by constructor.
Qed.

Lemma pending_cache_insert m d p info q :
  pending (cache_insert m d p info) q ->
  pending m q \/ (entry (cache_insert m d p info) d q = None /\
                  (q = p \/ is_Some (entry m d q))).
Proof.
  unfold cache_insert, pending, entry.
  destruct (foyer_insert _ p info) as [c ev] eqn:Hi. cbn.
  intros [[Hq|Hq]%on_leave_elem|Hr]; [by left; left| |by left; right].
  right. rewrite fn_lookup_insert.
  pose proof (foyer_insert_entries (lm_caches m d) p info q) as He. rewrite Hi in He. cbn in He.
  rewrite He, decide_True by done. split; [done|].
  apply list_elem_of_fmap in Hq as ([q' j] & -> & Hev).
  pose proof (foyer_insert_evicted (lm_caches m d) p info q' j) as Hv. rewrite Hi in Hv.
  specialize (Hv Hev). cbn. destruct (decide (q' = p)) as [->|Hne]; [by left|right].
  rewrite lookup_insert_ne in Hv by done. eauto.
Qed.

Lemma index_ok_admit m p info b :
  index_ok m -> ~ pending m p ->
  (forall q, in_index (lm_by_file m) q \/ (q = p /\ is_Some (entry (cache_insert m (dir p) p info) (dir p) p)) ->
     in_index b q) ->
  index_ok (set_by_file (cache_insert m (dir p) p info) b).
Proof.
  intros [Hd Hq] Hnp Hb. set (m1 := cache_insert m (dir p) p info) in *.
  assert (Hback : forall d q, is_Some (entry m1 d q) ->
    is_Some (entry m d q) \/ (d = dir p /\ q = p)).
  { intros d q [i H]. apply entry_cache_insert in H as [[H _]|(-> & -> & _)]; eauto. }
  split.
  - intros d q H. destruct (Hback d q H) as [?|[-> ->]]; eauto.
  - intros q H. change (is_Some (entry m1 (dir q) q)) in H.
    assert (Hpend : ~ pending m1 q).
    { intros [Hp|[Hnone Hor]]%pending_cache_insert.
      - destruct (Hback _ _ H) as [Hres|[_ ->]]; [|done]. by destruct (Hq q Hres).
      - fold m1 in Hnone. assert (dir q = dir p) as Hdir.
        { destruct Hor as [->|Hres]; [done|]. by symmetry; apply Hd. }
        rewrite Hdir, Hnone in H. by destruct H. }
    split; [|done]. apply Hb. destruct (Hback _ _ H) as [Hres|[_ ->]]; [left|by right].
    by destruct (Hq q Hres).
Qed.

Lemma index_ok_put m io p page :
  ~ pending m p -> index_ok m -> index_ok (fst (put xxh3 options m io p page)).
Proof.
  intros Hnp Hok. unfold put.
  destruct (_ || _); [done|]. destruct (contains m (dir p) p) eqn:Hc; [done|].
  apply contains_false in Hc.
  destruct (store_put _ _ _ _ _ _) as [s ok] eqn:Hs.
  assert (Hok1 : index_ok (set_store m (dir p) s)).
  { destruct Hok as [Hd Hq]. split; [exact Hd|exact Hq]. }
  destruct (negb ok); [done|]. set (info := mkPageInfo _ _ _ _).
  destruct (contains (cache_insert _ _ _ _) _ _) eqn:Hc1; cbn [negb].
  - set (m1 := cache_insert _ _ _ _) in *. apply contains_spec in Hc1.
    assert (Hok2 : index_ok (set_by_file m1 (index_page (lm_by_file m1) p))).
    { apply index_ok_admit; [done|done|].
      intros q [Hq|[-> _]]; apply in_index_index_page; [right|by left].
      unfold m1, cache_insert. by destruct (foyer_insert _ _ _). }
    destruct (match lm_by_file m1 !! pg_file_id p with Some _ => _ | None => _ end)
      as [[l t]|]; [|done]. destruct Hok2 as [Hd Hq]. split; [exact Hd|exact Hq].
  - apply contains_false in Hc1. cbn.
    pose proof (index_ok_admit (set_store m (dir p) s) p info
      (lm_by_file (cache_insert (set_store m (dir p) s) (dir p) p info)) Hok1 Hnp) as H.
    destruct H as [Hd Hq]; [|split; [exact Hd|exact Hq]].
    intros q [Hq|[_ [? Hres]]]; [|congruence].
    unfold cache_insert. by destruct (foyer_insert _ _ _).
Qed.

Lemma index_ok_step m op : no_readmit m op -> index_ok m -> index_ok (apply_op m op).
Proof.
  intros Hr Hok. destruct op; cbn [LocalCacheProps.apply_op].
  - by apply index_ok_put.
  - by apply index_ok_get_bytes.
  - by apply index_ok_delete.
  - by apply index_ok_invalidate.
  - unfold on_file_open. destruct (_ !! f) as [[l t]|]; [destruct (_ && _); [done|]|].
    + by apply (index_ok_same (invalidate xxh3 options m io f)), index_ok_invalidate.
    + by apply (index_ok_same m).
  - unfold schedule_fill. destruct (_ <? _); [by apply (index_ok_same m)|done].
  - unfold no_readmit, op_admits in Hr. unfold run_fill.
    destruct (lm_fills m !! k) as [[p page]|]; [|done]. cbn in Hr.
    apply index_ok_put; [done|]. by apply (index_ok_same m).
  - by apply index_ok_reap_begin.
  - by apply index_ok_reap_finish.
Qed.

Lemma index_ok_run ops m : orderly m ops -> index_ok m -> index_ok (run m ops).
Proof.
  revert m. induction ops as [|op ops IH]; intros m; [done|].
  intros [Hr Ho] Hok. by apply IH, index_ok_step.
Qed.

(** *** Invalidation *)

Lemma delete_gone m io p : entry (fst (delete xxh3 options m io p)) (dir p) p = None.
Proof.
  unfold delete. pose proof (entry_remove m (dir p) p (dir p) p) as He.
  rewrite decide_True in He by done.
  destruct (foyer_remove _ p) as [c [info|]]; cbn [fst] in *; [|done].
  by destruct (unindex _ p).
Qed.

Lemma shrinks_none m m' d q : shrinks m m' -> entry m d q = None -> entry m' d q = None.
Proof.
  intros Hs Hn. destruct (entry m' d q) as [i|] eqn:H; [|done].
  destruct (Hs _ _ _ H). congruence.
Qed.

Lemma foldl_delete_gone io f l m i :
  i ∈ l ->
  entry (foldl (fun m i => fst (delete xxh3 options m io (mkPageId f i))) m l)
    (dir (mkPageId f i)) (mkPageId f i) = None.
Proof.
  revert m. induction l as [|j l IH]; intros m Hi; [by apply not_elem_of_nil in Hi|]. cbn.
  apply elem_of_cons in Hi as [->|Hi]; [|by apply IH].
  eapply shrinks_none; [apply foldl_delete_shrinks|apply delete_gone].
Qed.

Lemma invalidate_gone m io f i :
  index_ok m ->
  entry (invalidate xxh3 options m io f) (dir (mkPageId f i)) (mkPageId f i) = None.
Proof.
  intros [_ Hq]. set (p := mkPageId f i).
  destruct (entry m (dir p) p) as [e|] eqn:He.
  - destruct (Hq p) as [Hi _]; [eauto|]. unfold indexed in Hi. cbn in Hi.
    unfold invalidate. destruct (lm_by_file m !! f) as [set|]; cbn in Hi; [|set_solver].
    apply foldl_delete_gone. by apply elem_of_elements.
  - eapply shrinks_none; [apply invalidate_shrinks|done].
Qed.

(** A page that is not resident reads as a miss. *)
Lemma get_bytes_miss m io p off len :
  entry m (dir p) p = None -> snd (get_bytes xxh3 options m io p off len) = [].
Proof.
  intros Hn. unfold get_bytes. destruct (len =? 0); [done|].
  pose proof (foyer_get_value (lm_caches m (dir p)) p) as Hv.
  destruct (foyer_get _ p) as [c o]. cbn in Hv. unfold entry in Hn.
  rewrite Hv, Hn. done.
Qed.
End Invariants.
