(* ===== verification/LocalCacheRestore.v ===== *)
(** * Local page cache manager: restoring from disk

    The index rebuilt by [create] from the files of a previous process: what is
    resident afterwards has its bytes on disk, is indexed, and belongs to a file
    whose identity sidecar was read.  [read_dir] lists each entry once, and the
    files below a directory are those the allocator places there. *)

From stdpp Require Import functions.
From S2P Require Import Prelude PageCache PageStore LocalCache LocalCacheFacts LocalCacheProps.

Section Restore.
Context {F : Type} `{!Foyer F, !FoyerOk F}.
Context (xxh3 : string -> Z) (options : CacheManagerOptions).
Context (io : Io) (disk : Z -> LocalPageStore).

Abbreviation mgr := (LocalCacheManager F).
Abbreviation dir := (dir_of xxh3 options).

Definition file_dir (f : string) : Z := dir (mkPageId f 0).

Lemma dir_file_dir p : dir p = file_dir (pg_file_id p).
Proof. done. Qed.

(** What holds between two file directories; [walked] are the files walked. *)
Record restore_inv (walked : list string) (m : mgr) : Prop := {
  ri_index : index_ok xxh3 options m;
  ri_zombie : no_zombie options m;
  ri_seen : forall q, (exists d, is_Some (entry m d q)) \/ pending m q -> pg_file_id q ∈ walked;
  ri_untouched : forall d f, f ∉ walked ->
    (forall name, ps_files (lm_stores m d) !! (f, name) = ps_files (disk d) !! (f, name)) /\
    ps_sidecars (lm_stores m d) !! f = ps_sidecars (disk d) !! f;
  ri_content : forall d q i, entry m d q = Some i -> file m d q = page_file (disk d) q;
  ri_version : forall d q, is_Some (entry m d q) -> exists v,
    read_identity (disk d) (pg_file_id q) (io_identity io (pg_file_id q)) = Some v /\
    lm_versions m !! pg_file_id q = Some v;
}.

(** What holds between two entries of the directory of [f]; [m0] is the state the
    walk of [f] started from, [names] the entries walked, [n] the pages restored. *)
Record entry_inv (walked : list string) (f : string) (m0 : mgr) (names : list PageName)
    (m : mgr) (n : Z) : Prop := {
  ei_index : index_ok xxh3 options m;
  ei_zombie : no_zombie options m;
  ei_seen : forall q, (exists d, is_Some (entry m d q)) \/ pending m q ->
    pg_file_id q ∈ walked \/ (pg_file_id q = f /\ PageFile (pg_index q) ∈ names);
  ei_files : forall d g name, (g = f -> name ∉ names) ->
    ps_files (lm_stores m d) !! (g, name) = ps_files (lm_stores m0 d) !! (g, name);
  ei_sidecars : forall d, ps_sidecars (lm_stores m d) = ps_sidecars (lm_stores m0 d);
  ei_content : forall d q i, entry m d q = Some i -> file m d q = page_file (disk d) q;
  ei_versions : lm_versions m = lm_versions m0;
  ei_old : forall d q, is_Some (entry m d q) -> pg_file_id q <> f -> is_Some (entry m0 d q);
  ei_count : 0 <= n /\ (n = 0 -> forall d q, is_Some (entry m d q) -> pg_file_id q <> f);
}.

(** Removing the file of an entry that backs no resident page. *)
Lemma entry_inv_remove walked f m0 names m n d name :
  entry_inv walked f m0 names m n -> name ∉ names ->
  (forall i, name = PageFile i -> entry m d (mkPageId f i) = None) ->
  let s := lm_stores m d in
  entry_inv walked f m0 (names ++ [name])
    (set_store m d (set_files s (base.delete (f, name) (ps_files s)))) n.
Proof.
  intros [Hi Hz Hs Hf Hside Hc Hv Hold Hn] Hname Hnone s.
  assert (Hfile : forall d' q i, entry m d' q = Some i ->
    file (set_store m d (set_files s (base.delete (f, name) (ps_files s)))) d' q = file m d' q).
  { intros d' q i Hq. rewrite file_set_store. case_decide; [subst d'|done].
    unfold page_file. cbn. rewrite lookup_delete_ne; [done|]. intros [= Hfq Hnq].
    destruct q as [g j]. cbn in *. subst g. rewrite (Hnone j) in Hq; done. }
  split; try done.
  - intros d' q i Hq. rewrite (Hfile _ _ _ Hq). by apply Hz.
  - intros q Hq. destruct (Hs q Hq) as [?|[? ?]]; [by left|right].
    split; [done|]. apply elem_of_app. by left.
  - intros d' g nm Hg. cbn. destruct (decide (d' = d)) as [->|];
      [rewrite fn_lookup_insert|rewrite fn_lookup_insert_ne by done; apply Hf; set_solver].
    cbn. rewrite lookup_delete_ne; [apply Hf; set_solver|].
    intros [= <- <-]. apply Hg; set_solver.
  - intros d'. cbn. destruct (decide (d' = d)) as [->|];
      [rewrite fn_lookup_insert|rewrite fn_lookup_insert_ne by done]; apply Hside.
  - intros d' q i Hq. rewrite (Hfile _ _ _ Hq). eapply Hc, Hq.
Qed.

Lemma entry_inv_skip walked f m0 names m n name :
  entry_inv walked f m0 names m n -> entry_inv walked f m0 (names ++ [name]) m n.
Proof.
  intros [Hi Hz Hs Hf Hside Hc Hv Hold Hn]. split; try done.
  - intros q Hq. destruct (Hs q Hq) as [?|[? ?]]; [by left|right].
    split; [done|]. apply elem_of_app. by left.
  - intros d g nm Hg. apply Hf. set_solver.
Qed.

Lemma entry_inv_admit walked f m0 names m n i content :
  restore_inv walked m0 -> f ∉ walked ->
  entry_inv walked f m0 names m n -> PageFile i ∉ names ->
  ps_files (lm_stores m (file_dir f)) !! (f, PageFile i) = Some content ->
  0 < zlen content <= co_page_size options ->
  let p := mkPageId f i in
  let m1 := cache_insert m (file_dir f) p
              (mkPageInfo p (zlen content) (file_dir f) (io_now io)) in
  entry_inv walked f m0 (names ++ [PageFile i])
    (set_by_file m1 (index_page (lm_by_file m1) p)) (n + 1).
Proof.
  intros H0 Hdone [Hi Hz Hs Hf Hside Hc Hv Hold [Hn _]] Hname Hcontent Hlen p m1.
  assert (Hfresh : ~ ((exists d, is_Some (entry m d p)) \/ pending m p))
    by (by intros [?|[_ ?]]%Hs).
  assert (Hstores : lm_stores m1 = lm_stores m)
    by (unfold m1, cache_insert; by destruct (foyer_insert _ _ _)).
  assert (Hfile : forall d q, file m1 d q = file m d q) by (intros; unfold file; by rewrite Hstores).
  assert (Hpc : file m (file_dir f) p = Some content) by done.
  split.
  - apply (index_ok_admit xxh3 options m p (mkPageInfo p (zlen content) (file_dir f) (io_now io)));
      [done|tauto|].
    intros q Hq. apply in_index_index_page. destruct Hq as [Hq|[Hq _]]; [right|by left].
    unfold m1, cache_insert. by destruct (foyer_insert _ _ _).
  - intros d q e Hq. change (entry m1 d q = Some e) in Hq. change (file _ d q) with (file m1 d q).
    rewrite Hfile.
    apply entry_cache_insert in Hq as [[Hq _]|(-> & -> & ->)]; [by apply Hz|by exists content].
  - intros q Hq. assert (Hor : (exists d, is_Some (entry m d q)) \/ pending m q \/ q = p).
    { destruct Hq as [[d [e Hq]]|Hq].
      - change (entry m1 d q = Some e) in Hq.
        apply entry_cache_insert in Hq as [[Hq _]|(-> & -> & ->)]; eauto.
      - change (pending m1 q) in Hq. apply pending_cache_insert in Hq as [?|[_ [?|?]]]; eauto. }
    destruct Hor as [?|[?| ->]]; [| |right; split; [done|apply elem_of_app; right; by left]];
      (destruct (Hs q) as [?|[? ?]]; [tauto|by left|right; split; [done|apply elem_of_app; by left]]).
  - intros d g nm Hg. change (lm_stores (set_by_file m1 _)) with (lm_stores m1).
    rewrite Hstores. apply Hf. set_solver.
  - intros d. change (lm_stores (set_by_file m1 _)) with (lm_stores m1). by rewrite Hstores.
  - intros d q e Hq. change (entry m1 d q = Some e) in Hq. change (file _ d q) with (file m1 d q).
    rewrite Hfile. apply entry_cache_insert in Hq as [[Hq _]|(-> & -> & ->)]; [by eapply Hc|].
    unfold file, page_file, page_path. cbn. rewrite Hf by done.
    by apply (ri_untouched _ _ H0).
  - rewrite <- Hv. unfold m1, cache_insert. by destruct (foyer_insert _ _ _).
  - intros d q [e Hq] Hne. change (entry m1 d q = Some e) in Hq.
    apply entry_cache_insert in Hq as [[Hq _]|(-> & -> & ->)]; [eauto|done].
  - split; [lia|]. lia.
Qed.

Lemma restore_entry_inv walked f m0 names m n name :
  restore_inv walked m0 -> f ∉ walked -> entry_inv walked f m0 names m n -> name ∉ names ->
  let '(m', n') := restore_entry options io (file_dir f) f (m, n) name in
  entry_inv walked f m0 (names ++ [name]) m' n'.
Proof.
  intros H0 Hdone Hinv Hname. destruct name as [i|i u]; cbn [restore_entry].
  2:{ by apply entry_inv_remove. }
  destruct (_ !! (f, PageFile i)) as [content|] eqn:Hcontent; [|by apply entry_inv_skip].
  assert (Hnone : forall d, entry m d (mkPageId f i) = None).
  { intros d. destruct (entry m d _) as [e|] eqn:He; [|done].
    destruct (ei_seen _ _ _ _ _ _ Hinv (mkPageId f i)) as [?|[_ ?]]; [left; eauto|done|done]. }
  destruct ((zlen content =? 0) || _) eqn:Hlen.
  { apply entry_inv_remove; [done|done|]. by intros j [= <-]. }
  rewrite (proj2 (contains_false m (file_dir f) (mkPageId f i)) (Hnone _)).
  apply orb_false_iff in Hlen as [Hz%Z.eqb_neq Hl%Z.ltb_ge].
  apply entry_inv_admit; try done. pose proof (zlen_nonneg content). lia.
Qed.

Lemma restore_entries_inv walked f m0 todo names m n :
  restore_inv walked m0 -> f ∉ walked -> entry_inv walked f m0 names m n -> NoDup (names ++ todo) ->
  let '(m', n') := foldl (restore_entry options io (file_dir f) f) (m, n) todo in
  entry_inv walked f m0 (names ++ todo) m' n'.
Proof.
  intros H0 Hdone. revert names m n.
  induction todo as [|name todo IH]; intros names m n Hinv Hdup; cbn [foldl].
  { by rewrite app_nil_r. }
  assert (name ∉ names).
  { intros Hin. apply NoDup_app in Hdup as (_ & Hx & _). apply (Hx name Hin). by left. }
  pose proof (restore_entry_inv walked f m0 names m n name H0 Hdone Hinv H) as Hstep.
  destruct (restore_entry _ _ _ _ _ _) as [m' n'].
  replace (names ++ name :: todo) with ((names ++ [name]) ++ todo) in Hdup |- *
    by (by rewrite <- app_assoc).
  by apply IH.
Qed.

Lemma entry_inv_start walked f m0 :
  restore_inv walked m0 -> f ∉ walked -> entry_inv walked f m0 [] m0 0.
Proof.
  intros [Hi Hz Hs Hu Hc Hv] Hf. split; try done.
  - intros q Hq. left. by apply Hs.
  - split; [done|]. intros _ d q Hq Heq. apply Hf. rewrite <- Heq. apply Hs. eauto.
Qed.

(** Between two files, for the parts that do not depend on how [f] ended. *)
Lemma entry_inv_untouched walked f m0 names m n d g :
  restore_inv walked m0 -> entry_inv walked f m0 names m n -> g ∉ f :: walked ->
  (forall name, ps_files (lm_stores m d) !! (g, name) = ps_files (disk d) !! (g, name)) /\
  ps_sidecars (lm_stores m d) !! g = ps_sidecars (disk d) !! g.
Proof.
  intros H0 He [Hgf Hg]%not_elem_of_cons. destruct (ri_untouched _ _ H0 d g Hg) as [Hn Hs].
  split; [|by rewrite (ei_sidecars _ _ _ _ _ _ He)].
  intros name. by rewrite (ei_files _ _ _ _ _ _ He).
Qed.

Lemma entry_inv_seen_done walked f m0 names m n q :
  entry_inv walked f m0 names m n -> (exists d, is_Some (entry m d q)) \/ pending m q ->
  pg_file_id q ∈ f :: walked.
Proof.
  intros He Hq. destruct (ei_seen _ _ _ _ _ _ He q Hq) as [?|[-> _]];
    apply elem_of_cons; tauto.
Qed.

(** No page of [f] came back: its directory is dropped. *)
Lemma restore_inv_drop walked f m0 names m :
  restore_inv walked m0 -> f ∉ walked -> entry_inv walked f m0 names m 0 ->
  restore_inv (f :: walked)
    (set_store m (file_dir f) (remove_dir (lm_stores m (file_dir f)) f)).
Proof.
  intros H0 Hf He. pose proof He as [Hi Hz Hs Hfs Hside Hc Hv Hold [_ Hnone]].
  specialize (Hnone eq_refl). set (d := file_dir f).
  assert (Hlook : forall g name, g <> f ->
    ps_files (remove_dir (lm_stores m d) f) !! (g, name) = ps_files (lm_stores m d) !! (g, name)).
  { intros g name Hg. cbn. destruct (ps_files (lm_stores m d) !! (g, name)) eqn:Hgn.
    - by apply map_lookup_filter_Some.
    - apply map_lookup_filter_None. by left. }
  assert (Hfile : forall d' q i, entry m d' q = Some i ->
    file (set_store m d (remove_dir (lm_stores m d) f)) d' q = file m d' q).
  { intros d' q i Hq. rewrite file_set_store. case_decide; [subst d'|done].
    apply Hlook. eapply Hnone. eauto. }
  split; try done.
  - intros d' q i Hq. rewrite (Hfile _ _ _ Hq). by apply Hz.
  - intros q Hq. by eapply entry_inv_seen_done.
  - intros d' g Hg. destruct (entry_inv_untouched _ _ _ _ _ _ d' g H0 He Hg) as [Hn Hsd].
    apply not_elem_of_cons in Hg as [Hgf _]. cbn.
    destruct (decide (d' = d)) as [->|];
      [rewrite fn_lookup_insert|by rewrite fn_lookup_insert_ne by done].
    split; [intros name; by rewrite Hlook|]. cbn. by rewrite lookup_delete_ne.
  - intros d' q i Hq. rewrite (Hfile _ _ _ Hq). eapply Hc, Hq.
  - intros d' q Hq. pose proof (Hnone d' q Hq) as Hqf. specialize (Hold d' q Hq Hqf).
    change (lm_versions (set_store m d _)) with (lm_versions m). rewrite Hv.
    by apply (ri_version _ _ H0).
Qed.

(** The identity of a live file is recorded. *)
Lemma restore_inv_keep walked f m0 names m n v :
  restore_inv walked m0 -> f ∉ walked -> entry_inv walked f m0 names m n ->
  read_identity (disk (file_dir f)) f (io_identity io f) = Some v ->
  restore_inv (f :: walked) (set_versions m (<[f := v]> (lm_versions m))).
Proof.
  intros H0 Hf He Hid. pose proof He as [Hi Hz Hs Hfs Hside Hc Hv Hold _].
  split; try done.
  - intros q Hq. by eapply entry_inv_seen_done.
  - intros d g Hg. exact (entry_inv_untouched _ _ _ _ _ _ d g H0 He Hg).
  - intros d q Hq. cbn. destruct (decide (pg_file_id q = f)) as [Hqf|Hqf].
    + rewrite Hqf, lookup_insert_eq. exists v. split; [|done].
      destruct Hi as [Hplace _]. by rewrite (Hplace d q Hq), dir_file_dir, Hqf.
    + rewrite lookup_insert_ne by done. rewrite Hv. apply (ri_version _ _ H0). by apply Hold.
Qed.

Lemma restore_file_inv walked f names m :
  restore_inv walked m -> f ∉ walked -> NoDup names ->
  restore_inv (f :: walked) (restore_file options io (file_dir f) m (f, names)).
Proof.
  intros Hm Hf Hdup. cbn [restore_file].
  pose proof (entry_inv_start walked f m Hm Hf) as Hstart.
  destruct (read_identity _ _ _) as [v|] eqn:Hid; [|by eapply restore_inv_drop].
  pose proof (restore_entries_inv walked f m names [] m 0 Hm Hf Hstart Hdup) as He.
  destruct (foldl _ _ _) as [m' n]. destruct (Z.ltb_spec 0 n).
  - eapply restore_inv_keep; [done|done|done|]. revert Hid. unfold read_identity.
    by rewrite (proj2 (ri_untouched _ _ Hm (file_dir f) f Hf)).
  - destruct (ei_count _ _ _ _ _ _ He) as [Hn _].
    assert (n = 0) as -> by lia. by eapply restore_inv_drop.
Qed.

Lemma restore_files_inv d files walked m :
  restore_inv walked m -> Forall (fun e => d = file_dir e.1 /\ NoDup e.2) files ->
  NoDup (map fst files ++ walked) ->
  restore_inv (reverse (map fst files) ++ walked) (foldl (restore_file options io d) m files).
Proof.
  intros Hm Hfiles. revert walked m Hm.
  induction Hfiles as [|[f names] files [Hd Hnames] _ IH]; intros walked m Hm Hdup; [done|].
  cbn [foldl map fst app snd] in *. apply NoDup_cons in Hdup as [Hf Hdup].
  rewrite reverse_cons, <- app_assoc. cbn [app].
  apply IH.
  - rewrite Hd. apply restore_file_inv; [done|set_solver|done].
  - apply NoDup_app in Hdup as (H1 & H2 & H3). apply NoDup_app. split_and!; [done|set_solver|].
    apply NoDup_cons. split; [set_solver|done].
Qed.

(** A listing as [read_dir] gives it: every file once, in its own directory, every
    name once. *)
Definition listing_ok (listing : list (Z * list (string * list PageName))) : Prop :=
  Forall (fun '(d, files) => Forall (fun e => d = file_dir e.1 /\ NoDup e.2) files) listing /\
  NoDup (concat (map (fun '(d, files) => map fst files) listing)).

Lemma restore_listing_inv listing walked m :
  restore_inv walked m ->
  Forall (fun '(d, files) => Forall (fun e => d = file_dir e.1 /\ NoDup e.2) files) listing ->
  NoDup (concat (map (fun '(d, files) => map fst files) listing) ++ walked) ->
  exists walked', restore_inv walked' (restore options io listing m).
Proof.
  intros Hm Hl. revert walked m Hm.
  induction Hl as [|[d files] listing Hfiles _ IH]; intros walked m Hm Hdup; cbn in *; [eauto|].
  rewrite <- app_assoc in Hdup. apply NoDup_app in Hdup as (H1 & H2 & H3).
  apply NoDup_app in H3 as (H3 & H4 & H5).
  apply (IH (reverse (map fst files) ++ walked)).
  - apply restore_files_inv; [done|done|]. apply NoDup_app. split_and!; [done|set_solver|done].
  - rewrite (reverse_Permutation (map fst files)). apply NoDup_app.
    split_and!; [done|set_solver|]. apply NoDup_app. split_and!; [done|set_solver|done].
Qed.

Lemma create_inv empty_cache listing :
  foyer_entries empty_cache = ∅ -> listing_ok listing ->
  exists walked, restore_inv walked (create options io disk empty_cache listing).
Proof.
  intros Hempty [Hl Hdup].
  set (m0 := mkLocalCacheManager disk (fun _ => empty_cache) [] None ∅ ∅ []).
  assert (Hnone : forall d q, entry m0 d q = None)
    by (intros d q; unfold entry; cbn; by rewrite Hempty).
  assert (Hnot : forall d q, ~ is_Some (entry m0 d q)) by (intros d q; rewrite Hnone; by intros []).
  apply (restore_listing_inv listing [] m0); [|done|by rewrite app_nil_r].
  split.
  - split; [by intros d q ?%Hnot|by intros q ?%Hnot].
  - intros d q i Hq. by rewrite Hnone in Hq.
  - intros q [[d ?%Hnot]|[Hq|(? & ? & ? & _)]]; [done| |done]. by apply elem_of_nil in Hq.
  - done.
  - intros d q i Hq. by rewrite Hnone in Hq.
  - by intros d q ?%Hnot.
Qed.
End Restore.
