(* ===== verification/LocalCacheTheorems.v ===== *)
(** * Local page cache manager: theorems

    The manager behind the cache interface, with other activity (reaps, fills,
    other readers, opens) interleaved between its calls, and what the manager
    guarantees to its users. *)

From stdpp Require Import functions.
From S2P Require Import Prelude Errors PageCache PageStore.
From S2P Require Import LocalCache LocalCacheFacts LocalCacheProps LocalCacheRestore.

(** ** A concrete eviction cache: when full, an insert flushes the other entries *)

Record FlushCache : Type := mkFlushCache {
  fc_capacity : nat;
  fc_entries : gmap PageId PageInfo;
}.

#[global] Instance flush_foyer : Foyer FlushCache := {
  foyer_entries := fc_entries;
  foyer_get := fun c p => (c, fc_entries c !! p);
  foyer_insert := fun c p i =>
    let m := <[p := i]> (fc_entries c) in
    if (size m <=? fc_capacity c)%nat then (mkFlushCache (fc_capacity c) m, [])
    else (mkFlushCache (fc_capacity c) {[p := i]}, map_to_list (base.delete p (fc_entries c)));
  foyer_remove := fun c p =>
    (mkFlushCache (fc_capacity c) (base.delete p (fc_entries c)), fc_entries c !! p);
}.

#[global] Instance flush_foyer_ok : FoyerOk FlushCache.
Proof.
  split; try done.
  - intros f p i q j. cbn. destruct (_ <=? _)%nat; cbn; [by intros ?%elem_of_nil|].
    rewrite elem_of_map_to_list. intros Hq. destruct (decide (q = p)) as [->|Hne].
    + by rewrite lookup_delete_eq in Hq.
    + rewrite lookup_insert_ne by done. by rewrite lookup_delete_ne in Hq.
  - intros f p i q. cbn. destruct (_ <=? _)%nat; cbn.
    { rewrite decide_False; [done|]. apply not_elem_of_nil. }
    assert (Hin : q ∈ map fst (map_to_list (base.delete p (fc_entries f))) <->
      q <> p /\ is_Some (fc_entries f !! q)).
    { rewrite list_elem_of_fmap. split.
      - intros ([q' j] & -> & Hq). rewrite elem_of_map_to_list in Hq. cbn.
        destruct (decide (q' = p)) as [->|Hne]; [by rewrite lookup_delete_eq in Hq|].
        rewrite lookup_delete_ne in Hq by done. eauto.
      - intros [Hne [j Hj]]. exists (q, j). split; [done|].
        rewrite elem_of_map_to_list. by rewrite lookup_delete_ne. }
    destruct (decide (q = p)) as [->|Hne].
    + rewrite decide_False by (rewrite Hin; tauto). by rewrite lookup_singleton_eq, lookup_insert_eq.
    + rewrite lookup_singleton_ne, lookup_insert_ne by done.
      destruct (fc_entries f !! q) as [j|] eqn:Hj; case_decide as Hd; try done.
      exfalso. apply Hd, Hin. eauto.
Qed.

(** ** The manager behind the cache interface *)

(** What happens before a call and the outcome of its system calls. *)
Record Env : Type := mkEnv {
  env_background : list Op;
  env_io : Io;
}.

Section Interface.
Context {F : Type} `{!Foyer F, !FoyerOk F}.
Context (xxh3 : string -> Z) (options : CacheManagerOptions).

Abbreviation mgr := (LocalCacheManager F).
Abbreviation dir := (dir_of xxh3 options).

(** The next call's environment; a quiet one when the script is over. *)
Definition next_env (envs : list Env) : Env * list Env :=
  match envs with
  | [] => (mkEnv [] (io_ok 0 "uuid"), [])
  | e :: envs => (e, envs)
  end.

Definition step_env {A : Type} (c : mgr * list Env) (k : mgr -> Io -> mgr * A)
  : (mgr * list Env) * A :=
  let '(e, envs) := next_env c.2 in
  let '(m, a) := k (run xxh3 options c.1 (env_background e)) (env_io e) in
  ((m, envs), a).

Definition step_env_ (c : mgr * list Env) (k : mgr -> Io -> mgr) : mgr * list Env :=
  fst (step_env c (fun m io => (k m io, tt))).

#[local] Instance local_cache_manager : CacheManager (mgr * list Env) := {
  cm_put := fun c p page => step_env c (fun m io => put xxh3 options m io p page);
  cm_schedule_fill := fun c p page => step_env_ c (fun m _ => schedule_fill options m p page);
  cm_get_bytes := fun c p off len => step_env c (fun m io => get_bytes xxh3 options m io p off len);
  cm_get_batch_bytes := default_get_batch_bytes
    (fun c p off len => step_env c (fun m io => get_bytes xxh3 options m io p off len));
  cm_delete := fun c p => step_env c (fun m io => delete xxh3 options m io p);
  cm_invalidate := fun c f => step_env_ c (fun m io => invalidate xxh3 options m io f);
  cm_on_file_open := fun c f length mtime =>
    step_env_ c (fun m io => on_file_open xxh3 options m io f length mtime);
  cm_state := fun _ => ReadWrite;
}.

(** The state serves the file, and the other activity stores nothing else for it. *)
Definition local_sound (c : mgr * list Env) (f : string) (ps : Z) (data : bytes) : Prop :=
  serves xxh3 options f ps data c.1 /\
  Forall (fun e => Forall (stores_only f ps data) (env_background e)) c.2.

Lemma next_env_sound envs e envs' f ps data :
  Forall (fun e => Forall (stores_only f ps data) (env_background e)) envs ->
  next_env envs = (e, envs') ->
  Forall (stores_only f ps data) (env_background e) /\
  Forall (fun e => Forall (stores_only f ps data) (env_background e)) envs'.
Proof.
  intros Henvs. destruct Henvs as [|e0 envs He Henvs]; intros [= <- <-]; by cbn.
Qed.

(** One call that is an operation storing nothing else for the file. *)
Lemma step_env_sound {A : Type} c (k : mgr -> Io -> mgr * A) (op : Io -> Op) f ps data c' a :
  (forall m io, fst (k m io) = apply_op xxh3 options m (op io)) ->
  (forall io, stores_only f ps data (op io)) -> local_sound c f ps data ->
  step_env c k = (c', a) ->
  local_sound c' f ps data /\ exists m io, serves xxh3 options f ps data m /\ a = snd (k m io).
Proof.
  intros Hk Hop [Hs Henvs]. unfold step_env.
  destruct (next_env c.2) as [e envs] eqn:Hn.
  destruct (next_env_sound _ _ _ _ _ _ Henvs Hn) as [Hbg Henvs'].
  pose proof (serves_run _ _ _ _ _ _ _ Hbg Hs) as Hs1.
  set (m1 := run _ _ _ _) in *. pose proof (Hk m1 (env_io e)) as Hk1.
  destruct (k m1 (env_io e)) as [m2 a2] eqn:Hk2. intros [= <- <-]. cbn in Hk1. split.
  - split; [|done]. cbn. rewrite Hk1. by apply serves_step.
  - exists m1, (env_io e). by rewrite Hk2.
Qed.

Lemma local_get_sound c f ps data p off len c' b :
  local_sound c f ps data -> cm_get_bytes c p off len = (c', b) ->
  local_sound c' f ps data /\
  (request_ok f (mkPageReadRequest p off len) ->
   answer_ok ps data (mkPageReadRequest p off len) b).
Proof.
  intros Hc Hget.
  destruct (step_env_sound c _ (fun io => OpGet io p off len) f ps data c' b
              (fun _ _ => eq_refl) (fun _ => I) Hc Hget) as [Hc' (m & io & Hm & ->)].
  split; [done|]. intros (Hf & _ & Ho & Hl). cbn in Hf, Ho, Hl. intros Hlen. cbn in Hlen |- *.
  destruct (serves_get xxh3 options f ps data m io p off len) as [He|He]; try done.
  rewrite He in Hlen. unfold zlen in Hlen. cbn in Hlen. lia.
Qed.

#[local] Program Instance local_cache_sound : CacheSound (mgr * list Env) := {
  cache_sound := local_sound;
}.
Next Obligation.
  intros c f ps data rs c' out _ Hc Hrs. revert c c' out Hc.
  induction Hrs as [|r rs Hr _ IH]; intros c c' out Hc Hb.
  { injection Hb as <- <-. split; [done|]. by intros. }
  change (cm_get_batch_bytes c (r :: rs)) with
    (let '(c, b) := cm_get_bytes c (pr_page_id r) (pr_page_offset r) (pr_len r) in
     let '(c, out) := cm_get_batch_bytes c rs in (c, b :: out)) in Hb.
  destruct (cm_get_bytes c _ _ _) as [c1 b] eqn:Hg.
  destruct (cm_get_batch_bytes c1 rs) as [c2 out2] eqn:Hg2. injection Hb as <- <-.
  destruct (local_get_sound _ _ _ _ _ _ _ _ _ Hc Hg) as [Hc1 Hans].
  destruct (IH _ _ _ Hc1 Hg2) as [Hc2 Hout]. split; [done|].
  intros [= Hl]. constructor; [|by apply Hout]. destruct r. by apply Hans.
Qed.
Next Obligation.
  intros c f ps data i _ _ Hc.
  destruct (cm_put c _ _) as [c' b] eqn:Hp.
  by destruct (step_env_sound c _ (fun io => OpPut io (mkPageId f i) (page_of ps data i))
    f ps data c' b (fun _ _ => eq_refl) (fun _ _ => eq_refl) Hc Hp).
Qed.
Next Obligation.
  intros c f ps data i _ _ Hc. cbn. unfold step_env_.
  destruct (step_env c _) as [c' b] eqn:Hp.
  by destruct (step_env_sound c
    (fun m _ => (schedule_fill options m (mkPageId f i) (page_of ps data i), tt))
    (fun _ => OpScheduleFill (mkPageId f i) (page_of ps data i))
    f ps data c' b (fun _ _ => eq_refl) (fun _ _ => eq_refl) Hc Hp).
Qed.
End Interface.

Section Theorems.
Context {F : Type} `{!Foyer F, !FoyerOk F}.
Context (xxh3 : string -> Z) (options : CacheManagerOptions).

Abbreviation dir := (dir_of xxh3 options).

(** C7. No zombies.  A manager created over any disk contents and then taken
    through any sequence of puts, reads, deletes, invalidations, opens, scheduled
    and executed fills and reaps, with any system-call failures, never has metadata
    for a page whose bytes are not on disk: the page file exists, has exactly the
    recorded size, and is not empty nor larger than a page. *)
Theorem manager_no_zombies io disk empty_cache listing ops d p info
    (Hempty : foyer_entries empty_cache = ∅) (Hlist : listing_ok xxh3 options listing)
    (Hres : entry (run xxh3 options (create options io disk empty_cache listing) ops) d p
              = Some info) :
  exists content,
    file (run xxh3 options (create options io disk empty_cache listing) ops) d p = Some content /\
    zlen content = pi_page_size info /\ 0 < zlen content <= co_page_size options.
Proof.
  destruct (create_inv xxh3 options io disk empty_cache listing Hempty Hlist) as [walked Hinv].
  apply (no_zombie_run xxh3 options ops _ (ri_zombie _ _ _ _ _ _ Hinv) d p info Hres).
Qed.

(** A successful [put] is readable: until the entry expires, a read of any
    part of the page returns that part of the bytes that were put. *)
Theorem put_then_get m io p page m' io' reads off len
    (Hput : put xxh3 options m io p page = (m', true))
    (Hfresh : expired options io' (io_now io) = false) (Hio : io_reads io' = Some reads)
    (Ho : 0 <= off) (Hl : 0 < len) :
  snd (get_bytes xxh3 options m' io' p off len) = slice off (off + len) page.
Proof.
  assert (Hnone : entry m (dir p) p = None).
  { apply contains_false. revert Hput. unfold put. destruct (_ || _); [done|].
    by destruct (contains m (dir p) p). }
  destruct (put_admits _ _ _ _ _ _ _ _ Hput) as (Ha & Hsome & _).
  destruct (Hsome eq_refl) as [info Hinfo].
  destruct (Ha _ _ _ Hinfo) as [[? _]|(_ & _ & -> & Hfile)]; [congruence|].
  unfold get_bytes. destruct (Z.eqb_spec len 0); [lia|].
  pose proof (foyer_get_value (lm_caches m' (dir p)) p) as Hv.
  unfold entry in Hinfo. rewrite Hinfo in Hv.
  destruct (foyer_get _ p) as [c o]. cbn in Hv |- *. subst o. cbn. rewrite Hfresh.
  unfold store_get_bytes, store_get. unfold file in Hfile. rewrite Hfile, Hio. cbn.
  destruct (Z.eqb_spec len 0); [lia|]. cbn. by apply fill_dst_slice.
Qed.

(** C4. End to end: reading a range of a file through the local cache returns
    exactly the file's bytes, for any eviction policy, page size and fill mode, with
    any system-call failures in the cache, and with any other activity between its
    calls (evictions, reaps, fills, deletes, invalidations, other files) that stores
    no other bytes for this file. *)
Theorem local_read_through {X : Type} (read_range : X -> Z -> Z -> X * result Error bytes)
    (short_msg zero_msg : PagePiece -> bytes -> string) m envs x f ps data offset end_ fill_mode
    (Hlen : ps + zlen data < i64_max) (Ho : 0 <= offset <= end_) (He : end_ <= zlen data)
    (Hps : 0 <= ps) (Hm : serves xxh3 options f (Z.max ps 1) data m)
    (Henvs : Forall (fun e => Forall (stores_only f (Z.max ps 1) data) (env_background e)) envs)
    (Hr : reader_honest read_range data) (Hd : reader_delivers read_range data) :
  exists m' envs' x',
    read_through_cache (CacheManager0 := local_cache_manager xxh3 options)
      read_range short_msg zero_msg (m, envs) x f ps (zlen data) offset end_ fill_mode
      = Some ((m', envs'), x', Ok (slice offset end_ data)) /\
    serves xxh3 options f (Z.max ps 1) data m'.
Proof.
  destruct (read_through_cache_spec (CacheSound0 := local_cache_sound xxh3 options)
              read_range short_msg zero_msg (m, envs) x f ps data offset end_ fill_mode)
    as ([m' envs'] & x' & r & Hread & Hs & Hok & Hdel); try done.
  exists m', envs', x'. specialize (Hdel Hd). destruct r as [b|e]; [|done].
  rewrite (Hok b eq_refl) in Hread. split; [exact Hread|]. apply Hs.
Qed.

(** Restore is gated on the identity sidecar.  After [create], every resident
    page has the bytes it had on disk, belongs to a file whose sidecar could be read
    and parsed, has that identity recorded for the overwrite check, is in the
    reverse index, and has no eviction pending. *)
Theorem restore_sidecar_gated io disk empty_cache listing d p info
    (Hempty : foyer_entries empty_cache = ∅) (Hlist : listing_ok xxh3 options listing)
    (Hres : entry (create options io disk empty_cache listing) d p = Some info) :
  let m := create options io disk empty_cache listing in
  d = dir p /\ file m d p = page_file (disk d) p /\ indexed m p /\ ~ pending m p /\
  exists v, read_identity (disk d) (pg_file_id p) (io_identity io (pg_file_id p)) = Some v /\
            lm_versions m !! pg_file_id p = Some v.
Proof.
  destruct (create_inv xxh3 options io disk empty_cache listing Hempty Hlist) as [walked Hinv].
  intros m. destruct (ri_index _ _ _ _ _ _ Hinv) as [Hplace Hidx].
  assert (d = dir p) as Hd by (apply Hplace; eauto).
  destruct (Hidx p) as [Hi Hp]; [rewrite <- Hd; eauto|].
  split_and!; try done.
  - by apply (ri_content _ _ _ _ _ _ Hinv d p info).
  - apply (ri_version _ _ _ _ _ _ Hinv d p). eauto.
Qed.

End Theorems.

(** ** Concrete managers *)

Definition small_options : CacheManagerOptions := mkCacheManagerOptions 4 8 1 2 None.
Definition one_page_cache : FlushCache := mkFlushCache 1 ∅.
Definition no_hash (_ : string) : Z := 0.

(** A disk left by a previous process: file "7" with two pages, a leftover
    temporary file and its sidecar; file "8" without one. *)
Definition old_disk (d : Z) : LocalPageStore :=
  mkLocalPageStore
    (<[("7", PageFile 0) := [1; 2; 3; 4]]> (<[("7", PageFile 1) := [5; 6]]>
      (<[("7", PageTmp 2 "u") := [9]]> (<[("8", PageFile 0) := [7]]> ∅))))
    (<["7" := "6,100"]> ∅).

Definition old_listing : list (Z * list (string * list PageName)) :=
  [(0, [("7", [PageFile 0; PageTmp 2 "u"; PageFile 1]); ("8", [PageFile 0])])].

Definition big_cache : FlushCache := mkFlushCache 8 ∅.

Lemma old_listing_ok : listing_ok no_hash small_options old_listing.
Proof.
  split.
  - constructor; [|constructor]. constructor; [|constructor; [|constructor]]; (split; [done|]).
    + apply (bool_decide_eq_true_1 _). vm_compute. reflexivity.
    + apply (bool_decide_eq_true_1 _). vm_compute. reflexivity.
  - apply (bool_decide_eq_true_1 _). vm_compute. reflexivity.
Qed.

Definition old_manager : LocalCacheManager FlushCache :=
  create small_options (io_ok 0 "u0") old_disk big_cache old_listing.

(** The two pages of "7" are back; the file without a sidecar is gone. *)
Example old_manager_pages :
  snd (get_bytes no_hash small_options old_manager (io_ok 1 "u1") (mkPageId "7" 1) 0 4) = [5; 6] /\
  snd (get_bytes no_hash small_options old_manager (io_ok 1 "u1") (mkPageId "8" 0) 0 4) = [] /\
  page_file (lm_stores old_manager 0) (mkPageId "8" 0) = None.
Proof. vm_compute. done. Qed.

Definition some_ops : list Op :=
  [ OpOpen (io_ok 1 "u1") "9" 4 50; OpPut (io_ok 2 "u2") (mkPageId "9" 0) [1; 1; 1; 1];
    OpScheduleFill (mkPageId "7" 1) [5; 6]; OpRunFill (io_ok 3 "u3") 0;
    OpReapBegin; OpReapFinish (io_ok 4 "u4") ].

Lemma manager_no_zombies_witness :
  exists content,
    file (run no_hash small_options old_manager some_ops) 0 (mkPageId "9" 0) = Some content /\
    zlen content = 4 /\ 0 < zlen content <= 4.
Proof.
  apply (manager_no_zombies no_hash small_options (io_ok 0 "u0") old_disk big_cache old_listing
           some_ops 0 (mkPageId "9" 0) (mkPageInfo (mkPageId "9" 0) 4 0 2)).
  - reflexivity.
  - apply old_listing_ok.
  - vm_compute. reflexivity.
Defined.

Lemma put_then_get_witness :
  let m' := fst (put no_hash small_options old_manager (io_ok 2 "u2") (mkPageId "9" 0)
                   [1; 2; 3; 4]) in
  snd (get_bytes no_hash small_options m' (io_ok 3 "u3") (mkPageId "9" 0) 1 2) = [2; 3].
Proof.
  apply (put_then_get no_hash small_options old_manager (io_ok 2 "u2") (mkPageId "9" 0)
           [1; 2; 3; 4] _ (io_ok 3 "u3") [] 1 2);
    [|reflexivity|reflexivity|lia|lia].
  apply injective_projections; [reflexivity|vm_compute; reflexivity].
Defined.

(** Background activity between the calls of a read: a reap, another file's put and
    a failing write. *)
Definition busy_envs : list Env :=
  [ mkEnv [OpReapBegin; OpPut (io_ok 1 "a") (mkPageId "other" 0) [9]] (io_ok 2 "b");
    mkEnv [OpReapFinish (io_ok 3 "c")] (mkIo 4 "d" PutFailRename false None (fun _ => false)
                                          (fun _ => false)) ].

Definition empty_manager : LocalCacheManager FlushCache :=
  create small_options (io_ok 0 "u0") (fun _ => empty_store) one_page_cache [].

Lemma local_read_through_witness :
  exists m' envs' x',
    read_through_cache (CacheManager0 := local_cache_manager no_hash small_options)
      (plain_reader ten_bytes) (fun _ _ => "short"%string) (fun _ _ => "zero"%string)
      (empty_manager, busy_envs) [] "7" 4 10 3 9 FillSync
      = Some ((m', envs'), x', Ok [13; 14; 15; 16; 17; 18]) /\
    serves no_hash small_options "7" 4 ten_bytes m'.
Proof.
  apply (local_read_through no_hash small_options (plain_reader ten_bytes)
           (fun _ _ => "short"%string) (fun _ _ => "zero"%string)
           empty_manager busy_envs [] "7" 4 ten_bytes 3 9 FillSync);
    try (vm_compute; intuition congruence).
  - split; [intros i e He; vm_compute in He; discriminate|].
    intros p page Hp. vm_compute in Hp. by apply not_elem_of_nil in Hp.
  - repeat constructor. vm_compute. congruence.
  - apply plain_reader_honest.
  - apply plain_reader_delivers.
Defined.

Lemma restore_sidecar_gated_witness :
  let m := old_manager in
  0 = dir_of no_hash small_options (mkPageId "7" 1) /\
  file m 0 (mkPageId "7" 1) = page_file (old_disk 0) (mkPageId "7" 1) /\
  indexed m (mkPageId "7" 1) /\ ~ pending m (mkPageId "7" 1) /\
  exists v, read_identity (old_disk 0) "7" true = Some v /\ lm_versions m !! "7"%string = Some v.
Proof.
  apply (restore_sidecar_gated no_hash small_options (io_ok 0 "u0") old_disk big_cache old_listing
           0 (mkPageId "7" 1) (mkPageInfo (mkPageId "7" 1) 2 0 0)).
  - reflexivity.
  - apply old_listing_ok.
  - vm_compute. reflexivity.
Defined.


(** ** Re-admission while a reap is queued *)

(** Page 0 of "f" is evicted by "g", put back before the reaper gets to it, and
    then the queued reap runs: the page stays, its index entry does not. *)
Definition readmit_ops : list Op :=
  [ OpOpen (io_ok 1 "u1") "f" 4 100;
    OpPut (io_ok 2 "u2") (mkPageId "f" 0) [1; 2; 3; 4];
    OpPut (io_ok 3 "u3") (mkPageId "g" 0) [5; 6; 7; 8];
    OpPut (io_ok 4 "u4") (mkPageId "f" 0) [1; 2; 3; 4];
    OpReapBegin; OpReapFinish (io_ok 5 "u5") ].

(** Why re-admission is excluded above.  From an empty cache of one page, a page of
    "f" is evicted, put back before the queued reap runs, and then reaped: the
    manager then serves the old bytes of "f" after [on_file_open] has recorded a
    newer identity, since the reap removed the page from the reverse index before it
    noticed that the page is resident. *)
Theorem readmitted_page_survives_overwrite :
  let m := run no_hash small_options empty_manager readmit_ops in
  let m' := on_file_open no_hash small_options m (io_ok 6 "u6") "f" 4 200 in
  lm_versions m !! "f"%string = Some (4, 100) /\ lm_by_file m !! "f"%string = None /\
  lm_versions m' !! "f"%string = Some (4, 200) /\
  snd (get_bytes no_hash small_options m' (io_ok 7 "u7") (mkPageId "f" 0) 0 4) = [1; 2; 3; 4] /\
  ~ orderly no_hash small_options empty_manager readmit_ops.
Proof.
  cbv zeta. split_and!; try (vm_compute; reflexivity).
  apply (bool_decide_eq_false_1 _). vm_compute. reflexivity.
Qed.
