(* ===== verification/MetadataCache.v ===== *)
(** * Client metadata cache (src/src/metadata_cache.rs)

    The [lru] crate is the interface [Lru] with its documented behaviour; the
    mutex makes every operation one step, with the clock as its input.  Metrics are
    not modelled beyond the cache's own counters. *)

From Stdlib Require Import Ascii.
From S2P Require Import Prelude Text Proto Errors.

(** ** Paths *)

Definition trim_end_slashes : string -> string :=
  fix go (s : string) : string :=
    match s with
    | String c s' =>
        match go s' with
        | EmptyString => if Ascii.eqb c "/" then EmptyString else String c EmptyString
        | s'' => String c s''
        end
    | EmptyString => EmptyString
    end.

Definition normalize_path (path : string) : string :=
  let trimmed := trim path in
  if String.eqb trimmed EmptyString || String.eqb trimmed "/" then "/"
  else
    let stripped := trim_end_slashes trimmed in
    if String.eqb stripped EmptyString then "/"
    else if String.prefix "/" stripped then stripped
    else String "/" stripped.

(** What precedes the last slash; [None] when there is none. *)
Fixpoint before_last_slash (s : string) : option string :=
  match s with
  | EmptyString => None
  | String c s =>
      match before_last_slash s with
      | Some p => Some (String c p)
      | None => if Ascii.eqb c "/" then Some EmptyString else None
      end
  end.

Definition parent_path (path : string) : option string :=
  let normalized := normalize_path path in
  if String.eqb normalized "/" then None
  else
    p ← before_last_slash normalized;
    Some (if String.eqb p EmptyString then "/"%string else p).

(** ** Entries *)

Inductive StatusSlot : Type :=
| SlotPresent (info : FileInfo)
| SlotNotFound.

Inductive StatusLookup : Type :=
| LookupMiss
| LookupPresent (info : FileInfo)
| LookupNotFound.

Record CachedItem : Type := mkCachedItem {
  ci_status : option StatusSlot;
  ci_dir_listing : option (list FileInfo);
  ci_inserted_at : Z;
}.

Definition status_is_completed (info : FileInfo) : bool := default false (fi_completed info).

(** [lru::LruCache]: [lru_entries] is what [peek] sees; [lru_update] is a write
    through [get_mut]; [lru_put] may evict other entries. *)
Class Lru (L : Type) : Type := {
  lru_new : Z -> L;
  lru_entries : L -> gmap string CachedItem;
  lru_get : L -> string -> L * option CachedItem;
  lru_update : L -> string -> CachedItem -> L;
  lru_put : L -> string -> CachedItem -> L;
  lru_pop : L -> string -> L;
  lru_clear : L -> L;
}.

Class LruOk (L : Type) `{!Lru L} : Prop := {
  lru_new_entries : forall n, lru_entries (lru_new n) = ∅;
  lru_get_value : forall l k, snd (lru_get l k) = lru_entries l !! k;
  lru_get_entries : forall l k, lru_entries (fst (lru_get l k)) = lru_entries l;
  lru_update_entries : forall l k v, is_Some (lru_entries l !! k) ->
    lru_entries (lru_update l k v) = <[k := v]> (lru_entries l);
  lru_put_key : forall l k v, lru_entries (lru_put l k v) !! k = Some v;
  lru_put_sub : forall l k v, lru_entries (lru_put l k v) ⊆ <[k := v]> (lru_entries l);
  lru_pop_entries : forall l k, lru_entries (lru_pop l k) = delete k (lru_entries l);
  lru_clear_entries : forall l, lru_entries (lru_clear l) = ∅;
}.

(** ** The cache *)

Record MetadataCache (L : Type) : Type := mkMetadataCache {
  mc_lru : L;
  mc_ttl : Z;
  mc_hits : Z;
  mc_misses : Z;
  mc_expired : Z;
  mc_invalidations : Z;
  mc_negative_hits : Z;
}.

Arguments mkMetadataCache {L}.
Arguments mc_lru {L}.
Arguments mc_ttl {L}.
Arguments mc_hits {L}.
Arguments mc_misses {L}.
Arguments mc_expired {L}.
Arguments mc_invalidations {L}.
Arguments mc_negative_hits {L}.

Section Cache.
Context {L : Type} `{!Lru L}.

Abbreviation cache := (MetadataCache L).

Definition maybe_new (ttl capacity : Z) : option cache :=
  if ttl =? 0 then None
  else Some (mkMetadataCache (lru_new (Z.max capacity 1)) ttl 0 0 0 0 0).

Definition with_lru (c : cache) (l : L) : cache :=
  mkMetadataCache l (mc_ttl c) (mc_hits c) (mc_misses c) (mc_expired c) (mc_invalidations c)
    (mc_negative_hits c).

Definition count_hit (c : cache) : cache :=
  mkMetadataCache (mc_lru c) (mc_ttl c) (u64_add (mc_hits c) 1) (mc_misses c) (mc_expired c)
    (mc_invalidations c) (mc_negative_hits c).

Definition count_miss (c : cache) : cache :=
  mkMetadataCache (mc_lru c) (mc_ttl c) (mc_hits c) (u64_add (mc_misses c) 1) (mc_expired c)
    (mc_invalidations c) (mc_negative_hits c).

Definition count_expired (c : cache) : cache :=
  mkMetadataCache (mc_lru c) (mc_ttl c) (mc_hits c) (mc_misses c) (u64_add (mc_expired c) 1)
    (mc_invalidations c) (mc_negative_hits c).

Definition count_invalidations (c : cache) (n : Z) : cache :=
  mkMetadataCache (mc_lru c) (mc_ttl c) (mc_hits c) (mc_misses c) (mc_expired c)
    (u64_add (mc_invalidations c) n) (mc_negative_hits c).

Definition count_negative_hit (c : cache) : cache :=
  mkMetadataCache (mc_lru c) (mc_ttl c) (mc_hits c) (mc_misses c) (mc_expired c)
    (mc_invalidations c) (u64_add (mc_negative_hits c) 1).

(** An expired entry is popped on the way. *)
Definition retain_fresh (now : Z) (c : cache) (key : string) : cache * bool :=
  match lru_entries (mc_lru c) !! key with
  | None => (c, false)
  | Some item =>
      if mc_ttl c <=? Z.max 0 (now - ci_inserted_at item)
      then (count_expired (with_lru c (lru_pop (mc_lru c) key)), false)
      else (c, true)
  end.

Definition lookup_status (now : Z) (c : cache) (path : string) : cache * StatusLookup :=
  let key := normalize_path path in
  match retain_fresh now c key with
  | (c, false) => (count_miss c, LookupMiss)
  | (c, true) =>
      let '(l, item) := lru_get (mc_lru c) key in
      let c := with_lru c l in
      match item ≫= ci_status with
      | Some (SlotPresent info) =>
          (if status_is_completed info then count_hit c else count_miss c, LookupPresent info)
      | Some SlotNotFound => (count_negative_hit (count_hit c), LookupNotFound)
      | None => (count_miss c, LookupMiss)
      end
  end.

Definition get_listing (now : Z) (c : cache) (path : string) : cache * option (list FileInfo) :=
  let key := normalize_path path in
  match retain_fresh now c key with
  | (c, false) => (count_miss c, None)
  | (c, true) =>
      let '(l, item) := lru_get (mc_lru c) key in
      let c := with_lru c l in
      match item ≫= ci_dir_listing with
      | Some list => (count_hit c, Some list)
      | None => (count_miss c, None)
      end
  end.

(** A write keeps the other slot of the item and refreshes its time. *)
Definition put_status (now : Z) (c : cache) (path : string) (slot : StatusSlot) : cache :=
  let key := normalize_path path in
  with_lru c
    (match lru_entries (mc_lru c) !! key with
     | Some item => lru_update (mc_lru c) key (mkCachedItem (Some slot) (ci_dir_listing item) now)
     | None => lru_put (mc_lru c) key (mkCachedItem (Some slot) None now)
     end).

Definition insert_arc (now : Z) (c : cache) (path : string) (info : FileInfo) : cache :=
  put_status now c path (SlotPresent info).

Definition insert_not_found (now : Z) (c : cache) (path : string) : cache :=
  put_status now c path SlotNotFound.

Definition insert_listing (now : Z) (c : cache) (path : string) (listing : list FileInfo) : cache :=
  let key := normalize_path path in
  with_lru c
    (match lru_entries (mc_lru c) !! key with
     | Some item => lru_update (mc_lru c) key (mkCachedItem (ci_status item) (Some listing) now)
     | None => lru_put (mc_lru c) key (mkCachedItem None (Some listing) now)
     end).

Definition mc_invalidate (c : cache) (path : string) : cache :=
  let key := normalize_path path in
  match lru_entries (mc_lru c) !! key with
  | Some _ => count_invalidations (with_lru c (lru_pop (mc_lru c) key)) 1
  | None => c
  end.

Definition invalidate_with_parent (c : cache) (path : string) : cache :=
  let c := match parent_path path with Some parent => mc_invalidate c parent | None => c end in
  mc_invalidate c path.

Definition mc_clear (c : cache) : cache :=
  count_invalidations (with_lru c (lru_clear (mc_lru c)))
    (Z.of_nat (size (lru_entries (mc_lru c)))).

(** ** Users of the cache *)

Inductive LoadMetadataPType : Type := LoadNever | LoadOnce | LoadAlways.

Definition should_skip_listing_cache (recursive : bool) (load_type : LoadMetadataPType)
    (load_metadata_only : bool) (sync_interval_ms : Z) : bool :=
  recursive || (match load_type with LoadAlways => true | _ => false end)
  || load_metadata_only || (sync_interval_ms =? 0).

Definition invalidate_on_success {A : Type} (c : option cache) (path : string)
    (r : result Error A) : option cache * result Error A :=
  match r with
  | Ok value => ((fun c => invalidate_with_parent c path) <$> c, Ok value)
  | Err e => (c, Err e)
  end.

Definition invalidate_rename_on_success {A : Type} (c : option cache) (src dst : string)
    (r : result Error A) : option cache * result Error A :=
  match r with
  | Ok value =>
      ((fun c => invalidate_with_parent (invalidate_with_parent c src) dst) <$> c, Ok value)
  | Err e => (c, Err e)
  end.

(** [fetch] is the outcome of the master call, made at [fetched] on the clock; the
    boolean says whether the call was made. *)
Definition get_status_through_cache (now fetched : Z) (c : option cache) (path : string)
    (sync_interval_ms : Z) (fetch : result Error FileInfo)
  : option cache * result Error FileInfo * bool :=
  let '(c, cached) :=
    match c with
    | Some c0 =>
        if sync_interval_ms =? 0 then (Some c0, None)
        else
          let '(c0, l) := lookup_status now c0 path in
          (Some c0,
            match l with
            | LookupPresent info => if status_is_completed info then Some (Ok info) else None
            | LookupNotFound => Some (Err (NotFound path))
            | LookupMiss => None
            end)
    | None => (None, None)
    end in
  match cached with
  | Some r => (c, r, false)
  | None =>
      match fetch with
      | Ok info => ((fun c => insert_arc fetched c path info) <$> c, Ok info, true)
      | Err e =>
          if is_not_found e then ((fun c => insert_not_found fetched c path) <$> c, Err e, true)
          else (c, Err e, true)
      end
  end.

Definition list_status_through_cache (now fetched : Z) (c : option cache) (path : string)
    (skip : bool) (fetch : result Error (list FileInfo))
  : option cache * result Error (list FileInfo) * bool :=
  let '(c, cached) :=
    match c with
    | Some c0 =>
        if skip then (Some c0, None)
        else let '(c0, l) := get_listing now c0 path in (Some c0, l)
    | None => (None, None)
    end in
  match cached with
  | Some list => (c, Ok list, false)
  | None =>
      match fetch with
      | Err e => (c, Err e, true)
      | Ok list =>
          ((fun c => if skip then c else insert_listing fetched c path list) <$> c, Ok list, true)
      end
  end.
End Cache.

(** ** Specification: an unbounded map that forgets only what is invalidated *)

Inductive McOp : Type :=
| McLookup (now : Z) (path : string)
| McGetListing (now : Z) (path : string)
| McPutStatus (now : Z) (path : string) (slot : StatusSlot)
| McPutListing (now : Z) (path : string) (listing : list FileInfo)
| McInvalidate (path : string)
| McInvalidateWithParent (path : string)
| McClear.

Definition spec_write (status : option StatusSlot) (listing : option (list FileInfo)) (now : Z)
    (old : option CachedItem) : CachedItem :=
  mkCachedItem (match status with Some _ => status | None => old ≫= ci_status end)
    (match listing with Some _ => listing | None => old ≫= ci_dir_listing end) now.

Definition spec_step (s : gmap string CachedItem) (op : McOp) : gmap string CachedItem :=
  match op with
  | McLookup _ _ | McGetListing _ _ => s
  | McPutStatus now path slot =>
      let k := normalize_path path in <[k := spec_write (Some slot) None now (s !! k)]> s
  | McPutListing now path listing =>
      let k := normalize_path path in <[k := spec_write None (Some listing) now (s !! k)]> s
  | McInvalidate path => delete (normalize_path path) s
  | McInvalidateWithParent path =>
      let s := match parent_path path with
               | Some parent => delete (normalize_path parent) s
               | None => s
               end in
      delete (normalize_path path) s
  | McClear => ∅
  end.

Section Refinement.
Context {L : Type} `{!Lru L, !LruOk L}.

Abbreviation cache := (MetadataCache L).

Definition mc_step (c : cache) (op : McOp) : cache :=
  match op with
  | McLookup now path => fst (lookup_status now c path)
  | McGetListing now path => fst (get_listing now c path)
  | McPutStatus now path slot => put_status now c path slot
  | McPutListing now path listing => insert_listing now c path listing
  | McInvalidate path => mc_invalidate c path
  | McInvalidateWithParent path => invalidate_with_parent c path
  | McClear => mc_clear c
  end.

Abbreviation entries c := (lru_entries (mc_lru c)).

(** Entry [e] holds no more than the specification's item [s], and is as old. *)
Definition item_le (e s : CachedItem) : Prop :=
  (forall x, ci_status e = Some x -> ci_status s = Some x) /\
  (forall x, ci_dir_listing e = Some x -> ci_dir_listing s = Some x) /\
  ci_inserted_at e = ci_inserted_at s.

Definition refines (c : cache) (s : gmap string CachedItem) : Prop :=
  forall k e, entries c !! k = Some e -> exists i, s !! k = Some i /\ item_le e i.

Lemma entries_retain_fresh now c key :
  let '(c', fresh) := retain_fresh now c key in
  entries c' ⊆ entries c /\ mc_ttl c' = mc_ttl c /\
  (fresh = true -> c' = c /\ exists e, entries c !! key = Some e /\
     now - ci_inserted_at e < mc_ttl c).
Proof.
  unfold retain_fresh. destruct (entries c !! key) as [e|] eqn:He; [|done].
  destruct (Z.leb_spec (mc_ttl c) (Z.max 0 (now - ci_inserted_at e))); cbn.
  - rewrite lru_pop_entries. split; [apply delete_subseteq|done].
  - split; [done|]. split; [done|]. intros _. split; [done|]. exists e. split; [done|lia].
Qed.

Lemma lookup_status_entries now c path :
  entries (fst (lookup_status now c path)) ⊆ entries c.
Proof.
  unfold lookup_status. pose proof (entries_retain_fresh now c (normalize_path path)) as H.
  destruct (retain_fresh _ _ _) as [c' []]; destruct H as (Hsub & _ & Hf); [|done].
  destruct (Hf eq_refl) as [-> _].
  pose proof (lru_get_entries (mc_lru c) (normalize_path path)) as Hg.
  destruct (lru_get _ _) as [l item]. cbn in Hg.
  destruct (item ≫= ci_status) as [[info|]|]; cbn; rewrite ?Hg; try done.
  destruct (status_is_completed info); cbn; by rewrite Hg.
Qed.

Lemma get_listing_entries now c path :
  entries (fst (get_listing now c path)) ⊆ entries c.
Proof.
  unfold get_listing. pose proof (entries_retain_fresh now c (normalize_path path)) as H.
  destruct (retain_fresh _ _ _) as [c' []]; destruct H as (Hsub & _ & Hf); [|done].
  destruct (Hf eq_refl) as [-> _].
  pose proof (lru_get_entries (mc_lru c) (normalize_path path)) as Hg.
  destruct (lru_get _ _) as [l item]. cbn in Hg.
  destruct (item ≫= ci_dir_listing); cbn; by rewrite Hg.
Qed.

Lemma mc_invalidate_entries c path :
  entries (mc_invalidate c path) = delete (normalize_path path) (entries c).
Proof.
  unfold mc_invalidate. destruct (entries c !! normalize_path path) as [e|] eqn:He; cbn.
  - apply lru_pop_entries.
  - by rewrite delete_id.
Qed.

(** A write through either path: the new item, and no more than the old others. *)
Lemma write_entries c key new_item fresh_item k e :
  entries (with_lru c (match entries c !! key with
                       | Some item => lru_update (mc_lru c) key (new_item item)
                       | None => lru_put (mc_lru c) key fresh_item
                       end)) !! k = Some e ->
  (k = key /\ e = match entries c !! key with Some item => new_item item | None => fresh_item end)
  \/ (k <> key /\ entries c !! k = Some e).
Proof.
  cbn. destruct (entries c !! key) as [item|] eqn:Hk.
  - rewrite lru_update_entries by eauto.
    rewrite lookup_insert_Some. intros [[<- <-]|[? ?]]; auto.
  - intros He. destruct (decide (k = key)) as [->|Hne].
    + rewrite lru_put_key in He. injection He as <-. by left.
    + right. split; [done|]. pose proof (lookup_weaken _ _ _ _ He (lru_put_sub _ _ _)) as H.
      by rewrite lookup_insert_ne in H.
Qed.

Lemma refines_sub c c' s : entries c' ⊆ entries c -> refines c s -> refines c' s.
Proof. intros Hsub Hr k e He. apply Hr. by eapply lookup_weaken. Qed.

Lemma refines_delete c s k :
  refines c s -> forall c', entries c' = delete k (entries c) -> refines c' (delete k s).
Proof.
  intros Hr c' He k' e Hk. rewrite He in Hk. apply lookup_delete_Some in Hk as [Hne Hk].
  rewrite lookup_delete_ne by done. by apply Hr.
Qed.

Lemma refines_write c s now key st ls :
  refines c s ->
  refines (with_lru c (match entries c !! key with
    | Some item => lru_update (mc_lru c) key
        (mkCachedItem (match st with Some _ => st | None => ci_status item end)
           (match ls with Some _ => ls | None => ci_dir_listing item end) now)
    | None => lru_put (mc_lru c) key (mkCachedItem st ls now)
    end)) (<[key := spec_write st ls now (s !! key)]> s).
Proof.
  intros Hr k e He.
  apply (write_entries c key
    (fun item => mkCachedItem (match st with Some _ => st | None => ci_status item end)
       (match ls with Some _ => ls | None => ci_dir_listing item end) now)) in He
    as [[-> ->]|[Hne He]].
  - rewrite lookup_insert_eq. eexists. split; [done|].
    destruct (entries c !! key) as [item|] eqn:Hk.
    + destruct (Hr _ _ Hk) as (i & -> & Hst & Hls & _).
      repeat split; cbn; [destruct st|destruct ls]; auto.
    + repeat split; cbn; [by destruct st|by destruct ls].
  - rewrite lookup_insert_ne by done. by apply Hr.
Qed.

Lemma refines_step c s op : refines c s -> refines (mc_step c op) (spec_step s op).
Proof.
  intros Hr. destruct op; cbn [mc_step spec_step].
  - eapply refines_sub, Hr. apply lookup_status_entries.
  - eapply refines_sub, Hr. apply get_listing_entries.
  - exact (refines_write c s now _ (Some slot) None Hr).
  - exact (refines_write c s now _ None (Some listing) Hr).
  - eapply refines_delete; [done|apply mc_invalidate_entries].
  - unfold invalidate_with_parent. eapply refines_delete; [|apply mc_invalidate_entries].
    destruct (parent_path path); [|done].
    eapply refines_delete; [done|apply mc_invalidate_entries].
  - intros k e He. cbn in He. rewrite lru_clear_entries in He. done.
Qed.

Lemma refines_run ops c s :
  refines c s -> refines (foldl mc_step c ops) (foldl spec_step s ops).
Proof.
  revert c s. induction ops as [|op ops IH]; intros c s Hr; [done|].
  by apply IH, refines_step.
Qed.

Lemma lookup_status_spec now c path c' l :
  lookup_status now c path = (c', l) ->
  match l with
  | LookupMiss => True
  | LookupPresent info => exists e, entries c !! normalize_path path = Some e /\
      ci_status e = Some (SlotPresent info) /\ now - ci_inserted_at e < mc_ttl c
  | LookupNotFound => exists e, entries c !! normalize_path path = Some e /\
      ci_status e = Some SlotNotFound /\ now - ci_inserted_at e < mc_ttl c
  end.
Proof.
  unfold lookup_status. pose proof (entries_retain_fresh now c (normalize_path path)) as H.
  destruct (retain_fresh _ _ _) as [c1 []]; destruct H as (Hsub & _ & Hf); [|by intros [= _ <-]].
  destruct (Hf eq_refl) as [-> (e & He & Hage)].
  pose proof (lru_get_value (mc_lru c) (normalize_path path)) as Hg.
  destruct (lru_get _ _) as [l0 item]. cbn in Hg. subst item. rewrite He. cbn.
  destruct (ci_status e) as [[info|]|] eqn:Hst; intros [= _ <-]; eauto.
Qed.

Lemma get_listing_spec now c path c' l :
  get_listing now c path = (c', Some l) ->
  exists e, entries c !! normalize_path path = Some e /\
    ci_dir_listing e = Some l /\ now - ci_inserted_at e < mc_ttl c.
Proof.
  unfold get_listing. pose proof (entries_retain_fresh now c (normalize_path path)) as H.
  destruct (retain_fresh _ _ _) as [c1 []]; destruct H as (Hsub & _ & Hf); [|done].
  destruct (Hf eq_refl) as [-> (e & He & Hage)].
  pose proof (lru_get_value (mc_lru c) (normalize_path path)) as Hg.
  destruct (lru_get _ _) as [l0 item]. cbn in Hg. subst item. rewrite He. cbn.
  destruct (ci_dir_listing e) as [ls|] eqn:Hst; intros [= _ <-]; eauto.
Qed.

Lemma retain_fresh_ttl now c key : mc_ttl (fst (retain_fresh now c key)) = mc_ttl c.
Proof. unfold retain_fresh. repeat case_match; done. Qed.

Lemma mc_invalidate_ttl c path : mc_ttl (mc_invalidate c path) = mc_ttl c.
Proof. unfold mc_invalidate. by case_match. Qed.

Lemma mc_step_ttl c op : mc_ttl (mc_step c op) = mc_ttl c.
Proof.
  destruct op; cbn [mc_step]; try done.
  - unfold lookup_status. pose proof (retain_fresh_ttl now c (normalize_path path)) as H.
    destruct (retain_fresh _ _ _) as [c' b]. cbn in H. rewrite <- H. repeat case_match; done.
  - unfold get_listing. pose proof (retain_fresh_ttl now c (normalize_path path)) as H.
    destruct (retain_fresh _ _ _) as [c' b]. cbn in H. rewrite <- H. repeat case_match; done.
  - apply mc_invalidate_ttl.
  - unfold invalidate_with_parent. rewrite mc_invalidate_ttl.
    destruct (parent_path path); [apply mc_invalidate_ttl|done].
Qed.

Lemma mc_run_ttl ops c : mc_ttl (foldl mc_step c ops) = mc_ttl c.
Proof.
  revert c. induction ops as [|op ops IH]; intros c; [done|]. cbn. by rewrite IH, mc_step_ttl.
Qed.

(** Reads of a key without an entry, and of a key with a fresh one. *)
Lemma lookup_status_absent now c path :
  entries c !! normalize_path path = None -> snd (lookup_status now c path) = LookupMiss.
Proof. intros H. unfold lookup_status, retain_fresh. by rewrite H. Qed.

Lemma get_listing_absent now c path :
  entries c !! normalize_path path = None -> snd (get_listing now c path) = None.
Proof. intros H. unfold get_listing, retain_fresh. by rewrite H. Qed.

Lemma put_status_entry now c path slot :
  exists e, entries (put_status now c path slot) !! normalize_path path = Some e /\
    ci_status e = Some slot /\ ci_inserted_at e = now.
Proof.
  unfold put_status. cbn. destruct (entries c !! normalize_path path) as [item|] eqn:H.
  - rewrite lru_update_entries by eauto. rewrite lookup_insert_eq. eauto.
  - rewrite lru_put_key. eauto.
Qed.

Lemma lookup_status_put now c path path' slot now' :
  normalize_path path' = normalize_path path -> now <= now' -> now' - now < mc_ttl c ->
  0 < mc_ttl c ->
  snd (lookup_status now' (put_status now c path slot) path') =
    match slot with SlotPresent info => LookupPresent info | SlotNotFound => LookupNotFound end.
Proof.
  intros Hn Hle Hage Httl. destruct (put_status_entry now c path slot) as (e & He & Hst & Hat).
  assert (Ht : mc_ttl (put_status now c path slot) = mc_ttl c) by done.
  generalize dependent (put_status now c path slot). intros c1 He Ht.
  unfold lookup_status. rewrite Hn. unfold retain_fresh. rewrite He, Hat, Ht.
  destruct (Z.leb_spec (mc_ttl c) (Z.max 0 (now' - now))); [lia|].
  pose proof (lru_get_value (mc_lru c1) (normalize_path path)) as Hg.
  destruct (lru_get _ _) as [l item]. cbn in Hg. subst item. rewrite He. cbn.
  rewrite Hst. by destruct slot.
Qed.

Lemma invalidate_with_parent_absent c path k :
  k = normalize_path path \/ normalize_path <$> parent_path path = Some k ->
  entries (invalidate_with_parent c path) !! k = None.
Proof.
  intros Hk. unfold invalidate_with_parent. rewrite mc_invalidate_entries.
  destruct (decide (k = normalize_path path)) as [->|Hne]; [apply lookup_delete_eq|].
  rewrite lookup_delete_ne by done. destruct Hk as [|Hk]; [done|].
  destruct (parent_path path) as [parent|]; [|done]. injection Hk as <-.
  rewrite mc_invalidate_entries. apply lookup_delete_eq.
Qed.

Lemma invalidate_with_parent_sub c path :
  entries (invalidate_with_parent c path) ⊆ entries c.
Proof.
  unfold invalidate_with_parent. rewrite mc_invalidate_entries.
  etrans; [apply delete_subseteq|]. destruct (parent_path path); [|done].
  rewrite mc_invalidate_entries. apply delete_subseteq.
Qed.

(** ** Theorems *)

(** The keys a mutation of [path] makes stale. *)
Definition touched (path : string) (k : string) : Prop :=
  k = normalize_path path \/ normalize_path <$> parent_path path = Some k.

(** C8. The cache never serves anything but the latest write.  After any sequence
    of operations on a fresh cache, with any eviction choices, a status or listing
    that a lookup returns is the last one written for that normalized path since it
    was last invalidated, and the item was written less than the TTL ago. *)
Theorem metadata_cache_serves_latest ttl capacity c0 ops now path
    (Hnew : maybe_new (L := L) ttl capacity = Some c0) :
  let c := foldl mc_step c0 ops in
  let latest := foldl spec_step ∅ ops !! normalize_path path in
  let fresh i := now - ci_inserted_at i < ttl in
  (forall info, snd (lookup_status now c path) = LookupPresent info ->
     exists i, latest = Some i /\ ci_status i = Some (SlotPresent info) /\ fresh i) /\
  (snd (lookup_status now c path) = LookupNotFound ->
     exists i, latest = Some i /\ ci_status i = Some SlotNotFound /\ fresh i) /\
  (forall list, snd (get_listing now c path) = Some list ->
     exists i, latest = Some i /\ ci_dir_listing i = Some list /\ fresh i).
Proof.
  intros c latest fresh. unfold maybe_new in Hnew. destruct (ttl =? 0); [done|].
  assert (Httl : mc_ttl c = ttl) by (unfold c; rewrite mc_run_ttl; by injection Hnew as <-).
  assert (Hr : refines c (foldl spec_step ∅ ops)).
  { apply refines_run. injection Hnew as <-. intros k e He. cbn in He.
    by rewrite lru_new_entries in He. }
  assert (Hread : forall e, entries c !! normalize_path path = Some e ->
    now - ci_inserted_at e < mc_ttl c -> exists i, latest = Some i /\ item_le e i /\ fresh i).
  { intros e He Hage. destruct (Hr _ _ He) as (i & Hi & Hle). exists i.
    split_and!; [done|done|]. unfold fresh. destruct Hle as (_ & _ & <-). lia. }
  destruct (lookup_status now c path) as [c1 l] eqn:Hl. apply lookup_status_spec in Hl.
  destruct (get_listing now c path) as [c2 ls] eqn:Hg. cbn. split_and!.
  - intros info ->. destruct Hl as (e & He & Hst & Hage).
    destruct (Hread e He Hage) as (i & Hi & (Hle & _) & Hf). eauto.
  - intros ->. destruct Hl as (e & He & Hst & Hage).
    destruct (Hread e He Hage) as (i & Hi & (Hle & _) & Hf). eauto.
  - intros list ->. apply get_listing_spec in Hg as (e & He & Hst & Hage).
    destruct (Hread e He Hage) as (i & Hi & (_ & Hle & _) & Hf). eauto.
Qed.

(** A client sees its own mutations.  After a successful create, delete or
    mkdir of [path], or a rename, the next status of that path (or of either rename
    path) and the next listing or status of its parent come from the master,
    whatever was cached; a failed mutation leaves the cache as it was. *)
Theorem mutations_are_visible {A : Type} (c : cache) src dst (r : result Error A) q now fetched
    sync fetch lfetch :
  let k := normalize_path q in
  let '(c1, r1) := invalidate_on_success (Some c) src r in
  let '(c2, r2) := invalidate_rename_on_success (Some c) src dst r in
  r1 = r /\ r2 = r /\
  (is_ok r = false -> c1 = Some c /\ c2 = Some c) /\
  (is_ok r = true ->
    (touched src k ->
       snd (get_status_through_cache now fetched c1 q sync fetch) = true /\
       snd (list_status_through_cache now fetched c1 q false lfetch) = true) /\
    (touched src k \/ touched dst k ->
       snd (get_status_through_cache now fetched c2 q sync fetch) = true /\
       snd (list_status_through_cache now fetched c2 q false lfetch) = true)).
Proof.
  intros k.
  assert (Hfetch : forall c1 : cache, entries c1 !! normalize_path q = None ->
    snd (get_status_through_cache now fetched (Some c1) q sync fetch) = true /\
    snd (list_status_through_cache now fetched (Some c1) q false lfetch) = true).
  { intros c1 Hnone. unfold get_status_through_cache, list_status_through_cache.
    pose proof (lookup_status_absent now c1 q Hnone) as Hs.
    pose proof (get_listing_absent now c1 q Hnone) as Hg.
    destruct (lookup_status _ _ _), (get_listing _ _ _). cbn in Hs, Hg. subst.
    split; [|by destruct lfetch].
    destruct (sync =? 0); destruct fetch as [?|e]; try done; by destruct (is_not_found e). }
  destruct r as [a|e]; cbn; split_and!; try done. intros _. split.
  - intros Ht. by apply Hfetch, invalidate_with_parent_absent.
  - unfold k. intros [Ht|Ht]; apply Hfetch; [|by apply invalidate_with_parent_absent].
    pose proof (invalidate_with_parent_absent c src _ Ht) as Hn.
    pose proof (invalidate_with_parent_sub (invalidate_with_parent c src) dst) as Hsub.
    destruct (entries (invalidate_with_parent (invalidate_with_parent c src) dst)
                !! normalize_path q) as [e|] eqn:He; [|done].
    pose proof (lookup_weaken _ _ _ _ He Hsub). congruence.
Qed.

Lemma lookup_status_ttl now c path : mc_ttl (fst (lookup_status now c path)) = mc_ttl c.
Proof. exact (mc_step_ttl c (McLookup now path)). Qed.

(** The call when the status was just written. *)
Lemma get_status_after_put now now' fetched c path path' slot sync fetch :
  normalize_path path' = normalize_path path -> now <= now' -> now' - now < mc_ttl c ->
  0 < mc_ttl c -> sync <> 0 ->
  let '(_, r, called) :=
    get_status_through_cache now' fetched (Some (put_status now c path slot)) path' sync fetch in
  match slot with
  | SlotPresent info =>
      if status_is_completed info then r = Ok info /\ called = false
      else r = fetch /\ called = true
  | SlotNotFound => r = Err (NotFound path') /\ called = false
  end.
Proof.
  intros Hn Hle Hage Httl Hsync. unfold get_status_through_cache.
  pose proof (lookup_status_put now c path path' slot now' Hn Hle Hage Httl) as Hl.
  destruct (Z.eqb_spec sync 0); [done|].
  destruct (lookup_status _ _ _) as [c1 l]. cbn in Hl. subst l.
  destruct slot as [info|]; [|done].
  destruct (status_is_completed info); [done|].
  destruct fetch as [?|e]; [done|]. by destruct (is_not_found e).
Qed.

(** What the call leaves in the cache after asking the master. *)
Definition write_back (fetched : Z) (c : cache) (path : string) (fetch : result Error FileInfo)
  : cache :=
  match fetch with
  | Ok info => insert_arc fetched c path info
  | Err e => if is_not_found e then insert_not_found fetched c path else c
  end.

Definition cached_answer (path : string) (r : result Error FileInfo) : Prop :=
  (exists info, r = Ok info /\ status_is_completed info = true) \/ r = Err (NotFound path).

(** The two ways a call ends: from the cache, or with the master's answer. *)
Lemma get_status_cases now fetched c path sync fetch :
  exists c1, mc_ttl c1 = mc_ttl c /\
    ((sync <> 0 /\ exists r, cached_answer path r /\
        get_status_through_cache now fetched (Some c) path sync fetch = (Some c1, r, false)) \/
     get_status_through_cache now fetched (Some c) path sync fetch
       = (Some (write_back fetched c1 path fetch), fetch, true)).
Proof.
  unfold get_status_through_cache, write_back. pose proof (lookup_status_ttl now c path) as Ht.
  destruct (Z.eqb_spec sync 0) as [->|Hs].
  { exists c. split; [done|]. right.
    destruct fetch as [info|e]; [done|]. by destruct (is_not_found e). }
  destruct (lookup_status now c path) as [c1 l]. exists c1. split; [done|].
  destruct l as [|info|]; [|destruct (status_is_completed info) eqn:Hc|];
    try (left; split; [done|]; eexists; split; [|done]; unfold cached_answer; by eauto);
    right; (destruct fetch as [info'|e]; [done|]); by destruct (is_not_found e).
Qed.

(** Status through the cache.  Without a cache, or with a sync interval of
    zero, the master is asked; when it is asked, its answer is returned unchanged;
    when it is not, the answer is a completed status or [NotFound] for this path.
    What the master answered is then served from the cache until the TTL, a
    completed status and a missing path without a call, an incomplete one never. *)
Theorem get_status_through_cache_correct c path path' now fetched now' fetched' sync sync'
    (fetch fetch' : result Error FileInfo)
    (Hn : normalize_path path' = normalize_path path) (Hle : fetched <= now')
    (Hage : now' - fetched < mc_ttl c) (Httl : 0 < mc_ttl c) (Hsync : sync' <> 0) :
  let '(c1, r, called) := get_status_through_cache now fetched (Some c) path sync fetch in
  let '(_, r', called') := get_status_through_cache now' fetched' c1 path' sync' fetch' in
  (sync = 0 -> called = true) /\ (called = true -> r = fetch) /\
  (called = false -> cached_answer path r) /\
  (called = true ->
     match fetch with
     | Ok info => if status_is_completed info then r' = Ok info /\ called' = false
                  else r' = fetch' /\ called' = true
     | Err e => is_not_found e = true -> r' = Err (NotFound path') /\ called' = false
     end).
Proof.
  destruct (get_status_cases now fetched c path sync fetch)
    as (c1 & Ht & [(Hs & r & Hr & ->)| ->]).
  - destruct (get_status_through_cache _ _ _ _ _ _) as [[? ?] ?]. repeat (split; try done); auto.
  - assert (Hput := fun slot => get_status_after_put fetched now' fetched' c1 path path' slot
      sync' fetch' Hn Hle ltac:(by rewrite Ht) ltac:(by rewrite Ht) Hsync).
    destruct fetch as [info|e]; cbn [write_back].
    + specialize (Hput (SlotPresent info)). unfold insert_arc.
      destruct (get_status_through_cache _ _ _ _ _ _) as [[? ?] ?]. repeat (split; try done); auto.
    + specialize (Hput SlotNotFound). unfold insert_not_found.
      destruct (is_not_found e); [|clear Hput];
        destruct (get_status_through_cache _ _ _ _ _ _) as [[? ?] ?];
        repeat (split; try done); auto.
Qed.
End Refinement.

(** ** A concrete cache: when full, a put drops the other entries *)

Record FlushLru : Type := mkFlushLru {
  fl_capacity : Z;
  fl_entries : gmap string CachedItem;
}.

#[global] Instance flush_lru : Lru FlushLru := {
  lru_new := fun n => mkFlushLru n ∅;
  lru_entries := fl_entries;
  lru_get := fun l k => (l, fl_entries l !! k);
  lru_update := fun l k v => mkFlushLru (fl_capacity l) (<[k := v]> (fl_entries l));
  lru_put := fun l k v =>
    mkFlushLru (fl_capacity l)
      (let m := <[k := v]> (fl_entries l) in
       if Z.of_nat (size m) <=? fl_capacity l then m else {[k := v]});
  lru_pop := fun l k => mkFlushLru (fl_capacity l) (delete k (fl_entries l));
  lru_clear := fun l => mkFlushLru (fl_capacity l) ∅;
}.

#[global] Instance flush_lru_ok : LruOk FlushLru.
Proof.
  split; try done; intros l k v; cbn; destruct (_ <=? _);
    rewrite ?lookup_insert_eq, ?lookup_singleton_eq; try done.
  rewrite <- insert_empty. apply insert_mono, map_empty_subseteq.
Qed.

Definition completed_info (len : Z) : FileInfo :=
  mkFileInfo None None None None (Some len) None None (Some true) None None None [] None None
    None None None None [] None None None None None [] None.

Definition two_entry_cache : MetadataCache FlushLru :=
  mkMetadataCache (lru_new 2) 10 0 0 0 0 0.

Definition cache_ops : list McOp :=
  [ McPutStatus 0 "/a/b" (SlotPresent (completed_info 1));
    McPutListing 1 "/a" [completed_info 1]; McPutStatus 5 "/a/b/" (SlotPresent (completed_info 2)) ].

Lemma metadata_cache_serves_latest_witness :
  let c := foldl mc_step two_entry_cache cache_ops in
  snd (lookup_status 14 c "a/b") = LookupPresent (completed_info 2) /\
  exists i, foldl spec_step ∅ cache_ops !! "/a/b"%string = Some i /\
    ci_status i = Some (SlotPresent (completed_info 2)) /\ 14 - ci_inserted_at i < 10.
Proof.
  split; [vm_compute; reflexivity|].
  apply (metadata_cache_serves_latest 10 2 two_entry_cache cache_ops 14 "a/b" eq_refl).
  vm_compute. reflexivity.
Defined.

Lemma mutations_are_visible_witness :
  let c := foldl mc_step two_entry_cache cache_ops in
  snd (get_status_through_cache 6 7 (Some c) "/a" 5 (Ok (completed_info 9))) = true /\
  snd (get_status_through_cache 6 7 (Some c) "/a/b" 5 (Ok (completed_info 9))) = false /\
  snd (get_status_through_cache 6 7 (fst (invalidate_on_success (Some c) "/a/b" (Ok tt)))
         "/a/b" 5 (Ok (completed_info 9))) = true.
Proof.
  split; [vm_compute; reflexivity|]. split; [vm_compute; reflexivity|].
  pose proof (mutations_are_visible (foldl mc_step two_entry_cache cache_ops) "/a/b" "/z" (Ok tt)
                "/a/b" 6 7 5 (Ok (completed_info 9)) (Ok [])) as (_ & _ & _ & H).
  apply (proj1 (H eq_refl)). left. reflexivity.
Defined.

Lemma get_status_through_cache_correct_witness :
  let '(c1, r, called) :=
    get_status_through_cache 0 1 (Some two_entry_cache) "/x" 5 (Ok (completed_info 3)) in
  let '(_, r', called') :=
    get_status_through_cache 2 3 c1 "x/" 5 (Err (NotFound "/x")) in
  (5 = 0 -> called = true) /\ (called = true -> r = Ok (completed_info 3)) /\
  (called = false -> cached_answer "/x" r) /\
  (called = true -> r' = Ok (completed_info 3) /\ called' = false).
Proof.
  apply (get_status_through_cache_correct two_entry_cache "/x" "x/" 0 1 2 3 5 5
           (Ok (completed_info 3)) (Err (NotFound "/x")));
    [vm_compute; reflexivity|lia|cbn; lia|cbn; lia|lia].
Defined.

(** A status write to an expired item makes its old listing live again: written at
    time 0 with a TTL of 10, the listing is served at time 101. *)
Example status_write_revives_expired_listing :
  let c := insert_arc 100 (insert_listing 0 two_entry_cache "/a" [completed_info 1]) "/a"
             (completed_info 2) in
  snd (get_listing 101 c "/a") = Some [completed_info 1].
Proof. vm_compute. reflexivity. Qed.

(** Paths that differ in trailing spaces share a key. *)
Example normalize_path_conflates_spaces : normalize_path "/a/b " = normalize_path "/a/b".
Proof. vm_compute. reflexivity. Qed.
