(* ===== verification/MasterInquire.v ===== *)
(** * Primary master discovery (src/src/client/master_inquire.rs)

    The polling loop over the configured masters, and the single-flight gate that
    lets concurrent callers share one poll.  Callers are threads of a state machine
    whose steps are the points where the code locks the gate, sends on the watch
    channel or waits; cancellation is a step of its own.  What a ping meets on the
    network and the clock are inputs. *)

From stdpp Require Import functions.
From S2P Require Import Prelude Text Errors Retry.

(** ** Pinging one master *)

Inductive PingError : Type :=
| Standby
| Unavailable (message : string)
| Fatal (message : string).

(** How far the connection attempt and the call get. *)
Inductive PingOutcome : Type :=
| InvalidEndpoint (message : string)
| ConnectFailed (message : string)
| RpcAnswered
| RpcFailed (status : Status).

Section Polling.
Context (code_display : Code -> string).

Definition ping_meta_service (addr : string) (o : PingOutcome) : result PingError unit :=
  match o with
  | InvalidEndpoint e => Err (Fatal ("invalid endpoint for " +:+ addr +:+ ": " +:+ e))
  | ConnectFailed e => Err (Unavailable (addr +:+ ": connection failed: " +:+ e))
  | RpcAnswered => Ok tt
  | RpcFailed status =>
      let text := addr +:+ ": [" +:+ code_display (status_code status) +:+ "] "
                  +:+ status_message status in
      match status_code status with
      | CodeNotFound => Err Standby
      | CodeUnavailable | CodeDeadlineExceeded | CodeCancelled => Err (Unavailable text)
      | _ => Err (Fatal text)
      end
  end.

(** One pass over the addresses: the primary, or the errors met. *)
Fixpoint poll_round (ping : string -> PingOutcome) (addresses errors : list string)
  : result (list string) string :=
  match addresses with
  | [] => Err errors
  | addr :: addresses =>
      match ping_meta_service addr (ping addr) with
      | Ok _ => Ok addr
      | Err Standby => poll_round ping addresses (errors ++ [addr +:+ ": standby"])
      | Err (Unavailable msg) => poll_round ping addresses (errors ++ [msg])
      | Err (Fatal msg) => Err (errors ++ [msg])
      end
  end.

Definition join_errors (l : list string) : string := String.concat "; " l.

Definition poll_failed_message (attempts addresses : Z) (last_errors : list string) : string :=
  "failed to find primary master after " +:+ show_Z attempts +:+ " attempts across "
  +:+ show_Z addresses +:+ " addresses. Last round errors: [" +:+ join_errors last_errors +:+ "]".

(** The leader's loop.  [rounds] gives the elapsed time at each test of the retry
    policy and what the pings of that round meet; [None] while the loop is still
    running when they are used up. *)
Fixpoint poll_loop (addresses : list string) (retry : ExponentialTimeBoundedRetry)
    (last_errors : list string) (rounds : list (Z * (string -> PingOutcome)))
  : option (result string string) :=
  match rounds with
  | [] => None
  | (elapsed, ping) :: rounds =>
      let '(retry, go) := time_bounded_should_retry retry elapsed in
      if go then
        match poll_round ping addresses [] with
        | Ok addr => Some (Ok addr)
        | Err errors => poll_loop addresses retry errors rounds
        end
      else Some (Err (poll_failed_message (tb_attempts retry) (zlen addresses) last_errors))
  end.

Record PollingConfig : Type := mkPollingConfig {
  pc_addresses : list string;
  pc_max_duration : Z;
  pc_initial_sleep : Z;
  pc_max_sleep : Z;
}.

Definition poll_for_primary (cfg : PollingConfig) (rounds : list (Z * (string -> PingOutcome)))
  : option (result string string) :=
  poll_loop (pc_addresses cfg)
    (time_bounded_new (pc_max_duration cfg) (pc_initial_sleep cfg) (pc_max_sleep cfg)) [] rounds.

(** The client the configuration asks for: one address needs no discovery. *)
Inductive MasterInquireClient : Type :=
| SingleMasterInquireClient (address : string)
| PollingMasterInquireClient (cfg : PollingConfig).

Definition create_master_inquire_client (addrs : list string) (master_addr : string)
    (max_duration initial_sleep max_sleep : Z) : MasterInquireClient :=
  match addrs with
  | [] => SingleMasterInquireClient master_addr
  | [addr] => SingleMasterInquireClient addr
  | _ => PollingMasterInquireClient
           (mkPollingConfig addrs max_duration initial_sleep max_sleep)
  end.

Definition get_master_rpc_addresses (c : MasterInquireClient) : list string :=
  match c with
  | SingleMasterInquireClient address => [address]
  | PollingMasterInquireClient cfg => pc_addresses cfg
  end.

(** ** The single-flight gate *)

(** What the leader broadcasts. *)
Abbreviation PollResult := (result string string).

Definition cancelled_message : string := "primary master poll cancelled before completion".

(** Where a caller of [get_primary_rpc_address] is. *)
Inductive Caller : Type :=
| AtStart
| AtGate
| Leading (channel : nat)
| Polled (channel : nat) (r : PollResult)
| Sent (channel : nat) (r : PollResult)
| Dropping (r : PollResult)
| CancelDropping
| Waiting (channel : nat)
| Returned (r : result Error string)
| Gone.

(** [mi_channels] are the watch channels by number, each with the value sent. *)
Record MasterInquire : Type := mkMasterInquire {
  mi_cached_primary : option string;
  mi_gate : option nat;
  mi_next_channel : nat;
  mi_channels : nat -> option PollResult;
  mi_callers : nat -> Caller;
}.

Definition inquire_init : MasterInquire :=
  mkMasterInquire None None 0 (fun _ => None) (fun _ => AtStart).

Inductive Event : Type :=
| EvStart (ping : string -> PingOutcome)
| EvGate
| EvPoll (rounds : list (Z * (string -> PingOutcome)))
| EvSend
| EvClear
| EvDrop
| EvWake
| EvCancel
| EvReset.

Definition set_caller (s : MasterInquire) (i : nat) (c : Caller) : MasterInquire :=
  mkMasterInquire (mi_cached_primary s) (mi_gate s) (mi_next_channel s) (mi_channels s)
    (<[i := c]> (mi_callers s)).

Definition set_gate (s : MasterInquire) (g : option nat) : MasterInquire :=
  mkMasterInquire (mi_cached_primary s) g (mi_next_channel s) (mi_channels s) (mi_callers s).

Definition send (s : MasterInquire) (channel : nat) (r : PollResult) : MasterInquire :=
  mkMasterInquire (mi_cached_primary s) (mi_gate s) (mi_next_channel s)
    (<[channel := Some r]> (mi_channels s)) (mi_callers s).

Definition set_cached (s : MasterInquire) (a : option string) : MasterInquire :=
  mkMasterInquire a (mi_gate s) (mi_next_channel s) (mi_channels s) (mi_callers s).

(** Opening a channel and installing its receiver in the gate. *)
Definition open_channel (s : MasterInquire) : MasterInquire :=
  mkMasterInquire (mi_cached_primary s) (Some (mi_next_channel s)) (S (mi_next_channel s))
    (<[mi_next_channel s := None]> (mi_channels s)) (mi_callers s).

Definition poll_error (r : PollResult) : result Error string :=
  match r with
  | Ok addr => Ok addr
  | Err msg => Err (Internal msg None)
  end.

(** One step of caller [i]; an event that does not apply changes nothing. *)
Definition caller_step (cfg : PollingConfig) (s : MasterInquire) (i : nat) (e : Event)
  : MasterInquire :=
  match mi_callers s i, e with
  | AtStart, EvStart ping =>
      match mi_cached_primary s with
      | Some addr =>
          if is_ok (ping_meta_service addr (ping addr))
          then set_caller s i (Returned (Ok addr))
          else set_caller s i AtGate
      | None => set_caller s i AtGate
      end
  | AtGate, EvGate =>
      match mi_gate s with
      | Some channel => set_caller s i (Waiting channel)
      | None => set_caller (open_channel s) i (Leading (mi_next_channel s))
      end
  | Leading channel, EvPoll rounds =>
      match poll_for_primary cfg rounds with
      | None => s
      | Some r =>
          set_caller
            (match r with Ok addr => set_cached s (Some addr) | Err _ => s end)
            i (Polled channel r)
      end
  | Polled channel r, EvSend => set_caller (send s channel r) i (Sent channel r)
  | Sent _ r, EvClear => set_caller (set_gate s None) i (Dropping r)
  | Dropping r, EvDrop => set_caller (set_gate s None) i (Returned (poll_error r))
  | Leading channel, EvCancel =>
      set_caller (send s channel (Err cancelled_message)) i CancelDropping
  | CancelDropping, EvDrop => set_caller (set_gate s None) i Gone
  | Waiting channel, EvWake =>
      match mi_channels s channel with
      | Some r => set_caller s i (Returned (poll_error r))
      | None => s
      end
  | (AtStart | AtGate | Waiting _), EvCancel => set_caller s i Gone
  | _, EvReset => set_cached s None
  | _, _ => s
  end.

Definition inquire_run (cfg : PollingConfig) (s : MasterInquire) (evs : list (nat * Event))
  : MasterInquire :=
  foldl (fun s '(i, e) => caller_step cfg s i e) s evs.
End Polling.

(** ** The polling loop *)

Section PollSpec.
Context (code_display : Code -> string).

Abbreviation ping_of ping a := (ping_meta_service code_display a (ping a)).

(** A master that a round passes over. *)
Definition skipped (ping : string -> PingOutcome) (a : string) : Prop :=
  ping_of ping a = Err Standby \/ exists msg, ping_of ping a = Err (Unavailable msg).

(** [a] is the first address in configuration order that answers as primary, with
    no fatal error before it. *)
Definition answers (ping : string -> PingOutcome) (addresses : list string) (a : string) : Prop :=
  exists l1 l2, addresses = l1 ++ a :: l2 /\ Forall (skipped ping) l1 /\ ping_of ping a = Ok tt.

Definition no_primary (ping : string -> PingOutcome) (addresses : list string) : Prop :=
  forall a, ~ answers ping addresses a.

Lemma answers_cons_skipped ping a addresses b :
  skipped ping a -> answers ping (a :: addresses) b <-> answers ping addresses b.
Proof.
  intros Hs. split.
  - intros ([|c l1] & l2 & Heq & Hall & Hok); cbn in Heq; injection Heq as <- ->.
    + destruct Hs as [Hs|[msg Hs]]; congruence.
    + exists l1, l2. inversion Hall; subst. done.
  - intros (l1 & l2 & -> & Hall & Hok). exists (a :: l1), l2. split; [done|].
    split; [by constructor|done].
Qed.

Lemma poll_round_spec ping addresses errors :
  match poll_round code_display ping addresses errors with
  | Ok a => answers ping addresses a
  | Err _ => no_primary ping addresses
  end.
Proof.
  revert errors. induction addresses as [|a addresses IH]; intros errors; cbn [poll_round].
  { intros a (l1 & l2 & Heq & _). by destruct l1. }
  assert (Hskip : skipped ping a -> forall errs,
    match poll_round code_display ping addresses errs with
    | Ok b => answers ping (a :: addresses) b
    | Err _ => no_primary ping (a :: addresses)
    end).
  { intros Hs errs. specialize (IH errs). destruct (poll_round _ _ _ _) as [b|e].
    - by apply answers_cons_skipped.
    - intros b Hb. apply (IH b). by apply (answers_cons_skipped ping a). }
  destruct (ping_of ping a) as [[]|[|msg|msg]] eqn:Hp.
  - exists [], addresses. done.
  - apply Hskip. by left.
  - apply Hskip. right. eauto.
  - intros b ([|c l1] & l2 & Heq & Hall & Hok); cbn in Heq; injection Heq as <- ->; [congruence|].
    inversion Hall as [|? ? [Hs|[m Hs]]]; congruence.
Qed.

Abbreviation rounds_t := (list (Z * (string -> PingOutcome))).

(** The rounds run so far: within the time budget after the first, none with a
    primary. *)
Definition exhausted (cfg : PollingConfig) (pre : rounds_t) : Prop :=
  Forall (fun r => no_primary r.2 (pc_addresses cfg)) pre /\
  Forall (fun r => r.1 < pc_max_duration cfg) (drop 1 pre).

(** The outcome of the loop, by cases that exclude each other. *)
Definition poll_outcome (cfg : PollingConfig) (rounds : rounds_t)
    (r : option (result string string)) : Prop :=
  match r with
  | None => exhausted cfg rounds
  | Some (Ok a) => exists pre elapsed ping post,
      rounds = pre ++ (elapsed, ping) :: post /\ exhausted cfg pre /\
      (pre <> [] -> elapsed < pc_max_duration cfg) /\ answers ping (pc_addresses cfg) a
  | Some (Err _) => exists pre elapsed ping post,
      rounds = pre ++ (elapsed, ping) :: post /\ exhausted cfg pre /\ pre <> [] /\
      pc_max_duration cfg <= elapsed
  end.

Lemma poll_loop_outcome cfg rounds pre retry errors :
  exhausted cfg pre -> tb_attempts retry = zlen pre -> tb_max_duration retry = pc_max_duration cfg ->
  zlen pre + zlen rounds < u32_mod ->
  poll_outcome cfg (pre ++ rounds) (poll_loop code_display (pc_addresses cfg) retry errors rounds).
Proof.
  revert pre retry errors. induction rounds as [|[elapsed ping] rounds IH];
    intros pre retry errors Hex Hatt Hmax Hlen; cbn [poll_loop].
  { by rewrite app_nil_r. }
  pose proof (zlen_nonneg pre). pose proof (zlen_nonneg rounds).
  change ((elapsed, ping) :: rounds) with ([(elapsed, ping)] ++ rounds) in Hlen.
  rewrite zlen_app in Hlen. change (zlen [(elapsed, ping)]) with 1 in Hlen.
  assert (Hnext : forall retry', tb_attempts retry' = zlen pre + 1 ->
    tb_max_duration retry' = pc_max_duration cfg -> (pre <> [] -> elapsed < pc_max_duration cfg) ->
    poll_outcome cfg (pre ++ (elapsed, ping) :: rounds)
      (match poll_round code_display ping (pc_addresses cfg) [] with
       | Ok a => Some (Ok a)
       | Err errors' => poll_loop code_display (pc_addresses cfg) retry' errors' rounds
       end)).
  { intros retry' Hatt' Hmax' Hel.
    pose proof (poll_round_spec ping (pc_addresses cfg) []) as Hround.
    destruct (poll_round _ _ _ _) as [a|errs'].
    - exists pre, elapsed, ping, rounds. done.
    - replace (pre ++ (elapsed, ping) :: rounds) with ((pre ++ [(elapsed, ping)]) ++ rounds)
        by (by rewrite <- app_assoc).
      apply IH; [|by rewrite zlen_app|done|rewrite zlen_app; unfold zlen in *; cbn; lia].
      destruct Hex as [Hno Htime]. split; [by apply Forall_app; split; [|constructor]|].
      destruct pre as [|p pre]; [by constructor|]. cbn in Htime |- *. rewrite drop_0 in *.
      apply Forall_app. split; [done|]. constructor; [|constructor]. by apply Hel. }
  unfold time_bounded_should_retry. destruct (Z.eqb_spec (tb_attempts retry) 0) as [Hz|Hz].
  - apply Hnext; cbn; [lia|done|]. destruct pre; [done|]. unfold zlen in *. cbn in *. lia.
  - destruct (Z.leb_spec (tb_max_duration retry) elapsed).
    + exists pre, elapsed, ping, rounds. split_and!; [done|done| |lia].
      intros ->. unfold zlen in Hatt. cbn in Hatt. lia.
    + apply Hnext; cbn; [|done|lia].
      unfold as_u32, u32_mod in *. rewrite Z.mod_small; lia.
Qed.

(** C35. Discovery of the primary.  The leader's loop returns the first address, in
    configuration order, that answers as primary, in the first round in which one
    does before any fatal error; standby and unreachable masters are passed over.
    It gives up only when a test after the first round finds the time budget used
    up, and never while an earlier permitted round had a primary. *)
Theorem poll_for_primary_correct cfg rounds (Hlen : zlen rounds < u32_mod) :
  poll_outcome cfg rounds (poll_for_primary code_display cfg rounds).
Proof.
  apply (poll_loop_outcome cfg rounds [] _ []); [|done|done|done].
  split; constructor.
Qed.
End PollSpec.

(** ** The gate *)

Section Gate.
Context (code_display : Code -> string) (cfg : PollingConfig).

Abbreviation step := (caller_step code_display cfg).

Inductive reachable : MasterInquire -> Prop :=
| reach_init : reachable inquire_init
| reach_step s i e : reachable s -> reachable (step s i e).

(** The caller that will send on [channel]. *)
Definition leads (c : Caller) (channel : nat) : Prop :=
  c = Leading channel \/ exists r, c = Polled channel r.

(** A value was sent, or someone will send one. *)
Definition served (s : MasterInquire) (channel : nat) : Prop :=
  is_Some (mi_channels s channel) \/ exists j, leads (mi_callers s j) channel.

Definition known (r : result string string) : Prop :=
  forall a, r = Ok a -> a ∈ pc_addresses cfg.

Definition caller_ok (s : MasterInquire) (c : Caller) : Prop :=
  match c with
  | Waiting channel => served s channel
  | Polled _ r | Sent _ r | Dropping r => known r
  | Returned r => forall a, r = Ok a -> a ∈ pc_addresses cfg
  | _ => True
  end.

Record gate_inv (s : MasterInquire) : Prop := {
  gi_callers : forall i, caller_ok s (mi_callers s i);
  gi_gate : forall channel, mi_gate s = Some channel -> served s channel;
  gi_channels : forall channel r, mi_channels s channel = Some r -> known r;
  gi_cached : forall a, mi_cached_primary s = Some a -> a ∈ pc_addresses cfg;
}.

Lemma known_error msg : known (Err msg).
Proof. done. Qed.

Lemma poll_known rounds r : poll_for_primary code_display cfg rounds = Some r -> known r.
Proof.
  unfold poll_for_primary. generalize (@nil string).
  generalize (time_bounded_new (pc_max_duration cfg) (pc_initial_sleep cfg) (pc_max_sleep cfg)).
  induction rounds as [|[el ping] rounds IH]; intros retry errs; cbn [poll_loop]; [done|].
  destruct (time_bounded_should_retry retry el) as [retry' []]; [|by intros [= <-]].
  pose proof (poll_round_spec code_display ping (pc_addresses cfg) []) as Hr.
  destruct (poll_round _ _ _ _) as [a|e]; [|apply IH].
  intros [= <-] b [= <-]. destruct Hr as (l1 & l2 & -> & _). set_solver.
Qed.

(** A step of caller [i] to [c] keeps the invariant if channels in use stay served
    and the new pieces are sound. *)
Lemma gate_inv_step s s' i c :
  gate_inv s -> mi_callers s' = <[i := c]> (mi_callers s) -> caller_ok s' c ->
  (forall ch, served s ch -> served s' ch) ->
  (forall ch, mi_gate s' = Some ch -> mi_gate s = Some ch \/ served s' ch) ->
  (forall ch r, mi_channels s' ch = Some r -> mi_channels s ch = Some r \/ known r) ->
  (forall a, mi_cached_primary s' = Some a ->
     mi_cached_primary s = Some a \/ a ∈ pc_addresses cfg) ->
  gate_inv s'.
Proof.
  intros [Hc Hg Hch Hca] Hcallers Hok Hserved Hgate Hchan Hcached. split.
  - intros j. rewrite Hcallers. destruct (decide (j = i)) as [->|Hne];
      [by rewrite fn_lookup_insert|]. rewrite fn_lookup_insert_ne by done.
    specialize (Hc j). destruct (mi_callers s j); cbn in *; auto.
  - intros ch Hs. destruct (Hgate ch Hs); auto.
  - intros ch r Hs. destruct (Hchan ch r Hs); eauto.
  - intros a Hs. destruct (Hcached a Hs); auto.
Qed.

(** Serving survives a step that keeps the channels and whose caller did not lead. *)
Lemma served_keep s s' i c :
  mi_callers s' = <[i := c]> (mi_callers s) -> mi_channels s' = mi_channels s ->
  (forall ch, leads (mi_callers s i) ch -> leads c ch) ->
  forall ch, served s ch -> served s' ch.
Proof.
  intros Hcallers Hchan Hlead ch [Hs|[j Hj]]; [left; by rewrite Hchan|right].
  exists j. rewrite Hcallers. destruct (decide (j = i)) as [->|];
    [rewrite fn_lookup_insert; auto|by rewrite fn_lookup_insert_ne].
Qed.

(** Sending serves the channel the caller led. *)
Lemma served_send s i c channel r :
  (forall ch, leads (mi_callers s i) ch -> ch = channel) ->
  forall ch, served s ch -> served (set_caller (send s channel r) i c) ch.
Proof.
  intros Hlead ch Hs. unfold served. cbn. destruct (decide (ch = channel)) as [->|Hne].
  { left. rewrite fn_lookup_insert. eauto. }
  rewrite fn_lookup_insert_ne by done. destruct Hs as [Hs|[j Hj]]; [by left|right].
  exists j. destruct (decide (j = i)) as [->|]; [|by rewrite fn_lookup_insert_ne].
  by apply Hlead in Hj.
Qed.
End Gate.

Section GateTheorems.
Context (code_display : Code -> string) (cfg : PollingConfig).

Lemma leads_not c ch : (match c with Leading _ | Polled _ _ => False | _ => True end) -> ~ leads c ch.
Proof. intros H [->|[r ->]]; done. Qed.

(** A step that touches neither the channels nor a leader. *)
Lemma gate_inv_quiet s s' i c :
  gate_inv cfg s -> (match mi_callers s i with Leading _ | Polled _ _ => False | _ => True end) ->
  mi_callers s' = <[i := c]> (mi_callers s) -> mi_channels s' = mi_channels s ->
  mi_cached_primary s' = mi_cached_primary s ->
  (mi_gate s' = mi_gate s \/ mi_gate s' = None) ->
  ((forall ch, served s ch -> served s' ch) -> caller_ok cfg s' c) ->
  gate_inv cfg s'.
Proof.
  intros Hinv Hlead Hcallers Hchan Hcached Hgate Hok.
  assert (Hserved : forall ch, served s ch -> served s' ch).
  { apply (served_keep s s' i c Hcallers Hchan). by intros ch Hl%leads_not. }
  apply (gate_inv_step cfg s s' i c); auto.
  - intros ch. destruct Hgate as [-> | ->]; [by left|done].
  - intros ch r. rewrite Hchan. by left.
  - intros a. rewrite Hcached. by left.
Qed.

(** The caller moves and nothing else changes but, perhaps, the gate. *)
Ltac quiet_step Hinv Hc :=
  eapply gate_inv_quiet;
  [exact Hinv|by erewrite Hc|reflexivity|reflexivity|reflexivity|by auto|].

Lemma gate_inv_preserved s i e : gate_inv cfg s -> gate_inv cfg (caller_step code_display cfg s i e).
Proof.
  intros Hinv. pose proof (gi_callers _ _ Hinv i) as Hi. unfold caller_step.
  destruct (mi_callers s i) as [| |ch|ch r|ch r|r| |ch|r|] eqn:Hc; destruct e;
    try (exact Hinv || (destruct Hinv; by split; cbn));
    try (by quiet_step Hinv Hc).
  - destruct (mi_cached_primary s) as [a|] eqn:Ha; [destruct (is_ok _)|];
      quiet_step Hinv Hc; try done.
    intros _ b [= <-]. by apply (gi_cached _ _ Hinv).
  - destruct (mi_gate s) as [ch|] eqn:Hg.
    + quiet_step Hinv Hc.
      intros Hs. apply Hs. by apply (gi_gate _ _ Hinv).
    + assert (Hnew : served (set_caller (open_channel s) i (Leading (mi_next_channel s)))
                       (mi_next_channel s)).
      { right. exists i. cbn. rewrite fn_lookup_insert. by left. }
      eapply (gate_inv_step cfg s _ i); [done|done|done| | | |by left].
      * intros ch Hs. destruct (decide (ch = mi_next_channel s)) as [->|Hne]; [done|].
        destruct Hs as [Hs|[j Hj]]; [left; cbn; by rewrite fn_lookup_insert_ne|right].
        exists j. cbn. destruct (decide (j = i)) as [->|]; [|by rewrite fn_lookup_insert_ne].
        rewrite Hc in Hj. by apply leads_not in Hj.
      * cbn. intros ch [= <-]. by right.
      * cbn. intros ch r. destruct (decide (ch = mi_next_channel s)) as [->|];
          [by rewrite fn_lookup_insert|rewrite fn_lookup_insert_ne by done]. by left.
  - destruct (poll_for_primary code_display cfg rounds) as [r|] eqn:Hp; [|done].
    pose proof (poll_known _ _ _ _ Hp) as Hk.
    set (s1 := match r with Ok _ => _ | Err _ => _ end).
    assert (Hs1 : mi_callers s1 = mi_callers s /\ mi_channels s1 = mi_channels s /\
      mi_gate s1 = mi_gate s) by (unfold s1; by destruct r).
    destruct Hs1 as (H1 & H2 & H3).
    eapply (gate_inv_step cfg s _ i); [done|cbn; by rewrite H1|done| | | |].
    + eapply (served_keep s _ i); [cbn; by rewrite H1|done|].
      intros ch' [Hl|[? Hl]]; rewrite Hc in Hl; [|done]. injection Hl as <-. right. eauto.
    + cbn. rewrite H3. by left.
    + cbn. rewrite H2. by left.
    + cbn. unfold s1. destruct r as [a|]; cbn; [|by left]. intros b [= <-]. right. by apply Hk.
  - eapply (gate_inv_step cfg s _ i); [done|done|done| |by left| |by left].
    + apply served_send. rewrite Hc. intros ch' [Hl|[? Hl]]; [|done]. by injection Hl as <-.
    + cbn. intros ch' r. destruct (decide (ch' = ch)) as [->|];
        [rewrite fn_lookup_insert; intros [= <-]; by right|rewrite fn_lookup_insert_ne by done].
      by left.
  - eapply (gate_inv_step cfg s _ i); [done|done|done| |by left| |by left].
    + apply served_send. rewrite Hc. intros ch' [Hl|[? Hl]]; [done|]. by injection Hl as <-.
    + cbn. intros ch' r'. destruct (decide (ch' = ch)) as [->|];
        [rewrite fn_lookup_insert; intros [= <-]; by right|rewrite fn_lookup_insert_ne by done].
      by left.
  - quiet_step Hinv Hc.
    intros _ a. destruct r; [|done]. intros [= <-]. by apply Hi.
  - destruct (mi_channels s ch) as [r|] eqn:Hch; [|done].
    quiet_step Hinv Hc.
    intros _ a. destruct r; [|done]. intros [= <-]. by apply (gi_channels _ _ Hinv ch _ Hch).
Qed.

Lemma gate_inv_reachable s : reachable code_display cfg s -> gate_inv cfg s.
Proof.
  induction 1 as [|s i e _ IH]; [by split|]. by apply gate_inv_preserved.
Qed.

(** After the channel has a value, a waiting caller returns it. *)
Lemma wake_returns s i channel r :
  mi_callers s i = Waiting channel -> mi_channels s channel = Some r ->
  mi_callers (caller_step code_display cfg s i EvWake) i = Returned (poll_error r).
Proof. intros Hw Hr. unfold caller_step. rewrite Hw, Hr. cbn. apply fn_lookup_insert. Qed.

(** A leader's next send, or its cancellation, gives the channel a value. *)
Lemma leader_sends s i j channel :
  mi_callers s i = Waiting channel -> leads (mi_callers s j) channel ->
  exists e r, let s' := caller_step code_display cfg s j e in
    mi_callers s' i = Waiting channel /\ mi_channels s' channel = Some r.
Proof.
  intros Hw Hl. assert (i <> j) by (intros <-; rewrite Hw in Hl; by apply leads_not in Hl).
  destruct Hl as [Hl|[r Hl]];
    [exists EvCancel, (Err cancelled_message)|exists EvSend, r];
    unfold caller_step; rewrite Hl; cbn; rewrite fn_lookup_insert_ne by done;
    (split; [done|apply fn_lookup_insert]).
Qed.

(** No caller of the single-flight gate is stuck.  In every reachable state of
    any number of callers, with leaders that may be cancelled at any point, a waiting
    caller returns within two steps: its channel already has a value, or its leader
    is alive and gives it one by finishing or by being dropped.  Every address any
    caller returns is one of the configured masters. *)
Theorem gate_never_strands s (Hreach : reachable code_display cfg s) :
  (forall i channel, mi_callers s i = Waiting channel ->
     exists evs r, (length evs <= 2)%nat /\
       mi_callers (inquire_run code_display cfg s evs) i = Returned r) /\
  (forall i a, mi_callers s i = Returned (Ok a) -> a ∈ pc_addresses cfg).
Proof.
  apply gate_inv_reachable in Hreach as Hinv. split.
  - intros i channel Hw. pose proof (gi_callers _ _ Hinv i) as Hs. rewrite Hw in Hs.
    destruct Hs as [[r Hr]|[j Hj]].
    + exists [(i, EvWake)], (poll_error r). split; [cbn; lia|]. by eapply wake_returns.
    + destruct (leader_sends s i j channel Hw Hj) as (e & r & Hw' & Hr').
      exists [(j, e); (i, EvWake)], (poll_error r). split; [done|]. by eapply wake_returns.
  - intros i a Hi. pose proof (gi_callers _ _ Hinv i) as Hok. rewrite Hi in Hok. by apply Hok.
Qed.
End GateTheorems.

(** ** Concrete runs *)

Definition two_masters : PollingConfig := mkPollingConfig ["m1:9200"; "m2:9200"] 1000 10 100.
Definition show_code (_ : Code) : string := "code".

(** The second master is primary from the second round on. *)
Definition late_primary : list (Z * (string -> PingOutcome)) :=
  [ (0, fun a => if String.eqb a "m1:9200" then RpcFailed (mkStatus CodeNotFound "standby")
                 else ConnectFailed "refused");
    (20, fun a => if String.eqb a "m1:9200" then RpcFailed (mkStatus CodeNotFound "standby")
                  else RpcAnswered) ].

Lemma poll_for_primary_correct_witness :
  poll_for_primary show_code two_masters late_primary = Some (Ok "m2:9200"%string) /\
  poll_outcome show_code two_masters late_primary
    (poll_for_primary show_code two_masters late_primary).
Proof.
  split; [vm_compute; reflexivity|].
  apply (poll_for_primary_correct show_code two_masters late_primary). vm_compute. reflexivity.
Defined.

Definition unreachable (_ : string) : PingOutcome := ConnectFailed "refused".

(** Caller 1 waits for caller 0, which leads. *)
Definition follower_events : list (nat * Event) :=
  [ (0%nat, EvStart unreachable); (0%nat, EvGate); (1%nat, EvStart unreachable);
    (1%nat, EvGate) ].

Definition follower_state : MasterInquire :=
  inquire_run show_code two_masters inquire_init follower_events.

Lemma follower_state_reachable : reachable show_code two_masters follower_state.
Proof. repeat apply reach_step. apply reach_init. Qed.

Lemma gate_never_strands_witness :
  mi_callers follower_state 1%nat = Waiting 0 /\
  exists evs r, (length evs <= 2)%nat /\
    mi_callers (inquire_run show_code two_masters follower_state evs) 1%nat = Returned r.
Proof.
  split; [vm_compute; reflexivity|].
  apply (proj1 (gate_never_strands show_code two_masters follower_state follower_state_reachable)
           1%nat 0%nat).
  vm_compute. reflexivity.
Defined.

(** Caller 0 completes its poll up to the point between [complete] clearing the gate
    and its guard being dropped; caller 1 then becomes leader; the guard's drop
    clears caller 1's gate, and caller 2 becomes leader too. *)
Definition two_leader_events : list (nat * Event) :=
  [ (0%nat, EvStart unreachable); (0%nat, EvGate); (0%nat, EvPoll late_primary);
    (0%nat, EvSend); (0%nat, EvClear);
    (1%nat, EvStart unreachable); (1%nat, EvGate);
    (0%nat, EvDrop);
    (2%nat, EvStart unreachable); (2%nat, EvGate) ].

(** Where the gate does not keep its promises.  Without any cancellation, two
    callers can lead polls at once: the drop of a completed leader's guard clears the
    gate a second time, after the next leader has installed its channel.  And a
    follower of a cancelled leader gets an error that is not retriable. *)
Theorem gate_drop_admits_second_leader :
  let s := inquire_run show_code two_masters inquire_init two_leader_events in
  (mi_callers s 1%nat = Leading 1 /\ mi_callers s 2%nat = Leading 2) /\
  (let s' := inquire_run show_code two_masters follower_state
               [(0%nat, EvCancel); (1%nat, EvWake)] in
   exists e, mi_callers s' 1%nat = Returned (Err e) /\ is_retriable e = false).
Proof.
  vm_compute. split; [done|]. eexists. done.
Qed.
