(* ===== verification/WorkerPool.v ===== *)
(** * Worker connection pool (WorkerClientPool of src/src/client/worker.rs)

    Any number of concurrent callers of [acquire], [reconnect_if_stale], [reconnect]
    and [invalidate].  Each atomic access to the shared maps is one step, and the
    steps of different callers interleave freely; a caller may also be cancelled where
    it waits.  The outcome of a connection attempt is an input.  Generations are a
    [u64] counter in the source; here they do not wrap. *)

From stdpp Require Import functions.
From S2P Require Import Prelude Text.

(** ** State *)

Record WorkerClient : Type := mkWorkerClient {
  cl_addr : string;
  cl_generation : Z;
}.

Inductive Request : Type :=
| Acquire (addr : string)
| ReconnectIfStale (addr : string) (stale_generation : Z)
| Reconnect (addr : string)
| Invalidate (addr : string).

(** What a caller in the critical section of a key is there for: to fill a miss, or to
    replace a client not newer than a generation. *)
Inductive Purpose : Type :=
| ForMiss
| ForStale (stale_generation : Z).

Inductive PoolCaller : Type :=
| Idle
| NextSlot (p : Purpose) (addr : string)
| Scan (addr : string) (stale_generation : Z)
| FastPath (key addr : string)
| GetLock (p : Purpose) (key addr : string)
| WaitLock (p : Purpose) (key addr : string) (lock : nat)
| Recheck (p : Purpose) (key addr : string) (lock : nat)
| DropStale (p : Purpose) (key addr : string) (lock : nat)
| Connecting (p : Purpose) (key addr : string) (lock : nat)
| Numbering (p : Purpose) (key addr : string) (lock : nat)
| Inserting (p : Purpose) (key addr : string) (lock : nat) (c : WorkerClient)
| Unlock (lock : nat) (r : result unit WorkerClient)
| DropClients (addr : string)
| DropLocks (keys : list string) (addr : string)
| DropCounter (addr : string)
| Returned (r : option (result unit WorkerClient))
| Cancelled.

(** [po_requests] and [po_handshakes] are history: what each caller was asked, and the
    key and generation of every connection made. *)
Record WorkerClientPool : Type := mkPool {
  po_clients : gmap string WorkerClient;
  po_reconnect_locks : gmap string nat;
  po_next_lock : nat;
  po_held : gmap nat nat;
  po_addr_rr : gmap string Z;
  po_next_generation : Z;
  po_callers : nat -> PoolCaller;
  po_requests : nat -> option Request;
  po_handshakes : list (string * Z);
}.

Definition pool_new : WorkerClientPool :=
  mkPool ∅ ∅ 0 ∅ ∅ 1 (fun _ => Idle) (fun _ => None) [].

Definition set_caller (s : WorkerClientPool) (i : nat) (c : PoolCaller) : WorkerClientPool :=
  mkPool (po_clients s) (po_reconnect_locks s) (po_next_lock s) (po_held s) (po_addr_rr s)
    (po_next_generation s) (<[i := c]> (po_callers s)) (po_requests s) (po_handshakes s).

Definition set_request (s : WorkerClientPool) (i : nat) (r : Request) : WorkerClientPool :=
  mkPool (po_clients s) (po_reconnect_locks s) (po_next_lock s) (po_held s) (po_addr_rr s)
    (po_next_generation s) (po_callers s) (<[i := Some r]> (po_requests s)) (po_handshakes s).

Definition set_clients (s : WorkerClientPool) (m : gmap string WorkerClient) : WorkerClientPool :=
  mkPool m (po_reconnect_locks s) (po_next_lock s) (po_held s) (po_addr_rr s)
    (po_next_generation s) (po_callers s) (po_requests s) (po_handshakes s).

Definition set_locks (s : WorkerClientPool) (m : gmap string nat) (next : nat) : WorkerClientPool :=
  mkPool (po_clients s) m next (po_held s) (po_addr_rr s)
    (po_next_generation s) (po_callers s) (po_requests s) (po_handshakes s).

Definition set_held (s : WorkerClientPool) (m : gmap nat nat) : WorkerClientPool :=
  mkPool (po_clients s) (po_reconnect_locks s) (po_next_lock s) m (po_addr_rr s)
    (po_next_generation s) (po_callers s) (po_requests s) (po_handshakes s).

Definition set_rr (s : WorkerClientPool) (m : gmap string Z) : WorkerClientPool :=
  mkPool (po_clients s) (po_reconnect_locks s) (po_next_lock s) (po_held s) m
    (po_next_generation s) (po_callers s) (po_requests s) (po_handshakes s).

(** ** Operations *)

Section Pool.
Context (pool_size : Z).

Definition slot_key (addr : string) (slot : Z) : string :=
  if pool_size <=? 1 then addr else addr +:+ "#" +:+ show_Z slot.

Definition slots : list Z := map Z.of_nat (seq 0 (Z.to_nat pool_size)).

Definition slot_keys (addr : string) : list string := map (slot_key addr) slots.

(** [next_slot]: the slot and the pool with its counter advanced. *)
Definition next_slot (s : WorkerClientPool) (addr : string) : WorkerClientPool * Z :=
  if pool_size <=? 1 then (s, 0)
  else
    let c := default 0 (po_addr_rr s !! addr) in
    (set_rr s (<[addr := c + 1]> (po_addr_rr s)), c mod pool_size).

(** [reconnect_lock_for]. *)
Definition reconnect_lock_for (s : WorkerClientPool) (key : string) : WorkerClientPool * nat :=
  match po_reconnect_locks s !! key with
  | Some l => (s, l)
  | None => let l := po_next_lock s in
            (set_locks s (<[key := l]> (po_reconnect_locks s)) (S l), l)
  end.

Definition insert_client (s : WorkerClientPool) (key : string) (c : WorkerClient) : WorkerClientPool :=
  set_clients s (<[key := c]> (po_clients s)).

Definition remove_client (s : WorkerClientPool) (key : string) : WorkerClientPool :=
  set_clients s (delete key (po_clients s)).

(** [fetch_add] on the generation counter, with the connection recorded. *)
Definition take_generation (s : WorkerClientPool) (key : string) : WorkerClientPool * Z :=
  let g := po_next_generation s in
  (mkPool (po_clients s) (po_reconnect_locks s) (po_next_lock s) (po_held s) (po_addr_rr s)
     (g + 1) (po_callers s) (po_requests s) (po_handshakes s ++ [(key, g)]), g).

(** The client a caller with purpose [p] can use instead of connecting. *)
Definition usable (p : Purpose) (cached : option WorkerClient) : option WorkerClient :=
  match p, cached with
  | ForMiss, _ => cached
  | ForStale g, Some c => if g <? cl_generation c then Some c else None
  | ForStale _, None => None
  end.

(** The slot of [reconnect_if_stale] in a pool of several channels. *)
Definition stale_key (s : WorkerClientPool) (addr : string) (g : Z) : option string :=
  List.find (fun k => match po_clients s !! k with
                      | Some c => cl_generation c =? g
                      | None => false
                      end) (slot_keys addr).

Definition start_call (r : Request) : PoolCaller :=
  match r with
  | Acquire addr => NextSlot ForMiss addr
  | ReconnectIfStale addr g => if pool_size <=? 1 then GetLock (ForStale g) addr addr else Scan addr g
  | Reconnect addr => NextSlot (ForStale u64_max) addr
  | Invalidate addr => DropClients addr
  end.

Inductive Event : Type :=
| Call (r : Request)
| Run (connected : bool)
| Cancel.

(** One step of caller [i].  A caller that waits for a held lock stays where it is. *)
Definition pool_step (s : WorkerClientPool) (i : nat) (e : Event) : WorkerClientPool :=
  match po_callers s i, e with
  | Idle, Call r => set_caller (set_request s i r) i (start_call r)
  | NextSlot p addr, Run _ =>
      let '(s, slot) := next_slot s addr in
      let key := slot_key addr slot in
      set_caller s i (match p with ForMiss => FastPath key addr | ForStale _ => GetLock p key addr end)
  | Scan addr g, Run _ =>
      match stale_key s addr g with
      | Some key => set_caller s i (GetLock (ForStale g) key addr)
      | None => set_caller s i (NextSlot ForMiss addr)
      end
  | FastPath key addr, Run _ =>
      match po_clients s !! key with
      | Some c => set_caller s i (Returned (Some (Ok c)))
      | None => set_caller s i (GetLock ForMiss key addr)
      end
  | GetLock p key addr, Run _ =>
      let '(s, l) := reconnect_lock_for s key in set_caller s i (WaitLock p key addr l)
  | WaitLock p key addr l, Run _ =>
      match po_held s !! l with
      | Some _ => s
      | None => set_caller (set_held s (<[l := i]> (po_held s))) i (Recheck p key addr l)
      end
  | WaitLock _ _ _ _, Cancel => set_caller s i Cancelled
  | Recheck p key addr l, Run _ =>
      match usable p (po_clients s !! key) with
      | Some c => set_caller s i (Unlock l (Ok c))
      | None =>
          set_caller s i (match p with
                          | ForMiss => Connecting p key addr l
                          | ForStale _ => DropStale p key addr l
                          end)
      end
  | DropStale p key addr l, Run _ => set_caller (remove_client s key) i (Connecting p key addr l)
  | Connecting p key addr l, Run true => set_caller s i (Numbering p key addr l)
  | Connecting _ _ _ l, Run false => set_caller s i (Unlock l (Err tt))
  | Connecting _ _ _ l, Cancel => set_caller (set_held s (delete l (po_held s))) i Cancelled
  | Numbering p key addr l, Run _ =>
      let '(s, g) := take_generation s key in
      set_caller s i (Inserting p key addr l (mkWorkerClient addr g))
  | Inserting p key addr l c, Run _ => set_caller (insert_client s key c) i (Unlock l (Ok c))
  | Unlock l r, Run _ => set_caller (set_held s (delete l (po_held s))) i (Returned (Some r))
  | DropClients addr, Run _ =>
      set_caller (set_clients s (foldr delete (po_clients s) (slot_keys addr))) i
        (DropLocks (slot_keys addr) addr)
  | DropLocks (key :: keys) addr, Run _ =>
      set_caller (set_locks s (delete key (po_reconnect_locks s)) (po_next_lock s)) i
        (DropLocks keys addr)
  | DropLocks [] addr, Run _ =>
      set_caller s i (if pool_size <=? 1 then Returned None else DropCounter addr)
  | DropCounter addr, Run _ => set_caller (set_rr s (delete addr (po_addr_rr s))) i (Returned None)
  | _, _ => s
  end.

Definition run_steps (s : WorkerClientPool) (l : list (nat * Event)) : WorkerClientPool :=
  foldl (fun s '(i, e) => pool_step s i e) s l.
End Pool.
