(* ===== verification/WorkerPoolTheorems.v ===== *)
(** * Worker connection pool: theorems

    A caller that reports a stale client never gets that client back; observers of one
    expiry share one connection; no caller is stranded.  An example shows what
    [invalidate] does to the second of these. *)

From stdpp Require Import functions.
From Stdlib Require Import Ascii.
From S2P Require Import Prelude Text WorkerPool.

(** ** Keys *)

Definition no_hash (s : string) : Prop := str_forall (fun c => negb (Ascii.eqb "#"%char c)) s.

Lemma hash_split (a a' x x' : string) :
  no_hash x -> no_hash x' -> a +:+ "#" +:+ x = a' +:+ "#" +:+ x' -> a = a'.
Proof.
  intros Hx Hx'. change ("#" +:+ x) with (String "#" x). change ("#" +:+ x') with (String "#" x').
  revert a'. induction a as [|c a IH]; intros [|c' a'] Heq; [done|..].
  - injection Heq; intros H1 H2; subst. apply str_forall_app in Hx as [_ Hx]. by inversion Hx.
  - injection Heq; intros H1 H2; subst. apply str_forall_app in Hx' as [_ Hx']. by inversion Hx'.
  - injection Heq; intros H1 H2; subst. f_equal. by apply IH.
Qed.

Lemma show_no_hash n : no_hash (show_Z n).
Proof.
  eapply str_forall_weaken; [|apply show_Z_numeral]. intros c Hc.
  destruct (Ascii.eqb "#"%char c) eqn:He; [|done]. apply Ascii.eqb_eq in He as <-. by vm_compute in Hc.
Qed.

Section Theorems.
Context (pool_size : Z).

Abbreviation step := (pool_step pool_size).

Definition key_of (addr key : string) : Prop :=
  exists slot, 0 <= slot < Z.max pool_size 1 /\ key = slot_key pool_size addr slot.

Lemma key_of_inj a a' key : key_of a key -> key_of a' key -> a = a'.
Proof.
  intros (s & _ & ->) (s' & _ & Heq). unfold slot_key in Heq. destruct (pool_size <=? 1); [done|].
  apply hash_split in Heq; [done|apply show_no_hash..].
Qed.

Lemma slot_keys_key_of addr key : 1 < pool_size -> key_of addr key -> key ∈ slot_keys pool_size addr.
Proof.
  intros Hp (slot & Hs & ->). apply list_elem_of_In, in_map, in_map_iff.
  exists (Z.to_nat slot). split; [lia|]. apply in_seq. lia.
Qed.

Lemma key_of_slot_keys addr key : key ∈ slot_keys pool_size addr -> key_of addr key.
Proof.
  intros Hin%list_elem_of_In. apply in_map_iff in Hin as (slot & <- & Hs).
  apply in_map_iff in Hs as (n & <- & Hn%in_seq). exists (Z.of_nat n). split; [lia|done].
Qed.

Lemma next_slot_key s addr :
  key_of addr (slot_key pool_size addr (snd (next_slot pool_size s addr))).
Proof.
  eexists. split; [|done]. unfold next_slot. destruct (Z.leb_spec pool_size 1); cbn; [lia|].
  pose proof (Z.mod_pos_bound (default 0 (po_addr_rr s !! addr)) pool_size). lia.
Qed.

(** ** Runs *)

(** A stale generation is one a call has returned before, or 0. *)
Definition allowed (s : WorkerClientPool) (e : Event) : Prop :=
  match e with
  | Call (ReconnectIfStale _ g) =>
      g = 0 \/ exists j c, po_callers s j = Returned (Some (Ok c)) /\ cl_generation c = g
  | _ => True
  end.

Inductive reachable : WorkerClientPool -> Prop :=
| reach_new : reachable pool_new
| reach_step s i e : reachable s -> allowed s e -> reachable (step s i e).

(** ** Freshness *)

Definition pending (c : PoolCaller) : option WorkerClient :=
  match c with Inserting _ _ _ _ c => Some c | _ => None end.

Definition answer (c : PoolCaller) : option WorkerClient :=
  match c with Unlock _ (Ok c) | Returned (Some (Ok c)) => Some c | _ => None end.

(** What a request promises of the client it returns. *)
Definition answer_ok (req : option Request) (c : WorkerClient) : Prop :=
  match req with
  | Some (Acquire addr) | Some (Reconnect addr) => cl_addr c = addr
  | Some (ReconnectIfStale addr g) =>
      cl_addr c = addr /\ cl_generation c <> g /\ (pool_size <= 1 -> g < cl_generation c)
  | _ => False
  end.

(** A caller with purpose [p] on [addr] is serving its request. *)
Definition serving (s : WorkerClientPool) (req : option Request) (p : Purpose) (addr : string) : Prop :=
  match req with
  | Some (Acquire a) => p = ForMiss /\ a = addr
  | Some (Reconnect a) => p = ForStale u64_max /\ a = addr
  | Some (ReconnectIfStale a g) =>
      a = addr /\ (p = ForStale g \/
        p = ForMiss /\ 1 < pool_size /\
        forall k c, key_of addr k -> po_clients s !! k = Some c -> cl_generation c <> g)
  | _ => False
  end.

Definition caller_ok (s : WorkerClientPool) (req : option Request) (c : PoolCaller) : Prop :=
  match c with
  | NextSlot p addr => serving s req p addr
  | Scan addr g => req = Some (ReconnectIfStale addr g) /\ 1 < pool_size
  | FastPath key addr => key_of addr key /\ serving s req ForMiss addr
  | GetLock p key addr | WaitLock p key addr _ | Recheck p key addr _ | DropStale p key addr _
  | Connecting p key addr _ | Numbering p key addr _ => key_of addr key /\ serving s req p addr
  | Inserting p key addr _ c => key_of addr key /\ cl_addr c = addr /\ answer_ok req c
  | Unlock _ (Ok c) | Returned (Some (Ok c)) => answer_ok req c
  | _ => True
  end.

Definition fresh_for (s : WorkerClientPool) (g : Z) : Prop :=
  forall i c, pending (po_callers s i) = Some c -> cl_generation c <> g.

Record pool_inv (s : WorkerClientPool) : Prop := {
  pi_next : 0 < po_next_generation s;
  pi_clients : forall k c, po_clients s !! k = Some c ->
    cl_generation c < po_next_generation s /\ key_of (cl_addr c) k /\ fresh_for s (cl_generation c);
  pi_pending : forall i j c c', i <> j -> pending (po_callers s i) = Some c ->
    pending (po_callers s j) = Some c' -> cl_generation c <> cl_generation c';
  pi_pending_lt : forall i c, pending (po_callers s i) = Some c ->
    0 < cl_generation c < po_next_generation s;
  pi_answers : forall i c, answer (po_callers s i) = Some c ->
    cl_generation c < po_next_generation s /\ fresh_for s (cl_generation c);
  pi_stale : forall i addr g, po_requests s i = Some (ReconnectIfStale addr g) ->
    g < po_next_generation s /\ fresh_for s g;
  pi_callers : forall i, caller_ok s (po_requests s i) (po_callers s i);
}.

(** What a step of caller [i] to [c] may do to the rest. *)
Record move (s s' : WorkerClientPool) (i : nat) (c : PoolCaller) : Prop := {
  mv_callers : po_callers s' = <[i := c]> (po_callers s);
  mv_requests : po_requests s' = po_requests s;
  mv_next : po_next_generation s <= po_next_generation s';
  mv_clients : forall k c0, po_clients s' !! k = Some c0 ->
    po_clients s !! k = Some c0 \/ pending (po_callers s i) = Some c0 /\ key_of (cl_addr c0) k;
  mv_pending : forall c0, pending c = Some c0 ->
    cl_generation c0 = po_next_generation s /\ po_next_generation s < po_next_generation s';
  mv_answer : forall c0, answer c = Some c0 ->
    answer (po_callers s i) = Some c0 \/ pending (po_callers s i) = Some c0 \/
    exists k, po_clients s !! k = Some c0;
}.

Lemma serving_move s s' i c req p addr :
  move s s' i c -> (forall a g, req = Some (ReconnectIfStale a g) -> fresh_for s g) ->
  serving s req p addr -> serving s' req p addr.
Proof.
  intros Hm Hreq. destruct req as [[a|a g|a|a]|]; cbn; try done. intros [-> [Hp|(Hp & Hsz & Hno)]];
    (split; [done|]); [by left|right]. split; [done|]. split; [done|]. intros k c0 Hk Hc0.
  destruct (mv_clients _ _ _ _ Hm k c0 Hc0) as [Hold|[Hpend _]]; [by apply (Hno k)|].
  by apply (Hreq addr g eq_refl i c0).
Qed.

Lemma move_fresh s s' i c g :
  move s s' i c -> g < po_next_generation s -> fresh_for s g -> fresh_for s' g.
Proof.
  intros Hm Hlt Hf j c0. rewrite (mv_callers _ _ _ _ Hm). destruct (decide (j = i)) as [->|Hne].
  - rewrite fn_lookup_insert. intros [Hg _]%(mv_pending _ _ _ _ Hm). lia.
  - rewrite fn_lookup_insert_ne by done. apply Hf.
Qed.

(** A client that [i] was about to insert is no longer pending for anyone. *)
Lemma move_inserted s s' i c c0 :
  pool_inv s -> move s s' i c -> pending (po_callers s i) = Some c0 -> fresh_for s' (cl_generation c0).
Proof.
  intros Hinv Hm Hp j c1. rewrite (mv_callers _ _ _ _ Hm). destruct (decide (j = i)) as [->|Hne].
  - rewrite fn_lookup_insert. intros [Hg _]%(mv_pending _ _ _ _ Hm).
    pose proof (pi_pending_lt _ Hinv i c0 Hp). lia.
  - rewrite fn_lookup_insert_ne by done. intros Hp1. by apply (pi_pending _ Hinv j i).
Qed.

Lemma pool_inv_move s s' i c :
  pool_inv s -> move s s' i c -> caller_ok s' (po_requests s i) c -> pool_inv s'.
Proof.
  intros Hinv Hm Hok. pose proof Hm as [Hcallers Hreqs Hnext Hclients Hpending Hanswer].
  pose proof (fun g => move_fresh s s' i c g Hm) as Hfresh.
  assert (Hcl : forall k c0, po_clients s !! k = Some c0 ->
    cl_generation c0 < po_next_generation s' /\ key_of (cl_addr c0) k /\ fresh_for s' (cl_generation c0)).
  { intros k c0 Hk. destruct (pi_clients _ Hinv k c0 Hk) as (H1 & H2 & H3). split; [lia|]. auto. }
  assert (Hpe : forall c0, pending (po_callers s i) = Some c0 ->
    cl_generation c0 < po_next_generation s' /\ fresh_for s' (cl_generation c0)).
  { intros c0 Hp. pose proof (pi_pending_lt _ Hinv i c0 Hp). split; [lia|].
    by apply (move_inserted s s' i c c0). }
  split.
  - pose proof (pi_next _ Hinv). lia.
  - intros k c0 Hk. destruct (Hclients k c0 Hk) as [Hold|[Hp Hkey]]; [auto|].
    destruct (Hpe c0 Hp). auto.
  - intros j j' c1 c2 Hne. rewrite Hcallers.
    assert (Hlt : forall a c3, pending (po_callers s a) = Some c3 -> cl_generation c3 < po_next_generation s)
      by (intros a c3 Ha; apply (pi_pending_lt _ Hinv a c3 Ha)).
    destruct (decide (j = i)) as [->|Hj], (decide (j' = i)) as [->|Hj']; [done|..];
      rewrite ?fn_lookup_insert, ?fn_lookup_insert_ne by done.
    + intros [Hg _]%Hpending Hp2%Hlt. lia.
    + intros Hp1%Hlt [Hg _]%Hpending. lia.
    + by apply (pi_pending _ Hinv).
  - intros j c0. rewrite Hcallers. destruct (decide (j = i)) as [->|Hj].
    + rewrite fn_lookup_insert. intros [Hg Hl]%Hpending. pose proof (pi_next _ Hinv). lia.
    + rewrite fn_lookup_insert_ne by done. intros Hp%(pi_pending_lt _ Hinv). lia.
  - intros j c0. rewrite Hcallers.
    assert (Hold : forall a, answer (po_callers s a) = Some c0 ->
      cl_generation c0 < po_next_generation s' /\ fresh_for s' (cl_generation c0)).
    { intros a Ha. destruct (pi_answers _ Hinv a c0 Ha). split; [lia|auto]. }
    destruct (decide (j = i)) as [->|Hj]; [rewrite fn_lookup_insert|rewrite fn_lookup_insert_ne by done; apply Hold].
    intros Ha. destruct (Hanswer c0 Ha) as [Hi|[Hp|[k Hk]]]; [by apply (Hold i)|by apply Hpe|].
    by destruct (Hcl k c0 Hk) as (? & _ & ?).
  - intros j addr g. rewrite Hreqs. intros Hr. destruct (pi_stale _ Hinv j addr g Hr). split; [lia|auto].
  - intros j. rewrite Hcallers, Hreqs. destruct (decide (j = i)) as [->|Hj];
      [by rewrite fn_lookup_insert|rewrite fn_lookup_insert_ne by done].
    pose proof (pi_callers _ Hinv j) as Hj0.
    assert (Hs : forall p addr, serving s (po_requests s j) p addr -> serving s' (po_requests s j) p addr).
    { intros p addr. apply (serving_move s s' i c); [done|]. intros a g Hr. by apply (pi_stale _ Hinv j a g). }
    destruct (po_callers s j) as [| | | | | | | | | | |? []| | | |[[]|]|]; cbn in *; try done; auto; destruct Hj0; auto.
Qed.

(** A step that changes neither clients nor generations, except for removals. *)
Lemma move_quiet s s' i c :
  po_callers s' = <[i := c]> (po_callers s) -> po_requests s' = po_requests s ->
  po_next_generation s' = po_next_generation s -> po_clients s' ⊆ po_clients s ->
  pending c = None ->
  (forall c0, answer c = Some c0 -> answer (po_callers s i) = Some c0 \/
     pending (po_callers s i) = Some c0 \/ exists k, po_clients s !! k = Some c0) ->
  move s s' i c.
Proof.
  intros H1 H2 H3 H4 H5 H6. split; try done; [lia| |by rewrite H5].
  intros k c0 Hk. left. by eapply lookup_weaken.
Qed.

Lemma delete_all_subseteq (m : gmap string WorkerClient) l : foldr delete m l ⊆ m.
Proof. induction l as [|k l IH]; cbn; [done|]. etrans; [apply delete_subseteq|done]. Qed.

Lemma pool_inv_call s i r :
  pool_inv s -> allowed s (Call r) -> po_callers s i = Idle -> pool_inv (set_request s i r) /\
  caller_ok (set_request s i r) (Some r) (start_call pool_size r).
Proof.
  intros Hinv Hall Hi. split.
  - destruct Hinv as [H0 H1 H2 H3 H4 H5 H6]. split; try done; cbn.
    + intros j addr g. destruct (decide (j = i)) as [->|Hne];
        [rewrite fn_lookup_insert|rewrite fn_lookup_insert_ne by done; apply H5].
      intros [= ->]. destruct Hall as [->|(j & c & Hj & <-)].
      * split; [lia|]. intros j c Hp%H3. lia.
      * apply (H4 j). by rewrite Hj.
    + intros j. destruct (decide (j = i)) as [->|Hne];
        [by rewrite Hi|rewrite fn_lookup_insert_ne by done; apply H6].
  - destruct r as [addr|addr g|addr|addr]; cbn; try done.
    destruct (Z.leb_spec pool_size 1); cbn; [|by split].
    split; [|by auto]. exists 0. split; [lia|]. unfold slot_key. by rewrite (proj2 (Z.leb_le _ _)).
Qed.

Lemma usable_some p o c : usable p o = Some c ->
  o = Some c /\ match p with ForMiss => True | ForStale g => g < cl_generation c end.
Proof.
  destruct p as [|g]; cbn; [done|]. destruct o as [c'|]; [|done].
  destruct (Z.ltb_spec g (cl_generation c')); [|done]. by intros [= ->].
Qed.

(** The client found in the cache answers the request. *)
Lemma pool_cached_answer s req p addr key c :
  pool_inv s -> key_of addr key -> serving s req p addr -> po_clients s !! key = Some c ->
  match p with ForMiss => True | ForStale g => g < cl_generation c end -> answer_ok req c.
Proof.
  intros Hinv Hkey Hs Hc Hp. destruct (pi_clients _ Hinv key c Hc) as (_ & Hk & _).
  pose proof (key_of_inj _ _ _ Hk Hkey) as Haddr.
  destruct req as [[a|a g|a|a]|]; cbn in *; try done; [by destruct Hs as [_ ->]| |by destruct Hs as [_ ->]].
  destruct Hs as [-> [->|(-> & Hsz & Hno)]]; (split; [done|]); [split; [lia|done]|].
  split; [by apply (Hno key)|lia].
Qed.

(** So does a client with a new generation. *)
Lemma new_answer s i p addr :
  pool_inv s -> serving s (po_requests s i) p addr ->
  answer_ok (po_requests s i) (mkWorkerClient addr (po_next_generation s)).
Proof.
  intros Hinv Hs. destruct (po_requests s i) as [[a|a g|a|a]|] eqn:Hr; cbn in *; try done;
    [by destruct Hs as [_ ->]| |by destruct Hs as [_ ->]].
  destruct Hs as [-> _]. destruct (pi_stale _ Hinv i addr g Hr). split; [done|]. split; [lia|lia].
Qed.

Lemma stale_key_none s addr g k c :
  stale_key pool_size s addr g = None -> 1 < pool_size -> key_of addr k ->
  po_clients s !! k = Some c -> cl_generation c <> g.
Proof.
  intros Hf Hsz Hk Hc Hg. unfold stale_key in Hf.
  eapply find_none in Hf; [|apply list_elem_of_In, slot_keys_key_of; eassumption].
  cbn in Hf. rewrite Hc in Hf. by apply Z.eqb_neq in Hf.
Qed.

Lemma stale_key_some s addr g k : stale_key pool_size s addr g = Some k -> key_of addr k.
Proof. intros [Hin _]%find_some. by apply key_of_slot_keys, list_elem_of_In. Qed.

(** The caller moves; clients and generations stay, but for removals. *)
Ltac quiet Hinv Hc :=
  eapply (pool_inv_move _ _ _ _ Hinv);
  [eapply move_quiet;
   [reflexivity|reflexivity|reflexivity
   |cbn; first [done|apply delete_subseteq|apply delete_all_subseteq]|reflexivity|cbn; rewrite ?Hc; cbn]
  |cbn].

Lemma pool_inv_step s i e : pool_inv s -> allowed s e -> pool_inv (step s i e).
Proof.
  intros Hinv Hall. pose proof (pi_callers _ Hinv i) as Hi. unfold pool_step.
  destruct (po_callers s i) as [|p addr|addr g|key addr|p key addr|p key addr l|p key addr l|p key addr l
    |p key addr l|p key addr l|p key addr l c|l r|addr|[|k ks] addr|addr|r|] eqn:Hc; destruct e as [r0|b|];
    try exact Hinv; cbn in Hi.
  - destruct (pool_inv_call s i r0 Hinv Hall Hc) as [Hinv' Hok].
    eapply (pool_inv_move _ _ i _ Hinv'); [eapply move_quiet; try done|].
    + destruct r0; cbn; try done. by destruct (_ <=? _).
    + destruct r0; cbn; try done. by destruct (_ <=? _).
    + cbn. by rewrite fn_lookup_insert.
  - pose proof (next_slot_key s addr) as Hkey.
    destruct (next_slot pool_size s addr) as [s1 slot] eqn:Hn. cbn in Hkey.
    assert (Hs1 : po_clients s1 = po_clients s /\ po_requests s1 = po_requests s /\
      po_next_generation s1 = po_next_generation s /\ po_callers s1 = po_callers s).
    { unfold next_slot in Hn. destruct (_ <=? _); by injection Hn as <- _. }
    destruct Hs1 as (E1 & E2 & E3 & E4).
    eapply (pool_inv_move s _ i _ Hinv).
    + eapply move_quiet; cbn; rewrite ?E1, ?E4; try done; by destruct p.
    + rewrite <- E2. destruct p; cbn; (split; [done|]); unfold serving in *; by rewrite ?E2; cbn; rewrite E1.
  - destruct Hi as [Hr Hsz]. destruct (stale_key pool_size s addr g) as [k|] eqn:Hk; quiet Hinv Hc; try done.
    + split; [by eapply stale_key_some|]. rewrite Hr. cbn. auto.
    + rewrite Hr. cbn. split; [done|]. right. split; [done|]. split; [done|].
      intros k c. by apply stale_key_none.
  - destruct Hi as [Hk Hs]. destruct (po_clients s !! key) as [c|] eqn:Hl; quiet Hinv Hc.
    + intros c0 [= <-]. eauto.
    + by apply (pool_cached_answer s _ ForMiss addr key c).
    + done.
    + by split.
  - destruct (reconnect_lock_for s key) as [s1 l] eqn:Hl.
    assert (Hs1 : po_clients s1 = po_clients s /\ po_requests s1 = po_requests s /\
      po_next_generation s1 = po_next_generation s /\ po_callers s1 = po_callers s).
    { unfold reconnect_lock_for in Hl. destruct (_ !! _); by injection Hl as <- _. }
    destruct Hs1 as (E1 & E2 & E3 & E4).
    eapply (pool_inv_move s _ i _ Hinv).
    + eapply move_quiet; cbn; rewrite ?E1, ?E4; done.
    + destruct Hi as [Hk Hs]. split; [done|]. unfold serving in *. cbn. by rewrite E1.
  - destruct (po_held s !! l); [done|]. quiet Hinv Hc; done.
  - quiet Hinv Hc; done.
  - destruct Hi as [Hk Hs]. destruct (usable p (po_clients s !! key)) as [c|] eqn:Hu.
    + apply usable_some in Hu as [Hu Hp]. quiet Hinv Hc.
      * intros c0 [= <-]. eauto.
      * by apply (pool_cached_answer s _ p addr key c).
    + eapply (pool_inv_move s _ i _ Hinv); [eapply move_quiet; try done; by destruct p|].
      destruct p; by split.
  - destruct Hi as [Hk Hs]. quiet Hinv Hc; [done|]. split; [done|].
    destruct (po_requests s i) as [[a|a g|a|a]|]; cbn in *; try done.
    destruct Hs as [-> [->|(-> & Hsz & Hno)]]; (split; [done|]); [by left|right].
    split; [done|]. split; [done|]. intros k c Hk' Hc'. apply (Hno k); [done|].
    by apply lookup_delete_Some in Hc' as [_ ?].
  - destruct b; quiet Hinv Hc; done.
  - quiet Hinv Hc; done.
  - destruct Hi as [Hk Hs]. eapply (pool_inv_move s _ i _ Hinv).
    + split; try done; cbn; [lia|by left|]. intros c0 [= <-]. cbn. lia.
    + cbn. split; [done|]. split; [done|]. by apply (new_answer s i p addr).
  - destruct Hi as (Hk & Ha & Hok). eapply (pool_inv_move s _ i (Unlock l (Ok c)) Hinv); [|exact Hok].
    split; try done; cbn.
    + intros k c0 [[<- <-]|[_ Hc0]]%lookup_insert_Some; [right|by left]. by rewrite Hc, Ha.
    + intros c0 [= <-]. rewrite Hc. auto.
  - quiet Hinv Hc; [|by destruct r]. intros c0 Hr. left. by destruct r.
  - quiet Hinv Hc; done.
  - destruct (_ <=? _); quiet Hinv Hc; done.
  - quiet Hinv Hc; done.
  - quiet Hinv Hc; done.
Qed.

Lemma pool_inv_reachable s : reachable s -> pool_inv s.
Proof.
  induction 1 as [|s i e _ IH Hall]; [|by apply pool_inv_step].
  by split.
Qed.

(** ** Locks *)

(** The lock a caller holds. *)
Definition holds (c : PoolCaller) : option nat :=
  match c with
  | Recheck _ _ _ l | DropStale _ _ _ l | Connecting _ _ _ l | Numbering _ _ _ l
  | Inserting _ _ _ l _ | Unlock l _ => Some l
  | _ => None
  end.

(** The lock map and the callers agree. *)
Definition lock_inv (s : WorkerClientPool) : Prop :=
  forall l i, po_held s !! l = Some i <-> holds (po_callers s i) = Some l.

Lemma lock_inv_same s s' i c :
  lock_inv s -> po_held s' = po_held s -> po_callers s' = <[i := c]> (po_callers s) ->
  holds c = holds (po_callers s i) -> lock_inv s'.
Proof.
  intros Hinv Hh Hc Hsame l j. rewrite Hh, Hc, (Hinv l j). destruct (decide (j = i)) as [->|];
    [by rewrite fn_lookup_insert, Hsame|by rewrite fn_lookup_insert_ne].
Qed.

Lemma lock_inv_take s s' i c l :
  lock_inv s -> po_held s !! l = None -> holds (po_callers s i) = None -> holds c = Some l ->
  po_held s' = <[l := i]> (po_held s) -> po_callers s' = <[i := c]> (po_callers s) -> lock_inv s'.
Proof.
  intros Hinv Hfree Hno Hc Hh Hcs l' j. rewrite Hh, Hcs. destruct (decide (j = i)) as [->|Hj].
  - rewrite fn_lookup_insert, Hc. destruct (decide (l' = l)) as [->|]; [by rewrite lookup_insert_eq|].
    rewrite lookup_insert_ne, (Hinv l' i), Hno by done. split; [done|congruence].
  - rewrite fn_lookup_insert_ne by done. destruct (decide (l' = l)) as [->|].
    + rewrite lookup_insert_eq, <- (Hinv l j), Hfree. split; [congruence|done].
    + by rewrite lookup_insert_ne, (Hinv l' j).
Qed.

Lemma lock_inv_drop s s' i c l :
  lock_inv s -> holds (po_callers s i) = Some l -> holds c = None ->
  po_held s' = delete l (po_held s) -> po_callers s' = <[i := c]> (po_callers s) -> lock_inv s'.
Proof.
  intros Hinv Hi Hc Hh Hcs l' j. rewrite Hh, Hcs. destruct (decide (j = i)) as [->|Hj].
  - rewrite fn_lookup_insert, Hc. split; [|done]. intros [Hne Hl]%lookup_delete_Some.
    apply Hinv in Hl. congruence.
  - rewrite fn_lookup_insert_ne by done. rewrite lookup_delete_Some, (Hinv l' j).
    split; [by intros [_ ?]|]. intros Hl. split; [|done]. intros <-.
    apply Hinv in Hl, Hi. congruence.
Qed.

Lemma lock_inv_step s i e : lock_inv s -> lock_inv (step s i e).
Proof.
  intros Hinv. unfold pool_step.
  destruct (po_callers s i) as [|p addr|addr g|key addr|p key addr|p key addr l|p key addr l|p key addr l
    |p key addr l|p key addr l|p key addr l c|l r|addr|[|k ks] addr|addr|r|] eqn:Hc; destruct e as [r0|b|];
    try exact Hinv.
  - eapply lock_inv_same; [exact Hinv|done|done|]. rewrite Hc. destruct r0; cbn; try done. by destruct (_ <=? _).
  - destruct (next_slot pool_size s addr) as [s1 slot] eqn:Hn.
    assert (Hs1 : po_held s1 = po_held s /\ po_callers s1 = po_callers s)
      by (unfold next_slot in Hn; destruct (_ <=? _); by injection Hn as <- _).
    destruct Hs1 as [E1 E2]. eapply lock_inv_same; [exact Hinv|done|cbn; by rewrite E2|]. rewrite Hc. by destruct p.
  - destruct (stale_key pool_size s addr g); (eapply lock_inv_same; [exact Hinv|done|done|by rewrite Hc]).
  - destruct (po_clients s !! key); (eapply lock_inv_same; [exact Hinv|done|done|by rewrite Hc]).
  - destruct (reconnect_lock_for s key) as [s1 l] eqn:Hn.
    assert (Hs1 : po_held s1 = po_held s /\ po_callers s1 = po_callers s)
      by (unfold reconnect_lock_for in Hn; destruct (_ !! _); by injection Hn as <- _).
    destruct Hs1 as [E1 E2]. eapply lock_inv_same; [exact Hinv|done|cbn; by rewrite E2|by rewrite Hc].
  - destruct (po_held s !! l) eqn:Hl; [done|]. apply (lock_inv_take s _ i (Recheck p key addr l) l); [done|done|by rewrite Hc|done..].
  - eapply lock_inv_same; [exact Hinv|done|done|by rewrite Hc].
  - destruct (usable _ _); (eapply lock_inv_same; [exact Hinv|done|done|rewrite Hc; by destruct p]).
  - eapply lock_inv_same; [exact Hinv|done|done|by rewrite Hc].
  - destruct b; (eapply lock_inv_same; [exact Hinv|done|done|by rewrite Hc]).
  - apply (lock_inv_drop s _ i Cancelled l); [done|by rewrite Hc|done..].
  - eapply lock_inv_same; [exact Hinv|done|done|by rewrite Hc].
  - eapply lock_inv_same; [exact Hinv|done|done|by rewrite Hc].
  - apply (lock_inv_drop s _ i (Returned (Some r)) l); [done|by rewrite Hc|done..].
  - eapply lock_inv_same; [exact Hinv|done|done|by rewrite Hc].
  - eapply lock_inv_same; [exact Hinv|done|done|rewrite Hc; by destruct (_ <=? _)].
  - eapply lock_inv_same; [exact Hinv|done|done|by rewrite Hc].
  - eapply lock_inv_same; [exact Hinv|done|done|by rewrite Hc].
Qed.

Lemma lock_inv_reachable s : reachable s -> lock_inv s.
Proof.
  induction 1 as [|s i e _ IH _]; [|by apply lock_inv_step]. intros l i. cbn. by rewrite lookup_empty.
Qed.

(** ** Progress *)

(** PoolCaller [i] gives up lock [l] and returns within [n] steps of its own. *)
Definition finishes (n : nat) (s : WorkerClientPool) (i l : nat) : Prop :=
  exists m, (m <= n)%nat /\
    let s' := run_steps pool_size s (replicate m (i, Run true)) in
    (exists r, po_callers s' i = Returned (Some r) /\
       (forall e, r = Err e -> exists e', po_callers s i = Unlock l (Err e'))) /\
    po_held s' = delete l (po_held s) /\
    forall j, j <> i -> po_callers s' j = po_callers s j.

Lemma finishes_step n s i l s1 c :
  finishes n s1 i l -> step s i (Run true) = s1 -> po_held s1 = po_held s ->
  po_callers s1 = <[i := c]> (po_callers s) -> (forall e, c <> Unlock l (Err e)) -> finishes (S n) s i l.
Proof.
  intros (m & Hm & (r & Hr & Hok) & Hh & Hj) Hs Hh1 Hc1 Hc. exists (S m). split; [lia|].
  assert (Heq : run_steps pool_size s (replicate (S m) (i, Run true)) =
    run_steps pool_size s1 (replicate m (i, Run true))) by (by rewrite <- Hs).
  cbv zeta. rewrite Heq. split; [|split].
  - exists r. split; [done|]. intros e ->. destruct (Hok e eq_refl) as [e' He'].
    rewrite Hc1, fn_lookup_insert in He'. by destruct (Hc e').
  - by rewrite <- Hh1.
  - intros j Hne. rewrite (Hj j Hne), Hc1. by rewrite fn_lookup_insert_ne.
Qed.

(** The next step of a caller in a critical section. *)
Ltac next_step Hc IH :=
  eapply finishes_step; [eapply IH|unfold pool_step; rewrite Hc; reflexivity|reflexivity|reflexivity|done];
  cbn; by rewrite fn_lookup_insert.

Lemma unlock_finishes s i l r : po_callers s i = Unlock l r -> finishes 1 s i l.
Proof.
  intros Hc. exists 1%nat. split; [lia|]. cbn. unfold pool_step. rewrite Hc. cbn.
  split; [|split; [done|]].
  - exists r. rewrite fn_lookup_insert. split; [done|]. intros e ->. eauto.
  - intros j Hne. by rewrite fn_lookup_insert_ne.
Qed.

Lemma inserting_finishes s i p key addr l c :
  po_callers s i = Inserting p key addr l c -> finishes 2 s i l.
Proof. intros Hc. next_step Hc unlock_finishes. Qed.

Lemma numbering_finishes s i p key addr l : po_callers s i = Numbering p key addr l -> finishes 3 s i l.
Proof. intros Hc. next_step Hc inserting_finishes. Qed.

Lemma connecting_finishes s i p key addr l : po_callers s i = Connecting p key addr l -> finishes 4 s i l.
Proof. intros Hc. next_step Hc numbering_finishes. Qed.

Lemma drop_stale_finishes s i p key addr l : po_callers s i = DropStale p key addr l -> finishes 5 s i l.
Proof. intros Hc. next_step Hc connecting_finishes. Qed.

Lemma finishes_weaken n m s i l : (n <= m)%nat -> finishes n s i l -> finishes m s i l.
Proof. intros Hle (k & Hk & H). exists k. split; [lia|done]. Qed.

Lemma recheck_finishes s i p key addr l : po_callers s i = Recheck p key addr l -> finishes 6 s i l.
Proof.
  intros Hc. destruct (usable p (po_clients s !! key)) as [c|] eqn:Hu.
  - apply (finishes_weaken 2); [lia|].
    eapply finishes_step; [eapply unlock_finishes|unfold pool_step; rewrite Hc, Hu; reflexivity
      |reflexivity|reflexivity|done]. cbn. by rewrite fn_lookup_insert.
  - destruct p as [|g].
    + apply (finishes_weaken 5); [lia|].
      eapply finishes_step; [eapply connecting_finishes|unfold pool_step; rewrite Hc, Hu; reflexivity
        |reflexivity|reflexivity|done]. cbn. by rewrite fn_lookup_insert.
    + eapply finishes_step; [eapply drop_stale_finishes|unfold pool_step; rewrite Hc, Hu; reflexivity
        |reflexivity|reflexivity|done]. cbn. by rewrite fn_lookup_insert.
Qed.

Lemma holder_finishes s i l : holds (po_callers s i) = Some l -> finishes 6 s i l.
Proof.
  destruct (po_callers s i) eqn:Hc; try done; intros [= ->].
  - by eapply recheck_finishes.
  - apply (finishes_weaken 5); [lia|]. by eapply drop_stale_finishes.
  - apply (finishes_weaken 4); [lia|]. by eapply connecting_finishes.
  - apply (finishes_weaken 3); [lia|]. by eapply numbering_finishes.
  - apply (finishes_weaken 2); [lia|]. by eapply inserting_finishes.
  - apply (finishes_weaken 1); [lia|]. by eapply unlock_finishes.
Qed.

Lemma run_steps_app s l1 l2 :
  run_steps pool_size s (l1 ++ l2) = run_steps pool_size (run_steps pool_size s l1) l2.
Proof. apply foldl_app. Qed.

(** A waiting caller whose lock is free. *)
Lemma waiter_served s i p key addr l :
  po_callers s i = WaitLock p key addr l -> po_held s !! l = None ->
  exists m c, (m <= 7)%nat /\
    po_callers (run_steps pool_size s (replicate m (i, Run true))) i = Returned (Some (Ok c)).
Proof.
  intros Hc Hfree. set (s1 := step s i (Run true)).
  assert (H1 : po_callers s1 i = Recheck p key addr l).
  { unfold s1, pool_step. rewrite Hc, Hfree. cbn. by rewrite fn_lookup_insert. }
  destruct (recheck_finishes s1 i p key addr l H1) as (m & Hm & (r & Hr & Hok) & _).
  destruct r as [c|e]; [|destruct (Hok e eq_refl) as [e' He']; congruence].
  exists (S m), c. split; [lia|]. exact Hr.
Qed.
End Theorems.

(** ** One expiry *)

Section Flight.
Context (pool_size : Z) (addr : string) (g n : Z).
Context (Hsize : pool_size <= 1) (Hgn : g < n).

(** A pool whose one client has expired; nobody has noticed yet. *)
Definition expired_pool : WorkerClientPool :=
  mkPool {[addr := mkWorkerClient addr g]} ∅ 0 ∅ ∅ n (fun _ => Idle) (fun _ => None) [].

(** Callers that saw the expired client fail. *)
Definition observing (e : Event) : bool :=
  match e with
  | Call (ReconnectIfStale a h) => bool_decide (a = addr) && bool_decide (h = g)
  | Call _ => false
  | _ => true
  end.

Abbreviation renewed := (mkWorkerClient addr n).

Definition observer (lock : option nat) (c : PoolCaller) : Prop :=
  match c with
  | Idle | Cancelled => True
  | GetLock p k a => p = ForStale g /\ k = addr /\ a = addr
  | WaitLock p k a l | Recheck p k a l | DropStale p k a l | Connecting p k a l | Numbering p k a l =>
      p = ForStale g /\ k = addr /\ a = addr /\ lock = Some l
  | Inserting p k a l c => p = ForStale g /\ k = addr /\ a = addr /\ lock = Some l /\ c = renewed
  | Unlock l r => lock = Some l /\ forall c, r = Ok c -> c = renewed
  | Returned (Some r) => forall c, r = Ok c -> c = renewed
  | _ => False
  end.

(** Past the check of its critical section, on the way to a new client. *)
Definition working (c : PoolCaller) : bool :=
  match c with
  | DropStale _ _ _ _ | Connecting _ _ _ _ | Numbering _ _ _ _ | Inserting _ _ _ _ _ => true
  | _ => false
  end.

Inductive phase (s : WorkerClientPool) : Prop :=
| Before : po_handshakes s = [] -> po_next_generation s = n ->
    (forall c, po_clients s !! addr = Some c -> cl_generation c = g) ->
    (forall i, pending (po_callers s i) = None) -> phase s
| Making i : po_handshakes s = [(addr, n)] -> is_Some (pending (po_callers s i)) -> phase s
| After : po_handshakes s = [(addr, n)] -> po_clients s !! addr = Some renewed ->
    (forall i, working (po_callers s i) = false) -> phase s.

Record flight_inv (s : WorkerClientPool) : Prop := {
  fi_locks : lock_inv s;
  fi_callers : forall i, observer (po_reconnect_locks s !! addr) (po_callers s i);
  fi_phase : phase s;
}.

(** All observers share the lock of the channel. *)
Lemma working_unique s i j :
  flight_inv s -> working (po_callers s i) = true -> is_Some (holds (po_callers s j)) -> i = j.
Proof.
  intros [Hl Hc _] Hi [l Hj].
  assert (Hlock : forall k l', holds (po_callers s k) = Some l' -> po_reconnect_locks s !! addr = Some l').
  { intros k l' Hk. specialize (Hc k). destruct (po_callers s k); try done; injection Hk as ->; cbn in Hc; tauto. }
  assert (Hli : exists l', holds (po_callers s i) = Some l') by (destruct (po_callers s i); eauto; done).
  destruct Hli as [l' Hli]. pose proof (Hlock i l' Hli) as E1. pose proof (Hlock j l Hj) as E2.
  apply Hl in Hli, Hj. congruence.
Qed.

(** A step of caller [i] that touches neither clients nor handshakes. *)
Lemma flight_move s s' i c :
  flight_inv s -> lock_inv s' -> po_callers s' = <[i := c]> (po_callers s) ->
  po_reconnect_locks s' !! addr = po_reconnect_locks s !! addr \/ po_reconnect_locks s !! addr = None ->
  observer (po_reconnect_locks s' !! addr) c -> phase s' -> flight_inv s'.
Proof.
  intros [Hl Hc Hp] Hl' Hcs Hlock Hobs Hp'. split; [done| |done]. intros j. rewrite Hcs.
  destruct (decide (j = i)) as [->|Hj]; [by rewrite fn_lookup_insert|rewrite fn_lookup_insert_ne by done].
  specialize (Hc j). destruct Hlock as [-> | Hnone]; [done|]. rewrite Hnone in Hc.
  destruct (po_callers s j); cbn in *; try done; destruct Hc as (? & ?); destruct_and?; done.
Qed.

(** The phase does not change when a caller moves without touching the pool. *)
Lemma phase_move s s' i c :
  phase s -> po_callers s' = <[i := c]> (po_callers s) -> po_handshakes s' = po_handshakes s ->
  po_next_generation s' = po_next_generation s ->
  (po_clients s' = po_clients s \/ po_clients s' = delete addr (po_clients s) /\ working (po_callers s i) = true) ->
  pending c = None -> pending (po_callers s i) = None ->
  (working c = true -> working (po_callers s i) = true \/ po_handshakes s = []) -> phase s'.
Proof.
  intros Hp Hcs Hh Hn Hcl Hpc Hpi Hw. destruct Hp as [H1 H2 H3 H4|j H1 H2|H1 H2 H3].
  - apply Before; [congruence|congruence| |].
    + intros c0. destruct Hcl as [-> |[-> _]]; [apply H3|]. by rewrite lookup_delete_eq.
    + intros k. rewrite Hcs. destruct (decide (k = i)) as [->|]; [by rewrite fn_lookup_insert|].
      by rewrite fn_lookup_insert_ne.
  - apply (Making _ j); [congruence|]. rewrite Hcs. destruct (decide (j = i)) as [->|].
    + rewrite Hpi in H2. by destruct H2.
    + by rewrite fn_lookup_insert_ne.
  - apply After; [congruence| |].
    + destruct Hcl as [-> |[_ Hbad]]; [done|]. by rewrite H3 in Hbad.
    + intros k. rewrite Hcs. destruct (decide (k = i)) as [->|]; [rewrite fn_lookup_insert|by rewrite fn_lookup_insert_ne].
      destruct (working c); [|done]. destruct (Hw eq_refl) as [Hb|Hb]; [by rewrite H3 in Hb|congruence].
Qed.

(** A move that leaves clients, locks and handshakes alone. *)
Ltac quiet_flight Hinv Hc Hl' :=
  eapply (flight_move _ _ _ _ Hinv Hl'); [reflexivity|by left|cbn|
    eapply (phase_move _ _ _ _ (fi_phase _ Hinv)); [reflexivity|reflexivity|reflexivity|by left|reflexivity
      |by rewrite Hc|rewrite ?Hc; cbn; auto]].

Lemma flight_step s i e : flight_inv s -> observing e = true -> flight_inv (pool_step pool_size s i e).
Proof.
  intros Hinv He. pose proof (lock_inv_step pool_size s i e (fi_locks _ Hinv)) as Hl'.
  pose proof (fi_callers _ Hinv i) as Hi. unfold pool_step in *.
  destruct (po_callers s i) as [|p a|a h|k a|p k a|p k a l|p k a l|p k a l
    |p k a l|p k a l|p k a l c|l r|a|ks a|a|r|] eqn:Hc; destruct e as [r0|b|];
    try exact Hinv; try done; cbn in Hi.
  - destruct r0 as [|a h| |]; try done. cbn in He. apply andb_true_iff in He as [Ea Eh].
    apply bool_decide_eq_true in Ea as ->. apply bool_decide_eq_true in Eh as ->.
    assert (Hstart : start_call pool_size (ReconnectIfStale addr g) = GetLock (ForStale g) addr addr)
      by (cbn; by rewrite (proj2 (Z.leb_le _ _))).
    rewrite Hstart in *. quiet_flight Hinv Hc Hl'. done.
  - destruct Hi as (-> & -> & ->). unfold reconnect_lock_for in *.
    destruct (po_reconnect_locks s !! addr) as [l|] eqn:Hlk; [quiet_flight Hinv Hc Hl'; done|].
    eapply (flight_move _ _ _ _ Hinv Hl'); [reflexivity|by right|cbn; by rewrite lookup_insert_eq|].
    eapply (phase_move _ _ _ _ (fi_phase _ Hinv)); try reflexivity; rewrite ?Hc; cbn; auto.
  - destruct (po_held s !! l); [done|]. quiet_flight Hinv Hc Hl'; done.
  - quiet_flight Hinv Hc Hl'; done.
  - destruct Hi as (-> & -> & -> & Hlk). destruct (fi_phase _ Hinv) as [H1 H2 H3 H4|j H1 H2|H1 H2 H3].
    + assert (Hu : usable (ForStale g) (po_clients s !! addr) = None).
      { cbn. destruct (po_clients s !! addr) as [c|] eqn:Hk; [|done].
        rewrite (H3 c eq_refl). by rewrite Z.ltb_irrefl. }
      rewrite Hu in *. quiet_flight Hinv Hc Hl'; done.
    + exfalso. assert (Hw : working (po_callers s j) = true)
        by (destruct H2 as [c Hp]; by destruct (po_callers s j)).
      assert (j = i) as -> by (apply (working_unique s j i Hinv Hw); by rewrite Hc). by rewrite Hc in Hw.
    + rewrite H2 in *. cbn [usable cl_generation] in *. rewrite (proj2 (Z.ltb_lt _ _) Hgn) in *.
      quiet_flight Hinv Hc Hl'. split; [done|]. by intros c [= <-].
  - eapply (flight_move _ _ _ _ Hinv Hl'); [reflexivity|by left|done|].
    destruct Hi as (-> & -> & -> & Hlk).
    eapply (phase_move _ _ _ _ (fi_phase _ Hinv)); try reflexivity; rewrite ?Hc; cbn; auto.
  - destruct b; quiet_flight Hinv Hc Hl'; try done. split; [by destruct_and!|done].
  - quiet_flight Hinv Hc Hl'; done.
  - destruct Hi as (-> & -> & -> & Hlk). destruct (fi_phase _ Hinv) as [H1 H2 H3 H4|j H1 H2|H1 H2 H3].
    + eapply (flight_move _ _ _ _ Hinv Hl'); [reflexivity|by left|cbn; by rewrite H2|].
      apply (Making _ i); cbn; [by rewrite H1, H2|]. by rewrite fn_lookup_insert.
    + exfalso. assert (Hw : working (po_callers s j) = true)
        by (destruct H2 as [c Hp]; by destruct (po_callers s j)).
      assert (j = i) as -> by (apply (working_unique s j i Hinv Hw); by rewrite Hc).
      rewrite Hc in H2. by destruct H2.
    + specialize (H3 i). by rewrite Hc in H3.
  - destruct Hi as (-> & -> & -> & Hlk & ->). eapply (flight_move _ _ _ _ Hinv Hl'); [reflexivity|by left| |].
    + cbn. split; [done|]. by intros c [= <-].
    + destruct (fi_phase _ Hinv) as [H1 H2 H3 H4|j H1 H2|H1 H2 H3].
      * specialize (H4 i). by rewrite Hc in H4.
      * apply After; cbn; [done|by rewrite lookup_insert_eq|]. intros j'.
        destruct (decide (j' = i)) as [->|Hne]; [by rewrite fn_lookup_insert|rewrite fn_lookup_insert_ne by done].
        destruct (working (po_callers s j')) eqn:Hw; [|done]. exfalso. apply Hne.
        apply (working_unique s j' i Hinv Hw). by rewrite Hc.
      * specialize (H3 i). by rewrite Hc in H3.
  - quiet_flight Hinv Hc Hl'. by destruct Hi.
Qed.

Lemma flight_run l :
  forallb (fun p => observing (snd p)) l = true -> flight_inv (run_steps pool_size expired_pool l).
Proof.
  assert (Hinit : flight_inv expired_pool).
  { split; [|done|].
    - intros l' j. cbn. by rewrite lookup_empty.
    - apply Before; cbn; try done. intros c. rewrite lookup_singleton_eq. by intros [= <-]. }
  revert Hinit. generalize expired_pool. induction l as [|[i e] l IH]; intros s Hs Hl; [done|].
  cbn in *. apply andb_true_iff in Hl as [He Hl]. apply IH; [by apply flight_step|done].
Qed.
End Flight.

(** ** Theorems *)

(** C16. A stale client is never handed back.  In every reachable state of the pool, with
    any interleaving, failures, cancellations and invalidations, a client returned to
    a caller is connected to the address it asked for; and one returned by
    [reconnect_if_stale] is not the client whose generation was reported as stale, and
    is newer than it in a pool with one channel per worker. *)
Theorem pool_returns_fresh_client pool_size s i req c :
  reachable pool_size s -> po_requests s i = Some req -> po_callers s i = Returned (Some (Ok c)) ->
  match req with
  | Acquire addr | Reconnect addr => cl_addr c = addr
  | ReconnectIfStale addr g =>
      cl_addr c = addr /\ cl_generation c <> g /\ (pool_size <= 1 -> g < cl_generation c)
  | Invalidate _ => False
  end.
Proof.
  intros Hs Hr Hc. pose proof (pi_callers _ _ (pool_inv_reachable _ _ Hs) i) as Hi.
  rewrite Hr, Hc in Hi. by destruct req.
Qed.

(** No caller is stranded.  In every reachable state a caller that waits for the lock
    of its channel can be given a client within 13 steps: whoever holds the lock can
    always finish, and the lock is then free. *)
Theorem pool_never_strands pool_size s i p key addr l :
  reachable pool_size s -> po_callers s i = WaitLock p key addr l ->
  exists sched c, (length sched <= 13)%nat /\
    po_callers (run_steps pool_size s sched) i = Returned (Some (Ok c)).
Proof.
  intros Hs Hc. destruct (po_held s !! l) as [j|] eqn:Hl.
  - pose proof (proj1 (lock_inv_reachable _ _ Hs l j) Hl) as Hj.
    assert (Hne : i <> j) by (intros ->; by rewrite Hc in Hj).
    destruct (holder_finishes pool_size s j l Hj) as (m & Hm & _ & Hh & Hothers).
    set (s1 := run_steps pool_size s (replicate m (j, Run true))) in *.
    destruct (waiter_served pool_size s1 i p key addr l) as (m2 & c & Hm2 & Hr);
      [by rewrite Hothers|by rewrite Hh, lookup_delete_eq|].
    exists (replicate m (j, Run true) ++ replicate m2 (i, Run true)), c.
    split; [rewrite length_app, !length_replicate; lia|]. by rewrite run_steps_app.
  - destruct (waiter_served pool_size s i p key addr l Hc Hl) as (m & c & Hm & Hr).
    exists (replicate m (i, Run true)), c. split; [rewrite length_replicate; lia|done].
Qed.


(** ** Witnesses and examples *)

Definition runs (i k : nat) : list (nat * Event) := replicate k (i, Run true).

(** PoolCaller 0 connects; callers 1 and 2 report its client as stale, and wait in turn. *)
Definition renewal : list (nat * Event) :=
  (0%nat, Call (Acquire "w:1")) :: runs 0 9 ++
  (1%nat, Call (ReconnectIfStale "w:1" 1)) :: runs 1 4 ++
  (2%nat, Call (ReconnectIfStale "w:1" 1)) :: runs 2 2.

Definition allowedb (s : WorkerClientPool) (e : Event) : bool :=
  match e with
  | Call (ReconnectIfStale _ g) =>
      existsb (fun j => match po_callers s j with
                        | Returned (Some (Ok c)) => cl_generation c =? g
                        | _ => false
                        end) (List.seq 0 4)
  | _ => true
  end.

Fixpoint schedule_ok (pool_size : Z) (s : WorkerClientPool) (l : list (nat * Event)) : bool :=
  match l with
  | [] => true
  | (i, e) :: l => allowedb s e && schedule_ok pool_size (pool_step pool_size s i e) l
  end.

Lemma allowedb_allowed s e : allowedb s e = true -> allowed s e.
Proof.
  destruct e as [[]| |]; [done| |done..]. intros (j & _ & Hj)%existsb_exists. right. exists j.
  destruct (po_callers s j) as [| | | | | | | | | | | | | | |[[c|]|]|]; try done.
  exists c. split; [done|lia].
Qed.

Lemma reachable_schedule pool_size l : forall s,
  reachable pool_size s -> schedule_ok pool_size s l = true -> reachable pool_size (run_steps pool_size s l).
Proof.
  induction l as [|[i e] l IH]; intros s Hs Hl; [done|]. cbn in *. apply andb_true_iff in Hl as [He Hl].
  apply IH; [|done]. apply reach_step; [done|]. by apply allowedb_allowed.
Qed.

Lemma pool_returns_fresh_client_witness :
  let s := run_steps 1 pool_new (renewal ++ runs 1 4 ++ runs 2 3) in
  po_callers s 2 = Returned (Some (Ok (mkWorkerClient "w:1" 2))) /\ (1 <= 1 -> 1 < 2).
Proof.
  split; [reflexivity|].
  apply (pool_returns_fresh_client 1 (run_steps 1 pool_new (renewal ++ runs 1 4 ++ runs 2 3)) 2
           (ReconnectIfStale "w:1" 1) (mkWorkerClient "w:1" 2)); [|reflexivity..].
  apply reachable_schedule; [constructor|reflexivity].
Defined.

Lemma pool_never_strands_witness :
  exists sched c, (length sched <= 13)%nat /\
    po_callers (run_steps 1 (run_steps 1 pool_new renewal) sched) 2 = Returned (Some (Ok c)).
Proof.
  apply (pool_never_strands 1 (run_steps 1 pool_new renewal) 2 (ForStale 1) "w:1" "w:1" 0); [|reflexivity].
  apply reachable_schedule; [constructor|reflexivity].
Defined.


(** PoolCaller 3 invalidates the worker while caller 1 reconnects it; caller 2 then takes a
    new lock, reconnects too, and is overtaken when it stores its client. *)
Definition invalidated_renewal : list (nat * Event) :=
  (0%nat, Call (Acquire "w:1")) :: runs 0 9 ++
  (1%nat, Call (ReconnectIfStale "w:1" 1)) :: runs 1 4 ++
  (3%nat, Call (Invalidate "w:1")) :: runs 3 3 ++
  (2%nat, Call (ReconnectIfStale "w:1" 1)) :: runs 2 4 ++
  runs 1 2 ++ runs 2 4 ++ runs 1 2.

(** The generation comparison does not serialise handshakes across an [invalidate].
    Two callers that report the same stale client both connect, get different clients,
    and the older of them ends up in the pool. *)
Theorem invalidate_splits_handshake :
  let s := run_steps 1 pool_new invalidated_renewal in
  reachable 1 s /\
  po_callers s 1 = Returned (Some (Ok (mkWorkerClient "w:1" 2))) /\
  po_callers s 2 = Returned (Some (Ok (mkWorkerClient "w:1" 3))) /\
  po_clients s !! "w:1" = Some (mkWorkerClient "w:1" 2) /\
  length (po_handshakes s) = 3%nat.
Proof.
  split; [apply reachable_schedule; [constructor|reflexivity]|]. repeat split; reflexivity.
Qed.

(** Two [reconnect] calls that meet on the lock of one channel make a handshake each. *)
Example reconnects_do_not_coalesce :
  let s := run_steps 1 pool_new
             ((0%nat, Call (Reconnect "w:1")) :: runs 0 4 ++
              (1%nat, Call (Reconnect "w:1")) :: runs 1 3 ++ runs 0 5 ++ runs 1 7) in
  po_callers s 0 = Returned (Some (Ok (mkWorkerClient "w:1" 1))) /\
  po_callers s 1 = Returned (Some (Ok (mkWorkerClient "w:1" 2))).
Proof. vm_compute. split; reflexivity. Qed.
