(* ===== verification/BlockReader.v ===== *)
(** * Block reader (src/src/io/reader.rs)

    One block stream: frames from the worker, flow-control acknowledgements, the
    short-read guard.  The frames are an input; the outcome of each non-blocking
    send of an acknowledgement is one too.  Byte counts are sums of buffer lengths,
    far below [i64::MAX].  Metrics and logs are not modelled. *)

From S2P Require Import Prelude Text Errors.

(** [ReadResponse]: an optional chunk with optional data. *)
Abbreviation ReadResponse := (option (option bytes)).

(** What the next frame of a stream is: a response, the server's half-close, or an
    error. *)
Inductive StreamItem : Type :=
| ItemData (resp : ReadResponse)
| ItemEnd
| ItemError (e : Error).

(** [Direct]: the gRPC stream itself, which reports its end again when asked after
    it.  [Buffered]: the channel of the drain task; empty, it was closed. *)
Inductive ChunkSource : Type :=
| Direct (stream : list StreamItem)
| Buffered (rx : list StreamItem).

(** The background task: forwards frames up to the end or the first error. *)
Fixpoint drain (stream : list StreamItem) : list StreamItem :=
  match stream with
  | [] => [ItemEnd]
  | ItemData resp :: stream => ItemData resp :: drain stream
  | ItemEnd :: _ => [ItemEnd]
  | ItemError e :: _ => [ItemError e]
  end.

(** The channel as the consumer finds it: a task that panics or is aborted leaves
    only the frames it had forwarded. *)
Definition drain_task (stream : list StreamItem) (aborted : option nat) : list StreamItem :=
  match aborted with
  | None => drain stream
  | Some n => take n (drain stream)
  end.

Inductive ChunkAction : Type :=
| Eof
| KeepReading
| Deliver (data : bytes).

Definition classify_response (resp : option ReadResponse) : ChunkAction :=
  match resp with
  | None => Eof
  | Some r =>
      match default [] (mjoin r) with
      | [] => KeepReading
      | data => Deliver data
      end
  end.

Definition check_positioned_read_complete (block_id bytes_received length : Z)
  : result Error unit :=
  if bytes_received <? length then
    Err (Internal
      ("short positioned read on block " +:+ show_Z block_id +:+ ": received "
       +:+ show_Z bytes_received +:+ " of " +:+ show_Z length
       +:+ " bytes (server half-closed early)") None)
  else Ok tt.

Definition should_send_ack (bytes_since_last_ack chunks_since_last_ack ack_interval_bytes
    ack_interval_chunks bytes_received length : Z) : bool :=
  (ack_interval_bytes <=? bytes_since_last_ack)
  || (ack_interval_chunks <=? chunks_since_last_ack)
  || (length <=? bytes_received).

(** The outcome of [try_send]. *)
Inductive SendOutcome : Type := SendOk | SendFull | SendClosed.

(** [gr_request_open]: the client half of the stream is open; [gr_acks] are the
    offsets acknowledged on it so far, latest first. *)
Record GrpcBlockReader : Type := mkGrpcBlockReader {
  gr_block_id : Z;
  gr_offset : Z;
  gr_length : Z;
  gr_bytes_received : Z;
  gr_request_open : bool;
  gr_source : ChunkSource;
  gr_bytes_since_last_ack : Z;
  gr_chunks_since_last_ack : Z;
  gr_ack_interval_bytes : Z;
  gr_ack_interval_chunks : Z;
  gr_acks : list Z;
}.

Definition reader_open (block_id offset length : Z) (stream : list StreamItem)
  : GrpcBlockReader :=
  mkGrpcBlockReader block_id offset length 0 true (Direct stream) 0 0 0 1 [].

Record ReadTuning : Type := mkReadTuning {
  rt_prefetch_window : Z;
  rt_buffer_messages : Z;
  rt_ack_interval_bytes : Z;
  rt_ack_interval_chunks : Z;
}.

Definition tuning_from_config (prefetch_window buffer_messages ack_bytes ack_chunks : Z)
  : ReadTuning :=
  mkReadTuning prefetch_window (Z.max buffer_messages 1) (Z.max ack_bytes 0) (Z.max ack_chunks 1).

Definition open_sequential (block_id offset length : Z) (tuning : ReadTuning)
    (stream : list StreamItem) (aborted : option nat) : GrpcBlockReader :=
  mkGrpcBlockReader block_id offset length 0 true (Buffered (drain_task stream aborted)) 0 0
    (rt_ack_interval_bytes tuning) (rt_ack_interval_chunks tuning) [].

Definition half_close (r : GrpcBlockReader) : GrpcBlockReader :=
  mkGrpcBlockReader (gr_block_id r) (gr_offset r) (gr_length r) (gr_bytes_received r) false
    (gr_source r) (gr_bytes_since_last_ack r) (gr_chunks_since_last_ack r)
    (gr_ack_interval_bytes r) (gr_ack_interval_chunks r) (gr_acks r).

Definition set_source (r : GrpcBlockReader) (src : ChunkSource) : GrpcBlockReader :=
  mkGrpcBlockReader (gr_block_id r) (gr_offset r) (gr_length r) (gr_bytes_received r)
    (gr_request_open r) src (gr_bytes_since_last_ack r) (gr_chunks_since_last_ack r)
    (gr_ack_interval_bytes r) (gr_ack_interval_chunks r) (gr_acks r).

Definition receive (r : GrpcBlockReader) (len : Z) : GrpcBlockReader :=
  mkGrpcBlockReader (gr_block_id r) (gr_offset r) (gr_length r) (gr_bytes_received r + len)
    (gr_request_open r) (gr_source r) (gr_bytes_since_last_ack r) (gr_chunks_since_last_ack r)
    (gr_ack_interval_bytes r) (gr_ack_interval_chunks r) (gr_acks r).

Definition set_ack (r : GrpcBlockReader) (bytes chunks : Z) (acks : list Z) : GrpcBlockReader :=
  mkGrpcBlockReader (gr_block_id r) (gr_offset r) (gr_length r) (gr_bytes_received r)
    (gr_request_open r) (gr_source r) bytes chunks
    (gr_ack_interval_bytes r) (gr_ack_interval_chunks r) acks.

Definition maybe_send_ack (r : GrpcBlockReader) (delta : Z) (try_send : SendOutcome)
  : GrpcBlockReader :=
  let bytes := gr_bytes_since_last_ack r + delta in
  let chunks := gr_chunks_since_last_ack r + 1 in
  let r := set_ack r bytes chunks (gr_acks r) in
  if negb (should_send_ack bytes chunks (gr_ack_interval_bytes r) (gr_ack_interval_chunks r)
             (gr_bytes_received r) (gr_length r)) then r
  else if negb (gr_request_open r) then r
  else
    match try_send with
    | SendOk => set_ack r 0 0 (gr_offset r + gr_bytes_received r :: gr_acks r)
    | SendFull | SendClosed => r
    end.

Definition drained_message (r : GrpcBlockReader) : string :=
  "read stream drain task ended unexpectedly on block " +:+ show_Z (gr_block_id r) +:+ " ("
  +:+ show_Z (gr_bytes_received r) +:+ " of " +:+ show_Z (gr_length r) +:+ " bytes received)".

(** The frame loop: empty frames are skipped.  Returns the frames left. *)
Fixpoint next_data (frames : list StreamItem) (at_end : result Error (option bytes))
  : list StreamItem * result Error (option bytes) :=
  match frames with
  | [] => ([], at_end)
  | ItemEnd :: frames => (frames, Ok None)
  | ItemError e :: frames => (frames, Err e)
  | ItemData resp :: frames =>
      match classify_response (Some resp) with
      | Deliver data => (frames, Ok (Some data))
      | _ => next_data frames at_end
      end
  end.

Definition read_chunk (r : GrpcBlockReader) (try_send : SendOutcome)
  : GrpcBlockReader * result Error (option bytes) :=
  if gr_length r <=? gr_bytes_received r then (half_close r, Ok None)
  else
    let '(src, item) :=
      match gr_source r with
      | Direct stream => let '(s, i) := next_data stream (Ok None) in (Direct s, i)
      | Buffered rx =>
          let '(s, i) := next_data rx (Err (Internal (drained_message r) None)) in (Buffered s, i)
      end in
    let r := set_source r src in
    match item with
    | Ok (Some data) =>
        let r := maybe_send_ack (receive r (zlen data)) (zlen data) try_send in
        let r := if gr_length r <=? gr_bytes_received r then half_close r else r in
        (r, Ok (Some data))
    | Ok None => (r, Ok None)
    | Err e => (r, Err e)
    end.

Definition is_complete (r : GrpcBlockReader) : bool := gr_length r <=? gr_bytes_received r.

(** Each delivered chunk consumes a frame, so the frames bound the calls. *)
Definition frames_left (r : GrpcBlockReader) : nat :=
  match gr_source r with Direct s | Buffered s => length s end.

(** The [while let] loop of [read_all]; [None] when the fuel runs out.  The sends of
    the acknowledgements are given in order. *)
Fixpoint read_all_loop (fuel : nat) (r : GrpcBlockReader) (sends : nat -> SendOutcome) (buf : bytes)
  : option (GrpcBlockReader * result Error bytes) :=
  match fuel with
  | O => None
  | S fuel =>
      match read_chunk r (sends fuel) with
      | (r, Err e) => Some (r, Err e)
      | (r, Ok None) => Some (r, Ok buf)
      | (r, Ok (Some chunk)) => read_all_loop fuel r sends (buf ++ chunk)
      end
  end.

Definition reader_read_all (r : GrpcBlockReader) (sends : nat -> SendOutcome)
  : option (GrpcBlockReader * result Error bytes) :=
  '(r, out) ← read_all_loop (S (S (frames_left r))) r sends [];
  Some (r,
    let? buf := out in
    let? _ := check_positioned_read_complete (gr_block_id r) (gr_bytes_received r)
                (gr_length r) in
    Ok buf).

Definition positioned_read (block_id offset length : Z) (stream : list StreamItem)
    (sends : nat -> SendOutcome) : option (result Error bytes) :=
  '(_, out) ← reader_read_all (reader_open block_id offset length stream) sends;
  Some out.

(** ** What a stream delivers *)

(** The data of a stream up to its end or first error. *)
Fixpoint payload (frames : list StreamItem) : bytes :=
  match frames with
  | ItemData resp :: frames => default [] (mjoin resp) ++ payload frames
  | _ => []
  end.

(** The end and errors come last, as in the channel of the drain task. *)
Fixpoint drained (frames : list StreamItem) : Prop :=
  match frames with
  | [] => True
  | ItemData _ :: frames => drained frames
  | _ :: frames => frames = []
  end.

Definition frames_of (r : GrpcBlockReader) : list StreamItem :=
  match gr_source r with Direct s | Buffered s => s end.

Lemma drain_drained stream : drained (drain stream).
Proof. induction stream as [|[] stream IH]; by cbn. Qed.

Lemma take_drained n frames : drained frames -> drained (take n frames).
Proof.
  revert n. induction frames as [|[] frames IH]; intros [|n] H; cbn in *; try done; [by apply IH|..];
    subst; by rewrite take_nil.
Qed.

Lemma drain_task_drained stream aborted : drained (drain_task stream aborted).
Proof. destruct aborted; [apply take_drained|]; apply drain_drained. Qed.

Lemma payload_drain stream : payload (drain stream) = payload stream.
Proof. induction stream as [|[] stream IH]; cbn; by rewrite ?IH. Qed.

Lemma payload_take n frames : exists k, payload (take n frames) = take k (payload frames).
Proof.
  revert n. induction frames as [|[resp| |e] frames IH]; intros [|n]; cbn;
    try (exists 0%nat; by rewrite ?take_0, ?take_nil).
  destruct (IH n) as [k Hk]. exists (length (default [] (mjoin resp)) + k)%nat.
  by rewrite take_app_add, Hk.
Qed.

(** What the frame loop returns, and what is left. *)
Lemma next_data_spec frames at_end frames' item :
  next_data frames at_end = (frames', item) ->
  match item with
  | Ok (Some d) => d <> [] /\ payload frames = d ++ payload frames' /\
                   (length frames' < length frames)%nat
  | _ => payload frames = [] /\ (drained frames -> frames' = [])
  end \/ (item = at_end /\ frames' = [] /\ payload frames = []).
Proof.
  induction frames as [|[resp| |e] frames IH]; cbn [next_data payload].
  - intros [= <- <-]. by right.
  - unfold classify_response. destruct (default [] (mjoin resp)) as [|x d] eqn:Hd.
    + intros H. destruct (IH H) as [Hs|(-> & -> & Hp)]; [|by right]. left.
      destruct item as [[d|]|e]; cbn in *; intuition lia.
    + intros [= <- <-]. left. cbn. split; [done|]. split; [done|lia].
  - intros [= <- <-]. left. by cbn.
  - intros [= <- <-]. left. by cbn.
Qed.

Lemma drained_next frames at_end frames' item :
  next_data frames at_end = (frames', item) -> drained frames -> drained frames'.
Proof.
  induction frames as [|[resp| |e] frames IH]; cbn [next_data drained].
  - by intros [= <- <-].
  - destruct (classify_response (Some resp)); [by apply IH|by apply IH|]. by intros [= <- <-].
  - intros [= <- <-] ->. done.
  - intros [= <- <-] ->. done.
Qed.

(** One call of [read_chunk]: nothing is lost between the frames and the caller. *)
Record chunk_step (r r' : GrpcBlockReader) (item : result Error (option bytes)) : Prop := {
  cs_id : gr_block_id r' = gr_block_id r /\ gr_offset r' = gr_offset r /\
          gr_length r' = gr_length r;
  cs_item : match item with
    | Ok (Some d) => d <> [] /\ payload (frames_of r) = d ++ payload (frames_of r') /\
        gr_bytes_received r' = gr_bytes_received r + zlen d /\
        (length (frames_of r') < length (frames_of r))%nat
    | Ok None => gr_bytes_received r' = gr_bytes_received r /\
        (gr_length r <= gr_bytes_received r \/ payload (frames_of r) = [])
    | Err _ => gr_bytes_received r' = gr_bytes_received r /\ payload (frames_of r) = []
    end;
  cs_drained : forall rx, gr_source r = Buffered rx -> drained rx ->
    exists rx', gr_source r' = Buffered rx' /\ drained rx' /\
      (match item with
       | Ok (Some _) => True
       | Ok None => gr_length r <= gr_bytes_received r \/ rx' = []
       | Err _ => rx' = []
       end);
}.

Lemma frames_maybe_send_ack r delta o :
  gr_source (maybe_send_ack r delta o) = gr_source r /\
  gr_bytes_received (maybe_send_ack r delta o) = gr_bytes_received r /\
  gr_block_id (maybe_send_ack r delta o) = gr_block_id r /\
  gr_offset (maybe_send_ack r delta o) = gr_offset r /\
  gr_length (maybe_send_ack r delta o) = gr_length r.
Proof.
  unfold maybe_send_ack. destruct (negb (should_send_ack _ _ _ _ _ _)); [done|].
  destruct (negb _); [done|]. by destruct o.
Qed.

Lemma read_chunk_step r o r' item : read_chunk r o = (r', item) -> chunk_step r r' item.
Proof.
  unfold read_chunk. destruct (Z.leb_spec (gr_length r) (gr_bytes_received r)) as [Hdone|Hmore].
  { intros [= <- <-]. split; [done|cbn; auto|]. intros rx Hs Hd. exists rx. cbn. auto. }
  set (src := match gr_source r with Direct _ => _ | Buffered _ => _ end).
  assert (Hsrc : exists at_end frames' item', next_data (frames_of r) at_end = (frames', item') /\
    src = (match gr_source r with Direct _ => Direct frames' | Buffered _ => Buffered frames' end,
           item') /\ (forall d, at_end <> Ok (Some d))).
  { unfold src, frames_of. destruct (gr_source r) as [s|s];
      [exists (Ok None)|exists (Err (Internal (drained_message r) None))];
      destruct (next_data s _) as [frames' item'] eqn:H; exists frames', item'; done. }
  destruct Hsrc as (at_end & frames' & item' & Hn & -> & Hat).
  pose proof (next_data_spec _ _ _ _ Hn) as Hspec. pose proof (drained_next _ _ _ _ Hn) as Hdr.
  assert (Hframes : forall r1, gr_source r1 =
    match gr_source r with Direct _ => Direct frames' | Buffered _ => Buffered frames' end ->
    frames_of r1 = frames').
  { intros r1 H. unfold frames_of. rewrite H. by destruct (gr_source r). }
  destruct item' as [[d|]|e]; cbn [fst snd].
  - set (r1 := maybe_send_ack _ _ _).
    pose proof (frames_maybe_send_ack (receive (set_source r
      (match gr_source r with Direct _ => Direct frames' | Buffered _ => Buffered frames' end))
      (zlen d)) (zlen d) o) as (H1 & H2 & H3 & H4 & H5). fold r1 in H1, H2, H3, H4, H5.
    cbn in H1, H2, H3, H4, H5.
    set (r2 := if gr_length r1 <=? gr_bytes_received r1 then half_close r1 else r1).
    assert (Hr2 : gr_source r2 = gr_source r1 /\ gr_bytes_received r2 = gr_bytes_received r1 /\
      gr_block_id r2 = gr_block_id r1 /\ gr_offset r2 = gr_offset r1 /\
      gr_length r2 = gr_length r1) by (unfold r2; by destruct (_ <=? _)).
    destruct Hr2 as (E1 & E2 & E3 & E4 & E5). intros [= <- <-].
    destruct Hspec as [(Hd & Hp & Hl)|(Hbad & _)]; [|by apply eq_sym in Hbad; destruct (Hat d)].
    split; [rewrite E3, E4, E5; done| |].
    + rewrite (Hframes r2) by (by rewrite E1, H1). rewrite E2, H2. done.
    + intros rx Hs Hdrx. exists frames'. rewrite E1, H1, Hs. split; [done|].
      split; [|done]. apply Hdr. unfold frames_of. by rewrite Hs.
  - intros [= <- <-]. split; [done| |].
    + split; [done|]. right. destruct Hspec as [[Hp _]|(_ & _ & Hp)]; done.
    + intros rx Hs Hdrx. exists frames'. cbn. rewrite Hs. split; [done|].
      assert (Hf : frames_of r = rx) by (unfold frames_of; by rewrite Hs). rewrite Hf in *.
      split; [by apply Hdr|]. right. destruct Hspec as [[_ Hn']|(_ & -> & _)]; auto.
  - intros [= <- <-]. split; [done| |].
    + split; [done|]. destruct Hspec as [[Hp _]|(_ & _ & Hp)]; done.
    + intros rx Hs Hdrx. exists frames'. cbn. rewrite Hs. split; [done|].
      assert (Hf : frames_of r = rx) by (unfold frames_of; by rewrite Hs). rewrite Hf in *.
      split; [by apply Hdr|]. destruct Hspec as [[_ Hn']|(_ & -> & _)]; auto.
Qed.

(** ** Reading a whole range *)

Definition no_error (frames : list StreamItem) : Prop :=
  Forall (fun f => match f with ItemError _ => False | _ => True end) frames.

Lemma next_data_no_error frames frames' item :
  no_error frames -> next_data frames (Ok None) = (frames', item) ->
  no_error frames' /\ is_ok item = true.
Proof.
  intros Hf. revert frames' item.
  induction Hf as [|[resp| |e] frames Hh Hf IH]; intros frames' item; cbn [next_data]; try done.
  - intros [= <- <-]. split; [constructor|done].
  - destruct (classify_response (Some resp)); [apply IH|apply IH|]. by intros [= <- <-].
  - by intros [= <- <-].
Qed.

(** On the gRPC stream itself, a stream without errors gives none. *)
Lemma read_chunk_no_error r s o r' item :
  gr_source r = Direct s -> no_error s -> read_chunk r o = (r', item) ->
  is_ok item = true /\ exists s', gr_source r' = Direct s' /\ no_error s'.
Proof.
  intros Hs Hok. unfold read_chunk.
  destruct (gr_length r <=? gr_bytes_received r); [by intros [= <- <-]; eauto|].
  rewrite Hs. destruct (next_data s (Ok None)) as [s' i] eqn:Hn.
  destruct (next_data_no_error _ _ _ Hok Hn) as [Hs' Hi].
  destruct i as [[d|]|e]; [|by intros [= <- <-]; eauto|done].
  intros [= <- <-]. split; [done|]. exists s'. split; [|done].
  destruct (_ <=? _); cbn; by rewrite (proj1 (frames_maybe_send_ack _ _ _)).
Qed.

Lemma read_all_loop_spec fuel r sends buf :
  (length (frames_of r) < fuel)%nat ->
  exists r' out, read_all_loop fuel r sends buf = Some (r', out) /\
    gr_length r' = gr_length r /\ gr_block_id r' = gr_block_id r /\
    (forall b, out = Ok b -> exists got rest,
       payload (frames_of r) = got ++ rest /\ b = buf ++ got /\
       gr_bytes_received r' = gr_bytes_received r + zlen got /\
       (rest = [] \/ gr_length r' <= gr_bytes_received r')) /\
    (forall s, gr_source r = Direct s -> no_error s -> is_ok out = true).
Proof.
  revert r buf. induction fuel as [|fuel IH]; intros r buf Hf; [lia|]. cbn [read_all_loop].
  destruct (read_chunk r (sends fuel)) as [r1 item] eqn:Hc.
  pose proof (read_chunk_step _ _ _ _ Hc) as [(Hid & Hoff & Hlen) Hitem _].
  assert (Herr := fun s Hs Hok => read_chunk_no_error r s _ _ _ Hs Hok Hc).
  destruct item as [[d|]|e].
  - destruct Hitem as (Hd & Hp & Hrec & Hfr).
    destruct (IH r1 (buf ++ d)) as (r2 & out & -> & Hlen2 & Hid2 & Hok & Hne); [lia|].
    exists r2, out. split; [done|]. split; [congruence|]. split; [congruence|]. split.
    + intros b Hb. destruct (Hok b Hb) as (got & rest & Hp1 & -> & Hrec2 & Hrest).
      exists (d ++ got), rest. split; [by rewrite Hp, Hp1, app_assoc|].
      split; [by rewrite app_assoc|]. rewrite zlen_app. split; [lia|done].
    + intros s Hs Hok'. destruct (Herr s Hs Hok') as [_ (s' & Hs' & Hok'')]. by eapply Hne.
  - exists r1, (Ok buf). split; [done|]. split; [done|]. split; [done|]. split; [|by intros].
    intros b [= <-]. destruct Hitem as [Hrec Hor]. exists [], (payload (frames_of r)).
    rewrite app_nil_r. split; [done|]. split; [done|]. cbn. split; [change (zlen []) with 0; lia|].
    destruct Hor as [Hor|Hor]; [right; lia|by left].
  - exists r1, (Err e). split; [done|]. split; [done|]. split; [done|]. split; [by intros|].
    intros s Hs Hok. destruct (Herr s Hs Hok) as [? _]. done.
Qed.

(** A positioned read over a stream that delivers a prefix of the range [[o, o+len)]
    of [data]: the exact range or an error, and no error when all of it is there. *)
Lemma positioned_read_spec block_id off len stream sends data a k :
  0 <= a -> 0 <= len -> a <= k <= a + len -> a + len <= zlen data ->
  payload stream = slice a k data ->
  exists out, positioned_read block_id off len stream sends = Some out /\
    (forall b, out = Ok b -> b = slice a (a + len) data) /\
    (no_error stream -> k = a + len -> is_ok out = true).
Proof.
  intros Ha Hlen Hk Hdata Hp. unfold positioned_read, reader_read_all.
  set (r := reader_open block_id off len stream).
  destruct (read_all_loop_spec (S (S (frames_left r))) r sends []) as
    (r' & out & -> & Hl & Hid & Hok & Hne); [unfold frames_left, frames_of; cbn; lia|].
  cbn. eexists. split; [done|]. cbn in Hl, Hid.
  assert (Hgot : forall b, out = Ok b -> gr_bytes_received r' = zlen b /\
    (len <= zlen b -> b = slice a (a + len) data) /\ (k = a + len -> zlen b = len)).
  { intros b Hb. destruct (Hok b Hb) as (got & rest & Hpay & -> & Hrec & Hrest).
    cbn in Hpay, Hrec. rewrite Hp in Hpay. cbn.
    pose proof (zlen_slice a k data ltac:(lia) ltac:(lia)) as Hz.
    rewrite Hpay, zlen_app in Hz. pose proof (zlen_nonneg rest). pose proof (zlen_nonneg got).
    split; [lia|]. split.
    - intros Hge. assert (zlen rest = 0) by lia. destruct rest; [|unfold zlen in *; cbn in *; lia].
      rewrite app_nil_r in Hpay. rewrite <- Hpay. f_equal. lia.
    - intros ->. destruct Hrest as [->|Hge]; [change (zlen []) with 0 in Hz; lia|].
      rewrite Hl, Hrec in Hge. lia. }
  unfold check_positioned_read_complete. rewrite Hl. split.
  - intros b. destruct out as [buf|e]; [|done]. destruct (Hgot buf eq_refl) as (Hrec & Hex & _).
    cbn. rewrite Hrec. destruct (Z.ltb_spec (zlen buf) len); [done|].
    intros [= <-]. by apply Hex.
  - intros Hclean Hall. specialize (Hne stream eq_refl Hclean).
    destruct out as [buf|e]; [|done]. destruct (Hgot buf eq_refl) as (Hrec & _ & Hz).
    cbn. rewrite Hrec, (Hz Hall). destruct (Z.ltb_spec len len); [lia|done].
Qed.

(** ** Acknowledgements *)

(** Successive calls of [read_chunk], with the outcome of each one's send. *)
Definition run_reads (r : GrpcBlockReader) (sends : list SendOutcome) : GrpcBlockReader :=
  foldl (fun r o => fst (read_chunk r o)) r sends.

(** The last acknowledged position. *)
Definition acked (r : GrpcBlockReader) : Z := default (gr_offset r) (head (gr_acks r)).

(** [all_sent]: no acknowledgement was refused so far. *)
Record ack_inv (all_sent : Prop) (r : GrpcBlockReader) : Prop := {
  ai_since : 0 <= gr_bytes_since_last_ack r /\ 0 <= gr_bytes_received r;
  ai_sum : acked r + gr_bytes_since_last_ack r = gr_offset r + gr_bytes_received r;
  ai_sorted : StronglySorted Z.gt (gr_acks r);
  ai_bound : Forall (fun a => gr_offset r < a <= gr_offset r + gr_bytes_received r) (gr_acks r);
  ai_open : gr_request_open r = true \/ gr_length r <= gr_bytes_received r;
  ai_window : all_sent -> 0 < gr_ack_interval_bytes r ->
    gr_bytes_since_last_ack r < gr_ack_interval_bytes r /\
    (gr_length r <= gr_bytes_received r -> gr_bytes_since_last_ack r = 0);
}.

(** A chunk is counted and, when due, acknowledged. *)
Lemma ack_inv_deliver (all_sent : Prop) r n o :
  ack_inv all_sent r -> 0 < n -> gr_bytes_received r < gr_length r ->
  ack_inv (all_sent /\ o = SendOk) (maybe_send_ack (receive r n) n o).
Proof.
  intros [Hs Hsum Hsort Hb Hopen Hw] Hn Hmore.
  assert (Hopen' : gr_request_open r = true) by (destruct Hopen; [done|lia]).
  assert (Hb' : Forall (fun a => gr_offset r < a <= gr_offset r + (gr_bytes_received r + n))
    (gr_acks r)) by (eapply Forall_impl; [exact Hb|]; cbn; intros; lia).
  unfold maybe_send_ack, should_send_ack. cbn. rewrite Hopen'. cbn.
  unfold acked in *. destruct (negb _) eqn:Hdue.
  - apply negb_true_iff in Hdue. rewrite !orb_false_iff, !Z.leb_gt in Hdue.
    split; cbn; [lia|unfold acked; cbn; lia|done|done|auto|]. intros _ _. lia.
  - destruct o.
    + split; cbn; [lia|unfold acked; cbn; lia| |constructor; [lia|done]|auto|intros; lia].
      constructor; [done|]. eapply Forall_impl; [exact Hb|]. cbn. intros. lia.
    + split; cbn; [lia|unfold acked; cbn; lia|done|done|auto|by intros []].
    + split; cbn; [lia|unfold acked; cbn; lia|done|done|auto|by intros []].
Qed.

Lemma ack_inv_half_close all_sent r :
  gr_length r <= gr_bytes_received r -> ack_inv all_sent r -> ack_inv all_sent (half_close r).
Proof. intros Hc [Hs Hsum Hsort Hb _ Hw]. split; cbn; auto. Qed.

Lemma ack_inv_step all_sent r o :
  ack_inv all_sent r -> ack_inv (all_sent /\ o = SendOk) (fst (read_chunk r o)).
Proof.
  intros Hr. assert (Hweak : forall src, ack_inv (all_sent /\ o = SendOk) (set_source r src)).
  { intros src. destruct Hr as [Hs Hsum Hsort Hb Hopen Hw]. split; cbn; auto. intros [Ha _]. auto. }
  unfold read_chunk. destruct (Z.leb_spec (gr_length r) (gr_bytes_received r)) as [Hc|Hmore].
  { apply ack_inv_half_close; [done|]. specialize (Hweak (gr_source r)). by destruct r. }
  set (src := match gr_source r with Direct _ => _ | Buffered _ => _ end).
  assert (Hne : forall d, snd src = Ok (Some d) -> d <> []).
  { intros d. unfold src.
    destruct (gr_source r) as [s|s]; destruct (next_data s _) as [s' i] eqn:Hn; cbn; intros ->;
      destruct (next_data_spec _ _ _ _ Hn) as [[Hd _]|[? _]]; done. }
  destruct src as [src' [[d|]|e]]; cbn in Hne; [|apply Hweak|apply Hweak].
  assert (Hd : 0 < zlen d) by (specialize (Hne d eq_refl); destruct d; [done|unfold zlen; cbn; lia]).
  assert (Hin : ack_inv (all_sent /\ o = SendOk)
    (maybe_send_ack (receive (set_source r src') (zlen d)) (zlen d) o)).
  { apply ack_inv_deliver; [|done|done]. destruct Hr as [Hs Hsum Hsort Hb Hopen Hw]. by split. }
  cbn [fst]. destruct (Z.leb_spec (gr_length (maybe_send_ack (receive (set_source r src') (zlen d))
    (zlen d) o)) (gr_bytes_received (maybe_send_ack (receive (set_source r src') (zlen d)) (zlen d) o)));
    [by apply ack_inv_half_close|done].
Qed.

Lemma ack_inv_run sends all_sent r :
  ack_inv all_sent r -> ack_inv (all_sent /\ Forall (eq SendOk) sends) (run_reads r sends).
Proof.
  revert all_sent r. induction sends as [|o sends IH]; intros all_sent r Hr.
  - destruct Hr. split; try done. intros [? _]. auto.
  - pose proof (IH _ _ (ack_inv_step _ _ o Hr)) as [Hs Hsum Hsort Hb Hopen Hw].
    split; try done. intros [Ha Hall]. apply Hw. inversion Hall; subst. auto.
Qed.


