(* ===== verification/InStream.v ===== *)
(** * File input stream (src/src/io/file_in_stream.rs)

    Sequential reads with their carry-over buffer, seeks, positioned reads over
    several blocks, and both through the page cache.  Reaching a worker (routing,
    the connection pool, the gRPC call that opens a block stream) is the interface
    [WorkerAccess] over a state of its own.  File positions stay within the file and
    do not wrap; the one sum of caller-given numbers, in [read_at], does. *)

From S2P Require Import Prelude Text Proto Errors PageCache BlockReader.

(** ** The file and the stream *)

(** The parts of the file status the stream reads. *)
Record StreamStatus : Type := mkStreamStatus {
  ss_length : Z;
  ss_block_size_bytes : Z;
  ss_block_ids : list Z;
  ss_block_infos : list FileBlockInfo;
  ss_ufs_path : string;
  ss_mount_id : Z;
  ss_cacheable : bool;
}.

Record InStreamConfig : Type := mkInStreamConfig {
  sc_status : StreamStatus;
  sc_tuning : ReadTuning;
  sc_chunk_size : Z;
  sc_max_ufs_read_concurrency : Z;
  sc_cache_page_size : Z;
  sc_cache_file_id : string;
  sc_cache_fill : bool;
  sc_cache_async_write : bool;
  sc_cache_sequential_read : bool;
}.

Record OpenUfsBlockOptions : Type := mkOpenUfsBlockOptions {
  uo_ufs_path : string;
  uo_offset_in_file : Z;
  uo_block_size : Z;
  uo_max_ufs_read_concurrency : Z;
  uo_mount_id : option Z;
  uo_no_cache : bool;
  uo_file_length : option Z;
}.

(** Reaching a worker for a block.  [wa_connect] returns the connection's
    generation; the two opens return the frames the worker will send, the
    sequential one also whether its drain task is cut short; [wa_sends] are the
    outcomes of the acknowledgements. *)
Class WorkerAccess (X : Type) : Type := {
  wa_connect : X -> Z -> X * result Error Z;
  wa_reconnect : X -> Z -> Z -> X * result Error Z;
  wa_open_sequential : X -> Z -> Z -> Z -> option OpenUfsBlockOptions ->
    X * result Error (list StreamItem * option nat);
  wa_open_positioned : X -> Z -> Z -> Z -> option OpenUfsBlockOptions ->
    X * result Error (list StreamItem);
  wa_sends : X -> nat -> SendOutcome;
}.

Record GoosefsFileInStream (X C : Type) : Type := mkFileInStream {
  fis_pos : Z;
  fis_carry_over : bytes;
  fis_block_in_stream : option GrpcBlockReader;
  fis_block_in_stream_block_id : Z;
  fis_world : X;
  fis_cache : option C;
}.

Arguments mkFileInStream {X C}.
Arguments fis_pos {X C}.
Arguments fis_carry_over {X C}.
Arguments fis_block_in_stream {X C}.
Arguments fis_block_in_stream_block_id {X C}.
Arguments fis_world {X C}.
Arguments fis_cache {X C}.

Definition TRANSFER_POSITIONED_READ_THRESHOLD : Z := 8 * 1024.

(** ** Block arithmetic *)

Section Blocks.
Context (cfg : InStreamConfig).

Abbreviation status := (sc_status cfg).
Abbreviation file_length := (ss_length (sc_status cfg)).
Abbreviation block_size := (ss_block_size_bytes (sc_status cfg)).

Definition block_index_for_pos (offset : Z) : Z :=
  if block_size <=? 0 then 0 else as_u64 (Z.quot offset block_size).

Definition block_start (idx : Z) : Z := i64_mul (as_i64 idx) block_size.

Definition offset_in_block (offset : Z) : Z :=
  if block_size <=? 0 then offset else Z.rem offset block_size.

Definition remaining_in_block (offset : Z) : Z :=
  Z.min (block_start (block_index_for_pos offset) + block_size) file_length - offset.

Definition no_block_id_message (idx : Z) : string := "no valid block_id at index " +:+ show_Z idx.

Definition block_id_at (idx : Z) : result Error Z :=
  let listed := match zget (ss_block_ids status) idx with
                | Some id => if 0 <? id then Some id else None
                | None => None
                end in
  match listed with
  | Some id => Ok id
  | None =>
      let id := default (-1)
        (fbi ← head (filter (fun fbi => fbi_offset fbi = Some (block_start idx))
                       (ss_block_infos status));
         bi ← fbi_block_info fbi;
         bi_block_id bi) in
      if 0 <? id then Ok id else Err (Internal (no_block_id_message idx) None)
  end.

(** [ufs_block_length] of src/src/fs/options.rs. *)
Definition ufs_block_length (length block_size_bytes block_index : Z) : Z :=
  if block_size_bytes <=? 0 then 0
  else
    let start := if (block_index <=? i64_max) && (block_index * block_size_bytes <=? i64_max)
                 then block_index * block_size_bytes else i64_max in
    Z.max 0 (Z.min (Z.max (length - start) (- i64_max - 1)) block_size_bytes).

Definition build_ufs_opts (idx : Z) : option OpenUfsBlockOptions :=
  if String.eqb (ss_ufs_path status) EmptyString then None
  else
    Some (mkOpenUfsBlockOptions (ss_ufs_path status) (i64_mul (as_i64 idx) block_size)
            (ufs_block_length file_length block_size idx) (sc_max_ufs_read_concurrency cfg)
            (Some (ss_mount_id status)) (negb (ss_cacheable status)) (Some file_length)).

Definition cache_fill_mode : FillMode :=
  if negb (sc_cache_fill cfg) then FillNone
  else if sc_cache_async_write cfg then FillAsync
  else FillSync.
End Blocks.

(** ** Positioned reads *)

Section Positioned.
Context {X : Type} `{!WorkerAccess X}.
Context (cfg : InStreamConfig).

(** The answer of a loop that its bound stops; the bounds below are never reached. *)
Definition out_of_fuel : Error := Internal "unbounded loop" None.

(** [GrpcBlockReader::positioned_read] over a connected worker. *)
Definition positioned_once (x : X) (block_id offset length : Z) (ufs : option OpenUfsBlockOptions)
  : X * result Error bytes :=
  let '(x, opened) := wa_open_positioned x block_id offset length ufs in
  match opened with
  | Err e => (x, Err e)
  | Ok frames =>
      (x, default (Err out_of_fuel) (positioned_read block_id offset length frames (wa_sends x)))
  end.

Definition positioned_read_with_retry (x : X) (block_idx block_id offset length : Z)
  : X * result Error bytes :=
  let '(x, connected) := wa_connect x block_id in
  match connected with
  | Err e => (x, Err e)
  | Ok generation =>
      let ufs := build_ufs_opts cfg block_idx in
      let '(x, r) := positioned_once x block_id offset length ufs in
      match r with
      | Ok d => (x, Ok d)
      | Err e =>
          if is_authentication_failed e then
            let '(x, fresh) := wa_reconnect x block_id generation in
            match fresh with
            | Err e => (x, Err e)
            | Ok _ => positioned_once x block_id offset length ufs
            end
          else (x, Err e)
      end
  end.

Definition zero_bytes_message (block_id offset length : Z) : string :=
  "read_at: positioned_read returned 0 bytes for block " +:+ show_Z block_id
  +:+ " offset_in_block " +:+ show_Z offset +:+ " length " +:+ show_Z length.

(** The loop of the slow path: each turn delivers at least one byte. *)
Fixpoint read_blocks (fuel : nat) (x : X) (cur end_ : Z) (buf : bytes) : X * result Error bytes :=
  if cur <? end_ then
    match fuel with
    | O => (x, Err out_of_fuel)
    | S fuel =>
        let idx := block_index_for_pos cfg cur in
        match block_id_at cfg idx with
        | Err e => (x, Err e)
        | Ok block_id =>
            let offset := offset_in_block cfg cur in
            let block_end := block_start cfg idx + ss_block_size_bytes (sc_status cfg) in
            let length := Z.min end_ block_end - cur in
            let '(x, r) := positioned_read_with_retry x idx block_id offset length in
            match r with
            | Err e => (x, Err e)
            | Ok data =>
                if zlen data =? 0 then
                  (x, Err (Internal (zero_bytes_message block_id offset length
                             +:+ " (cur=" +:+ show_Z cur +:+ ", end=" +:+ show_Z end_ +:+ ")") None))
                else read_blocks fuel x (cur + zlen data) end_ (buf ++ data)
            end
        end
    end
  else (x, Ok buf).

Definition read_external_range (x : X) (offset end_ : Z) : X * result Error bytes :=
  let first := block_index_for_pos cfg offset in
  if end_ <=? block_start cfg first + ss_block_size_bytes (sc_status cfg) then
    match block_id_at cfg first with
    | Err e => (x, Err e)
    | Ok block_id =>
        let off := offset_in_block cfg offset in
        let length := end_ - offset in
        let '(x, r) := positioned_read_with_retry x first block_id off length in
        match r with
        | Err e => (x, Err e)
        | Ok data =>
            if zlen data =? 0 then (x, Err (Internal (zero_bytes_message block_id off length) None))
            else (x, Ok data)
        end
    end
  else read_blocks (Z.to_nat (end_ - offset)) x offset end_ [].
End Positioned.

(** ** The stream's operations *)

Section Stream.
Context {X C : Type} `{!WorkerAccess X, !CacheManager C}.
Context (cfg : InStreamConfig).
Context (short_msg zero_msg : PagePiece -> bytes -> string).

Abbreviation stream := (GoosefsFileInStream X C).
Abbreviation file_length := (ss_length (sc_status cfg)).

Definition stream_open (x : X) (cache : option C) : stream :=
  mkFileInStream 0 [] None (-1) x cache.

(** The caller's position. *)
Definition pos (s : stream) : Z := fis_pos s - zlen (fis_carry_over s).

Definition is_eof (s : stream) : bool :=
  (zlen (fis_carry_over s) =? 0) && (file_length <=? fis_pos s).

Definition remaining (s : stream) : Z :=
  Z.max 0 (file_length - fis_pos s) + zlen (fis_carry_over s).

Definition set_pos (s : stream) (p : Z) : stream :=
  mkFileInStream p (fis_carry_over s) (fis_block_in_stream s) (fis_block_in_stream_block_id s)
    (fis_world s) (fis_cache s).

Definition set_carry (s : stream) (b : bytes) : stream :=
  mkFileInStream (fis_pos s) b (fis_block_in_stream s) (fis_block_in_stream_block_id s)
    (fis_world s) (fis_cache s).

Definition set_block_stream (s : stream) (r : option GrpcBlockReader) (id : Z) : stream :=
  mkFileInStream (fis_pos s) (fis_carry_over s) r id (fis_world s) (fis_cache s).

Definition set_world (s : stream) (x : X) : stream :=
  mkFileInStream (fis_pos s) (fis_carry_over s) (fis_block_in_stream s)
    (fis_block_in_stream_block_id s) x (fis_cache s).

Definition set_cache_state (s : stream) (c : C) : stream :=
  mkFileInStream (fis_pos s) (fis_carry_over s) (fis_block_in_stream s)
    (fis_block_in_stream_block_id s) (fis_world s) (Some c).

Definition drop_stream (s : stream) : stream := set_block_stream s None (-1).

(** The skip loop: the rest of the last chunk comes back as carry-over. *)
Fixpoint skip_loop (fuel : nat) (r : GrpcBlockReader) (sends : nat -> SendOutcome) (skip : Z)
  : GrpcBlockReader * result Error bytes :=
  if skip <=? 0 then (r, Ok [])
  else
    match fuel with
    | O => (r, Err out_of_fuel)
    | S fuel =>
        match read_chunk r (sends fuel) with
        | (r, Err e) => (r, Err e)
        | (r, Ok None) => (r, Ok [])
        | (r, Ok (Some data)) =>
            if skip <? zlen data then (r, Ok (slice skip (zlen data) data))
            else skip_loop fuel r sends (skip - zlen data)
        end
    end.

Definition skip_bytes (s : stream) (skip : Z) : stream * result Error unit :=
  match fis_block_in_stream s with
  | None => (s, Ok tt)
  | Some r =>
      let '(r, out) := skip_loop (S (frames_left r)) r (wa_sends (fis_world s)) skip in
      let s := set_block_stream s (Some r) (fis_block_in_stream_block_id s) in
      match out with
      | Err e => (s, Err e)
      | Ok rest => (set_carry s (fis_carry_over s ++ rest), Ok tt)
      end
  end.

Definition seek (s : stream) (p : Z) : stream * result Error Z :=
  let target := Z.max 0 (Z.min p file_length) in
  let user_pos := pos s in
  if target =? user_pos then (s, Ok user_pos)
  else
    let s := set_carry s [] in
    let seek_dist := Z.abs (target - fis_pos s) in
    let same_block := block_index_for_pos cfg target =? block_index_for_pos cfg (fis_pos s) in
    if (seek_dist <? TRANSFER_POSITIONED_READ_THRESHOLD) && same_block then
      match fis_block_in_stream s with
      | Some _ =>
          if fis_pos s <? target then
            let '(s, r) := skip_bytes s (target - fis_pos s) in
            match r with
            | Err e => (s, Err e)
            | Ok _ => (set_pos s (target + zlen (fis_carry_over s)), Ok target)
            end
          else (set_pos (drop_stream s) target, Ok target)
      | None => (set_pos s target, Ok target)
      end
    else (set_pos (drop_stream s) target, Ok target).

Inductive SeekFrom : Type :=
| SeekStart (n : Z)
| SeekEnd (n : Z)
| SeekCurrent (n : Z).

Definition seek_from (s : stream) (f : SeekFrom) : stream * result Error Z :=
  seek s (match f with
          | SeekStart n => as_i64 n
          | SeekEnd n => i64_add file_length n
          | SeekCurrent n => i64_add (pos s) n
          end).

(** [GrpcBlockReader::open_sequential] over a connected worker. *)
Definition sequential_once (x : X) (block_id offset length : Z) (ufs : option OpenUfsBlockOptions)
  : X * result Error GrpcBlockReader :=
  let '(x, opened) := wa_open_sequential x block_id offset length ufs in
  (x, let? f := opened in
      Ok (open_sequential block_id offset length (sc_tuning cfg) (fst f) (snd f))).

(** Opening the sequential stream of the current block, with the one retry after an
    authentication failure. *)
Definition open_block (s : stream) (block_idx block_id : Z) : stream * result Error GrpcBlockReader :=
  let offset := offset_in_block cfg (fis_pos s) in
  let length := remaining_in_block cfg (fis_pos s) in
  let ufs := build_ufs_opts cfg block_idx in
  let '(x, connected) := wa_connect (fis_world s) block_id in
  match connected with
  | Err e => (set_world s x, Err e)
  | Ok generation =>
      let '(x, r) := sequential_once x block_id offset length ufs in
      match r with
      | Ok reader => (set_world s x, Ok reader)
      | Err e =>
          if is_authentication_failed e then
            let '(x, fresh) := wa_reconnect x block_id generation in
            match fresh with
            | Err e => (set_world s x, Err e)
            | Ok _ => let '(x, r) := sequential_once x block_id offset length ufs in
                      (set_world s x, r)
            end
          else (set_world s x, Err e)
      end
  end.

Definition read_from_sequential_stream (s : stream) (buf_len : Z) : stream * result Error bytes :=
  match fis_block_in_stream s with
  | None => (s, Ok [])
  | Some r =>
      let '(r, out) := read_chunk r (wa_sends (fis_world s) 0%nat) in
      let s := set_block_stream s (Some r) (fis_block_in_stream_block_id s) in
      match out with
      | Err e => (s, Err e)
      | Ok None => (drop_stream s, Ok [])
      | Ok (Some data) =>
          let n := Z.min (zlen data) buf_len in
          let s := if n <? zlen data
                   then set_carry s (fis_carry_over s ++ slice n (zlen data) data) else s in
          let s := set_pos s (fis_pos s + zlen data) in
          let s := if is_complete r then drop_stream s else s in
          (s, Ok (slice 0 n data))
      end
  end.

(** [None] is a page loop that does not end. *)
Definition read_at_cached (s : stream) (offset end_ : Z) : option (stream * result Error bytes) :=
  match fis_cache s with
  | None => let '(x, r) := read_external_range cfg (fis_world s) offset end_ in
            Some (set_world s x, r)
  | Some c =>
      '(c, x, r) ← read_through_cache (read_external_range cfg) short_msg zero_msg c (fis_world s)
                     (sc_cache_file_id cfg) (sc_cache_page_size cfg) file_length offset end_
                     (cache_fill_mode cfg);
      Some (set_cache_state (set_world s x) c, r)
  end.

(** [read] with a buffer of [buf_len] bytes returns the bytes it put in it. *)
Definition read (s : stream) (buf_len : Z) : option (stream * result Error bytes) :=
  if buf_len =? 0 then Some (s, Ok [])
  else if negb (zlen (fis_carry_over s) =? 0) then
    let take := Z.min (zlen (fis_carry_over s)) buf_len in
    Some (set_carry s (slice take (zlen (fis_carry_over s)) (fis_carry_over s)),
          Ok (slice 0 take (fis_carry_over s)))
  else if file_length <=? fis_pos s then Some (s, Ok [])
  else if bool_decide (is_Some (fis_cache s)) && sc_cache_sequential_read cfg then
    let end_ := Z.min (fis_pos s + buf_len) file_length in
    '(s, r) ← read_at_cached s (fis_pos s) end_;
    match r with
    | Err e => Some (s, Err e)
    | Ok data =>
        let n := Z.min (zlen data) buf_len in
        Some (set_pos s (fis_pos s + n), Ok (slice 0 n data))
    end
  else
    let block_idx := block_index_for_pos cfg (fis_pos s) in
    match block_id_at cfg block_idx with
    | Err e => Some (s, Err e)
    | Ok block_id =>
        if fis_block_in_stream_block_id s =? block_id then
          Some (read_from_sequential_stream s buf_len)
        else
          let '(s, r) := open_block s block_idx block_id in
          match r with
          | Err e => Some (s, Err e)
          | Ok reader =>
              Some (read_from_sequential_stream (set_block_stream s (Some reader) block_id) buf_len)
          end
    end.

Definition read_at (s : stream) (offset n : Z) : option (stream * result Error bytes) :=
  if (file_length <=? offset) || (n =? 0) then Some (s, Ok [])
  else
    let end_ := Z.min (i64_add offset (as_i64 n)) file_length in
    match fis_cache s with
    | Some _ => read_at_cached s offset end_
    | None => let '(x, r) := read_external_range cfg (fis_world s) offset end_ in
              Some (set_world s x, r)
    end.

(** The scratch buffer of [read_all]. *)
Definition scratch_cap : Z := Z.max (8 * 1024) (Z.min (sc_chunk_size cfg) (64 * 1024)).

(** The loop of [read_all]: [None] when the fuel runs out. *)
Fixpoint read_all_from (fuel : nat) (s : stream) (buf : bytes)
  : option (stream * result Error bytes) :=
  match fuel with
  | O => None
  | S fuel =>
      '(s, r) ← read s scratch_cap;
      match r with
      | Err e => Some (s, Err e)
      | Ok [] => Some (s, Ok buf)
      | Ok data => read_all_from fuel s (buf ++ data)
      end
  end.

(** Every turn but the last delivers a byte. *)
Definition read_all (s : stream) : option (stream * result Error bytes) :=
  read_all_from (S (Z.to_nat (remaining s))) s [].
End Stream.
