(* ===== verification/InStreamFacts.v ===== *)
(** * File input stream: lemmas

    Block arithmetic, positioned reads over a worker that never lies, and the
    invariant that keeps the stream's position, its carry-over buffer and the open
    block stream in step. *)

From S2P Require Import Prelude Errors PageCache BlockReader InStream.

(** The part [[off, off + len)] of block [idx] lies in the block and in the file. *)
Record in_block (bs fl idx off len : Z) : Prop := {
  ib_idx : 0 <= idx;
  ib_off : 0 <= off;
  ib_len : 0 <= len;
  ib_block : off + len <= bs;
  ib_file : idx * bs + off + len <= fl;
}.

Section World.
Context {X : Type} `{!WorkerAccess X}.
Context (cfg : InStreamConfig) (data : bytes).

Abbreviation bs := (ss_block_size_bytes (sc_status cfg)).
Abbreviation fl := (zlen data).

(** The frames carry a prefix of the range asked for. *)
Definition honest_frames (idx off len : Z) (frames : list StreamItem) : Prop :=
  exists k, idx * bs + off <= k <= idx * bs + off + len /\
    payload frames = slice (idx * bs + off) k data.

(** Workers may fail, stop early or cut streams short, but send no wrong bytes. *)
Record honest_world : Prop := {
  hw_sequential : forall x id idx off len ufs x' frames aborted,
    block_id_at cfg idx = Ok id -> in_block bs fl idx off len ->
    wa_open_sequential x id off len ufs = (x', Ok (frames, aborted)) ->
    honest_frames idx off len frames;
  hw_positioned : forall x id idx off len ufs x' frames,
    block_id_at cfg idx = Ok id -> in_block bs fl idx off len ->
    wa_open_positioned x id off len ufs = (x', Ok frames) -> honest_frames idx off len frames;
}.

(** The frames carry the whole range, without an error. *)
Definition full_frames (idx off len : Z) (frames : list StreamItem) : Prop :=
  no_error frames /\
  payload frames = slice (idx * bs + off) (idx * bs + off + len) data.

(** Workers answer, and every block of the file has an id of its own. *)
Record delivering_world : Prop := {
  dw_connect : forall x id, is_ok (snd (wa_connect x id)) = true;
  dw_ids : forall idx, 0 <= idx -> idx * bs < fl -> is_ok (block_id_at cfg idx) = true;
  dw_distinct : forall i j id, 0 <= i -> 0 <= j -> block_id_at cfg i = Ok id -> block_id_at cfg j = Ok id -> i = j;
  dw_sequential : forall x id idx off len ufs,
    block_id_at cfg idx = Ok id -> in_block bs fl idx off len ->
    exists frames, snd (wa_open_sequential x id off len ufs) = Ok (frames, None) /\
      full_frames idx off len frames;
  dw_positioned : forall x id idx off len ufs,
    block_id_at cfg idx = Ok id -> in_block bs fl idx off len ->
    exists frames, snd (wa_open_positioned x id off len ufs) = Ok frames /\
      full_frames idx off len frames;
}.

(** The status matches the file, and sizes are far from wrapping. *)
Record geometry : Prop := {
  ge_length : ss_length (sc_status cfg) = fl;
  ge_block : 0 < bs;
  ge_bound : fl + bs <= i64_max;
  ge_page : 0 <= sc_cache_page_size cfg;
  ge_page_bound : sc_cache_page_size cfg + fl < i64_max;
}.

Context (Hgeo : geometry).

Let Hlen := ge_length Hgeo.
Let Hbs := ge_block Hgeo.
Let Hbound := ge_bound Hgeo.

(** ** Block arithmetic *)

Lemma block_index_div p : 0 <= p <= fl -> block_index_for_pos cfg p = p / bs.
Proof.
  intros Hp. unfold block_index_for_pos. destruct (Z.leb_spec bs 0); [lia|].
  rewrite Z.quot_div_nonneg by lia.
  pose proof (Z.div_pos p bs ltac:(lia) ltac:(lia)).
  assert (p / bs <= fl) by (apply Z.div_le_upper_bound; nia). unfold i64_max in *.
  apply as_u64_small. unfold is_u64, u64_mod. lia.
Qed.

Lemma block_start_mul idx : 0 <= idx -> idx * bs <= fl -> block_start cfg idx = idx * bs.
Proof.
  intros Hi Hle. unfold block_start, i64_mul. unfold i64_max in *.
  assert (idx <= fl) by nia. pose proof (zlen_nonneg data).
  rewrite (as_i64_small idx) by (unfold is_i64; lia).
  apply as_i64_small. unfold is_i64. nia.
Qed.

Lemma offset_in_block_mod p : 0 <= p -> offset_in_block cfg p = p mod bs.
Proof.
  intros Hp. unfold offset_in_block. destruct (Z.leb_spec bs 0); [lia|].
  apply Z.rem_mod_nonneg; lia.
Qed.

(** A position splits into its block and the offset in it. *)
Lemma split_pos p : 0 <= p <= fl ->
  0 <= p / bs /\ p / bs * bs + p mod bs = p /\ 0 <= p mod bs < bs /\ p / bs * bs <= fl.
Proof.
  intros Hp. pose proof (Z.div_pos p bs ltac:(lia) ltac:(lia)).
  pose proof (Z.mod_pos_bound p bs ltac:(lia)). pose proof (Z.div_mod p bs ltac:(lia)). lia.
Qed.

(** The part of the current block from [p] up to [e]. *)
Lemma in_block_to p e :
  0 <= p <= e -> e <= fl -> e <= p / bs * bs + bs -> in_block bs fl (p / bs) (p mod bs) (e - p).
Proof. intros Hp He Hb. destruct (split_pos p) as (? & ? & ? & ?); [lia|]. split; lia. Qed.

Lemma block_id_positive idx id : block_id_at cfg idx = Ok id -> 0 < id.
Proof.
  unfold block_id_at. set (listed := match zget _ _ with Some _ => _ | None => _ end).
  assert (Hl : forall i, listed = Some i -> 0 < i).
  { unfold listed. intros i. destruct (zget _ _) as [j|]; [|done].
    destruct (Z.ltb_spec 0 j); [|done]. by intros [= <-]. }
  destruct listed as [i|]; [intros [= <-]; by apply Hl|].
  set (d := default _ _). destruct (Z.ltb_spec 0 d); [|done]. by intros [= <-].
Qed.

(** Where the part of the file in the block of [p] ends. *)
Definition block_stop (p : Z) : Z := Z.min (p / bs * bs + bs) fl.

Lemma remaining_stop p : 0 <= p <= fl -> remaining_in_block cfg p = block_stop p - p.
Proof.
  intros Hp. destruct (split_pos p) as (? & ? & ? & ?); [lia|].
  unfold remaining_in_block, block_stop. by rewrite Hlen, block_index_div, block_start_mul by lia.
Qed.

Lemma block_stop_bounds p : 0 <= p < fl -> p < block_stop p <= fl.
Proof. intros Hp. destruct (split_pos p) as (? & ? & ? & ?); [lia|]. unfold block_stop. lia. Qed.

(** A later position before the end of the block is in the same block. *)
Lemma same_block_before p q : 0 <= p <= q -> q < block_stop p -> q / bs = p / bs.
Proof.
  unfold block_stop. intros Hp Hq. destruct (split_pos p) as (? & ? & ? & ?); [lia|].
  symmetry. apply (Z.div_unique q bs (p / bs) (q - p / bs * bs)); lia.
Qed.

(** ** Positioned reads *)

(** The right bytes or an error. *)
Definition exact (a b : Z) (r : result Error bytes) : Prop :=
  forall d, r = Ok d -> d = slice a b data.

Lemma positioned_once_spec x id idx off len ufs x' r :
  block_id_at cfg idx = Ok id -> in_block bs fl idx off len ->
  positioned_once x id off len ufs = (x', r) ->
  (honest_world -> exact (idx * bs + off) (idx * bs + off + len) r) /\
  (delivering_world -> is_ok r = true).
Proof.
  intros Hid Hin. unfold positioned_once. pose proof Hin as [Hi Ho Hl Hb Hf].
  destruct (wa_open_positioned x id off len ufs) as [x1 opened] eqn:Hopen.
  assert (Hread : forall frames k, idx * bs + off <= k <= idx * bs + off + len ->
    payload frames = slice (idx * bs + off) k data ->
    exists out, positioned_read id off len frames (wa_sends x1) = Some out /\
      exact (idx * bs + off) (idx * bs + off + len) out /\
      (no_error frames -> k = idx * bs + off + len -> is_ok out = true)).
  { intros frames k Hk Hp. apply positioned_read_spec with (k := k); [nia|done|lia|lia|done]. }
  intros Heq. split; intros Hw; revert Heq.
  - destruct opened as [frames|e]; [|by intros [= <- <-]].
    destruct (hw_positioned Hw _ _ _ _ _ _ _ _ Hid Hin Hopen) as (k & Hk & Hp).
    destruct (Hread frames k Hk Hp) as (out & -> & Hex & _). by intros [= <- <-].
  - destruct (dw_positioned Hw x id idx off len ufs Hid Hin) as (frames & Hfr & Hclean & Hp).
    rewrite Hopen in Hfr. cbn in Hfr. subst opened.
    destruct (Hread frames (idx * bs + off + len) ltac:(lia) Hp) as (out & -> & _ & Hok).
    intros [= <- <-]. by apply Hok.
Qed.

Lemma positioned_with_retry_spec x id idx off len x' r :
  block_id_at cfg idx = Ok id -> in_block bs fl idx off len ->
  positioned_read_with_retry cfg x idx id off len = (x', r) ->
  (honest_world -> exact (idx * bs + off) (idx * bs + off + len) r) /\
  (delivering_world -> is_ok r = true).
Proof.
  intros Hid Hin. unfold positioned_read_with_retry.
  destruct (wa_connect x id) as [x1 [gen|e]] eqn:Hc.
  2:{ intros [= <- <-]. split; [done|]. intros Hw. pose proof (dw_connect Hw x id) as H.
      by rewrite Hc in H. }
  destruct (positioned_once x1 id off len _) as [x2 r2] eqn:Hp.
  destruct (positioned_once_spec _ _ _ _ _ _ _ _ Hid Hin Hp) as [Hhon Hdel].
  destruct r2 as [d|e]; [by intros [= <- <-]|].
  destruct (is_authentication_failed e); [|by intros [= <- <-]].
  destruct (wa_reconnect x2 id gen) as [x3 [g|e']].
  - intros Hp2. by apply (positioned_once_spec _ _ _ _ _ _ _ _ Hid Hin Hp2).
  - intros [= <- <-]. split; [done|]. intros Hw. by specialize (Hdel Hw).
Qed.

Lemma read_blocks_spec fuel x cur end_ buf x' r :
  0 <= cur <= end_ -> end_ <= fl -> end_ - cur <= Z.of_nat fuel ->
  read_blocks cfg fuel x cur end_ buf = (x', r) ->
  (honest_world -> forall d, r = Ok d -> d = buf ++ slice cur end_ data) /\
  (honest_world -> delivering_world -> is_ok r = true).
Proof.
  revert x cur buf x' r. induction fuel as [|fuel IH];
    intros x cur buf x' r Hcur Hend Hfuel; cbn [read_blocks];
    (destruct (Z.ltb_spec cur end_) as [Hlt|Hge];
      [|intros [= <- <-]; split; [|done]; intros _ d [= <-];
        by rewrite slice_nil, app_nil_r by lia]); [lia|].
  destruct (split_pos cur) as (Hi & Hsum & Hmod & Hle); [lia|].
  rewrite block_index_div, offset_in_block_mod, block_start_mul by lia.
  destruct (block_id_at cfg (cur / bs)) as [id|e] eqn:Hid.
  2:{ intros [= <- <-]. split; [done|]. intros _ Hw.
      pose proof (dw_ids Hw (cur / bs) Hi ltac:(lia)) as H. by rewrite Hid in H. }
  set (e1 := Z.min end_ (cur / bs * bs + bs)).
  assert (Hin : in_block bs fl (cur / bs) (cur mod bs) (e1 - cur)) by (apply in_block_to; lia).
  destruct (positioned_read_with_retry cfg x (cur / bs) id (cur mod bs) (e1 - cur))
    as [x1 r1] eqn:Hp.
  destruct (positioned_with_retry_spec _ _ _ _ _ _ _ Hid Hin Hp) as [Hhon Hdel].
  rewrite Hsum, Zplus_minus in Hhon.
  destruct r1 as [d|e]; [|intros [= <- <-]; split; [done|]; intros _ Hw; by apply Hdel].
  assert (Hd : honest_world -> zlen d = e1 - cur /\ d = slice cur e1 data).
  { intros Hw. rewrite (Hhon Hw d eq_refl). by rewrite zlen_slice by lia. }
  destruct (Z.eqb_spec (zlen d) 0) as [Hz|Hz].
  { intros [= <- <-]. split; [done|]. intros Hw. destruct (Hd Hw). lia. }
  pose proof (zlen_nonneg d).
  intros Hrest. split.
  - intros Hw b ->. destruct (Hd Hw) as [Hzd ->].
    rewrite zlen_slice in Hrest by lia.
    destruct (IH x1 (cur + (e1 - cur)) (buf ++ slice cur e1 data) x' (Ok b)) as [Hok _];
      [lia|lia|lia|done|].
    rewrite (Hok Hw b eq_refl), <- app_assoc. f_equal. rewrite Zplus_minus.
    apply slice_app; lia.
  - intros Hw Hdw. destruct (Hd Hw) as [Hzd _].
    destruct (IH x1 (cur + zlen d) (buf ++ d) x' r) as [_ Hok]; [lia|lia|lia|done|].
    by apply Hok.
Qed.

(** Any range of the file: exactly its bytes or an error. *)
Lemma read_external_range_spec x a b x' r :
  0 <= a <= b -> b <= fl -> read_external_range cfg x a b = (x', r) ->
  (honest_world -> exact a b r) /\
  (honest_world -> delivering_world -> a < b -> is_ok r = true).
Proof.
  intros Ha Hb. unfold read_external_range.
  destruct (split_pos a) as (Hi & Hsum & Hmod & Hle); [lia|].
  rewrite block_index_div, offset_in_block_mod, block_start_mul by lia.
  destruct (Z.leb_spec b (a / bs * bs + bs)) as [Hone|Hmany].
  2:{ intros Hread. destruct (read_blocks_spec (Z.to_nat (b - a)) x a b [] x' r) as [Hhon Hdel];
        [lia|lia|lia|done|]. split; [exact Hhon|]. auto. }
  destruct (block_id_at cfg (a / bs)) as [id|e] eqn:Hid.
  2:{ intros [= <- <-]. split; [done|]. intros _ Hw Hlt.
      pose proof (dw_ids Hw (a / bs) Hi ltac:(lia)) as H. by rewrite Hid in H. }
  assert (Hin : in_block bs fl (a / bs) (a mod bs) (b - a)) by (apply in_block_to; lia).
  destruct (positioned_read_with_retry cfg x (a / bs) id (a mod bs) (b - a)) as [x1 r1] eqn:Hp.
  destruct (positioned_with_retry_spec _ _ _ _ _ _ _ Hid Hin Hp) as [Hhon Hdel].
  rewrite Hsum, Zplus_minus in Hhon.
  destruct r1 as [d|e]; [|intros [= <- <-]; split; [done|]; intros _ Hw _; by apply Hdel].
  destruct (Z.eqb_spec (zlen d) 0) as [Hz|Hz]; intros [= <- <-]; (split; [done|]); [|done].
  intros Hw _ Hlt. rewrite (Hhon Hw d eq_refl), zlen_slice in Hz; lia.
Qed.

Lemma external_reader_honest : honest_world -> reader_honest (read_external_range cfg) data.
Proof.
  intros Hw x a b d Ha Hb Hread Hl.
  destruct (read_external_range cfg x a b) as [x' r] eqn:Hr. cbn in Hread. subst r.
  destruct (read_external_range_spec _ _ _ _ _ Ha Hb Hr) as [Hex _].
  rewrite (Hex Hw d eq_refl). apply slice_self; lia.
Qed.

Lemma external_reader_delivers :
  honest_world -> delivering_world -> reader_delivers (read_external_range cfg) data.
Proof.
  intros Hw Hd x a b Ha Hb.
  destruct (read_external_range cfg x a b) as [x' r] eqn:Hr.
  destruct (read_external_range_spec x a b x' r ltac:(lia) Hb Hr) as [Hex Hok].
  specialize (Hok Hw Hd ltac:(lia)). destruct r as [d|]; [|done].
  exists d. split; [done|]. rewrite (Hex Hw d eq_refl), zlen_slice; lia.
Qed.
End World.
