(* ===== verification/InStreamProps.v ===== *)
(** * File input stream: correctness

    Whatever the caller does (reads of any size, seeks, positioned reads, in any
    order), the bytes returned are the bytes of the file at the caller's position;
    with workers that deliver, reads are complete. *)

From S2P Require Import Prelude Text Errors PageCache BlockReader InStream InStreamFacts.

Section Correct.
Context {X C : Type} `{!WorkerAccess X, !CacheManager C, !CacheSound C}.
Context (cfg : InStreamConfig) (data : bytes).
Context (short_msg zero_msg : PagePiece -> bytes -> string).

Abbreviation stream := (GoosefsFileInStream X C).
Abbreviation bs := (ss_block_size_bytes (sc_status cfg)).
Abbreviation fl := (zlen data).
Abbreviation ps := (sc_cache_page_size cfg).

(** ** The open block stream *)

(** More data is expected, and what the channel holds is the file from [p] on. *)
Definition live (r : GrpcBlockReader) (p : Z) : Prop :=
  exists rx stop k, gr_source r = Buffered rx /\ drained rx /\
    gr_bytes_received r < gr_length r /\ p + (gr_length r - gr_bytes_received r) = stop /\
    stop <= fl /\ p <= k <= stop /\ payload rx = slice p k data.

(** Nothing more will come: the range is complete, or the channel is closed. *)
Definition idle (r : GrpcBlockReader) : Prop :=
  exists rx, gr_source r = Buffered rx /\ drained rx /\
    (gr_length r <= gr_bytes_received r \/ rx = []).

Definition stream_ok (r : GrpcBlockReader) (p : Z) : Prop := live r p \/ idle r.

Lemma chunk_ok r p o r' item :
  0 <= p -> stream_ok r p -> read_chunk r o = (r', item) ->
  match item with
  | Ok (Some d) => d <> [] /\ stream_ok r' (p + zlen d) /\ p + zlen d <= fl /\
                   d = slice p (p + zlen d) data
  | _ => idle r'
  end.
Proof.
  intros Hp Hok Hc. pose proof (read_chunk_step _ _ _ _ Hc) as [(_ & _ & Hlen) Hitem Hdr].
  destruct Hok as [(rx & stop & k & Hs & Hrx & Hmore & Hstop & Hfl & Hk & Hpay)|(rx & Hs & Hrx & Hor)].
  - destruct (Hdr rx Hs Hrx) as (rx' & Hs' & Hrx' & Hrest). unfold frames_of in Hitem.
    rewrite Hs, Hs' in Hitem. destruct item as [[d|]|e].
    + destruct Hitem as (Hd & Hpd & Hrec & _). rewrite Hpay in Hpd.
      assert (Hz : zlen d + zlen (payload rx') = k - p)
        by (rewrite <- zlen_app, <- Hpd; apply zlen_slice; lia).
      pose proof (zlen_nonneg (payload rx')). pose proof (zlen_nonneg d).
      assert (Hsplit : slice p (p + zlen d) data ++ slice (p + zlen d) k data = d ++ payload rx')
        by (rewrite <- Hpd; apply slice_app; lia).
      apply app_inj_1 in Hsplit as [Hd1 Hd2]; [|apply Nat2Z.inj; fold (zlen d);
        fold (zlen (slice p (p + zlen d) data)); rewrite zlen_slice; lia].
      split; [done|]. split; [|split; [lia|done]].
      destruct (Z.le_gt_cases (gr_length r') (gr_bytes_received r')).
      * right. exists rx'. auto.
      * left. exists rx', stop, k. rewrite Hlen, Hrec in *. split_and!; try done; lia.
    + exists rx'. split; [done|]. split; [done|]. destruct Hrest as [Hge| ->]; [lia|by right].
    + exists rx'. subst rx'. auto.
  - destruct (Hdr rx Hs Hrx) as (rx' & Hs' & Hrx' & Hrest). unfold frames_of in Hitem.
    rewrite Hs, Hs' in Hitem. destruct item as [[d|]|e].
    + exfalso. destruct Hor as [Hge| ->].
      * unfold read_chunk in Hc. destruct (Z.leb_spec (gr_length r) (gr_bytes_received r)); [done|lia].
      * destruct Hitem as (Hd & Hpd & _). cbn in Hpd. by destruct d.
    + exists rx'. split; [done|]. split; [done|]. destruct Hitem as [Hrec _]. rewrite Hlen, Hrec.
      destruct Hrest as [?|?]; auto.
    + exists rx'. subst rx'. auto.
Qed.

(** ** The invariant *)

Record stream_inv (s : stream) : Prop := {
  si_range : 0 <= pos s /\ fis_pos s <= fl;
  si_carry : fis_carry_over s = slice (pos s) (fis_pos s) data;
  si_stream : match fis_block_in_stream s with
              | None => fis_block_in_stream_block_id s = -1
              | Some r => stream_ok r (fis_pos s)
              end;
  si_cache : forall c, fis_cache s = Some c ->
    cache_sound c (sc_cache_file_id cfg) (Z.max ps 1) data;
  (** Sequential reads through the cache never open a block stream. *)
  si_mode : is_Some (fis_cache s) -> sc_cache_sequential_read cfg = true ->
    fis_block_in_stream s = None;
}.

Lemma stream_inv_open x cache :
  (forall c, cache = Some c -> cache_sound c (sc_cache_file_id cfg) (Z.max ps 1) data) ->
  stream_inv (stream_open x cache).
Proof.
  intros Hc. pose proof (zlen_nonneg data). by split; cbn.
Qed.

(** With nothing parked, the caller is at the stream's position. *)
Lemma pos_no_carry (s : stream) : fis_carry_over s = [] -> pos s = fis_pos s.
Proof. intros H. unfold pos. rewrite H. change (zlen []) with 0. lia. Qed.

Lemma skip_loop_ok fuel r sends skip p r' out :
  0 <= p -> 0 <= skip -> p + skip <= fl -> stream_ok r p ->
  (length (frames_of r) < fuel)%nat -> skip_loop fuel r sends skip = (r', out) ->
  match out with
  | Ok rest => (stream_ok r' (p + skip + zlen rest) /\ p + skip + zlen rest <= fl /\
                rest = slice (p + skip) (p + skip + zlen rest) data)
  | Err _ => idle r'
  end.
Proof.
  revert r skip p. induction fuel as [|fuel IH]; intros r skip p Hp Hskip Hfl Hok Hfuel;
    [lia|]; cbn [skip_loop];
    (destruct (Z.leb_spec skip 0);
      [intros [= <- <-]; change (zlen []) with 0; assert (skip = 0) as -> by lia;
       rewrite !Z.add_0_r, slice_nil by lia; split_and!; [done|lia|done]|]).
  destruct (read_chunk r (sends fuel)) as [r1 item] eqn:Hc.
  pose proof (read_chunk_step _ _ _ _ Hc) as [_ Hstep _].
  pose proof (chunk_ok _ _ _ _ _ Hp Hok Hc) as Hitem.
  destruct item as [[d|]|e].
  - destruct Hitem as (Hd & Hok1 & Hle & Heq). pose proof (zlen_nonneg d).
    destruct Hstep as (_ & _ & _ & Hfr). destruct (Z.ltb_spec skip (zlen d)).
    + intros [= <- <-]. rewrite zlen_slice by lia.
      replace (p + skip + (zlen d - skip)) with (p + zlen d) by lia.
      split; [done|]. split; [lia|]. rewrite Heq at 2. rewrite slice_slice by lia. f_equal; lia.
    + intros Hrest. replace (p + skip) with (p + zlen d + (skip - zlen d)) by lia.
      apply (IH r1); [lia|lia|lia|done|lia|done].
  - intros [= <- <-]. change (zlen []) with 0. rewrite Z.add_0_r, slice_nil by lia.
    split_and!; [by right|lia|done].
  - by intros [= <- <-].
Qed.


(** ** Each operation keeps the invariant *)

Context (Hgeo : geometry cfg data).

(** A stream moved to [p] with nothing parked. *)
Lemma stream_inv_at (s : stream) p b id :
  stream_inv s -> 0 <= p <= fl ->
  match b with None => id = -1 | Some r => stream_ok r p end ->
  (fis_block_in_stream s = None -> b = None) ->
  stream_inv (set_pos (set_carry (set_block_stream s b id) []) p).
Proof.
  intros Hs Hp Hb Hmode. split.
  - rewrite pos_no_carry by done. cbn. lia.
  - rewrite pos_no_carry by done. cbn. by rewrite slice_nil by lia.
  - done.
  - exact (si_cache _ Hs).
  - intros Hc Hseq. apply Hmode. by apply (si_mode _ Hs).
Qed.

Lemma stream_inv_pos (s : stream) p :
  stream_inv s -> 0 <= p <= fl -> fis_carry_over s = [] -> fis_block_in_stream s = None ->
  stream_inv (set_pos s p).
Proof.
  intros Hs Hp Hcarry Hnone.
  pose proof (stream_inv_at s p None (-1) Hs Hp eq_refl ltac:(done)) as [H1 H2 _ H4 _].
  pose proof (si_stream _ Hs) as Hid. rewrite Hnone in Hid.
  split; unfold pos in *; cbn in *; rewrite ?Hcarry, ?Hnone; auto.
Qed.

Lemma seek_ok s p s' r :
  stream_inv s -> seek cfg s p = (s', r) ->
  stream_inv s' /\ (forall q, r = Ok q -> q = Z.max 0 (Z.min p fl) /\ pos s' = q).
Proof.
  intros Hs. pose proof (si_range _ Hs) as Hrange. pose proof (zlen_nonneg (fis_carry_over s)).
  unfold seek. rewrite (ge_length _ _ Hgeo). set (target := Z.max 0 (Z.min p fl)).
  assert (Ht : 0 <= target <= fl) by (pose proof (zlen_nonneg data); lia).
  destruct (Z.eqb_spec target (pos s)) as [Heq|Hne].
  { intros [= <- <-]. split; [done|]. intros q [= <-]. done. }
  assert (Hdrop : stream_inv (set_pos (drop_stream (set_carry s [])) target) /\
    pos (set_pos (drop_stream (set_carry s [])) target) = target).
  { split; [by apply (stream_inv_at s target None (-1))|by apply pos_no_carry]. }
  destruct Hdrop as [Hd1 Hd2].
  destruct (_ && _); [|intros [= <- <-]; split; [done|]; by intros q [= <-]].
  cbn [fis_block_in_stream set_carry fis_pos].
  destruct (fis_block_in_stream s) as [rd|] eqn:Hrd.
  - destruct (Z.ltb_spec (fis_pos s) target); [|intros [= <- <-]; split; [done|]; by intros q [= <-]].
    unfold skip_bytes. cbn [fis_block_in_stream set_carry fis_world]. rewrite Hrd.
    pose proof (si_stream _ Hs) as Hok. rewrite Hrd in Hok.
    destruct (skip_loop _ rd _ _) as [rd' out] eqn:Hskip.
    assert (Hfuel : (length (frames_of rd) < S (frames_left rd))%nat)
      by (unfold frames_left, frames_of; destruct (gr_source rd); lia).
    apply (skip_loop_ok _ _ _ _ (fis_pos s)) in Hskip as Hout; try done; [|unfold pos in *; lia..].
    rewrite Zplus_minus in Hout. destruct out as [rest|e]; intros [= <- <-].
    + destruct Hout as (Hok' & Hle & Hrest). cbn.
      assert (Hpos : pos (set_pos (set_carry (set_block_stream (set_carry s []) (Some rd')
        (fis_block_in_stream_block_id s)) rest) (target + zlen rest)) = target)
        by (unfold pos; cbn; lia).
      split; [|by intros q [= <-]]. pose proof (zlen_nonneg rest).
      split; [rewrite Hpos; cbn; lia|rewrite Hpos; exact Hrest|exact Hok'|exact (si_cache _ Hs)|].
      intros Hc Hseq. pose proof (si_mode _ Hs Hc Hseq). congruence.
    + split; [|done].
      apply (stream_inv_at s (fis_pos s) (Some rd') (fis_block_in_stream_block_id s));
        [done|unfold pos in *; lia|by right|congruence].
  - intros [= <- <-]. pose proof (si_stream _ Hs) as Hid. rewrite Hrd in Hid.
    split; [|intros q [= <-]; split; [done|by apply pos_no_carry]].
    pose proof (stream_inv_at s target None (-1) Hs Ht eq_refl ltac:(done)) as Hinv.
    destruct Hinv as [H1 H2 H3 H4 _]. split; [exact H1|exact H2| |exact H4|done].
    cbn. by rewrite Hrd.
Qed.

(** What a read at [p] may return. *)
Definition read_answer (s s' : stream) (n : Z) (r : result Error bytes) : Prop :=
  stream_inv s' /\
  (forall d, r = Ok d -> d = slice (pos s) (pos s + zlen d) data /\ zlen d <= n /\
     pos s' = pos s + zlen d) /\
  (forall e, r = Err e -> pos s' = pos s).

Lemma read_answer_ok s s' n d :
  stream_inv s' -> d = slice (pos s) (pos s + zlen d) data -> zlen d <= n ->
  pos s' = pos s + zlen d -> read_answer s s' n (Ok d).
Proof. intros Hs Hd Hn Hp. split; [done|]. split; [|done]. by intros d' [= <-]. Qed.

Lemma read_answer_nil s s' n :
  stream_inv s -> stream_inv s' -> 0 <= n -> pos s' = pos s -> read_answer s s' n (Ok []).
Proof.
  intros Hs Hs' Hn Hp. pose proof (si_range _ Hs).
  apply read_answer_ok; change (zlen []) with 0; [done| |lia|lia]. by rewrite slice_nil by lia.
Qed.

Lemma read_answer_err s s' n e :
  stream_inv s' -> pos s' = pos s -> read_answer s s' n (Err e).
Proof. intros Hs Hp. split; [done|]. split; [done|]. done. Qed.

Lemma read_sequential_ok s n s' r :
  stream_inv s -> fis_carry_over s = [] -> 0 < n ->
  read_from_sequential_stream s n = (s', r) -> read_answer s s' n r.
Proof.
  intros Hs Hcarry Hn. pose proof (si_range _ Hs) as Hrange.
  pose proof (pos_no_carry s Hcarry) as Hpos. unfold read_from_sequential_stream.
  destruct (fis_block_in_stream s) as [rd|] eqn:Hrd.
  2:{ intros [= <- <-]. apply read_answer_nil; [done|done|lia|done]. }
  destruct (read_chunk rd _) as [rd' item] eqn:Hc.
  pose proof (si_stream _ Hs) as Hok. rewrite Hrd in Hok.
  pose proof (chunk_ok _ (fis_pos s) _ _ _ ltac:(lia) Hok Hc) as Hitem.
  assert (Hmode : forall b : option GrpcBlockReader,
    is_Some (fis_cache s) -> sc_cache_sequential_read cfg = true -> b = None).
  { intros b Hm1 Hm2. pose proof (si_mode _ Hs Hm1 Hm2). congruence. }
  assert (Hat : forall b id, match b with None => id = -1 | Some r => stream_ok r (fis_pos s) end ->
    stream_inv (set_block_stream s b id) /\ pos (set_block_stream s b id) = pos s).
  { intros b id Hb. split; [|done]. destruct Hs as [H1 H2 _ H4 _]. split; auto. }
  destruct item as [[d|]|e].
  - destruct Hitem as (Hd & Hok' & Hle & Heq). pose proof (zlen_nonneg d).
    set (m := Z.min (zlen d) n).
    assert (Hcar : (if m <? zlen d then fis_carry_over s ++ slice m (zlen d) d
                    else fis_carry_over s) = slice (fis_pos s + m) (fis_pos s + zlen d) data).
    { rewrite Hcarry. destruct (Z.ltb_spec m (zlen d)).
      - cbn. rewrite Heq at 2. rewrite slice_slice by lia. done.
      - rewrite slice_nil by lia. done. }
    assert (Hfinal : forall b id, match b with None => id = -1 | Some r =>
        stream_ok r (fis_pos s + zlen d) end ->
      read_answer s (mkFileInStream (fis_pos s + zlen d)
        (slice (fis_pos s + m) (fis_pos s + zlen d) data) b id (fis_world s) (fis_cache s)) n
        (Ok (slice 0 m d))).
    { intros b id Hb. apply read_answer_ok; [..|rewrite zlen_slice by lia|rewrite zlen_slice by lia].
      - split; unfold pos; cbn; [rewrite zlen_slice by lia; lia| |done|exact (si_cache _ Hs)|apply Hmode].
        rewrite zlen_slice by lia. f_equal. lia.
      - rewrite zlen_slice by lia. rewrite Heq at 1. rewrite slice_slice by lia. f_equal; lia.
      - lia.
      - unfold pos at 1. cbn. rewrite zlen_slice; lia. }
    destruct (is_complete rd'); intros [= <- <-]; rewrite <- Hcar in Hfinal;
      destruct (m <? zlen d); by apply Hfinal.
  - intros [= <- <-]. destruct (Hat None (-1) eq_refl) as [Hi Hp].
    apply read_answer_nil; [done|exact Hi|lia|exact Hp].
  - intros [= <- <-]. apply read_answer_err; [|done]. by apply (Hat (Some rd')); right.
Qed.

(** A freshly opened stream of the block at [p], and what it carries. *)
Lemma opened_live (id p : Z) tuning frames aborted :
  0 <= p < fl -> honest_frames cfg data (p / bs) (p mod bs) (remaining_in_block cfg p) frames ->
  live (open_sequential id (offset_in_block cfg p) (remaining_in_block cfg p) tuning frames aborted) p.
Proof.
  intros Hp (k & Hk & Hpay). pose proof (ge_block _ _ Hgeo). pose proof (ge_bound _ _ Hgeo).
  destruct (split_pos cfg data Hgeo p) as (Hi & Hsum & Hmod & Hle); [lia|].
  pose proof (remaining_stop cfg data Hgeo p ltac:(lia)) as Hrem.
  pose proof (block_stop_bounds cfg data Hgeo p ltac:(lia)).
  assert (Hpre : exists j, payload (drain_task frames aborted) = slice p j data /\ p <= j <= k).
  { rewrite Hsum in Hk, Hpay. destruct aborted as [m|]; cbn.
    - destruct (payload_take m (drain frames)) as [j Hj]. rewrite payload_drain, Hpay in Hj.
      exists (Z.min k (p + Z.of_nat j)). split; [|lia]. rewrite Hj. unfold slice.
      rewrite take_take. f_equal. lia.
    - exists k. rewrite payload_drain. split; [done|lia]. }
  destruct Hpre as (j & Hj & Hjk). rewrite Hsum in Hk.
  exists (drain_task frames aborted), (p + remaining_in_block cfg p), j. cbn.
  split_and!; try done; try lia. apply drain_task_drained.
Qed.

Lemma open_block_ok s id s' r :
  honest_world cfg data -> stream_inv s -> fis_carry_over s = [] -> fis_pos s < fl ->
  block_id_at cfg (block_index_for_pos cfg (fis_pos s)) = Ok id ->
  open_block cfg s (block_index_for_pos cfg (fis_pos s)) id = (s', r) ->
  (exists x, s' = set_world s x) /\ (forall rd, r = Ok rd -> live rd (fis_pos s)).
Proof.
  intros Hw Hs Hcarry Hlt Hid. pose proof (si_range _ Hs) as Hrange.
  rewrite pos_no_carry in Hrange by done. unfold open_block.
  pose proof (ge_block _ _ Hgeo). pose proof (ge_bound _ _ Hgeo).
  set (p := fis_pos s) in *.
  destruct (split_pos cfg data Hgeo p) as (Hi & Hsum & Hmod & Hle); [lia|].
  rewrite (block_index_div cfg data Hgeo) in * by lia.
  assert (Hopen : forall x x' r0,
    sequential_once cfg x id (offset_in_block cfg p) (remaining_in_block cfg p)
      (build_ufs_opts cfg (p / bs)) = (x', r0) -> forall rd, r0 = Ok rd -> live rd p).
  { intros x x' r0. unfold sequential_once. destruct (wa_open_sequential _ _ _ _ _) as [x1 [[frames ab]|e]] eqn:Ho;
      cbn; intros [= <- <-]; [|done]. intros rd [= <-]. apply opened_live; [lia|].
    rewrite (offset_in_block_mod cfg data Hgeo) in Ho by lia.
    eapply (hw_sequential _ _ Hw); [exact Hid| |exact Ho].
    rewrite (remaining_stop cfg data Hgeo) by lia.
    apply (in_block_to cfg data Hgeo); unfold block_stop; lia. }
  destruct (wa_connect (fis_world s) id) as [x [gen|e]]; [|intros [= <- <-]; split; [eauto|done]].
  destruct (sequential_once cfg x _ _ _ _) as [x1 r1] eqn:Ho1. destruct r1 as [rd|e].
  { intros [= <- <-]. split; [eauto|]. by apply (Hopen x x1). }
  destruct (is_authentication_failed e); [|intros [= <- <-]; split; [eauto|done]].
  destruct (wa_reconnect x1 id gen) as [x2 [g|e']]; [|intros [= <- <-]; split; [eauto|done]].
  destruct (sequential_once cfg x2 _ _ _ _) as [x3 r3] eqn:Ho3. intros [= <- <-]. split; [eauto|].
  by apply (Hopen x2 x3).
Qed.

Lemma stream_inv_world s x : stream_inv s -> stream_inv (set_world s x).
Proof. intros [H1 H2 H3 H4 H5]. by split. Qed.

(** A cached read of a range inside the file. *)
Lemma read_at_cached_ok s a b :
  honest_world cfg data -> stream_inv s -> 0 <= a <= b -> b <= fl ->
  exists s' r, read_at_cached cfg short_msg zero_msg s a b = Some (s', r) /\
    stream_inv s' /\ pos s' = pos s /\ fis_pos s' = fis_pos s /\
    fis_carry_over s' = fis_carry_over s /\
    fis_block_in_stream s' = fis_block_in_stream s /\
    fis_block_in_stream_block_id s' = fis_block_in_stream_block_id s /\
    exact data a b r /\
    (delivering_world cfg data -> a < b -> is_ok r = true).
Proof.
  intros Hw Hs Ha Hb. pose proof (ge_block _ _ Hgeo). pose proof (ge_bound _ _ Hgeo).
  unfold read_at_cached. destruct (fis_cache s) as [c|] eqn:Hc.
  - pose proof (external_reader_honest cfg data Hgeo Hw) as Hhon.
    rewrite (ge_length _ _ Hgeo).
    destruct (read_through_cache_spec (read_external_range cfg) short_msg zero_msg c (fis_world s)
      (sc_cache_file_id cfg) ps data a b (cache_fill_mode cfg)) as (c' & x' & r & -> & Hc' & Hex & Hdel);
      [apply (ge_page_bound _ _ Hgeo)|lia|lia|apply (ge_page _ _ Hgeo)|by apply (si_cache _ Hs)|done|].
    cbn. eexists _, r. split; [done|]. split_and!; try done.
    + destruct Hs as [H1 H2 H3 _ H5]. split; [done|done|done|by intros c0 [= <-]|].
      intros _ Hseq. apply H5; [|done]. rewrite Hc. eauto.
    + intros Hd _. apply Hdel. by apply external_reader_delivers.
  - destruct (read_external_range cfg (fis_world s) a b) as [x' r] eqn:Hr.
    destruct (read_external_range_spec cfg data Hgeo _ _ _ _ _ Ha Hb Hr)
      as [Hex Hdel].
    eexists _, r. split; [done|]. split_and!; try done; [by apply stream_inv_world|auto|].
    intros Hd Hlt. by apply Hdel.
Qed.

Lemma read_ok s n :
  honest_world cfg data -> stream_inv s -> 0 <= n ->
  exists s' r, read cfg short_msg zero_msg s n = Some (s', r) /\ read_answer s s' n r.
Proof.
  intros Hw Hs Hn. pose proof (si_range _ Hs) as Hrange. unfold read.
  assert (Hempty : read_answer s s n (Ok [])) by (by apply read_answer_nil).
  destruct (Z.eqb_spec n 0); [eauto|].
  destruct (Z.eqb_spec (zlen (fis_carry_over s)) 0) as [Hz|Hz]; cbn [negb].
  2:{ pose proof (zlen_nonneg (fis_carry_over s)).
      set (t := Z.min (zlen (fis_carry_over s)) n). eexists _, _. split; [done|].
      assert (Hp' : pos (set_carry s (slice t (zlen (fis_carry_over s)) (fis_carry_over s)))
                    = pos s + t) by (unfold pos; cbn; rewrite zlen_slice by lia; lia).
      apply read_answer_ok; [..|rewrite zlen_slice by lia; lia|rewrite zlen_slice by lia; lia].
      - split; [rewrite Hp'; cbn; unfold pos in *; lia| |exact (si_stream _ Hs)|exact (si_cache _ Hs)
               |exact (si_mode _ Hs)].
        rewrite Hp'. cbn. rewrite (si_carry _ Hs) at 2. unfold pos in *.
        rewrite slice_slice by lia. f_equal; lia.
      - rewrite zlen_slice by lia. rewrite (si_carry _ Hs) at 1. unfold pos in *. rewrite slice_slice by lia. f_equal; lia. }
  assert (Hcarry : fis_carry_over s = []) by (by apply zlen_nil_inv).
  pose proof (pos_no_carry s Hcarry) as Hpos. rewrite (ge_length _ _ Hgeo).
  destruct (Z.leb_spec fl (fis_pos s)); [eauto|].
  destruct (_ && _) eqn:Hmode.
  - apply andb_true_iff in Hmode as [Hc%bool_decide_eq_true Hseq].
    pose proof (si_mode _ Hs Hc Hseq) as Hnone.
    destruct (read_at_cached_ok s (fis_pos s) (Z.min (fis_pos s + n) fl)) as
      (s' & r & -> & Hi & Hp & Hfp & Hca & Hbs & _ & Hex & _); [done|done|lia|lia|].
    cbn. destruct r as [d|e]; [|eexists _, _; split; [done|]; by apply read_answer_err].
    eexists _, _. split; [done|]. rewrite (Hex d eq_refl), zlen_slice by lia.
    replace (Z.min (_ - _) n) with (Z.min (fis_pos s + n) fl - fis_pos s) by lia.
    rewrite slice_slice by lia. rewrite Z.add_0_r, Zplus_minus.
    apply read_answer_ok; rewrite ?zlen_slice, ?Hfp, ?Hpos, ?Zplus_minus by lia; [|done|lia|].
    + apply stream_inv_pos; [done|lia|congruence|congruence].
    + by rewrite pos_no_carry by (cbn; congruence).
  - destruct (block_id_at cfg _) as [id|e] eqn:Hid; [|eexists _, _; split; [done|]; by apply read_answer_err].
    destruct (Z.eqb_spec (fis_block_in_stream_block_id s) id).
    + destruct (read_from_sequential_stream s n) as [s' r] eqn:Hr.
      eexists _, _. split; [done|]. apply read_sequential_ok; [done|done|lia|done].
    + destruct (open_block cfg s _ id) as [s1 r1] eqn:Ho.
      destruct (open_block_ok _ _ _ _ Hw Hs Hcarry ltac:(lia) Hid Ho) as [[x ->] Hlive].
      destruct r1 as [rd|e]; [|eexists _, _; split; [done|];
        apply read_answer_err; [by apply stream_inv_world|done]].
      destruct (read_from_sequential_stream (set_block_stream (set_world s x) (Some rd) id) n)
        as [s' r] eqn:Hr.
      eexists _, _. split; [done|].
      apply read_sequential_ok in Hr; [exact Hr| |done|lia].
      destruct Hs as [H1 H2 _ H4 _]. split; [done|done|left; by apply Hlive|done|].
      intros Hc Hseq. cbn in Hc. rewrite Hseq, bool_decide_eq_true_2 in Hmode by done. done.
Qed.
End Correct.
