(* ===== verification/InStreamDeliver.v ===== *)
(** * File input stream: progress

    With workers that deliver, an open block stream always holds the rest of its
    block, or is complete and belongs to another block; so no read stops early. *)

From S2P Require Import Prelude Text Errors PageCache BlockReader InStream InStreamFacts.
From S2P Require Import InStreamProps.

Section Deliver.
Context {X C : Type} `{!WorkerAccess X, !CacheManager C, !CacheSound C}.
Context (cfg : InStreamConfig) (data : bytes).
Context (short_msg zero_msg : PagePiece -> bytes -> string).
Context (Hgeo : geometry cfg data).

Abbreviation stream := (GoosefsFileInStream X C).
Abbreviation bs := (ss_block_size_bytes (sc_status cfg)).
Abbreviation fl := (zlen data).

(** The channel holds the file from [p] to [stop], which completes the range. *)
Definition flows (r : GrpcBlockReader) (p stop : Z) : Prop :=
  exists rx, gr_source r = Buffered rx /\ drained rx /\
    p + (gr_length r - gr_bytes_received r) = stop /\ payload rx = slice p stop data.

Definition ready_stream (r : GrpcBlockReader) (id p : Z) : Prop :=
  (p < fl /\ block_id_at cfg (p / bs) = Ok id /\ flows r p (block_stop cfg data p)) \/
  (is_complete r = true /\ (p < fl -> block_id_at cfg (p / bs) <> Ok id)).

Definition ready (s : stream) : Prop :=
  match fis_block_in_stream s with
  | None => True
  | Some r => ready_stream r (fis_block_in_stream_block_id s) (fis_pos s)
  end.

(** A stream with data left gives a chunk of it. *)
Lemma chunk_flows r p stop o r' item :
  0 <= p < stop -> stop <= fl -> flows r p stop -> read_chunk r o = (r', item) ->
  exists d, item = Ok (Some d) /\ d <> [] /\ p + zlen d <= stop /\ flows r' (p + zlen d) stop /\
    (length (frames_of r') < length (frames_of r))%nat.
Proof.
  intros Hp Hstop (rx & Hs & Hrx & Hsum & Hpay) Hc.
  pose proof (read_chunk_step _ _ _ _ Hc) as [(_ & _ & Hlen) Hitem Hdr].
  destruct (Hdr rx Hs Hrx) as (rx' & Hs' & Hrx' & _).
  assert (Hf : frames_of r = rx) by (unfold frames_of; by rewrite Hs).
  assert (Hf' : frames_of r' = rx') by (unfold frames_of; by rewrite Hs').
  rewrite Hf, Hf' in *. assert (Hne : payload rx <> []).
  { rewrite Hpay. intros H. apply (f_equal zlen) in H. rewrite zlen_slice in H by lia.
    change (zlen []) with 0 in H. lia. }
  destruct item as [[d|]|e]; [|destruct Hitem as [_ [?|?]]; [lia|done]|by destruct Hitem].
  destruct Hitem as (Hd & Hpd & Hrec & Hfr). rewrite Hpay in Hpd.
  assert (Hz : zlen d + zlen (payload rx') = stop - p)
    by (rewrite <- zlen_app, <- Hpd; apply zlen_slice; lia).
  pose proof (zlen_nonneg (payload rx')). pose proof (zlen_nonneg d).
  exists d. split; [done|]. split; [done|]. split; [lia|]. split; [|done].
  exists rx'. split; [done|]. split; [done|]. split; [lia|].
  rewrite <- (slice_app p (p + zlen d) stop) in Hpd by lia.
  apply app_inj_1 in Hpd as [_ Hpd]; [done|]. apply Nat2Z.inj. fold (zlen d).
  fold (zlen (slice p (p + zlen d) data)). rewrite zlen_slice; lia.
Qed.

Lemma complete_at_stop r p : flows r p p -> is_complete r = true.
Proof. intros (rx & _ & _ & Hsum & _). unfold is_complete. apply Z.leb_le. lia. Qed.

(** Skipping within the block never fails. *)
Lemma skip_loop_flows fuel r sends skip p stop r' out :
  0 <= p -> 0 <= skip -> p + skip <= stop -> stop <= fl -> flows r p stop ->
  (length (frames_of r) < fuel)%nat -> skip_loop fuel r sends skip = (r', out) ->
  exists rest, out = Ok rest /\ p + skip + zlen rest <= stop /\
    flows r' (p + skip + zlen rest) stop.
Proof.
  revert r skip p. induction fuel as [|fuel IH]; intros r skip p Hp Hskip Hle Hstop Hfl Hfuel;
    [lia|]; cbn [skip_loop].
  destruct (Z.leb_spec skip 0).
  { intros [= <- <-]. exists []. change (zlen []) with 0. assert (skip = 0) as -> by lia.
    rewrite !Z.add_0_r. split_and!; [done|lia|done]. }
  destruct (read_chunk r (sends fuel)) as [r1 item] eqn:Hc.
  destruct (chunk_flows r p stop _ _ _ ltac:(lia) Hstop Hfl Hc) as (d & -> & Hd & Hpd & Hfl1 & Hfr).
  pose proof (zlen_nonneg d). destruct (Z.ltb_spec skip (zlen d)).
  - intros [= <- <-]. eexists. split; [done|]. rewrite zlen_slice by lia.
    replace (p + skip + (zlen d - skip)) with (p + zlen d) by lia. done.
  - intros Hrest. replace (p + skip) with (p + zlen d + (skip - zlen d)) by lia.
    apply (IH r1); [lia|lia|lia|done|done|lia|done].
Qed.

(** A complete stream has nothing to skip. *)
Lemma skip_loop_complete fuel r sends skip r' out :
  is_complete r = true -> (0 < fuel)%nat -> skip_loop fuel r sends skip = (r', out) ->
  is_complete r' = true /\ out = Ok [].
Proof.
  unfold is_complete. intros Hr Hf. destruct fuel as [|fuel]; [lia|]. cbn [skip_loop].
  destruct (skip <=? 0); [by intros [= <- <-]|]. unfold read_chunk. rewrite Hr. by intros [= <- <-].
Qed.

Context (Hhw : honest_world cfg data) (Hdw : delivering_world cfg data).

(** Moving within the block, up to its end. *)
Lemma ready_moved r id p q :
  0 <= p <= q -> p < fl -> q <= block_stop cfg data p -> block_id_at cfg (p / bs) = Ok id ->
  flows r q (block_stop cfg data p) -> ready_stream r id q.
Proof.
  intros Hp Hpfl Hq Hid Hfl. pose proof (ge_block _ _ Hgeo).
  destruct (Z.eq_dec q (block_stop cfg data p)) as [->|Hne].
  - right. split; [by eapply complete_at_stop|]. intros Hlt Hid'.
    destruct (split_pos cfg data Hgeo p) as (Hi & Hsp & Hmp & _); [lia|].
    destruct (split_pos cfg data Hgeo (block_stop cfg data p)) as (Hi' & _); [lia|].
    pose proof (dw_distinct _ _ Hdw _ _ _ Hi Hi' Hid Hid') as Heq.
    unfold block_stop in *. rewrite Z.min_l in Heq by lia.
    rewrite Z.div_add_l in Heq by lia. rewrite Z_div_same_full in Heq by lia. lia.
  - pose proof (block_stop_bounds cfg data Hgeo p ltac:(lia)).
    pose proof (same_block_before cfg data Hgeo p q ltac:(lia) ltac:(lia)) as Hsame.
    left. unfold block_stop in *. rewrite Hsame. split_and!; [lia|done|done].
Qed.

Lemma read_sequential_flows s n s' r rd id :
  0 <= fis_pos s < fl -> 0 < n -> fis_block_in_stream s = Some rd ->
  fis_block_in_stream_block_id s = id -> block_id_at cfg (fis_pos s / bs) = Ok id ->
  flows rd (fis_pos s) (block_stop cfg data (fis_pos s)) ->
  read_from_sequential_stream s n = (s', r) ->
  ready s' /\ exists d, r = Ok d /\ d <> [].
Proof.
  intros Hp Hn Hrd Hsid Hid Hfl. unfold read_from_sequential_stream. rewrite Hrd.
  destruct (read_chunk rd _) as [rd' item] eqn:Hc.
  pose proof (block_stop_bounds cfg data Hgeo (fis_pos s) ltac:(lia)).
  destruct (chunk_flows rd (fis_pos s) (block_stop cfg data (fis_pos s)) _ _ _
    ltac:(lia) ltac:(lia) Hfl Hc)
    as (d & -> & Hd & Hle & Hfl' & _).
  assert (Hz : 0 < zlen d) by (destruct d; [done|unfold zlen; cbn; lia]).
  intros [= <- <-]. split.
  - destruct (is_complete rd') eqn:Hcomp; [done|].
    assert (Hr : ready_stream rd' id (fis_pos s + zlen d))
      by (apply (ready_moved _ _ (fis_pos s)); [lia|lia|lia|done|done]).
    unfold ready. destruct (_ <? _); cbn; by rewrite Hsid.
  - eexists. split; [done|]. intros Hnil%(f_equal zlen). rewrite zlen_slice in Hnil by lia.
    change (zlen []) with 0 in Hnil. lia.
Qed.

(** A freshly opened stream holds the rest of its block. *)
Lemma open_block_flows s id s' r :
  stream_inv cfg data s -> fis_carry_over s = [] -> fis_pos s < fl ->
  block_id_at cfg (fis_pos s / bs) = Ok id ->
  open_block cfg s (fis_pos s / bs) id = (s', r) ->
  exists rd, r = Ok rd /\ flows rd (fis_pos s) (block_stop cfg data (fis_pos s)).
Proof.
  intros Hs Hcarry Hlt Hid. pose proof (si_range _ _ _ Hs) as Hrange.
  rewrite pos_no_carry in Hrange by done. unfold open_block. set (p := fis_pos s) in *.
  destruct (split_pos cfg data Hgeo p) as (Hi & Hsum & Hmod & Hle); [lia|].
  pose proof (block_stop_bounds cfg data Hgeo p ltac:(lia)).
  rewrite (offset_in_block_mod cfg data Hgeo), (remaining_stop cfg data Hgeo) by lia.
  pose proof (dw_connect _ _ Hdw (fis_world s) id) as Hconn.
  destruct (wa_connect (fis_world s) id) as [x [gen|e]]; [|done].
  unfold sequential_once.
  destruct (dw_sequential _ _ Hdw x id (p / bs) (p mod bs) (block_stop cfg data p - p)
    (build_ufs_opts cfg (p / bs)) Hid) as (frames & Hopen & _ & Hpay).
  { apply (in_block_to cfg data Hgeo); unfold block_stop in *; lia. }
  destruct (wa_open_sequential _ _ _ _ _) as [x1 opened]. cbn in Hopen. subst opened.
  cbn. intros [= <- <-]. eexists. split; [done|]. eexists. split; [done|].
  split; [apply (drain_task_drained frames None)|]. cbn. split; [lia|].
  rewrite payload_drain, Hpay. f_equal; lia.
Qed.

Lemma read_progress s n s' r :
  stream_inv cfg data s -> ready s -> 0 < n ->
  read cfg short_msg zero_msg s n = Some (s', r) ->
  ready s' /\ exists d, r = Ok d /\ (pos s < fl -> d <> []).
Proof.
  intros Hs Hready Hn. pose proof (si_range _ _ _ Hs) as Hrange. unfold read.
  destruct (Z.eqb_spec n 0); [lia|].
  destruct (Z.eqb_spec (zlen (fis_carry_over s)) 0) as [Hz|Hz]; cbn [negb].
  2:{ pose proof (zlen_nonneg (fis_carry_over s)). intros [= <- <-]. split; [exact Hready|].
      eexists. split; [done|]. intros _ Hnil%(f_equal zlen). rewrite zlen_slice in Hnil by lia.
      change (zlen []) with 0 in Hnil. lia. }
  assert (Hcarry : fis_carry_over s = []) by (by apply zlen_nil_inv).
  rewrite (pos_no_carry s Hcarry) in *. rewrite (ge_length _ _ Hgeo).
  destruct (Z.leb_spec fl (fis_pos s)); [intros [= <- <-]; split; [done|]; eexists; split; [done|lia]|].
  destruct (_ && _) eqn:Hmode.
  - apply andb_true_iff in Hmode as [Hc%bool_decide_eq_true Hseq].
    pose proof (si_mode _ _ _ Hs Hc Hseq) as Hnone.
    destruct (read_at_cached_ok cfg data short_msg zero_msg Hgeo s (fis_pos s)
      (Z.min (fis_pos s + n) fl)) as (s1 & r1 & -> & _ & _ & _ & _ & Hbs & _ & Hex & Hok);
      [done|done|lia|lia|].
    specialize (Hok Hdw ltac:(lia)). destruct r1 as [d|]; [|done]. cbn. intros [= <- <-].
    split; [unfold ready; cbn; by rewrite Hbs, Hnone|]. eexists. split; [done|]. intros _.
    rewrite (Hex d eq_refl), zlen_slice by lia. intros Hnil%(f_equal zlen).
    rewrite zlen_slice in Hnil by (rewrite ?zlen_slice; lia). change (zlen []) with 0 in Hnil. lia.
  - rewrite (block_index_div cfg data Hgeo) by lia.
    destruct (split_pos cfg data Hgeo (fis_pos s)) as (Hi & Hsum & Hmod & Hle); [lia|].
    pose proof (dw_ids _ _ Hdw (fis_pos s / bs) Hi ltac:(lia)) as Hids.
    destruct (block_id_at cfg (fis_pos s / bs)) as [id|] eqn:Hid; [|done].
    destruct (Z.eqb_spec (fis_block_in_stream_block_id s) id) as [Heq|Hne].
    + unfold ready in Hready. pose proof (si_stream _ _ _ Hs) as Hst.
      destruct (fis_block_in_stream s) as [rd|] eqn:Hrd;
        [|apply block_id_positive in Hid; lia].
      destruct Hready as [(_ & _ & Hfl)|[_ Hno]]; [|rewrite Heq in Hno; by specialize (Hno ltac:(lia))].
      intros [= Hr]. apply (read_sequential_flows _ _ _ _ rd id) in Hr as (Hr' & d & -> & Hd);
        [split; [done|]; eauto|cbn; lia|done..].
    + destruct (open_block cfg s _ id) as [s1 r1] eqn:Ho.
      destruct (open_block_flows _ _ _ _ Hs Hcarry ltac:(done) Hid Ho) as (rd & -> & Hfl).
      rewrite <- (block_index_div cfg data Hgeo (fis_pos s)) in Hid, Ho by lia.
      destruct (open_block_ok cfg data Hgeo _ _ _ _ Hhw Hs Hcarry ltac:(done) Hid Ho) as [[x ->] _].
      rewrite (block_index_div cfg data Hgeo) in Hid by lia.
      intros [= Hr]. apply (read_sequential_flows _ _ _ _ rd id) in Hr as (Hr' & d & -> & Hd);
        [split; [done|]; eauto|cbn; lia|done..].
Qed.

Lemma seek_progress s p s' r :
  stream_inv cfg data s -> ready s -> seek cfg s p = (s', r) -> ready s' /\ is_ok r = true.
Proof.
  intros Hs Hready. pose proof (si_range _ _ _ Hs) as Hrange.
  pose proof (zlen_nonneg (fis_carry_over s)). unfold seek. rewrite (ge_length _ _ Hgeo).
  set (target := Z.max 0 (Z.min p fl)).
  assert (Ht : 0 <= target <= fl) by (pose proof (zlen_nonneg data); lia).
  destruct (target =? pos s); [by intros [= <- <-]|].
  destruct (_ && _) eqn:Hnear; [|by intros [= <- <-]].
  apply andb_true_iff in Hnear as [_ Hsame%Z.eqb_eq]. unfold pos in Hrange.
  cbn [fis_block_in_stream set_carry fis_pos] in *.
  rewrite !(block_index_div cfg data Hgeo) in Hsame by lia. unfold ready in Hready.
  destruct (fis_block_in_stream s) as [rd|] eqn:Hrd.
  2:{ intros [= <- <-]. split; [|done]. unfold ready. cbn. by rewrite Hrd. }
  destruct (Z.ltb_spec (fis_pos s) target); [|by intros [= <- <-]].
  unfold skip_bytes. cbn [fis_block_in_stream set_carry fis_world]. rewrite Hrd.
  destruct (skip_loop _ rd _ _) as [rd' out] eqn:Hskip.
  set (p0 := fis_pos s) in *. set (id := fis_block_in_stream_block_id s) in *.
  assert (Hgoal : exists rest, out = Ok rest /\ ready_stream rd' id (target + zlen rest)).
  { destruct Hready as [(Hlt & Hid & Hfl)|[Hcomp Hno]].
    - pose proof (block_stop_bounds cfg data Hgeo p0 ltac:(lia)).
      pose proof (ge_block _ _ Hgeo). pose proof (Z.div_mod target bs ltac:(lia)).
      pose proof (Z.mod_pos_bound target bs ltac:(lia)).
      assert (target <= block_stop cfg data p0) by (unfold block_stop; rewrite Hsame in *; lia).
      apply (skip_loop_flows _ _ _ _ p0 (block_stop cfg data p0)) in Hskip
        as (rest & -> & Hle & Hfl'); [|lia|lia|lia|lia|done|].
      2:{ unfold frames_left, frames_of. destruct (gr_source rd); lia. }
      rewrite Zplus_minus in *. pose proof (zlen_nonneg rest).
      exists rest. split; [done|]. apply (ready_moved _ _ p0); [lia|lia|lia|done|done].
    - apply skip_loop_complete in Hskip as [Hcomp' ->]; [|done|lia].
      exists []. split; [done|]. change (zlen []) with 0. rewrite Z.add_0_r.
      right. split; [done|]. intros _. rewrite Hsame. apply Hno. lia. }
  destruct Hgoal as (rest & -> & Hr). by intros [= <- <-].
Qed.
End Deliver.
