(* ===== verification/InStreamTheorems.v ===== *)
(** * File input stream: theorems

    A file cursor as the abstract contract of the stream, and the theorems that the
    stream implements it over any sequence of operations, over one block or many,
    with or without the page cache. *)

From S2P Require Import Prelude Text Proto Errors PageCache BlockReader InStream InStreamFacts.
From S2P Require Import InStreamProps InStreamDeliver.

(** ** Sequences of operations *)

Inductive StreamOp : Type :=
| OpRead (n : Z)
| OpSeek (f : SeekFrom)
| OpReadAt (offset n : Z).

Inductive StreamOut : Type :=
| OutBytes (r : result Error bytes)
| OutPos (r : result Error Z).

Section Run.
Context {X C : Type} `{!WorkerAccess X, !CacheManager C}.
Context (cfg : InStreamConfig) (short_msg zero_msg : PagePiece -> bytes -> string).

Definition stream_step (s : GoosefsFileInStream X C) (op : StreamOp)
  : option (GoosefsFileInStream X C * StreamOut) :=
  match op with
  | OpRead n => '(s, r) ← read cfg short_msg zero_msg s n; Some (s, OutBytes r)
  | OpSeek f => let '(s, r) := seek_from cfg s f in Some (s, OutPos r)
  | OpReadAt offset n => '(s, r) ← read_at cfg short_msg zero_msg s offset n; Some (s, OutBytes r)
  end.

Fixpoint stream_run (s : GoosefsFileInStream X C) (ops : list StreamOp)
  : option (GoosefsFileInStream X C * list StreamOut) :=
  match ops with
  | [] => Some (s, [])
  | op :: ops =>
      '(s, out) ← stream_step s op;
      '(s, outs) ← stream_run s ops;
      Some (s, out :: outs)
  end.
End Run.

(** ** The contract: a cursor over the file's bytes *)

Section Cursor.
Context (data : bytes).

(** Arguments whose sums stay in an [i64]. *)
Definition op_ok (op : StreamOp) : Prop :=
  match op with
  | OpRead n => 0 <= n
  | OpSeek (SeekStart n) => 0 <= n <= i64_max
  | OpSeek (SeekEnd n) | OpSeek (SeekCurrent n) => - i64_max - 1 <= n <= i64_max - zlen data
  | OpReadAt offset n => 0 <= offset /\ 0 <= n /\ offset + n <= i64_max
  end.

Definition seek_target (p : Z) (f : SeekFrom) : Z :=
  Z.max 0 (Z.min (match f with
                  | SeekStart n => n
                  | SeekEnd n => zlen data + n
                  | SeekCurrent n => p + n
                  end) (zlen data)).

(** [may_fail]: whether workers may fail.  If not, a read before the end of the
    file returns at least one byte.  A seek that fails leaves some position. *)
Inductive cursor_step (may_fail : Prop) (p : Z) : StreamOp -> StreamOut -> Z -> Prop :=
| cs_read n d :
    d = slice p (p + zlen d) data -> zlen d <= n ->
    (~ may_fail -> 0 < n -> p < zlen data -> d <> []) ->
    cursor_step may_fail p (OpRead n) (OutBytes (Ok d)) (p + zlen d)
| cs_read_failed n e : may_fail -> cursor_step may_fail p (OpRead n) (OutBytes (Err e)) p
| cs_seek f : cursor_step may_fail p (OpSeek f) (OutPos (Ok (seek_target p f))) (seek_target p f)
| cs_seek_failed f e p' :
    may_fail -> 0 <= p' <= zlen data -> cursor_step may_fail p (OpSeek f) (OutPos (Err e)) p'
| cs_read_at offset n :
    cursor_step may_fail p (OpReadAt offset n) (OutBytes (Ok (slice offset (offset + n) data))) p
| cs_read_at_failed offset n e :
    may_fail -> cursor_step may_fail p (OpReadAt offset n) (OutBytes (Err e)) p.

Inductive cursor_run (may_fail : Prop) (p : Z) : list StreamOp -> list StreamOut -> Z -> Prop :=
| cr_nil : cursor_run may_fail p [] [] p
| cr_cons op out p1 ops outs p2 :
    cursor_step may_fail p op out p1 -> cursor_run may_fail p1 ops outs p2 ->
    cursor_run may_fail p (op :: ops) (out :: outs) p2.
End Cursor.

(** ** The stream implements the cursor *)

Section Refinement.
Context {X C : Type} `{!WorkerAccess X, !CacheManager C, !CacheSound C}.
Context (cfg : InStreamConfig) (data : bytes).
Context (short_msg zero_msg : PagePiece -> bytes -> string).
Context (Hgeo : geometry cfg data) (Hhw : honest_world cfg data).

Abbreviation stream := (GoosefsFileInStream X C).
Abbreviation fl := (zlen data).
Abbreviation inv := (stream_inv cfg data).
Abbreviation Ready := (ready cfg data).

Lemma read_at_ok (s : stream) offset n :
  inv s -> 0 <= offset -> 0 <= n -> offset + n <= i64_max ->
  exists s' r, read_at cfg short_msg zero_msg s offset n = Some (s', r) /\
    inv s' /\ pos s' = pos s /\ (Ready s -> Ready s') /\
    (forall d, r = Ok d -> d = slice offset (offset + n) data) /\
    (delivering_world cfg data -> is_ok r = true).
Proof.
  intros Hs Ho Hn Hsum. unfold read_at. rewrite (ge_length _ _ Hgeo).
  destruct (Z.leb_spec fl offset) as [Hpast|Hin]; cbn [orb].
  { exists s, (Ok []). split_and!; try done. intros d [= <-]. by rewrite slice_past by lia. }
  destruct (Z.eqb_spec n 0) as [->|Hpos].
  { exists s, (Ok []). split_and!; try done. intros d [= <-]. by rewrite slice_nil by lia. }
  unfold i64_add, i64_max in *. rewrite !as_i64_small by (unfold is_i64; rewrite ?as_i64_small;
    unfold is_i64; lia).
  assert (Hclip : slice offset (offset + n) data = slice offset (Z.min (offset + n) fl) data).
  { destruct (Z.min_spec (offset + n) fl) as [[_ ->]|[Hle ->]]; [done|]. apply slice_clamp; lia. }
  destruct (read_at_cached_ok cfg data short_msg zero_msg Hgeo s offset (Z.min (offset + n) fl))
    as (s' & r & Hread & Hi & Hp & Hfp & _ & Hb & Hid & Hex & Hok); [done|done|lia|lia|].
  exists s', r. split.
  - unfold read_at_cached in *. by destruct (fis_cache s).
  - split_and!; [done|done|unfold ready; by rewrite Hb, Hid, Hfp| |].
    + intros d Hd. rewrite Hclip. by apply Hex.
    + intros Hd. apply Hok; [done|lia].
Qed.

Lemma seek_target_arg (s : stream) f :
  inv s -> op_ok data (OpSeek f) ->
  seek_from cfg s f = seek cfg s (match f with
    | SeekStart n => n | SeekEnd n => fl + n | SeekCurrent n => pos s + n end).
Proof.
  intros Hs Hop. pose proof (si_range _ _ _ Hs). pose proof (zlen_nonneg data).
  pose proof (zlen_nonneg (fis_carry_over s)). assert (pos s <= fl) by (unfold pos in *; lia).
  unfold op_ok, seek_from, i64_add in *. rewrite (ge_length _ _ Hgeo).
  destruct f; unfold i64_max in Hop; by rewrite as_i64_small by (unfold is_i64; lia).
Qed.

(** One operation, with what it keeps. *)
Lemma step_refines (may_fail : Prop) (s : stream) op :
  inv s -> (~ may_fail -> Ready s) -> (~ may_fail -> delivering_world cfg data) ->
  (may_fail \/ ~ may_fail) -> op_ok data op ->
  exists s' out, stream_step cfg short_msg zero_msg s op = Some (s', out) /\ inv s' /\
    (~ may_fail -> Ready s') /\ cursor_step data may_fail (pos s) op out (pos s').
Proof.
  intros Hs Hready Hdw Hdec Hop. destruct op as [n|f|offset n]; cbn [stream_step].
  - destruct (read_ok cfg data short_msg zero_msg Hgeo s n Hhw Hs Hop) as (s' & r & Hr & Hi & Hok & Herr).
    rewrite Hr. assert (Hprog : ~ may_fail -> Ready s' /\ exists d, r = Ok d /\ (0 < n -> pos s < fl -> d <> [])).
    { intros Hm. destruct (Z.eq_dec n 0) as [->|].
      - cbn in Hr. injection Hr as <- <-. split; [auto|]. exists []. split; [done|lia].
      - cbn in Hop. destruct (read_progress cfg data short_msg zero_msg Hgeo Hhw (Hdw Hm) s n s' r Hs
          (Hready Hm) ltac:(lia) Hr) as (H1 & d & H2 & H3). eauto. }
    exists s', (OutBytes r). split; [done|]. split; [done|]. split; [by intros Hm; apply Hprog|].
    destruct r as [d|e].
    + destruct (Hok d eq_refl) as (Hd & Hle & ->). constructor; [done|done|].
      intros Hm. destruct (Hprog Hm) as (_ & d' & [= <-] & Hne). done.
    + rewrite (Herr e eq_refl). constructor. destruct Hdec as [Hm|Hm]; [done|].
      by destruct (Hprog Hm) as (_ & d' & ? & _).
  - rewrite seek_target_arg by done. set (arg := match f with SeekStart _ => _ | _ => _ end).
    destruct (seek cfg s arg) as [s' r] eqn:Hsk.
    destruct (seek_ok cfg data Hgeo _ _ _ _ Hs Hsk) as [Hi Hok].
    assert (Hprog : ~ may_fail -> Ready s' /\ is_ok r = true)
      by (intros Hm; by apply (seek_progress cfg data Hgeo (Hdw Hm) _ _ _ _ Hs (Hready Hm) Hsk)).
    exists s', (OutPos r). split; [done|]. split; [done|]. split; [by intros Hm; apply Hprog|].
    destruct r as [q|e].
    + destruct (Hok q eq_refl) as [-> ->]. apply cs_seek.
    + pose proof (si_range _ _ _ Hi). pose proof (zlen_nonneg (fis_carry_over s')).
      constructor; [|unfold pos in *; lia]. destruct Hdec as [Hm|Hm]; [done|].
      by destruct (Hprog Hm).
  - destruct Hop as (Ho & Hn & Hsum).
    destruct (read_at_ok s offset n Hs Ho Hn Hsum) as (s' & r & -> & Hi & Hp & Hr & Hex & Hok).
    exists s', (OutBytes r). split; [done|]. split; [done|]. split; [auto|]. rewrite Hp.
    destruct r as [d|e]; [rewrite (Hex d eq_refl); constructor|].
    constructor. destruct Hdec as [Hm|Hm]; [done|]. by specialize (Hok (Hdw Hm)).
Qed.

Lemma run_refines (may_fail : Prop) ops (s : stream) :
  inv s -> (~ may_fail -> Ready s) -> (~ may_fail -> delivering_world cfg data) ->
  (may_fail \/ ~ may_fail) -> Forall (op_ok data) ops ->
  exists s' outs, stream_run cfg short_msg zero_msg s ops = Some (s', outs) /\ inv s' /\
    (~ may_fail -> Ready s') /\ cursor_run data may_fail (pos s) ops outs (pos s').
Proof.
  intros Hs Hready Hdw Hdec Hops. revert s Hs Hready.
  induction Hops as [|op ops Hop _ IH]; intros s Hs Hready; cbn [stream_run].
  { exists s, []. split; [done|]. split; [done|]. split; [done|]. constructor. }
  destruct (step_refines may_fail s op Hs Hready Hdw Hdec Hop) as (s1 & out & -> & Hs1 & Hr1 & Hc1).
  destruct (IH s1 Hs1 Hr1) as (s2 & outs & Hrun & Hs2 & Hr2 & Hc2). cbn. rewrite Hrun. cbn.
  eexists _, _. split; [done|]. split; [done|]. split; [done|]. by econstructor.
Qed.

(** The loop of [read_all]. *)
Lemma read_all_from_ok fuel (s : stream) buf :
  delivering_world cfg data -> inv s -> Ready s -> fl - pos s < Z.of_nat fuel ->
  exists s', read_all_from cfg short_msg zero_msg fuel s buf = Some (s', Ok (buf ++ slice (pos s) fl data)) /\
    pos s' = fl.
Proof.
  intros Hdw. revert s buf. induction fuel as [|fuel IH]; intros s buf Hs Hr Hfuel.
  { pose proof (si_range _ _ _ Hs). pose proof (zlen_nonneg (fis_carry_over s)).
    unfold pos in *. lia. }
  cbn [read_all_from]. assert (Hcap : 0 < scratch_cap cfg) by (unfold scratch_cap; lia).
  destruct (read_ok cfg data short_msg zero_msg Hgeo s (scratch_cap cfg) Hhw Hs ltac:(lia))
    as (s1 & r & Hread & Hi & Hok & _). rewrite Hread.
  destruct (read_progress cfg data short_msg zero_msg Hgeo Hhw Hdw _ _ _ _ Hs Hr Hcap Hread)
    as (Hr1 & d & -> & Hne). destruct (Hok d eq_refl) as (Hd & _ & Hp1). cbn [mbind option_bind].
  pose proof (si_range _ _ _ Hs). pose proof (si_range _ _ _ Hi).
  pose proof (zlen_nonneg (fis_carry_over s)). pose proof (zlen_nonneg (fis_carry_over s1)).
  unfold pos in Hp1 at 1. assert (pos s <= fl) by (unfold pos in *; lia).
  destruct (decide (d = [])) as [->|Hd0].
  - change (zlen []) with 0 in *. exists s1.
    destruct (Z.lt_ge_cases (pos s) fl) as [Hlt|Hge]; [by specialize (Hne Hlt)|].
    rewrite slice_nil, app_nil_r by lia. split; [done|]. unfold pos in *. lia.
  - destruct (IH s1 (buf ++ d) Hi Hr1) as (s2 & Hrest & Hp2).
    { assert (0 < zlen d) by (destruct d; [done|unfold zlen; cbn; lia]). unfold pos in *. lia. }
    assert (Hp : pos s1 = pos s + zlen d) by (unfold pos in *; lia). pose proof (zlen_nonneg d).
    assert (Hj : d ++ slice (pos s1) fl data = slice (pos s) fl data).
    { rewrite Hp, Hd at 1. apply slice_app; unfold pos in *; lia. }
    exists s2. split; [|done]. rewrite <- app_assoc, Hj in Hrest. by destruct d.
Qed.

(** C1. The stream is a cursor over the file.  After opening, over any sequence of
    reads of any size, seeks of every kind and positioned reads, with workers that
    may refuse, fail or cut any stream short (but send no wrong bytes): every call
    returns; a read gives exactly the file's bytes at the caller's position and
    advances it by their number; a seek lands on the clamped target; a positioned
    read gives exactly its range and does not move the position; a failed read does
    not move it either.  This holds across block borders, with chunks larger than the
    caller's buffer, and through any sound page cache. *)
Theorem stream_refines_cursor x cache ops
    (Hc : forall c, cache = Some c ->
      cache_sound c (sc_cache_file_id cfg) (Z.max (sc_cache_page_size cfg) 1) data)
    (Hops : Forall (op_ok data) ops) :
  exists s outs, stream_run cfg short_msg zero_msg (stream_open x cache) ops = Some (s, outs) /\
    cursor_run data True 0 ops outs (pos s).
Proof.
  destruct (run_refines True ops (stream_open x cache)) as (s & outs & Hrun & _ & _ & Hcur);
    [by apply stream_inv_open|tauto|tauto|tauto|done|]. eauto.
Qed.

(** C9. When workers deliver what they are asked for, nothing fails and nothing is
    cut short: over any sequence of operations every read before the end of the file
    returns at least one byte, every positioned read its exact range, and a final
    [read_all] returns exactly the rest of the file from the caller's position. *)
Theorem stream_complete x cache ops (Hdw : delivering_world cfg data)
    (Hc : forall c, cache = Some c ->
      cache_sound c (sc_cache_file_id cfg) (Z.max (sc_cache_page_size cfg) 1) data)
    (Hops : Forall (op_ok data) ops) :
  exists s outs, stream_run cfg short_msg zero_msg (stream_open x cache) ops = Some (s, outs) /\
    cursor_run data False 0 ops outs (pos s) /\
    exists s', read_all cfg short_msg zero_msg s = Some (s', Ok (slice (pos s) fl data)) /\
      pos s' = fl.
Proof.
  destruct (run_refines False ops (stream_open x cache)) as (s & outs & Hrun & Hi & Hr & Hcur);
    [by apply stream_inv_open|done|done|tauto|done|].
  exists s, outs. split; [done|]. split; [done|]. unfold read_all.
  apply (read_all_from_ok _ s []); [done|done|apply Hr; tauto|].
  unfold remaining, pos. rewrite (ge_length _ _ Hgeo). lia.
Qed.
End Refinement.

(** ** A worker with a file in memory *)

(** A file of seven bytes in blocks of three, with block ids 11, 12 and 13; [limit]
    bounds what a stream carries before the worker ends it. *)
Module Demo.
Definition file : bytes := [10; 20; 30; 40; 50; 60; 70].

Definition cfg : InStreamConfig :=
  mkInStreamConfig (mkStreamStatus 7 3 [11; 12; 13] [] EmptyString 0 true)
    (mkReadTuning 1024 4 1024 16) 8192 8 4 "file" true false false.

Definition serve (limit id off len : Z) : list StreamItem :=
  let s := (id - 11) * 3 + off in
  let k := s + Z.min len limit in
  let m := Z.min k (s + 1) in
  [ItemData (Some (Some (slice s m file))); ItemData (Some None);
   ItemData (Some (Some (slice m k file))); ItemEnd].

Definition worker (limit : Z) : WorkerAccess unit := {|
  wa_connect := fun x _ => (x, Ok 0);
  wa_reconnect := fun x _ _ => (x, Ok 1);
  wa_open_sequential := fun x id off len _ => (x, Ok (serve limit id off len, None));
  wa_open_positioned := fun x id off len _ => (x, Ok (serve limit id off len));
  wa_sends := fun _ _ => SendOk;
|}.

Lemma geometry_ok : geometry cfg file.
Proof. by split. Qed.

Lemma ids idx id : 0 <= idx -> block_id_at cfg idx = Ok id -> id = 11 + idx.
Proof.
  intros Hi. destruct (Z.eq_dec idx 0) as [->|]; [by intros [= <-]|].
  destruct (Z.eq_dec idx 1) as [->|]; [by intros [= <-]|].
  destruct (Z.eq_dec idx 2) as [->|]; [by intros [= <-]|].
  unfold block_id_at, zget. cbn [cfg sc_status ss_block_ids ss_block_infos].
  rewrite lookup_ge_None_2; [done|]. cbn. lia.
Qed.

Lemma serve_payload limit idx id off len :
  0 <= limit -> block_id_at cfg idx = Ok id -> in_block 3 7 idx off len ->
  payload (serve limit id off len) = slice (idx * 3 + off) (idx * 3 + off + Z.min len limit) file.
Proof.
  intros Hl Hid [Hi Ho Hlen _ _]. rewrite (ids idx id Hi Hid). cbn [serve payload].
  unfold serve. replace (11 + idx - 11) with idx by lia. cbn [payload mjoin option_join default].
  rewrite app_nil_l, app_nil_r. apply slice_app; lia.
Qed.

Lemma honest limit : 0 <= limit -> honest_world (WorkerAccess0 := worker limit) cfg file.
Proof.
  intros Hl. split.
  - intros x id idx off len ufs x' frames ab Hid Hin [= _ <- _]. pose proof Hin as [].
    eexists. split; [|by apply serve_payload]. cbn. lia.
  - intros x id idx off len ufs x' frames Hid Hin [= _ <-]. pose proof Hin as [].
    eexists. split; [|by apply serve_payload]. cbn. lia.
Qed.

Lemma delivering : delivering_world (WorkerAccess0 := worker 3) cfg file.
Proof.
  assert (Hfull : forall id idx off len, block_id_at cfg idx = Ok id -> in_block 3 7 idx off len ->
    full_frames cfg file idx off len (serve 3 id off len)).
  { intros id idx off len Hid Hin. split; [by repeat constructor|].
    rewrite (serve_payload 3 idx) by done. destruct Hin. f_equal. cbn. lia. }
  split; [done| | |..].
  - intros idx Hi Hlt. change (idx * 3 < 7) in Hlt. assert (idx = 0 \/ idx = 1 \/ idx = 2) as [->|[->| ->]] by lia; done.
  - intros i j id Hi Hj Hid Hjd. pose proof (ids _ _ Hi Hid). pose proof (ids _ _ Hj Hjd). lia.
  - intros x id idx off len ufs Hid Hin. eexists. split; [done|]. by apply Hfull.
  - intros x id idx off len ufs Hid Hin. eexists. split; [done|]. by apply Hfull.
Qed.

(** Reads across a block border with a one-byte buffer, seeks and positioned reads. *)
Definition ops : list StreamOp :=
  [OpRead 2; OpRead 1; OpRead 2; OpSeek (SeekEnd (-1)); OpRead 9; OpReadAt 1 4;
   OpSeek (SeekStart 2); OpRead 1; OpSeek (SeekCurrent (-2))].

Lemma ops_fine : Forall (op_ok file) ops.
Proof.
  unfold ops, i64_max. repeat (apply Forall_cons_2; [unfold op_ok, i64_max; change (zlen file) with 7; lia|]).
  constructor.
Qed.

Definition no_msg (_ : PagePiece) (_ : bytes) : string := EmptyString.

(** The stream over the worker, without a page cache. *)
Definition run_ops (limit : Z) (ops : list StreamOp)
  : option (GoosefsFileInStream unit DisabledCacheManager * list StreamOut) :=
  stream_run (WorkerAccess0 := worker limit) cfg no_msg no_msg (stream_open tt None) ops.
End Demo.

(** With a worker that ends every stream after two bytes. *)
Lemma stream_refines_cursor_witness :
  exists s outs, Demo.run_ops 2 Demo.ops = Some (s, outs) /\
    cursor_run Demo.file True 0 Demo.ops outs (pos s).
Proof.
  exact (stream_refines_cursor (WorkerAccess0 := Demo.worker 2) Demo.cfg Demo.file Demo.no_msg
    Demo.no_msg Demo.geometry_ok (Demo.honest 2 ltac:(lia)) tt None Demo.ops
    ltac:(done) Demo.ops_fine).
Defined.

Lemma stream_complete_witness :
  exists s outs, Demo.run_ops 3 Demo.ops = Some (s, outs) /\
    cursor_run Demo.file False 0 Demo.ops outs (pos s) /\
    exists s', read_all (WorkerAccess0 := Demo.worker 3) Demo.cfg Demo.no_msg Demo.no_msg s
        = Some (s', Ok (slice (pos s) 7 Demo.file)) /\ pos s' = 7.
Proof.
  exact (stream_complete (WorkerAccess0 := Demo.worker 3) Demo.cfg Demo.file Demo.no_msg
    Demo.no_msg Demo.geometry_ok (Demo.honest 3 ltac:(lia)) tt None Demo.ops Demo.delivering
    ltac:(done) Demo.ops_fine).
Defined.

(** A worker that ends a block stream cleanly before the range is complete makes
    the stream report the end of the file: the worker here sends two of the three
    bytes of a block and half-closes; [read_all] of the seven-byte file then returns
    those two bytes as a success, with [is_eof] still false.  Positioned reads turn
    the same early end into an error. *)
Theorem early_end_truncates_read_all :
  exists s, read_all (WorkerAccess0 := Demo.worker 2) Demo.cfg Demo.no_msg Demo.no_msg
      (stream_open (C := DisabledCacheManager) tt None) = Some (s, Ok [10; 20]) /\
    is_eof Demo.cfg s = false /\ pos s = 2 /\
    exists e, snd (read_external_range (WorkerAccess0 := Demo.worker 2) Demo.cfg tt 0 3) = Err e.
Proof.
  eexists. split; [vm_compute; reflexivity|]. split; [done|]. split; [done|].
  eexists. vm_compute. reflexivity.
Qed.
