(* ===== verification/AsyncReader.v ===== *)
(** * The tokio adapter of the input stream (src/src/io/async_reader.rs)

    [GoosefsAsyncReader] drives a stream through [AsyncRead] and [AsyncSeek]: a state
    machine whose future owns the stream while a read or a seek is in flight.  A future is
    kept as the stream it owns and the call it will make; each poll is told whether the
    future resolves in it.  What happens inside an unresolved future cannot be observed,
    so the call is made when it resolves. *)

From S2P Require Import Prelude Text Proto Errors PageCache BlockReader InStream InStreamFacts.
From S2P Require Import InStreamProps InStreamDeliver InStreamTheorems.

(** ** Errors on the trait surface *)

(** [Display] of the SDK's error; [show_status] is tonic's for a status. *)
Definition error_display (show_status : Status -> string) (e : Error) : string :=
  match e with
  | GrpcError message source => "gRPC error: " +:+ message +:+ " — " +:+ show_status source
  | TransportError message source => "gRPC transport error: " +:+ message +:+ " — " +:+ source
  | NotFound path => "not found: " +:+ path
  | AlreadyExists path => "already exists: " +:+ path
  | PermissionDenied message => "permission denied: " +:+ message
  | InvalidArgument message => "invalid argument: " +:+ message
  | MissingField field => "missing field in response: " +:+ field
  | BlockIoError message => "block IO error: " +:+ message
  | NoWorkerAvailable message => "no worker available: " +:+ message
  | ResourceExhausted message => "resource exhausted: " +:+ message
  | MasterUnavailable message => "master unavailable: " +:+ message
  | ConfigError message => "config error: " +:+ message
  | Internal message _ => "internal error: " +:+ message
  | FileIncomplete message => "file is incomplete: " +:+ message
  | DirectoryNotEmpty message => "directory is not empty: " +:+ message
  | OpenDirectory path => "path is a directory: " +:+ path
  | InvalidPath path => "invalid path: " +:+ path
  | AuthenticationFailed message => "authentication failed: " +:+ message
  end.

(** An [io::Error] of kind [Other], the only kind this adapter builds. *)
Inductive IoError : Type :=
| IoOther (message : string).

(** [std::task::Poll] *)
Inductive Poll (A : Type) : Type :=
| Pending
| Ready (a : A).
Arguments Pending {A}.
Arguments Ready {A} a.

(** ** The state machine *)

Section Adapter.
Context {X C : Type} `{!WorkerAccess X, !CacheManager C}.
Context (cfg : InStreamConfig) (short_msg zero_msg : PagePiece -> bytes -> string).
Context (show_status : Status -> string).

Abbreviation stream := (GoosefsFileInStream X C).

Definition sdk_err_to_io (err : Error) : IoError := IoOther (error_display show_status err).

(** [OwnedReadFut] and [OwnedSeekFut] by what they own; [Empty] never rests in the state. *)
Inductive State : Type :=
| Idle (s : stream)
| Reading (s : stream) (cap : Z)
| Seeking (s : stream) (position : SeekFrom).

Definition new (s : stream) : State := Idle s.

Definition into_inner (st : State) : result State stream :=
  match st with
  | Idle s => Ok s
  | _ => Err st
  end.

Definition get_ref (st : State) : option stream :=
  match st with
  | Idle s => Some s
  | _ => None
  end.

(** The body of the read future: [tmp] truncated to the bytes read. *)
Definition read_future (s : stream) (cap : Z) : option (stream * result IoError bytes) :=
  '(s, r) ← read cfg short_msg zero_msg s cap;
  Some (s, match r with Ok d => Ok d | Err e => Err (sdk_err_to_io e) end).

(** [GoosefsFileInStream::seek_owned] *)
Definition seek_owned (s : stream) (from : SeekFrom) : stream * result IoError Z :=
  let '(s, r) := seek_from cfg s from in
  (s, match r with Ok p => Ok p | Err e => Err (sdk_err_to_io e) end).

(** The [Reading] arm of [poll_read]: [buf] has room for [room] bytes. *)
Definition poll_reading (s : stream) (cap room : Z) (resolved : bool)
  : option (State * Poll (result IoError bytes)) :=
  if resolved then
    '(s, r) ← read_future s cap;
    Some (Idle s, Ready (match r with
                         | Ok data => Ok (slice 0 (Z.min (zlen data) room) data)
                         | Err e => Err e
                         end))
  else Some (Reading s cap, Pending).

(** [AsyncRead::poll_read]; an [Ok] answer carries the bytes put in the caller's buffer. *)
Definition poll_read (st : State) (room : Z) (resolved : bool)
  : option (State * Poll (result IoError bytes)) :=
  match st with
  | Idle s =>
      if room =? 0 then Some (Idle s, Ready (Ok []))
      else poll_reading s room room resolved
  | Reading s cap => poll_reading s cap room resolved
  | Seeking s position =>
      Some (st, Ready (Err (IoOther "cannot read while a seek is in flight")))
  end.

(** [AsyncSeek::start_seek] *)
Definition start_seek (st : State) (position : SeekFrom) : State * result IoError unit :=
  match st with
  | Reading _ _ => (st, Err (IoOther "cannot start a seek while a read is in flight"))
  | Seeking _ _ => (st, Err (IoOther "another seek is already in flight"))
  | Idle s => (Seeking s position, Ok tt)
  end.

(** [AsyncSeek::poll_complete] *)
Definition poll_complete (st : State) (resolved : bool) : State * Poll (result IoError Z) :=
  match st with
  | Idle s => (Idle s, Ready (Ok (as_u64 (Z.max (pos s) 0))))
  | Seeking s position =>
      if resolved then
        let '(s, r) := seek_owned s position in
        (Idle s, Ready (match r with Ok p => Ok (as_u64 (Z.max p 0)) | Err e => Err e end))
      else (st, Pending)
  | Reading _ _ => (st, Ready (Err (IoOther "cannot complete a seek while a read is in flight")))
  end.
End Adapter.

Arguments State X C : clear implicits.
Arguments Idle {X C} s.
Arguments Reading {X C} s cap.
Arguments Seeking {X C} s position.

(** ** Sequences of polls *)

Inductive PollOp : Type :=
| PollRead (room : Z) (resolved : bool)
| StartSeek (f : SeekFrom)
| PollComplete (resolved : bool).

Inductive PollOut : Type :=
| PolledBytes (r : Poll (result IoError bytes))
| SeekStarted (r : result IoError unit)
| PolledPos (r : Poll (result IoError Z)).

Section Run.
Context {X C : Type} `{!WorkerAccess X, !CacheManager C}.
Context (cfg : InStreamConfig) (short_msg zero_msg : PagePiece -> bytes -> string).
Context (show_status : Status -> string).

Definition poll_step (st : State X C) (op : PollOp) : option (State X C * PollOut) :=
  match op with
  | PollRead room resolved =>
      '(st, r) ← poll_read cfg short_msg zero_msg show_status st room resolved;
      Some (st, PolledBytes r)
  | StartSeek f => let '(st, r) := start_seek st f in Some (st, SeekStarted r)
  | PollComplete resolved =>
      let '(st, r) := poll_complete cfg show_status st resolved in Some (st, PolledPos r)
  end.

Fixpoint poll_run (st : State X C) (ops : list PollOp) : option (State X C * list PollOut) :=
  match ops with
  | [] => Some (st, [])
  | op :: ops =>
      '(st, out) ← poll_step st op;
      '(st, outs) ← poll_run st ops;
      Some (st, out :: outs)
  end.
End Run.

(** ** The contract: a cursor with at most one operation in flight *)

Inductive InFlight : Type :=
| NoOp
| ReadInFlight (n : Z)
| SeekInFlight (f : SeekFrom).

Section Contract.
Context (data : bytes) (may_fail : Prop).

(** A read that begins or goes on with this poll asks for so many bytes. *)
Definition read_size (fl : InFlight) (room : Z) : option Z :=
  match fl with
  | NoOp => if room =? 0 then None else Some room
  | ReadInFlight n => Some n
  | SeekInFlight _ => None
  end.

(** The answer to a poll, the operation left in flight and the cursor's position.  The
    caller gets the first [room] of the bytes the cursor read. *)
Inductive poll_spec : InFlight -> Z -> PollOp -> PollOut -> InFlight -> Z -> Prop :=
| ps_no_room p resolved :
    poll_spec NoOp p (PollRead 0 resolved) (PolledBytes (Ready (Ok []))) NoOp p
| ps_read_pending fl p room n :
    read_size fl room = Some n ->
    poll_spec fl p (PollRead room false) (PolledBytes Pending) (ReadInFlight n) p
| ps_read_done fl p room n d p' :
    read_size fl room = Some n -> cursor_step data may_fail p (OpRead n) (OutBytes (Ok d)) p' ->
    poll_spec fl p (PollRead room true)
      (PolledBytes (Ready (Ok (slice 0 (Z.min (zlen d) room) d)))) NoOp p'
| ps_read_failed fl p room n e :
    read_size fl room = Some n -> may_fail ->
    poll_spec fl p (PollRead room true) (PolledBytes (Ready (Err e))) NoOp p
| ps_read_refused f p room resolved e :
    poll_spec (SeekInFlight f) p (PollRead room resolved) (PolledBytes (Ready (Err e)))
      (SeekInFlight f) p
| ps_seek_started p f :
    poll_spec NoOp p (StartSeek f) (SeekStarted (Ok tt)) (SeekInFlight f) p
| ps_seek_refused fl p f e :
    fl <> NoOp -> poll_spec fl p (StartSeek f) (SeekStarted (Err e)) fl p
| ps_position p resolved :
    poll_spec NoOp p (PollComplete resolved) (PolledPos (Ready (Ok p))) NoOp p
| ps_seek_pending f p :
    poll_spec (SeekInFlight f) p (PollComplete false) (PolledPos Pending) (SeekInFlight f) p
| ps_seek_done f p q :
    cursor_step data may_fail p (OpSeek f) (OutPos (Ok q)) q ->
    poll_spec (SeekInFlight f) p (PollComplete true) (PolledPos (Ready (Ok q))) NoOp q
| ps_seek_failed f p e p' :
    may_fail -> 0 <= p' <= zlen data ->
    poll_spec (SeekInFlight f) p (PollComplete true) (PolledPos (Ready (Err e))) NoOp p'
| ps_complete_refused n p resolved e :
    poll_spec (ReadInFlight n) p (PollComplete resolved) (PolledPos (Ready (Err e)))
      (ReadInFlight n) p.

Inductive polls_spec : InFlight -> Z -> list PollOp -> list PollOut -> InFlight -> Z -> Prop :=
| pss_nil fl p : polls_spec fl p [] [] fl p
| pss_cons fl p op out fl1 p1 ops outs fl2 p2 :
    poll_spec fl p op out fl1 p1 -> polls_spec fl1 p1 ops outs fl2 p2 ->
    polls_spec fl p (op :: ops) (out :: outs) fl2 p2.

Definition poll_ok (op : PollOp) : Prop :=
  match op with
  | PollRead room _ => 0 <= room
  | StartSeek f => op_ok data (OpSeek f)
  | PollComplete _ => True
  end.

Definition in_flight_ok (fl : InFlight) : Prop :=
  match fl with
  | NoOp => True
  | ReadInFlight n => 0 <= n
  | SeekInFlight f => op_ok data (OpSeek f)
  end.
End Contract.

(** ** The adapter implements it *)

Section Refinement.
Context {X C : Type} `{!WorkerAccess X, !CacheManager C, !CacheSound C}.
Context (cfg : InStreamConfig) (data : bytes).
Context (short_msg zero_msg : PagePiece -> bytes -> string) (show_status : Status -> string).
Context (Hgeo : geometry cfg data) (Hhw : honest_world cfg data).
Context (may_fail : Prop) (Hdec : may_fail \/ ~ may_fail)
  (Hdw : ~ may_fail -> delivering_world cfg data).

Definition owned (st : State X C) : GoosefsFileInStream X C :=
  match st with Idle s | Reading s _ | Seeking s _ => s end.

Definition in_flight (st : State X C) : InFlight :=
  match st with
  | Idle _ => NoOp
  | Reading _ n => ReadInFlight n
  | Seeking _ f => SeekInFlight f
  end.

Record adapter_inv (st : State X C) : Prop := {
  ai_stream : stream_inv cfg data (owned st);
  ai_ready : ~ may_fail -> ready cfg data (owned st);
  ai_args : in_flight_ok data (in_flight st);
}.

Abbreviation steps st op := (exists st' out,
  poll_step cfg short_msg zero_msg show_status st op = Some (st', out) /\ adapter_inv st' /\
  poll_spec data may_fail (in_flight st) (pos (owned st)) op out (in_flight st') (pos (owned st'))).

(** A poll of the read future. *)
Lemma poll_reading_refines st room n resolved :
  adapter_inv st -> 0 <= n -> read_size (in_flight st) room = Some n ->
  exists st' r,
    poll_reading cfg short_msg zero_msg show_status (owned st) n room resolved = Some (st', r) /\
    adapter_inv st' /\
    poll_spec data may_fail (in_flight st) (pos (owned st)) (PollRead room resolved)
      (PolledBytes r) (in_flight st') (pos (owned st')).
Proof.
  intros [Hs Hr Ha] Hn Hsize. unfold poll_reading. destruct resolved.
  2:{ eexists _, _. split; [done|]. split; [by split|]. by constructor. }
  destruct (step_refines cfg data short_msg zero_msg Hgeo Hhw may_fail (owned st) (OpRead n) Hs Hr
    Hdw Hdec Hn) as (s' & out & Hstep & Hi & Hready & Hcur).
  cbn [stream_step] in Hstep. unfold read_future.
  destruct (read cfg short_msg zero_msg (owned st) n) as [[s1 r]|]; [|done].
  injection Hstep as -> <-. cbn [mbind option_bind].
  eexists _, _. split; [done|]. split; [by split|].
  destruct r as [d|e]; [by econstructor|]. cbn [owned in_flight].
  assert (may_fail /\ pos s' = pos (owned st)) as [Hm ->] by (by inversion Hcur). by econstructor.
Qed.

Lemma pos_u64 (s : GoosefsFileInStream X C) :
  stream_inv cfg data s -> as_u64 (Z.max (pos s) 0) = pos s /\ 0 <= pos s <= zlen data.
Proof.
  intros Hs. pose proof (si_range _ _ _ Hs). pose proof (zlen_nonneg (fis_carry_over s)).
  pose proof (ge_bound _ _ Hgeo).
  pose proof (ge_block _ _ Hgeo). unfold as_u64, u64_mod, i64_max, pos in *.
  rewrite Z.mod_small by lia. lia.
Qed.

(** One poll, with what it keeps. *)
Lemma poll_refines st op : adapter_inv st -> poll_ok data op -> steps st op.
Proof.
  intros Hst Hop. pose proof Hst as [Hs Hr Ha].
  destruct op as [room resolved|f|resolved].
  - assert (Hread : forall n, 0 <= n -> read_size (in_flight st) room = Some n ->
      poll_read cfg short_msg zero_msg show_status st room resolved
        = poll_reading cfg short_msg zero_msg show_status (owned st) n room resolved ->
      steps st (PollRead room resolved)).
    { intros n Hn Hsize Heq. cbn [poll_step]. rewrite Heq.
      destruct (poll_reading_refines st room n resolved Hst Hn Hsize) as (st' & r & -> & H1 & H2).
      by eexists _, _. }
    destruct st as [s|s n|s f].
    + destruct (Z.eqb_spec room 0) as [->|Hne].
      * eexists _, _. split; [done|]. split; [done|]. constructor.
      * by apply (Hread room Hop); cbn; rewrite (proj2 (Z.eqb_neq _ _) Hne).
    + by apply (Hread n).
    + eexists _, _. split; [done|]. split; [done|]. constructor.
  - destruct st as [s|s n|s g]; cbn [poll_step start_seek]; eexists _, _; (split; [done|]);
      (split; [by split|]); by constructor.
  - destruct st as [s|s n|s f]; cbn [poll_step poll_complete owned in_flight] in *.
    + eexists _, _. split; [done|]. split; [done|]. rewrite (proj1 (pos_u64 s Hs)). constructor.
    + eexists _, _. split; [done|]. split; [done|]. constructor.
    + destruct resolved; [|eexists _, _; split; [done|]; split; [done|]; constructor].
      unfold seek_owned.
      destruct (step_refines cfg data short_msg zero_msg Hgeo Hhw may_fail s (OpSeek f) Hs Hr Hdw Hdec
        Ha) as (s' & out & Hstep & Hi & Hready & Hcur). cbn [stream_step] in Hstep.
      destruct (seek_from cfg s f) as [s1 r]. injection Hstep as -> <-.
      eexists _, _. split; [done|]. split; [by split|]. destruct (pos_u64 s' Hi) as [Hu ?].
      destruct r as [q|e]; [|inversion Hcur; by constructor].
      assert (q = pos s') as -> by (inversion Hcur; congruence). rewrite Hu. by constructor.
Qed.

Lemma polls_refine ops st :
  adapter_inv st -> Forall (poll_ok data) ops ->
  exists st' outs, poll_run cfg short_msg zero_msg show_status st ops = Some (st', outs) /\
    adapter_inv st' /\
    polls_spec data may_fail (in_flight st) (pos (owned st)) ops outs (in_flight st') (pos (owned st')).
Proof.
  intros Hst Hops. revert st Hst. induction Hops as [|op ops Hop _ IH]; intros st Hst; cbn [poll_run].
  { eexists _, _. split; [done|]. split; [done|]. constructor. }
  destruct (poll_refines st op Hst Hop) as (st1 & out & -> & Hst1 & Hspec).
  destruct (IH st1 Hst1) as (st2 & outs & Hrun & Hst2 & Hspecs). cbn. rewrite Hrun. cbn.
  eexists _, _. split; [done|]. split; [done|]. by econstructor.
Qed.
End Refinement.


(** ** The adapter over the file in memory *)

Module AsyncDemo.
(** A read resumed after a refused seek, and a seek resumed after a refused read. *)
Definition polls : list PollOp :=
  [PollRead 2 false; StartSeek (SeekStart 1); PollRead 4 true; StartSeek (SeekEnd (-3));
   PollRead 3 true; PollComplete false; PollComplete true; PollRead 0 true; PollRead 9 true].

Lemma polls_fine : Forall (poll_ok Demo.file) polls.
Proof.
  unfold polls. repeat (apply Forall_cons_2;
    [unfold poll_ok, op_ok, i64_max; change (zlen Demo.file) with 7; lia|]). constructor.
Qed.

Definition run_polls (ops : list PollOp) : option (State unit DisabledCacheManager * list PollOut) :=
  poll_run (WorkerAccess0 := Demo.worker 3) Demo.cfg Demo.no_msg Demo.no_msg (fun _ => EmptyString)
    (new (stream_open tt None)) ops.
End AsyncDemo.


(** A read that is pending keeps the size it began with.  If the caller resumes it with a
    smaller buffer, the bytes that do not fit are dropped although the stream's position has
    moved past them: after the first byte, two are asked for, one is handed over, and the
    next read goes on with the fourth. *)
Theorem shrinking_buffer_loses_bytes :
  exists st, AsyncDemo.run_polls [PollRead 1 true; PollRead 2 false; PollRead 1 true; PollRead 1 true]
    = Some (st, [PolledBytes (Ready (Ok [10])); PolledBytes Pending; PolledBytes (Ready (Ok [20]));
                 PolledBytes (Ready (Ok [40]))]) /\
    slice 0 4 Demo.file = [10; 20; 30; 40].
Proof. eexists. split; [vm_compute; reflexivity|done]. Qed.
