(* ===== verification/PyErrors.v ===== *)
(** * Python bindings: exceptions and the guard of the blocking classes

    [map_err] of src/bindings/python/src/errors.rs, and [guarded_block_on] and [env_usize]
    as the blocking classes use them (streaming.rs, sync_fs.rs, runtime.rs). *)

From S2P Require Import Prelude Text Errors AsyncReader.

(** ** Exceptions *)

(** The classes under [goosefs.exceptions], the two builtin ones the bindings raise, and
    whatever the interpreter itself raises. *)
Inductive PyClass : Type :=
| PyGoosefsError | PyNotFound | PyAlreadyExists | PyPermissionDenied | PyInvalidArgument
| PyFileIncomplete | PyDirectoryNotEmpty | PyIsADirectory | PyAuthenticationFailed
| PyNoWorkerAvailable | PyMasterUnavailable | PyRpcError | PyIoError | PyConfigError
| PyRuntimeError | PyValueError | PyTypeError
| PyForeign (name : string).

#[global] Instance PyClass_eq_dec : EqDecision PyClass.
Proof. solve_decision. Defined.

Record PyErr : Type := mkPyErr {
  py_class : PyClass;
  py_message : string;
}.

#[global] Instance PyErr_eq_dec : EqDecision PyErr.
Proof. solve_decision. Defined.

Abbreviation PyResult := (result PyErr).

(** [create_exception!]: every class of the module but the root is a direct subclass of it. *)
Definition is_goosefs_error (c : PyClass) : bool :=
  match c with
  | PyRuntimeError | PyValueError | PyTypeError | PyForeign _ => false
  | _ => true
  end.

Definition map_err (show_status : Status -> string) (e : Error) : PyErr :=
  let msg := error_display show_status e in
  match e with
  | NotFound _ => mkPyErr PyNotFound msg
  | AlreadyExists _ => mkPyErr PyAlreadyExists msg
  | PermissionDenied _ => mkPyErr PyPermissionDenied msg
  | InvalidArgument _ | InvalidPath _ => mkPyErr PyInvalidArgument msg
  | FileIncomplete _ => mkPyErr PyFileIncomplete msg
  | DirectoryNotEmpty _ => mkPyErr PyDirectoryNotEmpty msg
  | OpenDirectory _ => mkPyErr PyIsADirectory msg
  | AuthenticationFailed _ => mkPyErr PyAuthenticationFailed msg
  | NoWorkerAvailable _ => mkPyErr PyNoWorkerAvailable msg
  | ResourceExhausted _ => mkPyErr PyIoError msg
  | MasterUnavailable _ => mkPyErr PyMasterUnavailable msg
  | ConfigError _ => mkPyErr PyConfigError msg
  | GrpcError _ _ | TransportError _ _ => mkPyErr PyRpcError msg
  | MissingField field => mkPyErr PyGoosefsError ("missing field in response: " +:+ field)
  | BlockIoError message => mkPyErr PyIoError ("block IO error: " +:+ message)
  | Internal message _ => mkPyErr PyGoosefsError ("internal error: " +:+ message)
  end.

(** [except GoosefsError] catches every error of the SDK, and its text is the SDK's. *)
Theorem map_err_is_goosefs_error show_status e :
  is_goosefs_error (py_class (map_err show_status e)) = true /\
  py_message (map_err show_status e) = error_display show_status e.
Proof. by destruct e. Qed.

(** [.map_err(map_err)] *)
Definition py_result {A : Type} (show_status : Status -> string) (r : result Error A) : PyResult A :=
  match r with Ok a => Ok a | Err e => Err (map_err show_status e) end.

(** ** Where a blocking call is made from *)

Inductive CallSite : Type :=
| InTokio
| NoAsyncio (e : PyErr)
| InEventLoop
| PlainThread.

(** The two messages of a guard: on a runtime, and in an event loop. *)
Record GuardTexts : Type := mkGuardTexts {
  gt_tokio : string;
  gt_asyncio : string;
}.

(** [guarded_block_on] by what it refuses; [None] when the future is run. *)
Definition guard (texts : GuardTexts) (site : CallSite) : option PyErr :=
  match site with
  | InTokio => Some (mkPyErr PyRuntimeError (gt_tokio texts))
  | NoAsyncio e => Some e
  | InEventLoop => Some (mkPyErr PyRuntimeError (gt_asyncio texts))
  | PlainThread => None
  end.

Definition streaming_guard : CallSite -> option PyErr :=
  guard (mkGuardTexts
    "sync streaming methods cannot be invoked from inside a Tokio runtime; use `AsyncFileReader` / `AsyncFileWriter` from your async code instead"
    "sync streaming methods cannot be invoked from inside an asyncio event loop; use the async streaming classes and `await` instead").

Definition goosefs_guard : CallSite -> option PyErr :=
  guard (mkGuardTexts
    "Goosefs sync methods cannot be invoked from inside a Tokio runtime; use `AsyncGoosefs` from your async code instead"
    "Goosefs sync methods cannot be invoked from inside an asyncio event loop; use `AsyncGoosefs` and `await` instead").
