(* ===== verification/PyStream.v ===== *)
(** * Python bindings: the file readers (src/bindings/python/src/streaming.rs)

    [AsyncFileReader] and [FileReader]: a stream of the SDK behind a prefetch buffer of one
    megabyte.  The position a caller sees is the stream's less the bytes parked in the
    buffer.  The mutex of a reader is held for a whole call, so calls are atomic steps;
    the two classes differ in when they look at the buffer, the guard and the stream. *)

From S2P Require Import Prelude Text Errors PageCache BlockReader InStream InStreamFacts.
From S2P Require Import InStreamProps InStreamDeliver InStreamTheorems AsyncReader PyErrors.

(** ** Pulling bytes from the stream *)

Definition PREFETCH_HINT_BYTES : Z := Z.shiftl 1 20.

Definition negative_offset : PyErr := mkPyErr PyValueError "offset must be non-negative".
Definition negative_seek : PyErr :=
  mkPyErr PyValueError "negative seek offset is invalid for whence=0 (SEEK_SET)".
Definition invalid_whence (whence : Z) : PyErr :=
  mkPyErr PyValueError ("invalid whence value: " +:+ show_Z whence +:+ " (expected 0, 1, or 2)").
Definition closed_async : PyErr := mkPyErr PyRuntimeError "AsyncFileReader is closed".
Definition closed_sync : PyErr := mkPyErr PyRuntimeError "FileReader is closed".

Section Reader.
Context {X C : Type} `{!WorkerAccess X, !CacheManager C}.
Context (cfg : InStreamConfig) (short_msg zero_msg : PagePiece -> bytes -> string).
Context (show_status : Status -> string).

Abbreviation stream := (GoosefsFileInStream X C).
Abbreviation M A := (option (A * PyResult bytes)).

(** The loop that fills the buffer [out] up to [target]; [None] when the fuel runs out. *)
Fixpoint pull (fuel : nat) (s : stream) (target : Z) (out : bytes) : M stream :=
  match fuel with
  | O => None
  | S fuel =>
      if zlen out <? target then
        '(s, r) ← read cfg short_msg zero_msg s (target - zlen out);
        match r with
        | Err e => Some (s, Err (map_err show_status e))
        | Ok [] => Some (s, Ok out)
        | Ok d => pull fuel s target (out ++ d)
        end
      else Some (s, Ok out)
  end.

(** Every turn but the last delivers a byte. *)
Definition pull_fuel (s : stream) : nat := S (Z.to_nat (remaining cfg s)).

Definition pull_n (s : stream) (want : Z) : M stream :=
  if want =? 0 then Some (s, Ok []) else pull (pull_fuel s) s want [].

Definition pull_all (s : stream) : M stream :=
  '(s, r) ← read_all cfg short_msg zero_msg s; Some (s, py_result show_status r).

(** The bytes for the caller and the bytes to park. *)
Definition pull_prefetched (s : stream) (want : Z) : option (stream * PyResult (bytes * bytes)) :=
  let target := Z.max want PREFETCH_HINT_BYTES in
  '(s, r) ← pull (pull_fuel s) s target [];
  Some (s, let? buf := r in
           let take := Z.min want (zlen buf) in
           Ok (slice 0 take buf, slice take (zlen buf) buf)).

(** ** The readers *)

(** [PyAsyncFileReader] and [PyFileReader]: [None] once closed. *)
Record PyReader : Type := mkPyReader {
  pr_inner : option stream;
  pr_file_length : Z;
  pr_prefetch : bytes;
}.

Definition from_sdk (s : stream) : PyReader :=
  mkPyReader (Some s) (ss_length (sc_status cfg)) [].

Definition set_inner (r : PyReader) (s : stream) (parked : bytes) : PyReader :=
  mkPyReader (Some s) (pr_file_length r) parked.

Definition set_parked (r : PyReader) (parked : bytes) : PyReader :=
  mkPyReader (pr_inner r) (pr_file_length r) parked.

Abbreviation RM A := (option (PyReader * PyResult A)).

(** Read-all over an open stream, with the parked bytes taken out of the buffer. *)
Definition drain (r : PyReader) (s : stream) (parked : bytes) : RM bytes :=
  '(s, rest) ← pull_all s;
  Some (set_inner r s (pr_prefetch r), let? rest := rest in Ok (parked ++ rest)).

(** The slow path: the remainder is parked only if the pull succeeded. *)
Definition refill (r : PyReader) (s : stream) (want : Z) : RM bytes :=
  '(s, out) ← pull_prefetched s want;
  Some (match out with
        | Ok (head, remainder) => (set_inner r s remainder, Ok head)
        | Err e => (set_inner r s (pr_prefetch r), Err e)
        end).

(** The fast path: [split_to] on a buffer that is not empty. *)
Definition serve_parked (r : PyReader) (want : Z) : RM bytes :=
  let pf := pr_prefetch r in
  let take := Z.min want (zlen pf) in
  Some (set_parked r (slice take (zlen pf) pf), Ok (slice 0 take pf)).

Definition async_read (r : PyReader) (size : Z) : RM bytes :=
  match pr_inner r with
  | None => Some (r, Err closed_async)
  | Some s =>
      if size <? 0 then drain (set_parked r []) s (pr_prefetch r)
      else if zlen (pr_prefetch r) =? 0 then refill r s size
      else serve_parked r size
  end.

Definition sync_read (r : PyReader) (site : CallSite) (size : Z) : RM bytes :=
  if (0 <=? size) && negb (zlen (pr_prefetch r) =? 0) then serve_parked r size
  else if size <? 0 then
    let parked := pr_prefetch r in
    let r := set_parked r [] in
    match streaming_guard site, pr_inner r with
    | Some e, _ => Some (r, Err e)
    | None, None => Some (r, Err closed_sync)
    | None, Some s => drain r s parked
    end
  else
    match streaming_guard site, pr_inner r with
    | Some e, _ => Some (r, Err e)
    | None, None => Some (r, Err closed_sync)
    | None, Some s => refill r s size
    end.

(** A positioned read of the stream; the buffer is not involved. *)
Definition stream_read_at (r : PyReader) (s : stream) (offset length : Z) : RM bytes :=
  '(s, out) ← read_at cfg short_msg zero_msg s offset length;
  Some (set_inner r s (pr_prefetch r), py_result show_status out).

Definition async_read_at (r : PyReader) (offset length : Z) : RM bytes :=
  if offset <? 0 then Some (r, Err negative_offset)
  else
    match pr_inner r with
    | None => Some (r, Err closed_async)
    | Some s => stream_read_at r s offset length
    end.

Definition sync_read_at (r : PyReader) (site : CallSite) (offset length : Z) : RM bytes :=
  if offset <? 0 then Some (r, Err negative_offset)
  else
    match streaming_guard site, pr_inner r with
    | Some e, _ => Some (r, Err e)
    | None, None => Some (r, Err closed_sync)
    | None, Some s => stream_read_at r s offset length
    end.

(** The part of [seek] both classes share: the buffer, [parked_len] bytes, is gone. *)
Definition seek_to (r : PyReader) (s : stream) (parked_len offset whence : Z)
  : PyReader * PyResult Z :=
  let logical_pos := pos s - parked_len in
  let go target :=
    let '(s, out) := seek cfg s target in
    (set_inner r s (pr_prefetch r), py_result show_status out) in
  if whence =? 0 then
    if offset <? 0 then (r, Err negative_seek) else go offset
  else if whence =? 1 then go (i64_add logical_pos offset)
  else go (i64_add (pr_file_length r) offset).

Definition whence_ok (whence : Z) : bool := (0 <=? whence) && (whence <=? 2).

Definition async_seek (r : PyReader) (offset whence : Z) : PyReader * PyResult Z :=
  if negb (whence_ok whence) then (r, Err (invalid_whence whence))
  else
    match pr_inner r with
    | None => (r, Err closed_async)
    | Some s => seek_to (set_parked r []) s (zlen (pr_prefetch r)) offset whence
    end.

Definition sync_seek (r : PyReader) (site : CallSite) (offset whence : Z) : PyReader * PyResult Z :=
  if negb (whence_ok whence) then (r, Err (invalid_whence whence))
  else
    let parked_len := zlen (pr_prefetch r) in
    let r := set_parked r [] in
    match streaming_guard site, pr_inner r with
    | Some e, _ => (r, Err e)
    | None, None => (r, Err closed_sync)
    | None, Some s => seek_to r s parked_len offset whence
    end.

(** [busy]: another call holds the lock. *)
Definition tell (closed in_flight : PyErr) (r : PyReader) (busy : bool) : PyResult Z :=
  if busy then Err in_flight
  else
    match pr_inner r with
    | Some s => Ok (pos s - zlen (pr_prefetch r))
    | None => Err closed
    end.

Definition async_tell : PyReader -> bool -> PyResult Z :=
  tell closed_async (mkPyErr PyRuntimeError
    "tell() while another read/seek is in flight; await the in-flight call first").

Definition sync_tell : PyReader -> bool -> PyResult Z :=
  tell closed_sync (mkPyErr PyRuntimeError "tell() while another op is in flight").

Definition length_of (message : string) (r : PyReader) : PyResult Z :=
  if pr_file_length r <? 0 then Err (mkPyErr PyRuntimeError message) else Ok (pr_file_length r).

Definition async_close (r : PyReader) : PyReader * PyResult unit :=
  (mkPyReader None (pr_file_length r) [], Ok tt).

Definition sync_close (r : PyReader) (site : CallSite) : PyReader * PyResult unit :=
  match streaming_guard site with
  | Some e => (set_parked r [], Err e)
  | None => (mkPyReader None (pr_file_length r) [], Ok tt)
  end.
End Reader.

Arguments PyReader X C : clear implicits.
Arguments mkPyReader {X C} _ _ _.

(** ** Calls on either class *)

Inductive Front : Type := AsyncFront | SyncFront.

Inductive PyOp : Type :=
| PyRead (size : Z)
| PyReadAt (offset length : Z)
| PySeek (offset whence : Z)
| PyTell
| PyLen
| PyClose.

Inductive PyOut : Type :=
| PyBytesOut (r : PyResult bytes)
| PyIntOut (r : PyResult Z)
| PyUnitOut (r : PyResult unit).

Section Run.
Context {X C : Type} `{!WorkerAccess X, !CacheManager C}.
Context (cfg : InStreamConfig) (short_msg zero_msg : PagePiece -> bytes -> string).
Context (show_status : Status -> string).

Definition reader_call (front : Front) (r : PyReader X C) (site : CallSite) (op : PyOp)
  : option (PyReader X C * PyOut) :=
  match op with
  | PyRead size =>
      '(r, out) ← match front with
                  | AsyncFront => async_read cfg short_msg zero_msg show_status r size
                  | SyncFront => sync_read cfg short_msg zero_msg show_status r site size
                  end;
      Some (r, PyBytesOut out)
  | PyReadAt offset length =>
      '(r, out) ← match front with
                  | AsyncFront => async_read_at cfg short_msg zero_msg show_status r offset length
                  | SyncFront => sync_read_at cfg short_msg zero_msg show_status r site offset length
                  end;
      Some (r, PyBytesOut out)
  | PySeek offset whence =>
      let '(r, out) := match front with
                       | AsyncFront => async_seek cfg show_status r offset whence
                       | SyncFront => sync_seek cfg show_status r site offset whence
                       end in
      Some (r, PyIntOut out)
  | PyTell =>
      Some (r, PyIntOut (match front with
                         | AsyncFront => async_tell r false
                         | SyncFront => sync_tell r false
                         end))
  | PyLen =>
      Some (r, PyIntOut (length_of (match front with
                                    | AsyncFront => "file length is negative — corrupt status"
                                    | SyncFront => "file length is negative"
                                    end) r))
  | PyClose =>
      let '(r, out) := match front with
                       | AsyncFront => async_close r
                       | SyncFront => sync_close r site
                       end in
      Some (r, PyUnitOut out)
  end.

Fixpoint reader_calls (front : Front) (r : PyReader X C) (ops : list (CallSite * PyOp))
  : option (PyReader X C * list PyOut) :=
  match ops with
  | [] => Some (r, [])
  | (site, op) :: ops =>
      '(r, out) ← reader_call front r site op;
      '(r, outs) ← reader_calls front r ops;
      Some (r, out :: outs)
  end.
End Run.

(** ** The contract: a file object over the file's bytes *)

(** The guard applies to the blocking class only. *)
Definition refused (front : Front) (site : CallSite) : bool :=
  match front with
  | AsyncFront => false
  | SyncFront => bool_decide (is_Some (streaming_guard site))
  end.

Section Contract.
Context (data : bytes) (may_fail : Prop).

Definition python_target (p offset whence : Z) : Z :=
  Z.max 0 (Z.min (if whence =? 0 then offset else if whence =? 1 then p + offset
                  else zlen data + offset) (zlen data)).

(** A call that is refused or fails may lose parked bytes, which moves the position on. *)
Definition moved_on (p p' : Z) : Prop := p <= p' <= zlen data.

(** One call on an open reader at position [p]; [None] for a closed one. *)
Inductive open_spec (ref : bool) (p : Z) : PyOp -> PyOut -> option Z -> Prop :=
| os_read size d :
    0 <= size -> d = slice p (p + zlen d) data -> zlen d <= size ->
    (~ may_fail -> 0 < size -> p < zlen data -> d <> []) ->
    open_spec ref p (PyRead size) (PyBytesOut (Ok d)) (Some (p + zlen d))
| os_read_refused size e :
    0 <= size -> ref = true -> open_spec ref p (PyRead size) (PyBytesOut (Err e)) (Some p)
| os_read_failed size e p' :
    0 <= size -> may_fail -> moved_on p p' ->
    open_spec ref p (PyRead size) (PyBytesOut (Err e)) (Some p')
| os_read_all size d :
    size < 0 -> ref = false -> d = slice p (p + zlen d) data ->
    (~ may_fail -> p + zlen d = zlen data) ->
    open_spec ref p (PyRead size) (PyBytesOut (Ok d)) (Some (p + zlen d))
| os_read_all_failed size e p' :
    size < 0 -> may_fail \/ ref = true -> moved_on p p' ->
    open_spec ref p (PyRead size) (PyBytesOut (Err e)) (Some p')
| os_read_at offset n :
    0 <= offset -> ref = false ->
    open_spec ref p (PyReadAt offset n) (PyBytesOut (Ok (slice offset (offset + n) data))) (Some p)
| os_read_at_negative offset n :
    offset < 0 -> open_spec ref p (PyReadAt offset n) (PyBytesOut (Err negative_offset)) (Some p)
| os_read_at_failed offset n e :
    0 <= offset -> may_fail \/ ref = true ->
    open_spec ref p (PyReadAt offset n) (PyBytesOut (Err e)) (Some p)
| os_seek offset whence :
    whence_ok whence = true -> (whence = 0 -> 0 <= offset) -> ref = false ->
    open_spec ref p (PySeek offset whence) (PyIntOut (Ok (python_target p offset whence)))
      (Some (python_target p offset whence))
| os_seek_invalid offset whence :
    whence_ok whence = false ->
    open_spec ref p (PySeek offset whence) (PyIntOut (Err (invalid_whence whence))) (Some p)
| os_seek_negative offset p' :
    offset < 0 -> ref = false -> moved_on p p' ->
    open_spec ref p (PySeek offset 0) (PyIntOut (Err negative_seek)) (Some p')
| os_seek_refused offset whence e p' :
    whence_ok whence = true -> ref = true -> moved_on p p' ->
    open_spec ref p (PySeek offset whence) (PyIntOut (Err e)) (Some p')
| os_seek_failed offset whence e p' :
    may_fail -> 0 <= p' <= zlen data ->
    open_spec ref p (PySeek offset whence) (PyIntOut (Err e)) (Some p')
| os_tell : open_spec ref p PyTell (PyIntOut (Ok p)) (Some p)
| os_len : open_spec ref p PyLen (PyIntOut (Ok (zlen data))) (Some p)
| os_close : ref = false -> open_spec ref p PyClose (PyUnitOut (Ok tt)) None
| os_close_refused e p' :
    ref = true -> moved_on p p' -> open_spec ref p PyClose (PyUnitOut (Err e)) (Some p').

(** A closed reader knows its length, can be closed again, and refuses everything else. *)
Inductive closed_spec (ref : bool) : PyOp -> PyOut -> Prop :=
| cl_read size e : closed_spec ref (PyRead size) (PyBytesOut (Err e))
| cl_read_at offset n e : closed_spec ref (PyReadAt offset n) (PyBytesOut (Err e))
| cl_seek offset whence e : closed_spec ref (PySeek offset whence) (PyIntOut (Err e))
| cl_tell e : closed_spec ref PyTell (PyIntOut (Err e))
| cl_len : closed_spec ref PyLen (PyIntOut (Ok (zlen data)))
| cl_close : ref = false -> closed_spec ref PyClose (PyUnitOut (Ok tt))
| cl_close_refused e : ref = true -> closed_spec ref PyClose (PyUnitOut (Err e)).

Definition reader_spec (ref : bool) (p : option Z) (op : PyOp) (out : PyOut) (p' : option Z) : Prop :=
  match p with
  | Some p => open_spec ref p op out p'
  | None => closed_spec ref op out /\ p' = None
  end.

Inductive reader_specs (front : Front) : option Z -> list (CallSite * PyOp) -> list PyOut -> option Z -> Prop :=
| rss_nil p : reader_specs front p [] [] p
| rss_cons p site op out p1 ops outs p2 :
    reader_spec (refused front site) p op out p1 -> reader_specs front p1 ops outs p2 ->
    reader_specs front p ((site, op) :: ops) (out :: outs) p2.

(** Arguments whose sums stay in an [i64]. *)
Definition call_ok (c : CallSite * PyOp) : Prop :=
  match snd c with
  | PyReadAt offset n => 0 <= n /\ offset + n <= i64_max
  | PySeek offset whence => whence = 0 \/ - i64_max - 1 <= offset <= i64_max - zlen data
  | _ => True
  end.
End Contract.

(** ** The readers implement it *)

Section Refinement.
Context {X C : Type} `{!WorkerAccess X, !CacheManager C, !CacheSound C}.
Context (cfg : InStreamConfig) (data : bytes).
Context (short_msg zero_msg : PagePiece -> bytes -> string) (show_status : Status -> string).
Context (Hgeo : geometry cfg data) (Hhw : honest_world cfg data).
Context (may_fail : Prop) (Hdec : may_fail \/ ~ may_fail)
  (Hdw : ~ may_fail -> delivering_world cfg data).

Abbreviation stream := (GoosefsFileInStream X C).
Abbreviation fl := (zlen data).

Definition usable (s : stream) : Prop :=
  stream_inv cfg data s /\ (~ may_fail -> ready cfg data s).

Lemma usable_pos s : usable s -> 0 <= pos s <= fl.
Proof.
  intros [Hs _]. pose proof (si_range _ _ _ Hs). pose proof (zlen_nonneg (fis_carry_over s)).
  unfold pos in *. lia.
Qed.

(** What a sequence of reads of the stream from [s] to [s'] may answer, with [d] the bytes
    pulled. *)
Record pulled (s s' : stream) (r : PyResult bytes) (before : bytes) : Prop := {
  pu_usable : usable s';
  pu_forward : pos s <= pos s';
  pu_failed : forall e, r = Err e -> may_fail;
  pu_exact : forall d, r = Ok d -> d = before ++ slice (pos s) (pos s') data;
}.

(** One read of the stream. *)
Lemma read_turn s n :
  usable s -> 0 < n ->
  exists s' r, read cfg short_msg zero_msg s n = Some (s', r) /\
    pulled s s' (py_result show_status r) [] /\
    (forall d, r = Ok d -> zlen d <= n /\ pos s' = pos s + zlen d /\
       (~ may_fail -> d = [] -> pos s' = fl)).
Proof.
  intros Hu Hn. pose proof (usable_pos s Hu) as Hp. destruct Hu as [Hs Hr].
  destruct (step_refines cfg data short_msg zero_msg Hgeo Hhw may_fail s (OpRead n) Hs Hr Hdw Hdec
    ltac:(cbn; lia)) as (s' & out & Hstep & Hi & Hr' & Hcur). cbn [stream_step] in Hstep.
  destruct (read cfg short_msg zero_msg s n) as [[s1 r]|]; [|done].
  injection Hstep as -> <-. exists s', r. split; [done|].
  inversion Hcur as [n' d Hd Hle Hne E1 E2 E3|n' e Hm E1 E2 E3| | | |]; subst; symmetry in E3.
  - pose proof (zlen_nonneg d). split.
    + split; [by split|lia|done|]. intros d' [= <-]. by rewrite app_nil_l, E3.
    + intros d' [= <-]. split; [done|]. split; [done|]. intros Hm ->.
      destruct (Z.lt_ge_cases (pos s) fl) as [Hlt|]; [by destruct (Hne Hm Hn Hlt)|].
      change (zlen []) with 0 in *. lia.
  - split; [|done]. split; [by split|lia|done|done].
Qed.

Lemma pulled_stop s before : usable s -> pulled s s (Ok before) before.
Proof. split; [done|lia|done|]. intros d [= <-]. by rewrite slice_nil, app_nil_r by lia. Qed.

Lemma pulled_trans s s1 s2 d r before :
  usable s -> pulled s s1 (Ok d) [] -> pulled s1 s2 r (before ++ d) -> pulled s s2 r before.
Proof.
  intros Hs [H1 H2 _ H3] [H4 H5 H6 H7]. split; [done|lia|done|].
  intros d' Hd'. rewrite (H7 d' Hd'), (H3 d eq_refl), app_nil_l, <- app_assoc. f_equal.
  pose proof (usable_pos _ Hs). pose proof (usable_pos _ H4). apply slice_app; lia.
Qed.

Lemma pull_ok fuel s target out :
  usable s -> fl - pos s < Z.of_nat fuel ->
  exists s' r, pull cfg short_msg zero_msg show_status fuel s target out = Some (s', r) /\
    pulled s s' r out /\
    (~ may_fail -> pos s' = fl \/ exists d, r = Ok d /\ target <= zlen d).
Proof.
  revert s out. induction fuel as [|fuel IH]; intros s out Hs Hfuel.
  { pose proof (usable_pos s Hs). lia. }
  cbn [pull]. destruct (Z.ltb_spec (zlen out) target) as [Hlt|Hge].
  2:{ eexists _, _. split; [done|]. split; [by apply pulled_stop|]. eauto. }
  destruct (read_turn s (target - zlen out) Hs ltac:(lia)) as (s1 & r & -> & Hpull & Hok). cbn.
  destruct r as [d|e].
  2:{ eexists _, _. split; [done|]. pose proof (pu_failed _ _ _ _ Hpull _ eq_refl).
      destruct Hpull. split; [by split|done]. }
  destruct (Hok d eq_refl) as (_ & Hpos & Hend). pose proof (pu_usable _ _ _ _ Hpull) as Hs1.
  destruct d as [|b d].
  - eexists _, _. split; [done|]. split; [|intros Hm; left; by apply Hend].
    apply (pulled_trans s s1 s1 [] (Ok out) out Hs Hpull). rewrite app_nil_r. by apply pulled_stop.
  - assert (0 < zlen (b :: d)) by (unfold zlen; cbn; lia).
    destruct (IH s1 (out ++ b :: d) Hs1 ltac:(lia)) as (s2 & r & -> & Hrest & Hfull).
    eexists _, _. split; [done|]. split; [by eapply pulled_trans|done].
Qed.

Lemma pull_fuel_enough s : usable s -> fl - pos s < Z.of_nat (pull_fuel cfg s).
Proof.
  intros [Hs _]. pose proof (si_range _ _ _ Hs). pose proof (zlen_nonneg (fis_carry_over s)).
  unfold pull_fuel, remaining. rewrite (ge_length _ _ Hgeo). unfold pos in *. lia.
Qed.

(** [read_all] is the same loop with a scratch buffer. *)
Lemma read_all_pulls fuel s out :
  usable s -> fl - pos s < Z.of_nat fuel ->
  exists s' r, read_all_from cfg short_msg zero_msg fuel s out = Some (s', r) /\
    pulled s s' (py_result show_status r) out /\ (~ may_fail -> pos s' = fl).
Proof.
  revert s out. induction fuel as [|fuel IH]; intros s out Hs Hfuel.
  { pose proof (usable_pos s Hs). lia. }
  cbn [read_all_from].
  destruct (read_turn s (scratch_cap cfg) Hs ltac:(unfold scratch_cap; lia)) as (s1 & r & -> & Hpull & Hok).
  cbn. destruct r as [d|e].
  2:{ eexists _, _. split; [done|]. pose proof (pu_failed _ _ _ _ Hpull _ eq_refl).
      destruct Hpull. split; [by split|done]. }
  destruct (Hok d eq_refl) as (_ & Hpos & Hend). pose proof (pu_usable _ _ _ _ Hpull) as Hs1.
  destruct d as [|b d].
  - eexists _, _. split; [done|]. split; [|intros Hm; by apply Hend].
    apply (pulled_trans s s1 s1 [] (Ok out) out Hs Hpull). rewrite app_nil_r. by apply pulled_stop.
  - assert (0 < zlen (b :: d)) by (unfold zlen; cbn; lia).
    destruct (IH s1 (out ++ b :: d) Hs1 ltac:(lia)) as (s2 & r & Hrun & Hrest & Hfull).
    exists s2, r. split; [done|]. split; [by eapply pulled_trans|done].
Qed.

(** ** The invariant: the buffer holds the bytes before the stream's position *)

Definition parked_ok (s : stream) (pf : bytes) : Prop :=
  zlen pf <= pos s /\ pf = slice (pos s - zlen pf) (pos s) data.

Record reader_inv (r : PyReader X C) : Prop := {
  ri_length : pr_file_length r = fl;
  ri_inner : match pr_inner r with
             | None => pr_prefetch r = []
             | Some s => usable s /\ parked_ok s (pr_prefetch r)
             end;
}.

Definition logical (r : PyReader X C) : option Z :=
  match pr_inner r with
  | Some s => Some (pos s - zlen (pr_prefetch r))
  | None => None
  end.

Lemma parked_nil s : usable s -> parked_ok s [].
Proof.
  intros Hs. pose proof (usable_pos s Hs). unfold parked_ok. change (zlen []) with 0.
  split; [lia|]. by rewrite slice_nil by lia.
Qed.

Lemma reader_inv_open r s pf :
  pr_file_length r = fl -> usable s -> parked_ok s pf -> reader_inv (set_inner r s pf).
Proof. by split. Qed.

(** Dropping the buffer leaves a reader further on. *)
Lemma drop_parked r :
  reader_inv r -> reader_inv (set_parked r []) /\
  forall s, pr_inner r = Some s ->
    logical (set_parked r []) = Some (pos s) /\ moved_on data (pos s - zlen (pr_prefetch r)) (pos s).
Proof.
  intros [Hl Hi]. split.
  - split; [done|]. cbn. destruct (pr_inner r) as [s|]; [|done]. split; [tauto|]. apply parked_nil; tauto.
  - intros s Hs. unfold logical. cbn. rewrite Hs in *. change (zlen []) with 0.
    destruct Hi as [Hu _]. pose proof (usable_pos s Hu). pose proof (zlen_nonneg (pr_prefetch r)).
    split; [by rewrite Z.sub_0_r|]. unfold moved_on. lia.
Qed.

(** Taking [k] bytes off the front of what lies before the stream's position. *)
Lemma split_parked s pf k :
  parked_ok s pf -> 0 <= k <= zlen pf ->
  let p := pos s - zlen pf in
  slice 0 k pf = slice p (p + k) data /\ zlen (slice 0 k pf) = k /\
  parked_ok s (slice k (zlen pf) pf) /\ pos s - zlen (slice k (zlen pf) pf) = p + k.
Proof.
  intros [Hle Heq] Hk p. assert (H1 : zlen (slice 0 k pf) = k) by (rewrite zlen_slice by lia; lia).
  assert (H2 : zlen (slice k (zlen pf) pf) = zlen pf - k) by (rewrite zlen_slice by lia; lia).
  split; [|split; [done|split; [split|lia]]].
  - rewrite Heq at 1. rewrite slice_slice by lia. f_equal; lia.
  - lia.
  - rewrite H2. rewrite Heq at 2. rewrite slice_slice by lia. f_equal; lia.
Qed.

(** ** One call *)

Abbreviation Spec := (open_spec data may_fail).

(** Handing over the first [k] bytes of the file from [p] on. *)
Lemma head_spec ref p size k d :
  0 <= size -> d = slice p (p + k) data -> zlen d = k -> k <= size ->
  (~ may_fail -> 0 < size -> p < fl -> 0 < k) ->
  Spec ref p (PyRead size) (PyBytesOut (Ok d)) (Some (p + k)).
Proof.
  intros Hs Hd <- Hle Hne. constructor; [done..|]. intros Hm H1 H2 ->. by specialize (Hne Hm H1 H2).
Qed.

Lemma serve_parked_ok ref r s want :
  reader_inv r -> pr_inner r = Some s -> zlen (pr_prefetch r) <> 0 -> 0 <= want ->
  exists r' out, serve_parked r want = Some (r', out) /\ reader_inv r' /\
    Spec ref (pos s - zlen (pr_prefetch r)) (PyRead want) (PyBytesOut out) (logical r').
Proof.
  intros [Hl Hi] Hs Hne Hw. rewrite Hs in Hi. destruct Hi as [Hu Hpf].
  pose proof (zlen_nonneg (pr_prefetch r)). set (k := Z.min want (zlen (pr_prefetch r))).
  destruct (split_parked s (pr_prefetch r) k Hpf ltac:(lia)) as (H1 & H2 & H3 & H4).
  eexists _, _. split; [done|]. fold k. split.
  { split; [done|]. cbn. by rewrite Hs. }
  unfold logical. cbn. rewrite Hs, H4. apply head_spec; [done..|lia|lia].
Qed.

Lemma refill_ok ref r s want :
  reader_inv r -> pr_inner r = Some s -> pr_prefetch r = [] -> 0 <= want ->
  exists r' out, refill cfg short_msg zero_msg show_status r s want = Some (r', out) /\ reader_inv r' /\
    Spec ref (pos s) (PyRead want) (PyBytesOut out) (logical r').
Proof.
  intros [Hl Hi] Hs Hnil Hw. rewrite Hs in Hi. destruct Hi as [Hu _]. unfold refill, pull_prefetched.
  set (target := Z.max want PREFETCH_HINT_BYTES).
  destruct (pull_ok _ s target [] Hu (pull_fuel_enough s Hu)) as (s' & r' & -> & Hp & Hfull). cbn.
  destruct Hp as [Hu' Hfwd Hfail Hex]. pose proof (usable_pos _ Hu). pose proof (usable_pos _ Hu').
  destruct r' as [buf|e]; cbn.
  - specialize (Hex buf eq_refl). rewrite app_nil_l in Hex.
    assert (Hlen : zlen buf = pos s' - pos s) by (rewrite Hex, zlen_slice by lia; lia).
    assert (Hpf : parked_ok s' buf) by (split; [lia|rewrite Hex at 1; f_equal; lia]).
    pose proof (zlen_nonneg buf). set (k := Z.min want (zlen buf)).
    destruct (split_parked s' buf k Hpf ltac:(lia)) as (Hh & Hk & Hpk & Hlog).
    replace (pos s' - zlen buf) with (pos s) in * by lia.
    eexists _, _. split; [done|]. split; [by apply reader_inv_open|].
    unfold logical. cbn. rewrite Hlog. apply head_spec; [done..|lia|]. intros Hm Hpos Hlt.
    destruct (Hfull Hm) as [Heof|(d & [= <-] & Hd)]; lia.
  - eexists _, _. split; [done|]. rewrite Hnil. split; [apply reader_inv_open; [done..|by apply parked_nil]|].
    unfold logical. cbn. change (zlen []) with 0. rewrite Z.sub_0_r.
    apply os_read_failed; [done|by eapply Hfail|]. unfold moved_on. lia.
Qed.

Lemma drain_ok r s parked size :
  pr_file_length r = fl -> pr_prefetch r = [] -> usable s -> parked_ok s parked -> size < 0 ->
  exists r' out, drain cfg short_msg zero_msg show_status r s parked = Some (r', out) /\ reader_inv r' /\
    Spec false (pos s - zlen parked) (PyRead size) (PyBytesOut out) (logical r').
Proof.
  intros Hl Hnil Hu [Hle Hpf] Hsize. unfold drain, pull_all, read_all.
  destruct (read_all_pulls (pull_fuel cfg s) s [] Hu (pull_fuel_enough s Hu)) as (s' & r' & Hrun & Hp & Hfull).
  unfold pull_fuel in Hrun. rewrite Hrun. cbn. destruct Hp as [Hu' Hfwd Hfail Hex].
  pose proof (usable_pos _ Hu). pose proof (usable_pos _ Hu'). pose proof (zlen_nonneg parked).
  assert (Hinv : reader_inv (set_inner r s' (pr_prefetch r)))
    by (rewrite Hnil; apply reader_inv_open; [done..|by apply parked_nil]).
  assert (Hlog : logical (set_inner r s' (pr_prefetch r)) = Some (pos s')).
  { unfold logical. cbn. rewrite Hnil. change (zlen []) with 0. by rewrite Z.sub_0_r. }
  eexists _, _. split; [done|]. split; [done|]. rewrite Hlog. destruct r' as [rest|e]; cbn.
  - specialize (Hex rest eq_refl). rewrite app_nil_l in Hex.
    assert (Hj : parked ++ rest = slice (pos s - zlen parked) (pos s') data).
    { rewrite Hex, Hpf at 1. apply slice_app; lia. }
    assert (Hn : zlen (parked ++ rest) = pos s' - (pos s - zlen parked))
      by (rewrite Hj, zlen_slice; lia).
    replace (Some (pos s')) with (Some (pos s - zlen parked + zlen (parked ++ rest))) by (f_equal; lia).
    constructor; [done|done|rewrite Hj at 1; f_equal; lia|]. intros Hm. specialize (Hfull Hm). lia.
  - apply os_read_all_failed; [done|left; by eapply Hfail|]. unfold moved_on. lia.
Qed.

Lemma stream_read_at_ok r s offset n :
  reader_inv r -> pr_inner r = Some s -> 0 <= offset -> 0 <= n -> offset + n <= i64_max ->
  exists r' out, stream_read_at cfg short_msg zero_msg show_status r s offset n = Some (r', out) /\
    reader_inv r' /\
    Spec false (pos s - zlen (pr_prefetch r)) (PyReadAt offset n) (PyBytesOut out) (logical r').
Proof.
  intros [Hl Hi] Hs Ho Hn Hsum. rewrite Hs in Hi. destruct Hi as [[Hinv Hr] Hpf]. unfold stream_read_at.
  destruct (read_at_ok cfg data short_msg zero_msg Hgeo Hhw s offset n Hinv Ho Hn Hsum)
    as (s' & out & -> & Hi' & Hp & Hready & Hex & Hok). cbn.
  eexists _, _. split; [done|]. unfold parked_ok in Hpf. rewrite <- Hp in Hpf.
  split; [apply reader_inv_open; [done|split; [done|auto]|done]|].
  unfold logical. cbn. rewrite Hp. destruct out as [d|e]; cbn.
  - rewrite (Hex d eq_refl). by constructor.
  - apply os_read_at_failed; [done|]. left. destruct Hdec as [Hm|Hm]; [done|]. by specialize (Hok (Hdw Hm)).
Qed.

Lemma stream_seek_ok s target :
  usable s ->
  exists s' out, seek cfg s target = (s', out) /\ usable s' /\
    match out with
    | Ok q => q = Z.max 0 (Z.min target fl) /\ pos s' = q
    | Err _ => may_fail
    end.
Proof.
  intros [Hs Hr]. destruct (seek cfg s target) as [s' out] eqn:Hsk. exists s', out. split; [done|].
  destruct (seek_ok cfg data Hgeo _ _ _ _ Hs Hsk) as [Hi Hok].
  assert (Hprog : ~ may_fail -> ready cfg data s' /\ is_ok out = true)
    by (intros Hm; by apply (seek_progress cfg data Hgeo (Hdw Hm) _ _ _ _ Hs (Hr Hm) Hsk)).
  split; [split; [done|]; by intros Hm; apply Hprog|].
  destruct out as [q|e]; [destruct (Hok q eq_refl); split; congruence|].
  destruct Hdec as [Hm|Hm]; [done|]. by destruct (Hprog Hm).
Qed.

(** [r]'s buffer, [k] bytes, has just been dropped. *)
Lemma seek_to_ok r s k offset whence :
  reader_inv r -> pr_inner r = Some s -> pr_prefetch r = [] -> 0 <= k <= pos s ->
  whence_ok whence = true -> whence = 0 \/ - i64_max - 1 <= offset <= i64_max - fl ->
  exists r' out, seek_to cfg show_status r s k offset whence = (r', out) /\ reader_inv r' /\
    Spec false (pos s - k) (PySeek offset whence) (PyIntOut out) (logical r').
Proof.
  intros [Hl Hi] Hs Hnil Hk Hwh Hoff. rewrite Hs in Hi. destruct Hi as [Hu _].
  pose proof (usable_pos s Hu) as Hp.
  assert (Hgo : forall target, target = (if whence =? 0 then offset else if whence =? 1 then pos s - k + offset
                                         else fl + offset) -> (whence = 0 -> 0 <= offset) ->
    exists r' out, (let '(s, out) := seek cfg s target in
                    (set_inner r s (pr_prefetch r), py_result show_status out)) = (r', out) /\ reader_inv r' /\
      Spec false (pos s - k) (PySeek offset whence) (PyIntOut out) (logical r')).
  { intros target Ht Hw0. destruct (stream_seek_ok s target Hu) as (s' & out & -> & Hu' & Hout).
    eexists _, _. split; [done|]. rewrite Hnil. split; [apply reader_inv_open; [done..|by apply parked_nil]|].
    unfold logical. cbn. change (zlen []) with 0. rewrite Z.sub_0_r. destruct out as [q|e]; cbn.
    - destruct Hout as [-> ->]. rewrite Ht. by apply os_seek.
    - apply os_seek_failed; [done|by apply usable_pos]. }
  unfold seek_to. rewrite Hl. unfold i64_add, i64_max in *. pose proof (zlen_nonneg data).
  destruct (Z.eqb_spec whence 0) as [->|H0]; [|destruct (Z.eqb_spec whence 1) as [->|H1]].
  - destruct (Z.ltb_spec offset 0) as [Hneg|Hnn]; [|by apply Hgo].
    eexists _, _. split; [done|]. split; [split; [done|by rewrite Hs, Hnil; split; [|apply parked_nil]]|].
    unfold logical. rewrite Hs, Hnil. change (zlen []) with 0. rewrite Z.sub_0_r.
    apply os_seek_negative; [done..|]. unfold moved_on. lia.
  - apply Hgo; [|done]. rewrite as_i64_small by (unfold is_i64; lia). done.
  - apply Hgo; [|done]. rewrite as_i64_small by (unfold is_i64; lia). done.
Qed.

Abbreviation steps front r site op := (exists r' out,
  reader_call cfg short_msg zero_msg show_status front r site op = Some (r', out) /\ reader_inv r' /\
  reader_spec data may_fail (refused front site) (logical r) op out (logical r')).

(** A closed reader. *)
Lemma closed_call_refines front r site op :
  reader_inv r -> pr_inner r = None -> steps front r site op.
Proof.
  intros Hr Hs. pose proof Hr as [Hl Hi]. rewrite Hs in Hi. destruct r as [i l pf]. cbn in Hs, Hl, Hi. subst.
  pose proof (zlen_nonneg data) as Hnn.
  destruct op, front; cbn; unfold sync_read, async_read_at, sync_read_at, async_seek, sync_seek, sync_close,
    length_of; cbn; destruct (streaming_guard site); rewrite ?andb_false_r, ?(proj2 (Z.ltb_ge _ _) Hnn);
    repeat case_match; simplify_eq; cbn;
    (eexists _, _; split; [done|]; split; [done|]; split; [by constructor|done]).
Qed.

Lemma read_call_refines front r site size s :
  reader_inv r -> pr_inner r = Some s -> steps front r site (PyRead size).
Proof.
  intros Hr Hs. pose proof (drop_parked r Hr) as [Hdrop Hmoved]. pose proof Hr as [Hl Hi].
  rewrite Hs in Hi.
  destruct (Hmoved s Hs) as [Hlog Hon]. destruct Hi as [Hu Hpf].
  assert (Hlr : logical r = Some (pos s - zlen (pr_prefetch r))) by (unfold logical; by rewrite Hs).
  rewrite Hlr. cbn [reader_call reader_spec].
  pose proof (fun H => serve_parked_ok (refused front site) r s size Hr Hs H) as Hserve.
  pose proof (fun H => refill_ok (refused front site) r s size Hr Hs (zlen_nil_inv _ H)) as Hrefill.
  pose proof (drain_ok (set_parked r []) s (pr_prefetch r) size Hl eq_refl Hu Hpf) as Hdrain.
  assert (Hz : zlen (pr_prefetch r) = 0 -> pos s = pos s - zlen (pr_prefetch r)) by lia.
  destruct front; [unfold async_read|unfold sync_read; cbn [pr_inner set_parked]]; rewrite Hs.
  - destruct (Z.ltb_spec size 0) as [Hneg|Hnn]; [|destruct (Z.eqb_spec (zlen (pr_prefetch r)) 0) as [He|He]].
    + destruct (Hdrain Hneg) as (r' & out & -> & Hi' & Hsp). by eexists _, _.
    + destruct (Hrefill He Hnn) as (r' & out & -> & Hi' & Hsp). rewrite (Hz He) in Hsp. by eexists _, _.
    + destruct (Hserve He Hnn) as (r' & out & -> & Hi' & Hsp). by eexists _, _.
  - destruct (Z.leb_spec 0 size) as [Hnn|Hneg]; cbn [andb].
    + rewrite (proj2 (Z.ltb_ge _ _) Hnn).
      destruct (Z.eqb_spec (zlen (pr_prefetch r)) 0) as [He|He]; cbn [negb].
      * unfold refused in *. destruct (streaming_guard site) as [e|].
        { eexists _, _. split; [done|]. split; [done|]. rewrite Hlr. by apply os_read_refused. }
        destruct (Hrefill He Hnn) as (r' & out & -> & Hi' & Hsp). rewrite (Hz He) in Hsp. by eexists _, _.
      * destruct (Hserve He Hnn) as (r' & out & -> & Hi' & Hsp). by eexists _, _.
    + rewrite (proj2 (Z.ltb_lt _ _) Hneg). unfold refused. destruct (streaming_guard site) as [e|].
      * eexists _, _. split; [done|]. split; [done|]. rewrite Hlog. apply os_read_all_failed; auto.
      * destruct (Hdrain Hneg) as (r' & out & -> & Hi' & Hsp). by eexists _, _.
Qed.

Lemma read_at_call_refines front r site offset n s :
  reader_inv r -> pr_inner r = Some s -> 0 <= n -> offset + n <= i64_max ->
  steps front r site (PyReadAt offset n).
Proof.
  intros Hr Hs Hn Hsum.
  assert (Hlr : logical r = Some (pos s - zlen (pr_prefetch r))) by (unfold logical; by rewrite Hs).
  rewrite Hlr. cbn [reader_call reader_spec].
  pose proof (fun H => stream_read_at_ok r s offset n Hr Hs H Hn Hsum) as Hread.
  destruct front; [unfold async_read_at|unfold sync_read_at]; rewrite Hs;
    (destruct (Z.ltb_spec offset 0) as [Hneg|Hnn];
     [eexists _, _; split; [done|]; split; [done|]; rewrite Hlr; by apply os_read_at_negative|]).
  - destruct (Hread Hnn) as (r' & out & -> & Hi' & Hsp). by eexists _, _.
  - unfold refused. destruct (streaming_guard site) as [e|].
    + eexists _, _. split; [done|]. split; [done|]. rewrite Hlr. apply os_read_at_failed; auto.
    + destruct (Hread Hnn) as (r' & out & -> & Hi' & Hsp). by eexists _, _.
Qed.

Lemma seek_call_refines front r site offset whence s :
  reader_inv r -> pr_inner r = Some s -> whence = 0 \/ - i64_max - 1 <= offset <= i64_max - fl ->
  steps front r site (PySeek offset whence).
Proof.
  intros Hr Hs Hoff. pose proof (drop_parked r Hr) as [Hdrop Hmoved].
  destruct (Hmoved s Hs) as [Hlog Hon]. pose proof Hr as [_ Hi]. rewrite Hs in Hi. destruct Hi as [Hu [Hle _]].
  pose proof (zlen_nonneg (pr_prefetch r)) as Hk.
  assert (Hlr : logical r = Some (pos s - zlen (pr_prefetch r))) by (unfold logical; by rewrite Hs).
  rewrite Hlr. cbn [reader_call reader_spec].
  pose proof (fun H => seek_to_ok (set_parked r []) s (zlen (pr_prefetch r)) offset whence Hdrop Hs eq_refl
    (conj Hk Hle) H Hoff) as Hseek.
  destruct front; [unfold async_seek|unfold sync_seek]; destruct (whence_ok whence) eqn:Hw; cbn [negb].
  2,4: eexists _, _; split; [done|]; split; [done|]; rewrite Hlr; by apply os_seek_invalid.
  - rewrite Hs. destruct (Hseek eq_refl) as (r' & out & -> & Hi' & Hsp). by eexists _, _.
  - cbn [pr_inner set_parked]. rewrite Hs. unfold refused. destruct (streaming_guard site) as [e|].
    + eexists _, _. split; [done|]. split; [done|]. rewrite Hlog. by apply os_seek_refused.
    + destruct (Hseek eq_refl) as (r' & out & -> & Hi' & Hsp). by eexists _, _.
Qed.

(** One call, with what it keeps. *)
Lemma reader_call_refines front r site op :
  reader_inv r -> call_ok data (site, op) -> steps front r site op.
Proof.
  intros Hr Hop. destruct (pr_inner r) as [s|] eqn:Hs; [|by apply closed_call_refines].
  pose proof Hr as [Hl Hi]. rewrite Hs in Hi.
  assert (Hlr : logical r = Some (pos s - zlen (pr_prefetch r))) by (unfold logical; by rewrite Hs).
  destruct op as [size|offset n|offset whence| | |]; unfold call_ok in Hop; cbn [snd] in Hop.
  - by eapply read_call_refines.
  - destruct Hop. by eapply read_at_call_refines.
  - by eapply seek_call_refines.
  - rewrite Hlr. eexists _, _. split; [done|]. split; [done|]. rewrite Hlr. unfold async_tell, sync_tell, tell.
    rewrite Hs. destruct front; apply os_tell.
  - rewrite Hlr. eexists _, _. split; [done|]. split; [done|]. rewrite Hlr. unfold length_of. rewrite Hl.
    pose proof (zlen_nonneg data). rewrite (proj2 (Z.ltb_ge _ _)) by done. apply os_len.
  - rewrite Hlr. pose proof (drop_parked r Hr) as [Hdrop Hmoved]. destruct (Hmoved s Hs) as [Hlog Hon].
    cbn [reader_call reader_spec]. destruct front; [|unfold sync_close, refused; destruct (streaming_guard site)].
    + eexists _, _. split; [done|]. split; [by split|]. by apply os_close.
    + eexists _, _. split; [done|]. split; [done|]. rewrite Hlog. by apply os_close_refused.
    + eexists _, _. split; [done|]. split; [by split|]. by apply os_close.
Qed.

Lemma reader_calls_refine front ops r :
  reader_inv r -> Forall (call_ok data) ops ->
  exists r' outs, reader_calls cfg short_msg zero_msg show_status front r ops = Some (r', outs) /\
    reader_inv r' /\ reader_specs data may_fail front (logical r) ops outs (logical r').
Proof.
  intros Hr Hops. revert r Hr. induction Hops as [|[site op] ops Hop _ IH]; intros r Hr; cbn [reader_calls].
  { eexists _, _. split; [done|]. split; [done|]. constructor. }
  destruct (reader_call_refines front r site op Hr Hop) as (r1 & out & -> & Hr1 & Hspec).
  destruct (IH r1 Hr1) as (r2 & outs & Hrun & Hr2 & Hspecs). cbn. rewrite Hrun. cbn.
  eexists _, _. split; [done|]. split; [done|]. by econstructor.
Qed.
End Refinement.

(** C1. The Python readers are file objects over the file's bytes.  Over any sequence of calls on
    an [AsyncFileReader] or a [FileReader], made from anywhere: every call returns;
    [read(n)] gives exactly the bytes at the position [tell] reports, at most [n], and advances
    it by their number; [read(-1)] gives the rest of the file; [read_at] gives exactly its range
    and moves nothing; [seek] lands on the clamped target for each [whence]; a closed reader
    refuses everything but [len] and [close].  Only a call that raises may skip bytes that were
    parked in the prefetch buffer.  If workers deliver, only invalid arguments, a closed reader or
    the deadlock guard raise, and no read before the end of the file comes back empty. *)
Theorem python_reader_refines_file {X C : Type} `{!WorkerAccess X, !CacheManager C, !CacheSound C}
    (cfg : InStreamConfig) (data : bytes) (short_msg zero_msg : PagePiece -> bytes -> string)
    (show_status : Status -> string) (front : Front) (may_fail : bool) (x : X) (cache : option C) ops
    (Hgeo : geometry cfg data) (Hhw : honest_world cfg data)
    (Hdw : may_fail = false -> delivering_world cfg data)
    (Hc : forall c, cache = Some c ->
      cache_sound c (sc_cache_file_id cfg) (Z.max (sc_cache_page_size cfg) 1) data)
    (Hops : Forall (call_ok data) ops) :
  exists r outs,
    reader_calls cfg short_msg zero_msg show_status front (from_sdk cfg (stream_open x cache)) ops
      = Some (r, outs) /\
    reader_specs data (may_fail = true) front (Some 0) ops outs (logical r).
Proof.
  destruct (reader_calls_refine cfg data short_msg zero_msg show_status Hgeo Hhw (may_fail = true)
    ltac:(destruct may_fail; auto) ltac:(intros H; apply Hdw; by destruct may_fail)
    front ops (from_sdk cfg (stream_open x cache))) as (r & outs & Hrun & _ & Hspec); [|done|eauto].
  split; [exact (ge_length _ _ Hgeo)|]. cbn. split; [split; [by apply stream_inv_open|done]|].
  by split.
Qed.

(** ** The readers over the file in memory *)

Module PyDemo.
Definition calls : list (CallSite * PyOp) :=
  [(PlainThread, PyRead 2); (InEventLoop, PyRead 1); (PlainThread, PyTell); (PlainThread, PyReadAt 0 2);
   (PlainThread, PySeek (-1) 1); (PlainThread, PyRead (-1)); (InTokio, PySeek 0 0);
   (PlainThread, PySeek (-2) 2); (PlainThread, PyClose); (PlainThread, PyRead 1)].

Lemma calls_fine : Forall (call_ok Demo.file) calls.
Proof.
  unfold calls. repeat (apply Forall_cons_2;
    [unfold call_ok, i64_max; cbn [snd]; change (zlen Demo.file) with 7; try lia; try exact I|]). constructor.
Qed.

Definition run_calls (limit : Z) (front : Front) (ops : list (CallSite * PyOp))
  : option (PyReader unit DisabledCacheManager * list PyOut) :=
  reader_calls (WorkerAccess0 := Demo.worker limit) Demo.cfg Demo.no_msg Demo.no_msg (fun _ => EmptyString)
    front (from_sdk Demo.cfg (stream_open tt None)) ops.

(** A network whose state is the number of times the second block cannot be opened. *)
Definition flaky : WorkerAccess Z := {|
  wa_connect := fun x _ => (x, Ok 0);
  wa_reconnect := fun x _ _ => (x, Ok 1);
  wa_open_sequential := fun x id off len _ =>
    if (id =? 12) && (0 <? x) then (x - 1, Err (BlockIoError "unreachable"))
    else (x, Ok (Demo.serve 3 id off len, None));
  wa_open_positioned := fun x id off len _ => (x, Ok (Demo.serve 3 id off len));
  wa_sends := fun _ _ => SendOk;
|}.

Definition run_flaky (failures : Z) (front : Front) (ops : list (CallSite * PyOp))
  : option (list PyOut) :=
  option_map snd (reader_calls (C := DisabledCacheManager) (WorkerAccess0 := flaky) Demo.cfg Demo.no_msg
    Demo.no_msg (fun _ => EmptyString) front (from_sdk Demo.cfg (stream_open failures None)) ops).
End PyDemo.

Lemma python_reader_refines_file_witness :
  exists r outs, PyDemo.run_calls 3 SyncFront PyDemo.calls = Some (r, outs) /\
    reader_specs Demo.file (false = true) SyncFront (Some 0) PyDemo.calls outs (logical r).
Proof.
  exact (python_reader_refines_file (WorkerAccess0 := Demo.worker 3) Demo.cfg Demo.file Demo.no_msg
    Demo.no_msg (fun _ => EmptyString) SyncFront false tt None PyDemo.calls Demo.geometry_ok
    (Demo.honest 3 ltac:(lia)) (fun _ => Demo.delivering) ltac:(done) PyDemo.calls_fine).
Defined.

Abbreviation at_plain ops := (map (pair PlainThread) ops).

(** A seek to a negative position is refused, but not before the prefetch buffer has been
    dropped: the position jumps over the parked bytes, here to the end of the file. *)
Example refused_seek_skips_bytes :
  option_map snd (PyDemo.run_calls 3 AsyncFront
    (at_plain [PyRead 1; PyTell; PySeek (-1) 0; PyTell; PyRead 1]))
  = Some [PyBytesOut (Ok [10]); PyIntOut (Ok 1); PyIntOut (Err negative_seek); PyIntOut (Ok 7);
          PyBytesOut (Ok [])].
Proof. vm_compute. reflexivity. Qed.

(** The guard of the blocking class refuses a seek, or a [read(-1)], after the buffer is gone. *)
Example guarded_call_skips_bytes :
  option_map snd (PyDemo.run_calls 3 SyncFront
    [(PlainThread, PyRead 1); (InEventLoop, PyRead (-1)); (PlainThread, PyTell)])
  = Some [PyBytesOut (Ok [10]); PyBytesOut (match streaming_guard InEventLoop with
                                            | Some e => Err e | None => Ok [] end); PyIntOut (Ok 7)].
Proof. vm_compute. reflexivity. Qed.

(** A worker fails once while the buffer is being filled.  The first [read(1)] raises although its
    byte had arrived; retried, it returns the fourth byte of the file: the first three are lost. *)
Example failed_prefetch_loses_bytes :
  PyDemo.run_flaky 1 AsyncFront (at_plain [PyRead 1; PyTell; PyRead 1])
  = Some [PyBytesOut (Err (mkPyErr PyIoError "block IO error: unreachable")); PyIntOut (Ok 3);
          PyBytesOut (Ok [40])].
Proof. vm_compute. reflexivity. Qed.
