(* ===== verification/BlockAccess.v ===== *)
(** * Reaching a worker for a block

    The worker selection, connection and reconnection of the two readers
    ([connect_worker] and [reconnect_worker_for_block] of src/src/io/file_in_stream.rs,
    [read_segment] of src/src/io/file_reader.rs), over the router view and an interface
    [WorkerNet] to the connection pool and the workers.  The input stream's interface
    [WorkerAccess] is implemented here: what workers are assumed to do is now said of each
    worker, and the stream's theorems follow for every route to them.

    The view is immutable but for its record of failed workers, so that record is the only
    part of it in the state. *)

From S2P Require Import Prelude Text Proto Errors HashRing Router BlockLocations WorkerPool.
From S2P Require Import PageCache BlockReader InStream InStreamFacts.

(** ** Requests *)

(** The first message of a read stream (src/src/client/worker.rs); the fields that are
    always unset are left out. *)
Record ReadRequest : Type := mkReadRequest {
  rr_block_id : Z;
  rr_offset : Z;
  rr_length : Z;
  rr_chunk_size : Z;
  rr_open_ufs_block_options : option OpenUfsBlockOptions;
  rr_position_short : option bool;
  rr_prefetch_window : option Z;
}.

Definition read_block_request (block_id offset length chunk_size : Z) (prefetch : option Z)
    (ufs : option OpenUfsBlockOptions) : ReadRequest :=
  mkReadRequest block_id offset length chunk_size ufs None prefetch.

Definition read_block_positioned_request (block_id offset length chunk_size : Z)
    (ufs : option OpenUfsBlockOptions) : ReadRequest :=
  mkReadRequest block_id offset length chunk_size ufs (Some true) None.

(** ** The interface *)

(** The pool of connections, a direct connection, and a read stream over a connection:
    [wn_read_block] returns the frames the worker will send, or the error that refuses the
    call.  [wn_now] is the clock, [wn_aborted] whether the drain task of the stream opened
    last is cut short, [wn_acks] the outcomes of its acknowledgements. *)
Class WorkerNet (N : Type) : Type := {
  wn_now : N -> N * Z;
  wn_acquire : N -> string -> N * result Error WorkerClient;
  wn_reconnect : N -> string -> N * result Error WorkerClient;
  wn_reconnect_if_stale : N -> string -> Z -> N * result Error WorkerClient;
  wn_invalidate : N -> string -> N;
  wn_connect : N -> string -> N * result Error WorkerClient;
  wn_read_block : N -> WorkerClient -> ReadRequest -> N * result Error (list StreamItem);
  wn_aborted : N -> option nat;
  wn_acks : N -> nat -> SendOutcome;
}.

(** What the readers take from the configuration. *)
Record AccessConfig : Type := mkAccessConfig {
  ac_file_replication_number : Z;
  ac_file_read_max_node_retry : Z;
  ac_chunk_size : Z;
  ac_prefetch_window : Z;
  ac_pooled : bool;
}.

(** The state: failed workers, the network, and the client connected last, which both readers
    hold while they open a stream over it. *)
Record Access (N : Type) : Type := mkAccess {
  ax_tracker : FailureTracker;
  ax_net : N;
  ax_client : WorkerClient;
}.
Arguments mkAccess {N}.
Arguments ax_tracker {N}.
Arguments ax_net {N}.
Arguments ax_client {N}.

Section Routes.
Context {N : Type} `{!WorkerNet N}.
Context (workers : list WorkerInfo) (ring : list (Z * nat)) (local_worker_id : option Z).
Context (locations : Z -> list BlockLocation) (cfg : AccessConfig).

Definition view_of (x : Access N) : WorkerRouterView :=
  mkView workers ring local_worker_id (ax_tracker x).

Definition with_net (x : Access N) (n : N) : Access N := mkAccess (ax_tracker x) n (ax_client x).

(** [router.select_worker_for_read] for a block. *)
Definition select_for_read (x : Access N) (block_id : Z) : Access N * result Error WorkerInfo :=
  let '(n, now) := wn_now (ax_net x) in
  let '(v, r) := view_select_worker_for_read now block_id (locations block_id)
                   (ac_file_replication_number cfg) (ac_file_read_max_node_retry cfg) (view_of x) in
  (mkAccess (vw_tracker v) n (ax_client x), r).

Definition mark_worker_failed (x : Access N) (addr : WorkerNetAddress) : Access N :=
  let '(n, now) := wn_now (ax_net x) in
  mkAccess (vw_tracker (view_mark_failed now addr (view_of x))) n (ax_client x).

Definition lift_net {A : Type} (x : Access N) (r : N * A) : Access N * A := (with_net x (fst r), snd r).

(** From the pool when there is one, otherwise a connection of its own. *)
Definition acquire_worker (x : Access N) (addr : string) : Access N * result Error WorkerClient :=
  lift_net x (if ac_pooled cfg then wn_acquire (ax_net x) addr else wn_connect (ax_net x) addr).

Definition reconnect_worker (x : Access N) (addr : string) (stale : option Z)
  : Access N * result Error WorkerClient :=
  lift_net x
    (if ac_pooled cfg then
       match stale with
       | Some g => wn_reconnect_if_stale (ax_net x) addr g
       | None => wn_reconnect (ax_net x) addr
       end
     else wn_connect (ax_net x) addr).

Definition no_address : Error := Internal "worker has no address" None.
Definition retry_no_address : Error := Internal "retry worker has no address" None.

(** ** The input stream *)

(** [connect_worker]. *)
Definition connect_worker (x : Access N) (block_id : Z) : Access N * result Error WorkerClient :=
  let '(x, selected) := select_for_read x block_id in
  match selected with
  | Err e => (x, Err e)
  | Ok info =>
      match wi_address info with
      | None => (x, Err no_address)
      | Some addr =>
          let worker_addr := rpc_endpoint addr in
          let '(x, r) := acquire_worker x worker_addr in
          match r with
          | Ok w => (x, Ok w)
          | Err e =>
              if is_authentication_failed e then reconnect_worker x worker_addr None
              else
                let x := mark_worker_failed x addr in
                let x := if ac_pooled cfg then with_net x (wn_invalidate (ax_net x) worker_addr) else x in
                let '(x, selected) := select_for_read x block_id in
                match selected with
                | Err e => (x, Err e)
                | Ok info =>
                    match wi_address info with
                    | None => (x, Err retry_no_address)
                    | Some addr => acquire_worker x (rpc_endpoint addr)
                    end
                end
          end
      end
  end.

(** [reconnect_worker_for_block]: the worker is chosen again. *)
Definition reconnect_worker_for_block (x : Access N) (block_id : Z) (stale : option Z)
  : Access N * result Error WorkerClient :=
  let '(x, selected) := select_for_read x block_id in
  match selected with
  | Err e => (x, Err e)
  | Ok info =>
      match wi_address info with
      | None => (x, Err no_address)
      | Some addr => reconnect_worker x (rpc_endpoint addr) stale
      end
  end.

(** Remembering the client a call of the stream's interface produced. *)
Definition keep_client (r : Access N * result Error WorkerClient) : Access N * result Error Z :=
  let '(x, c) := r in
  match c with
  | Ok w => (mkAccess (ax_tracker x) (ax_net x) w, Ok (cl_generation w))
  | Err e => (x, Err e)
  end.

Definition open_read (x : Access N) (req : ReadRequest) : Access N * result Error (list StreamItem) :=
  lift_net x (wn_read_block (ax_net x) (ax_client x) req).

#[export] Instance routed_access : WorkerAccess (Access N) := {
  wa_connect := fun x block_id => keep_client (connect_worker x block_id);
  wa_reconnect := fun x block_id g => keep_client (reconnect_worker_for_block x block_id (Some g));
  wa_open_sequential := fun x block_id offset length ufs =>
    let '(x, r) := open_read x (read_block_request block_id offset length (ac_chunk_size cfg)
                                  (Some (ac_prefetch_window cfg)) ufs) in
    (x, let? frames := r in Ok (frames, wn_aborted (ax_net x)));
  wa_open_positioned := fun x block_id offset length ufs =>
    open_read x (read_block_positioned_request block_id offset length (ac_chunk_size cfg) ufs);
  wa_sends := fun x => wn_acks (ax_net x);
}.
End Routes.

(** ** What a selection returns *)

Lemma cleanup_keeps_failed now t key :
  is_failed now (cleanup_expired_failures now t) key = is_failed now t key.
Proof.
  rewrite !is_failed_alt, cleanup_ttl. unfold spec_failed.
  destruct (tracker_map (cleanup_expired_failures now t) !! key) as [at_|] eqn:E.
  - by rewrite (cleanup_map _ _ _ _ E).
  - destruct (tracker_map t !! key) as [at_|] eqn:E'; [|done].
    symmetry. apply Z.ltb_ge. by eapply cleanup_lost.
Qed.

Section Selection.
Context (workers : list WorkerInfo) (ring : list (Z * nat)).

(** No healthy worker is named by a location, and the walk over the ring finds none within
    its attempts: any worker is then better than none. *)
Definition last_resort (now b : Z) (locs : list BlockLocation) (count : nat) (t : FailureTracker) : Prop :=
  let t1 := cleanup_expired_failures now t in
  workers_from_block_locations (is_failed now t1) workers locs count = [] /\
  consistent_hash_select_n_from_ring (is_failed now (cleanup_expired_failures now t1)) b workers ring
    count true = [].

Lemma select_several_first now b count t w ws :
  snd (select_several now (mkSnapshot workers ring) b count t) = Ok (w :: ws) ->
  w ∈ workers /\
  (healthy (is_failed now (cleanup_expired_failures now t)) w = true \/
   consistent_hash_select_n_from_ring (is_failed now (cleanup_expired_failures now t)) b workers ring
     count true = []).
Proof.
  unfold select_several. cbn. destruct (count =? 0)%nat; [done|].
  destruct workers as [|w0 ws0] eqn:Hws; [done|]. rewrite <- Hws in *.
  set (failed := is_failed now (cleanup_expired_failures now t)).
  destruct (consistent_hash_select_n_from_ring failed b workers ring count true) as [|w1 l1] eqn:Ht.
  - destruct (consistent_hash_select_n_from_ring failed b workers ring count false) as [|w1 l1] eqn:Hf; [done|].
    intros [= <- _]. split; [|by right].
    apply (select_n_members failed b workers ring count false). rewrite Hf. set_solver.
  - intros [= <- _]. split; [apply (select_n_members failed b workers ring count true); rewrite Ht; set_solver|].
    left. destruct (select_n_inv failed workers true b ring count) as (st & Hinv & Hst).
    rewrite Hst in Ht. destruct Hinv as [_ _ _ Hh _]. rewrite Ht in Hh.
    by apply (Forall_inv (Hh eq_refl)).
Qed.

Lemma select_for_read_first now b locs count t w ws :
  snd (select_several_for_read now (mkSnapshot workers ring) b locs count t) = Ok (w :: ws) ->
  w ∈ workers /\ (healthy (is_failed now t) w = true \/ last_resort now b locs count t).
Proof.
  assert (Hh : forall t w, healthy (is_failed now (cleanup_expired_failures now t)) w = healthy (is_failed now t) w).
  { intros t0 w0. unfold healthy. destruct (wi_address w0); [|done]. by rewrite cleanup_keeps_failed. }
  unfold select_several_for_read. cbn [sn_workers]. destruct (count =? 0)%nat; [done|].
  destruct workers as [|w0 ws0] eqn:Hws; [done|]. rewrite <- Hws in *. cbn [fst snd].
  set (t1 := cleanup_expired_failures now t).
  destruct (workers_from_block_locations (is_failed now t1) workers locs count) as [|w1 l1] eqn:Hl.
  - intros Hs. apply select_several_first in Hs as [Hin [Hw|Hw]]; (split; [done|]).
    + left. by rewrite Hh in Hw; unfold t1 in Hw; rewrite Hh in Hw.
    + right. by split.
  - intros [= <- _]. unfold workers_from_block_locations in Hl.
    destruct locs as [|loc locs], count as [|count]; try done.
    destruct (loop_sound (is_failed now t1) workers (loc :: locs) (S count) ∅ [] w1) as [?|[id (_ & Hf & Hw)]];
      [rewrite Hl; set_solver|set_solver|].
    apply find_some in Hf as [Hf _]. rewrite <- list_elem_of_In in Hf.
    split; [done|]. left. by unfold t1 in Hw; rewrite Hh in Hw.
Qed.
End Selection.

(** ** Routes lead to registered workers *)

(** What the pool promises ([pool_returns_fresh_client] for any interleaving of its
    callers): a client is connected to the address asked for. *)
Class WorkerNetOk (N : Type) `{!WorkerNet N} : Prop := {
  wn_acquire_addr : forall n addr n' c, wn_acquire n addr = (n', Ok c) -> cl_addr c = addr;
  wn_reconnect_addr : forall n addr n' c, wn_reconnect n addr = (n', Ok c) -> cl_addr c = addr;
  wn_stale_addr : forall n addr g n' c, wn_reconnect_if_stale n addr g = (n', Ok c) -> cl_addr c = addr;
  wn_connect_addr : forall n addr n' c, wn_connect n addr = (n', Ok c) -> cl_addr c = addr;
}.

Section RouteFacts.
Context {N : Type} `{!WorkerNet N}.
Context (workers : list WorkerInfo) (ring : list (Z * nat)) (local_worker_id : option Z).
Context (locations : Z -> list BlockLocation) (cfg : AccessConfig).

Abbreviation select := (select_for_read workers ring local_worker_id locations cfg).
Abbreviation count := (read_worker_candidate_count (ac_file_replication_number cfg) (ac_file_read_max_node_retry cfg)).
Abbreviation connect := (connect_worker workers ring local_worker_id locations cfg).

Lemma count_pos : (0 < count)%nat.
Proof. unfold read_worker_candidate_count. lia. Qed.

Lemma select_for_read_sound x b x' w :
  select x b = (x', Ok w) ->
  w ∈ workers /\
  (healthy (is_failed (snd (wn_now (ax_net x))) (ax_tracker x)) w = true \/
   last_resort workers ring (snd (wn_now (ax_net x))) b (locations b) count (ax_tracker x)).
Proof.
  unfold select_for_read, view_select_worker_for_read, view_select_workers_for_read.
  destruct (wn_now (ax_net x)) as [n now]. unfold view_snapshot, view_of. cbn.
  destruct (select_several_for_read now (mkSnapshot workers ring) b (locations b) count (ax_tracker x))
    as [t r] eqn:Hs. cbn. intros Heq. apply (f_equal snd) in Heq. cbn in Heq.
  destruct r as [[|w0 ws]|]; try done. injection Heq as ->.
  apply (select_for_read_first workers ring now b (locations b) count (ax_tracker x) w ws). by rewrite Hs.
Qed.

Lemma select_several_ok now b t :
  ring = build_hash_ring workers -> ring <> [] -> Forall (fun w => is_Some (wi_address w)) workers ->
  exists w ws, snd (select_several now (mkSnapshot workers ring) b count t) = Ok (w :: ws).
Proof.
  intros Hring Hne Haddr. unfold select_several. cbn [sn_workers sn_ring].
  pose proof count_pos as Hc. destruct (Nat.eqb_spec count 0) as [|_]; [lia|].
  destruct workers as [|w0 ws0] eqn:Hws; [by subst ring|]. rewrite <- Hws in *.
  set (failed := is_failed now (cleanup_expired_failures now t)).
  destruct (consistent_hash_select_n_from_ring failed b workers ring count true) as [|w1 l1]; [|by eexists _, _].
  destruct (ring_ceiling_ok ring (murmur3_guava_long_int b 0)) as (idx & Hidx & _);
    [rewrite Hring; apply build_hash_ring_sorted|done|].
  assert (Hw : is_Some (workers !! idx)).
  { apply lookup_lt_is_Some_2, (build_hash_ring_index workers (murmur3_guava_long_int b 0)). by rewrite <- Hring. }
  destruct Hw as [w Hw].
  pose proof (select_n_first failed b workers ring count idx w Hc Hidx Hw) as Hsel.
  destruct (consistent_hash_select_n_from_ring failed b workers ring count false) as [|w1 l1]; [|by eexists _, _].
  exfalso. apply Hsel; [|done]. apply (proj1 (Forall_lookup _ _) Haddr idx w Hw).
Qed.

Lemma select_for_read_ok x b :
  ring = build_hash_ring workers -> ring <> [] -> Forall (fun w => is_Some (wi_address w)) workers ->
  exists x' w addr, select x b = (x', Ok w) /\ wi_address w = Some addr.
Proof.
  intros Hring Hne Haddr. destruct (select x b) as [x' r] eqn:Hs. enough (exists w, r = Ok w) as [w ->].
  { pose proof (proj1 (select_for_read_sound _ _ _ _ Hs)) as Hin.
    destruct (proj1 (Forall_forall _ _) Haddr w Hin) as [addr Ha]. by exists x', w, addr. }
  revert Hs. unfold select_for_read, view_select_worker_for_read, view_select_workers_for_read.
  destruct (wn_now (ax_net x)) as [n now]. unfold view_snapshot, view_of. cbn.
  unfold select_several_for_read. cbn [sn_workers].
  pose proof count_pos as Hc. destruct (Nat.eqb_spec count 0) as [|_]; [lia|].
  pose proof (select_several_ok now b (cleanup_expired_failures now (ax_tracker x)) Hring Hne Haddr)
    as (w & ws & Hw).
  destruct workers as [|w0 ws0] eqn:Hws; [by subst ring|]. rewrite <- Hws in *.
  destruct (workers_from_block_locations _ workers (locations b) count) as [|w1 l1].
  - destruct (select_several now _ b count _) as [t' r']. cbn in Hw. subst r'. cbn. intros [= _ <-]. by exists w.
  - cbn. intros [= _ <-]. by exists w1.
Qed.
End RouteFacts.

(** ** The stream over routed workers *)

Section Composition.
Context {N : Type} `{!WorkerNet N}.
Context (workers : list WorkerInfo) (ring : list (Z * nat)) (local_worker_id : option Z).
Context (locations : Z -> list BlockLocation) (cfg : AccessConfig).
Context (scfg : InStreamConfig) (data : bytes).

Abbreviation access := (routed_access workers ring local_worker_id locations cfg).
Abbreviation bs := (ss_block_size_bytes (sc_status scfg)).

(** Every worker that accepts a read sends a prefix of the range it was asked for. *)
Definition honest_net : Prop := forall n w req n' frames idx,
  block_id_at scfg idx = Ok (rr_block_id req) -> in_block bs (zlen data) idx (rr_offset req) (rr_length req) ->
  wn_read_block n w req = (n', Ok frames) -> honest_frames scfg data idx (rr_offset req) (rr_length req) frames.

(** Workers can be reached and send whole ranges. *)
Record delivering_net : Prop := {
  dn_acquire : forall n addr, is_ok (snd (wn_acquire n addr)) = true;
  dn_connect : forall n addr, is_ok (snd (wn_connect n addr)) = true;
  dn_read : forall n w req idx,
    block_id_at scfg idx = Ok (rr_block_id req) ->
    in_block bs (zlen data) idx (rr_offset req) (rr_length req) ->
    exists frames, snd (wn_read_block n w req) = Ok frames /\
      full_frames scfg data idx (rr_offset req) (rr_length req) frames;
  dn_aborted : forall n, wn_aborted n = None;
}.

(** The router has workers, all with an address. *)
Record routable : Prop := {
  rt_ring : ring = build_hash_ring workers;
  rt_nonempty : ring <> [];
  rt_addresses : Forall (fun w => is_Some (wi_address w)) workers;
}.

Lemma routed_honest : honest_net -> honest_world (WorkerAccess0 := access) scfg data.
Proof.
  intros Hn. split; cbn; unfold open_read, lift_net.
  - intros x id idx off len ufs x' frames aborted Hid Hb.
    destruct (wn_read_block (ax_net x) (ax_client x) _) as [n r] eqn:Hr. cbn.
    intros [= _ Heq]. destruct r as [fs|]; [|done]. injection Heq as -> _.
    by apply (fun H1 H2 => Hn _ _ _ _ _ idx H1 H2 Hr).
  - intros x id idx off len ufs x' frames Hid Hb.
    destruct (wn_read_block (ax_net x) (ax_client x) _) as [n r] eqn:Hr. cbn.
    intros [= _ ->]. by apply (fun H1 H2 => Hn _ _ _ _ _ idx H1 H2 Hr).
Qed.

Lemma routed_connects x b :
  routable -> delivering_net -> is_ok (snd (connect_worker workers ring local_worker_id locations cfg x b)) = true.
Proof.
  intros [Hring Hne Haddr] Hd. unfold connect_worker.
  destruct (select_for_read_ok workers ring local_worker_id locations cfg x b Hring Hne Haddr)
    as (x1 & w & addr & -> & ->).
  unfold acquire_worker, lift_net.
  pose proof (dn_acquire Hd (ax_net x1) (rpc_endpoint addr)) as Ha.
  pose proof (dn_connect Hd (ax_net x1) (rpc_endpoint addr)) as Hc.
  by destruct (ac_pooled cfg); [destruct (wn_acquire _ _) as [? []]|destruct (wn_connect _ _) as [? []]].
Qed.

Lemma routed_delivers :
  routable -> delivering_net ->
  (forall idx, 0 <= idx -> idx * bs < zlen data -> is_ok (block_id_at scfg idx) = true) ->
  (forall i j id, 0 <= i -> 0 <= j -> block_id_at scfg i = Ok id -> block_id_at scfg j = Ok id -> i = j) ->
  delivering_world (WorkerAccess0 := access) scfg data.
Proof.
  intros Hrt Hd Hids Hdist. split; [|done|done|..]; cbn; unfold open_read, lift_net.
  - intros x id. pose proof (routed_connects x id Hrt Hd) as H. unfold keep_client.
    by destruct (connect_worker _ _ _ _ _ x id) as [? []].
  - intros x id idx off len ufs Hid Hb.
    destruct (dn_read Hd (ax_net x) (ax_client x)
      (read_block_request id off len (ac_chunk_size cfg) (Some (ac_prefetch_window cfg)) ufs) idx Hid Hb)
      as (frames & Hr & Hf). exists frames. split; [|done].
    destruct (wn_read_block _ _ _) as [n r]. cbn in *. subst r. cbn. by rewrite (dn_aborted Hd).
  - intros x id idx off len ufs Hid Hb.
    destruct (dn_read Hd (ax_net x) (ax_client x)
      (read_block_positioned_request id off len (ac_chunk_size cfg) ufs) idx Hid Hb) as (frames & Hr & Hf).
    exists frames. split; [|done]. by destruct (wn_read_block _ _ _) as [n r].
Qed.
End Composition.
