(* ===== verification/FileReader.v ===== *)
(** * File reader (src/src/io/file_reader.rs)

    [GoosefsFileReader]: opening through the context, the plan of block segments, one segment
    over a routed worker with its two layers of retries, the page cache as a detour, and the
    one-shot helpers.  The fields fixed by the opener are a record [ReaderEnv]; the router's
    failed workers, the network, the cache and the iteration state are threaded. *)

From S2P Require Import Prelude Text Proto Errors BlockMapper HashRing Router BlockLocations.
From S2P Require Import WorkerPool PageCache BlockReader InStream InStreamFacts BlockAccess.

(** ** What the opener fixes *)

Record ReaderEnv : Type := mkReaderEnv {
  re_file_info : FileInfo;
  re_workers : list WorkerInfo;
  re_hash_ring : list (Z * nat);
  re_local_worker_id : option Z;
  re_config : AccessConfig;
  re_ufs_read_options : option OpenUfsBlockOptions;
  re_cache_file_id : string;
  re_cache_page_size : Z;
  re_cache_fill : bool;
  re_cache_async_write : bool;
}.

(** What changes while reading; [rd_cache] is [None] on the worker-direct path. *)
Record ReaderState (N C : Type) : Type := mkReaderState {
  rd_access : Access N;
  rd_plans : list BlockReadPlan;
  rd_current_plan_index : nat;
  rd_total_bytes_read : Z;
  rd_cache : option C;
}.
Arguments mkReaderState {N C}.
Arguments rd_access {N C}.
Arguments rd_plans {N C}.
Arguments rd_current_plan_index {N C}.
Arguments rd_total_bytes_read {N C}.
Arguments rd_cache {N C}.

(** ** Blocks *)

Definition DEFAULT_BLOCK_SIZE : Z := 64 * 1024 * 1024.

Section Blocks.
Context (fi : FileInfo).

Definition nominal_block_size : Z := default DEFAULT_BLOCK_SIZE (fi_block_size_bytes fi).

Definition resolve_block_id (plan : BlockReadPlan) : Z :=
  match zget (fi_file_block_infos fi) (brp_block_index plan) ≫= fbi_block_id with
  | Some id => if 0 <? id then id else brp_block_id plan
  | None => brp_block_id plan
  end.

(** The locations of the first entry with this id. *)
Definition locations_if (block_id : Z) (fbi : FileBlockInfo) : option (list BlockLocation) :=
  bi ← fbi_block_info fbi;
  if bool_decide (bi_block_id bi = Some block_id) then Some (bi_locations bi) else None.

Definition block_locations (block_id : Z) : list BlockLocation :=
  default [] (head (omap (locations_if block_id) (fi_file_block_infos fi))).

(** [InStreamOptions::default().max_ufs_read_concurrency] *)
Definition MAX_UFS_READ_CONCURRENCY : Z := 8.

(** The template built once by [build]. *)
Definition ufs_template : option OpenUfsBlockOptions :=
  match fi_ufs_path fi with
  | None => None
  | Some p =>
      if String.eqb p EmptyString then None
      else Some (mkOpenUfsBlockOptions p 0 0 MAX_UFS_READ_CONCURRENCY (fi_mount_id fi)
                   (negb (default true (fi_cacheable fi))) (fi_length fi))
  end.

Definition build_ufs_read_options (template : option OpenUfsBlockOptions) (plan : BlockReadPlan)
  : option OpenUfsBlockOptions :=
  t ← template;
  Some (mkOpenUfsBlockOptions (uo_ufs_path t)
          (i64_saturating_mul (as_i64 (brp_block_index plan)) nominal_block_size)
          (match fi_length fi with
           | Some len => ufs_block_length len nominal_block_size (brp_block_index plan)
           | None => nominal_block_size
           end)
          (uo_max_ufs_read_concurrency t) (uo_mount_id t) (uo_no_cache t) (uo_file_length t)).
End Blocks.

(** ** Reading *)

Section Reader.
Context {N C : Type} `{!WorkerNet N, !CacheManager C}.
Context (env : ReaderEnv) (short_msg zero_msg : PagePiece -> bytes -> string).

Abbreviation fi := (re_file_info env).
Abbreviation cfg := (re_config env).

Definition reader_select : Access N -> Z -> Access N * result Error WorkerInfo :=
  select_for_read (re_workers env) (re_hash_ring env) (re_local_worker_id env) (block_locations fi) cfg.

Definition worker_addr (w : WorkerInfo) : result Error string :=
  match wi_address w with
  | None => Err no_address
  | Some addr => Ok (rpc_endpoint addr)
  end.

Definition mark_selected_failed (x : Access N) (w : WorkerInfo) : Access N :=
  match wi_address w with
  | Some addr =>
      mark_worker_failed (re_workers env) (re_hash_ring env) (re_local_worker_id env) x addr
  | None => x
  end.

(** The failover of [read_segment] after a connection failed with [e]: the other worker, once. *)
Definition connect_other (x : Access N) (block_id : Z) (w : WorkerInfo) (e : Error)
  : Access N * result Error WorkerClient :=
  let x := mark_selected_failed x w in
  let '(x, selected) := reader_select x block_id in
  match selected with
  | Err _ => (x, Err e)
  | Ok retry =>
      match worker_addr retry with
      | Err e => (x, Err e)
      | Ok retry_addr => acquire_worker cfg x retry_addr
      end
  end.

(** The first part of [read_segment]: the address of the worker selected first, and the
    client connected in the end. *)
Definition connect_segment (x : Access N) (block_id : Z) : Access N * result Error (string * WorkerClient) :=
  let '(x, selected) := reader_select x block_id in
  match selected with
  | Err e => (x, Err e)
  | Ok w =>
      match worker_addr w with
      | Err e => (x, Err e)
      | Ok addr =>
          let '(x, acquired) := acquire_worker cfg x addr in
          let '(x, r) :=
            match acquired with
            | Ok c => (x, Ok c)
            | Err e =>
                if is_authentication_failed e then reconnect_worker cfg x addr None
                else connect_other x block_id w e
            end in
          (x, let? c := r in Ok (addr, c))
      end
  end.

(** Both verbs read the whole stream with [GrpcBlockReader::read_all]. *)
Definition try_read_block (x : Access N) (worker : WorkerClient) (block_id : Z) (plan : BlockReadPlan)
    (ufs : option OpenUfsBlockOptions) (positioned : bool) : Access N * result Error bytes :=
  let off := as_i64 (brp_offset_in_block plan) in
  let len := as_i64 (brp_length plan) in
  let req := if positioned then read_block_positioned_request block_id off len (ac_chunk_size cfg) ufs
             else read_block_request block_id off len (ac_chunk_size cfg) None ufs in
  let '(n, opened) := wn_read_block (ax_net x) worker req in
  let x := with_net x n in
  match opened with
  | Err e => (x, Err e)
  | Ok frames =>
      (x, default (Err out_of_fuel) (positioned_read block_id off len frames (wn_acks (ax_net x))))
  end.

Definition read_segment (x : Access N) (block_id : Z) (plan : BlockReadPlan) (positioned : bool)
  : Access N * result Error bytes :=
  let ufs := build_ufs_read_options fi (re_ufs_read_options env) plan in
  let '(x, connected) := connect_segment x block_id in
  match connected with
  | Err e => (x, Err e)
  | Ok (addr, worker) =>
      let generation := cl_generation worker in
      let '(x, r) := try_read_block x worker block_id plan ufs positioned in
      match r with
      | Ok d => (x, Ok d)
      | Err e =>
          if is_authentication_failed e then
            let '(x, fresh) := reconnect_worker cfg x addr (Some generation) in
            match fresh with
            | Err e => (x, Err e)
            | Ok fresh => try_read_block x fresh block_id plan ufs positioned
            end
          else (x, Err e)
      end
  end.

Definition zero_bytes_for_block (block_id : Z) : Error :=
  Internal ("read_file_range: 0 bytes for block " +:+ show_Z block_id) None.

(** The loop of [read_file_range]. *)
Fixpoint read_plans (x : Access N) (plans : list BlockReadPlan) (positioned : bool) (buf : bytes)
  : Access N * result Error bytes :=
  match plans with
  | [] => (x, Ok buf)
  | plan :: plans =>
      let block_id := resolve_block_id fi plan in
      if block_id <=? 0 then read_plans x plans positioned buf
      else
        let '(x, r) := read_segment x block_id plan positioned in
        match r with
        | Err e => (x, Err e)
        | Ok data =>
            if zlen data =? 0 then (x, Err (zero_bytes_for_block block_id))
            else read_plans x plans positioned (buf ++ data)
        end
  end.

Definition read_file_range (x : Access N) (abs_offset abs_end : Z) (positioned : bool)
  : Access N * result Error bytes :=
  if abs_end <=? abs_offset then (x, Ok [])
  else read_plans x (plan_read fi (as_u64 abs_offset) (as_u64 (abs_end - abs_offset))) positioned [].

(** [impl ExternalRangeReader]: the miss source of the page cache. *)
Definition read_range (x : Access N) (offset end_ : Z) : Access N * result Error bytes :=
  read_file_range x offset end_ true.

Definition file_length : Z := as_u64 (default 0 (fi_length fi)).

Definition fill_mode : FillMode :=
  if negb (re_cache_fill env) then FillNone
  else if re_cache_async_write env then FillAsync
  else FillSync.

(** The first plan with a valid block, from the plans not yet read; the number skipped. *)
Fixpoint next_valid (plans : list BlockReadPlan) : nat * option BlockReadPlan :=
  match plans with
  | [] => (0%nat, None)
  | plan :: plans =>
      if resolve_block_id fi plan <=? 0 then
        let '(n, p) := next_valid plans in (S n, p)
      else (0%nat, Some plan)
  end.

(** The fetch of one segment: through the cache when there is one. *)
Definition fetch_range (x : Access N) (cache : option C) (a b : Z)
  : option (Access N * option C * result Error bytes) :=
  match cache with
  | Some c =>
      '(c, x, r) ← read_through_cache read_range short_msg zero_msg c x (re_cache_file_id env)
                     (re_cache_page_size env) (as_i64 file_length) a b fill_mode;
      Some (x, Some c, r)
  | None => let '(x, r) := read_file_range x a b false in Some (x, None, r)
  end.

(** [None] stands for a loop that does not end. *)
Definition read_next_block (s : ReaderState N C) : option (ReaderState N C * result Error (option bytes)) :=
  let '(skipped, found) := next_valid (drop (rd_current_plan_index s) (rd_plans s)) in
  let index := (rd_current_plan_index s + skipped)%nat in
  match found with
  | None =>
      Some (mkReaderState (rd_access s) (rd_plans s) index (rd_total_bytes_read s) (rd_cache s), Ok None)
  | Some plan =>
      let block_size := as_u64 (nominal_block_size fi) in
      let abs_offset :=
        as_i64 (u64_add (u64_mul (brp_block_index plan) block_size) (brp_offset_in_block plan)) in
      let abs_end := i64_add abs_offset (as_i64 (brp_length plan)) in
      '(x, cache, r) ← fetch_range (rd_access s) (rd_cache s) abs_offset abs_end;
      Some
        match r with
        | Err e => (mkReaderState x (rd_plans s) index (rd_total_bytes_read s) cache, Err e)
        | Ok data =>
            (mkReaderState x (rd_plans s) (S index) (u64_add (rd_total_bytes_read s) (zlen data)) cache,
             Ok (Some data))
        end
  end.

(** The [while let] of [read_all]: every turn moves the index on. *)
Fixpoint read_all_blocks (fuel : nat) (s : ReaderState N C) (buf : bytes)
  : option (ReaderState N C * result Error bytes) :=
  match fuel with
  | O => None
  | S fuel =>
      '(s, r) ← read_next_block s;
      match r with
      | Err e => Some (s, Err e)
      | Ok None => Some (s, Ok buf)
      | Ok (Some chunk) => read_all_blocks fuel s (buf ++ chunk)
      end
  end.

Definition reader_read_to_end (s : ReaderState N C) : option (ReaderState N C * result Error bytes) :=
  read_all_blocks (S (length (rd_plans s) - rd_current_plan_index s)) s [].

Definition reader_is_complete (s : ReaderState N C) : bool :=
  (length (rd_plans s) <=? rd_current_plan_index s)%nat.
End Reader.

(** ** Opening *)

(** [ON_FILE_OPEN_CACHE]: when a (file id, length, modification time) was last announced to a
    page cache, for the whole process. *)
Abbreviation DedupMap := (gmap (Z * Z * Z) Z).

Definition ON_FILE_OPEN_DEDUP_TTL : Z := 60 * 1000.
Definition DEDUP_CAPACITY : nat := 4096.

Definition seen_recently (now last : Z) : bool := now - last <? ON_FILE_OPEN_DEDUP_TTL.

(** What the context lends to a reader. *)
Record ContextConfig : Type := mkContextConfig {
  cc_access : AccessConfig;
  cc_check_block_replicas : Z;
  cc_client_cache_async_write_enabled : bool;
  cc_client_cache_page_size : Z;
}.

Definition reject_directory (fi : FileInfo) (path : string) : result Error unit :=
  if default false (fi_folder fi) then Err (OpenDirectory path) else Ok tt.

Section Opening.
Context {N C : Type} `{!WorkerNet N, !CacheManager C}.
Context (blocks_order : gmap Z (list WorkerInfo) -> list (Z * list WorkerInfo)).
Context (workers_order : gmap string (WorkerInfo * gset Z) -> list (string * (WorkerInfo * gset Z))).
Context (check_blocks : string -> gset Z -> option (gmap Z Z)).
Context (cfg : ContextConfig).

(** [fetched] is what [get_file_info_cached] answers, [clock] the times of the selections. *)
Definition init_with_context (clock : nat -> Z) (shared : WorkerRouter) (path : string)
    (fetched : result Error FileInfo) : result Error (FileInfo * WorkerRouterView) :=
  let? fi := fetched in
  let? _ := reject_directory fi path in
  if workers_is_empty shared then Err (NoWorkerAvailable "no workers available for reading")
  else
    let '(view, fi) := maybe_enrich_file_block_locations blocks_order workers_order check_blocks
                         clock (from_shared shared) (cc_check_block_replicas cfg) fi in
    Ok (fi, view).

Definition build_env (fi : FileInfo) (view : WorkerRouterView) : ReaderEnv :=
  mkReaderEnv fi (vw_workers view) (vw_hash_ring view) (vw_local_worker_id view) (cc_access cfg)
    (ufs_template fi) EmptyString (cc_client_cache_page_size cfg) false false.

(** [build]: the plan of the range.  [n] and [w] are the network and the client slot. *)
Definition build (fi : FileInfo) (view : WorkerRouterView) (n : N) (w : WorkerClient)
    (offset length : Z) : ReaderEnv * ReaderState N C :=
  (build_env fi view,
   mkReaderState (mkAccess (vw_tracker view) n w) (plan_read fi offset length) 0 0 None).

(** The announcement of the file to the cache, unless it was made less than a minute ago;
    [stamp] is the time after it. *)
Definition announce (now stamp : Z) (seen : DedupMap) (c : C) (fi : FileInfo) (file_id : Z)
  : DedupMap * C :=
  let length := default 0 (fi_length fi) in
  let mtime := default 0 (fi_last_modification_time_ms fi) in
  let key := (file_id, length, mtime) in
  let skip := match seen !! key with Some last => seen_recently now last | None => false end in
  if skip then (seen, c)
  else
    let kept := if (DEDUP_CAPACITY <? size seen)%nat
                then filter (fun e => seen_recently stamp (snd e) = true) seen else seen in
    (<[key := stamp]> kept, cm_on_file_open c (show_Z file_id) length mtime).

Definition with_cache (env : ReaderEnv) (s : ReaderState N C) (file_id : string) (cache : option C)
  : ReaderEnv * ReaderState N C :=
  (mkReaderEnv (re_file_info env) (re_workers env) (re_hash_ring env) (re_local_worker_id env)
     (re_config env) (re_ufs_read_options env) file_id (cc_client_cache_page_size cfg)
     (bool_decide (is_Some cache)) (cc_client_cache_async_write_enabled cfg),
   mkReaderState (rd_access s) (rd_plans s) (rd_current_plan_index s) (rd_total_bytes_read s) cache).

(** [attach_cache]; [manager] is the context's cache manager.  A reader from [build] has no cache. *)
Definition attach_cache (now stamp : Z) (seen : DedupMap) (manager : option C) (use_page_cache : bool)
    (r : ReaderEnv * ReaderState N C) : DedupMap * (ReaderEnv * ReaderState N C) :=
  let '(env, s) := r in
  let file_id := default 0 (fi_file_id (re_file_info env)) in
  if negb use_page_cache || negb (page_cache_eligible file_id) then (seen, (env, s))
  else
    match manager with
    | Some c =>
        let '(seen, c) := announce now stamp seen c (re_file_info env) file_id in
        (seen, with_cache env s (show_Z file_id) (Some c))
    | None => (seen, with_cache env s (show_Z file_id) None)
    end.

(** [open_inner]: the whole file without a range. *)
Definition open_inner (clock : nat -> Z) (now stamp : Z) (seen : DedupMap) (shared : WorkerRouter)
    (manager : option C) (n : N) (w : WorkerClient) (path : string) (fetched : result Error FileInfo)
    (range : option (Z * Z)) (use_page_cache : bool)
  : DedupMap * result Error (ReaderEnv * ReaderState N C) :=
  match init_with_context clock shared path fetched with
  | Err e => (seen, Err e)
  | Ok (fi, view) =>
      let '(offset, length) := default (0, as_u64 (default 0 (fi_length fi))) range in
      let '(seen, r) := attach_cache now stamp seen manager use_page_cache (build fi view n w offset length) in
      (seen, Ok r)
  end.

(** [read_range_with_context] and [read_file_with_context]: one shot, worker-direct. *)
Definition read_one_shot (short_msg zero_msg : PagePiece -> bytes -> string) (clock : nat -> Z)
    (now stamp : Z) (seen : DedupMap) (shared : WorkerRouter) (manager : option C) (n : N) (w : WorkerClient)
    (path : string) (fetched : result Error FileInfo) (range : option (Z * Z))
  : option (result Error bytes) :=
  match snd (open_inner clock now stamp seen shared manager n w path fetched range false) with
  | Err e => Some (Err e)
  | Ok (env, s) => '(_, r) ← reader_read_to_end env short_msg zero_msg s; Some r
  end.
End Opening.
