(* ===== verification/FileReaderTheorems.v ===== *)
(** * File reader: theorems

    A reader opened on a range returns exactly those bytes of the file or an error, and the
    bytes whenever workers can be reached and send them, with or without the page cache; what
    the opener does to the file's metadata does not matter; and where the code departs from
    what it says. *)

From S2P Require Import Prelude Text Proto Errors BlockMapper HashRing Router BlockLocations.
From S2P Require Import WorkerPool PageCache BlockReader InStream InStreamFacts InStreamTheorems.
From S2P Require Import BlockAccess FileReader.

(** ** Block ids by index *)

Definition block_id_of (fi : FileInfo) (idx : Z) : Z :=
  resolve_block_id fi (mkBlockReadPlan (default (-1) (zget (fi_block_ids fi) idx)) idx 0 0).

Lemma resolve_planned fi plan :
  brp_block_id plan = default (-1) (zget (fi_block_ids fi) (brp_block_index plan)) ->
  resolve_block_id fi plan = block_id_of fi (brp_block_index plan).
Proof. intros H. unfold block_id_of, resolve_block_id. cbn. by rewrite H. Qed.

Section World.
Context {N : Type} `{!WorkerNet N}.
Context (fi : FileInfo) (data : bytes).

Abbreviation bs := (nominal_block_size fi).
Abbreviation fl := (zlen data).

(** The master's answer describes the file: its length, its block size, and an id for every
    block of it. *)
Record file_described : Prop := {
  fd_length : fi_length fi = Some fl;
  fd_block : 0 < bs;
  fd_bound : fl + bs <= i64_max;
  fd_ids : forall idx, 0 <= idx -> idx * bs < fl -> 0 < block_id_of fi idx;
}.

(** Workers may refuse, fail or cut streams short, but send no wrong bytes. *)
Definition serves_file : Prop := forall n w req n' frames idx,
  block_id_of fi idx = rr_block_id req -> in_block bs fl idx (rr_offset req) (rr_length req) ->
  0 < rr_length req -> wn_read_block n w req = (n', Ok frames) ->
  exists k, idx * bs + rr_offset req <= k <= idx * bs + rr_offset req + rr_length req /\
    payload frames = slice (idx * bs + rr_offset req) k data.

(** Workers can be reached and send the ranges they are asked for. *)
Record serves_whole : Prop := {
  sw_acquire : forall n addr, is_ok (snd (wn_acquire n addr)) = true;
  sw_connect : forall n addr, is_ok (snd (wn_connect n addr)) = true;
  sw_read : forall n w req idx,
    block_id_of fi idx = rr_block_id req -> in_block bs fl idx (rr_offset req) (rr_length req) ->
    0 < rr_length req -> exists frames, snd (wn_read_block n w req) = Ok frames /\ no_error frames /\
      payload frames = slice (idx * bs + rr_offset req) (idx * bs + rr_offset req + rr_length req) data;
}.
End World.

(** ** Segments *)

Section Reading.
Context {N C : Type} `{!WorkerNet N, !CacheManager C, !CacheSound C}.
Context (env : ReaderEnv) (data : bytes) (short_msg zero_msg : PagePiece -> bytes -> string).

Abbreviation fi := (re_file_info env).
Abbreviation bs := (nominal_block_size fi).
Abbreviation fl := (zlen data).

Context (Hfile : file_described fi data) (Hserve : serves_file (N := N) fi data).

Definition reachable_workers : Prop := routable (re_workers env) (re_hash_ring env).

Definition delivers : Prop := reachable_workers /\ serves_whole (N := N) fi data.

(** A segment of the plan, with its place in the file. *)
Record planned (plan : BlockReadPlan) : Prop := {
  pl_id : brp_block_id plan = default (-1) (zget (fi_block_ids fi) (brp_block_index plan));
  pl_range : in_block bs fl (brp_block_index plan) (brp_offset_in_block plan) (brp_length plan);
  pl_some : 0 < brp_length plan;
}.

Abbreviation seg_start plan := (brp_block_index plan * bs + brp_offset_in_block plan).

(** The answer to a read of [[a, b)]. *)
Definition exact (a b : Z) (r : result Error bytes) : Prop :=
  (forall d, r = Ok d -> d = slice a b data) /\ (delivers -> is_ok r = true).

Lemma planned_casts plan :
  planned plan -> as_i64 (brp_offset_in_block plan) = brp_offset_in_block plan /\
    as_i64 (brp_length plan) = brp_length plan.
Proof.
  intros [_ [] Hp]. pose proof (fd_bound _ _ Hfile). pose proof (fd_block _ _ Hfile).
  pose proof (zlen_nonneg data). unfold i64_max in *.
  by rewrite !as_i64_small by (unfold is_i64; lia).
Qed.

Lemma try_read_block_exact x w id plan ufs positioned x' r :
  planned plan -> id = block_id_of fi (brp_block_index plan) ->
  try_read_block env x w id plan ufs positioned = (x', r) ->
  (forall d, r = Ok d -> d = slice (seg_start plan) (seg_start plan + brp_length plan) data) /\
  (serves_whole (N := N) fi data -> is_ok r = true).
Proof.
  intros Hp Hid. destruct (planned_casts plan Hp) as [Ho Hl]. destruct Hp as [_ Hin Hpos].
  unfold try_read_block. rewrite Ho, Hl. set (req := if positioned then _ else _).
  assert (rr_block_id req = id /\ rr_offset req = brp_offset_in_block plan /\ rr_length req = brp_length plan)
    as (Ri & Ro & Rl) by (by destruct positioned).
  destruct (wn_read_block (ax_net x) w req) as [n opened] eqn:Hr.
  destruct opened as [frames|e].
  2:{ intros [= <- <-]. split; [done|]. intros Hw.
      destruct (sw_read _ _ Hw (ax_net x) w req (brp_block_index plan)) as (f & Hf & _);
        [congruence|by rewrite Ro, Rl|by rewrite Rl|]. by rewrite Hr in Hf. }
  destruct (Hserve (ax_net x) w req n frames (brp_block_index plan)) as (k & Hk & Hpay);
    [congruence|by rewrite Ro, Rl|by rewrite Rl|done|]. rewrite Ro, Rl in Hk. rewrite Ro in Hpay.
  pose proof (fd_block _ _ Hfile). destruct Hin.
  destruct (positioned_read_spec id (brp_offset_in_block plan) (brp_length plan) frames
    (wn_acks (ax_net (with_net x n))) data (seg_start plan) k) as (out & Hpr & Hok & Hall);
    [nia|lia|lia|lia|done|]. rewrite Hpr. intros [= <- <-]. split; [done|].
  intros Hw. destruct (sw_read _ _ Hw (ax_net x) w req (brp_block_index plan)) as (f & Hf & Hne & Hfp);
    [congruence|by rewrite Ro, Rl|by rewrite Rl|]. rewrite Hr in Hf. cbn in Hf. injection Hf as <-.
  apply Hall; [done|]. rewrite Ro, Rl, Hpay in Hfp. apply (f_equal zlen) in Hfp.
  rewrite !zlen_slice in Hfp by nia. lia.
Qed.

Lemma connect_segment_delivers x id : delivers -> is_ok (snd (connect_segment env x id)) = true.
Proof.
  intros [[Hring Hne Haddr] Hw]. unfold connect_segment, reader_select.
  destruct (select_for_read_ok (re_workers env) (re_hash_ring env) (re_local_worker_id env)
    (block_locations fi) (re_config env) x id Hring Hne Haddr) as (x1 & w & addr & -> & Ha).
  unfold worker_addr. rewrite Ha. unfold acquire_worker, lift_net.
  pose proof (sw_acquire _ _ Hw (ax_net x1) (rpc_endpoint addr)) as H1.
  pose proof (sw_connect _ _ Hw (ax_net x1) (rpc_endpoint addr)) as H2.
  by destruct (ac_pooled (re_config env)); [destruct (wn_acquire _ _) as [? []]|destruct (wn_connect _ _) as [? []]].
Qed.

Lemma read_segment_exact x plan positioned x' r :
  planned plan -> read_segment env x (block_id_of fi (brp_block_index plan)) plan positioned = (x', r) ->
  exact (seg_start plan) (seg_start plan + brp_length plan) r.
Proof.
  intros Hp. unfold read_segment, exact.
  pose proof (connect_segment_delivers x (block_id_of fi (brp_block_index plan))) as Hconn.
  destruct (connect_segment env x _) as [x1 [[addr w]|e]].
  2:{ intros [= <- <-]. split; [done|]. intros Hd. by specialize (Hconn Hd). }
  destruct (try_read_block env x1 w _ plan _ positioned) as [x2 r2] eqn:H1.
  destruct (try_read_block_exact _ _ _ _ _ _ _ _ Hp eq_refl H1) as [Hex Hok].
  destruct r2 as [d|e]; [intros [= <- <-]; split; [done|by intros [_ ?]]|].
  destruct (is_authentication_failed e).
  - destruct (reconnect_worker _ _ _ _) as [x3 [fresh|e']].
    + intros H2. destruct (try_read_block_exact _ _ _ _ _ _ _ _ Hp eq_refl H2) as [Hex2 Hok2].
      split; [done|by intros [_ ?]; auto].
    + intros [= <- <-]. split; [done|]. intros [_ Hw]. by specialize (Hok Hw).
  - intros [= <- <-]. split; [done|]. intros [_ Hw]. by specialize (Hok Hw).
Qed.

(** ** Plans *)

Lemma tiles_within start stop segs :
  tiles bs start stop segs -> 0 <= start -> stop <= fl ->
  Forall (fun '(i, o, len) => in_block bs fl i o len /\ 0 < len) segs.
Proof.
  intros Ht Hs Hf. pose proof (tiles_index_bound _ _ _ _ Ht Hs) as Hi. revert Hs Hf Hi.
  induction Ht as [|i o len stop rest ??? Hr Ht IH]; intros Hs Hf Hi; constructor.
  - apply Forall_inv in Hi as (? & ? & ?). apply tiles_le in Ht. split; [split|]; lia.
  - apply IH; [lia|done|]. apply tiles_index_bound in Ht; [done|lia].
Qed.

Lemma plan_sizes : plan_block_size fi = bs /\ plan_file_length fi = fl.
Proof.
  pose proof (fd_bound _ _ Hfile). pose proof (fd_block _ _ Hfile). pose proof (zlen_nonneg data).
  unfold plan_block_size, plan_file_length. rewrite (fd_length _ _ Hfile). cbn [default].
  unfold as_u64, u64_mod, i64_max, nominal_block_size, DEFAULT_BLOCK_SIZE in *.
  unfold default, id in *. rewrite !Z.mod_small; [done|lia|lia].
Qed.

(** The plan of a range tiles it, up to the end of the file. *)
Lemma plan_read_planned off len :
  is_u64 off -> is_u64 len ->
  tiles bs off (Z.max off (Z.min (off + len) fl)) (map read_seg (plan_read fi off len)) /\
  Forall planned (plan_read fi off len).
Proof.
  intros Ho Hl. pose proof plan_sizes as [Hb Hf]. pose proof (fd_block _ _ Hfile).
  pose proof (plan_read_tiles_core fi off len ltac:(lia) Ho Hl) as Ht. rewrite Hb, Hf in Ht.
  split; [done|]. destruct (decide (off < fl)) as [Hlt|Hge].
  2:{ replace (Z.max off (Z.min (off + len) fl)) with off in Ht by lia.
      apply tiles_index_bound in Ht; [|apply Ho]. rewrite Forall_map in Ht. eapply Forall_impl; [exact Ht|].
      intros p. unfold read_seg. lia. }
  apply tiles_within in Ht; [|apply Ho|lia]. rewrite Forall_map in Ht.
  pose proof (plan_read_ids fi off len) as Hid. rewrite !Forall_forall in *.
  intros p Hp. destruct (Ht p Hp). by split; [apply Hid|..].
Qed.

Lemma planned_valid plan : planned plan ->
  resolve_block_id fi plan = block_id_of fi (brp_block_index plan) /\
  0 < block_id_of fi (brp_block_index plan).
Proof.
  intros [Hid [] Hp]. split; [by apply resolve_planned|]. apply (fd_ids _ _ Hfile); lia.
Qed.

Lemma read_plans_exact plans a b x positioned buf x' r :
  tiles bs a b (map read_seg plans) -> Forall planned plans -> 0 <= a -> b <= fl ->
  read_plans env x plans positioned buf = (x', r) ->
  (forall d, r = Ok d -> d = buf ++ slice a b data) /\ (delivers -> is_ok r = true).
Proof.
  intros Ht Hps. revert a x buf Ht. induction Hps as [|p ps Hp _ IH]; intros a x buf Ht Ha Hb; cbn [read_plans].
  { intros [= <- <-]. split; [|done]. intros d [= <-]. inversion Ht; subst.
    by rewrite slice_nil, app_nil_r by lia. }
  destruct (planned_valid p Hp) as [-> Hv]. destruct (Z.leb_spec (block_id_of fi (brp_block_index p)) 0); [lia|].
  destruct (read_segment env x _ p positioned) as [x1 r1] eqn:Hr.
  destruct (read_segment_exact _ _ _ _ _ Hp Hr) as [Hex Hok].
  destruct r1 as [d|e]; [|intros [= <- <-]; by split].
  specialize (Hex d eq_refl). inversion Ht as [|? ? ? ? ? ? ? ? ? Ht']; subst. destruct Hp as [_ [] Hpos].
  pose proof (fd_block _ _ Hfile). pose proof (tiles_le _ _ _ _ Ht').
  rewrite zlen_slice by nia. destruct (Z.eqb_spec (seg_start p + brp_length p - seg_start p) 0); [lia|].
  intros Hrest. destruct (IH _ _ _ Ht' ltac:(nia) Hb Hrest) as [Hex' Hok'].
  split; [|done]. intros d Hd. rewrite (Hex' d Hd), <- app_assoc. f_equal. apply slice_app; nia.
Qed.

Lemma read_file_range_exact x a b positioned :
  0 <= a <= b -> b <= fl -> exact a b (snd (read_file_range env x a b positioned)).
Proof.
  intros Ha Hb. unfold read_file_range, exact. destruct (Z.leb_spec b a).
  { cbn. split; [|done]. intros d [= <-]. by rewrite slice_nil by lia. }
  pose proof (fd_bound _ _ Hfile). pose proof (fd_block _ _ Hfile). unfold i64_max in *.
  assert (Hu : forall z, 0 <= z <= fl -> as_u64 z = z /\ is_u64 z).
  { intros z Hz. unfold as_u64, is_u64, u64_mod. rewrite Z.mod_small by lia. lia. }
  destruct (Hu a ltac:(lia)) as [-> Hua]. destruct (Hu (b - a) ltac:(lia)) as [-> Hub].
  destruct (plan_read_planned a (b - a) Hua Hub) as [Ht Hps].
  replace (Z.max a (Z.min (a + (b - a)) fl)) with b in Ht by lia.
  destruct (read_plans env x _ positioned []) as [x' r] eqn:Hr.
  by apply (read_plans_exact _ a b x positioned [] x' r Ht Hps ltac:(lia) Hb Hr).
Qed.

(** The reader as the miss source of the page cache. *)
Lemma read_range_honest : reader_honest (read_range (N := N) env) data.
Proof.
  intros x a b d Ha Hb Hd Hlen. destruct (read_file_range_exact x a b true Ha Hb) as [Hex _].
  rewrite (Hex d Hd). rewrite slice_slice by lia. f_equal; lia.
Qed.

Lemma read_range_delivers : delivers -> reader_delivers (read_range (N := N) env) data.
Proof.
  intros Hd x a b Ha Hb. destruct (read_file_range_exact x a b true ltac:(lia) Hb) as [Hex Hok].
  specialize (Hok Hd). unfold read_range. destruct (snd _) as [d|]; [|done].
  exists d. split; [done|]. rewrite (Hex d eq_refl), zlen_slice by lia. lia.
Qed.

(** ** The iteration *)

Definition pages_fit : Prop :=
  0 <= re_cache_page_size env /\ re_cache_page_size env + fl < i64_max.

Definition cache_ok (cache : option C) : Prop :=
  forall c, cache = Some c -> cache_sound c (re_cache_file_id env) (Z.max (re_cache_page_size env) 1) data.

(** The plans left cover the file from [a] to [b]. *)
Record reader_inv (a b : Z) (s : ReaderState N C) : Prop := {
  ri_tiles : tiles bs a b (map read_seg (drop (rd_current_plan_index s) (rd_plans s)));
  ri_planned : Forall planned (drop (rd_current_plan_index s) (rd_plans s));
  ri_range : 0 <= a /\ b <= fl;
  ri_cache : cache_ok (rd_cache s);
}.

Lemma fetch_range_exact x cache a b :
  pages_fit -> cache_ok cache -> 0 <= a <= b -> b <= fl ->
  exists x' cache' r, fetch_range env short_msg zero_msg x cache a b = Some (x', cache', r) /\
    exact a b r /\ cache_ok cache'.
Proof.
  intros [Hp0 Hp] Hc Ha Hb. unfold fetch_range. destruct cache as [c|].
  2:{ pose proof (read_file_range_exact x a b false Ha Hb) as Hex.
      destruct (read_file_range env x a b false) as [x' r]. by exists x', None, r. }
  assert (as_i64 (file_length env) = fl) as ->.
  { pose proof (fd_bound _ _ Hfile). pose proof (fd_block _ _ Hfile). pose proof (zlen_nonneg data).
    unfold file_length. rewrite (fd_length _ _ Hfile). cbn [default]. unfold id, i64_max in *.
    unfold as_u64. rewrite Z.mod_small by (unfold u64_mod; lia). apply as_i64_small. unfold is_i64. lia. }
  destruct (read_through_cache_spec (read_range env) short_msg zero_msg c x (re_cache_file_id env)
    (re_cache_page_size env) data a b (fill_mode env)) as (c' & x' & r & -> & Hs & Hex & Hok);
    [lia|done|done|done|by apply Hc|apply read_range_honest|].
  exists x', (Some c'), r. split; [done|]. split; [|by intros ? [= <-]].
  split; [done|]. intros Hd. by apply Hok, read_range_delivers.
Qed.

Lemma next_valid_planned plans : Forall planned plans -> next_valid env plans = (0%nat, head plans).
Proof.
  intros [|p ps Hp _]; [done|]. cbn. destruct (planned_valid p Hp) as [-> Hv].
  by destruct (Z.leb_spec (block_id_of fi (brp_block_index p)) 0); [lia|].
Qed.

Lemma seg_absolute plan : planned plan ->
  as_i64 (u64_add (u64_mul (brp_block_index plan) (as_u64 bs)) (brp_offset_in_block plan)) = seg_start plan /\
  i64_add (seg_start plan) (as_i64 (brp_length plan)) = seg_start plan + brp_length plan.
Proof.
  intros Hp. destruct (planned_casts plan Hp) as [_ ->]. destruct Hp as [_ [] Hpos].
  pose proof (fd_bound _ _ Hfile). pose proof (fd_block _ _ Hfile). pose proof (zlen_nonneg data).
  unfold i64_add, u64_add, u64_mul, as_u64, u64_mod, i64_max in *.
  assert (0 <= brp_block_index plan * bs) by nia.
  rewrite (Z.mod_small bs), (Z.mod_small (_ * _)), Z.mod_small by lia.
  by rewrite !as_i64_small by (unfold is_i64; lia).
Qed.

(** One block: the next bytes of the range, or an error that leaves the position. *)
Lemma read_next_block_exact s a b :
  pages_fit -> reader_inv a b s ->
  exists s' r, read_next_block env short_msg zero_msg s = Some (s', r) /\
    match r with
    | Ok None => a = b /\ reader_inv a b s'
    | Ok (Some d) => exists m, a < m <= b /\ d = slice a m data /\ reader_inv m b s' /\
        rd_plans s' = rd_plans s /\ rd_current_plan_index s' = S (rd_current_plan_index s)
    | Err e => ~ delivers
    end.
Proof.
  intros Hfit [Ht Hps [Ha Hb] Hc]. unfold read_next_block. rewrite next_valid_planned by done.
  rewrite Nat.add_0_r. destruct (drop (rd_current_plan_index s) (rd_plans s)) as [|p ps] eqn:Hd; cbn [head].
  { eexists _, _. split; [done|]. cbn. inversion Ht; subst. split; [done|].
    split; cbn; [by rewrite Hd; constructor|by rewrite Hd|done|done]. }
  apply Forall_cons in Hps as [Hp Hps]. destruct (seg_absolute p Hp) as [-> ->].
  inversion Ht as [|? ? ? ? ? ? ? ? ? Ht']; subst. pose proof (tiles_le _ _ _ _ Ht').
  destruct (fetch_range_exact (rd_access s) (rd_cache s) (seg_start p) (seg_start p + brp_length p))
    as (x' & c' & r & -> & [Hex Hok] & Hc'); [done|done|lia|lia|]. cbn [mbind option_bind].
  destruct r as [d|e]; eexists _, _; (split; [done|]).
  - exists (seg_start p + brp_length p). split; [lia|]. split; [by apply Hex|]. split; [|done].
    assert (Hd' : drop (S (rd_current_plan_index s)) (rd_plans s) = ps)
      by (by rewrite <- Nat.add_1_r, <- drop_drop, Hd).
    split; cbn [rd_current_plan_index rd_plans rd_cache]; [by rewrite Hd'|by rewrite Hd'|lia|done].
  - intros Hdel. by specialize (Hok Hdel).
Qed.

Lemma read_all_blocks_exact fuel s a b buf :
  pages_fit -> reader_inv a b s -> (length (rd_plans s) - rd_current_plan_index s < fuel)%nat ->
  exists s' r, read_all_blocks env short_msg zero_msg fuel s buf = Some (s', r) /\
    (forall d, r = Ok d -> d = buf ++ slice a b data /\ reader_inv b b s') /\
    (delivers -> is_ok r = true).
Proof.
  intros Hfit. revert s a buf. induction fuel as [|fuel IH]; intros s a buf Hs Hf; [lia|].
  cbn [read_all_blocks].
  destruct (read_next_block_exact s a b Hfit Hs) as (s1 & r & -> & Hr). cbn [mbind option_bind].
  destruct r as [[d|]|e].
  - destruct Hr as (m & Hm & -> & Hs1 & Hpl & Hi). destruct Hs as [Ht _ [Ha Hb] _].
    assert (rd_current_plan_index s < length (rd_plans s))%nat.
    { apply Nat.lt_nge. intros Hge. rewrite drop_ge in Ht by done. inversion Ht. lia. }
    destruct (IH s1 m (buf ++ slice a m data) Hs1) as (s2 & r & -> & Hok & Hdel); [rewrite Hpl, Hi; lia|].
    exists s2, r. split; [done|]. split; [|done]. intros d Hd. destruct (Hok d Hd) as [-> Hs2].
    split; [|done]. rewrite <- app_assoc. f_equal. apply slice_app; lia.
  - destruct Hr as [<- Hs1]. eexists _, _. split; [done|]. split; [|done].
    intros d [= <-]. by rewrite slice_nil, app_nil_r by lia.
  - eexists _, _. split; [done|]. split; [done|]. done.
Qed.
End Reading.

(** ** What the opener does to the metadata *)

(** Same length, block size, times and identity; every block keeps its id. *)
Record same_file (fi fi' : FileInfo) : Prop := {
  sf_length : fi_length fi' = fi_length fi;
  sf_block_size : fi_block_size_bytes fi' = fi_block_size_bytes fi;
  sf_file_id : fi_file_id fi' = fi_file_id fi;
  sf_mtime : fi_last_modification_time_ms fi' = fi_last_modification_time_ms fi;
  sf_ids : forall idx, 0 < block_id_of fi idx -> block_id_of fi' idx = block_id_of fi idx;
}.

Lemma apply_probed_id p fbi : fbi_block_id (apply_probed p fbi) = fbi_block_id fbi.
Proof.
  unfold apply_probed, fbi_block_id. destruct (fbi_block_info fbi) as [bi|] eqn:E; [|by rewrite E].
  destruct (bi_block_id bi) eqn:E'; [|by rewrite E; cbn]. case_match; [done|by rewrite E].
Qed.

Lemma block_id_of_infos fi fi' idx :
  fi_block_ids fi' = fi_block_ids fi ->
  map fbi_block_id (fi_file_block_infos fi') = map fbi_block_id (fi_file_block_infos fi) ->
  block_id_of fi' idx = block_id_of fi idx.
Proof.
  intros Hids Hinfos. unfold block_id_of, resolve_block_id. cbn. rewrite Hids.
  assert (Hz : forall l, zget l idx ≫= fbi_block_id = mjoin (zget (map fbi_block_id l) idx)).
  { intros l. unfold zget. rewrite list_lookup_fmap. by destruct (l !! _). }
  by rewrite !Hz, Hinfos.
Qed.

Lemma ensure_same_file fi : same_file fi (ensure_block_ids_from_file_block_infos fi).
Proof.
  unfold ensure_block_ids_from_file_block_infos.
  destruct (fi_block_ids fi) as [|id ids] eqn:Hids; [|by split].
  destruct (fi_file_block_infos fi) as [|fbi infos] eqn:Hinfos; [by split|].
  destruct fi. cbn in *. subst. split; try done. intros idx. unfold block_id_of, resolve_block_id. cbn.
  destruct (zget _ idx ≫= fbi_block_id) as [i|]; [destruct (0 <? i); [done|]|];
    unfold zget; by rewrite lookup_nil.
Qed.

Lemma probed_same_file fi p : same_file fi (apply_probed_locations fi p).
Proof.
  assert (map fbi_block_id (fi_file_block_infos (apply_probed_locations fi p))
          = map fbi_block_id (fi_file_block_infos fi)) as Hids.
  { rewrite apply_probed_locations_infos, map_map. apply map_ext. apply apply_probed_id. }
  assert (fi_length (apply_probed_locations fi p) = fi_length fi /\
    fi_block_size_bytes (apply_probed_locations fi p) = fi_block_size_bytes fi /\
    fi_file_id (apply_probed_locations fi p) = fi_file_id fi /\
    fi_last_modification_time_ms (apply_probed_locations fi p) = fi_last_modification_time_ms fi /\
    fi_block_ids (apply_probed_locations fi p) = fi_block_ids fi) as (?&?&?&?&?).
  { unfold apply_probed_locations, recompute_in_goosefs_percentage. destruct fi. by case_match. }
  split; try done. intros idx _. by apply block_id_of_infos.
Qed.

Lemma same_file_trans f1 f2 f3 : same_file f1 f2 -> same_file f2 f3 -> same_file f1 f3.
Proof.
  intros [? ? ? ? H1] [? ? ? ? H2]. split; try congruence.
  intros idx Hi. rewrite H2; rewrite H1; done.
Qed.

Section SameFile.
Context {N : Type} `{!WorkerNet N}.
Context (fi fi' : FileInfo) (data : bytes) (Hsame : same_file fi fi').

Lemma same_block_size : nominal_block_size fi' = nominal_block_size fi.
Proof. unfold nominal_block_size. by rewrite (sf_block_size _ _ Hsame). Qed.

Lemma described_same : file_described fi data -> file_described fi' data.
Proof.
  intros [H1 H2 H3 H4]. split; rewrite ?same_block_size, ?(sf_length _ _ Hsame); try done.
  intros idx Hi Hlt. rewrite (sf_ids _ _ Hsame); by apply H4.
Qed.

Lemma ids_same idx off len : file_described fi data -> in_block (nominal_block_size fi) (zlen data) idx off len ->
  0 < len -> block_id_of fi' idx = block_id_of fi idx.
Proof. intros Hd [] Hlen. apply (sf_ids _ _ Hsame), (fd_ids _ _ Hd); lia. Qed.

Lemma serves_same : file_described fi data -> serves_file (N := N) fi data -> serves_file (N := N) fi' data.
Proof.
  intros Hd Hs n w req n' frames idx. rewrite same_block_size. intros Hid Hin Hlen.
  apply Hs; [|done|done]. by rewrite <- (ids_same _ _ _ Hd Hin Hlen).
Qed.

Lemma whole_same : file_described fi data -> serves_whole (N := N) fi data -> serves_whole (N := N) fi' data.
Proof.
  intros Hd [H1 H2 H3]. split; [done|done|]. intros n w req idx. rewrite same_block_size.
  intros Hid Hin Hlen. apply H3; [|done|done]. by rewrite <- (ids_same _ _ _ Hd Hin Hlen).
Qed.
End SameFile.

Section Opened.
Context (blocks_order : gmap Z (list WorkerInfo) -> list (Z * list WorkerInfo)).
Context (workers_order : gmap string (WorkerInfo * gset Z) -> list (string * (WorkerInfo * gset Z))).
Context (check_blocks : string -> gset Z -> option (gmap Z Z)).

Lemma select_candidates_view clock ids count : forall i v acc,
  let v' := fst (select_candidates clock i ids count v acc) in
  vw_workers v' = vw_workers v /\ vw_hash_ring v' = vw_hash_ring v.
Proof.
  induction ids as [|b ids IH]; intros i v acc; cbn [select_candidates]; [done|].
  destruct (view_select_workers (clock i) b count v) as [v1 r] eqn:Hsel.
  assert (vw_workers v1 = vw_workers v /\ vw_hash_ring v1 = vw_hash_ring v) as [<- <-]; [|apply IH].
  revert Hsel. unfold view_select_workers. by destruct (select_several _ _ _ _ _); intros [= <- _].
Qed.

Lemma maybe_enrich_keeps clock view count fi view' fi' :
  maybe_enrich_file_block_locations blocks_order workers_order check_blocks clock view count fi = (view', fi') ->
  same_file fi fi' /\ vw_workers view' = vw_workers view /\ vw_hash_ring view' = vw_hash_ring view.
Proof.
  unfold maybe_enrich_file_block_locations, enrich_file_block_locations, fetch_block_locations.
  pose proof (ensure_same_file fi) as He.
  case_match; [by intros [= <- <-]|]. case_match; [by intros [= <- <-]|].
  destruct (probe_ids _) as [|b bs] eqn:Hb; [by intros [= <- <-]|].
  pose proof (select_candidates_view clock (b :: bs) (Z.to_nat (Z.max count 0)) 0 view ∅) as Hv.
  destruct (select_candidates clock 0 (b :: bs) _ view ∅) as [v1 cands]. intros [= <- <-].
  split; [|done]. eapply same_file_trans; [exact He|apply probed_same_file].
Qed.
End Opened.

(** ** Readers *)

Section Readers.
Context {N C : Type} `{!WorkerNet N, !CacheManager C, !CacheSound C}.
Context (blocks_order : gmap Z (list WorkerInfo) -> list (Z * list WorkerInfo)).
Context (workers_order : gmap string (WorkerInfo * gset Z) -> list (string * (WorkerInfo * gset Z))).
Context (check_blocks : string -> gset Z -> option (gmap Z Z)).
Context (cfg : ContextConfig) (short_msg zero_msg : PagePiece -> bytes -> string).

Lemma announce_same now stamp seen (c : C) fi fi' file_id :
  same_file fi fi' -> announce now stamp seen c fi' file_id = announce now stamp seen c fi file_id.
Proof. intros [Hl _ _ Hm _]. unfold announce. by rewrite Hl, Hm. Qed.

(** A fresh reader is at the start of its range. *)
Lemma fresh_reader env data (s : ReaderState N C) o l :
  file_described (re_file_info env) data -> is_u64 o -> is_u64 l ->
  rd_plans s = plan_read (re_file_info env) o l -> rd_current_plan_index s = 0%nat ->
  cache_ok env data (rd_cache s) ->
  exists a b, reader_inv env data a b s /\ slice a b data = slice o (o + l) data.
Proof.
  intros Hf Ho Hl Hp Hi Hc. destruct (plan_read_planned env data Hf o l Ho Hl) as [Ht Hps].
  unfold is_u64 in *. destruct (decide (o < zlen data)) as [Hlt|Hge].
  - exists o, (Z.min (o + l) (zlen data)). rewrite Z.max_r in Ht by lia. split.
    + split; rewrite ?Hi, ?Hp; [done|done|lia|done].
    + destruct (Z.min_spec (o + l) (zlen data)) as [[_ ->]|[? ->]]; [done|].
      by rewrite (slice_clamp o (o + l)) by lia.
  - exists 0, 0. replace (Z.max o (Z.min (o + l) (zlen data))) with o in Ht by lia.
    assert (Hnil : plan_read (re_file_info env) o l = []).
    { unfold plan_read. pose proof (plan_sizes env data Hf) as [_ Hfl]. unfold plan_file_length in Hfl.
      rewrite Hfl. destruct (Z.leb_spec (zlen data) o); [|lia]. by rewrite orb_true_r. }
    split; [|by rewrite slice_nil, slice_past by lia].
    pose proof (zlen_nonneg data). split; rewrite ?Hi, ?Hp, ?Hnil; [constructor|constructor|lia|done].
Qed.

Lemma inv_complete env data a (s : ReaderState N C) : reader_inv env data a a s -> reader_is_complete s = true.
Proof.
  intros [Ht _ _ _]. unfold reader_is_complete. apply Nat.leb_le, Nat.le_ngt. intros Hlt.
  destruct (drop (rd_current_plan_index s) (rd_plans s)) as [|p ps] eqn:Hd.
  { apply (f_equal length) in Hd. rewrite length_drop in Hd. cbn in Hd. lia. }
  inversion Ht as [|? ? ? ? ? ? ? ? ? Ht']; subst. apply tiles_le in Ht'. lia.
Qed.

(** What an opened reader is made of. *)
Lemma open_inner_spec clock now stamp seen shared (manager : option C) (n : N) w path fi range upc
    (file_id := default 0 (fi_file_id fi)) :
  default false (fi_folder fi) = false -> workers_is_empty shared = false ->
  exists env s fi', same_file fi fi' /\
    snd (open_inner blocks_order workers_order check_blocks cfg clock now stamp seen shared manager n w
           path (Ok fi) range upc) = Ok (env, s) /\
    re_file_info env = fi' /\ re_workers env = wr_workers shared /\ re_hash_ring env = wr_hash_ring shared /\
    re_cache_page_size env = cc_client_cache_page_size cfg /\
    rd_plans s = (let '(o, l) := default (0, as_u64 (default 0 (fi_length fi))) range in plan_read fi' o l) /\
    rd_current_plan_index s = 0%nat /\
    (rd_cache s = None \/ exists c, manager = Some c /\ upc = true /\
      rd_cache s = Some (snd (announce now stamp seen c fi file_id)) /\ re_cache_file_id env = show_Z file_id).
Proof.
  intros Hdir Hne. unfold open_inner, init_with_context, reject_directory. cbn. rewrite Hdir, Hne. cbn.
  destruct (maybe_enrich_file_block_locations _ _ _ _ _ _ fi) as [view fi'] eqn:He.
  apply maybe_enrich_keeps in He as (Hsame & Hw & Hr). rewrite (sf_length _ _ Hsame). cbn in Hw, Hr.
  destruct (default (0, as_u64 (default 0 (fi_length fi))) range) as [o l].
  unfold attach_cache, build. cbn [re_file_info build_env]. rewrite (sf_file_id _ _ Hsame). fold file_id.
  destruct (negb upc || negb (page_cache_eligible file_id)) eqn:Hb.
  { eexists _, _, fi'. split; [done|]. split; [done|]. cbn. split_and!; try done. by left. }
  apply orb_false_iff in Hb as [Hu _]. destruct upc; [|done]. destruct manager as [c|].
  - rewrite (announce_same now stamp seen c fi fi' file_id Hsame).
    destruct (announce now stamp seen c fi file_id) as [seen' c'] eqn:Ha.
    eexists _, _, fi'. split; [done|]. split; [done|]. cbn. split_and!; try done. right. exists c. by rewrite Ha.
  - eexists _, _, fi'. split; [done|]. split; [done|]. cbn. split_and!; try done. by left.
Qed.

(** C3. A reader returns the range it was opened for.  Opening a file through the context,
    with or without a probe for block locations, with or without the page cache, and reading
    it to the end returns, or an error does: whatever workers refuse, fail or cut short (as
    long as they send no wrong bytes) and whichever of them the retries land on, a success
    carries exactly the bytes of the requested range, clamped at the end of the file; and it
    is a success whenever the router has workers that can be reached and send what they are
    asked for. *)
Theorem file_reader_returns_range clock now stamp seen shared (manager : option C) (n : N) w path
    fi data range upc (file_id := default 0 (fi_file_id fi))
    (Hdir : default false (fi_folder fi) = false) (Hne : workers_is_empty shared = false)
    (Hfile : file_described fi data) (Hserve : serves_file (N := N) fi data)
    (Hrange : forall o l, range = Some (o, l) -> is_u64 o /\ is_u64 l)
    (Hps : 0 <= cc_client_cache_page_size cfg /\ cc_client_cache_page_size cfg + zlen data < i64_max)
    (Hc : forall c, manager = Some c -> upc = true ->
      cache_sound (snd (announce now stamp seen c fi file_id)) (show_Z file_id)
        (Z.max (cc_client_cache_page_size cfg) 1) data) :
  exists env s s' r,
    snd (open_inner blocks_order workers_order check_blocks cfg clock now stamp seen shared manager n w
           path (Ok fi) range upc) = Ok (env, s) /\
    reader_read_to_end env short_msg zero_msg s = Some (s', r) /\
    (forall d, r = Ok d ->
       d = (let '(o, l) := default (0, zlen data) range in slice o (o + l) data) /\
       reader_is_complete s' = true) /\
    (routable (wr_workers shared) (wr_hash_ring shared) -> serves_whole (N := N) fi data -> is_ok r = true).
Proof.
  destruct (open_inner_spec clock now stamp seen shared manager n w path fi range upc Hdir Hne)
    as (env & s & fi' & Hsame & Hopen & Hfi & Hw & Hr & Hpg & Hplans & Hidx & Hcache).
  pose proof (described_same fi fi' data Hsame Hfile) as Hf'. rewrite <- Hfi in Hf', Hplans.
  pose proof (serves_same fi fi' data Hsame Hfile Hserve) as Hs'. rewrite <- Hfi in Hs'.
  assert (Hrl : as_u64 (default 0 (fi_length fi)) = zlen data).
  { rewrite (fd_length _ _ Hfile). cbn. unfold as_u64, u64_mod. pose proof (fd_bound _ _ Hfile).
    pose proof (fd_block _ _ Hfile). pose proof (zlen_nonneg data). unfold i64_max in *.
    by rewrite Z.mod_small by lia. }
  rewrite Hrl in Hplans. destruct (default (0, zlen data) range) as [o l] eqn:Hol.
  assert (is_u64 o /\ is_u64 l) as [Ho Hl].
  { destruct range as [[o' l']|]; cbn in Hol; injection Hol as <- <-; [by apply Hrange|].
    rewrite <- Hrl. split; [done|apply as_u64_range]. }
  assert (Hco : cache_ok env data (rd_cache s)).
  { intros c Hcs. destruct Hcache as [?|(c0 & Hm & Hu & Hc0 & Hfid)]; [congruence|].
    rewrite Hc0 in Hcs. injection Hcs as <-. rewrite Hfid, Hpg. by apply Hc. }
  destruct (fresh_reader env data s o l Hf' Ho Hl Hplans Hidx Hco) as (a & b & Hinv & Hslice).
  destruct (read_all_blocks_exact env data short_msg zero_msg Hf' Hs'
    (S (length (rd_plans s) - rd_current_plan_index s)) s a b []) as (s' & r & Hread & Hok & Hdel);
    [by unfold pages_fit; rewrite Hpg|done|lia|].
  exists env, s, s', r. split; [done|]. split; [done|]. split.
  - intros d Hd. destruct (Hok d Hd) as [-> Hi']. split; [done|]. by eapply inv_complete.
  - intros Hrt Hsw. apply Hdel. unfold delivers, reachable_workers. rewrite Hw, Hr, Hfi.
    split; [done|]. by eapply whole_same.
Qed.
End Readers.

(** ** A network in memory *)

(** The seven-byte file of the stream's example, on two workers.  [dn_down] are the addresses
    that refuse connections, [dn_expired] the number of reads still to be rejected for expired
    credentials, [dn_log] the calls made, latest first. *)
Module ReaderDemo.
Inductive NetCall : Type :=
| CallAcquire (addr : string)
| CallReconnectIfStale (addr : string) (generation : Z)
| CallRead (addr : string) (block_id : Z).

Record Net : Type := mkNet {
  dn_down : list string;
  dn_expired : nat;
  dn_log : list NetCall;
}.

Definition log (n : Net) (c : NetCall) : Net := mkNet (dn_down n) (dn_expired n) (c :: dn_log n).

(** Worker a is at its first connection, worker b at its seventh. *)
Definition client (addr : string) : WorkerClient :=
  mkWorkerClient addr (if String.eqb addr "a:9203" then 1 else 7).

Definition connect (n : Net) (c : NetCall) (addr : string) : Net * result Error WorkerClient :=
  (log n c, if bool_decide (addr ∈ dn_down n) then Err (Internal "connection refused" None)
            else Ok (client addr)).

Definition read_block (n : Net) (w : WorkerClient) (req : ReadRequest) : Net * result Error (list StreamItem) :=
  let n' := log n (CallRead (cl_addr w) (rr_block_id req)) in
  match dn_expired n with
  | O => (n', Ok (Demo.serve 3 (rr_block_id req) (rr_offset req) (rr_length req)))
  | S k => (mkNet (dn_down n) k (dn_log n'), Err (AuthenticationFailed "expired"))
  end.

#[global] Instance net : WorkerNet Net := {
  wn_now := fun n => (n, 0);
  wn_acquire := fun n addr => connect n (CallAcquire addr) addr;
  wn_reconnect := fun n addr => connect n (CallAcquire addr) addr;
  wn_reconnect_if_stale := fun n addr g => connect n (CallReconnectIfStale addr g) addr;
  wn_invalidate := fun n _ => n;
  wn_connect := fun n addr => connect n (CallAcquire addr) addr;
  wn_read_block := read_block;
  wn_aborted := fun _ => None;
  wn_acks := fun _ _ => SendOk;
}.

Definition info : FileInfo := file_info_of (Some 7) (Some 3) [11; 12; 13].

Definition shared : WorkerRouter := update_workers (fun _ => 7) None (fun _ => false) 1 two_workers (router_new 0).

Definition ctx : ContextConfig := mkContextConfig (mkAccessConfig 1 3 1024 1024 true) 0 false 4.

Definition opened (fi : FileInfo) (n : Net) (range : option (Z * Z))
  : result Error (ReaderEnv * ReaderState Net DisabledCacheManager) :=
  snd (open_inner map_to_list map_to_list (fun _ _ => None) ctx (fun _ => 0) 0 0 ∅ shared
         (Some Disabled) n (mkWorkerClient EmptyString 0) "/f" (Ok fi) range true).

(** The bytes read and the calls made, in order. *)
Definition outcome (fi : FileInfo) (n : Net) (range : option (Z * Z))
  : option (result Error bytes * list NetCall) :=
  match opened fi n range with
  | Err e => Some (Err e, [])
  | Ok (env, s) =>
      '(s, r) ← reader_read_to_end env Demo.no_msg Demo.no_msg s;
      Some (r, rev (dn_log (ax_net (rd_access s))))
  end.

Lemma block_ids idx : 0 <= idx -> idx * 3 < 7 -> block_id_of info idx = 11 + idx.
Proof. intros H1 H2. assert (idx = 0 \/ idx = 1 \/ idx = 2) as [->|[->| ->]] by lia; reflexivity. Qed.

Lemma described : file_described info Demo.file.
Proof.
  split; [done|done|by vm_compute|]. intros idx H1 H2. change (idx * 3 < 7) in H2.
  rewrite block_ids by done. lia.
Qed.

Lemma served id idx off len : id = 11 + idx -> in_block 3 7 idx off len ->
  payload (Demo.serve 3 id off len) = slice (idx * 3 + off) (idx * 3 + off + len) Demo.file.
Proof.
  intros -> [Hi Ho Hl Hb Hf]. cbn [Demo.serve payload]. unfold Demo.serve.
  replace (11 + idx - 11) with idx by lia. rewrite (Z.min_l len 3) by lia.
  cbn [payload mjoin option_join default]. rewrite app_nil_l, app_nil_r. apply slice_app; lia.
Qed.

Lemma net_serves_file : serves_file (N := Net) info Demo.file.
Proof.
  intros n w req n' frames idx Hid Hin Hlen. change (in_block 3 7 idx (rr_offset req) (rr_length req)) in Hin.
  cbn. unfold read_block. destruct (dn_expired n); [|done]. intros [= _ <-]. pose proof Hin as [].
  rewrite block_ids in Hid by lia.
  exists (idx * 3 + rr_offset req + rr_length req). change (nominal_block_size info) with 3.
  split; [lia|]. by apply served.
Qed.
End ReaderDemo.

(** The last four bytes, worker a down and through a page cache that keeps nothing. *)
Lemma file_reader_returns_range_witness :
  exists env s s' r,
    ReaderDemo.opened ReaderDemo.info (ReaderDemo.mkNet ["a:9203"%string] 0 []) (Some (3, 4)) = Ok (env, s) /\
    reader_read_to_end env Demo.no_msg Demo.no_msg s = Some (s', r) /\
    (forall d, r = Ok d -> d = [40; 50; 60; 70] /\ reader_is_complete s' = true) /\
    (routable (wr_workers ReaderDemo.shared) (wr_hash_ring ReaderDemo.shared) ->
     serves_whole (N := ReaderDemo.Net) ReaderDemo.info Demo.file -> is_ok r = true).
Proof.
  exact (file_reader_returns_range (C := DisabledCacheManager) map_to_list map_to_list (fun _ _ => None)
    ReaderDemo.ctx Demo.no_msg Demo.no_msg (fun _ => 0) 0 0 ∅ ReaderDemo.shared (Some Disabled)
    (ReaderDemo.mkNet ["a:9203"%string] 0 []) (mkWorkerClient EmptyString 0) "/f" ReaderDemo.info Demo.file
    (Some (3, 4)) true eq_refl eq_refl ReaderDemo.described ReaderDemo.net_serves_file
    ltac:(by intros o l [= <- <-]) ltac:(done) ltac:(done)).
Defined.

(** ** Where the code departs from what it says *)

(** Credentials that expire after a failover: block 11 is first routed to worker b, which is
    down; worker a accepts the connection but rejects the read; the reconnection then goes to
    worker b again, the address of the first selection, with the generation of worker a's
    client, and the read fails although worker a would serve it. *)
Theorem expiry_after_failover_reconnects_to_failed_worker :
  ReaderDemo.outcome ReaderDemo.info (ReaderDemo.mkNet ["b:9203"%string] 1 []) (Some (0, 3))
  = Some (Err (Internal "connection refused" None),
      [ReaderDemo.CallAcquire "b:9203"; ReaderDemo.CallAcquire "a:9203";
       ReaderDemo.CallRead "a:9203" 11; ReaderDemo.CallReconnectIfStale "b:9203" 1]).
Proof. vm_compute. reflexivity. Qed.

(** Without the failover the same expiry is repaired. *)
Theorem expiry_is_repaired :
  ReaderDemo.outcome ReaderDemo.info (ReaderDemo.mkNet [] 1 []) (Some (0, 3))
  = Some (Ok [10; 20; 30],
      [ReaderDemo.CallAcquire "b:9203"; ReaderDemo.CallRead "b:9203" 11;
       ReaderDemo.CallReconnectIfStale "b:9203" 7; ReaderDemo.CallRead "b:9203" 11]).
Proof. vm_compute. reflexivity. Qed.

(** A block without a valid id is left out of the result, which is a success: bytes of the
    third block follow those of the first. *)
Theorem missing_block_is_skipped :
  option_map fst (ReaderDemo.outcome (file_info_of (Some 7) (Some 3) [11; 0; 13]) (ReaderDemo.mkNet [] 0 []) None)
  = Some (Ok [10; 20; 30; 70]).
Proof. vm_compute. reflexivity. Qed.

(** The reader takes the id of a block from the entry at the block's index, whatever that
    entry's offset: with the entries listed last block first, and the block ids in order, it
    reads the blocks in the wrong order. *)
Definition reversed_entries : list FileBlockInfo :=
  [mkFileBlockInfo (Some (mkBlockInfo (Some 12) (Some 3) None [])) (Some 3) [] [];
   mkFileBlockInfo (Some (mkBlockInfo (Some 11) (Some 3) None [])) (Some 0) [] []].

Theorem reversed_entries_read_wrong_blocks :
  option_map fst (ReaderDemo.outcome (set_file_block_infos (file_info_of (Some 6) (Some 3) [11; 12]) reversed_entries)
    (ReaderDemo.mkNet [] 0 []) None)
  = Some (Ok [40; 50; 60; 10; 20; 30]) /\
  fi_block_ids (ensure_block_ids_from_file_block_infos
    (set_file_block_infos (file_info_of (Some 6) (Some 3) []) reversed_entries)) = [11; 12].
Proof. vm_compute. done. Qed.

(** A file announced to one cache manager is not announced to another within the minute, by
    whichever context: the record of announcements is kept for the process, not per cache. *)
Theorem second_manager_not_told {C : Type} `{!CacheManager C} (c1 c2 : C) now1 stamp now2 stamp2 seen fi id
    (Hrecent : now2 - stamp < ON_FILE_OPEN_DEDUP_TTL)
    (Hfirst : seen !! (id, default 0 (fi_length fi), default 0 (fi_last_modification_time_ms fi)) = None) :
  let '(seen1, _) := announce now1 stamp seen c1 fi id in
  announce now2 stamp2 seen1 c2 fi id = (seen1, c2).
Proof.
  unfold announce. rewrite Hfirst. rewrite lookup_insert_eq. unfold seen_recently.
  by rewrite (proj2 (Z.ltb_lt _ _) Hrecent).
Qed.
