(* ===== verification/StreamOpen.v ===== *)
(** * Opening an input stream

    [GoosefsFileInStream::open] and [open_with_context] of src/src/io/file_in_stream.rs, with
    the read options of src/src/fs/options.rs: from the master's [FileInfo] and a router to a
    stream.  The theorem follows the whole way: probe, status, routed workers, page cache,
    cursor. *)

From S2P Require Import Prelude Text Proto Errors HashRing Router BlockLocations UriStatus WorkerPool.
From S2P Require Import PageCache BlockReader InStream InStreamFacts InStreamProps InStreamDeliver.
From S2P Require Import InStreamTheorems BlockAccess FileReader FileReaderTheorems.

(** ** Options *)

Inductive ReadType : Type := NoCache | Cache.

#[global] Instance ReadType_eq_dec : EqDecision ReadType.
Proof. solve_decision. Defined.

Definition read_type_to_proto (t : ReadType) : Z :=
  match t with NoCache => 1 | Cache => 2 end.

Record InStreamOptions : Type := mkInStreamOptions {
  io_read_type : ReadType;
  io_position_short : bool;
  io_max_ufs_read_concurrency : Z;
  io_prefetch_window : Z;
}.

Definition default_InStreamOptions : InStreamOptions := mkInStreamOptions Cache false 8 1.

Definition no_cache_options : InStreamOptions :=
  mkInStreamOptions NoCache (io_position_short default_InStreamOptions)
    (io_max_ufs_read_concurrency default_InStreamOptions) (io_prefetch_window default_InStreamOptions).

Definition positioned (o : InStreamOptions) : InStreamOptions :=
  mkInStreamOptions (io_read_type o) true (io_max_ufs_read_concurrency o) (io_prefetch_window o).

(** ** Opening *)

(** What the stream takes from the configuration. *)
Record StreamConfig : Type := mkStreamConfig {
  st_access : AccessConfig;
  st_tuning : ReadTuning;
  st_chunk_size : Z;
  st_check_block_replicas : Z;
  st_client_cache_page_size : Z;
  st_client_cache_async_write_enabled : bool;
  st_client_cache_sequential_read_enabled : bool;
}.

(** An opened stream: its fixed part, the router's view, and its state. *)
Record OpenedStream (N C : Type) : Type := mkOpenedStream {
  os_config : InStreamConfig;
  os_view : WorkerRouterView;
  os_locations : Z -> list BlockLocation;
  os_access : AccessConfig;
  os_stream : GoosefsFileInStream (Access N) C;
}.
Arguments mkOpenedStream {N C}.
Arguments os_config {N C}.
Arguments os_view {N C}.
Arguments os_locations {N C}.
Arguments os_access {N C}.
Arguments os_stream {N C}.

(** [block_locations] of the stream. *)
Definition status_locations (us : URIStatus) (block_id : Z) : list BlockLocation :=
  default [] (fbi ← get_block_info us block_id; bi ← fbi_block_info fbi; Some (bi_locations bi)).

(** Directories and files still being written are rejected. *)
Definition check_openable (us : URIStatus) (path : string) : result Error unit :=
  if us_folder us then Err (OpenDirectory path)
  else if negb (us_completed us) then Err (FileIncomplete (path +:+ " is incomplete"))
  else Ok tt.

Definition valid_config (v : result string unit) : result Error unit :=
  match v with Ok _ => Ok tt | Err m => Err (ConfigError m) end.

Definition pooled (a : AccessConfig) (b : bool) : AccessConfig :=
  mkAccessConfig (ac_file_replication_number a) (ac_file_read_max_node_retry a) (ac_chunk_size a)
    (ac_prefetch_window a) b.

Section Open.
Context {N C : Type} `{!WorkerNet N, !CacheManager C}.
Context (blocks_order : gmap Z (list WorkerInfo) -> list (Z * list WorkerInfo)).
Context (workers_order : gmap string (WorkerInfo * gset Z) -> list (string * (WorkerInfo * gset Z))).
Context (check_blocks : string -> gset Z -> option (gmap Z Z)).
(** The order in which the table of block infos is searched. *)
Context (infos_order : gmap Z FileBlockInfo -> list FileBlockInfo).
Context (cfg : StreamConfig).

(** The parts of the status the stream reads. *)
Definition stream_status (us : URIStatus) : StreamStatus :=
  mkStreamStatus (us_length us) (us_block_size_bytes us) (us_block_ids us)
    (infos_order (us_block_infos us)) (us_ufs_path us) (us_mount_id us) (us_cacheable us).

Definition stream_config (us : URIStatus) (o : InStreamOptions) (cache_file_id : string)
    (cache_fill cache_async_write cache_sequential_read : bool) : InStreamConfig :=
  mkInStreamConfig (stream_status us) (st_tuning cfg) (st_chunk_size cfg)
    (io_max_ufs_read_concurrency o) (st_client_cache_page_size cfg) cache_file_id cache_fill
    cache_async_write cache_sequential_read.

(** [open]: without a context there is neither a pool nor a cache, and the local worker is not
    looked for.  [workers] is what the worker manager answers. *)
Definition open_legacy (clock : nat -> Z) (n : N) (w : WorkerClient) (path : string)
    (validated : result string unit) (fetched : result Error FileInfo)
    (workers : result Error (list WorkerInfo)) (o : InStreamOptions)
  : result Error (OpenedStream N C) :=
  let? _ := valid_config validated in
  let? fi := fetched in
  let? ws := workers in
  if bool_decide (ws = []) then Err (NoWorkerAvailable "no workers available for reading")
  else
    let '(view, fi) := maybe_enrich_file_block_locations blocks_order workers_order check_blocks
                         clock (from_workers ws DEFAULT_FAILURE_TTL) (st_check_block_replicas cfg) fi in
    let us := from_proto fi in
    let? _ := check_openable us path in
    Ok (mkOpenedStream (stream_config us o EmptyString false false false) view (status_locations us)
          (pooled (st_access cfg) false)
          (stream_open (mkAccess (vw_tracker view) n w) None)).

Definition open_with_context (clock : nat -> Z) (n : N) (w : WorkerClient) (path : string)
    (validated : result string unit) (shared : WorkerRouter) (manager : option C)
    (fetched : result Error FileInfo) (o : InStreamOptions)
  : result Error (OpenedStream N C) :=
  let? _ := valid_config validated in
  let? fi := fetched in
  let '(view, fi) := maybe_enrich_file_block_locations blocks_order workers_order check_blocks
                       clock (from_shared shared) (st_check_block_replicas cfg) fi in
  let us := from_proto fi in
  let? _ := check_openable us path in
  let cache := if page_cache_eligible (us_file_id us) then manager else None in
  let cache_file_id := show_Z (us_file_id us) in
  let cache_fill := bool_decide (is_Some cache) && negb (bool_decide (io_read_type o = NoCache)) in
  let cache := (fun c => cm_on_file_open c cache_file_id (us_length us) (us_last_modification_time_ms us))
                 <$> cache in
  Ok (mkOpenedStream
        (stream_config us o cache_file_id cache_fill (st_client_cache_async_write_enabled cfg)
           (st_client_cache_sequential_read_enabled cfg))
        view (status_locations us) (pooled (st_access cfg) true)
        (stream_open (mkAccess (vw_tracker view) n w) cache)).
End Open.

(** ** An opened stream reads its file *)

Section Opened.
Context {N C : Type} `{!WorkerNet N, !CacheManager C, !CacheSound C}.
Context (blocks_order : gmap Z (list WorkerInfo) -> list (Z * list WorkerInfo)).
Context (workers_order : gmap string (WorkerInfo * gset Z) -> list (string * (WorkerInfo * gset Z))).
Context (check_blocks : string -> gset Z -> option (gmap Z Z)).
Context (infos_order : gmap Z FileBlockInfo -> list FileBlockInfo).
Context (cfg : StreamConfig) (short_msg zero_msg : PagePiece -> bytes -> string).

(** The master's answer describes the file. *)
Record status_describes (fi : FileInfo) (data : bytes) : Prop := {
  sd_length : fi_length fi = Some (zlen data);
  sd_block : 0 < default 0 (fi_block_size_bytes fi);
  sd_bound : zlen data + default 0 (fi_block_size_bytes fi) <= i64_max;
  sd_page : 0 <= st_client_cache_page_size cfg;
  sd_page_bound : st_client_cache_page_size cfg + zlen data < i64_max;
}.

Lemma from_proto_sizes fi fi' :
  same_file fi fi' ->
  us_length (from_proto fi') = default 0 (fi_length fi) /\
  us_block_size_bytes (from_proto fi') = default 0 (fi_block_size_bytes fi) /\
  us_file_id (from_proto fi') = default 0 (fi_file_id fi) /\
  us_last_modification_time_ms (from_proto fi') = default 0 (fi_last_modification_time_ms fi).
Proof.
  intros Hs. pose proof (same_file_trans _ _ _ Hs (ensure_same_file fi')) as [H1 H2 H3 H4 _].
  unfold from_proto. cbn [us_length us_block_size_bytes us_file_id us_last_modification_time_ms].
  by rewrite H1, H2, H3, H4.
Qed.

(** The cache after the announcement of the file. *)
Definition announced (fi : FileInfo) (c : C) : C :=
  cm_on_file_open c (show_Z (default 0 (fi_file_id fi))) (default 0 (fi_length fi))
    (default 0 (fi_last_modification_time_ms fi)).

Abbreviation routed o :=
  (routed_access (vw_workers (os_view o)) (vw_hash_ring (os_view o)) (vw_local_worker_id (os_view o))
     (os_locations o) (os_access o)).

(** What [open_with_context] hands out. *)
Lemma open_with_context_spec clock (n : N) w path validated shared (manager : option C) fi o opts data :
  open_with_context blocks_order workers_order check_blocks infos_order cfg clock n w path validated
    shared manager (Ok fi) opts = Ok o ->
  status_describes fi data ->
  geometry (os_config o) data /\
  (exists x cache, os_stream o = stream_open x cache /\
    forall c, cache = Some c -> exists c0, manager = Some c0 /\ c = announced fi c0) /\
  sc_cache_file_id (os_config o) = show_Z (default 0 (fi_file_id fi)) /\
  sc_cache_page_size (os_config o) = st_client_cache_page_size cfg /\
  ss_block_size_bytes (sc_status (os_config o)) = default 0 (fi_block_size_bytes fi) /\
  vw_workers (os_view o) = wr_workers shared /\ vw_hash_ring (os_view o) = wr_hash_ring shared.
Proof.
  unfold open_with_context. destruct (valid_config validated); [|done]. cbn [result_bind].
  destruct (maybe_enrich_file_block_locations _ _ _ _ _ _ fi) as [view fi'] eqn:He.
  apply maybe_enrich_keeps in He as (Hsame & Hw & Hr). cbn in Hw, Hr.
  destruct (from_proto_sizes fi fi' Hsame) as (E1 & E2 & E3 & E4). remember (from_proto fi') as us.
  destruct (check_openable us path); [|done]. intros [= <-] [H1 H2 H3 H4 H5].
  rewrite H1 in E1. cbn in E1. cbn. rewrite E3. split; [split; cbn; rewrite ?E1, ?E2; done|].
  split; [|done]. eexists _, _. split; [done|]. intros c Hc. rewrite E1, E4 in Hc.
  destruct (page_cache_eligible _); [|done]. destruct manager as [c0|]; [|done].
  cbn in Hc. injection Hc as <-. exists c0. split; [done|]. unfold announced. by rewrite H1.
Qed.

(** C6. A stream opened through the context reads the file the master described.  Whatever
    the probe for block locations found, whichever workers the router picks and however often
    connections fail over or are replaced, over any sequence of reads, seeks and positioned
    reads the stream is a cursor over the file's bytes, as long as no worker sends wrong bytes
    and the page cache is sound after it was told of the file.  If, in addition, the router has
    workers that can be reached and send what they are asked for, nothing fails, and a final
    [read_all] returns exactly the rest of the file. *)
Theorem opened_stream_reads_file clock (n : N) w path validated shared (manager : option C) fi opts data
    (o : OpenedStream N C) ops
    (Hopen : open_with_context blocks_order workers_order check_blocks infos_order cfg clock n w path
       validated shared manager (Ok fi) opts = Ok o)
    (Hfile : status_describes fi data) (Hnet : honest_net (N := N) (os_config o) data)
    (Hc : forall c, manager = Some c ->
      cache_sound (announced fi c) (show_Z (default 0 (fi_file_id fi)))
        (Z.max (st_client_cache_page_size cfg) 1) data)
    (Hops : Forall (op_ok data) ops) :
  exists s outs,
    stream_run (WorkerAccess0 := routed o) (os_config o) short_msg zero_msg (os_stream o) ops = Some (s, outs) /\
    cursor_run data True 0 ops outs (pos s) /\
    (routable (wr_workers shared) (wr_hash_ring shared) ->
     delivering_net (N := N) (os_config o) data ->
     (forall idx, 0 <= idx -> idx * default 0 (fi_block_size_bytes fi) < zlen data ->
        is_ok (block_id_at (os_config o) idx) = true) ->
     (forall i j id, 0 <= i -> 0 <= j -> block_id_at (os_config o) i = Ok id ->
        block_id_at (os_config o) j = Ok id -> i = j) ->
     cursor_run data False 0 ops outs (pos s) /\
     exists s', read_all (WorkerAccess0 := routed o) (os_config o) short_msg zero_msg s
       = Some (s', Ok (slice (pos s) (zlen data) data))).
Proof.
  destruct (open_with_context_spec _ _ _ _ _ _ _ _ _ _ data Hopen Hfile)
    as (Hgeo & (x & cache & Hos & Hcache) & Hfid & Hpg & Hbs & Hw & Hr).
  pose proof (routed_honest (vw_workers (os_view o)) (vw_hash_ring (os_view o))
    (vw_local_worker_id (os_view o)) (os_locations o) (os_access o) (os_config o) data Hnet) as Hhw.
  assert (Hinv : stream_inv (os_config o) data (os_stream o)).
  { rewrite Hos. apply stream_inv_open. intros c Hcs.
    destruct (Hcache c Hcs) as (c0 & Hm & ->). rewrite Hfid, Hpg. by apply Hc. }
  assert (Hpos : pos (os_stream o) = 0) by (by rewrite Hos).
  destruct (run_refines (WorkerAccess0 := routed o) (os_config o) data short_msg zero_msg Hgeo Hhw True ops
    (os_stream o)) as (s & outs & Hrun & _ & _ & Hcur); [done|tauto|tauto|tauto|done|].
  rewrite Hpos in Hcur. exists s, outs. split; [done|]. split; [done|].
  intros Hrt Hdn Hids Hdist. rewrite <- Hw, <- Hr in Hrt.
  pose proof (routed_delivers (vw_workers (os_view o)) (vw_hash_ring (os_view o))
    (vw_local_worker_id (os_view o)) (os_locations o) (os_access o) (os_config o) data Hrt Hdn
    ltac:(by rewrite Hbs) Hdist) as Hdw.
  destruct (run_refines (WorkerAccess0 := routed o) (os_config o) data short_msg zero_msg Hgeo Hhw False ops
    (os_stream o)) as (s2 & outs2 & Hrun2 & Hi2 & Hr2 & Hcur2); [done|by rewrite Hos|done|tauto|done|].
  rewrite Hrun in Hrun2. injection Hrun2 as <- <-. rewrite Hpos in Hcur2. split; [done|].
  unfold read_all. set (fuel := S _).
  destruct (read_all_from_ok (WorkerAccess0 := routed o) (os_config o) data short_msg zero_msg
    Hgeo Hhw fuel s [] Hdw Hi2 ltac:(tauto)) as (s' & Hall & _); [|by exists s'].
  unfold fuel, remaining, pos. rewrite (ge_length _ _ Hgeo). lia.
Qed.
End Opened.

(** ** The file in memory, opened *)

Module OpenDemo.
Definition cfg : StreamConfig :=
  mkStreamConfig (mkAccessConfig 1 3 1024 1024 true) (mkReadTuning 1024 4 1024 16) 8192 0 4 false false.

Definition info : FileInfo :=
  mkFileInfo (Some 9) None None (Some "/u"%string) (Some 7) (Some 3) None (Some true) None None None [11; 12; 13]
    None None None None None None [] None None None None None [] None.

Definition opened (n : ReaderDemo.Net) (opts : InStreamOptions)
  : result Error (OpenedStream ReaderDemo.Net DisabledCacheManager) :=
  open_with_context map_to_list map_to_list (fun _ _ => None) (fun m => snd <$> map_to_list m) cfg
    (fun _ => 0) n (mkWorkerClient EmptyString 0) "/f" (Ok tt) ReaderDemo.shared (Some Disabled) (Ok info) opts.

Definition the_stream : OpenedStream ReaderDemo.Net DisabledCacheManager :=
  match opened (ReaderDemo.mkNet ["b:9203"%string] 0 []) default_InStreamOptions with
  | Ok o => o
  | Err _ => mkOpenedStream Demo.cfg two_worker_view (fun _ => []) (st_access cfg)
               (stream_open (mkAccess (tracker_new 0) (ReaderDemo.mkNet [] 0 []) (mkWorkerClient EmptyString 0)) None)
  end.

Lemma the_stream_opened :
  opened (ReaderDemo.mkNet ["b:9203"%string] 0 []) default_InStreamOptions = Ok the_stream.
Proof. reflexivity. Qed.

Lemma describes : status_describes cfg info Demo.file.
Proof. by split. Qed.

Lemma opened_ids idx id : 0 <= idx -> block_id_at (os_config the_stream) idx = Ok id -> id = 11 + idx.
Proof.
  intros Hi. destruct (Z.eq_dec idx 0) as [->|]; [by intros [= <-]|].
  destruct (Z.eq_dec idx 1) as [->|]; [by intros [= <-]|].
  destruct (Z.eq_dec idx 2) as [->|]; [by intros [= <-]|].
  change (block_id_at Demo.cfg idx = Ok id -> id = 11 + idx). by apply Demo.ids.
Qed.

Lemma opened_net_honest : honest_net (N := ReaderDemo.Net) (os_config the_stream) Demo.file.
Proof.
  intros n w req n' frames idx Hid Hin. change (in_block 3 7 idx (rr_offset req) (rr_length req)) in Hin.
  cbn. unfold ReaderDemo.read_block. destruct (ReaderDemo.dn_expired n); [|done]. intros [= _ <-].
  pose proof Hin as []. apply opened_ids in Hid; [|done].
  exists (idx * 3 + rr_offset req + rr_length req). change (ss_block_size_bytes _) with 3.
  split; [lia|]. by apply ReaderDemo.served.
Qed.
End OpenDemo.

(** The operations of the stream's example, with one of two workers down. *)
Lemma opened_stream_reads_file_witness :
  exists s outs,
    stream_run (WorkerAccess0 := routed_access two_workers (vw_hash_ring (os_view OpenDemo.the_stream)) None
        (fun _ => []) (pooled (st_access OpenDemo.cfg) true))
      (os_config OpenDemo.the_stream) Demo.no_msg Demo.no_msg (os_stream OpenDemo.the_stream) Demo.ops
      = Some (s, outs) /\
    cursor_run Demo.file True 0 Demo.ops outs (pos s).
Proof.
  destruct (opened_stream_reads_file map_to_list map_to_list (fun _ _ => None) (fun m => snd <$> map_to_list m)
    OpenDemo.cfg Demo.no_msg Demo.no_msg (fun _ => 0) (ReaderDemo.mkNet ["b:9203"%string] 0 [])
    (mkWorkerClient EmptyString 0) "/f" (Ok tt) ReaderDemo.shared (Some Disabled) OpenDemo.info
    default_InStreamOptions Demo.file OpenDemo.the_stream Demo.ops OpenDemo.the_stream_opened
    OpenDemo.describes OpenDemo.opened_net_honest ltac:(intros; exact I) Demo.ops_fine) as (s & outs & Hrun & Hcur & _).
  exists s, outs. split; [exact Hrun|exact Hcur].
Defined.

(** ** The read type is not sent to workers *)

(** Whatever the read type, a stream sends the same options for a block of the under file
    system: [no_cache] follows the file's [cacheable] flag alone, so a [NoCache] read is cached
    by the workers. *)
Theorem read_type_not_sent {N C : Type} `{!WorkerNet N, !CacheManager C}
    blocks_order workers_order check_blocks infos_order cfg clock (n : N) w path validated shared
    (manager : option C) fetched (opts : InStreamOptions) t idx :
  let sent o :=
    match open_with_context blocks_order workers_order check_blocks infos_order cfg clock n w path
            validated shared manager fetched o with
    | Ok s => build_ufs_opts (os_config s) idx
    | Err _ => None
    end in
  sent (mkInStreamOptions t (io_position_short opts) (io_max_ufs_read_concurrency opts) (io_prefetch_window opts))
  = sent opts.
Proof.
  unfold open_with_context. destruct (valid_config validated); [|done]. destruct fetched as [fi|]; [|done].
  cbn [result_bind]. destruct (maybe_enrich_file_block_locations _ _ _ _ _ _ fi) as [view fi'].
  by destruct (check_openable (from_proto fi') path).
Qed.

(** The two readers disagree about a file whose [cacheable] flag is unset: the stream asks the
    workers not to cache it, the file reader asks them to. *)
Theorem readers_disagree_on_cacheable :
  (uo_no_cache <$> build_ufs_opts (os_config OpenDemo.the_stream) 0) = Some true /\
  (uo_no_cache <$> ufs_template OpenDemo.info) = Some false.
Proof. split; reflexivity. Qed.

(** A file that is still being written is rejected by the stream and accepted by the reader. *)
Theorem reader_accepts_incomplete_file :
  let fi := file_info_of (Some 7) (Some 3) [11; 12; 13] in
  check_openable (from_proto fi) "/f" = Err (FileIncomplete "/f is incomplete") /\
  option_map fst (ReaderDemo.outcome fi (ReaderDemo.mkNet [] 0 []) None) = Some (Ok Demo.file).
Proof. split; vm_compute; reflexivity. Qed.
