(* ===== verification/PyPositioned.v ===== *)
(** * Python bindings: positioned block reads

    src/bindings/python/src/positioned_read.rs, the [positioned_read] and
    [acquire_worker_for_block] of both clients (filesystem.rs, sync_fs.rs) and the worker
    clients of worker.rs: from a path and a block index to the block's id and length, the
    worker that serves it, and one read over a connection of the pool, with the reconnection
    after an expired session.  The router is the shared one; connections and workers are the
    interface [WorkerNet]. *)

From S2P Require Import Prelude Text Proto Errors HashRing Router BlockLocations UriStatus WorkerPool.
From S2P Require Import PageCache BlockReader InStream InStreamFacts InStreamTheorems BlockAccess FileReader.
From S2P Require Import FileReaderTheorems StreamOpen AsyncReader PyErrors.

Definition DEFAULT_CHUNK_SIZE : Z := Z.shiftl 1 20.

(** [i64::saturating_mul] and [i64::saturating_sub]. *)
Definition i64_clamp (n : Z) : Z := Z.max (- i64_max - 1) (Z.min n i64_max).

(** ** From a block index to a block *)

Section Resolve.
(** [values] of a [HashMap], in its order of iteration; [Debug] of a path. *)
Context (values : gmap Z FileBlockInfo -> list FileBlockInfo) (debug : string -> string).

Definition no_blocks (path : string) : PyErr :=
  mkPyErr PyValueError ("path " +:+ debug path +:+ " has no blocks (empty file or directory)").

Definition block_index_out_of_range (block_index : Z) (path : string) (n : nat) : PyErr :=
  mkPyErr PyValueError ("block_index=" +:+ show_Z block_index +:+ " out of range (file " +:+ debug path
                        +:+ " has " +:+ show_Z (Z.of_nat n) +:+ " block(s))").

Definition actual_block_length (status : URIStatus) (block_id block_index : Z) : Z :=
  let configured := Z.max (us_block_size_bytes status) 0 in
  let computed := if 0 <? configured then i64_clamp (as_i64 block_index * configured) else 0 in
  let block_offset :=
    match get_block_info status block_id ≫= fbi_offset with
    | Some o => if 0 <=? o then o else computed
    | None => computed
    end in
  let remaining := i64_clamp (us_length status - block_offset) in
  if remaining <=? 0 then 0
  else
    let cap := if 0 <? configured then Z.min remaining configured else remaining in
    match (fbi ← get_block_info status block_id; bi ← fbi_block_info fbi; bi_length bi) with
    | Some len => if 0 <? len then Z.min len cap else cap
    | None => cap
    end.

Definition resolve_block_id (status : URIStatus) (block_index : Z) (path : string) : PyResult (Z * Z) :=
  let fbi_ids := map snd (sort_by_key fst (omap offset_and_id (values (us_block_infos status)))) in
  let block_ids := match fbi_ids with [] => us_block_ids status | _ => fbi_ids end in
  match block_ids with
  | [] => Err (no_blocks path)
  | _ =>
      match zget block_ids block_index with
      | None => Err (block_index_out_of_range block_index path (length block_ids))
      | Some block_id => Ok (block_id, actual_block_length status block_id block_index)
      end
  end.
End Resolve.

Definition open_ufs_block_options (status : URIStatus) (block_index : Z) : option OpenUfsBlockOptions :=
  if String.eqb (us_ufs_path status) EmptyString then None
  else
    let block_size := us_block_size_bytes status in
    let offset_in_file := if 0 <? block_size then i64_clamp (as_i64 block_index * block_size) else 0 in
    Some (mkOpenUfsBlockOptions (us_ufs_path status) offset_in_file
            (ufs_block_length (us_length status) block_size block_index)
            (io_max_ufs_read_concurrency default_InStreamOptions) (Some (us_mount_id status))
            (negb (us_cacheable status)) (Some (us_length status))).

Fixpoint position_of (id : Z) (ids : list Z) : option Z :=
  match ids with
  | [] => None
  | x :: ids => if x =? id then Some 0 else n ← position_of id ids; Some (n + 1)
  end.

Definition open_ufs_block_options_for_block_id (status : URIStatus) (block_id : Z)
  : option OpenUfsBlockOptions :=
  block_index ← position_of block_id (us_block_ids status);
  open_ufs_block_options status block_index.

Definition block_locations_from_status (status : URIStatus) (block_id : Z) : list BlockLocation :=
  default [] (bi_locations <$> (get_block_info status block_id ≫= fbi_block_info)).

(** ** Reading from a worker *)

Record PyContext (N : Type) : Type := mkPyContext {
  pc_router : WorkerRouter;
  pc_net : N;
}.
Arguments mkPyContext {N}.
Arguments pc_router {N}.
Arguments pc_net {N}.

Section Read.
Context {N : Type} `{!WorkerNet N}.
Context (file_replication_number file_read_max_node_retry : Z).
Context (show_status : Status -> string).

Abbreviation PM A := (PyContext N * PyResult A)%type.

Definition no_address_selected : PyErr := mkPyErr PyRuntimeError "selected worker has no address".

Definition set_net (x : PyContext N) (n : N) : PyContext N := mkPyContext (pc_router x) n.

(** Route to the worker of a block. *)
Definition worker_for_block (x : PyContext N) (block_id : Z) (locations : list BlockLocation) : PM string :=
  let '(n, now) := wn_now (pc_net x) in
  let '(router, selected) := select_worker_for_read now block_id locations file_replication_number
                               file_read_max_node_retry (pc_router x) in
  (mkPyContext router n,
   match selected with
   | Err e => Err (map_err show_status e)
   | Ok info => match wi_address info with
                | None => Err no_address_selected
                | Some addr => Ok (rpc_endpoint addr)
                end
   end).

Definition acquire_with_auth_retry (x : PyContext N) (addr : string) : PM WorkerClient :=
  let '(n, r) := wn_acquire (pc_net x) addr in
  match r with
  | Ok c => (set_net x n, Ok c)
  | Err e =>
      if is_authentication_failed e then
        let '(n, r) := wn_reconnect n addr in (set_net x n, py_result show_status r)
      else (set_net x n, Err (map_err show_status e))
  end.

(** [GrpcBlockReader::positioned_read] over a client. *)
Definition read_over (n : N) (c : WorkerClient) (block_id offset length chunk_size : Z)
    (ufs : option OpenUfsBlockOptions) : option (N * result Error bytes) :=
  let '(n, r) := wn_read_block n c (read_block_positioned_request block_id offset length chunk_size ufs) in
  match r with
  | Err e => Some (n, Err e)
  | Ok frames => out ← positioned_read block_id offset length frames (wn_acks n); Some (n, out)
  end.

Definition positioned_read_with_reauth (x : PyContext N) (status : URIStatus)
    (block_id block_index offset effective_length chunk_size : Z) : option (PM bytes) :=
  let locations := block_locations_from_status status block_id in
  let ufs_opts := open_ufs_block_options status block_index in
  let '(x, routed) := worker_for_block x block_id locations in
  match routed with
  | Err e => Some (x, Err e)
  | Ok worker_addr =>
      let '(x, acquired) := acquire_with_auth_retry x worker_addr in
      match acquired with
      | Err e => Some (x, Err e)
      | Ok client =>
          '(n, r) ← read_over (pc_net x) client block_id offset effective_length chunk_size ufs_opts;
          match r with
          | Ok b => Some (set_net x n, Ok b)
          | Err e =>
              if is_authentication_failed e then
                let '(n, fresh) := wn_reconnect_if_stale n worker_addr (cl_generation client) in
                match fresh with
                | Err e => Some (set_net x n, Err (map_err show_status e))
                | Ok fresh =>
                    '(n, r) ← read_over n fresh block_id offset effective_length chunk_size ufs_opts;
                    Some (set_net x n, py_result show_status r)
                end
              else Some (set_net x n, Err (map_err show_status e))
          end
      end
  end.

(** ** [positioned_read] of the clients *)

Definition bad_length (length : Z) : PyErr :=
  mkPyErr PyValueError ("length must be -1 (read to end of block) or non-negative, got " +:+ show_Z length).
Definition bad_chunk_size : PyErr := mkPyErr PyValueError "chunk_size must be positive".
Definition offset_past_block (offset block_size : Z) : PyErr :=
  mkPyErr PyValueError ("offset=" +:+ show_Z offset +:+ " >= actual_block_length=" +:+ show_Z block_size).

(** The checks made before the client is looked at. *)
Definition check_read_arguments (offset length chunk_size : Z) : PyResult unit :=
  if offset <? 0 then Err (mkPyErr PyValueError "offset must be non-negative")
  else if length <? -1 then Err (bad_length length)
  else if chunk_size <=? 0 then Err bad_chunk_size
  else Ok tt.

Context (values : gmap Z FileBlockInfo -> list FileBlockInfo) (debug : string -> string).

(** [status] is the answer of [get_status]. *)
Definition py_positioned_read (x : PyContext N) (status : result Error URIStatus) (path : string)
    (block_index offset length chunk_size : Z) : option (PM bytes) :=
  match check_read_arguments offset length chunk_size with
  | Err e => Some (x, Err e)
  | Ok _ =>
      match status with
      | Err e => Some (x, Err (map_err show_status e))
      | Ok status =>
          match resolve_block_id values debug status block_index path with
          | Err e => Some (x, Err e)
          | Ok (block_id, block_size) =>
              if block_size <=? offset then Some (x, Err (offset_past_block offset block_size))
              else
                let effective_length :=
                  if length <? 0 then block_size - offset else Z.min length (block_size - offset) in
                if effective_length =? 0 then Some (x, Ok [])
                else positioned_read_with_reauth x status block_id block_index offset effective_length
                       chunk_size
          end
      end
  end.

(** ** Worker clients *)

(** [PyAsyncWorkerClient] and [PyWorkerClient]. *)
Record PyWorkerClient : Type := mkPyWorkerClient {
  pwc_inner : option WorkerClient;
  pwc_addr : string;
  pwc_ufs_opts_for_block : option (Z * OpenUfsBlockOptions);
}.

Definition worker_from_sdk (c : WorkerClient) (ufs : option (Z * OpenUfsBlockOptions)) : PyWorkerClient :=
  mkPyWorkerClient (Some c) (cl_addr c) ufs.

(** [acquire_worker_for_block]; [status] is the answer of [get_status] when a path is given. *)
Definition acquire_worker_for_block (x : PyContext N) (block_id : Z)
    (status : option (result Error URIStatus)) : PM PyWorkerClient :=
  let go locations ufs :=
    let '(x, routed) := worker_for_block x block_id locations in
    match routed with
    | Err e => (x, Err e)
    | Ok worker_addr =>
        let '(n, r) := wn_acquire (pc_net x) worker_addr in
        (set_net x n, match r with
                      | Err e => Err (map_err show_status e)
                      | Ok c => Ok (worker_from_sdk c ufs)
                      end)
    end in
  match status with
  | None => go [] None
  | Some (Err e) => (x, Err (map_err show_status e))
  | Some (Ok status) =>
      go (block_locations_from_status status block_id)
        ((fun opts => (block_id, opts)) <$> open_ufs_block_options_for_block_id status block_id)
  end.

Definition connect_worker_client (n : N) (addr class_name : string) : N * PyResult PyWorkerClient :=
  if String.eqb addr EmptyString
  then (n, Err (mkPyErr PyValueError (class_name +:+ ".connect: addr must not be empty")))
  else
    let '(n, r) := wn_connect n addr in
    (n, match r with
        | Err e => Err (map_err show_status e)
        | Ok c => Ok (mkPyWorkerClient (Some c) addr None)
        end).

Definition client_closed (class_name : string) : PyErr := mkPyErr PyRuntimeError (class_name +:+ " is closed").

Definition read_block_positioned (n : N) (p : PyWorkerClient) (class_name : string)
    (block_id offset length chunk_size : Z) : option (N * PyResult bytes) :=
  if offset <? 0 then Some (n, Err (mkPyErr PyValueError "offset must be non-negative"))
  else if length <? 0 then Some (n, Err (mkPyErr PyValueError "length must be non-negative"))
  else if chunk_size <=? 0 then Some (n, Err bad_chunk_size)
  else if length =? 0 then Some (n, Ok [])
  else
    let ufs_opts := match pwc_ufs_opts_for_block p with
                    | Some (id, opts) => if id =? block_id then Some opts else None
                    | None => None
                    end in
    match pwc_inner p with
    | None => Some (n, Err (client_closed class_name))
    | Some worker =>
        '(n, r) ← read_over n worker block_id offset length chunk_size ufs_opts;
        Some (n, py_result show_status r)
    end.

Definition close_worker_client (p : PyWorkerClient) : PyWorkerClient :=
  mkPyWorkerClient None (pwc_addr p) (pwc_ufs_opts_for_block p).
End Read.

(** ** Resolving a block of a file the master describes *)

Lemma collect_values l : forall m,
  (forall fbi, fbi ∈ l -> is_Some (fbi_block_id fbi)) -> NoDup (omap fbi_block_id l) ->
  (forall fbi id, fbi ∈ l -> fbi_block_id fbi = Some id -> m !! id = None) ->
  map snd (map_to_list (foldl collect_block_info m l)) ≡ₚ l ++ map snd (map_to_list m).
Proof.
  induction l as [|fbi l IH]; intros m Hids Hnd Hfresh; [done|]. cbn.
  destruct (Hids fbi ltac:(set_solver)) as [id Hid]. cbn in Hnd. rewrite Hid in Hnd.
  apply NoDup_cons in Hnd as [Hnin Hnd]. unfold collect_block_info at 2. rewrite Hid.
  rewrite IH; [|set_solver|done|].
  - rewrite map_to_list_insert by (apply (Hfresh fbi); [set_solver|done]). cbn.
    by rewrite <- Permutation_middle.
  - intros fbi' id' Hin Hid'. rewrite lookup_insert_ne; [by apply (Hfresh fbi'); [set_solver|]|].
    intros ->. apply Hnin, list_elem_of_omap. by exists fbi'.
Qed.

(** The file [data] in blocks of [bs] bytes, whose infos in file order are [infos].  The
    length the master gives for a block may be too large, but not too small. *)
Record described (fi : FileInfo) (infos : list FileBlockInfo) (data : bytes) (bs : Z) : Prop := {
  de_block_size : fi_block_size_bytes fi = Some bs;
  de_positive : 0 < bs;
  de_length : fi_length fi = Some (zlen data);
  de_bound : zlen data <= i64_max;
  de_infos : fi_file_block_infos fi ≡ₚ infos;
  de_some : infos <> [];
  de_order : blocks_in_order bs infos;
  de_ids : NoDup (omap fbi_block_id infos);
  de_lengths : forall k fbi bi len, infos !! k = Some fbi -> fbi_block_info fbi = Some bi ->
    bi_length bi = Some len -> 0 < len -> Z.min (zlen data - Z.of_nat k * bs) bs <= len;
}.

(** The bytes of the file in its [k]-th block. *)
Definition block_bytes (data : bytes) (bs k : Z) : Z := Z.max 0 (Z.min (zlen data - k * bs) bs).

Section Resolved.
Context (values : gmap Z FileBlockInfo -> list FileBlockInfo) (debug : string -> string).
Context (Hvalues : forall m, values m ≡ₚ map snd (map_to_list m)).
Context (fi : FileInfo) (infos : list FileBlockInfo) (data : bytes) (bs : Z).
Context (Hd : described fi infos data bs).

Abbreviation status := (from_proto fi).

Lemma status_fields :
  us_block_size_bytes status = bs /\ us_length status = zlen data /\
  us_block_infos status = collect_block_infos (fi_file_block_infos fi).
Proof.
  unfold from_proto. cbn. rewrite ensure_keeps_infos.
  pose proof (de_block_size _ _ _ _ Hd) as H1. pose proof (de_length _ _ _ _ Hd) as H2.
  unfold ensure_block_ids_from_file_block_infos. destruct fi as []; cbn in *. subst.
  by destruct fi_block_ids, fi_file_block_infos.
Qed.

Lemma info_ids fbi : fbi ∈ infos -> exists id, fbi_block_id fbi = Some id /\ 0 < id.
Proof.
  intros [k Hk]%list_elem_of_lookup. destruct (de_order _ _ _ _ Hd k fbi Hk) as (_ & id & Hid & Hpos). eauto.
Qed.

Lemma values_are_infos : values (us_block_infos status) ≡ₚ infos.
Proof.
  destruct status_fields as (_ & _ & ->). rewrite Hvalues. unfold collect_block_infos.
  rewrite <- (de_infos _ _ _ _ Hd) at 1.
  rewrite collect_values; [by rewrite map_to_list_empty, app_nil_r| | |done].
  - intros fbi Hin. rewrite (de_infos _ _ _ _ Hd) in Hin. destruct (info_ids _ Hin) as (id & -> & _). eauto.
  - rewrite (de_infos _ _ _ _ Hd). exact (de_ids _ _ _ _ Hd).
Qed.

Lemma info_of_block k fbi id :
  infos !! k = Some fbi -> fbi_block_id fbi = Some id -> get_block_info status id = Some fbi.
Proof.
  intros Hk Hid. unfold get_block_info. destruct status_fields as (_ & _ & ->).
  apply collect_lookup; [rewrite (de_infos _ _ _ _ Hd); exact (de_ids _ _ _ _ Hd)| |done].
  rewrite (de_infos _ _ _ _ Hd). by eapply list_elem_of_lookup_2.
Qed.

Lemma block_length_exact k fbi id :
  infos !! k = Some fbi -> fbi_block_id fbi = Some id ->
  actual_block_length status id (Z.of_nat k) = block_bytes data bs (Z.of_nat k).
Proof.
  intros Hk Hid. unfold actual_block_length, block_bytes. rewrite (info_of_block k fbi id Hk Hid).
  destruct status_fields as (-> & -> & _). destruct (de_order _ _ _ _ Hd k fbi Hk) as (Ho & _).
  pose proof (de_positive _ _ _ _ Hd). pose proof (de_bound _ _ _ _ Hd). pose proof (zlen_nonneg data).
  cbn. rewrite Ho. rewrite (proj2 (Z.leb_le 0 _)) by lia.
  rewrite (Z.max_l bs 0), (proj2 (Z.ltb_lt 0 bs)) by lia.
  set (start := Z.of_nat k * bs) in *. assert (0 <= start) by (unfold start; lia).
  assert (Hclamp : i64_clamp (zlen data - start) = Z.max (- i64_max - 1) (zlen data - start))
    by (unfold i64_clamp, i64_max in *; lia).
  rewrite Hclamp. destruct (Z.leb_spec (Z.max (- i64_max - 1) (zlen data - start)) 0); [unfold i64_max in *; lia|].
  assert (Hc : Z.min (Z.max (- i64_max - 1) (zlen data - start)) bs = Z.min (zlen data - start) bs) by lia.
  rewrite Hc. destruct (fbi_block_info fbi) as [bi|] eqn:Hbi; cbn; [|lia].
  destruct (bi_length bi) as [len|] eqn:Hlen; [|lia]. destruct (Z.ltb_spec 0 len); [|lia].
  pose proof (de_lengths _ _ _ _ Hd k fbi bi len Hk Hbi Hlen ltac:(lia)) as Hl. fold start in Hl. lia.
Qed.

(** A block index names the block of the file at that place. *)
Lemma resolve_exact k path :
  match infos !! k with
  | Some fbi => exists id, fbi_block_id fbi = Some id /\
      resolve_block_id values debug status (Z.of_nat k) path = Ok (id, block_bytes data bs (Z.of_nat k))
  | None => exists e, py_class e = PyValueError /\
      resolve_block_id values debug status (Z.of_nat k) path = Err e
  end.
Proof.
  assert (Hids : forall k, map snd (omap offset_and_id infos) !! k = (infos !! k) ≫= fbi_block_id).
  { intros j. rewrite list_lookup_fmap. destruct (infos !! j) as [fbi|] eqn:Hj; cbn.
    - destruct (de_order _ _ _ _ Hd j fbi Hj) as (_ & id & Hid & _).
      by rewrite (offsets_in_order bs infos (de_order _ _ _ _ Hd) j fbi id Hj Hid), Hid.
    - apply lookup_ge_None in Hj. rewrite lookup_ge_None_2; [done|].
      pose proof (length_omap_le offset_and_id infos). lia. }
  unfold resolve_block_id.
  rewrite (sorted_offsets bs infos _ (de_positive _ _ _ _ Hd) (de_order _ _ _ _ Hd) values_are_infos).
  pose proof (Hids 0%nat) as H0.
  assert (Hfst : exists fbi0, infos !! 0%nat = Some fbi0)
    by (pose proof (de_some _ _ _ _ Hd); clear -H; destruct infos; [done|eauto]).
  destruct Hfst as [fbi0 Hfst].
  rewrite Hfst in H0. cbn in H0. destruct (de_order _ _ _ _ Hd 0%nat fbi0 Hfst) as (_ & id0 & Hid0 & _).
  rewrite Hid0 in H0. assert (Hne : map snd (omap offset_and_id infos) <> []) by (intros Hn; by rewrite Hn in H0).
  destruct (map snd (omap offset_and_id infos)) as [|a ids] eqn:Hm in |- *; [done|].
  cbv beta iota zeta. rewrite <- Hm. unfold zget. rewrite Nat2Z.id, Hids.
  destruct (infos !! k) as [fbi|] eqn:Hk; cbn [mbind option_bind];
    [|by exists (block_index_out_of_range debug (Z.of_nat k) path (length (map snd (omap offset_and_id infos))))].
  destruct (de_order _ _ _ _ Hd k fbi Hk) as (_ & id & Hid & _). exists id. rewrite Hid.
  split; [done|]. by rewrite (block_length_exact k fbi id Hk Hid).
Qed.
End Resolved.

(** ** Reading it *)

Section Exact.
Context {N : Type} `{!WorkerNet N}.
Context (replication retry : Z) (show_status : Status -> string).
Context (infos : list FileBlockInfo) (data : bytes) (bs : Z).

(** A range of the [k]-th block, by the request that asks for it. *)
Definition asks_for (req : ReadRequest) (k : nat) : Prop :=
  (infos !! k) ≫= fbi_block_id = Some (rr_block_id req) /\
  0 <= rr_offset req /\ 0 <= rr_length req /\ rr_offset req + rr_length req <= block_bytes data bs (Z.of_nat k).

(** A worker that accepts a read sends a prefix of the range it was asked for. *)
Definition serves_blocks : Prop := forall n c req k n' frames,
  asks_for req k -> wn_read_block n c req = (n', Ok frames) ->
  exists m, 0 <= m <= rr_length req /\
    payload frames = slice (Z.of_nat k * bs + rr_offset req) (Z.of_nat k * bs + rr_offset req + m) data.

(** The router has workers, connections are made, and ranges are sent whole. *)
Record reachable (r : WorkerRouter) : Prop := {
  re_ring : wr_hash_ring r = build_hash_ring (wr_workers r);
  re_nonempty : wr_hash_ring r <> [];
  re_addresses : Forall (fun w => is_Some (wi_address w)) (wr_workers r);
  re_acquire : forall n addr, is_ok (snd (wn_acquire n addr)) = true;
  re_read : forall n c req k, asks_for req k ->
    exists frames, snd (wn_read_block n c req) = Ok frames /\ no_error frames /\
      payload frames = slice (Z.of_nat k * bs + rr_offset req)
                         (Z.of_nat k * bs + rr_offset req + rr_length req) data;
}.

Context (Hserves : serves_blocks) (Hbs : 0 < bs).

Lemma read_over_exact n c k fbi id off len cs ufs :
  infos !! k = Some fbi -> fbi_block_id fbi = Some id -> 0 <= off -> 0 <= len ->
  off + len <= block_bytes data bs (Z.of_nat k) ->
  exists n' out, read_over n c id off len cs ufs = Some (n', out) /\
    (forall d, out = Ok d -> d = slice (Z.of_nat k * bs + off) (Z.of_nat k * bs + off + len) data) /\
    (forall r, reachable r -> is_ok out = true).
Proof.
  intros Hk Hid Ho Hl Hsum. set (req := read_block_positioned_request id off len cs ufs).
  assert (Hask : asks_for req k) by (split; [by rewrite Hk; cbn|done]).
  unfold read_over. fold req. destruct (wn_read_block n c req) as [n1 r] eqn:Hr. destruct r as [frames|e].
  2:{ eexists _, _. split; [done|]. split; [done|]. intros rt Hrt.
      destruct (re_read _ Hrt n c req k Hask) as (fs & Hfs & _). by rewrite Hr in Hfs. }
  destruct (Hserves _ _ _ _ _ _ Hask Hr) as (m & Hm & Hpay). cbn in Hm, Hpay.
  assert (Hend : Z.of_nat k * bs + off + len <= zlen data \/ len = 0) by (unfold block_bytes in Hsum; lia).
  destruct (Z.eq_dec len 0) as [->|Hne].
  - assert (m = 0) as -> by lia. rewrite slice_nil in Hpay by lia.
    destruct (positioned_read_spec id off 0 frames (wn_acks n1) [] 0 0) as (out & -> & Hex & Hok);
      [done|done|done|done|by rewrite slice_nil by lia|].
    eexists _, _. split; [done|]. rewrite slice_nil by lia. split; [by intros d ->%Hex|].
    intros rt Hrt. destruct (re_read _ Hrt n c req k Hask) as (fs & Hfs & Hclean & _).
    rewrite Hr in Hfs. injection Hfs as <-. by apply Hok.
  - destruct (positioned_read_spec id off len frames (wn_acks n1) data (Z.of_nat k * bs + off)
      (Z.of_nat k * bs + off + m)) as (out & -> & Hex & Hok); [lia|done|lia|lia|done|].
    eexists _, _. split; [done|]. split; [done|].
    intros rt Hrt. destruct (re_read _ Hrt n c req k Hask) as (fs & Hfs & Hclean & Hfull).
    rewrite Hr in Hfs. injection Hfs as <-. apply Hok; [done|].
    cbn in Hfull. rewrite Hpay in Hfull. apply (f_equal zlen) in Hfull.
    rewrite !zlen_slice in Hfull by lia. lia.
Qed.

(** Nothing of the SDK's is a [ValueError]. *)
Lemma map_err_no_value_error e : py_class (map_err show_status e) <> PyValueError.
Proof. by destruct e. Qed.

Lemma worker_for_block_ok x id locs :
  exists x' r, worker_for_block replication retry show_status x id locs = (x', r) /\
    (forall e, r = Err e -> py_class e <> PyValueError) /\
    (reachable (pc_router x) -> is_ok r = true).
Proof.
  unfold worker_for_block. destruct (wn_now (pc_net x)) as [n now] eqn:Hn.
  destruct (select_worker_for_read now id locs replication retry (pc_router x)) as [rt sel] eqn:Hs.
  eexists _, _. split; [done|]. split.
  - intros e. destruct sel as [info|e']; [|intros [= <-]; apply map_err_no_value_error].
    destruct (wi_address info); [done|by intros [= <-]].
  - intros [Hring Hne Haddr _ _].
    destruct (select_for_read_ok (wr_workers (pc_router x)) (wr_hash_ring (pc_router x)) None (fun _ => locs)
      (mkAccessConfig replication retry 0 0 true)
      (mkAccess (wr_tracker (pc_router x)) (pc_net x) (mkWorkerClient EmptyString 0)) id Hring Hne Haddr)
      as (x1 & w & addr & Hsel & Ha).
    unfold select_for_read in Hsel. cbn [ax_net ax_client] in Hsel. rewrite Hn in Hsel.
    unfold view_select_worker_for_read, view_select_workers_for_read, view_of, view_snapshot in Hsel.
    unfold select_worker_for_read, select_workers_for_read, lift_tracker, router_snapshot in Hs. cbn in Hsel, Hs.
    destruct (select_several_for_read now _ id locs _ (wr_tracker (pc_router x))) as [t ws]. cbn in Hsel, Hs.
    injection Hs as _ <-. injection Hsel as _ ->. by rewrite Ha.
Qed.

Lemma acquire_retry_ok x addr :
  exists x' r, acquire_with_auth_retry show_status x addr = (x', r) /\
    (forall e, r = Err e -> py_class e <> PyValueError) /\ (forall rt, reachable rt -> is_ok r = true).
Proof.
  unfold acquire_with_auth_retry. destruct (wn_acquire (pc_net x) addr) as [n1 r1] eqn:Hr.
  assert (Hlive : forall rt, reachable rt -> is_ok r1 = true).
  { intros rt Hrt. pose proof (re_acquire _ Hrt (pc_net x) addr) as Ha. by rewrite Hr in Ha. }
  destruct r1 as [c|e]; [eexists _, _; split; [done|]; by split|].
  destruct (is_authentication_failed e).
  - destruct (wn_reconnect n1 addr) as [n2 r2]. eexists _, _. split; [done|].
    split; [|intros rt Hrt; by specialize (Hlive rt Hrt)].
    destruct r2; [done|]. intros e' [= <-]. apply map_err_no_value_error.
  - eexists _, _. split; [done|]. split; [|intros rt Hrt; by specialize (Hlive rt Hrt)].
    intros e' [= <-]. apply map_err_no_value_error.
Qed.

Lemma with_reauth_exact x status k fbi id off len cs :
  infos !! k = Some fbi -> fbi_block_id fbi = Some id -> 0 <= off -> 0 <= len ->
  off + len <= block_bytes data bs (Z.of_nat k) ->
  exists x' out,
    positioned_read_with_reauth replication retry show_status x status id (Z.of_nat k) off len cs
      = Some (x', out) /\
    (forall d, out = Ok d -> d = slice (Z.of_nat k * bs + off) (Z.of_nat k * bs + off + len) data) /\
    (forall e, out = Err e -> py_class e <> PyValueError) /\
    (reachable (pc_router x) -> is_ok out = true).
Proof.
  intros Hk Hid Ho Hl Hsum. unfold positioned_read_with_reauth.
  pose proof (fun n c ufs => read_over_exact n c k fbi id off len cs ufs Hk Hid Ho Hl Hsum) as Hread.
  destruct (worker_for_block_ok x id (block_locations_from_status status id)) as (x1 & r1 & -> & He1 & Hok1).
  destruct r1 as [addr|e]; [|eexists _, _; split; [done|]; split; [done|]; split; [intros ? [= <-]; by apply He1|exact Hok1]].
  destruct (acquire_retry_ok x1 addr) as (x2 & r2 & -> & He2 & Hok2).
  destruct r2 as [c|e]; [|eexists _, _; split; [done|]; split; [done|]; split; [intros ? [= <-]; by apply He2|apply Hok2]].
  destruct (Hread (pc_net x2) c (open_ufs_block_options status (Z.of_nat k))) as (n3 & r3 & -> & Hex3 & Hok3).
  cbn [mbind option_bind]. destruct r3 as [d|e].
  { eexists _, _. split; [done|]. split; [by intros d' [= <-]; apply Hex3|done]. }
  assert (Hdead : reachable (pc_router x) -> False) by (intros Hrt; by specialize (Hok3 _ Hrt)).
  destruct (is_authentication_failed e).
  - destruct (wn_reconnect_if_stale n3 addr (cl_generation c)) as [n4 [fresh|e4]].
    + destruct (Hread n4 fresh (open_ufs_block_options status (Z.of_nat k))) as (n5 & r5 & -> & Hex5 & _). cbn.
      eexists _, _. split; [done|]. destruct r5 as [d5|e5]; cbn.
      * split; [by intros d' [= <-]; apply Hex5|]. split; [done|done].
      * split; [done|]. split; [intros e' [= <-]; apply map_err_no_value_error|by intros ?%Hdead].
    + eexists _, _. split; [done|]. split; [done|].
      split; [intros e' [= <-]; apply map_err_no_value_error|by intros ?%Hdead].
  - eexists _, _. split; [done|]. split; [done|].
    split; [intros e' [= <-]; apply map_err_no_value_error|by intros ?%Hdead].
Qed.
End Exact.

(** C3. A positioned read from Python returns exactly its part of the block.  For a file the master
    describes by its block infos, listed in any order and with block lengths that may be too
    large, over workers that send no wrong bytes: the call returns; the bytes are those of the
    file at [block_index * block_size + offset], up to [length] of them, to the end of the block
    for [-1]; a [ValueError] is raised for exactly the arguments that name no such bytes; and if
    the workers can be reached and deliver, valid arguments never raise. *)
Theorem python_positioned_read_exact {N : Type} `{!WorkerNet N}
    (replication retry : Z) (show_status : Status -> string)
    (values : gmap Z FileBlockInfo -> list FileBlockInfo) (debug : string -> string)
    (fi : FileInfo) (infos : list FileBlockInfo) (data : bytes) (bs : Z)
    (x : PyContext N) (path : string) (k : nat) (offset length chunk_size : Z)
    (Hvalues : forall m, values m ≡ₚ map snd (map_to_list m))
    (Hd : described fi infos data bs) (Hserves : serves_blocks infos data bs) :
  let block := block_bytes data bs (Z.of_nat k) in
  let valid := 0 <= offset /\ -1 <= length /\ 0 < chunk_size /\ is_Some (infos !! k) /\ offset < block in
  let want := if length <? 0 then block - offset else Z.min length (block - offset) in
  exists x' out,
    py_positioned_read replication retry show_status values debug x (Ok (from_proto fi)) path
      (Z.of_nat k) offset length chunk_size = Some (x', out) /\
    (forall d, out = Ok d ->
       valid /\ d = slice (Z.of_nat k * bs + offset) (Z.of_nat k * bs + offset + want) data) /\
    (forall e, out = Err e -> (py_class e = PyValueError <-> ~ valid)) /\
    (reachable infos data bs (pc_router x) -> valid -> is_ok out = true).
Proof.
  intros block valid want. unfold py_positioned_read, check_read_arguments.
  assert (Hbad : forall e, py_class e = PyValueError -> ~ valid ->
    exists x' out, Some (x, Err e) = Some (x', out) /\
      (forall d, out = Ok d ->
         valid /\ d = slice (Z.of_nat k * bs + offset) (Z.of_nat k * bs + offset + want) data) /\
      (forall e, out = Err e -> (py_class e = PyValueError <-> ~ valid)) /\
      (reachable infos data bs (pc_router x) -> valid -> is_ok out = true)).
  { intros e He Hv. eexists _, _. split; [done|]. split; [done|]. split; [by intros e' [= <-]|done]. }
  destruct (Z.ltb_spec offset 0); [apply Hbad; [done|unfold valid; lia]|].
  destruct (Z.ltb_spec length (-1)); [apply Hbad; [done|unfold valid; lia]|].
  destruct (Z.leb_spec chunk_size 0); [apply Hbad; [done|unfold valid; lia]|].
  pose proof (resolve_exact values debug Hvalues fi infos data bs Hd k path) as Hres.
  destruct (infos !! k) as [fbi|] eqn:Hk.
  2:{ destruct Hres as (e & He & ->). apply Hbad; [done|]. unfold valid. intros (_ & _ & _ & [? ?] & _). congruence. }
  destruct Hres as (id & Hid & ->). fold block.
  destruct (Z.leb_spec block offset); [apply Hbad; [done|unfold valid; lia]|].
  assert (Hv : valid) by (unfold valid; split_and!; [lia|lia|lia|by eexists|lia]).
  pose proof (de_positive _ _ _ _ Hd) as Hbs. fold want.
  destruct (Z.eqb_spec want 0) as [Hz|Hnz].
  { eexists _, _. split; [done|]. split; [|by split]. intros d [= <-]. split; [done|].
    by rewrite slice_nil by lia. }
  destruct (with_reauth_exact replication retry show_status infos data bs Hserves Hbs x (from_proto fi) k fbi id
    offset want chunk_size Hk Hid) as (x' & out & -> & Hex & Herr & Hlive);
    [lia|unfold want; destruct (length <? 0) eqn:?; lia|unfold want; fold block; destruct (length <? 0) eqn:?; lia|].
  eexists _, _. split; [done|]. split; [by intros d Hd'; split; [|apply Hex]|].
  split; [|by intros Hr _; apply Hlive]. intros e He. split; [|done]. intros Hc. by apply Herr in He.
Qed.

(** ** The file in memory, its infos listed last block first *)

Module PositionedDemo.
Definition block_info (id len off : Z) : FileBlockInfo :=
  mkFileBlockInfo (Some (mkBlockInfo (Some id) (Some len) None [])) (Some off) [] [].

(** The master gives the block size for the length of the last block. *)
Definition infos : list FileBlockInfo := [block_info 11 3 0; block_info 12 3 3; block_info 13 3 6].

Definition file (listed : list FileBlockInfo) : FileInfo :=
  set_file_block_infos (file_info_of (Some 7) (Some 3) [11; 12; 13]) listed.

Lemma file_described : described (file (rev infos)) infos Demo.file 3.
Proof.
  split; try reflexivity; try (vm_compute; congruence); try lia.
  - symmetry. apply Permutation_rev.
  - intros [|[|[|k]]] fbi [= <-]; (split; [reflexivity|]); eexists; (split; [reflexivity|lia]).
  - apply (bool_decide_unpack _). vm_compute. exact I.
  - intros k fbi bi len Hk. destruct k as [|[|[|k]]]; try done; injection Hk as <-; intros [= <-] [= <-] _;
      change (zlen Demo.file) with 7; lia.
Qed.

Lemma net_serves : serves_blocks (N := ReaderDemo.Net) infos Demo.file 3.
Proof.
  intros n c req k n' frames (Hid & Ho & Hl & Hsum). cbn. unfold ReaderDemo.read_block.
  destruct (ReaderDemo.dn_expired n); [|done]. intros [= _ <-]. exists (rr_length req). split; [lia|].
  unfold block_bytes in Hsum. change (zlen Demo.file) with 7 in Hsum.
  assert (Hk : (k < 3)%nat) by (apply (lookup_lt_is_Some infos); by destruct (infos !! k)).
  assert (Heq : rr_block_id req = 11 + Z.of_nat k)
    by (destruct k as [|[|[|k]]]; [cbn in Hid; injection Hid as <-; reflexivity..|lia]).
  destruct (Z.eq_dec (rr_length req) 0) as [Hz|Hnz].
  - rewrite Hz. unfold Demo.serve. cbn. by rewrite !slice_nil by lia.
  - apply ReaderDemo.served; [done|]. split; lia.
Qed.

Definition values (m : gmap Z FileBlockInfo) : list FileBlockInfo := map snd (map_to_list m).

Definition run (listed : list FileBlockInfo) (n : ReaderDemo.Net) (k offset length : Z)
  : option (PyResult bytes) :=
  option_map snd (py_positioned_read 1 3 (fun _ => EmptyString) values (fun s => s)
    (mkPyContext ReaderDemo.shared n) (Ok (from_proto (file listed))) "/f" k offset length DEFAULT_CHUNK_SIZE).
End PositionedDemo.

Lemma python_positioned_read_exact_witness :
  exists x' out,
    py_positioned_read 1 3 (fun _ => EmptyString) PositionedDemo.values (fun s => s)
      (mkPyContext ReaderDemo.shared (ReaderDemo.mkNet [] 1 [])) (Ok (from_proto (PositionedDemo.file (rev PositionedDemo.infos))))
      "/f" 1 1 (-1) 1024 = Some (x', out) /\
    (forall d, out = Ok d -> d = slice 4 6 Demo.file) /\
    (forall e, out = Err e -> py_class e <> PyValueError).
Proof.
  destruct (python_positioned_read_exact 1 3 (fun _ => EmptyString) PositionedDemo.values (fun s => s)
    (PositionedDemo.file (rev PositionedDemo.infos)) PositionedDemo.infos Demo.file 3
    (mkPyContext ReaderDemo.shared (ReaderDemo.mkNet [] 1 [])) "/f" 1 1 (-1) 1024
    (fun m => Permutation_refl _) PositionedDemo.file_described PositionedDemo.net_serves)
    as (x' & out & Hrun & Hok & Herr & _).
  exists x', out. split; [exact Hrun|]. split.
  - intros d Hd. exact (proj2 (Hok d Hd)).
  - intros e He. rewrite (Herr e He). intros Hn. apply Hn.
    split; [lia|]. split; [lia|]. split; [lia|]. split; [eexists; reflexivity|reflexivity].
Defined.

(** An expired session is repaired on the way. *)
Example expired_session_is_repaired :
  PositionedDemo.run (rev PositionedDemo.infos) (ReaderDemo.mkNet [] 1 []) 2 0 (-1) = Some (Ok [70]).
Proof. vm_compute. reflexivity. Qed.

(** The index counts the blocks that have an info, not the blocks of the file: when the master
    reports only the last one, block 0 is that one, although [block_ids] names all three. *)
Example index_counts_reported_blocks :
  PositionedDemo.run [PositionedDemo.block_info 13 3 6] (ReaderDemo.mkNet [] 0 []) 0 0 (-1) = Some (Ok [70]) /\
  us_block_ids (from_proto (PositionedDemo.file [PositionedDemo.block_info 13 3 6])) = [11; 12; 13] /\
  slice 0 3 Demo.file = [10; 20; 30].
Proof. vm_compute. auto. Qed.
