(* ===== verification/Auth.v ===== *)
(** * Authentication (src/src/auth)

    The authentication types, the PLAIN message, and the handshake of
    [ChannelAuthenticator::authenticate] with the channel it hands out; and the two
    connections that use it ([WorkerClient::connect] of src/src/client/worker.rs,
    [WorkerManagerClient::connect_with_inquire] of src/src/client/worker_manager.rs, with the
    raw and authenticated channel of src/src/client/master.rs).  The server's side of the
    handshake, the timeouts and the channel ids are inputs. *)

From Stdlib Require Import Ascii.
From S2P Require Import Prelude Text Proto Errors HashRing Router BlockLocations WorkerPool.
From S2P Require Import BlockReader BlockAccess.

(** ** Types *)

Inductive AuthType : Type := NoSasl | Simple.

Definition auth_as_str (t : AuthType) : string :=
  match t with NoSasl => "nosasl" | Simple => "simple" end.

Definition auth_from_str (s : string) : result string AuthType :=
  let l := str_map to_ascii_lowercase s in
  if String.eqb l "nosasl" || String.eqb l "no_sasl" then Ok NoSasl
  else if String.eqb l "simple" then Ok Simple
  else if String.eqb l "custom" then
    Err "CUSTOM authentication is not yet implemented; use NOSASL or SIMPLE"
  else if String.eqb l "kerberos" then
    Err "KERBEROS authentication is not yet implemented; use NOSASL or SIMPLE"
  else Err ("unknown authentication type '" +:+ s +:+ "'. Currently supported: nosasl, simple").

(** ** PLAIN messages *)

(** Numbers of the generated enumerations. *)
Definition SASL_CHALLENGE : Z := 0.
Definition SASL_SUCCESS : Z := 1.
Definition SCHEME_SIMPLE : Z := 1.

Record SaslMessage : Type := mkSaslMessage {
  sm_message_type : option Z;
  sm_message : option string;
  sm_client_id : option string;
  sm_authentication_scheme : option Z;
  sm_channel_ref : option string;
}.

Definition NUL : ascii := Ascii.zero.

Record PlainSaslClientHandler : Type := mkPlainHandler {
  ph_auth_scheme : Z;
  ph_initial_response : string;
}.

(** [authzid NUL authcid NUL passwd] *)
Definition plain_response (username password : string) (impersonation_user : option string) : string :=
  default EmptyString impersonation_user +:+ String NUL (username +:+ String NUL password).

Definition new_simple (username password : string) (impersonation_user : option string)
  : PlainSaslClientHandler :=
  mkPlainHandler SCHEME_SIMPLE (plain_response username password impersonation_user).

Definition initial_message (h : PlainSaslClientHandler) (client_id channel_ref : string) : SaslMessage :=
  mkSaslMessage (Some SASL_CHALLENGE) (Some (ph_initial_response h)) (Some client_id)
    (Some (ph_auth_scheme h)) (Some channel_ref).

(** [SaslMessageType::try_from] fails for other numbers; those and a missing type count as
    challenges.  [None]: the handshake is over. *)
Definition handle_message (h : PlainSaslClientHandler) (m : SaslMessage) : option SaslMessage :=
  if bool_decide (sm_message_type m = Some SASL_SUCCESS) then None
  else Some (mkSaslMessage (Some SASL_CHALLENGE) (Some (ph_initial_response h)) None None None).

(** ** The handshake *)

Record ChannelAuthenticator : Type := mkAuthenticator {
  ca_auth_type : AuthType;
  ca_username : string;
  ca_password : string;
  ca_impersonation_user : option string;
  ca_auth_timeout_ms : Z;
}.

Definition authenticator_new (t : AuthType) (username : string) (impersonation_user : option string)
  : ChannelAuthenticator :=
  mkAuthenticator t username "noPassword" impersonation_user 30000.

Definition with_auth_timeout (a : ChannelAuthenticator) (ms : Z) : ChannelAuthenticator :=
  mkAuthenticator (ca_auth_type a) (ca_username a) (ca_password a) (ca_impersonation_user a) ms.

(** What the server's half of the stream brings next. *)
Inductive ServerItem : Type :=
| ServerMessage (m : SaslMessage)
| ServerError (s : Status)
| ServerSilent.

(** How the authentication call itself comes back. *)
Inductive AuthRpc : Type :=
| RpcTimedOut
| RpcRefused (s : Status)
| RpcStream (items : list ServerItem).

(** The guard holds both halves of the stream: [sg_sent] is what the client sent over it. *)
Record SaslStreamGuard : Type := mkGuard {
  sg_sent : list SaslMessage;
  sg_unread : list ServerItem;
}.

Record AuthenticatedChannel : Type := mkAuthChannel {
  ac_channel_id : string;
  ac_sasl_guard : option SaslStreamGuard;
}.

(** [ChannelIdInterceptor::call]: the metadata of every later request.  [valid] is tonic's parser
    of metadata values. *)
Definition CHANNEL_ID_METADATA_KEY : string := "channel-id".

Definition interceptor_call (valid : string -> bool) (channel_id : string) (metadata : gmap string string)
  : result Status (gmap string string) :=
  if valid channel_id then Ok (<[CHANNEL_ID_METADATA_KEY := channel_id]> metadata)
  else Err (mkStatus (OtherCode 13) "invalid channel-id").

Section Handshake.
(** Display of a status; whether the [i]-th message finds the request stream open. *)
Context (show_status : Status -> string) (send_ok : nat -> bool).

(** The response loop; [sent] counts what was sent before. *)
Fixpoint handshake (h : PlainSaslClientHandler) (timeout_ms : Z) (sent : list SaslMessage)
    (items : list ServerItem) : result Error SaslStreamGuard :=
  match items with
  | [] => Err (Internal "SASL authentication stream closed unexpectedly without receiving SUCCESS" None)
  | ServerSilent :: _ =>
      Err (Internal ("timed out waiting for SASL authentication response (" +:+ show_Z timeout_ms +:+ "ms)") None)
  | ServerError s :: _ =>
      Err (GrpcError ("SASL authentication response error: " +:+ show_status s) s)
  | ServerMessage m :: items =>
      match handle_message h m with
      | None => Ok (mkGuard sent items)
      | Some reply =>
          if send_ok (length sent) then handshake h timeout_ms (sent ++ [reply]) items
          else Err (Internal "failed to send SASL response message" None)
      end
  end.

Definition authenticate_simple (a : ChannelAuthenticator) (channel_id : string) (rpc : AuthRpc)
  : result Error AuthenticatedChannel :=
  let channel_ref := "rust-client-" +:+ String.substring 0 8 channel_id in
  let h := new_simple (ca_username a) (ca_password a) (ca_impersonation_user a) in
  let first := initial_message h channel_id channel_ref in
  match rpc with
  | RpcTimedOut =>
      Err (Internal ("SASL authentication timed out (" +:+ show_Z (ca_auth_timeout_ms a) +:+ "ms)") None)
  | RpcRefused s => Err (GrpcError ("SASL authentication RPC failed: " +:+ show_status s) s)
  | RpcStream items =>
      let? guard := handshake h (ca_auth_timeout_ms a) [first] items in
      Ok (mkAuthChannel channel_id (Some guard))
  end.

Definition authenticate_nosasl (channel_id : string) : result Error AuthenticatedChannel :=
  Ok (mkAuthChannel channel_id None).

Definition authenticate (a : ChannelAuthenticator) (channel_id : string) (rpc : AuthRpc)
  : result Error AuthenticatedChannel :=
  match ca_auth_type a with
  | NoSasl => authenticate_nosasl channel_id
  | Simple => authenticate_simple a channel_id rpc
  end.

(** ** Connections *)

(** The endpoint: an invalid address, a transport error, or a channel. *)
Inductive Dial : Type :=
| DialInvalid (e : string)
| DialFailed (e : string)
| DialConnected.

(** [impl From<tonic::transport::Error> for Error]: the message is the error's text. *)
Definition dial (role : string) (d : Dial) : result Error unit :=
  match d with
  | DialInvalid e => Err (ConfigError ("invalid " +:+ role +:+ " endpoint: " +:+ e))
  | DialFailed e => Err (TransportError e e)
  | DialConnected => Ok tt
  end.

Definition authenticated_dial (role : string) (t : AuthType) (username : string) (timeout_ms : Z)
    (d : Dial) (channel_id : string) (rpc : AuthRpc) : result Error AuthenticatedChannel :=
  let? _ := dial role d in
  authenticate (with_auth_timeout (authenticator_new t username None) timeout_ms) channel_id rpc.

(** [WorkerClient::connect]; the guard moves into the client, so it lives as long. *)
Definition worker_connect (addr : string) (t : AuthType) (username : string) (timeout_ms : Z)
    (d : Dial) (channel_id : string) (rpc : AuthRpc)
  : result Error (WorkerClient * option SaslStreamGuard) :=
  let? ch := authenticated_dial "worker" t username timeout_ms d channel_id rpc in
  Ok (mkWorkerClient addr 0, ac_sasl_guard ch).

(** [WorkerManagerClient::connect_with_inquire]: the primary is asked for first. *)
Definition worker_manager_connect (primary : result Error string) (t : AuthType) (username : string)
    (timeout_ms : Z) (d : Dial) (channel_id : string) (rpc : AuthRpc)
  : result Error (string * option SaslStreamGuard) :=
  let? addr := primary in
  let? ch := authenticated_dial "master" t username timeout_ms d channel_id rpc in
  Ok (addr, ac_sasl_guard ch).

(** [MasterClient::build_authenticated_client]. *)
Definition build_authenticated_client (t : AuthType) (username : string) (timeout_ms : Z)
    (d : Dial) (channel_id : string) (rpc : AuthRpc) : result Error (option SaslStreamGuard) :=
  let? ch := authenticated_dial "master" t username timeout_ms d channel_id rpc in
  Ok (ac_sasl_guard ch).
End Handshake.

(** ** Properties of the handshake *)

Definition no_nul (s : string) : Prop := str_forall (fun c => negb (Ascii.eqb NUL c)) s.

(** The server's reading of a PLAIN message (RFC 4616). *)
Definition decode_plain (s : string) : option (string * string * string) :=
  '(authzid, rest) ← split_once NUL s;
  '(authcid, passwd) ← split_once NUL rest;
  Some (authzid, authcid, passwd).

Lemma plain_decodes username password impersonation :
  no_nul username -> no_nul (default EmptyString impersonation) ->
  decode_plain (plain_response username password impersonation)
  = Some (default EmptyString impersonation, username, password).
Proof.
  intros Hu Hi. unfold decode_plain, plain_response. rewrite split_once_app by done. cbn.
  by rewrite split_once_app.
Qed.

Definition is_success (m : SaslMessage) : Prop := sm_message_type m = Some SASL_SUCCESS.

Section HandshakeFacts.
Context (show_status : Status -> string) (send_ok : nat -> bool).

Definition reply (h : PlainSaslClientHandler) : SaslMessage :=
  mkSaslMessage (Some SASL_CHALLENGE) (Some (ph_initial_response h)) None None None.

(** The server asks [challenges] times, the client answers each, then the server agrees. *)
Record agreed (h : PlainSaslClientHandler) (sent : list SaslMessage) (items : list ServerItem)
    (g : SaslStreamGuard) : Prop := {
  ag_trace : exists challenges m, items = map ServerMessage challenges ++ ServerMessage m :: sg_unread g /\
    Forall (fun c => ~ is_success c) challenges /\ is_success m /\
    sg_sent g = sent ++ replicate (length challenges) (reply h) /\
    (forall i, (length sent <= i < length sent + length challenges)%nat -> send_ok i = true);
}.

Lemma handshake_agreed h t items : forall sent g,
  handshake show_status send_ok h t sent items = Ok g <-> agreed h sent items g.
Proof.
  induction items as [|it items IH]; intros sent g; cbn [handshake].
  { split; [done|]. intros [(ch & m & H & _)]. by destruct ch. }
  destruct it as [m|st|]; cycle 1.
  { split; [done|]. intros [(ch & m & H & _)]. by destruct ch. }
  { split; [done|]. intros [(ch & m & H & _)]. by destruct ch. }
  unfold handle_message. case_bool_decide as Hm.
  - split.
    + intros [= <-]. split. exists [], m. cbn. rewrite app_nil_r. split_and!; try done. lia.
    + intros [(ch & m' & H & Hch & _ & Hs & _)]. destruct ch as [|c ch].
      * cbn in *. rewrite app_nil_r in Hs. destruct g as [gs gu]. cbn in *. congruence.
      * apply Forall_inv in Hch. cbn in H. congruence.
  - destruct (send_ok (length sent)) eqn:Hok.
    + rewrite IH. split; intros [(ch & m' & H & Hch & Hm' & Hs & Hsend)].
      * split. exists (m :: ch), m'. subst items. split; [done|]. split; [by constructor|]. split; [done|].
        split; [by rewrite Hs, <- app_assoc|]. intros i Hi. cbn in Hi. rewrite length_app in Hsend. cbn in Hsend.
        destruct (decide (i = length sent)) as [->|]; [done|]. apply Hsend. lia.
      * destruct ch as [|c ch]; [cbn in H; injection H as <- _; done|]. cbn in H. injection H as <- ->.
        apply Forall_cons in Hch as [_ Hch]. split. exists ch, m'. split; [done|]. split; [done|]. split; [done|].
        split; [by rewrite Hs, <- app_assoc|]. intros i Hi. rewrite length_app in Hi. cbn in Hi, Hsend.
        apply Hsend. lia.
    + split; [done|]. intros [(ch & m' & H & Hch & Hm' & _ & Hsend)].
      destruct ch as [|c ch]; [cbn in H; congruence|]. rewrite Hsend in Hok; [done|]. cbn. lia.
Qed.

Lemma handshake_error h t items : forall sent e,
  handshake show_status send_ok h t sent items = Err e -> is_authentication_failed e = false.
Proof.
  induction items as [|it items IH]; intros sent e; cbn [handshake]; [by intros [= <-]|].
  destruct it as [m|st|]; [|by intros [= <-]..]. destruct (handle_message h m); [|done].
  destruct (send_ok (length sent)); [apply IH|by intros [= <-]].
Qed.

Lemma authenticated_dial_error role t username ms d channel_id rpc e :
  authenticated_dial show_status send_ok role t username ms d channel_id rpc = Err e ->
  is_authentication_failed e = false.
Proof.
  unfold authenticated_dial, authenticate. destruct d; cbn; [by intros [= <-]..|].
  destruct t; cbn; [done|]. unfold authenticate_simple. destruct rpc as [|s|items]; [by intros [= <-]..|].
  destruct (handshake _ _ _ _ _ items) eqn:Hh; [done|]. intros [= <-]. by eapply handshake_error.
Qed.
End HandshakeFacts.

(** C25. The SASL handshake succeeds exactly when the server agrees: the authentication call
    opened a stream on which the server sent some challenges, each answered by the client with
    its PLAIN response, and then SUCCESS, before any error, end or timeout.  The channel then
    carries the id announced in the first message and keeps the stream open, and the first
    message tells the server the configured user, password and impersonated user. *)
Theorem authenticate_simple_exact (show_status : Status -> string) (send_ok : nat -> bool)
    (a : ChannelAuthenticator) (channel_id : string) (rpc : AuthRpc) (ch : AuthenticatedChannel)
    (h := new_simple (ca_username a) (ca_password a) (ca_impersonation_user a))
    (first := initial_message h channel_id ("rust-client-" +:+ String.substring 0 8 channel_id))
    (Huser : no_nul (ca_username a)) (Himp : no_nul (default EmptyString (ca_impersonation_user a))) :
  (authenticate_simple show_status send_ok a channel_id rpc = Ok ch <->
   exists items g, rpc = RpcStream items /\ ch = mkAuthChannel channel_id (Some g) /\
     agreed send_ok h [first] items g) /\
  sm_client_id first = Some channel_id /\
  sm_message first ≫= decode_plain
    = Some (default EmptyString (ca_impersonation_user a), ca_username a, ca_password a).
Proof.
  split; [|split; [done|by apply plain_decodes]].
  unfold authenticate_simple. fold h. fold first. destruct rpc as [|s|items].
  1,2: split; [done|by intros (items & g & ? & _)].
  destruct (handshake _ _ h _ [first] items) as [g|e] eqn:Hh; cbn.
  - split.
    + intros [= <-]. exists items, g. split; [done|]. split; [done|].
      by apply (handshake_agreed show_status send_ok h (ca_auth_timeout_ms a)).
    + intros (items' & g' & [= <-] & -> & Ha).
      apply (handshake_agreed show_status send_ok h (ca_auth_timeout_ms a)) in Ha. congruence.
  - split; [done|]. intros (items' & g' & [= <-] & -> & Ha).
    apply (handshake_agreed show_status send_ok h (ca_auth_timeout_ms a)) in Ha. congruence.
Qed.

Definition example_authenticator : ChannelAuthenticator := authenticator_new Simple "alice" None.

Definition server_message (t : Z) : ServerItem := ServerMessage (mkSaslMessage (Some t) None None None None).

(** A server that asks once before it agrees. *)
Lemma authenticate_simple_exact_witness :
  exists items g, RpcStream [server_message 0; server_message 1] = RpcStream items /\
    mkAuthChannel "0123456789" (Some g) = mkAuthChannel "0123456789" (Some g) /\
    agreed (fun _ => true) (new_simple "alice" "noPassword" None)
      [initial_message (new_simple "alice" "noPassword" None) "0123456789" "rust-client-01234567"] items g.
Proof.
  destruct (authenticate_simple_exact (fun _ => EmptyString) (fun _ => true) example_authenticator
    "0123456789" (RpcStream [server_message 0; server_message 1])
    (mkAuthChannel "0123456789" (Some (mkGuard
       [initial_message (new_simple "alice" "noPassword" None) "0123456789" "rust-client-01234567";
        reply (new_simple "alice" "noPassword" None)] [])))
    ltac:(repeat constructor) ltac:(constructor)) as ([H _] & _ & _).
  destruct (H eq_refl) as (items & g & H1 & _ & H3). by exists items, g.
Defined.

(** The names of the authentication types round-trip. *)
Lemma auth_type_roundtrip t : auth_from_str (auth_as_str t) = Ok t.
Proof. by destruct t. Qed.


(** ** Rejected credentials and the router *)

(** A pool in front of two workers that reject every handshake. *)
Module RejectDemo.
Definition rejected (addr : string) : result Error WorkerClient :=
  let? r := worker_connect status_message (fun _ => true) addr Simple "alice" 30000 DialConnected
              "0123456789" (RpcRefused (mkStatus CodeUnauthenticated "no such user")) in
  Ok (fst r).

(** The state is the list of addresses connected to, latest first. *)
#[global] Instance net : WorkerNet (list string) := {
  wn_now := fun n => (n, 0);
  wn_acquire := fun n addr => (addr :: n, rejected addr);
  wn_reconnect := fun n addr => (addr :: n, rejected addr);
  wn_reconnect_if_stale := fun n addr _ => (addr :: n, rejected addr);
  wn_invalidate := fun n _ => n;
  wn_connect := fun n addr => (addr :: n, rejected addr);
  wn_read_block := fun n _ _ => (n, Ok []);
  wn_aborted := fun _ => None;
  wn_acks := fun _ _ => SendOk;
}.

Definition after : Access (list string) * result Error WorkerClient :=
  connect_worker two_workers (build_hash_ring two_workers) None (fun _ => [])
    (mkAccessConfig 1 3 1024 1024 true)
    (mkAccess (tracker_new DEFAULT_FAILURE_TTL) [] (mkWorkerClient EmptyString 0)) 11.
End RejectDemo.

(** A worker that rejects the client's credentials is taken for a failed one: the next worker is
    tried with the same credentials and the first is marked as failed, which the comments on
    [AuthenticationFailed] rule out. *)
Theorem rejected_credentials_blacklist_worker :
  rev (ax_net (fst RejectDemo.after)) = ["b:9203"; "a:9203"]%string /\
  is_failed 0 (ax_tracker (fst RejectDemo.after)) (worker_addr_key (example_addr "b")) = true /\
  snd RejectDemo.after
  = Err (GrpcError "SASL authentication RPC failed: no such user" (mkStatus CodeUnauthenticated "no such user")).
Proof. split; [|split]; vm_compute; reflexivity. Qed.
