(* ===== verification/Metrics.v ===== *)
(** * Metrics (src/src/metrics, src/src/client/metrics_master.rs)

    The registry of counters and gauges, the reporter that turns counters into deltas, the
    heartbeat's payload, the background loop shared by the heartbeat and the Pushgateway
    tasks, the sampler of repeated warnings, and the retries of the metrics client.  A counter
    handle is its name: the registry's entries are what the handles share. *)

From Stdlib Require Import Ascii.
From S2P Require Import Prelude Text Errors.

(** ** Registry *)

Record Registry : Type := mkRegistry {
  reg_counters : gmap string Z;
  reg_gauges : gmap string Z;
}.

Definition empty_registry : Registry := mkRegistry ∅ ∅.

(** [counter]: gets or creates; [inc] is the atomic [fetch_add], which wraps. *)
Definition counter (r : Registry) (name : string) : Registry * Z :=
  match reg_counters r !! name with
  | Some v => (r, v)
  | None => (mkRegistry (<[name := 0]> (reg_counters r)) (reg_gauges r), 0)
  end.

Definition counter_inc (r : Registry) (name : string) (n : Z) : Registry :=
  let '(r, v) := counter r name in
  mkRegistry (<[name := i64_add v n]> (reg_counters r)) (reg_gauges r).

Definition gauge (r : Registry) (name : string) : Registry * Z :=
  match reg_gauges r !! name with
  | Some v => (r, v)
  | None => (mkRegistry (reg_counters r) (<[name := 0]> (reg_gauges r)), 0)
  end.

Definition gauge_set (r : Registry) (name : string) (v : Z) : Registry :=
  let '(r, _) := gauge r name in
  mkRegistry (reg_counters r) (<[name := v]> (reg_gauges r)).

(** ** Reporter *)

Inductive MetricType : Type := MetricGauge | MetricCounter.

#[global] Instance MetricType_eq_dec : EqDecision MetricType.
Proof. solve_decision. Defined.

Record Metric : Type := mkMetric {
  mt_instance : option string;
  mt_source : option string;
  mt_name : option string;
  mt_value : option Z;
  mt_type : MetricType;
}.

(** [n as f64] for an [i64]: an integer, rounded to 53 significant bits, ties to even. *)
Definition as_f64 (n : Z) : Z :=
  let a := Z.abs n in
  let e := Z.max 0 (Z.log2 a - 52) in
  let q := Z.shiftr a e in
  let r := a - Z.shiftl q e in
  let half := Z.shiftl 1 (e - 1) in
  let up := (half <? r) || ((r =? half) && Z.odd q && (0 <? e)) in
  Z.sgn n * Z.shiftl (if up then q + 1 else q) e.

Definition INSTANCE_CLIENT : string := "Client".

Definition strip_instance_prefix (full : string) : string :=
  match split_once "."%char full with
  | Some (_, rest) => rest
  | None => full
  end.

Definition client_metric (name : string) (value : Z) (t : MetricType) : Metric :=
  mkMetric (Some INSTANCE_CLIENT) None (Some (strip_instance_prefix name)) (Some (as_f64 value)) t.

(** One turn of the counter sweep: the baseline is always written. *)
Definition report_counter (last : gmap string Z) (name : string) (cur : Z) : gmap string Z * list Metric :=
  let diff := match last !! name with Some prev => i64_sub cur prev | None => cur end in
  (<[name := cur]> last, if diff =? 0 then [] else [client_metric name diff MetricCounter]).

(** The sweep over the counters, each with the value it has when it is visited. *)
Fixpoint sweep (last : gmap string Z) (visited : list (string * Z)) : gmap string Z * list Metric :=
  match visited with
  | [] => (last, [])
  | (name, cur) :: visited =>
      let '(last, m) := report_counter last name cur in
      let '(last, ms) := sweep last visited in
      (last, m ++ ms)
  end.

Definition snapshot (last : gmap string Z) (counters gauges : list (string * Z))
  : gmap string Z * list Metric :=
  let '(last, ms) := sweep last counters in
  (last, ms ++ map (fun '(name, v) => client_metric name v MetricGauge) gauges).

(** ** Heartbeat payload *)

Record ClientMetrics : Type := mkClientMetrics {
  cm_source : option string;
  cm_metrics : list Metric;
}.

(** [resolve_app_id]: the configured id, the host's name, or a made-up one. *)
Definition nonempty (s : option string) : option string :=
  match s with Some EmptyString => None | _ => s end.

Definition resolve_app_id (app_id : option string) (hostname : option string) (uuid : string) : string :=
  match nonempty app_id, nonempty hostname with
  | Some id, _ => id
  | None, Some h => h
  | None, None => "goosefs-rust-" +:+ String.substring 0 8 uuid
  end.

Definition stamp_source (app_id : string) (m : Metric) : Metric :=
  mkMetric (mt_instance m) (Some (default app_id (mt_source m))) (mt_name m) (mt_value m) (mt_type m).

(** The first half of [do_heartbeat]: nothing is sent when there is nothing to report. *)
Definition heartbeat_beat (app_id : string) (r : Registry) (last : gmap string Z)
  : gmap string Z * option ClientMetrics :=
  let '(last, ms) := snapshot last (map_to_list (reg_counters r)) (map_to_list (reg_gauges r)) in
  (last, match ms with
         | [] => None
         | _ => Some (mkClientMetrics (Some app_id) (map (stamp_source app_id) ms))
         end).

(** ** The background loop *)

(** The outcome of a beat's RPC; the loop goes on after each of them. *)
Inductive BeatOutcome : Type := BeatOk | BeatFailed (e : Error) | BeatTimedOut.

Inductive Phase (P : Type) : Type :=
| Waiting
| InFlight (payload : P)
| Exited.
Arguments Waiting {P}.
Arguments InFlight {P} payload.
Arguments Exited {P}.

(** The task and what it shares with its owner: [ts_flush] is the one-slot channel, [ts_sent] the
    beats sent so far, latest first. *)
Record TaskState (L P : Type) : Type := mkTask {
  ts_registry : Registry;
  ts_local : L;
  ts_closed : bool;
  ts_flush : bool;
  ts_phase : Phase P;
  ts_sent : list (P * BeatOutcome);
}.
Arguments mkTask {L P}.
Arguments ts_registry {L P}.
Arguments ts_local {L P}.
Arguments ts_closed {L P}.
Arguments ts_flush {L P}.
Arguments ts_phase {L P}.
Arguments ts_sent {L P}.

Inductive TaskEvent : Type :=
| EvInc (name : string) (n : Z)
| EvGaugeSet (name : string) (v : Z)
| EvWake
| EvAnswer (o : BeatOutcome)
| EvClose
| EvSend
| EvTrySend.

Section Loop.
Context {L P : Type} (beat : Registry -> L -> L * option P).

(** [spawn]; the first tick is skipped, so the task waits. *)
Definition spawn (r : Registry) (l : L) : TaskState L P := mkTask r l false false Waiting [].

Definition after_beat (closed : bool) : Phase P := if closed then Exited else Waiting.

(** One event; [None] when it cannot happen.  [EvWake] is a tick or a flush signal, which has
    priority: a signal is consumed when there is one.  [EvSend] is [flush_tx.send(())], which
    waits for the slot, [EvTrySend] the [try_send] of [drop]; both are ignored after the task has
    exited. *)
Definition task_step (t : TaskState L P) (ev : TaskEvent) : option (TaskState L P) :=
  match ev with
  | EvInc name n =>
      Some (mkTask (counter_inc (ts_registry t) name n) (ts_local t) (ts_closed t) (ts_flush t)
              (ts_phase t) (ts_sent t))
  | EvGaugeSet name v =>
      Some (mkTask (gauge_set (ts_registry t) name v) (ts_local t) (ts_closed t) (ts_flush t)
              (ts_phase t) (ts_sent t))
  | EvWake =>
      match ts_phase t with
      | Waiting =>
          let '(l, payload) := beat (ts_registry t) (ts_local t) in
          Some (mkTask (ts_registry t) l (ts_closed t) false
                  (match payload with Some p => InFlight p | None => after_beat (ts_closed t) end)
                  (ts_sent t))
      | _ => None
      end
  | EvAnswer o =>
      match ts_phase t with
      | InFlight p =>
          Some (mkTask (ts_registry t) (ts_local t) (ts_closed t) (ts_flush t)
                  (after_beat (ts_closed t)) ((p, o) :: ts_sent t))
      | _ => None
      end
  | EvClose =>
      Some (mkTask (ts_registry t) (ts_local t) true (ts_flush t) (ts_phase t) (ts_sent t))
  | EvSend =>
      match ts_phase t with
      | Exited => Some t
      | _ => if ts_flush t then None
             else Some (mkTask (ts_registry t) (ts_local t) (ts_closed t) true (ts_phase t) (ts_sent t))
      end
  | EvTrySend =>
      match ts_phase t with
      | Exited => Some t
      | _ => Some (mkTask (ts_registry t) (ts_local t) (ts_closed t) true (ts_phase t) (ts_sent t))
      end
  end.

Fixpoint task_run (t : TaskState L P) (evs : list TaskEvent) : option (TaskState L P) :=
  match evs with
  | [] => Some t
  | ev :: evs => t ← task_step t ev; task_run t evs
  end.
End Loop.

(** ** Repeated warnings *)

(** [LogSampler]; [-1] is "never", times are milliseconds since the epoch.  Alone, the
    compare-and-swap succeeds. *)
Record LogSampler : Type := mkSampler {
  ls_last_emitted_millis : Z;
  ls_window_millis : Z;
}.

Definition sampler_new (window_millis : Z) : LogSampler := mkSampler (-1) window_millis.

Definition should_log (s : LogSampler) (now : Z) : LogSampler * bool :=
  let last := ls_last_emitted_millis s in
  if (last <? 0) || (ls_window_millis s <=? now - last) then (mkSampler now (ls_window_millis s), true)
  else (s, false).

Fixpoint logged (s : LogSampler) (times : list Z) : list Z :=
  match times with
  | [] => []
  | now :: times =>
      let '(s, b) := should_log s now in
      if b then now :: logged s times else logged s times
  end.

(** ** Retries of the metrics client *)

Definition METRICS_MAX_RPC_RETRIES : nat := 2.

(** From [attempt] on, with [more] attempts after it: [reconnects i] and [calls i] are what reconnecting before attempt [i]
    and calling in it give; the last error seen is the one returned.  Returns the answer and the attempts whose call was made. *)
Fixpoint metrics_attempts {A : Type} (show : Error -> string) (reconnects : nat -> result Error unit)
    (calls : nat -> result Error A) (more attempt : nat)
  : result Error A * list nat :=
  let reconnected := if (0 <? attempt)%nat then reconnects attempt else Ok tt in
  match reconnected with
  | Err e =>
      match more with
      | O => (Err (Internal ("metrics master reconnect failed: " +:+ show e) None), [])
      | S more => metrics_attempts show reconnects calls more (S attempt)
      end
  | Ok _ =>
      match calls attempt with
      | Ok a => (Ok a, [attempt])
      | Err e =>
          match more with
          | O => (Err e, [attempt])
          | S more =>
              if is_retriable e then
                let '(r, made) := metrics_attempts show reconnects calls more (S attempt) in
                (r, attempt :: made)
              else (Err e, [attempt])
          end
      end
  end.

Definition metrics_with_retry {A : Type} (show : Error -> string) (reconnects : nat -> result Error unit)
    (calls : nat -> result Error A) : result Error A * list nat :=
  metrics_attempts show reconnects calls METRICS_MAX_RPC_RETRIES 0.

(** ** The reporter conserves counts *)

(** The sum of the deltas reported for a metric. *)
Definition reported (bare : string) (ms : list Metric) : Z :=
  foldr (fun m acc => (if bool_decide (mt_name m = Some bare) && bool_decide (mt_type m = MetricCounter)
                       then default 0 (mt_value m) else 0) + acc) 0 ms.

Lemma reported_app bare ms ms' : reported bare (ms ++ ms') = reported bare ms + reported bare ms'.
Proof. unfold reported. induction ms as [|m ms IH]; cbn [app foldr]; [lia|]. rewrite IH. lia. Qed.

Lemma reported_gauges bare (gs : list (string * Z)) :
  reported bare (map (fun '(name, v) => client_metric name v MetricGauge) gs) = 0.
Proof.
  unfold reported. induction gs as [|[n v] gs IH]; cbn [map foldr]; [done|].
  rewrite IH, (bool_decide_false (mt_type _ = _)), andb_false_r by done. done.
Qed.

Lemma reported_stamped bare app_id ms : reported bare (map (stamp_source app_id) ms) = reported bare ms.
Proof. unfold reported. induction ms as [|m ms IH]; cbn [map foldr]; [done|]. by rewrite IH. Qed.

Lemma reported_one bare name v :
  reported bare [client_metric name v MetricCounter]
  = if bool_decide (strip_instance_prefix name = bare) then as_f64 v else 0.
Proof.
  unfold reported. cbn [foldr mt_name mt_type mt_value client_metric].
  rewrite (bool_decide_true (MetricCounter = _)), andb_true_r by done.
  repeat case_bool_decide; simplify_eq; cbn -[as_f64]; lia.
Qed.

Definition exact_f64 : Z := 9007199254740992.

(** Integers of up to 53 bits survive the conversion. *)
Lemma as_f64_exact n : Z.abs n <= exact_f64 -> as_f64 n = n.
Proof.
  unfold exact_f64. intros Hn. unfold as_f64. set (a := Z.abs n) in *.
  assert (Ha : n = Z.sgn n * a) by (unfold a; lia). assert (0 <= a) by lia.
  destruct (decide (a = 9007199254740992)) as [E|E]; [rewrite E; transitivity (Z.sgn n * 9007199254740992); [reflexivity|lia]|].
  assert (Z.log2 a <= 52).
  { destruct (decide (a = 0)) as [->|]; [cbn; lia|].
    assert (Z.log2 a < 53); [|lia]. apply Z.log2_lt_pow2; lia. }
  replace (Z.max 0 (Z.log2 a - 52)) with 0 by lia. rewrite Z.shiftr_0_r, Z.shiftl_0_r, Z.sub_diag.
  change (Z.shiftl 1 (0 - 1)) with 0. cbn [Z.ltb Z.eqb Z.compare orb andb]. rewrite andb_false_r.
  cbn -[Z.mul Z.sgn]. lia.
Qed.

Definition count_ok (v : Z) : Prop := 0 <= v <= exact_f64.

(** Metrics whose bare name is the one of [name] come from [name]. *)
Definition bare_unique (name : string) (names : list string) : Prop :=
  forall name', name' ∈ names -> strip_instance_prefix name' = strip_instance_prefix name -> name' = name.

Lemma sweep_reported name visited : forall last last' ms,
  (forall k v, last !! k = Some v -> count_ok v) -> Forall (fun e => count_ok (snd e)) visited ->
  bare_unique name (map fst visited) -> sweep last visited = (last', ms) ->
  reported (strip_instance_prefix name) ms = default 0 (last' !! name) - default 0 (last !! name) /\
  (forall k v, last' !! k = Some v -> count_ok v).
Proof.
  induction visited as [|[k cur] visited IH]; intros last last' ms Hl Hv Hu; cbn [sweep].
  { intros [= <- <-]. split; [cbn; lia|done]. }
  apply Forall_cons in Hv as [Hc Hv]. cbn in Hc. unfold report_counter.
  destruct (sweep (<[k := cur]> last) visited) as [last1 ms1] eqn:Hs. intros [= <- <-].
  assert (Hl1 : forall j v, <[k := cur]> last !! j = Some v -> count_ok v).
  { intros j v. rewrite lookup_insert_Some. intros [[_ <-]|[_ ?]]; [done|by eapply Hl]. }
  destruct (IH _ _ _ Hl1 Hv (fun n Hn => Hu n (list_elem_of_further _ _ _ Hn)) Hs) as [Hrep Hb].
  split; [|done]. rewrite reported_app, Hrep.
  set (diff := match last !! k with Some prev => i64_sub cur prev | None => cur end).
  assert (Hdiff : diff = cur - default 0 (last !! k) /\ Z.abs diff <= exact_f64).
  { unfold diff, count_ok, exact_f64 in *. destruct (last !! k) as [prev|] eqn:E; cbn; [|lia].
    specialize (Hl k prev E). unfold i64_sub. rewrite as_i64_small by (unfold is_i64; lia). lia. }
  destruct Hdiff as [Hd Habs]. destruct (decide (k = name)) as [->|Hne].
  - rewrite lookup_insert_eq. change (default 0 (Some cur)) with cur.
    destruct (Z.eqb_spec diff 0); [change (reported _ []) with 0; lia|].
    rewrite reported_one, bool_decide_true, as_f64_exact by done. lia.
  - rewrite lookup_insert_ne by done. destruct (diff =? 0); [change (reported _ []) with 0; lia|].
    rewrite reported_one, bool_decide_false; [lia|]. intros Heq. apply Hne, Hu; [left|done].
Qed.

(** ** The last beat *)

Section LastBeat.
Context {L P : Type} (beat : Registry -> L -> L * option P).

(** Events that leave the registry alone. *)
Definition quiet (ev : TaskEvent) : Prop :=
  match ev with EvInc _ _ | EvGaugeSet _ _ => False | _ => True end.

(** Closed, with the registry at [R]: what is in flight, or was sent last, is the beat of [R]. *)
Record closing (R : Registry) (t : TaskState L P) : Prop := {
  cl_closed : ts_closed t = true;
  cl_registry : ts_registry t = R;
  cl_phase : match ts_phase t with
             | Waiting => True
             | InFlight p => exists l, beat R l = (ts_local t, Some p)
             | Exited => exists l p, beat R l = (ts_local t, p) /\
                 forall q, p = Some q -> exists o rest, ts_sent t = (q, o) :: rest
             end;
}.

Lemma closing_step R t ev t' : quiet ev -> closing R t -> task_step beat t ev = Some t' -> closing R t'.
Proof.
  intros Hq [Hc Hr Hp]. destruct ev; try done; cbn [task_step].
  - destruct (ts_phase t); try done. destruct (beat (ts_registry t) (ts_local t)) as [l p] eqn:Hb.
    intros [= <-]. rewrite Hr in Hb. destruct p as [p|]; (split; [done|done|]); cbn.
    + by exists (ts_local t).
    + rewrite Hc. cbn. by exists (ts_local t), None.
  - destruct (ts_phase t) as [|p|] eqn:Hph; try done. intros [= <-]. split; [done|done|]. cbn. rewrite Hc. cbn.
    destruct Hp as [l Hl]. exists l, (Some p). split; [done|]. intros q [= <-]. eauto.
  - intros [= <-]. by split.
  - destruct (ts_phase t) eqn:Hph; [..|by intros [= <-]; split; rewrite ?Hph].
    all: destruct (ts_flush t); [done|]; intros [= <-]; split; [done|done|]; cbn; by rewrite ?Hph.
  - destruct (ts_phase t) eqn:Hph; [..|by intros [= <-]; split; rewrite ?Hph].
    all: intros [= <-]; split; [done|done|]; cbn; by rewrite ?Hph.
Qed.

Lemma closing_run R evs : forall t t',
  Forall quiet evs -> closing R t -> task_run beat t evs = Some t' -> closing R t'.
Proof.
  induction evs as [|ev evs IH]; intros t t' Hq Hc; cbn [task_run]; [by intros [= <-]|].
  apply Forall_cons in Hq as [Hq Hqs]. destruct (task_step beat t ev) as [t1|] eqn:Hs; [|done].
  cbn. apply IH; [done|]. by eapply closing_step.
Qed.

(** After [shutdown] the task is done within two turns. *)
Lemma shutdown_exits t :
  ts_phase t = Waiting -> exists evs t',
    (length evs <= 2)%nat /\ task_run beat t (EvClose :: EvTrySend :: evs) = Some t' /\ ts_phase t' = Exited.
Proof.
  intros Hw. cbn [task_run task_step]. cbn. rewrite Hw. cbn.
  destruct (beat (ts_registry t) (ts_local t)) as [l [p|]] eqn:Hb.
  - exists [EvWake; EvAnswer BeatOk]. eexists. split; [done|]. cbn. rewrite Hb. cbn. done.
  - exists [EvWake]. eexists. split; [cbn; lia|]. cbn. rewrite Hb. cbn. done.
Qed.
End LastBeat.

(** ** The heartbeat *)

Section Heartbeat.
Context (app_id : string).

Abbreviation beat := (heartbeat_beat app_id).
Abbreviation task := (TaskState (gmap string Z) ClientMetrics).

(** What was reported of a metric, whatever became of the calls. *)
Definition reported_total (bare : string) (t : task) : Z :=
  foldr (fun '(p, _) acc => reported bare (cm_metrics p) + acc) 0 (ts_sent t) +
  match ts_phase t with InFlight p => reported bare (cm_metrics p) | _ => 0 end.

Definition ev_names (evs : list TaskEvent) : list string :=
  omap (fun ev => match ev with EvInc n _ => Some n | _ => None end) evs.

Definition ev_total (evs : list TaskEvent) : Z :=
  foldr (fun ev acc => match ev with EvInc _ n => n + acc | _ => acc end) 0 evs.

Definition ev_nonneg (ev : TaskEvent) : Prop := match ev with EvInc _ n => 0 <= n | _ => True end.

(** With [done] counted so far. *)
Record hb_inv (name : string) (names : list string) (counted : Z) (t : task) : Prop := {
  hi_counted : 0 <= counted;
  hi_counters : forall k v, reg_counters (ts_registry t) !! k = Some v -> 0 <= v <= counted /\ k ∈ names;
  hi_last : forall k v, ts_local t !! k = Some v -> count_ok v;
  hi_total : reported_total (strip_instance_prefix name) t = default 0 (ts_local t !! name);
}.

Lemma counter_inc_counters r name n :
  reg_counters (counter_inc r name n) = <[name := i64_add (default 0 (reg_counters r !! name)) n]> (reg_counters r).
Proof.
  unfold counter_inc, counter. destruct (reg_counters r !! name) eqn:E; cbn; [done|]. by rewrite insert_insert_eq.
Qed.

Lemma gauge_set_counters r name v : reg_counters (gauge_set r name v) = reg_counters r.
Proof. unfold gauge_set, gauge. by destruct (reg_gauges r !! name). Qed.

(** The beat reports the difference between the baselines before and after it. *)
Lemma beat_reported name names r last last' p :
  (forall k v, reg_counters r !! k = Some v -> count_ok v /\ k ∈ names) ->
  (forall k v, last !! k = Some v -> count_ok v) -> bare_unique name names ->
  beat r last = (last', p) ->
  (match p with Some q => reported (strip_instance_prefix name) (cm_metrics q) | None => 0 end
   = default 0 (last' !! name) - default 0 (last !! name)) /\
  (forall k v, last' !! k = Some v -> count_ok v).
Proof.
  intros Hr Hl Hu. unfold heartbeat_beat, snapshot.
  destruct (sweep last (map_to_list (reg_counters r))) as [l1 ms] eqn:Hs. cbn.
  assert (Hel : forall k v, (k, v) ∈ map_to_list (reg_counters r) -> count_ok v /\ k ∈ names).
  { intros k v Hin%elem_of_map_to_list. by apply Hr. }
  destruct (sweep_reported name (map_to_list (reg_counters r)) last l1 ms) as [Hrep Hb]; [done| | |done|].
  { apply Forall_forall. intros [k v] Hin. by apply (Hel k v). }
  { intros n Hin%list_elem_of_fmap Heq. destruct Hin as ([k v] & -> & Hin). apply Hu; [|done]. by apply (Hel k v). }
  intros [= <- <-]. split; [|done].
  pose proof (reported_gauges (strip_instance_prefix name) (map_to_list (reg_gauges r))) as Hg.
  set (gs := map _ (map_to_list (reg_gauges r))) in *.
  rewrite <- Hrep, <- (Z.add_0_r (reported _ ms)), <- Hg, <- reported_app.
  destruct (ms ++ gs) as [|m l]; [done|]. apply reported_stamped.
Qed.

Lemma hb_step name names counted t ev t' :
  bare_unique name names -> ev_nonneg ev -> (forall n k, ev = EvInc n k -> n ∈ names) ->
  counted + ev_total [ev] <= exact_f64 -> hb_inv name names counted t ->
  task_step beat t ev = Some t' -> hb_inv name names (counted + ev_total [ev]) t'.
Proof.
  intros Hu Hn Hname Hmax [H0 Hc Hl Ht]. destruct ev; cbn [task_step]; unfold ev_total in *; cbn in Hmax, Hn |- *.
  - intros [= <-]. split; [lia| |done|done]. cbn [ts_registry]. rewrite counter_inc_counters. intros k v.
    rewrite lookup_insert_Some. intros [[<- <-]|[_ Hk]]; [|destruct (Hc k v Hk); split; [lia|done]].
    split; [|by eapply Hname]. unfold exact_f64 in *.
    assert (0 <= default 0 (reg_counters (ts_registry t) !! name0) <= counted).
    { destruct (reg_counters (ts_registry t) !! name0) eqn:E; cbn; [by apply (Hc name0)|lia]. }
    unfold i64_add. rewrite as_i64_small by (unfold is_i64; lia). lia.
  - intros [= <-]. split; [lia| |done|done]. cbn [ts_registry]. rewrite gauge_set_counters.
    intros k v' Hk. destruct (Hc k v' Hk). split; [lia|done].
  - destruct (ts_phase t) eqn:Hph; try done. destruct (beat (ts_registry t) (ts_local t)) as [l p] eqn:Hb.
    destruct (beat_reported name names (ts_registry t) (ts_local t) l p) as [Hrep Hok]; [|done|done|done|].
    { intros k v Hk. destruct (Hc k v Hk). unfold count_ok. split; [lia|done]. }
    intros [= <-]. split; cbn; [lia| |done|].
    { intros k v Hk. destruct (Hc k v Hk). split; [lia|done]. }
    unfold reported_total in *. rewrite Hph in Ht. cbn [ts_sent ts_phase ts_local].
    destruct p as [q|]; [lia|]. unfold after_beat. destruct (ts_closed t); lia.
  - destruct (ts_phase t) as [|p|] eqn:Hph; try done. intros [= <-]. split; cbn; [lia| |done|].
    { intros k v Hk. destruct (Hc k v Hk). split; [lia|done]. }
    unfold reported_total in *. rewrite Hph in Ht. cbn [ts_sent ts_phase ts_local foldr].
    unfold after_beat. destruct (ts_closed t); lia.
  - intros [= <-]. split; [lia| |done|done]. intros k v Hk. destruct (Hc k v Hk). split; [lia|done].
  - destruct (ts_phase t) eqn:Hph; [destruct (ts_flush t); [done|]..|]; intros [= <-];
      (split; [lia|intros k v Hk; destruct (Hc k v Hk); split; [lia|done]|done|]);
      unfold reported_total in *; by rewrite ?Hph in *.
  - destruct (ts_phase t) eqn:Hph; intros [= <-];
      (split; [lia|intros k v Hk; destruct (Hc k v Hk); split; [lia|done]|done|]);
      unfold reported_total in *; by rewrite ?Hph in *.
Qed.

Lemma hb_run name names evs : forall counted t t',
  bare_unique name names -> Forall ev_nonneg evs -> (forall n, n ∈ ev_names evs -> n ∈ names) ->
  counted + ev_total evs <= exact_f64 -> hb_inv name names counted t ->
  task_run beat t evs = Some t' -> hb_inv name names (counted + ev_total evs) t'.
Proof.
  induction evs as [|ev evs IH]; intros counted t t' Hu Hn Hnames Hmax Hi; cbn [task_run].
  { intros [= <-]. cbn. by rewrite Z.add_0_r. }
  apply Forall_cons in Hn as [Hn Hns]. destruct (task_step beat t ev) as [t1|] eqn:Hs; [|done].
  assert (Hsum : ev_total (ev :: evs) = ev_total [ev] + ev_total evs) by (unfold ev_total; cbn [foldr]; destruct ev; lia).
  assert (0 <= ev_total evs).
  { clear -Hns. unfold ev_total. induction Hns as [|e es He _ IH]; cbn [foldr]; [done|].
    destruct e; cbn in He; lia. }
  rewrite Hsum in *. cbn [mbind option_bind]. intros Hrun. rewrite Z.add_assoc. eapply IH; [done|done| |lia| |exact Hrun].
  - intros n Hin. apply Hnames. unfold ev_names in *. cbn. destruct ev; cbn; set_solver.
  - eapply hb_step; [done|done| |lia|done|done]. intros n k ->. apply Hnames. unfold ev_names. cbn. set_solver.
Qed.
End Heartbeat.

Lemma sweep_last visited : forall last,
  fst (sweep last visited) = list_to_map (reverse visited) ∪ last.
Proof.
  induction visited as [|[k v] visited IH]; intros last; cbn [sweep].
  { cbn. by rewrite map_empty_union. }
  unfold report_counter. specialize (IH (<[k := v]> last)).
  destruct (sweep (<[k := v]> last) visited) as [l ms]. cbn [fst] in *. rewrite IH.
  rewrite reverse_cons, list_to_map_app. cbn [list_to_map foldr]. rewrite <- map_union_assoc. f_equal.
  exact (insert_union_singleton_l last k v).
Qed.

(** After a beat the baseline of every counter is its value. *)
Lemma beat_baseline app_id r last k v :
  reg_counters r !! k = Some v -> fst (heartbeat_beat app_id r last) !! k = Some v.
Proof.
  intros Hk. unfold heartbeat_beat, snapshot. pose proof (sweep_last (map_to_list (reg_counters r)) last) as Hs.
  destruct (sweep last (map_to_list (reg_counters r))) as [l ms]. cbn in *. rewrite Hs.
  apply lookup_union_Some_l. apply elem_of_list_to_map_1.
  - rewrite fmap_reverse, reverse_Permutation. apply NoDup_fst_map_to_list.
  - rewrite reverse_Permutation. by apply elem_of_map_to_list.
Qed.

(** C17. The heartbeat reports every increment once, and shutting down flushes.  Over any
    interleaving of increments, ticks, flush signals, answers, failures and timeouts, what was
    reported of a counter (in the calls made and the one in flight) adds up to its value at
    the last snapshot: nothing is counted twice or skipped, across calls that fail.  If
    [shutdown] finds the task waiting, then once the task has exited, with no increment since,
    everything counted has been reported. *)
Theorem heartbeat_reports_each_increment_once (app_id name : string) (before after : list TaskEvent)
    (t t' : TaskState (gmap string Z) ClientMetrics)
    (Hpos : Forall ev_nonneg before) (Hmax : ev_total before <= exact_f64)
    (Hbare : bare_unique name (ev_names before))
    (Hquiet : Forall quiet after)
    (Hrun : task_run (heartbeat_beat app_id) (spawn empty_registry ∅) before = Some t)
    (Hrun' : task_run (heartbeat_beat app_id) t (EvClose :: after) = Some t') :
  reported_total (strip_instance_prefix name) t = default 0 (ts_local t !! name) /\
  (forall v, ts_phase t = Waiting -> ts_phase t' = Exited ->
   reg_counters (ts_registry t) !! name = Some v -> reported_total (strip_instance_prefix name) t' = v).
Proof.
  assert (Hinit : hb_inv name (ev_names before) 0 (spawn empty_registry ∅)).
  { split; cbn [spawn ts_registry ts_local reg_counters empty_registry]; [done|..].
    - intros k v Hk. by rewrite lookup_empty in Hk.
    - intros k v Hk. by rewrite lookup_empty in Hk.
    - by rewrite lookup_empty. }
  assert (Hq : forall evs, Forall quiet evs -> Forall ev_nonneg evs /\ ev_total evs = 0 /\ ev_names evs = []).
  { intros evs Hevs. induction Hevs as [|e es He _ (H1 & H2 & H3)]; [done|]. by destruct e; repeat split; try constructor. }
  destruct (Hq _ (proj2 (Forall_cons quiet EvClose after) (conj I Hquiet))) as (Hn' & Ht' & Hnm').
  pose proof (hb_run app_id name (ev_names before) before 0 _ _ Hbare Hpos ltac:(done) Hmax Hinit Hrun) as Hi.
  assert (Hi' := hb_run app_id name (ev_names before) (EvClose :: after) (0 + ev_total before) _ _ Hbare Hn'
    ltac:(rewrite Hnm'; set_solver) ltac:(rewrite Ht'; lia) Hi Hrun').
  split; [apply Hi|]. intros v Hw Hex Hv. cbn [task_run task_step mbind option_bind] in Hrun'.
  set (t1 := mkTask _ _ true _ _ _) in Hrun'.
  assert (Hcl : closing (heartbeat_beat app_id) (ts_registry t) t1).
  { split; [done|done|]. unfold t1. cbn. by rewrite Hw. }
  destruct (closing_run _ _ _ _ _ Hquiet Hcl Hrun') as [_ _ Hp]. rewrite Hex in Hp.
  destruct Hp as (l & p & Hbeat & _). rewrite (hi_total _ _ _ _ Hi').
  apply (beat_baseline app_id (ts_registry t) l) in Hv. rewrite Hbeat in Hv. cbn in Hv. by rewrite Hv.
Qed.

Module MetricsDemo.
Definition reads : string := "Client.BytesReadLocal".

(** Two increments, the first reported in a call that times out. *)
Definition before : list TaskEvent :=
  [EvInc reads 5; EvWake; EvAnswer BeatTimedOut; EvInc reads 7].
Definition after : list TaskEvent := [EvSend; EvWake; EvAnswer BeatOk].

Definition run (evs : list TaskEvent) : option (TaskState (gmap string Z) ClientMetrics) :=
  task_run (heartbeat_beat "app") (spawn empty_registry ∅) evs.

Definition state_after (evs : list TaskEvent) : TaskState (gmap string Z) ClientMetrics :=
  default (spawn empty_registry ∅) (run evs).
End MetricsDemo.

Lemma heartbeat_reports_each_increment_once_witness :
  reported_total "BytesReadLocal" (MetricsDemo.state_after MetricsDemo.before) = 5 /\
  reported_total "BytesReadLocal" (MetricsDemo.state_after (MetricsDemo.before ++ EvClose :: MetricsDemo.after)) = 12.
Proof.
  destruct (heartbeat_reports_each_increment_once "app" MetricsDemo.reads MetricsDemo.before MetricsDemo.after
    (MetricsDemo.state_after MetricsDemo.before)
    (MetricsDemo.state_after (MetricsDemo.before ++ EvClose :: MetricsDemo.after))
    ltac:(repeat constructor; done) ltac:(by vm_compute)
    ltac:(intros n Hn; unfold ev_names in Hn; cbn in Hn; set_solver)
    ltac:(repeat constructor) ltac:(reflexivity) ltac:(reflexivity)) as [H1 H2].
  split; [exact H1|]. exact (H2 12 eq_refl eq_refl eq_refl).
Defined.

(** A call in flight when [shutdown] is called is the last one: what was counted since its
    snapshot is not flushed, although the task's documentation promises a final beat. *)
Theorem shutdown_during_beat_skips_flush :
  let t := MetricsDemo.state_after [EvInc MetricsDemo.reads 5; EvWake; EvInc MetricsDemo.reads 7; EvClose; EvSend;
             EvAnswer BeatOk] in
  ts_phase t = Exited /\ reg_counters (ts_registry t) !! MetricsDemo.reads = Some 12 /\
  reported_total "BytesReadLocal" t = 5.
Proof. vm_compute. done. Qed.

(** ** Warnings are spaced *)

Fixpoint spaced (window : Z) (times : list Z) : Prop :=
  match times with
  | a :: (b :: _) as rest => window <= b - a /\ spaced window rest
  | _ => True
  end.

Lemma logged_spaced times : forall s lo,
  0 <= lo -> StronglySorted Z.le (lo :: times) ->
  ls_last_emitted_millis s < 0 \/ ls_last_emitted_millis s <= lo ->
  (match logged s times with
   | b :: _ => lo <= b /\ (0 <= ls_last_emitted_millis s -> ls_window_millis s <= b - ls_last_emitted_millis s)
   | [] => True
   end) /\ spaced (ls_window_millis s) (logged s times).
Proof.
  induction times as [|now times IH]; intros s lo Hlo Hs Hl; [done|].
  apply StronglySorted_inv in Hs as [Hs Hall]. apply Forall_cons in Hall as [Hnow Hall].
  cbn [logged]. unfold should_log.
  destruct ((ls_last_emitted_millis s <? 0) || (ls_window_millis s <=? now - ls_last_emitted_millis s)) eqn:Hb.
  - destruct (IH (mkSampler now (ls_window_millis s)) now ltac:(lia) Hs ltac:(cbn; lia)) as [Hfst Hsp].
    cbn [ls_last_emitted_millis ls_window_millis] in *. split.
    + split; [lia|]. intros H0. apply orb_true_iff in Hb as [?%Z.ltb_lt|?%Z.leb_le]; lia.
    + destruct (logged _ times) as [|b l]; [done|]. cbn. split; [apply Hfst; lia|done].
  - apply orb_false_iff in Hb as [Hb%Z.ltb_ge _].
    destruct (IH s now ltac:(lia) Hs ltac:(lia)) as [Hfst Hsp]. split; [|done].
    destruct (logged s times) as [|b l]; [done|]. destruct Hfst. split; [lia|done].
Qed.

(** The first failure is logged, and two logged failures are at least the window apart. *)
Theorem warnings_are_spaced (window now : Z) (times : list Z)
    (Hnow : 0 <= now) (Hsorted : StronglySorted Z.le (now :: times)) :
  exists rest, logged (sampler_new window) (now :: times) = now :: rest /\
    spaced window (now :: rest).
Proof.
  destruct (logged_spaced (now :: times) (sampler_new window) now Hnow) as [_ Hsp].
  - apply StronglySorted_inv in Hsorted as [Hs Hall]. constructor; [by constructor|]. by constructor.
  - cbn. lia.
  - cbn in *. eexists. split; [done|]. exact Hsp.
Qed.

(** ** Retries *)

(** The metrics client makes at most three calls, one per attempt and in order, stops at the
    first success or final error, and succeeds exactly when a call does. *)
Lemma metrics_attempts_spec {A : Type} (show : Error -> string) (reconnects : nat -> result Error unit)
    (calls : nat -> result Error A) more : forall attempt r made,
  metrics_attempts show reconnects calls more attempt = (r, made) ->
  (length made <= S more)%nat /\ Forall (fun i => attempt <= i <= attempt + more)%nat made /\
  (forall a, r = Ok a -> exists i, last made = Some i /\ calls i = Ok a) /\
  (forall i, i ∈ made -> last made <> Some i -> exists e, calls i = Err e /\ is_retriable e = true) .
Proof.
  induction more as [|more IH]; intros attempt r made; cbn [metrics_attempts].
  - destruct (if (0 <? attempt)%nat then _ else _) as [u|e0]; [|by intros [= <- <-]; split_and!; [cbn; lia|constructor|done|set_solver]].
    destruct (calls attempt) as [a'|e] eqn:Hc; intros [= <- <-];
      (split_and!; [cbn; lia|repeat constructor; lia| |]).
    + intros a [= <-]. by exists attempt.
    + intros i Hi%list_elem_of_singleton. by subst.
    + done.
    + intros i Hi%list_elem_of_singleton. by subst.
  - destruct (if (0 <? attempt)%nat then _ else _) as [u|e0].
    2:{ intros H. destruct (IH _ _ _ H) as (H1 & H2 & H3 & H4). split_and!; [lia| |done|done].
        eapply Forall_impl; [exact H2|]. cbn. lia. }
    destruct (calls attempt) as [a'|e] eqn:Hc.
    { intros [= <- <-]. split_and!; [cbn; lia|repeat constructor; lia| |].
      - intros a [= <-]. by exists attempt.
      - intros i Hi%list_elem_of_singleton. by subst. }
    destruct (is_retriable e) eqn:He.
    2:{ intros [= <- <-]. split_and!; [cbn; lia|repeat constructor; lia|done|].
        intros i Hi%list_elem_of_singleton. by subst. }
    destruct (metrics_attempts show reconnects calls more (S attempt)) as [r' made'] eqn:Hm. intros [= <- <-].
    destruct (IH _ _ _ Hm) as (H1 & H2 & H3 & H4).
    split_and!; [cbn; lia|constructor; [lia|eapply Forall_impl; [exact H2|cbn; lia]]| |].
    + intros a Ha. destruct (H3 a Ha) as (i & Hi & Hci). exists i. split; [|done].
      destruct made'; [done|]. by rewrite last_cons_cons.
    + intros i [->|Hi]%elem_of_cons Hne; [by exists e|]. apply H4; [done|].
      destruct made' as [|x l]; [done|]. by rewrite last_cons_cons in Hne.
Qed.

(** A heartbeat whose answer is lost is sent again: the call of the first attempt may have
    been applied, and the payload carries differences, not totals. *)
Theorem lost_answer_sends_deltas_twice (show : Error -> string) :
  metrics_with_retry show (fun _ => Ok tt)
    (fun i => if (i =? 0)%nat
              then Err (GrpcError "deadline exceeded" (mkStatus CodeDeadlineExceeded "deadline exceeded"))
              else Ok tt)
  = (Ok tt, [0%nat; 1%nat]).
Proof. reflexivity. Qed.
