(* ===== verification/Pushgateway.v ===== *)
(** * Prometheus Pushgateway reporter (src/src/metrics/pushgateway.rs)

    The push URL, metric names and text exposition, over the background loop of [Metrics].
    Strings are bytes: the bytes of a character outside ASCII are encoded one by one, as in the
    source.  Metric names are taken to be ASCII. *)

From Stdlib Require Import Ascii.
From S2P Require Import Prelude Text Errors Metrics.

(** ** Characters *)

Definition code (c : ascii) : Z := Z.of_N (N_of_ascii c).

Definition in_range (lo hi : ascii) (c : ascii) : bool := (code lo <=? code c) && (code c <=? code hi).

Definition is_ascii_uppercase (c : ascii) : bool := in_range "A" "Z" c.
Definition is_ascii_alphanumeric (c : ascii) : bool :=
  in_range "A" "Z" c || in_range "a" "z" c || in_range "0" "9" c.

(** ** URLs *)

Definition unreserved (c : ascii) : bool :=
  is_ascii_alphanumeric c || Ascii.eqb c "-" || Ascii.eqb c "_" || Ascii.eqb c "." || Ascii.eqb c "~".

(** [{:02X}] of a byte. *)
Definition hex_digit (d : Z) : ascii := ascii_of_N (Z.to_N (if d <? 10 then d + 48 else d + 55)).

Fixpoint url_encode (s : string) : string :=
  match s with
  | EmptyString => EmptyString
  | String c s =>
      if unreserved c then String c (url_encode s)
      else String "%" (String (hex_digit (code c / 16)) (String (hex_digit (code c mod 16)) (url_encode s)))
  end.

Record PushgatewayConfig : Type := mkPushgatewayConfig {
  pg_endpoint : string;
  pg_job : string;
  pg_instance : option string;
  pg_push_interval_ms : Z;
  pg_extra_labels : list (string * string);
}.

Definition default_PushgatewayConfig : PushgatewayConfig :=
  mkPushgatewayConfig "http://127.0.0.1:9091" "goosefs_client" None 10000 [].

Definition pushgateway_new (endpoint job : string) : PushgatewayConfig :=
  mkPushgatewayConfig endpoint job (pg_instance default_PushgatewayConfig)
    (pg_push_interval_ms default_PushgatewayConfig) (pg_extra_labels default_PushgatewayConfig).

Definition with_instance (c : PushgatewayConfig) (instance : string) : PushgatewayConfig :=
  mkPushgatewayConfig (pg_endpoint c) (pg_job c) (Some instance) (pg_push_interval_ms c) (pg_extra_labels c).

Definition with_label (c : PushgatewayConfig) (k v : string) : PushgatewayConfig :=
  mkPushgatewayConfig (pg_endpoint c) (pg_job c) (pg_instance c) (pg_push_interval_ms c)
    (pg_extra_labels c ++ [(k, v)]).

(** [trim_end_matches('/')] *)
Fixpoint trim_end_slash (s : string) : string :=
  match s with
  | EmptyString => EmptyString
  | String c s' =>
      match trim_end_slash s' with
      | EmptyString => if Ascii.eqb c "/" then EmptyString else String c EmptyString
      | t => String c t
      end
  end.

(** The grouping key as path segments. *)
Definition path_segments (c : PushgatewayConfig) : list string :=
  ["metrics"; "job"; pg_job c]%string
  ++ match pg_instance c with Some i => ["instance"%string; i] | None => [] end
  ++ mjoin (map (fun '(k, v) => [k; v]) (pg_extra_labels c)).

Fixpoint push_labels (url : string) (labels : list (string * string)) : string :=
  match labels with
  | [] => url
  | (k, v) :: labels => push_labels (url +:+ "/" +:+ url_encode k +:+ "/" +:+ url_encode v) labels
  end.

Definition push_url (c : PushgatewayConfig) : string :=
  let url := trim_end_slash (pg_endpoint c) +:+ "/metrics/job/" +:+ url_encode (pg_job c) in
  let url := match pg_instance c with
             | Some i => url +:+ "/instance/" +:+ url_encode i
             | None => url
             end in
  push_labels url (pg_extra_labels c).

(** ** Names *)

(** The loop of [sanitize_metric_name]; [prev] is the previous character. *)
Fixpoint sanitize_loop (prev_was_upper : bool) (prev : option ascii) (name : string) : string :=
  match name with
  | EmptyString => EmptyString
  | String ch name =>
      if Ascii.eqb ch "." then String "_" (sanitize_loop false (Some "."%char) name)
      else if is_ascii_uppercase ch then
        let lowered := String (to_ascii_lowercase ch) (sanitize_loop true (Some ch) name) in
        if bool_decide (is_Some prev) && negb prev_was_upper && negb (bool_decide (prev = Some "."%char))
        then String "_" lowered else lowered
      else if is_ascii_alphanumeric ch || Ascii.eqb ch "_" || Ascii.eqb ch ":"
      then String ch (sanitize_loop false (Some ch) name)
      else String "_" (sanitize_loop false (Some ch) name)
  end.

Definition sanitize_metric_name (name : string) : string := "goosefs_" +:+ sanitize_loop false None name.

(** ** Text exposition *)

Definition metric_lines (kind : string) (entry : string * Z) : list string :=
  let '(raw, v) := entry in
  let prom := sanitize_metric_name raw in
  [("# HELP " +:+ prom +:+ " GooseFS client " +:+ kind +:+ ": " +:+ raw)%string;
   ("# TYPE " +:+ prom +:+ " " +:+ kind)%string;
   (prom +:+ " " +:+ show_Z v)%string].

Definition newline : string := String (ascii_of_N 10) EmptyString.

Definition collect_lines (r : Registry) : list string :=
  mjoin (map (metric_lines "counter") (map_to_list (reg_counters r)))
  ++ mjoin (map (metric_lines "gauge") (map_to_list (reg_gauges r))).

(** Every line ends with a newline: the lines and an empty one, joined. *)
Definition collect_metrics_text (r : Registry) : string :=
  foldr (fun line acc => line +:+ newline +:+ acc) EmptyString (collect_lines r).

(** ** The task *)

(** The beat of the loop: nothing is pushed when there is nothing to say. *)
Definition push_beat (r : Registry) (l : unit) : unit * option string :=
  let body := collect_metrics_text r in
  (l, if String.eqb body EmptyString then None else Some body).

Definition push_task_run : TaskState unit string -> list TaskEvent -> option (TaskState unit string) :=
  task_run push_beat.

(** ** The URL names the group *)

Definition hex_value (c : ascii) : Z := if code c <? 58 then code c - 48 else code c - 55.

(** Percent-decoding of a path segment (RFC 3986). *)
Fixpoint url_decode (s : string) : string :=
  match s with
  | String c (String a (String b s') as t) =>
      if Ascii.eqb c "%" then String (ascii_of_N (Z.to_N (16 * hex_value a + hex_value b))) (url_decode s')
      else String c (url_decode t)
  | String c s => String c (url_decode s)
  | EmptyString => EmptyString
  end.

Lemma code_range c : 0 <= code c < 256.
Proof. unfold code. pose proof (N_ascii_bounded c). lia. Qed.

Lemma ascii_code c : ascii_of_N (Z.to_N (code c)) = c.
Proof. unfold code. rewrite N2Z.id. apply ascii_N_embedding. Qed.

Lemma code_ascii n : 0 <= n < 256 -> code (ascii_of_N (Z.to_N n)) = n.
Proof. intros H. unfold code. rewrite N_ascii_embedding by lia. lia. Qed.

Lemma hex_digit_code d : 0 <= d < 16 -> code (hex_digit d) = if d <? 10 then d + 48 else d + 55.
Proof. intros H. unfold hex_digit. apply code_ascii. destruct (Z.ltb_spec d 10); lia. Qed.

Lemma hex_digit_value d : 0 <= d < 16 -> hex_value (hex_digit d) = d.
Proof.
  intros H. unfold hex_value. rewrite hex_digit_code by done.
  destruct (Z.ltb_spec d 10); [destruct (Z.ltb_spec (d + 48) 58)|destruct (Z.ltb_spec (d + 55) 58)]; lia.
Qed.

Lemma url_decode_plain c s : Ascii.eqb c "%" = false -> url_decode (String c s) = String c (url_decode s).
Proof. intros H. destruct s as [|a [|b s]]; cbn; by rewrite ?H. Qed.

Lemma url_roundtrip s : url_decode (url_encode s) = s.
Proof.
  induction s as [|c s IH]; [done|]. cbn [url_encode]. destruct (unreserved c) eqn:Hu.
  - rewrite url_decode_plain; [by rewrite IH|]. destruct (Ascii.eqb_spec c "%") as [->|]; [by vm_compute in Hu|done].
  - cbn [url_decode]. cbn [Ascii.eqb Bool.eqb]. rewrite IH. f_equal. pose proof (code_range c) as Hc.
    pose proof (Z.mod_pos_bound (code c) 16 eq_refl) as Hm. pose proof (Z.div_mod (code c) 16 ltac:(lia)) as Hd.
    rewrite !hex_digit_value by lia. rewrite <- Hd. apply ascii_code.
Qed.

Definition no_slash (s : string) : Prop := str_forall (fun c => negb (Ascii.eqb "/" c)) s.

Lemma str_forall_cons P c s : str_forall P (String c s) <-> P c = true /\ str_forall P s.
Proof. unfold str_forall. cbn. by rewrite Forall_cons. Qed.

(** Hex digits are digits or letters, so never a separator. *)
Lemma hex_digit_no_slash d : 0 <= d < 16 -> Ascii.eqb "/" (hex_digit d) = false.
Proof.
  intros H. destruct (Ascii.eqb_spec "/" (hex_digit d)) as [E|]; [|done].
  apply (f_equal code) in E. rewrite hex_digit_code in E by done. vm_compute (code "/") in E.
  destruct (Z.ltb_spec d 10); lia.
Qed.

Lemma url_encode_no_slash s : no_slash (url_encode s).
Proof.
  unfold no_slash. induction s as [|c s IH]; [constructor|]. cbn [url_encode]. destruct (unreserved c) eqn:Hu.
  - apply str_forall_cons. split; [|done]. destruct (Ascii.eqb_spec "/" c) as [<-|]; [by vm_compute in Hu|done].
  - pose proof (code_range c). pose proof (Z.mod_pos_bound (code c) 16 eq_refl).
    pose proof (Z.div_mod (code c) 16 ltac:(lia)).
    apply str_forall_cons. split; [done|]. apply str_forall_cons. split; [by rewrite hex_digit_no_slash by lia|].
    apply str_forall_cons. split; [by rewrite hex_digit_no_slash by lia|done].
Qed.

(** A path: every segment after its separator. *)
Definition path (segments : list string) : string :=
  foldr (fun seg acc => String "/" (url_encode seg +:+ acc)) EmptyString segments.

Lemma str_app_assoc (a b c : string) : a +:+ (b +:+ c) = (a +:+ b) +:+ c.
Proof.
  induction a as [|d a IH]; [done|].
  change (String d (a +:+ (b +:+ c)) = String d ((a +:+ b) +:+ c)). by rewrite IH.
Qed.

Lemma path_app a b : path (a ++ b) = path a +:+ path b.
Proof.
  induction a as [|s a IH]; [done|]. cbn [app path foldr]. fold (path (a ++ b)). fold (path a). rewrite IH.
  change (String "/" (url_encode s +:+ path a) +:+ path b)
    with (String "/" ((url_encode s +:+ path a) +:+ path b)). by rewrite str_app_assoc.
Qed.

Lemma str_app_nil (a : string) : a +:+ EmptyString = a.
Proof. induction a as [|d a IH]; [done|]. change (String d (a +:+ EmptyString) = String d a). by rewrite IH. Qed.

Lemma push_labels_path labels : forall url,
  push_labels url labels = url +:+ path (mjoin (map (fun '(k, v) => [k; v]) labels)).
Proof.
  induction labels as [|[k v] labels IH]; intros url; cbn [push_labels map].
  { cbn. by rewrite str_app_nil. }
  rewrite IH. set (f := fun '(k, v) => [k; v]).
  replace (mjoin ([k; v] :: map f labels)) with ([k; v] ++ mjoin (map f labels)) by reflexivity.
  rewrite path_app. assert (path [k; v] = ("/" +:+ url_encode k +:+ "/" +:+ url_encode v)%string) as ->
    by (cbn; by rewrite str_app_nil). by rewrite <- !str_app_assoc.
Qed.

Lemma push_url_path c : push_url c = trim_end_slash (pg_endpoint c) +:+ path (path_segments c).
Proof.
  unfold push_url. rewrite push_labels_path. unfold path_segments. rewrite !path_app.
  assert (Hj : path ["metrics"; "job"; pg_job c]%string = ("/metrics/job/" +:+ url_encode (pg_job c))%string).
  { cbn. by rewrite str_app_nil. }
  rewrite Hj. destruct (pg_instance c) as [i|].
  - assert (path ["instance"%string; i] = ("/instance/" +:+ url_encode i)%string) as -> by (cbn; by rewrite str_app_nil).
    by rewrite <- !str_app_assoc.
  - change (path []) with EmptyString. by rewrite <- !str_app_assoc.
Qed.

Lemma split_no_sep c s t : str_forall (fun d => negb (Ascii.eqb c d)) s ->
  split c (s +:+ String c t) = s :: split c t.
Proof.
  induction s as [|d s IH]; intros Hs.
  - change (EmptyString +:+ String c t) with (String c t). cbn. by rewrite Ascii.eqb_refl.
  - apply str_forall_cons in Hs as [Hd Hs]. change (String d s +:+ String c t) with (String d (s +:+ String c t)).
    cbn [split]. rewrite (proj1 (negb_true_iff _) Hd), (IH Hs). done.
Qed.

Lemma split_whole c s : str_forall (fun d => negb (Ascii.eqb c d)) s -> split c s = [s].
Proof.
  induction s as [|d s IH]; intros Hs; [done|]. apply str_forall_cons in Hs as [Hd Hs].
  cbn [split]. by rewrite (proj1 (negb_true_iff _) Hd), (IH Hs).
Qed.

Lemma split_path segments : split "/" (path segments) = EmptyString :: map url_encode segments \/ segments = [].
Proof.
  induction segments as [|s segments IH]; [by right|]. left. cbn [path foldr]. fold (path segments).
  change (split "/" (String "/" (url_encode s +:+ path segments)))
    with (EmptyString :: split "/" (url_encode s +:+ path segments)). f_equal. cbn [map].
  pose proof (url_encode_no_slash s) as Hs. destruct segments as [|s' segments].
  - change (path []) with EmptyString. rewrite str_app_nil. by apply split_whole.
  - destruct IH as [IH|]; [|done]. cbn [path foldr] in *. fold (path segments) in *.
    rewrite split_no_sep by done. f_equal. cbn [split] in IH. rewrite Ascii.eqb_refl in IH. by injection IH.
Qed.

(** ** Names are valid *)

(** A Prometheus metric name. *)
Definition name_start (c : ascii) : bool :=
  in_range "A" "Z" c || in_range "a" "z" c || Ascii.eqb c "_" || Ascii.eqb c ":".
Definition name_char (c : ascii) : bool := name_start c || in_range "0" "9" c.

Lemma lowered_valid c : is_ascii_uppercase c = true -> name_char (to_ascii_lowercase c) = true.
Proof. destruct c as [[] [] [] [] [] [] [] []]; by vm_compute. Qed.

Lemma kept_valid c :
  is_ascii_alphanumeric c || Ascii.eqb c "_" || Ascii.eqb c ":" = true -> name_char c = true.
Proof. destruct c as [[] [] [] [] [] [] [] []]; by vm_compute. Qed.

Lemma sanitize_loop_valid name : forall b p, str_forall name_char (sanitize_loop b p name).
Proof.
  induction name as [|c name IH]; intros b p; [constructor|]. cbn [sanitize_loop].
  destruct (Ascii.eqb c "."); [by apply str_forall_cons|].
  destruct (is_ascii_uppercase c) eqn:Hu.
  - pose proof (proj2 (str_forall_cons name_char (to_ascii_lowercase c) (sanitize_loop true (Some c) name))
      (conj (lowered_valid c Hu) (IH _ _))) as Hl.
    destruct (_ && _ && _); [by apply str_forall_cons|done].
  - destruct (is_ascii_alphanumeric c || _ || _) eqn:Ha; apply str_forall_cons; (split; [|apply IH]); [by apply kept_valid|done].
Qed.


(** Shutting down a waiting task pushes the metrics once more, as they are. *)
Theorem shutdown_pushes_final_metrics (t t' : TaskState unit string) (after : list TaskEvent)
    (Hwaiting : ts_phase t = Waiting) (Hquiet : Forall quiet after)
    (Hsome : collect_metrics_text (ts_registry t) <> EmptyString)
    (Hrun : push_task_run t (EvClose :: after) = Some t') (Hexit : ts_phase t' = Exited) :
  exists o rest, ts_sent t' = (collect_metrics_text (ts_registry t), o) :: rest.
Proof.
  unfold push_task_run in Hrun. cbn [task_run task_step mbind option_bind] in Hrun.
  set (t1 := mkTask _ _ true _ _ _) in Hrun.
  assert (Hcl : closing push_beat (ts_registry t) t1) by (split; [done|done|]; unfold t1; cbn; by rewrite Hwaiting).
  destruct (closing_run _ _ _ _ _ Hquiet Hcl Hrun) as [_ _ Hp]. rewrite Hexit in Hp.
  destruct Hp as (l & p & Hbeat & Hsent). unfold push_beat in Hbeat.
  destruct (String.eqb_spec (collect_metrics_text (ts_registry t)) EmptyString); [done|].
  injection Hbeat as _ <-. by apply Hsent.
Qed.
