(* ===== verification/ReplicaPlan.v ===== *)
(** * Replica planning for writes (src/src/io/replica_write.rs)

    How many writers a block gets and which workers may host them.  The two
    floating-point comparisons use the standard library's executable IEEE 754
    arithmetic, [f64] as binary64 and [f32] as binary32. *)

From Stdlib Require Import SpecFloat.
From S2P Require Import Prelude Errors Proto.

Record ReplicaWritePlan : Type := mkReplicaWritePlan {
  rp_initial_replicas : Z;
  rp_min_needed_replicas : Z;
  rp_max_retry_node : Z;
}.

Definition replica_write_plan (async_through : bool) (replication_number replication_durable
    replication_durable_min write_max_node_retry : Z) : result Error ReplicaWritePlan :=
  let replication_number := Z.max replication_number 1 in
  let replication_durable := Z.max replication_durable 1 in
  let replication_durable_min := Z.max replication_durable_min 1 in
  let write_max_node_retry := Z.max write_max_node_retry 1 in
  let initial := if async_through && (replication_number <? replication_durable)
                 then replication_durable else replication_number in
  let min_needed := if async_through then replication_durable_min else initial in
  if async_through && (initial <? min_needed) then
    Err (InvalidArgument "min durable replicas can not be satisfied in ASYNC_THROUGH scenario")
  else Ok (mkReplicaWritePlan initial min_needed (Z.max initial write_max_node_retry)).

(** ** Floating point *)

Definition f64_of_i64 (x : Z) : spec_float := binary_normalize 53 1024 x 0 false.
Definition f32_of_i64 (x : Z) : spec_float := binary_normalize 24 128 x 0 false.
Definition f64_sub : spec_float -> spec_float -> spec_float := SFsub 53 1024.
Definition f64_mul : spec_float -> spec_float -> spec_float := SFmul 53 1024.
Definition f64_div : spec_float -> spec_float -> spec_float := SFdiv 53 1024.
Definition f32_div : spec_float -> spec_float -> spec_float := SFdiv 24 128.

(** [x.ceil() as i64]: rounds up; the cast saturates and sends a NaN to 0. *)
Definition f64_ceil_as_i64 (x : spec_float) : Z :=
  match x with
  | S754_zero _ | S754_nan => 0
  | S754_infinity s => if s then - i64_max - 1 else i64_max
  | S754_finite s m e =>
      let v := if s then Z.neg m else Z.pos m in
      let c := if 0 <=? e then v * 2 ^ e else - (- v / 2 ^ (- e)) in
      Z.max (- i64_max - 1) (Z.min c i64_max)
  end.

Definition f64_one : spec_float := f64_of_i64 1.

(** The literal [0.1]. *)
Definition f64_tenth : spec_float := f64_div f64_one (f64_of_i64 10).

Definition cache_min_ratio (raw : spec_float) : spec_float :=
  if negb (SFleb (f64_of_i64 0) raw && SFltb raw f64_one) then f64_tenth else raw.

(** ** Worker filters *)

Definition worker_has_persist_space (worker : WorkerInfo) (min_remain_bytes : Z)
    (min_remain_ratio cache_min_ratio : spec_float) : bool :=
  if default false (wi_forbid_write worker) then false
  else
    let capacity := default 0 (wi_capacity_bytes worker) in
    if capacity <=? 0 then false
    else
      let persist_capacity :=
        f64_ceil_as_i64 (f64_mul (f64_of_i64 capacity) (f64_sub f64_one cache_min_ratio)) in
      if persist_capacity <=? 0 then false
      else
        let persist_used := default 0 (wi_persist_used_bytes worker) in
        let remain_bytes := i64_add persist_capacity (- persist_used) in
        (min_remain_bytes <=? remain_bytes)
        && SFleb min_remain_ratio (f32_div (f32_of_i64 remain_bytes) (f32_of_i64 persist_capacity)).

Definition filter_no_space_workers (workers : list WorkerInfo) (allow_fallback : bool)
    (min_needed min_remain_bytes : Z) (min_remain_ratio cache_min_ratio : spec_float)
  : list WorkerInfo :=
  match workers with
  | [] => []
  | _ =>
      let available := List.filter (fun w => negb (default false (wi_forbid_write w))) workers in
      let has_space := List.filter (fun w => worker_has_persist_space w min_remain_bytes
                                               min_remain_ratio cache_min_ratio) available in
      if allow_fallback && (zlen has_space <? min_needed) then available else has_space
  end.

Definition degrade_replicas (async_through : bool) (initial min_needed alive : Z) : Z * Z :=
  if alive <? initial then (alive, if negb async_through then alive else min_needed)
  else (initial, min_needed).

Definition saturating_sub (a b : Z) : Z := Z.max 0 (a - b).

Definition should_abort_remaining (failures writer_size min_needed : Z) : bool :=
  saturating_sub writer_size min_needed <? failures.

Definition enough_replicas (success min_needed : Z) : bool := min_needed <=? success.

(** ** Properties *)

(** The plan asks for at least one writer, needs no more than it asks for, and looks
    at enough candidates for it. *)
Lemma replica_write_plan_bounds async_through number durable durable_min retry plan :
  replica_write_plan async_through number durable durable_min retry = Ok plan ->
  1 <= rp_min_needed_replicas plan <= rp_initial_replicas plan /\
  rp_initial_replicas plan <= rp_max_retry_node plan.
Proof.
  unfold replica_write_plan. cbn zeta.
  set (i := if _ && (Z.max number 1 <? Z.max durable 1) then _ else _). assert (Hi : 1 <= i) by (unfold i; destruct (_ && _); lia).
  destruct async_through; cbn [andb].
  - destruct (Z.ltb_spec i (Z.max durable_min 1)); [done|]. intros [= <-]. cbn. lia.
  - intros [= <-]. cbn. lia.
Qed.

(** No worker that forbids writes is selected, whatever its space. *)
Lemma filter_no_space_sub workers fallback min_needed bytes ratio cache_ratio w :
  w ∈ filter_no_space_workers workers fallback min_needed bytes ratio cache_ratio ->
  w ∈ workers /\ default false (wi_forbid_write w) = false.
Proof.
  unfold filter_no_space_workers. destruct workers as [|w0 ws]; [by intros ?%elem_of_nil|].
  set (av := List.filter _ (w0 :: ws)). set (hs := List.filter _ av).
  assert (Hav : w ∈ av -> w ∈ w0 :: ws /\ default false (wi_forbid_write w) = false).
  { unfold av. rewrite !list_elem_of_In, filter_In, negb_true_iff. done. }
  destruct (_ && _); [done|]. intros Hw. apply Hav. unfold hs in Hw.
  rewrite list_elem_of_In, filter_In in Hw. rewrite list_elem_of_In. tauto.
Qed.

(** Aborting the rest early never gives up a write that could still succeed: once it
    happens, fewer than the needed replicas can be left. *)
Lemma abort_is_final failures writer_size min_needed :
  0 <= failures <= writer_size -> min_needed <= writer_size ->
  should_abort_remaining failures writer_size min_needed = true <->
  enough_replicas (writer_size - failures) min_needed = false.
Proof.
  unfold should_abort_remaining, enough_replicas, saturating_sub. intros Hf Hm.
  rewrite Z.ltb_lt, Z.leb_gt. lia.
Qed.
