(* ===== verification/BlockWriter.v ===== *)
(** * Block writers (src/src/io/writer.rs and the block half of file_writer.rs)

    Writing is a dialogue with workers and the master.  Every message is an effect
    the environment answers; the world keeps the effects and their answers, so that
    what a worker received on a stream can be read off it.  The environment may
    answer as it likes, depending on everything before. *)

From S2P Require Import Prelude Text Errors Proto HashRing ReplicaPlan.

(** ** Effects *)

Inductive RequestType : Type := GoosefsBlock | UfsFile.

Record CreateUfsFileOptions : Type := mkCreateUfsFileOptions {
  cu_ufs_path : option string;
  cu_owner : option string;
  cu_group : option string;
  cu_mode : option Z;
  cu_mount_id : option Z;
}.

Record WriteBlockOptions : Type := mkWriteBlockOptions {
  wb_request_type : RequestType;
  wb_create_ufs_file_options : option CreateUfsFileOptions;
  wb_async_write : bool;
}.

Inductive WriteRequest : Type :=
| ReqChunk (data : bytes)
| ReqFlush.

Record FileLocation : Type := mkFileLocation {
  fl_block_id : Z;
  fl_offset : Z;
  fl_length : Z;
  fl_worker_id : list Z;
}.

Record CompleteFileOptions : Type := mkCompleteFileOptions {
  cf_ufs_length : Z;
  cf_operation_id : Z * Z;
  cf_locations : list FileLocation;
  cf_async_persist_wait : option Z;
  cf_force_persisted : option bool;
  cf_inode_id : option Z;
  cf_crc_type : Z;
  cf_crc_value : Z;
}.

(** Streams are numbered in the order they are opened.  [EvDrop] is a stream handle
    dropped without [close] or [cancel], which aborts its task. *)
Inductive Effect : Type :=
| EvAcquire (addr : string)
| EvOpen (h : nat) (addr : string) (block_id space : Z) (options : WriteBlockOptions)
| EvSend (h : nat) (req : WriteRequest)
| EvAck (h : nat)
| EvClose (h : nat)
| EvCancel (h : nat)
| EvDrop (h : nat)
| EvInvalidateWorker (addr : string)
| EvCreateFile
| EvCommitLocation (block_id : Z) (loc : FileLocation)
| EvCompleteFile (options : CompleteFileOptions)
| EvRemoveBlocks (ids : list Z)
| EvDelete (goosefs_only : bool)
| EvReloadStatus
| EvInvalidateFileInfo.

Abbreviation Answer := (result Error unit).
Abbreviation Trace := (list (Effect * Answer)).

(** The latest effect comes first. *)
Record World : Type := mkWorld {
  w_trace : Trace;
  w_next : nat;
}.

(** Answers, the clock, and the draws of random choices. *)
Record WriteEnv : Type := mkWriteEnv {
  env_answer : Trace -> Effect -> Answer;
  env_now : Trace -> Z;
  env_choose : Trace -> nat -> nat;
}.

(** ** Effectful computations *)

Definition IO (A : Type) : Type := World -> World * A.

Definition io_ret {A : Type} (a : A) : IO A := fun w => (w, a).

Definition io_bind {A B : Type} (m : IO A) (k : A -> IO B) : IO B :=
  fun w => let '(w, a) := m w in k a w.

Notation "'let!' x := m 'in' k" := (io_bind m (fun x => k))
  (at level 10, x name, m at level 100, k at level 200) : goose_scope.

(** The [?] operator. *)
Notation "'try!' x := m 'in' k" :=
  (io_bind m (fun r => match r with Ok x => k | Err e => io_ret (Err e) end))
  (at level 10, x name, m at level 100, k at level 200) : goose_scope.

(** The answer of a loop that its bound stops; the bounds below are never reached. *)
Definition write_out_of_fuel : Error := Internal "unbounded loop" None.

Section Writers.
Context (env : WriteEnv).

Definition attempt (e : Effect) : IO Answer :=
  fun w => let r := env_answer env (w_trace w) e in (mkWorld ((e, r) :: w_trace w) (w_next w), r).

(** An effect whose answer the code does not look at. *)
Definition perform (e : Effect) : IO unit := let! _ := attempt e in io_ret tt.

Definition now : IO Z := fun w => (w, env_now env (w_trace w)).

Fixpoint io_each {A : Type} (f : A -> IO unit) (l : list A) : IO unit :=
  match l with
  | [] => io_ret tt
  | x :: l => let! _ := f x in io_each f l
  end.

(** ** One block stream *)

Record GrpcBlockWriter : Type := mkGrpcBlockWriter {
  gw_block_id : Z;
  gw_bytes_written : Z;
  gw_handle : nat;
}.

Definition writer_open (addr : string) (block_id space_to_reserve : Z) (options : WriteBlockOptions)
  : IO (result Error GrpcBlockWriter) :=
  fun w =>
    let h := w_next w in
    (try! _ := attempt (EvOpen h addr block_id space_to_reserve options) in
     io_ret (Ok (mkGrpcBlockWriter block_id 0 h))) (mkWorld (w_trace w) (S h)).

Definition send_failed (what : string) (block_id : Z) : Error :=
  BlockIoError (what +:+ " channel closed for block_id=" +:+ show_Z block_id).

Definition writer_write_chunk (g : GrpcBlockWriter) (data : bytes)
  : IO (result Error GrpcBlockWriter) :=
  let! sent := attempt (EvSend (gw_handle g) (ReqChunk data)) in
  io_ret (match sent with
          | Err _ => Err (send_failed "write" (gw_block_id g))
          | Ok _ => Ok (mkGrpcBlockWriter (gw_block_id g) (gw_bytes_written g + zlen data)
                          (gw_handle g))
          end).

(** [write_all]'s loop; on an error the writer is the one before the failed chunk. *)
Fixpoint write_all_loop (fuel : nat) (g : GrpcBlockWriter) (data : bytes) (offset chunk_size : Z)
  : IO (GrpcBlockWriter * Answer) :=
  if offset <? zlen data then
    match fuel with
    | O => io_ret (g, Err write_out_of_fuel)
    | S fuel =>
        let end_ := Z.min (offset + chunk_size) (zlen data) in
        let! r := writer_write_chunk g (slice offset end_ data) in
        match r with
        | Err e => io_ret (g, Err e)
        | Ok g => write_all_loop fuel g data end_ chunk_size
        end
    end
  else io_ret (g, Ok tt).

Definition writer_write_all (g : GrpcBlockWriter) (data : bytes) (chunk_size : Z)
  : IO (GrpcBlockWriter * Answer) :=
  write_all_loop (length data) g data 0 chunk_size.

(** The acknowledged offset is not used by any caller. *)
Definition writer_flush (g : GrpcBlockWriter) : IO Answer :=
  let! sent := attempt (EvSend (gw_handle g) ReqFlush) in
  match sent with
  | Err _ => io_ret (Err (send_failed "flush" (gw_block_id g)))
  | Ok _ => attempt (EvAck (gw_handle g))
  end.

Definition writer_close (g : GrpcBlockWriter) : IO Answer := attempt (EvClose (gw_handle g)).

Definition writer_cancel (g : GrpcBlockWriter) : IO unit := perform (EvCancel (gw_handle g)).

(** ** The replicas of a block *)

Record ReplicaWriter : Type := mkReplicaWriter {
  rw_ordinal : Z;
  rw_writer : GrpcBlockWriter;
  rw_worker_id : Z;
  rw_worker_addr : string;
  rw_net_address : WorkerNetAddress;
}.

Definition rw_handle (r : ReplicaWriter) : nat := gw_handle (rw_writer r).

Definition set_writer (r : ReplicaWriter) (g : GrpcBlockWriter) : ReplicaWriter :=
  mkReplicaWriter (rw_ordinal r) g (rw_worker_id r) (rw_worker_addr r) (rw_net_address r).

Definition cancel_all (rs : list ReplicaWriter) : IO unit :=
  io_each (fun r => writer_cancel (rw_writer r)) rs.

Record ActiveBlockWriter : Type := mkActiveBlockWriter {
  aw_replicas : list ReplicaWriter;
  aw_block_id : Z;
  aw_block_size : Z;
  aw_bytes_written : Z;
  aw_pending_chunk : bytes;
  aw_parallel : bool;
  aw_min_needed : Z;
}.

Definition active_remaining (a : ActiveBlockWriter) : Z := aw_block_size a - aw_bytes_written a.

Definition file_location (a : ActiveBlockWriter) (block_offset : Z) : option FileLocation :=
  match aw_replicas a with
  | [] => None
  | rs => Some (mkFileLocation (aw_block_id a) block_offset (aw_bytes_written a)
                  (map rw_worker_id rs))
  end.

Definition set_replicas (a : ActiveBlockWriter) (rs : list ReplicaWriter) : ActiveBlockWriter :=
  mkActiveBlockWriter rs (aw_block_id a) (aw_block_size a) (aw_bytes_written a)
    (aw_pending_chunk a) (aw_parallel a) (aw_min_needed a).

Definition set_pending (a : ActiveBlockWriter) (b : bytes) : ActiveBlockWriter :=
  mkActiveBlockWriter (aw_replicas a) (aw_block_id a) (aw_block_size a) (aw_bytes_written a)
    b (aw_parallel a) (aw_min_needed a).

Definition set_written (a : ActiveBlockWriter) (n : Z) : ActiveBlockWriter :=
  mkActiveBlockWriter (aw_replicas a) (aw_block_id a) (aw_block_size a) n
    (aw_pending_chunk a) (aw_parallel a) (aw_min_needed a).

(** One chunk to each replica in turn.  The first failure cancels that replica and
    those before it; the ones after it are dropped. *)
Fixpoint send_sequential (rs kept : list ReplicaWriter) (data : bytes)
  : IO (result Error (list ReplicaWriter)) :=
  match rs with
  | [] => io_ret (Ok kept)
  | r :: rs =>
      let! sent := writer_write_chunk (rw_writer r) data in
      match sent with
      | Ok g => send_sequential rs (kept ++ [set_writer r g]) data
      | Err e =>
          let! _ := writer_cancel (rw_writer r) in
          let! _ := cancel_all kept in
          let! _ := io_each (fun r => perform (EvDrop (rw_handle r))) rs in
          io_ret (Err e)
      end
  end.

Inductive ReplicaOp : Type :=
| RepWrite (data : bytes)
| RepFlush.

Definition replica_op (op : ReplicaOp) (r : ReplicaWriter) : IO (result Error ReplicaWriter) :=
  match op with
  | RepWrite data => try! g := writer_write_chunk (rw_writer r) data in io_ret (Ok (set_writer r g))
  | RepFlush => try! _ := writer_flush (rw_writer r) in io_ret (Ok r)
  end.

(** What becomes of a task that [abort_all] finds unfinished. *)
Inductive AbortFate : Type := AbortedBefore | AbortedAfter | Finished.

Definition abort_fate (aborting : bool) : IO AbortFate :=
  fun w => (w, if aborting then
                 match env_choose env (w_trace w) 3 with
                 | 0%nat => AbortedBefore
                 | 1%nat => AbortedAfter
                 | _ => Finished
                 end
               else Finished).

(** The spawned tasks, in some order of completion: those that succeeded and the number
    that failed, each of which cancels its stream.  Once too many have failed the rest
    are aborted, which drops their streams, before or after their message went out;
    some may have finished already. *)
Fixpoint join_replicas (op : ReplicaOp) (writer_size min_needed : Z) (rs kept : list ReplicaWriter)
    (failures : Z) : IO (list ReplicaWriter * Z) :=
  match rs with
  | [] => io_ret (kept, failures)
  | r :: rs =>
      let! fate := abort_fate (should_abort_remaining failures writer_size min_needed) in
      match fate with
      | AbortedBefore =>
          let! _ := perform (EvDrop (rw_handle r)) in
          join_replicas op writer_size min_needed rs kept (failures + 1)
      | _ =>
          let! done_ := replica_op op r in
          match done_, fate with
          | Ok _, AbortedAfter =>
              let! _ := perform (EvDrop (rw_handle r)) in
              join_replicas op writer_size min_needed rs kept (failures + 1)
          | Ok r, _ => join_replicas op writer_size min_needed rs (kept ++ [r]) failures
          | Err _, _ =>
              let! _ := writer_cancel (rw_writer r) in
              join_replicas op writer_size min_needed rs kept (failures + 1)
          end
      end
  end.

Definition not_enough_writers (writer_size min_needed : Z) : Error :=
  ResourceExhausted ("Failed to write enough replicas. dataWriters size: " +:+ show_Z writer_size
                     +:+ ", Required: " +:+ show_Z min_needed).

Definition not_enough_successes (success min_needed block_id : Z) : Error :=
  ResourceExhausted ("Failed to write enough replicas. Success: " +:+ show_Z success
                     +:+ ", Required: " +:+ show_Z min_needed
                     +:+ " (block_id=" +:+ show_Z block_id +:+ ")").

(** Returns the replicas that are left as well as the result. *)
Definition fanout_parallel (replicas : list ReplicaWriter) (min_needed block_id : Z) (op : ReplicaOp)
  : IO (list ReplicaWriter * Answer) :=
  let writer_size := zlen replicas in
  if writer_size <? min_needed then
    io_ret (replicas, Err (not_enough_writers writer_size min_needed))
  else
    let! joined := join_replicas op writer_size min_needed replicas [] 0 in
    let kept := sort_by_key rw_ordinal (fst joined) in
    if negb (enough_replicas (zlen kept) min_needed) then
      let! _ := cancel_all kept in
      io_ret ([], Err (not_enough_successes (saturating_sub writer_size (snd joined)) min_needed
                         block_id))
    else io_ret (kept, Ok tt).

Definition no_replicas_left (block_id : Z) : Error :=
  BlockIoError ("no replica writers left for block_id=" +:+ show_Z block_id).

Definition active_write_chunk (a : ActiveBlockWriter) (data : bytes)
  : IO (ActiveBlockWriter * Answer) :=
  match aw_replicas a with
  | [] => io_ret (a, Err (no_replicas_left (aw_block_id a)))
  | rs =>
      if aw_parallel a && (1 <? zlen rs) then
        let! out := fanout_parallel rs (aw_min_needed a) (aw_block_id a) (RepWrite data) in
        io_ret (set_replicas a (fst out), snd out)
      else
        let! out := send_sequential rs [] data in
        io_ret (match out with
                | Ok kept => (set_replicas a kept, Ok tt)
                | Err e => (set_replicas a [], Err e)
                end)
  end.

Fixpoint flush_each (rs : list ReplicaWriter) : IO Answer :=
  match rs with
  | [] => io_ret (Ok tt)
  | r :: rs => try! _ := writer_flush (rw_writer r) in flush_each rs
  end.

Definition flush_replicas (a : ActiveBlockWriter) : IO (ActiveBlockWriter * Answer) :=
  match aw_replicas a with
  | [] => io_ret (a, Ok tt)
  | rs =>
      if aw_parallel a && (1 <? zlen rs) then
        let! out := fanout_parallel rs (aw_min_needed a) (aw_block_id a) RepFlush in
        io_ret (set_replicas a (fst out), snd out)
      else let! r := flush_each rs in io_ret (a, r)
  end.

(** Every replica is closed; the first error is the result. *)
Fixpoint close_each (rs : list ReplicaWriter) (first_err : option Error) : IO Answer :=
  match rs with
  | [] => io_ret (match first_err with Some e => Err e | None => Ok tt end)
  | r :: rs =>
      let! closed := writer_close (rw_writer r) in
      close_each rs (match first_err, closed with
                     | None, Err e => Some e
                     | _, _ => first_err
                     end)
  end.

Definition close_replicas (a : ActiveBlockWriter) : IO Answer := close_each (aw_replicas a) None.

Definition cancel_replicas (a : ActiveBlockWriter) : IO unit := cancel_all (aw_replicas a).

(** ** Coalescing into chunks *)

(** Returns the pending buffer, the rest of the input and the chunk that was filled. *)
Definition take_completed_pending (pending incoming : bytes) (chunk_size : Z)
  : bytes * bytes * option bytes :=
  match pending with
  | [] => ([], incoming, None)
  | _ =>
      let need := chunk_size - zlen pending in
      if zlen incoming <? need then (pending ++ incoming, [], None)
      else ([], slice need (zlen incoming) incoming, Some (pending ++ slice 0 need incoming))
  end.

Fixpoint emit_loop (fuel : nat) (a : ActiveBlockWriter) (src : bytes) (offset chunk_size : Z)
  : IO (ActiveBlockWriter * Answer) :=
  if offset + chunk_size <=? zlen src then
    match fuel with
    | O => io_ret (a, Err write_out_of_fuel)
    | S fuel =>
        let! out := active_write_chunk a (slice offset (offset + chunk_size) src) in
        match snd out with
        | Err e => io_ret (fst out, Err e)
        | Ok _ => emit_loop fuel (fst out) src (offset + chunk_size) chunk_size
        end
    end
  else if offset <? zlen src then
    io_ret (set_pending a (aw_pending_chunk a ++ slice offset (zlen src) src), Ok tt)
  else io_ret (a, Ok tt).

Definition emit_aligned_chunks (a : ActiveBlockWriter) (incoming : bytes) (chunk_size : Z)
  : IO (ActiveBlockWriter * Answer) :=
  if chunk_size =? 0 then io_ret (a, Err (InvalidArgument "chunk_size must be > 0"))
  else
    let '(pending, src, full) := take_completed_pending (aw_pending_chunk a) incoming chunk_size in
    let a := set_pending a pending in
    match full with
    | Some chunk =>
        let! out := active_write_chunk a chunk in
        match snd out with
        | Err e => io_ret (fst out, Err e)
        | Ok _ => emit_loop (length src) (fst out) src 0 chunk_size
        end
    | None => emit_loop (length src) a src 0 chunk_size
    end.
End Writers.
