(* ===== verification/WriteStream.v ===== *)
(** * Write streams (src/src/client/worker.rs, [WriteBlockHandle] and [write_block])

    The bidirectional [WriteBlock] call behind a block writer: the caller's request channel,
    the background task that drives the call and forwards the worker's responses over a
    channel of eight, and the handle with [recv_response], [close], [cancel] and its [Drop].
    Caller, task and worker take steps in any order; the worker is free, except that it
    ends a call without an error only after it has seen the end of the requests
    ([worker_waits]). *)

From S2P Require Import Prelude Text Errors BlockWriter.

(** The first message of a stream, or one of the caller's. *)
Inductive StreamMessage : Type :=
| StreamCommand (type : RequestType) (id space_to_reserve : Z) (ufs : option CreateUfsFileOptions) (async_write : bool)
| StreamRequest (r : WriteRequest).

Definition REQUEST_CHANNEL : nat := 32.
Definition RESPONSE_CHANNEL : nat := 8.

(** The acknowledged offset of a [WriteResponse]. *)
Abbreviation Response := (result Status Z).

(** The background task: before the response headers, between messages, with a message to
    forward, [last] when the loop ends with it, and at its end. *)
Inductive StreamTask : Type :=
| TaskCalling
| TaskForwarding
| TaskHolding (r : Response) (last : bool)
| TaskFinished
| TaskPanicked
| TaskAborted.

(** The handle: in use, draining and joining in [close], or gone. *)
Inductive HandleState : Type :=
| HandleOpen
| HandleDraining
| HandleJoining (last_err : option Status)
| HandleClosed (r : result Error unit)
| HandleDropped.

(** [ss_given] is what the caller sent, [ss_received] what the worker has, [ss_said] what the
    worker answered and [ss_got] what the caller or [close] has seen of it.  [ss_timed_out]:
    [close] gave up on the task. *)
Record StreamState : Type := mkStreamState {
  ss_tx : bool;
  ss_queue : list WriteRequest;
  ss_task : StreamTask;
  ss_responses : list Response;
  ss_handle : HandleState;
  ss_given : list WriteRequest;
  ss_received : list StreamMessage;
  ss_end_seen : bool;
  ss_said : list Response;
  ss_got : list Response;
  ss_timed_out : bool;
}.

Section Stream.
Context (show_status : Status -> string) (block_id space_to_reserve : Z) (options : WriteBlockOptions).

(** The states in which the worker may complete the call. *)
Context (completes : StreamState -> Prop) (worker_waits : forall s, completes s -> ss_end_seen s = true).

Definition initial_command : StreamMessage :=
  StreamCommand (wb_request_type options) block_id space_to_reserve (wb_create_ufs_file_options options)
    (wb_async_write options).

(** [write_block]: the handle is there at once, the call runs in the task. *)
Definition write_block : StreamState := mkStreamState true [] TaskCalling [] HandleOpen [] [] false [] [] false.

Definition server_error (st : Status) : Error :=
  GrpcError ("WriteBlock server error for block_id=" +:+ show_Z block_id +:+ ": " +:+ show_status st) st.

Definition ended_abnormally (join_error : string) : Error :=
  Internal ("WriteBlock background task ended abnormally for block_id=" +:+ show_Z block_id +:+ ": " +:+ join_error) None.

(** The call is in flight: the worker can read requests and answer. *)
Definition call_runs (t : StreamTask) : bool :=
  match t with TaskCalling | TaskForwarding | TaskHolding _ false => true | _ => false end.

Definition task_over (t : StreamTask) : bool :=
  match t with TaskFinished | TaskPanicked | TaskAborted => true | _ => false end.

(** The receiver goes with the handle. *)
Definition receiver_alive (h : HandleState) : bool :=
  match h with HandleOpen | HandleDraining | HandleJoining _ => true | HandleClosed _ | HandleDropped => false end.

Definition set_task (t : StreamTask) (s : StreamState) : StreamState :=
  let 'mkStreamState tx q _ rs h g rc e sd gt to := s in mkStreamState tx q t rs h g rc e sd gt to.
Definition set_handle (h : HandleState) (s : StreamState) : StreamState :=
  let 'mkStreamState tx q t rs _ g rc e sd gt to := s in mkStreamState tx q t rs h g rc e sd gt to.

(** The worker answers; the task has the answer in hand. *)
Definition answer_with (r : Response) (last : bool) (s : StreamState) : StreamState :=
  let 'mkStreamState tx q _ rs h g rc e sd gt to := s in
  mkStreamState tx q (TaskHolding r last) rs h g rc e (sd ++ [r]) gt to.

(** The next response is taken from the channel. *)
Definition take_response (r : Response) (rest : list Response) (s : StreamState) : StreamState :=
  let 'mkStreamState tx q t _ h g rc e sd gt to := s in mkStreamState tx q t rest h g rc e sd (gt ++ [r]) to.

(** [cancel] and [Drop]: the task is aborted, the channels are dropped. *)
Definition abort_task (t : StreamTask) : StreamTask := if task_over t then t else TaskAborted.

Definition drop_handle (s : StreamState) : StreamState :=
  let 'mkStreamState _ q t _ _ g rc e sd gt to := s in
  mkStreamState false q (abort_task t) [] HandleDropped g rc e sd gt to.

(** [recv_response]; [None] while it waits. *)
Definition recv_response (s : StreamState) : option (StreamState * result Error (option Z)) :=
  match ss_responses s with
  | Ok offset :: rest => Some (take_response (Ok offset) rest s, Ok (Some offset))
  | Err st :: rest => Some (take_response (Err st) rest s, Err (server_error st))
  | [] => if task_over (ss_task s) then Some (s, Ok None) else None
  end.

(** [close] up to its first wait. *)
Definition begin_close (s : StreamState) : StreamState :=
  let 'mkStreamState _ q t rs _ g rc e sd gt to := s in mkStreamState false q t rs HandleDraining g rc e sd gt to.

(** A turn of the drain; [None] while it waits. *)
Definition drain (s : StreamState) : option StreamState :=
  match ss_responses s with
  | Ok offset :: rest => Some (take_response (Ok offset) rest s)
  | Err st :: rest => Some (set_handle (HandleJoining (Some st)) (take_response (Err st) rest s))
  | [] => if task_over (ss_task s) then Some (set_handle (HandleJoining None) s) else None
  end.

Definition close_result (last_err : option Status) : result Error unit :=
  match last_err with Some st => Err (server_error st) | None => Ok tt end.

(** The join: what it meets, or the timeout. *)
Definition join (last_err : option Status) (join_error : string) (s : StreamState) : StreamState :=
  match ss_task s with
  | TaskFinished => set_handle (HandleClosed (close_result last_err)) s
  | TaskPanicked | TaskAborted =>
      set_handle (HandleClosed (match last_err with
                                | Some st => Err (server_error st)
                                | None => Err (ended_abnormally join_error)
                                end)) s
  | _ =>
      let 'mkStreamState tx q t rs _ g rc e sd gt _ := s in
      mkStreamState tx q t rs (HandleClosed (close_result last_err)) g rc e sd gt true
  end.

Inductive stream_step (s : StreamState) : StreamState -> Prop :=
| StepSend m :
    ss_handle s = HandleOpen -> ss_tx s = true -> call_runs (ss_task s) = true ->
    (length (ss_queue s) < REQUEST_CHANNEL)%nat ->
    stream_step s (let 'mkStreamState tx q t rs h g rc e sd gt to := s in
                   mkStreamState tx (q ++ [m]) t rs h (g ++ [m]) rc e sd gt to)
| StepReceiveFirst :
    call_runs (ss_task s) = true -> ss_received s = [] ->
    stream_step s (let 'mkStreamState tx q t rs h g _ e sd gt to := s in
                   mkStreamState tx q t rs h g [initial_command] e sd gt to)
| StepReceive m q :
    call_runs (ss_task s) = true -> ss_received s <> [] -> ss_queue s = m :: q ->
    stream_step s (let 'mkStreamState tx _ t rs h g rc e sd gt to := s in
                   mkStreamState tx q t rs h g (rc ++ [StreamRequest m]) e sd gt to)
| StepReceiveEnd :
    call_runs (ss_task s) = true -> ss_received s <> [] -> ss_queue s = [] -> ss_tx s = false ->
    stream_step s (let 'mkStreamState tx q t rs h g rc _ sd gt to := s in
                   mkStreamState tx q t rs h g rc true sd gt to)
| StepHeaders : ss_task s = TaskCalling -> stream_step s (set_task TaskForwarding s)
| StepRefuse st : ss_task s = TaskCalling -> stream_step s (answer_with (Err st) true s)
| StepMessage offset : ss_task s = TaskForwarding -> stream_step s (answer_with (Ok offset) false s)
| StepError st : ss_task s = TaskForwarding -> stream_step s (answer_with (Err st) true s)
| StepEnd : ss_task s = TaskForwarding -> completes s -> stream_step s (set_task TaskFinished s)
| StepForward r last :
    ss_task s = TaskHolding r last -> receiver_alive (ss_handle s) = true ->
    (length (ss_responses s) < RESPONSE_CHANNEL)%nat ->
    stream_step s (let 'mkStreamState tx q _ rs h g rc e sd gt to := s in
                   mkStreamState tx q (if last then TaskFinished else TaskForwarding) (rs ++ [r]) h g rc e sd gt to)
| StepForwardLost r last :
    ss_task s = TaskHolding r last -> receiver_alive (ss_handle s) = false -> stream_step s (set_task TaskFinished s)
| StepPanic : task_over (ss_task s) = false -> stream_step s (set_task TaskPanicked s)
| StepRecv s' r : ss_handle s = HandleOpen -> recv_response s = Some (s', r) -> stream_step s s'
| StepBeginClose : ss_handle s = HandleOpen -> stream_step s (begin_close s)
| StepDrain s' : ss_handle s = HandleDraining -> drain s = Some s' -> stream_step s s'
| StepJoin last_err join_error : ss_handle s = HandleJoining last_err -> stream_step s (join last_err join_error s)
| StepDrop : ss_handle s = HandleOpen \/ ss_handle s = HandleDraining -> stream_step s (drop_handle s).

(** ** Invariant *)

(** The response the task has in hand. *)
Definition held (t : StreamTask) : list Response := match t with TaskHolding r _ => [r] | _ => [] end.

Definition failed (l : list Response) : Prop := exists st, Err st ∈ l.

(** Requests reach the worker in order, the command first; the end is seen after all of them. *)
Record requests_inv (s : StreamState) : Prop := {
  in_requests : ss_received s = [] /\ ss_queue s = ss_given s \/
    exists sent, ss_received s = initial_command :: map StreamRequest sent /\ ss_given s = sent ++ ss_queue s;
  in_end : ss_end_seen s = true -> ss_queue s = [] /\ ss_received s <> [] /\ ss_tx s = false;
  in_tx : ss_handle s <> HandleOpen -> ss_tx s = false;
}.

(** Responses reach the caller in order, all of them while the receiver is there and the task
    does not panic; the task ends by itself after an error or after the end of the requests. *)
Record responses_inv (s : StreamState) : Prop := {
  in_prefix : exists lost, ss_said s = ss_got s ++ ss_responses s ++ lost;
  in_order : receiver_alive (ss_handle s) = true -> ss_task s <> TaskPanicked ->
    ss_said s = ss_got s ++ ss_responses s ++ held (ss_task s);
  in_errors : failed (ss_got s ++ ss_responses s) -> task_over (ss_task s) = true;
  in_held : forall r last, ss_task s = TaskHolding r last -> last = match r with Ok _ => false | Err _ => true end;
  in_finished : ss_task s = TaskFinished -> receiver_alive (ss_handle s) = true ->
    ss_end_seen s = true \/ failed (ss_got s ++ ss_responses s);
}.

(** What the stages of [close] and a dropped handle know of the task. *)
Definition handle_inv (s : StreamState) : Prop :=
  ss_timed_out s = false /\
  match ss_handle s with
  | HandleOpen | HandleDraining => ss_task s <> TaskAborted
  | HandleJoining last_err =>
      task_over (ss_task s) = true /\ ss_task s <> TaskAborted /\
      match last_err with Some st => Err st ∈ ss_got s | None => ss_responses s = [] end
  | HandleClosed r =>
      task_over (ss_task s) = true /\
      match r with
      | Ok _ => ss_said s = ss_got s /\ (ss_end_seen s = true \/ failed (ss_got s))
      | Err _ => True
      end
  | HandleDropped => task_over (ss_task s) = true
  end.

Lemma failed_app l k : failed (l ++ k) <-> failed l \/ failed k.
Proof. unfold failed. setoid_rewrite elem_of_app. naive_solver. Qed.

Lemma failed_one r : failed [r] <-> exists st, r = Err st.
Proof. unfold failed. setoid_rewrite list_elem_of_singleton. naive_solver. Qed.

Lemma recv_response_cases s s' a :
  recv_response s = Some (s', a) ->
  s' = s \/ exists r rest, ss_responses s = r :: rest /\ s' = take_response r rest s.
Proof.
  unfold recv_response. destruct (ss_responses s) as [|[] rest]; [case_match|..]; intros [= <- <-]; eauto.
Qed.

Lemma drain_cases s s' :
  drain s = Some s' ->
  (ss_responses s = [] /\ task_over (ss_task s) = true /\ s' = set_handle (HandleJoining None) s) \/
  (exists offset rest, ss_responses s = Ok offset :: rest /\ s' = take_response (Ok offset) rest s) \/
  (exists st rest, ss_responses s = Err st :: rest /\
                   s' = set_handle (HandleJoining (Some st)) (take_response (Err st) rest s)).
Proof.
  unfold drain. destruct (ss_responses s) as [|[] rest]; [case_match|..]; intros [= <-]; eauto 6.
Qed.

(** Requests do not depend on the task and the responses, and only [HandleOpen] matters of the
    handle. *)
Lemma requests_inv_irrelevant s s' :
  ss_tx s' = ss_tx s -> ss_queue s' = ss_queue s -> ss_given s' = ss_given s -> ss_received s' = ss_received s ->
  ss_end_seen s' = ss_end_seen s -> (ss_handle s = HandleOpen -> ss_handle s' = HandleOpen) ->
  requests_inv s -> requests_inv s'.
Proof.
  intros E1 E2 E3 E4 E5 Eh [H1 H2 H3].
  constructor; rewrite ?E1, ?E2, ?E3, ?E4, ?E5; [done..|]. intros Hn. apply H3. by intros ?%Eh.
Qed.

Lemma requests_inv_shut s s' :
  ss_tx s' = false -> ss_queue s' = ss_queue s -> ss_given s' = ss_given s -> ss_received s' = ss_received s ->
  ss_end_seen s' = ss_end_seen s -> requests_inv s -> requests_inv s'.
Proof.
  intros E1 E2 E3 E4 E5 [H1 H2 H3].
  constructor; rewrite ?E1, ?E2, ?E3, ?E4, ?E5; [done| |done]. intros He. by destruct (H2 He) as (? & ? & _).
Qed.

Lemma requests_inv_step s s' : requests_inv s -> stream_step s s' -> requests_inv s'.
Proof.
  intros HI Hstep. pose proof HI as [H1 H2 H3]. destruct s as [tx q t rs h g rc e sd gt to].
  destruct Hstep; cbn in *; subst.
  all: try (by eapply requests_inv_irrelevant, HI).
  all: try (by eapply requests_inv_shut, HI).
  - constructor; cbn; [|intros He; by destruct (H2 He) as (_ & _ & [=])|done].
    destruct H1 as [[-> ->]|(sent & -> & ->)]; [by left|right]. exists sent. by rewrite app_assoc.
  - constructor; cbn; [right|intros He; by destruct (H2 He) as (_ & ? & _)|done].
    exists []. by destruct H1 as [[_ ->]|(? & [=] & _)].
  - constructor; cbn; [right|intros He; by destruct (H2 He) as ([=] & _)|done].
    destruct H1 as [[-> _]|(sent & -> & ->)]; [done|]. exists (sent ++ [m]). by rewrite map_app, <- app_assoc.
  - by constructor.
  - apply recv_response_cases in H0 as [->|(r' & rest & Hr & ->)]; [done|by eapply requests_inv_irrelevant, HI].
  - apply drain_cases in H0 as [(_ & _ & ->)|[(o & rest & _ & ->)|(st & rest & _ & ->)]];
      by eapply requests_inv_irrelevant, HI.
  - by destruct t; eapply requests_inv_irrelevant, HI.
Qed.

(** Moving a response from the channel to the caller. *)
Lemma responses_inv_take s r rest :
  ss_responses s = r :: rest -> responses_inv s -> responses_inv (take_response r rest s).
Proof.
  intros Hr [(lost & H1) H2 H3 H4 H5]. destruct s as [tx q t rs h g rc e sd gt to]. cbn in *. subst rs.
  constructor; cbn.
  - exists lost. rewrite H1. by rewrite <- !app_assoc.
  - intros Ha Hp. rewrite (H2 Ha Hp). by rewrite <- !app_assoc.
  - by rewrite <- app_assoc.
  - done.
  - by rewrite <- app_assoc.
Qed.

(** A response in hand, said last. *)
Lemma responses_inv_answer s r :
  call_runs (ss_task s) = true -> held (ss_task s) = [] -> responses_inv s ->
  responses_inv (answer_with r (match r with Ok _ => false | Err _ => true end) s).
Proof.
  intros Hc Hl [(lost & H1) H2 H3 H4 H5]. destruct s as [tx q t rs h g rc e sd gt to]. cbn in *.
  constructor; cbn.
  - exists (lost ++ [r]). by rewrite H1, <- !app_assoc.
  - intros Ha _. rewrite H2; [|done|by intros ->]. by rewrite Hl, app_nil_r, app_assoc.
  - intros Hf. specialize (H3 Hf). by destruct t.
  - intros ?? [= <- <-]. done.
  - done.
Qed.

Lemma responses_inv_forward s r last :
  ss_task s = TaskHolding r last -> receiver_alive (ss_handle s) = true -> responses_inv s ->
  responses_inv (let 'mkStreamState tx q _ rs h g rc e sd gt to := s in
                 mkStreamState tx q (if last then TaskFinished else TaskForwarding) (rs ++ [r]) h g rc e sd gt to).
Proof.
  intros Ht Ha [_ H2 H3 H4 H5]. destruct s as [tx q t rs h g rc e sd gt to]. cbn in *. subst t.
  specialize (H2 Ha ltac:(done)). specialize (H4 _ _ eq_refl). cbn in H2.
  constructor; cbn.
  - exists []. by rewrite app_nil_r.
  - intros _ _. rewrite H2. by destruct last; cbn; rewrite app_nil_r.
  - rewrite app_assoc, failed_app, failed_one. intros [Hf|(st & ->)]; [by apply H3 in Hf|by subst last].
  - by destruct last.
  - destruct last; [|done]. intros _ _. right. rewrite app_assoc, failed_app, failed_one. right.
    destruct r; [done|eauto].
Qed.

(** Steps that touch neither the responses nor the task. *)
Lemma responses_inv_irrelevant s s' :
  ss_said s' = ss_said s -> ss_got s' = ss_got s -> ss_responses s' = ss_responses s -> ss_task s' = ss_task s ->
  (ss_end_seen s = true -> ss_end_seen s' = true) ->
  (receiver_alive (ss_handle s') = true -> receiver_alive (ss_handle s) = true) ->
  responses_inv s -> responses_inv s'.
Proof.
  intros E1 E2 E3 E4 He Ha [H1 H2 H3 H4 H5]. constructor; rewrite ?E1, ?E2, ?E3, ?E4; try done.
  - auto.
  - intros Ht Hr. destruct (H5 Ht (Ha Hr)); auto.
Qed.

(** The task goes on to [t] with nothing in hand. *)
Lemma responses_inv_task t s :
  held t = [] -> held (ss_task s) = [] \/ receiver_alive (ss_handle s) = false \/ t = TaskPanicked ->
  task_over (ss_task s) = false ->
  (t = TaskFinished -> ss_end_seen s = true \/ receiver_alive (ss_handle s) = false) ->
  responses_inv s -> responses_inv (set_task t s).
Proof.
  intros Ht Hs Ho Hf [H1 H2 H3 H4 H5]. destruct s as [tx q t0 rs h g rc e sd gt to]. cbn in *. constructor; cbn; try done.
  - intros Ha Hp. rewrite Ht. destruct Hs as [Hs|[Hs|Hs]]; [|congruence..].
    rewrite <- Hs. apply H2; [done|]. by intros ->.
  - intros Hr%H3. congruence.
  - intros r last ->. done.
  - intros He Ha. destruct (Hf He); [by left|congruence].
Qed.

Lemma responses_inv_drop s : responses_inv s -> responses_inv (drop_handle s).
Proof.
  intros [[lost H1] H2 H3 H4 H5]. destruct s as [tx q t rs h g rc e sd gt to]. cbn in *. constructor; cbn; try done.
  - by exists (rs ++ lost).
  - intros _. by destruct t.
  - intros r last. by destruct t.
Qed.

Lemma responses_inv_step s s' : responses_inv s -> stream_step s s' -> responses_inv s'.
Proof.
  intros HI Hstep. destruct Hstep.
  - by destruct s; eapply responses_inv_irrelevant, HI.
  - by destruct s; eapply responses_inv_irrelevant, HI.
  - by destruct s; eapply responses_inv_irrelevant, HI.
  - by destruct s; eapply responses_inv_irrelevant, HI.
  - apply responses_inv_task; rewrite ?H; auto; done.
  - apply (responses_inv_answer _ (Err _)); by rewrite ?H.
  - apply (responses_inv_answer _ (Ok _)); by rewrite ?H.
  - apply (responses_inv_answer _ (Err _)); by rewrite ?H.
  - apply responses_inv_task; rewrite ?H; auto.
  - by apply responses_inv_forward.
  - apply responses_inv_task; rewrite ?H; auto.
  - apply responses_inv_task; auto; done.
  - apply recv_response_cases in H0 as [->|(? & ? & ? & ->)]; [done|by apply responses_inv_take].
  - destruct s; eapply responses_inv_irrelevant, HI; cbn in *; by subst.
  - apply drain_cases in H0 as [(? & ? & ->)|[(? & ? & ? & ->)|(? & ? & ? & ->)]].
    + destruct s; eapply responses_inv_irrelevant, HI; cbn in *; by subst.
    + by apply responses_inv_take.
    + apply (responses_inv_take _ _ _ H0) in HI.
      destruct s; eapply responses_inv_irrelevant, HI; cbn in *; by subst.
  - destruct s as [? ? t]; destruct t; eapply responses_inv_irrelevant, HI; cbn in *; by subst.
  - by apply responses_inv_drop.
Qed.

(** The join finds the task over: [close] never gives up on it. *)
Lemma handle_inv_join s last_err join_error :
  ss_handle s = HandleJoining last_err -> handle_inv s -> responses_inv s ->
  handle_inv (join last_err join_error s).
Proof.
  intros Hh HI [_ H2 _ _ H5]. destruct s as [tx q t rs h g rc e sd gt to]. unfold handle_inv in *. cbn in *. subst h.
  destruct HI as (-> & Hov & Hna & Hl). destruct t; cbn in *; try done.
  - split; [done|]. destruct last_err as [st|]; cbn in *; [done|]. subst rs. split; [done|].
    specialize (H2 eq_refl ltac:(done)). specialize (H5 eq_refl eq_refl). rewrite !app_nil_r in *. done.
  - by destruct last_err.
Qed.

(** A running task has a handle in use. *)
Lemma running_handle s :
  handle_inv s -> task_over (ss_task s) = false -> ss_handle s = HandleOpen \/ ss_handle s = HandleDraining.
Proof. intros [_ HI] Ho. destruct (ss_handle s); rewrite ?Ho in HI; first [tauto|naive_solver]. Qed.

(** What a running task does keeps the handle's part. *)
Lemma handle_inv_running s s' :
  task_over (ss_task s) = false -> ss_timed_out s' = ss_timed_out s -> ss_handle s' = ss_handle s ->
  ss_task s' <> TaskAborted -> handle_inv s -> handle_inv s'.
Proof.
  intros Ho E1 E2 Ht HI. destruct (running_handle s HI Ho) as [Eh|Eh]; destruct HI as [H _]; split;
    rewrite ?E1, ?E2, ?Eh; done.
Qed.

Lemma call_running t : call_runs t = true -> task_over t = false.
Proof. by destruct t. Qed.

Lemma handle_inv_drain s s' :
  ss_handle s = HandleDraining -> drain s = Some s' -> handle_inv s -> responses_inv s -> handle_inv s'.
Proof.
  intros Hh Hd [H HI] HR. rewrite Hh in HI.
  apply drain_cases in Hd as [(E & Ho & ->)|[(? & ? & E & ->)|(st & rest & E & ->)]];
    destruct s as [? qu t rs h ? ? ? ? gt ?]; unfold handle_inv in *; cbn in *; subst; try done.
  split; [done|]. split; [|split; [done|]].
  - apply (in_errors _ HR). exists st. cbn. set_solver.
  - set_solver.
Qed.

Lemma handle_inv_step s s' : handle_inv s -> responses_inv s -> stream_step s s' -> handle_inv s'.
Proof.
  intros HI HR Hstep. destruct Hstep.
  all: try (by apply handle_inv_join).
  all: try (by eapply handle_inv_drain).
  all: try (apply recv_response_cases in H0 as [->|(? & ? & ? & ->)]; [done|]).
  all: destruct s as [? qu t rs h ? ? ? ? ? ?].
  all: try (eapply handle_inv_running, HI; cbn in *; subst; 
            first [done|by apply call_running|by intros ->|by match goal with b : bool |- _ => destruct b end]; fail).
  all: unfold handle_inv in *; cbn in *; subst; destruct HI as [-> HI]; try done.
  split; [done|]. by destruct t.
Qed.

Definition stream_inv (s : StreamState) : Prop := requests_inv s /\ responses_inv s /\ handle_inv s.

Lemma stream_inv_initial : stream_inv write_block.
Proof.
  split; [|split]; [constructor|constructor|split]; cbn; try done; [by left|by exists []|].
  intros [st H]. by apply elem_of_nil in H.
Qed.

Lemma stream_inv_reachable s : rtc stream_step write_block s -> stream_inv s.
Proof.
  intros Hr. pose proof stream_inv_initial as HI. revert HI. induction Hr as [|x y z Hxy _ IH]; [done|].
  intros (H1 & H2 & H3). apply IH. split; [|split].
  - by eapply requests_inv_step.
  - by eapply responses_inv_step.
  - by eapply handle_inv_step.
Qed.

(** C1. A write stream and its close, for any interleaving of the caller, the background task and
    the worker: the worker receives the command and then the caller's requests in order; the
    caller is given the worker's responses in order; once the handle is closed, cancelled or
    dropped the task has ended, and [close] never gives up waiting for it; and a [close] that
    returns [Ok] means that the worker received every request and every response was given, or
    that an error had already been given to the caller. *)
Theorem write_stream_delivers s :
  rtc stream_step write_block s ->
  (ss_received s = [] \/ exists sent rest, ss_received s = initial_command :: map StreamRequest sent /\
                                          ss_given s = sent ++ rest) /\
  (exists lost, ss_said s = ss_got s ++ lost) /\
  (receiver_alive (ss_handle s) = false -> task_over (ss_task s) = true) /\
  ss_timed_out s = false /\
  (ss_handle s = HandleClosed (Ok tt) ->
   ss_said s = ss_got s /\
   ((exists st, Err st ∈ ss_got s) \/ ss_received s = initial_command :: map StreamRequest (ss_given s))).
Proof.
  intros ([H1 H2 H3] & [(lost & H4) _ _ _ _] & [H5 H6])%stream_inv_reachable. repeat split; try done.
  - destruct H1 as [[? _]|(sent & ? & ?)]; eauto 6.
  - rewrite H4. eauto.
  - destruct (ss_handle s); try done. by destruct H6.
  - rewrite H in H6. by destruct H6 as (_ & ? & _).
  - rewrite H in H6. destruct H6 as (_ & _ & [He|Hf]); [right|by left].
    destruct (H2 He) as (Hq & Hn & _). destruct H1 as [[? _]|(sent & -> & ->)]; [done|]. by rewrite Hq, app_nil_r.
Qed.
End Stream.

(** ** Runs *)

Definition demo_options : WriteBlockOptions := mkWriteBlockOptions GoosefsBlock None false.
Definition demo_completes (s : StreamState) : Prop := ss_end_seen s = true.
Abbreviation demo_step := (stream_step (fun _ => "status"%string) 7 64 demo_options demo_completes).

(** A chunk and a flush are sent, read and acknowledged, and the stream is closed. *)
Definition demo_closed : StreamState :=
  let command := initial_command 7 64 demo_options in
  let sent := [ReqChunk [1; 2; 3]; ReqFlush] in
  mkStreamState false [] TaskFinished [] (HandleClosed (Ok tt)) sent (command :: map StreamRequest sent) true
    [Ok 3] [Ok 3] false.

Tactic Notation "stream_turn" open_constr(r) :=
  eapply rtc_l; [eapply r; cbn; unfold REQUEST_CHANNEL, RESPONSE_CHANNEL; first [reflexivity|lia|done]|cbn].

Lemma demo_run : rtc demo_step write_block demo_closed.
Proof.
  unfold write_block.
  stream_turn (StepSend (fun _ => "status"%string) 7 64 demo_options demo_completes _ (ReqChunk [1; 2; 3])).
  stream_turn (StepSend (fun _ => "status"%string) 7 64 demo_options demo_completes _ ReqFlush).
  stream_turn StepReceiveFirst. stream_turn StepReceive. stream_turn StepReceive.
  stream_turn StepHeaders.
  stream_turn (StepMessage (fun _ => "status"%string) 7 64 demo_options demo_completes _ 3).
  stream_turn StepForward. stream_turn StepRecv. stream_turn StepBeginClose.
  stream_turn StepReceiveEnd. stream_turn StepEnd. stream_turn StepDrain.
  stream_turn (StepJoin (fun _ => "status"%string) 7 64 demo_options demo_completes _ None "").
  apply rtc_refl.
Qed.

Lemma write_stream_delivers_witness :
  ss_said demo_closed = ss_got demo_closed /\
  ((exists st, Err st ∈ ss_got demo_closed) \/
   ss_received demo_closed = initial_command 7 64 demo_options :: map StreamRequest (ss_given demo_closed)).
Proof.
  apply (write_stream_delivers (fun _ => "status"%string) 7 64 demo_options demo_completes).
  - intros s H. exact H.
  - exact demo_run.
  - reflexivity.
Defined.

(** [close] answers [Ok] when the error of the stream has already been taken by
    [recv_response]. *)
Example close_after_reported_error st :
  exists s, rtc demo_step write_block s /\ ss_handle s = HandleClosed (Ok tt) /\ ss_got s = [Err st] /\
            ss_received s = [].
Proof.
  eexists. split; [unfold write_block|].
  - stream_turn (StepRefuse (fun _ => "status"%string) 7 64 demo_options demo_completes _ st).
    stream_turn StepForward. stream_turn StepRecv. stream_turn StepBeginClose. stream_turn StepDrain.
    stream_turn (StepJoin (fun _ => "status"%string) 7 64 demo_options demo_completes _ None "").
    apply rtc_refl.
  - done.
Qed.
