(* ===== verification/BlockWriterFacts.v ===== *)
(** * Block writers: lemmas

    What a worker received on a stream, which effects leave a stream alone, and what
    the operations on a block's replicas do to the streams they hold. *)

From S2P Require Import Prelude Text Errors Proto HashRing ReplicaPlan BlockWriter.

(** ** Reading the trace *)

(** The chunks sent on stream [h], in order, and their bytes. *)
Fixpoint chunks (h : nat) (tr : Trace) : list bytes :=
  match tr with
  | [] => []
  | (EvSend h' (ReqChunk d), Ok _) :: tr =>
      if decide (h' = h) then chunks h tr ++ [d] else chunks h tr
  | _ :: tr => chunks h tr
  end.

Definition received (h : nat) (w : World) : bytes := mjoin (chunks h (w_trace w)).

Definition happened (e : Effect) (w : World) : Prop := (e, Ok tt) ∈ w_trace w.

(** Stream [h] was opened for a block (or for the UFS file). *)
Definition opened (h : nat) (block_id : Z) (ty : RequestType) (w : World) : Prop :=
  exists addr space options, happened (EvOpen h addr block_id space options) w /\
    wb_request_type options = ty.

(** Time passes: effects are only added, and only streams in [P] get data. *)
Record extends (P : nat -> Prop) (w w' : World) : Prop := {
  ex_next : (w_next w <= w_next w')%nat;
  ex_mono : forall e, e ∈ w_trace w -> e ∈ w_trace w';
  ex_sent : forall h, ~ P h -> chunks h (w_trace w') = chunks h (w_trace w);
}.

Lemma extends_refl P w : extends P w w.
Proof. by split. Qed.

Lemma extends_trans (P Q R : nat -> Prop) w1 w2 w3 :
  (forall h, P h -> R h) -> (forall h, Q h -> R h) ->
  extends P w1 w2 -> extends Q w2 w3 -> extends R w1 w3.
Proof.
  intros HP HQ [Hn1 Hm1 Hs1] [Hn2 Hm2 Hs2]. split; [lia|auto|].
  intros h Hh. rewrite Hs2 by auto. by apply Hs1; auto.
Qed.

Lemma extends_step (P : nat -> Prop) w1 w2 w3 :
  extends P w1 w2 -> extends P w2 w3 -> extends P w1 w3.
Proof. by apply extends_trans. Qed.

Lemma extends_weaken (P R : nat -> Prop) w1 w2 :
  (forall h, P h -> R h) -> extends P w1 w2 -> extends R w1 w2.
Proof. intros HP [Hn Hm Hs]. split; [done|done|]. auto. Qed.

Lemma happened_extends P e w w' : extends P w w' -> happened e w -> happened e w'.
Proof. intros [_ Hm _]. apply Hm. Qed.

Lemma opened_extends P h id ty w w' : extends P w w' -> opened h id ty w -> opened h id ty w'.
Proof.
  intros Hx (addr & space & options & Ho & Ht). exists addr, space, options.
  split; [by eapply happened_extends|done].
Qed.

(** An effect that is not a chunk changes no stream's data. *)
Definition not_chunk (e : Effect) : Prop :=
  match e with EvSend _ (ReqChunk _) => False | _ => True end.

Abbreviation quiet := (fun _ : nat => False).
Abbreviation handles := (map rw_handle).

Section Facts.
Context (env : WriteEnv).

Lemma attempt_spec e w w' r :
  attempt env e w = (w', r) ->
  w_next w' = w_next w /\ (not_chunk e -> extends quiet w w') /\ (r = Ok tt -> happened e w').
Proof.
  unfold attempt, happened. intros [= <- <-]. cbn. split; [done|]. split.
  - intros He. split; cbn; [lia|by constructor 2|]. intros h _. destruct e; try done.
    by destruct req.
  - intros ->. by constructor 1.
Qed.

Lemma attempt_quiet e w w' r : not_chunk e -> attempt env e w = (w', r) -> extends quiet w w'.
Proof. intros He (_ & Hx & _)%attempt_spec. auto. Qed.

Lemma perform_quiet e w w' u : not_chunk e -> perform env e w = (w', u) -> extends quiet w w'.
Proof.
  intros He. unfold perform, io_bind, io_ret. destruct (attempt env e w) as [w1 r] eqn:H.
  intros [= <- _]. by eapply attempt_quiet.
Qed.

Lemma each_quiet {A : Type} (f : A -> IO unit) l w w' u :
  (forall x w w' u, f x w = (w', u) -> extends quiet w w') -> io_each f l w = (w', u) ->
  extends quiet w w'.
Proof.
  intros Hf. revert w. induction l as [|x l IH]; intros w; cbn [io_each].
  - intros [= <- _]. apply extends_refl.
  - unfold io_bind. destruct (f x w) as [w1 u1] eqn:Hx. intros H.
    eapply extends_step; [by eapply Hf|by apply IH].
Qed.

Lemma cancel_quiet g w w' u : writer_cancel env g w = (w', u) -> extends quiet w w'.
Proof. by apply perform_quiet. Qed.

Lemma cancel_all_quiet rs w w' u : cancel_all env rs w = (w', u) -> extends quiet w w'.
Proof. apply each_quiet. intros r. apply cancel_quiet. Qed.

Lemma drop_all_quiet rs w w' u :
  io_each (fun r => perform env (EvDrop (rw_handle r))) rs w = (w', u) -> extends quiet w w'.
Proof. apply each_quiet. intros r w1 w1' u1. by apply perform_quiet. Qed.

Lemma writer_open_spec addr id space options w w' r :
  writer_open env addr id space options w = (w', r) ->
  extends quiet w w' /\ w_next w' = S (w_next w) /\
  (forall g, r = Ok g -> gw_handle g = w_next w /\ gw_block_id g = id /\
     opened (w_next w) id (wb_request_type options) w').
Proof.
  unfold writer_open, io_bind, io_ret. cbn zeta.
  destruct (attempt env _ _) as [w1 r1] eqn:H. apply attempt_spec in H as (Hn & Hx & Hok).
  cbn in Hn. intros Heq. assert (w' = w1) as -> by (destruct r1; by injection Heq).
  specialize (Hx I). destruct Hx as [_ Hm Hs]. cbn in Hm, Hs.
  split; [split; [lia|exact Hm|exact Hs]|]. split; [done|].
  intros g ->. destruct r1 as [[]|]; [|done]. injection Heq as <-.
  split; [done|]. split; [done|]. exists addr, space, options. split; [by apply Hok|done].
Qed.

Lemma write_chunk_spec g data w w' r :
  writer_write_chunk env g data w = (w', r) ->
  extends (eq (gw_handle g)) w w' /\ w_next w' = w_next w /\
  (forall g', r = Ok g' -> gw_handle g' = gw_handle g /\
     chunks (gw_handle g) (w_trace w') = chunks (gw_handle g) (w_trace w) ++ [data]).
Proof.
  unfold writer_write_chunk, io_bind, io_ret, attempt. intros [= <- <-]. cbn. split.
  - split; cbn; [lia|by constructor 2|]. intros h Hne. destruct (env_answer _ _ _); [|done].
    by rewrite decide_False.
  - split; [done|]. intros g'. destruct (env_answer _ _ _); [|done]. intros [= <-].
    by rewrite decide_True.
Qed.

Lemma flush_spec g w w' r : writer_flush env g w = (w', r) ->
  extends quiet w w' /\ w_next w' = w_next w.
Proof.
  unfold writer_flush, io_bind. destruct (attempt env _ w) as [w1 r1] eqn:H1.
  apply attempt_spec in H1 as (Hn1 & Hx1 & _). specialize (Hx1 I). destruct r1.
  - intros H2. apply attempt_spec in H2 as (Hn2 & Hx2 & _). specialize (Hx2 I).
    split; [|lia]. by eapply extends_step.
  - unfold io_ret. by intros [= <- _].
Qed.

Lemma close_spec g w w' r : writer_close env g w = (w', r) ->
  extends quiet w w' /\ w_next w' = w_next w /\ (r = Ok tt -> happened (EvClose (gw_handle g)) w').
Proof.
  intros H. apply attempt_spec in H as (Hn & Hx & Hok). split; [by apply Hx|]. done.
Qed.

(** ** Replicas *)

Definition op_data (op : ReplicaOp) : list bytes :=
  match op with RepWrite data => [data] | RepFlush => [] end.

(** The streams [hs] got the chunks [cs]. *)
Definition got (hs : list nat) (cs : list bytes) (w w' : World) : Prop :=
  forall h, h ∈ hs -> chunks h (w_trace w') = chunks h (w_trace w) ++ cs.

Lemma got_after (P : nat -> Prop) hs cs w1 w2 w3 :
  (forall h, h ∈ hs -> ~ P h) -> got hs cs w1 w2 -> extends P w2 w3 -> got hs cs w1 w3.
Proof. intros Hd Hg [_ _ Hs] h Hh. rewrite Hs by auto. by apply Hg. Qed.

Lemma got_before (P : nat -> Prop) hs cs w1 w2 w3 :
  (forall h, h ∈ hs -> ~ P h) -> extends P w1 w2 -> got hs cs w2 w3 -> got hs cs w1 w3.
Proof. intros Hd [_ _ Hs] Hg h Hh. rewrite Hg by done. by rewrite Hs by auto. Qed.

Lemma got_quiet hs w w' : extends quiet w w' -> got hs [] w w'.
Proof. intros [_ _ Hs] h _. rewrite app_nil_r. apply Hs. tauto. Qed.

Lemma send_sequential_spec rs kept data w w' out :
  NoDup (handles rs) -> send_sequential env rs kept data w = (w', out) ->
  extends (fun h => h ∈ handles rs) w w' /\
  (forall kept', out = Ok kept' -> handles kept' = handles kept ++ handles rs /\
     got (handles rs) [data] w w').
Proof.
  revert kept w. induction rs as [|r rs IH]; intros kept w Hnd; cbn [send_sequential].
  { intros [= <- <-]. split; [apply extends_refl|]. intros kept' [= <-].
    split; [by rewrite app_nil_r|]. by intros h ?%elem_of_nil. }
  cbn in Hnd. apply NoDup_cons in Hnd as [Hr Hnd]. unfold io_bind at 1.
  destruct (writer_write_chunk env (rw_writer r) data w) as [w1 [g|e]] eqn:H1;
    apply write_chunk_spec in H1 as (Hx1 & _ & Hok1).
  - intros H2. destruct (Hok1 g eq_refl) as [Hg Hsent].
    destruct (IH _ _ Hnd H2) as [Hx2 Hok2]. split.
    { eapply extends_trans; [..|exact Hx1|exact Hx2]; cbn; set_solver. }
    intros kept' Hk. destruct (Hok2 kept' Hk) as [Heq Hgot].
    rewrite Heq, map_app, <- app_assoc. cbn. unfold rw_handle at 2. cbn. rewrite Hg.
    split; [done|]. intros h [->|Hh]%elem_of_cons.
    + destruct Hx2 as [_ _ Hs2]. rewrite Hs2 by done. exact Hsent.
    + rewrite Hgot by done. destruct Hx1 as [_ _ Hs1]. rewrite Hs1; [done|].
      intros Heqh. subst h. done.
  - unfold io_bind. destruct (writer_cancel env _ w1) as [w2 u2] eqn:H2.
    destruct (cancel_all env kept w2) as [w3 u3] eqn:H3.
    destruct (io_each _ rs w3) as [w4 u4] eqn:H4. intros [= <- <-]. split; [|done].
    apply cancel_quiet in H2. apply cancel_all_quiet in H3. apply drop_all_quiet in H4.
    assert (Hq : extends quiet w1 w4) by (eapply extends_step; [done|]; by eapply extends_step).
    eapply extends_trans; [..|exact Hx1|exact Hq]; cbn; [set_solver|done].
Qed.

Lemma replica_op_spec op r w w' out :
  replica_op env op r w = (w', out) ->
  extends (eq (rw_handle r)) w w' /\
  (forall r', out = Ok r' -> rw_handle r' = rw_handle r /\ got [rw_handle r] (op_data op) w w').
Proof.
  destruct op as [data|]; cbn [replica_op]; unfold io_bind, io_ret.
  - destruct (writer_write_chunk env _ data w) as [w1 [g|e]] eqn:H;
      apply write_chunk_spec in H as (Hx & _ & Hok); intros [= <- <-]; (split; [done|]); [|done].
    intros r' [= <-]. destruct (Hok g eq_refl) as [Hg Hs]. split; [done|].
    by intros h ->%list_elem_of_singleton.
  - destruct (writer_flush env _ w) as [w1 [g|e]] eqn:H; apply flush_spec in H as [Hx _];
      intros [= <- <-]; (split; [by apply (extends_weaken quiet)|]); [|done].
    intros r' [= <-]. split; [done|]. by apply got_quiet.
Qed.

(** A replica that is lost on the way: what the others got is not affected. *)
Lemma join_lost op r rs w w1 w' sub :
  rw_handle r ∉ handles rs -> extends (eq (rw_handle r)) w w1 ->
  extends (fun h => h ∈ handles rs) w1 w' -> sub `sublist_of` handles rs -> got sub (op_data op) w1 w' ->
  extends (fun h => h ∈ handles (r :: rs)) w w' /\ sub `sublist_of` handles (r :: rs) /\
  got sub (op_data op) w w'.
Proof.
  intros Hr Hx1 Hx2 Hsub Hgot.
  assert (Hin : forall h, h ∈ sub -> h ∈ handles rs) by (intros h Hh; by apply (elem_of_sublist _ _ _ Hh)).
  split; [eapply extends_trans; [..|exact Hx1|exact Hx2]; cbn; set_solver|].
  split; [by apply sublist_cons|].
  eapply got_before; [|exact Hx1|exact Hgot]. intros h' Hh' <-. by apply Hr, Hin.
Qed.

Lemma join_replicas_spec op size m rs kept n w w' kept' n' :
  NoDup (handles rs) -> join_replicas env op size m rs kept n w = (w', (kept', n')) ->
  extends (fun h => h ∈ handles rs) w w' /\
  exists sub, handles kept' = handles kept ++ sub /\ sub `sublist_of` handles rs /\
    got sub (op_data op) w w'.
Proof.
  revert kept n w. induction rs as [|r rs IH]; intros kept n w Hnd; cbn [join_replicas].
  { intros [= <- <- <-]. split; [apply extends_refl|]. exists []. rewrite app_nil_r.
    split; [done|]. split; [done|]. by intros h ?%elem_of_nil. }
  cbn in Hnd. apply NoDup_cons in Hnd as [Hr Hnd].
  assert (Hlost : forall w1 n1, extends (eq (rw_handle r)) w w1 ->
    join_replicas env op size m rs kept n1 w1 = (w', (kept', n')) ->
    extends (fun h => h ∈ handles (r :: rs)) w w' /\
    exists sub, handles kept' = handles kept ++ sub /\ sub `sublist_of` handles (r :: rs) /\
      got sub (op_data op) w w').
  { intros w1 n1 Hx1 H. destruct (IH _ _ _ Hnd H) as (Hx2 & sub & Heq & Hsub & Hgot).
    destruct (join_lost op r rs w w1 w' sub Hr Hx1 Hx2 Hsub Hgot) as (H1 & H2 & H3). eauto. }
  unfold io_bind at 1, abort_fate at 1. set (fate := if should_abort_remaining _ _ _ then _ else _).
  assert (Hdrop : forall w1 n1, extends (eq (rw_handle r)) w w1 ->
    (let! _ := perform env (EvDrop (rw_handle r)) in join_replicas env op size m rs kept n1) w1 =
      (w', (kept', n')) -> exists w2, extends (eq (rw_handle r)) w w2 /\
      join_replicas env op size m rs kept n1 w2 = (w', (kept', n'))).
  { intros w1 n1 Hx1. unfold io_bind. destruct (perform env _ w1) as [w2 u2] eqn:H2. intros H3.
    apply perform_quiet in H2; [|done]. exists w2. split; [|done].
    eapply extends_trans; [..|exact Hx1|exact H2]; done. }
  destruct fate.
  1: intros (w2 & Hx2 & H3)%(Hdrop w _ (extends_refl _ _)); by eapply Hlost.
  all: unfold io_bind at 1; destruct (replica_op env op r w) as [w1 [r1|e]] eqn:H1;
    apply replica_op_spec in H1 as [Hx1 Hok1].
  - intros (w2 & Hx2 & H3)%(Hdrop _ _ Hx1). by eapply Hlost.
  - unfold io_bind. destruct (writer_cancel env _ w1) as [w2 u2] eqn:H2. apply cancel_quiet in H2.
    apply Hlost. eapply extends_trans; [..|exact Hx1|exact H2]; done.
  - intros H2. destruct (Hok1 r1 eq_refl) as [Hg Hgot1].
    destruct (IH _ _ _ Hnd H2) as (Hx2 & sub & Heq & Hsub & Hgot2). split.
    { eapply extends_trans; [..|exact Hx1|exact Hx2]; cbn; set_solver. }
    exists (rw_handle r :: sub). rewrite Heq, map_app, <- app_assoc. cbn. rewrite Hg.
    split; [done|]. split; [by apply sublist_skip|].
    assert (Hin : forall h, h ∈ sub -> h ∈ handles rs) by (intros h Hh; by apply (elem_of_sublist _ _ _ Hh)).
    intros h [->|Hh]%elem_of_cons.
    + eapply got_after; [|exact Hgot1|exact Hx2|]; set_solver.
    + eapply got_before; [|exact Hx1|exact Hgot2|done]. intros h' Hh' <-. by apply Hr, Hin.
  - unfold io_bind. destruct (writer_cancel env _ w1) as [w2 u2] eqn:H2. apply cancel_quiet in H2.
    apply Hlost. eapply extends_trans; [..|exact Hx1|exact H2]; done.
Qed.

Lemma fanout_spec rs min_needed id op w w' rs' r :
  NoDup (handles rs) -> fanout_parallel env rs min_needed id op w = (w', (rs', r)) ->
  extends (fun h => h ∈ handles rs) w w' /\ NoDup (handles rs') /\ handles rs' ⊆ handles rs /\
  (r = Ok tt -> min_needed <= zlen rs' /\ got (handles rs') (op_data op) w w').
Proof.
  intros Hnd. unfold fanout_parallel.
  destruct (Z.ltb_spec (zlen rs) min_needed).
  { intros [= <- <- <-]. split; [apply extends_refl|]. by split. }
  unfold io_bind at 1. destruct (join_replicas env op (zlen rs) min_needed rs [] 0 w) as [w1 [kept n]] eqn:Hj.
  destruct (join_replicas_spec _ _ _ _ _ _ _ _ _ _ Hnd Hj) as (Hx & sub & Heq & Hsub & Hgot).
  cbn in Heq. cbn [fst snd]. set (sorted := sort_by_key rw_ordinal kept).
  assert (Hperm : handles sorted ≡ₚ sub).
  { rewrite <- Heq. apply Permutation_map, sort_by_key_perm. }
  destruct (negb _) eqn:Henough.
  - unfold io_bind. destruct (cancel_all env sorted w1) as [w2 u] eqn:Hc. intros [= <- <- <-].
    apply cancel_all_quiet in Hc. split; [by eapply extends_trans; [..|exact Hx|exact Hc]|].
    split; [constructor|]. split; [set_solver|done].
  - intros [= <- <- <-]. split; [done|]. split; [rewrite Hperm; by eapply sublist_NoDup|].
    split; [intros h; rewrite Hperm; intros Hh; by eapply elem_of_sublist|].
    intros _. apply negb_false_iff in Henough. apply Z.leb_le in Henough. split; [done|].
    intros h Hh. apply Hgot. by rewrite <- Hperm.
Qed.

(** ** The active block *)

(** A step that may lose replicas but keeps the rest of the block's state. *)
Record active_step (a a' : ActiveBlockWriter) (cs : list bytes) (w w' : World) (r : Answer)
  : Prop := {
  as_extends : extends (fun h => h ∈ handles (aw_replicas a)) w w';
  as_nodup : NoDup (handles (aw_replicas a'));
  as_sub : handles (aw_replicas a') ⊆ handles (aw_replicas a);
  as_same : a' = set_replicas a (aw_replicas a');
  as_ok : r = Ok tt -> got (handles (aw_replicas a')) cs w w' /\
    (aw_min_needed a <= zlen (aw_replicas a) -> aw_min_needed a <= zlen (aw_replicas a'));
}.

Lemma set_replicas_self a : set_replicas a (aw_replicas a) = a.
Proof. by destruct a. Qed.

Lemma active_write_chunk_spec a data w w' a' r :
  NoDup (handles (aw_replicas a)) -> active_write_chunk env a data w = (w', (a', r)) ->
  active_step a a' [data] w w' r.
Proof.
  intros Hnd. unfold active_write_chunk.
  destruct (aw_replicas a) as [|r0 rs0] eqn:Hrs.
  { intros [= <- <- <-]. split; rewrite ?Hrs; [apply extends_refl|done|done| |done].
    by rewrite <- Hrs, set_replicas_self. }
  rewrite <- Hrs in *. destruct (aw_parallel a && _).
  - unfold io_bind, io_ret. destruct (fanout_parallel env _ _ _ _ w) as [w1 [rs1 r1]] eqn:Hf.
    destruct (fanout_spec _ _ _ _ _ _ _ _ Hnd Hf) as (Hx & Hnd' & Hsub & Hok).
    intros [= <- <- <-]. split; cbn; try done. intros Hr. destruct (Hok Hr). done.
  - unfold io_bind, io_ret. destruct (send_sequential env _ [] data w) as [w1 [kept|e]] eqn:Hf;
      destruct (send_sequential_spec _ _ _ _ _ _ Hnd Hf) as [Hx Hok]; intros [= <- <- <-].
    + destruct (Hok kept eq_refl) as [Heq Hgot]. cbn in Heq.
      split; cbn; rewrite ?Heq; try done. intros _. split; [done|].
      assert (Hl : length kept = length (aw_replicas a))
        by (rewrite <- (length_map rw_handle kept), Heq; apply length_map).
      unfold zlen. rewrite Hl. done.
    + split; cbn; try done; [constructor|set_solver].
Qed.

Lemma flush_each_quiet rs w w' r : flush_each env rs w = (w', r) -> extends quiet w w'.
Proof.
  revert w. induction rs as [|r0 rs IH]; intros w; cbn [flush_each].
  - intros [= <- _]. apply extends_refl.
  - unfold io_bind. destruct (writer_flush env _ w) as [w1 r1] eqn:H. apply flush_spec in H as [Hx _].
    destruct r1; [intros H2; eapply extends_step; [exact Hx|by apply IH]|by intros [= <- _]].
Qed.

Lemma flush_replicas_spec a w w' a' r :
  NoDup (handles (aw_replicas a)) -> flush_replicas env a w = (w', (a', r)) ->
  active_step a a' [] w w' r.
Proof.
  intros Hnd. unfold flush_replicas.
  assert (Hself : forall w' r, extends quiet w w' -> active_step a a [] w w' r).
  { intros w1 r1 Hx. split; [by eapply extends_weaken; [|exact Hx]|done|done| |].
    - by rewrite set_replicas_self.
    - intros _. split; [by apply got_quiet|done]. }
  destruct (aw_replicas a) as [|r0 rs0] eqn:Hrs.
  { intros [= <- <- <-]. apply Hself, extends_refl. }
  rewrite <- Hrs in *. destruct (aw_parallel a && _); unfold io_bind, io_ret.
  - destruct (fanout_parallel env _ _ _ _ w) as [w1 [rs1 r1]] eqn:Hf.
    destruct (fanout_spec _ _ _ _ _ _ _ _ Hnd Hf) as (Hx & Hnd' & Hsub & Hok).
    intros [= <- <- <-]. split; cbn; try done. intros Hr. destruct (Hok Hr). done.
  - destruct (flush_each env _ w) as [w1 r1] eqn:Hf. intros [= <- <- <-].
    apply Hself. by eapply flush_each_quiet.
Qed.

Lemma close_each_spec rs err w w' r :
  close_each env rs err w = (w', r) ->
  extends quiet w w' /\
  (r = Ok tt -> err = None /\ forall h, h ∈ handles rs -> happened (EvClose h) w').
Proof.
  revert err w. induction rs as [|r0 rs IH]; intros err w; cbn [close_each].
  - intros [= <- <-]. split; [apply extends_refl|]. destruct err; [done|].
    intros _. split; [done|]. by intros h ?%elem_of_nil.
  - unfold io_bind. destruct (writer_close env _ w) as [w1 r1] eqn:H1.
    apply close_spec in H1 as (Hx1 & _ & Hok1). intros H2. destruct (IH _ _ H2) as [Hx2 Hok2].
    split; [by eapply extends_step|]. intros Hr. destruct (Hok2 Hr) as [Herr Hcl].
    destruct err; [done|]. destruct r1 as [[]|]; [|done]. split; [done|].
    intros h [->|Hh]%elem_of_cons; [|by apply Hcl]. eapply happened_extends; [exact Hx2|].
    by apply Hok1.
Qed.

(** ** Chunks *)

(** Placing [incoming] in the block: the streams that are left got whole chunks, and
    what does not fill one stays pending. *)
Record emit_step (chunk_size : Z) (a a' : ActiveBlockWriter) (incoming : bytes) (w w' : World)
    (r : Answer) : Prop := {
  es_extends : extends (fun h => h ∈ handles (aw_replicas a)) w w';
  es_nodup : NoDup (handles (aw_replicas a'));
  es_sub : handles (aw_replicas a') ⊆ handles (aw_replicas a);
  es_same : a' = set_pending (set_replicas a (aw_replicas a')) (aw_pending_chunk a');
  es_ok : r = Ok tt -> exists cs, got (handles (aw_replicas a')) cs w w' /\
    mjoin cs ++ aw_pending_chunk a' = aw_pending_chunk a ++ incoming /\
    Forall (fun c => zlen c = chunk_size) cs /\ zlen (aw_pending_chunk a') < chunk_size /\
    (aw_min_needed a <= zlen (aw_replicas a) -> aw_min_needed a <= zlen (aw_replicas a'));
}.

(** A chunk made of everything pending and the first bytes, then the rest. *)
Lemma emit_step_chunk chunk_size a0 a a1 a' chunk incoming rest w w1 w' r1 r :
  a = set_pending a0 [] -> aw_pending_chunk a0 ++ incoming = chunk ++ rest ->
  zlen chunk = chunk_size -> active_step a a1 [chunk] w w1 r1 ->
  (r1 = Ok tt -> emit_step chunk_size a1 a' rest w1 w' r) ->
  (forall e, r1 = Err e -> w' = w1 /\ a' = a1 /\ r = Err e) ->
  emit_step chunk_size a0 a' incoming w w' r.
Proof.
  intros -> Hsplit Hlen [Hx Hnd Hsub Hsame Hok] Hnext Herr. cbn in *.
  destruct r1 as [[]|e].
  - destruct (Hok eq_refl) as [Hgot Hmin]. destruct (Hnext eq_refl) as [Hx2 Hnd2 Hsub2 Hsame2 Hok2].
    split.
    + eapply extends_trans; [..|exact Hx|exact Hx2]; cbn; set_solver.
    + done.
    + set_solver.
    + rewrite Hsame2, Hsame. done.
    + intros Hr. destruct (Hok2 Hr) as (cs & Hgot2 & Hj & Hall & Hp & Hmin2).
      exists (chunk :: cs). split; [|split; [|split; [by constructor|split; [done|]]]].
      * intros h Hh. rewrite Hgot2 by done. rewrite Hgot by set_solver. by rewrite <- app_assoc.
      * assert (Hp1 : aw_pending_chunk a1 = []) by (by rewrite Hsame).
        rewrite Hp1, app_nil_l in Hj. change (mjoin (chunk :: cs)) with (chunk ++ mjoin cs).
        by rewrite <- app_assoc, Hj, Hsplit.
      * rewrite Hsame in Hmin2. cbn in Hmin2. auto.
  - destruct (Herr e eq_refl) as (-> & -> & ->). split; try done. by rewrite Hsame.
Qed.

Lemma emit_loop_spec fuel chunk_size a src offset w w' a' r :
  0 < chunk_size -> aw_pending_chunk a = [] -> 0 <= offset <= zlen src ->
  zlen src - offset <= Z.of_nat fuel -> NoDup (handles (aw_replicas a)) ->
  emit_loop env fuel a src offset chunk_size w = (w', (a', r)) ->
  emit_step chunk_size a a' (slice offset (zlen src) src) w w' r.
Proof.
  intros Hcs. revert a offset w. induction fuel as [|fuel IH]; intros a offset w Hp Ho Hf Hnd;
    cbn [emit_loop]; (destruct (Z.leb_spec (offset + chunk_size) (zlen src)) as [Hle|Hgt];
      [try lia|]).
  1,3: (destruct (Z.ltb_spec offset (zlen src)) as [Hlt|Hge]; intros [= <- <- <-]; split; cbn;
    [apply extends_refl|done|done|by rewrite set_replicas_self|
     |apply extends_refl|done|done|by destruct a|]; intros _; exists []; rewrite ?Hp; cbn;
    rewrite ?zlen_slice by lia; (split; [by intros h _; rewrite app_nil_r|]);
    (split; [by rewrite ?slice_nil by lia|]); (split; [constructor|]);
    (split; [first [lia|change (zlen []) with 0; lia]|done])).
  unfold io_bind. destruct (active_write_chunk env a _ w) as [w1 [a1 r1]] eqn:H1.
  pose proof (active_write_chunk_spec _ _ _ _ _ _ Hnd H1) as Hstep. cbn [fst snd].
  intros H2. eapply (emit_step_chunk chunk_size a a a1 a' (slice offset (offset + chunk_size) src) _
    (slice (offset + chunk_size) (zlen src) src)); [by destruct a; cbn in *; subst| | |exact Hstep| |].
  - rewrite Hp. cbn. symmetry. apply slice_app; lia.
  - rewrite zlen_slice; lia.
  - intros ->. destruct Hstep as [_ Hnd1 _ Hsame _]. apply IH; [|lia|lia|done|done].
    rewrite Hsame. done.
  - intros e ->. unfold io_ret in H2. by injection H2 as <- <- <-.
Qed.

Lemma emit_spec chunk_size a incoming w w' a' r :
  0 < chunk_size -> zlen (aw_pending_chunk a) < chunk_size -> NoDup (handles (aw_replicas a)) ->
  emit_aligned_chunks env a incoming chunk_size w = (w', (a', r)) ->
  emit_step chunk_size a a' incoming w w' r.
Proof.
  intros Hcs Hp Hnd. unfold emit_aligned_chunks. destruct (Z.eqb_spec chunk_size 0); [lia|].
  unfold take_completed_pending. destruct (aw_pending_chunk a) as [|x pend] eqn:Hpend.
  - intros H. apply emit_loop_spec in H; [|done|done|pose proof (zlen_nonneg incoming); lia
      |unfold zlen; lia|done]. rewrite slice_all in H.
    replace (set_pending a []) with a in H by (destruct a; cbn in Hpend; by subst). done.
  - rewrite <- Hpend in *. set (pd := aw_pending_chunk a) in *. pose proof (zlen_nonneg pd).
    destruct (Z.ltb_spec (zlen incoming) (chunk_size - zlen pd)) as [Hlt|Hge].
    + cbn [length emit_loop]. change (zlen []) with 0.
      destruct (Z.leb_spec (0 + chunk_size) 0); [lia|]. cbn. intros [= <- <- <-].
      split; cbn; [apply extends_refl|done|done|by rewrite set_replicas_self|].
      intros _. exists []. cbn. split; [by intros h _; rewrite app_nil_r|].
      split; [done|]. split; [constructor|]. rewrite zlen_app. split; [lia|done].
    + unfold io_bind. destruct (active_write_chunk env _ _ w) as [w1 [a1 r1]] eqn:H1.
      set (need := chunk_size - zlen pd) in *. set (rest := slice need (zlen incoming) incoming) in *.
      pose proof (active_write_chunk_spec (set_pending a []) _ _ _ _ _ Hnd H1) as Hstep.
      cbn [fst snd]. intros H2.
      eapply (emit_step_chunk chunk_size a (set_pending a []) a1 a' (pd ++ slice 0 need incoming) _ rest);
        [done| | |exact Hstep| |].
      * fold pd. rewrite <- app_assoc. f_equal. unfold rest.
        rewrite slice_app by lia. by rewrite slice_all.
      * rewrite zlen_app, zlen_slice by lia. lia.
      * intros ->. destruct Hstep as [_ Hnd1 _ Hsame _]. cbn in Hnd1.
        apply emit_loop_spec in H2; [by rewrite slice_all in H2|done|by rewrite Hsame
          |pose proof (zlen_nonneg rest); lia|unfold zlen; lia|done].
      * intros e ->. unfold io_ret in H2. by injection H2 as <- <- <-.
Qed.

(** ** The long stream *)

Lemma write_all_loop_spec fuel g data offset chunk_size w w' g' r :
  0 < chunk_size -> 0 <= offset <= zlen data -> zlen data - offset <= Z.of_nat fuel ->
  write_all_loop env fuel g data offset chunk_size w = (w', (g', r)) ->
  extends (eq (gw_handle g)) w w' /\ gw_handle g' = gw_handle g /\
  (r = Ok tt -> received (gw_handle g) w' = received (gw_handle g) w ++ slice offset (zlen data) data).
Proof.
  intros Hcs. revert g offset w. induction fuel as [|fuel IH]; intros g offset w Ho Hf;
    cbn [write_all_loop]; (destruct (Z.ltb_spec offset (zlen data)) as [Hlt|Hge];
      [try lia|intros [= <- <- <-]; split; [apply extends_refl|]; split; [done|]; intros _;
        by rewrite slice_nil, app_nil_r by lia]).
  cbn zeta. set (end_ := Z.min (offset + chunk_size) (zlen data)). unfold io_bind.
  destruct (writer_write_chunk env g _ w) as [w1 [g1|e]] eqn:H1;
    apply write_chunk_spec in H1 as (Hx1 & _ & Hok1).
  - intros H2. destruct (Hok1 g1 eq_refl) as [Hg1 Hc1].
    destruct (IH g1 end_ w1 ltac:(lia) ltac:(lia) H2) as (Hx2 & Hg2 & Hok2). rewrite Hg1 in *.
    split; [by eapply extends_step|]. split; [done|]. intros Hr. rewrite (Hok2 Hr).
    unfold received at 1. rewrite Hc1, join_app. cbn. rewrite app_nil_r, <- app_assoc.
    unfold received. f_equal. apply slice_app; lia.
  - unfold io_ret. intros [= <- <- <-]. done.
Qed.
End Facts.
