(* ===== verification/FileWriter.v ===== *)
(** * File writer (src/src/io/file_writer.rs)

    The whole writer: the strategy of each write type, the cache stream split into
    blocks, the single stream to the under file system (UFS), degrading from one to
    the other, closing, cancelling and dropping.  The router is the view of
    [Router]; workers and the master answer through the environment.  Metrics and
    logs are left out. *)

From Stdlib Require Import Ascii SpecFloat.
From S2P Require Import Prelude Text Errors Proto HashRing Router Crc ReplicaPlan BlockWriter.

Notation "'let!' '(' x ',' y ')' := m 'in' k" := (io_bind m (fun p => let '(x, y) := p in k))
  (at level 10, x name, y name, m at level 100, k at level 200) : goose_scope.

(** ** Configuration and strategy *)

Inductive WriterChecksumType : Type := ChecksumNull | ChecksumCrc32 | ChecksumCrc32c.

Definition checksum_as_i32 (t : WriterChecksumType) : Z :=
  match t with ChecksumNull => 0 | ChecksumCrc32 => 1 | ChecksumCrc32c => 2 end.

Record WriterConfig : Type := mkWriterConfig {
  wc_block_size : Z;
  wc_chunk_size : Z;
  wc_write_type : option Z;
  wc_replication_number : Z;
  wc_replication_durable : Z;
  wc_replication_durable_min : Z;
  wc_write_max_node_retry : Z;
  wc_min_remain_bytes : Z;
  wc_min_remain_ratio : spec_float;
  wc_read_cache_min_ratio : spec_float;
  wc_async_persist_flush_enabled : bool;
  wc_ignore_unknown_first_block_status : bool;
  wc_persistence_initial_wait_time_ms : Z;
  wc_writer_checksum_type : WriterChecksumType;
}.

Record CreateFilePOptions : Type := mkCreateFilePOptions {
  co_recursive : option bool;
  co_block_size_bytes : option Z;
  co_mode : option Z;
  co_write_type : option Z;
  co_persistence_wait_time : option Z;
}.

(** [unwrap_or] as an option. *)
Definition or_default {A : Type} (o : option A) (a : option A) : option A :=
  match o with Some _ => o | None => a end.

Definition apply_create_file_defaults (default_file_mode : Z) (o : CreateFilePOptions)
    (cfg : WriterConfig) : CreateFilePOptions :=
  mkCreateFilePOptions
    (or_default (co_recursive o) (Some true))
    (if bool_decide (co_block_size_bytes o = None) || bool_decide (co_block_size_bytes o = Some 0)
     then Some (as_i64 (wc_block_size cfg)) else co_block_size_bytes o)
    (or_default (co_mode o) (Some default_file_mode))
    (or_default (co_write_type o) (wc_write_type cfg))
    (or_default (co_persistence_wait_time o) (Some (wc_persistence_initial_wait_time_ms cfg))).

Record WriteStrategy : Type := mkWriteStrategy {
  ws_cache_stream : bool;
  ws_ufs_stream : bool;
  ws_create_ufs_file_options : option CreateUfsFileOptions;
  ws_need_async_persist : bool;
}.

Definition resolve_write_strategy (write_type : option Z) (file_info : FileInfo) : WriteStrategy :=
  let ufs_opts := mkCreateUfsFileOptions (fi_ufs_path file_info) (fi_owner file_info)
                    (fi_group file_info) (fi_mode file_info) (fi_mount_id file_info) in
  match write_type with
  | Some 3 => mkWriteStrategy true true (Some ufs_opts) false
  | Some 4 => mkWriteStrategy false true (Some ufs_opts) false
  | Some 5 => mkWriteStrategy true false (Some ufs_opts) true
  | _ => mkWriteStrategy true false None false
  end.

Definition needs_fresh_block (remaining_in_current : option Z) : bool :=
  match remaining_in_current with
  | None => true
  | Some remaining => remaining =? 0
  end.

Definition should_flush_cache_block_on_close (commit_location : bool) : bool := commit_location.

(** The two halves of the 128-bit operation id. *)
Definition uuid_to_fs_op_pid (id : Z) : Z * Z :=
  (as_i64 (Z.shiftr id 64), as_i64 (id mod u64_mod)).

(** ** Block ids *)

Definition SEQUENCE_NUMBER_BITS : Z := 24.
Definition CONTAINER_ID_MASK : Z := 2 ^ 40 - 1.
Definition SEQUENCE_NUMBER_MASK : Z := 2 ^ 24 - 1.

Definition compute_block_id (file_id block_index : Z) : Z :=
  let container_id := Z.land (Z.shiftr file_id SEQUENCE_NUMBER_BITS) CONTAINER_ID_MASK in
  let seq := Z.land block_index SEQUENCE_NUMBER_MASK in
  Z.lor (as_i64 (Z.shiftl container_id SEQUENCE_NUMBER_BITS)) seq.

Definition block_sequence_number (block_id : Z) : Z :=
  Z.land (as_u64 block_id) SEQUENCE_NUMBER_MASK.

(** ** Decisions *)

Definition cache_write_failure_is_fatal (err : Error) (strategy : WriteStrategy)
    (block_opened ignore_unknown_first_block_status : bool) : bool :=
  match err with
  | ResourceExhausted _ | InvalidArgument _ => true
  | _ =>
      if negb (ws_ufs_stream strategy) && negb (ws_need_async_persist strategy) then true
      else if ws_need_async_persist strategy && block_opened then true
      else
        match err with
        | AuthenticationFailed _ | PermissionDenied _ => true
        | _ => negb block_opened && negb ignore_unknown_first_block_status
        end
  end.

Definition NO_AUTO_PERSIST : Z := -1.

Definition resolve_persist_options (need_async_persist ufs_stream_completed : bool)
    (wait_time_ms : Z) : option bool * option Z :=
  if negb need_async_persist then (None, None)
  else if ufs_stream_completed then (Some true, None)
  else if wait_time_ms =? NO_AUTO_PERSIST then (None, None)
  else (None, Some wait_time_ms).

Definition complete_file_crc (ty : WriterChecksumType) (crc : Z) : Z * Z := (checksum_as_i32 ty, crc).

Definition complete_file_locations (async_through : bool) (last_location : option FileLocation)
  : list FileLocation :=
  if async_through then option_list last_location else [].

Definition append_checksum (ty : WriterChecksumType) (crc : Z) (data : bytes) : Z :=
  match ty with
  | ChecksumCrc32c => crc32c_append crc data
  | ChecksumCrc32 => crc32_append crc data
  | ChecksumNull => crc
  end.

(** ** The writer *)

Record GoosefsFileWriter : Type := mkFileWriter {
  fw_router : WorkerRouterView;
  fw_router_needs_init : bool;
  fw_total_bytes_written : Z;
  fw_checksum : Z;
  fw_cancelled : bool;
  fw_closed : bool;
  fw_should_cache : bool;
  fw_ufs_write_enabled : bool;
  fw_block_opened : bool;
  fw_committed_block_ids : list Z;
  fw_current_block_writer : option ActiveBlockWriter;
  fw_ufs_stream : option GrpcBlockWriter;
  fw_ufs_worker_addr : option string;
  fw_ufs_stream_completed : bool;
}.

Section Writer.
Context (env : WriteEnv).
(** The configuration, the answer of [CreateFile], the strategy, the shared router of
    the context, the operation id. *)
Context (cfg : WriterConfig) (file_info : FileInfo) (strategy : WriteStrategy).
Context (shared : WorkerRouter) (operation_id : Z).

Definition initial_writer : GoosefsFileWriter :=
  mkFileWriter view_empty true 0 0 false false (ws_cache_stream strategy)
    (ws_ufs_stream strategy) false [] None None None false.

Definition with_router (f : GoosefsFileWriter) (v : WorkerRouterView) : GoosefsFileWriter :=
  mkFileWriter v (fw_router_needs_init f) (fw_total_bytes_written f) (fw_checksum f)
    (fw_cancelled f) (fw_closed f) (fw_should_cache f) (fw_ufs_write_enabled f)
    (fw_block_opened f) (fw_committed_block_ids f) (fw_current_block_writer f)
    (fw_ufs_stream f) (fw_ufs_worker_addr f) (fw_ufs_stream_completed f).

Definition with_init_router (f : GoosefsFileWriter) (v : WorkerRouterView) : GoosefsFileWriter :=
  mkFileWriter v false (fw_total_bytes_written f) (fw_checksum f)
    (fw_cancelled f) (fw_closed f) (fw_should_cache f) (fw_ufs_write_enabled f)
    (fw_block_opened f) (fw_committed_block_ids f) (fw_current_block_writer f)
    (fw_ufs_stream f) (fw_ufs_worker_addr f) (fw_ufs_stream_completed f).

Definition with_accounted (f : GoosefsFileWriter) (total crc : Z) : GoosefsFileWriter :=
  mkFileWriter (fw_router f) (fw_router_needs_init f) total crc
    (fw_cancelled f) (fw_closed f) (fw_should_cache f) (fw_ufs_write_enabled f)
    (fw_block_opened f) (fw_committed_block_ids f) (fw_current_block_writer f)
    (fw_ufs_stream f) (fw_ufs_worker_addr f) (fw_ufs_stream_completed f).

Definition with_flags (f : GoosefsFileWriter) (cancelled closed : bool) : GoosefsFileWriter :=
  mkFileWriter (fw_router f) (fw_router_needs_init f) (fw_total_bytes_written f) (fw_checksum f)
    cancelled closed (fw_should_cache f) (fw_ufs_write_enabled f)
    (fw_block_opened f) (fw_committed_block_ids f) (fw_current_block_writer f)
    (fw_ufs_stream f) (fw_ufs_worker_addr f) (fw_ufs_stream_completed f).

Definition with_degraded (f : GoosefsFileWriter) : GoosefsFileWriter :=
  mkFileWriter (fw_router f) (fw_router_needs_init f) (fw_total_bytes_written f) (fw_checksum f)
    (fw_cancelled f) (fw_closed f) false true
    (fw_block_opened f) (fw_committed_block_ids f) (fw_current_block_writer f)
    (fw_ufs_stream f) (fw_ufs_worker_addr f) (fw_ufs_stream_completed f).

Definition with_block (f : GoosefsFileWriter) (opened : bool) (a : option ActiveBlockWriter)
  : GoosefsFileWriter :=
  mkFileWriter (fw_router f) (fw_router_needs_init f) (fw_total_bytes_written f) (fw_checksum f)
    (fw_cancelled f) (fw_closed f) (fw_should_cache f) (fw_ufs_write_enabled f)
    opened (fw_committed_block_ids f) a
    (fw_ufs_stream f) (fw_ufs_worker_addr f) (fw_ufs_stream_completed f).

Definition with_committed (f : GoosefsFileWriter) (ids : list Z) : GoosefsFileWriter :=
  mkFileWriter (fw_router f) (fw_router_needs_init f) (fw_total_bytes_written f) (fw_checksum f)
    (fw_cancelled f) (fw_closed f) (fw_should_cache f) (fw_ufs_write_enabled f)
    (fw_block_opened f) ids (fw_current_block_writer f)
    (fw_ufs_stream f) (fw_ufs_worker_addr f) (fw_ufs_stream_completed f).

Definition with_ufs (f : GoosefsFileWriter) (g : option GrpcBlockWriter) (addr : option string)
    (completed : bool) : GoosefsFileWriter :=
  mkFileWriter (fw_router f) (fw_router_needs_init f) (fw_total_bytes_written f) (fw_checksum f)
    (fw_cancelled f) (fw_closed f) (fw_should_cache f) (fw_ufs_write_enabled f)
    (fw_block_opened f) (fw_committed_block_ids f) (fw_current_block_writer f)
    g addr completed.

(** ** Routing *)

Definition no_workers_for_writing : Error :=
  NoWorkerAvailable "no workers available for writing".

Definition ensure_router_init (f : GoosefsFileWriter) : GoosefsFileWriter * Answer :=
  if negb (fw_router_needs_init f) then (f, Ok tt)
  else
    match wr_workers shared with
    | [] => (f, Err no_workers_for_writing)
    | _ => (with_init_router f (from_shared shared), Ok tt)
    end.

(** [mark_failed] on the router and [invalidate] on the connection pool. *)
Definition blacklist (f : GoosefsFileWriter) (addr : WorkerNetAddress) (worker_addr : string)
  : IO GoosefsFileWriter :=
  let! t := now env in
  let! _ := perform env (EvInvalidateWorker worker_addr) in
  io_ret (with_router f (view_mark_failed t addr (fw_router f))).

(** ** The UFS stream *)

Definition UFS_BLOCK_ID : Z := -1.
Definition UFS_STREAM_LENGTH : Z := i64_max.

Definition ufs_worker_has_no_address : Error := Internal "ufs-stream worker has no address" None.

Definition open_ufs_stream (f : GoosefsFileWriter) : IO (GoosefsFileWriter * Answer) :=
  fun w =>
    let '(v, picked) := view_pick_any_worker (env_now env (w_trace w)) (env_choose env (w_trace w))
                          (fw_router f) in
    let f := with_router f v in
    match picked with
    | Err e => (w, (f, Err e))
    | Ok worker_info =>
        match wi_address worker_info with
        | None => (w, (f, Err ufs_worker_has_no_address))
        | Some addr =>
            let worker_addr := rpc_endpoint addr in
            (let! acquired := attempt env (EvAcquire worker_addr) in
             match acquired with
             | Err e => let! f := blacklist f addr worker_addr in io_ret (f, Err e)
             | Ok _ =>
                 let! opened := writer_open env worker_addr UFS_BLOCK_ID UFS_STREAM_LENGTH
                   (mkWriteBlockOptions UfsFile (ws_create_ufs_file_options strategy) false) in
                 match opened with
                 | Err e => let! f := blacklist f addr worker_addr in io_ret (f, Err e)
                 | Ok g => io_ret (with_ufs f (Some g) (Some worker_addr)
                                     (fw_ufs_stream_completed f), Ok tt)
                 end
             end) w
        end
    end.

Definition parse_i32 (s : string) : option Z :=
  n ← parse_i64 s; within (- 2147483648) 2147483647 n.

(** The address kept for the UFS worker: the parts before and after its first colon. *)
Definition ufs_net_address (worker_addr : string) : WorkerNetAddress :=
  let '(host, port) :=
    match split_once ":"%char worker_addr with
    | None => (worker_addr, None)
    | Some (host, rest) =>
        (host, parse_i32 (match split_once ":"%char rest with Some (p, _) => p | None => rest end))
    end in
  mkWorkerNetAddress (Some host) port None None None None None None None None.

Definition handle_ufs_write_exception (f : GoosefsFileWriter) (err : Error)
  : IO (GoosefsFileWriter * Answer) :=
  let! _ := match fw_ufs_stream f with Some g => writer_cancel env g | None => io_ret tt end in
  let! f :=
    match fw_ufs_worker_addr f with
    | Some addr => blacklist f (ufs_net_address addr) addr
    | None => io_ret f
    end in
  io_ret (with_ufs f None None (fw_ufs_stream_completed f), Err err).

Definition write_to_ufs_stream (f : GoosefsFileWriter) (data : bytes)
  : IO (GoosefsFileWriter * Answer) :=
  let! (f, opened) :=
    match fw_ufs_stream f with
    | None => open_ufs_stream f
    | Some _ => io_ret (f, Ok tt)
    end in
  match opened, fw_ufs_stream f with
  | Err e, _ => io_ret (f, Err e)
  | Ok _, None => io_ret (f, Err write_out_of_fuel)   (* not reached: just opened *)
  | Ok _, Some g =>
      let! (g, r) := writer_write_all env g data (wc_chunk_size cfg) in
      let f := with_ufs f (Some g) (fw_ufs_worker_addr f) (fw_ufs_stream_completed f) in
      match r with
      | Ok _ => io_ret (f, Ok tt)
      | Err e => handle_ufs_write_exception f e
      end
  end.

(** ** Cache blocks *)

Definition worker_has_no_address : Error := Internal "worker has no address" None.

Definition try_open_replica (block_id block_size : Z) (worker_info : WorkerInfo) (ordinal : Z)
  : IO (result Error ReplicaWriter) :=
  match wi_address worker_info with
  | None => io_ret (Err worker_has_no_address)
  | Some addr =>
      let worker_addr := rpc_endpoint addr in
      try! _ := attempt env (EvAcquire worker_addr) in
      try! g := writer_open env worker_addr block_id (as_i64 block_size)
                  (mkWriteBlockOptions GoosefsBlock None (ws_need_async_persist strategy)) in
      io_ret (Ok (mkReplicaWriter ordinal g (default 0 (wi_id worker_info)) worker_addr addr))
  end.

(** The loop over the candidates: the writers opened and the last error. *)
Fixpoint open_replicas (f : GoosefsFileWriter) (block_id block_size initial : Z)
    (pool : list WorkerInfo) (opened : list ReplicaWriter) (last_err : option Error)
  : IO (GoosefsFileWriter * (list ReplicaWriter * option Error)) :=
  match pool with
  | [] => io_ret (f, (opened, last_err))
  | worker_info :: pool =>
      if initial <=? zlen opened then io_ret (f, (opened, last_err))
      else
        let! r := try_open_replica block_id block_size worker_info (zlen opened) in
        match r with
        | Ok rep => open_replicas f block_id block_size initial pool (opened ++ [rep]) last_err
        | Err e =>
            let! f :=
              match wi_address worker_info with
              | Some addr => blacklist f addr (rpc_endpoint addr)
              | None => io_ret f
              end in
            open_replicas f block_id block_size initial pool opened (Some e)
        end
  end.

Definition no_worker_for_block (block_id : Z) : Error :=
  NoWorkerAvailable ("no available GooseFS worker for block_id=" +:+ show_Z block_id).

Definition not_enough_workers (block_id worker_count min_needed : Z) : Error :=
  ResourceExhausted ("Not enough workers for replications of block " +:+ show_Z block_id +:+ ", "
                     +:+ show_Z worker_count +:+ " workers selected but " +:+ show_Z min_needed
                     +:+ " required").

(** The candidates of a block, after the filters. *)
Definition replica_pool (f : GoosefsFileWriter) (t block_id : Z) (plan : ReplicaWritePlan)
    (use_all_workers : bool) : GoosefsFileWriter * result Error (list WorkerInfo) :=
  let '(v, pool) :=
    if use_all_workers then (fw_router f, Ok (vw_workers (fw_router f)))
    else view_select_workers t block_id (Z.to_nat (rp_max_retry_node plan)) (fw_router f) in
  match pool with
  | Err e => (with_router f v, Err e)
  | Ok pool =>
      let '(v, pool) := filter_not_failed t pool v in
      (with_router f v,
       Ok (if ws_need_async_persist strategy then
             filter_no_space_workers pool (0 <? block_sequence_number block_id)
               (rp_min_needed_replicas plan) (as_i64 (wc_min_remain_bytes cfg))
               (wc_min_remain_ratio cfg) (cache_min_ratio (wc_read_cache_min_ratio cfg))
           else pool))
  end.

Definition open_replica_writers (f : GoosefsFileWriter) (block_id block_size : Z)
    (plan : ReplicaWritePlan) (use_all_workers : bool)
  : IO (GoosefsFileWriter * result Error ActiveBlockWriter) :=
  let! t := now env in
  let '(f, candidates) := replica_pool f t block_id plan use_all_workers in
  match candidates with
  | Err e => io_ret (f, Err e)
  | Ok [] =>
      io_ret (with_router f (view_clear_failed (fw_router f)), Err (no_worker_for_block block_id))
  | Ok pool =>
      let '(initial, min_needed) :=
        degrade_replicas (ws_need_async_persist strategy) (rp_initial_replicas plan)
          (rp_min_needed_replicas plan) (zlen pool) in
      let! (f, out) := open_replicas f block_id block_size initial pool [] None in
      let '(opened, last_open_err) := out in
      let worker_count := zlen opened in
      if (worker_count =? 0) || (worker_count <? min_needed) then
        let! _ := cancel_all env opened in
        io_ret (f, Err (if worker_count =? 0 then default (no_worker_for_block block_id) last_open_err
                        else not_enough_workers block_id worker_count min_needed))
      else
        io_ret (f, Ok (mkActiveBlockWriter opened block_id block_size 0 []
                         (ws_need_async_persist strategy && (1 <? worker_count)) min_needed))
  end.

(** Closing the block after its data and, mid-file, its flush went through. *)
Definition finish_block (f : GoosefsFileWriter) (a : ActiveBlockWriter) (block_offset : Z)
    (commit_location : bool) : IO (GoosefsFileWriter * result Error (option FileLocation)) :=
  let block_id := aw_block_id a in
  let committed := fw_committed_block_ids f ++ [block_id] in
  let loc := file_location a block_offset in
  let! closed := close_replicas env a in
  match closed with
  | Err e => io_ret (with_committed f committed, Err e)
  | Ok _ =>
      let! reported :=
        match loc with
        | Some l =>
            if commit_location && ws_need_async_persist strategy
            then attempt env (EvCommitLocation block_id l) else io_ret (Ok tt)
        | None => io_ret (Ok tt)
        end in
      match reported with
      | Err e => io_ret (f, Err e)
      | Ok _ => io_ret (with_committed f committed, Ok loc)
      end
  end.

Definition close_current_block (f : GoosefsFileWriter) (commit_location : bool)
  : IO (GoosefsFileWriter * result Error (option FileLocation)) :=
  match fw_current_block_writer f with
  | None => io_ret (f, Ok None)
  | Some a =>
      let f := with_block f (fw_block_opened f) None in
      let pending_chunk := aw_pending_chunk a in
      let a := set_pending a [] in
      let block_offset := i64_mul (zlen (fw_committed_block_ids f)) (as_i64 (aw_block_size a)) in
      if 0 <? aw_bytes_written a then
        let! (a, drained) :=
          match pending_chunk with
          | [] => io_ret (a, Ok tt)
          | _ => active_write_chunk env a pending_chunk
          end in
        match drained with
        | Err e => let! _ := cancel_replicas env a in io_ret (f, Err e)
        | Ok _ =>
            let! (a, flushed) :=
              if should_flush_cache_block_on_close commit_location then flush_replicas env a
              else io_ret (a, Ok tt) in
            match flushed with
            | Err e => let! _ := cancel_replicas env a in io_ret (f, Err e)
            | Ok _ => finish_block f a block_offset commit_location
            end
        end
      else let! _ := cancel_replicas env a in io_ret (f, Ok None)
  end.

Definition open_next_block (f : GoosefsFileWriter) (block_size : Z) : IO (GoosefsFileWriter * Answer) :=
  let! (f, closed) :=
    match fw_current_block_writer f with
    | Some _ => close_current_block f true
    | None => io_ret (f, Ok None)
    end in
  match closed with
  | Err e => io_ret (f, Err e)
  | Ok _ =>
      let block_id := compute_block_id (default 0 (fi_file_id file_info))
                        (zlen (fw_committed_block_ids f)) in
      match replica_write_plan (ws_need_async_persist strategy) (wc_replication_number cfg)
              (wc_replication_durable cfg) (wc_replication_durable_min cfg)
              (wc_write_max_node_retry cfg) with
      | Err e => io_ret (f, Err e)
      | Ok plan =>
          let! (f, opened) := open_replica_writers f block_id block_size plan false in
          let! (f, opened) :=
            match opened with
            | Ok _ => io_ret (f, opened)
            | Err _ => open_replica_writers f block_id block_size plan true
            end in
          match opened with
          | Err e => io_ret (f, Err e)
          | Ok a => io_ret (with_block f true (Some a), Ok tt)
          end
      end
  end.

Definition block_size_of : Z :=
  as_u64 (default (as_i64 (wc_block_size cfg)) (fi_block_size_bytes file_info)).

(** The loop of [write_to_cache_stream]: each turn places at least one byte. *)
Fixpoint write_to_cache_loop (fuel : nat) (f : GoosefsFileWriter) (data : bytes) (offset : Z)
  : IO (GoosefsFileWriter * Answer) :=
  if offset <? zlen data then
    match fuel with
    | O => io_ret (f, Err write_out_of_fuel)
    | S fuel =>
        let! (f, ready) :=
          if needs_fresh_block (active_remaining <$> fw_current_block_writer f)
          then open_next_block f block_size_of else io_ret (f, Ok tt) in
        match ready, fw_current_block_writer f with
        | Err e, _ => io_ret (f, Err e)
        | Ok _, None => io_ret (f, Err write_out_of_fuel)   (* not reached: just opened *)
        | Ok _, Some a =>
            let to_accept := Z.min (active_remaining a) (zlen data - offset) in
            let a := set_written a (aw_bytes_written a + to_accept) in
            let! (a, emitted) :=
              emit_aligned_chunks env a (slice offset (offset + to_accept) data)
                (wc_chunk_size cfg) in
            let f := with_block f (fw_block_opened f) (Some a) in
            match emitted with
            | Err e => io_ret (f, Err e)
            | Ok _ => write_to_cache_loop fuel f data (offset + to_accept)
            end
        end
    end
  else io_ret (f, Ok tt).

Definition write_to_cache_stream (f : GoosefsFileWriter) (data : bytes)
  : IO (GoosefsFileWriter * Answer) := write_to_cache_loop (length data) f data 0.

Fixpoint blacklist_replicas (f : GoosefsFileWriter) (rs : list ReplicaWriter)
  : IO GoosefsFileWriter :=
  match rs with
  | [] => io_ret f
  | r :: rs =>
      let! f := blacklist f (rw_net_address r) (rw_worker_addr r) in
      blacklist_replicas f rs
  end.

Definition tear_down_cache_block (f : GoosefsFileWriter) (blacklisted : bool)
  : IO GoosefsFileWriter :=
  match fw_current_block_writer f with
  | None => io_ret f
  | Some a =>
      let f := with_block f (fw_block_opened f) None in
      let! f := if blacklisted then blacklist_replicas f (aw_replicas a) else io_ret f in
      let! _ := cancel_replicas env a in
      io_ret f
  end.

Definition credentials_rejected (err : Error) : bool :=
  match err with
  | AuthenticationFailed _ | PermissionDenied _ => true
  | _ => false
  end.

Definition handle_cache_write_exception (f : GoosefsFileWriter) (err : Error)
  : IO (GoosefsFileWriter * Answer) :=
  let fatal := cache_write_failure_is_fatal err strategy (fw_block_opened f)
                 (wc_ignore_unknown_first_block_status cfg) in
  let! f := tear_down_cache_block f (negb (credentials_rejected err)) in
  if fatal then io_ret (with_flags f true (fw_closed f), Err err)
  else io_ret (with_degraded f, Ok tt).

(** ** Public operations *)

Definition write_refused : Error := BlockIoError "cannot write to a completed or cancelled file".
Definition flush_refused : Error := BlockIoError "cannot flush a completed or cancelled file".

Definition fw_write (f : GoosefsFileWriter) (data : bytes) : IO (GoosefsFileWriter * Answer) :=
  if fw_cancelled f || fw_closed f then io_ret (f, Err write_refused)
  else if zlen data =? 0 then io_ret (f, Ok tt)
  else
    let '(f, init) := ensure_router_init f in
    match init with
    | Err e => io_ret (f, Err e)
    | Ok _ =>
        let! (f, cached) :=
          if fw_should_cache f then
            let! (f, r) := write_to_cache_stream f data in
            match r with
            | Ok _ => io_ret (f, Ok tt)
            | Err e => handle_cache_write_exception f e
            end
          else io_ret (f, Ok tt) in
        match cached with
        | Err e => io_ret (f, Err e)
        | Ok _ =>
            let! (f, stored) :=
              if fw_ufs_write_enabled f then write_to_ufs_stream f data else io_ret (f, Ok tt) in
            match stored with
            | Err e => io_ret (f, Err e)
            | Ok _ =>
                io_ret (with_accounted f (fw_total_bytes_written f + zlen data)
                          (append_checksum (wc_writer_checksum_type cfg) (fw_checksum f) data),
                        Ok tt)
            end
        end
    end.

(** The tail is drained first; an explicit flush is a boundary for it. *)
Definition flush_cache_block (f : GoosefsFileWriter) : IO (GoosefsFileWriter * Answer) :=
  match fw_current_block_writer f with
  | None => io_ret (f, Ok tt)
  | Some a =>
      if 0 <? aw_bytes_written a then
        let tail := aw_pending_chunk a in
        let a := set_pending a [] in
        let! (a, drained) :=
          match tail with
          | [] => io_ret (a, Ok tt)
          | _ => active_write_chunk env a tail
          end in
        match drained with
        | Err e => io_ret (with_block f (fw_block_opened f) (Some a), Err e)
        | Ok _ =>
            let! (a, r) := flush_replicas env a in
            io_ret (with_block f (fw_block_opened f) (Some a), r)
        end
      else io_ret (f, Ok tt)
  end.

Definition fw_flush (f : GoosefsFileWriter) : IO (GoosefsFileWriter * Answer) :=
  if fw_cancelled f || fw_closed f then io_ret (f, Err flush_refused)
  else
    let! ufs :=
      match fw_ufs_stream f with
      | Some g => writer_flush env g
      | None => io_ret (Ok tt)
      end in
    match ufs with
    | Err e => io_ret (f, Err e)
    | Ok _ =>
        if ws_need_async_persist strategy && wc_async_persist_flush_enabled cfg
        then flush_cache_block f else io_ret (f, Ok tt)
    end.

(** The blocks on the master, with the fallback. *)
Definition remove_committed (ids : list Z) : IO unit :=
  match ids with
  | [] => io_ret tt
  | _ =>
      let! removed := attempt env (EvRemoveBlocks ids) in
      match removed with
      | Ok _ => io_ret tt
      | Err _ => perform env (EvDelete false)
      end
  end.

Definition do_cancel_cleanup (f : GoosefsFileWriter) : IO GoosefsFileWriter :=
  let! _ := match fw_ufs_stream f with Some g => writer_cancel env g | None => io_ret tt end in
  let f := with_ufs f None None (fw_ufs_stream_completed f) in
  let! _ :=
    match fw_current_block_writer f with
    | Some a => cancel_replicas env a
    | None => io_ret tt
    end in
  let f := with_block f (fw_block_opened f) None in
  let! _ := remove_committed (fw_committed_block_ids f) in
  io_ret f.

Definition fw_cancel (f : GoosefsFileWriter) : IO (GoosefsFileWriter * Answer) :=
  if fw_closed f then io_ret (f, Ok tt)
  else if fw_cancelled f then io_ret (f, Ok tt)
  else
    let! f := do_cancel_cleanup (with_flags f true (fw_closed f)) in
    let! _ := perform env EvInvalidateFileInfo in
    io_ret (f, Ok tt).

Definition handle_complete_file_error (f : GoosefsFileWriter) (err : Error) : IO Answer :=
  let persistable := ws_ufs_stream strategy || ws_need_async_persist strategy in
  if negb persistable || negb (fw_ufs_stream_completed f) then io_ret (Err err)
  else
    let! deleted := attempt env (EvDelete true) in
    match deleted with
    | Err _ => io_ret (Err err)
    | Ok _ =>
        let! reloaded := attempt env EvReloadStatus in
        match reloaded with
        | Err _ => io_ret (Err err)
        | Ok _ => let! _ := perform env EvInvalidateFileInfo in io_ret (Ok tt)
        end
    end.

(** Step 1 of [close]: flush and close the UFS stream. *)
Definition close_ufs (f : GoosefsFileWriter) : IO (GoosefsFileWriter * Answer) :=
  match fw_ufs_stream f with
  | None => io_ret (f, Ok tt)
  | Some g =>
      let f := with_ufs f None (fw_ufs_worker_addr f) (fw_ufs_stream_completed f) in
      let! flushed := writer_flush env g in
      match flushed with
      | Err e =>
          let! _ := writer_cancel env g in
          let! f := do_cancel_cleanup f in
          io_ret (f, Err e)
      | Ok _ =>
          let! closed := writer_close env g in
          match closed with
          | Err e => let! f := do_cancel_cleanup f in io_ret (f, Err e)
          | Ok _ => io_ret (with_ufs f None None true, Ok tt)
          end
      end
  end.

Definition complete_options (f : GoosefsFileWriter) (last_location : option FileLocation)
  : CompleteFileOptions :=
  let '(force_persisted, async_persist) :=
    resolve_persist_options (ws_need_async_persist strategy) (fw_ufs_stream_completed f)
      (wc_persistence_initial_wait_time_ms cfg) in
  let '(crc_type, crc_value) := complete_file_crc (wc_writer_checksum_type cfg) (fw_checksum f) in
  mkCompleteFileOptions (as_i64 (fw_total_bytes_written f)) (uuid_to_fs_op_pid operation_id)
    (complete_file_locations (ws_need_async_persist strategy) last_location)
    async_persist force_persisted (fi_file_id file_info) crc_type crc_value.

(** [CompleteFile] and, if the master refuses it, the recovery. *)
Definition complete_or_recover (f : GoosefsFileWriter) (last_location : option FileLocation)
  : IO Answer :=
  let! completed := attempt env (EvCompleteFile (complete_options f last_location)) in
  match completed with
  | Ok _ => io_ret (Ok tt)
  | Err e => handle_complete_file_error f e
  end.

Definition fw_close (f : GoosefsFileWriter) : IO (GoosefsFileWriter * Answer) :=
  if fw_closed f then io_ret (f, Ok tt)
  else
    let f := with_flags f (fw_cancelled f) true in
    if fw_cancelled f then io_ret (f, Ok tt)
    else
      let! (f, ufs) := close_ufs f in
      match ufs with
      | Err e => io_ret (f, Err e)
      | Ok _ =>
          let! (f, last) := close_current_block f false in
          match last with
          | Err e => let! f := do_cancel_cleanup f in io_ret (f, Err e)
          | Ok last_location =>
              let! recovered := complete_or_recover f last_location in
              match recovered with
              | Err e => io_ret (f, Err e)
              | Ok _ => let! _ := perform env EvInvalidateFileInfo in io_ret (f, Ok tt)
              end
          end
      end.

(** [Drop]: the cleanup runs in a task of its own, if there is a runtime. *)
Definition perform_drop_cleanup (has_runtime : bool) (f : GoosefsFileWriter) : IO GoosefsFileWriter :=
  if fw_closed f || fw_cancelled f then io_ret f
  else
    let committed := fw_committed_block_ids f in
    let ufs := fw_ufs_stream f in
    let block := fw_current_block_writer f in
    let f := with_committed (with_block (with_ufs (with_flags f true (fw_closed f)) None
               (fw_ufs_worker_addr f) (fw_ufs_stream_completed f)) (fw_block_opened f) None) [] in
    if has_runtime then
      let! _ := match ufs with Some g => writer_cancel env g | None => io_ret tt end in
      let! _ := match block with Some a => cancel_replicas env a | None => io_ret tt end in
      let! _ := remove_committed committed in
      io_ret f
    else
      let! _ := match ufs with Some g => perform env (EvDrop (gw_handle g)) | None => io_ret tt end in
      let! _ := match block with
                | Some a => io_each (fun r => perform env (EvDrop (rw_handle r))) (aw_replicas a)
                | None => io_ret tt
                end in
      io_ret f.

Definition is_completed (f : GoosefsFileWriter) : bool := fw_closed f && negb (fw_cancelled f).

(** [create_with_context] once the master has answered [CreateFile]. *)
Definition fw_create : IO (result Error GoosefsFileWriter) :=
  try! _ := attempt env EvCreateFile in
  let! _ := perform env EvInvalidateFileInfo in
  let f := initial_writer in
  if ws_ufs_stream strategy then
    let '(f, init) := ensure_router_init f in
    match init with
    | Err e => io_ret (Err e)
    | Ok _ =>
        let! (f, opened) := open_ufs_stream f in
        io_ret (match opened with Ok _ => Ok f | Err e => Err e end)
    end
  else io_ret (Ok f).

(** [write_file_with_context_and_options]: an early return drops the writer. *)
Definition write_file (data : bytes) : IO (result Error Z) :=
  try! f := fw_create in
  let! (f, wrote) := fw_write f data in
  match wrote with
  | Err e => let! _ := perform_drop_cleanup true f in io_ret (Err e)
  | Ok _ =>
      let! (f, closed) := fw_close f in
      let! _ := perform_drop_cleanup true f in
      io_ret (match closed with
              | Ok _ => Ok (fw_total_bytes_written f)
              | Err e => Err e
              end)
  end.
End Writer.
