(* ===== verification/FileWriterFacts.v ===== *)
(** * File writer: lemmas

    What each operation does to the streams the writer holds and to those it has
    already closed. *)

From S2P Require Import Prelude Text Errors Proto HashRing Router Crc ReplicaPlan BlockWriter.
From S2P Require Import BlockWriterFacts FileWriter.

(** ** Streams the writer holds *)

Definition block_handles (b : option ActiveBlockWriter) : list nat :=
  match b with Some a => handles (aw_replicas a) | None => [] end.

Abbreviation cache_handles f := (block_handles (fw_current_block_writer f)).

Definition ufs_handles (f : GoosefsFileWriter) : list nat :=
  match fw_ufs_stream f with Some g => [gw_handle g] | None => [] end.

(** Everything but the router and the cache blocks. *)
Record same_outer (f f' : GoosefsFileWriter) : Prop := {
  so_total : fw_total_bytes_written f' = fw_total_bytes_written f;
  so_checksum : fw_checksum f' = fw_checksum f;
  so_cancelled : fw_cancelled f' = fw_cancelled f;
  so_closed : fw_closed f' = fw_closed f;
  so_cache : fw_should_cache f' = fw_should_cache f;
  so_ufs_enabled : fw_ufs_write_enabled f' = fw_ufs_write_enabled f;
  so_ufs : fw_ufs_stream f' = fw_ufs_stream f;
  so_completed : fw_ufs_stream_completed f' = fw_ufs_stream_completed f;
}.

#[export] Instance same_outer_preorder : PreOrder same_outer.
Proof.
  split; [by split|]. intros f g h [] []. split; congruence.
Qed.

(** No stream beyond the counter has data. *)
Definition world_ok (w : World) : Prop :=
  forall h, (w_next w <= h)%nat -> chunks h (w_trace w) = [].

Lemma world_ok_extends (P : nat -> Prop) w w' :
  world_ok w -> (forall h, P h -> (h < w_next w')%nat) -> extends P w w' -> world_ok w'.
Proof.
  intros Hw HP [Hn _ Hs] h Hh. rewrite Hs; [apply Hw; lia|]. intros ?%HP. lia.
Qed.

(** Streams below the counter, each held once. *)
Definition held_ok (hs : list nat) (w : World) : Prop :=
  NoDup hs /\ forall h, h ∈ hs -> (h < w_next w)%nat.

Lemma held_ok_nil w : held_ok [] w.
Proof. split; [constructor|]. by intros h ?%elem_of_nil. Qed.

(** Streams in [hs] or opened between the two worlds. *)
Definition own (hs : list nat) (w w' : World) (h : nat) : Prop :=
  h ∈ hs \/ (w_next w <= h < w_next w')%nat.

(** What any operation on the cache blocks keeps. *)
Record cache_keeps (w : World) (f : GoosefsFileWriter) (w' : World) (f' : GoosefsFileWriter)
  : Prop := {
  ck_outer : same_outer f f';
  ck_opened : fw_block_opened f = true -> fw_block_opened f' = true;
  ck_extends : extends (own (cache_handles f) w w') w w';
  ck_world : world_ok w -> world_ok w';
  ck_held : held_ok (cache_handles f) w -> held_ok (cache_handles f') w' /\
    forall h, h ∈ cache_handles f' -> own (cache_handles f) w w' h;
}.

Lemma cache_keeps_refl w f : cache_keeps w f w f.
Proof. split; [done|done|apply extends_refl|done|]. intros H. split; [done|]. by left. Qed.

Lemma cache_keeps_trans w1 f1 w2 f2 w3 f3 :
  held_ok (cache_handles f1) w1 ->
  cache_keeps w1 f1 w2 f2 -> cache_keeps w2 f2 w3 f3 -> cache_keeps w1 f1 w3 f3.
Proof.
  intros H1 [Ho1 Hb1 Hx1 Hw1 Hh1] [Ho2 Hb2 Hx2 Hw2 Hh2].
  pose proof (ex_next _ _ _ Hx1). pose proof (ex_next _ _ _ Hx2).
  destruct (Hh1 H1) as [Hk2 Hown2]. destruct (Hh2 Hk2) as [Hk3 Hown3].
  assert (Hsub : forall h, own (cache_handles f2) w2 w3 h -> own (cache_handles f1) w1 w3 h).
  { intros h [Hh|Hh]; [destruct (Hown2 h Hh)|]; unfold own in *; [tauto|right; lia|right; lia]. }
  split; [by etrans|auto| |auto|].
  - eapply extends_trans; [|exact Hsub|exact Hx1|exact Hx2]. intros h [Hh|Hh]; [by left|right; lia].
  - intros _. split; [done|]. intros h Hh. apply Hsub, Hown3, Hh.
Qed.

(** An operation that touches no block: the router, the connection pool. *)
Lemma cache_keeps_quiet w f w' f' :
  same_outer f f' -> fw_block_opened f' = fw_block_opened f ->
  cache_handles f' = cache_handles f -> extends quiet w w' -> cache_keeps w f w' f'.
Proof.
  intros Ho Hb Hc Hx. pose proof (ex_next _ _ _ Hx) as Hn.
  split; [done|by rewrite Hb|by eapply extends_weaken; [|exact Hx]| |].
  - intros Hw. by eapply world_ok_extends; [|..|exact Hx].
  - rewrite Hc. intros [Hnd Hlt]. split; [|by left]. split; [done|]. intros h Hh.
    specialize (Hlt h Hh). lia.
Qed.

(** An operation on the open block alone. *)
Lemma cache_keeps_block w f w' f' hs :
  same_outer f f' -> (fw_block_opened f = true -> fw_block_opened f' = true) ->
  hs = cache_handles f -> extends (fun h => h ∈ hs) w w' ->
  (NoDup hs -> NoDup (cache_handles f')) -> cache_handles f' ⊆ hs -> held_ok hs w ->
  cache_keeps w f w' f'.
Proof.
  intros Ho Hb -> Hx Hnd Hsub [Hnd0 Hlt]. pose proof (ex_next _ _ _ Hx) as Hn.
  split; [done|done|by eapply extends_weaken; [|exact Hx]; left| |].
  - intros Hw. eapply world_ok_extends; [done| |exact Hx]. intros h Hh. specialize (Hlt h Hh). lia.
  - intros _. split; [split; [by apply Hnd|]|by left; apply Hsub].
    intros h Hh. specialize (Hlt h (Hsub h Hh)). lia.
Qed.

(** Runs the next computation of a sequence. *)
Ltac io_step w r H :=
  unfold io_bind at 1;
  match goal with |- (let '(_, _) := ?m in _) = _ -> _ => destruct m as [w r] eqn:H end.

Section Facts.
Context (env : WriteEnv) (cfg : WriterConfig) (file_info : FileInfo) (strategy : WriteStrategy).

Lemma blacklist_spec f addr worker_addr w w' f' :
  blacklist env f addr worker_addr w = (w', f') ->
  extends quiet w w' /\ exists v, f' = with_router f v.
Proof.
  unfold blacklist, io_bind, now, io_ret. destruct (perform env _ w) as [w1 u] eqn:H.
  intros [= <- <-]. apply perform_quiet in H; [|done]. eauto.
Qed.

Lemma try_open_spec id size info ordinal w w' r :
  try_open_replica env strategy id size info ordinal w = (w', r) ->
  extends quiet w w' /\
  (forall rep, r = Ok rep -> (w_next w <= rw_handle rep < w_next w')%nat /\
     opened (rw_handle rep) id GoosefsBlock w').
Proof.
  unfold try_open_replica. destruct (wi_address info) as [addr|];
    [|intros [= <- <-]; split; [apply extends_refl|done]].
  unfold io_bind, io_ret. destruct (attempt env _ w) as [w1 [u|e]] eqn:H1;
    apply attempt_quiet in H1; try done; [|intros [= <- <-]; done].
  pose proof (ex_next _ _ _ H1).
  destruct (writer_open env _ _ _ _ w1) as [w2 [g|e]] eqn:H2;
    apply writer_open_spec in H2 as (Hx2 & Hn2 & Hok2); intros [= <- <-];
    (split; [by eapply extends_step|]); [|done].
  intros rep [= <-]. destruct (Hok2 g eq_refl) as (Hg & _ & Ho). unfold rw_handle. cbn.
  rewrite Hg. split; [lia|done].
Qed.

Lemma open_replicas_spec pool f id size initial reps err w w' f' reps' err' :
  open_replicas env strategy f id size initial pool reps err w = (w', (f', (reps', err'))) ->
  extends quiet w w' /\ (exists v, f' = with_router f v) /\
  exists new, reps' = reps ++ new /\ NoDup (handles new) /\
    forall h, h ∈ handles new -> (w_next w <= h < w_next w')%nat /\ opened h id GoosefsBlock w'.
Proof.
  revert f reps err w. induction pool as [|info pool IH]; intros f reps err w; cbn [open_replicas].
  2: destruct (initial <=? zlen reps).
  1,2: intros [= <- <- <- <-]; split; [apply extends_refl|]; split; [exists (fw_router f); by destruct f|];
    exists []; rewrite app_nil_r; split; [done|]; split; [constructor|]; by intros h ?%elem_of_nil.
  unfold io_bind at 1. destruct (try_open_replica _ _ _ _ _ _ w) as [w1 [rep|e]] eqn:H1;
    apply try_open_spec in H1 as [Hx1 Hok1].
  - intros H2. destruct (Hok1 rep eq_refl) as [Hlt1 Ho1].
    apply IH in H2 as (Hx2 & Hf & new & -> & Hnd & Hnew).
    split; [by eapply extends_step|]. split; [done|]. exists (rep :: new).
    rewrite <- app_assoc. split; [done|]. cbn. pose proof (ex_next _ _ _ Hx1). split.
    + constructor; [|done]. intros Hin. apply Hnew in Hin as [Hin _]. lia.
    + intros h [->|Hh]%elem_of_cons.
      * pose proof (ex_next _ _ _ Hx2). split; [lia|]. by eapply opened_extends.
      * destruct (Hnew h Hh). split; [lia|done].
  - unfold io_bind. set (black := match wi_address info with Some _ => _ | None => _ end).
    destruct (black w1) as [w2 f2] eqn:H2. intros H3.
    assert (Hb : extends quiet w1 w2 /\ exists v, f2 = with_router f v).
    { unfold black in H2. destruct (wi_address info); [by apply blacklist_spec in H2|].
      injection H2 as <- <-. split; [apply extends_refl|]. exists (fw_router f). by destruct f. }
    destruct Hb as [Hx2 [v ->]].
    apply IH in H3 as (Hx3 & [v' ->] & new & -> & Hnd & Hnew).
    assert (Hx12 : extends quiet w w2) by (by eapply extends_step).
    pose proof (ex_next _ _ _ Hx12). split; [by eapply extends_step|]. split; [by exists v'|].
    exists new. split; [done|]. split; [done|]. intros h Hh. destruct (Hnew h Hh). split; [lia|done].
Qed.

(** ** Opening a block *)

(** The replicas every block must have. *)
Definition required_replicas : Z :=
  if ws_need_async_persist strategy then Z.max (wc_replication_durable_min cfg) 1 else 1.

Record fresh_block (id size : Z) (a : ActiveBlockWriter) (w w' : World) : Prop := {
  fb_id : aw_block_id a = id;
  fb_size : aw_block_size a = size;
  fb_written : aw_bytes_written a = 0;
  fb_pending : aw_pending_chunk a = [];
  fb_nodup : NoDup (handles (aw_replicas a));
  fb_streams : forall h, h ∈ handles (aw_replicas a) ->
    (w_next w <= h < w_next w')%nat /\ opened h id GoosefsBlock w';
  fb_min : required_replicas <= aw_min_needed a <= zlen (aw_replicas a);
}.

Lemma replica_pool_router f t id plan all f' r :
  replica_pool cfg strategy f t id plan all = (f', r) -> exists v, f' = with_router f v.
Proof.
  unfold replica_pool. destruct (if all then _ else _) as [v [pool|e]].
  - destruct (filter_not_failed t pool v) as [v' pool']. intros [= <- _]. eauto.
  - intros [= <- _]. eauto.
Qed.

Lemma open_replica_writers_spec f id size plan all w w' f' r :
  replica_write_plan (ws_need_async_persist strategy) (wc_replication_number cfg)
    (wc_replication_durable cfg) (wc_replication_durable_min cfg) (wc_write_max_node_retry cfg)
    = Ok plan ->
  open_replica_writers env cfg strategy f id size plan all w = (w', (f', r)) ->
  extends quiet w w' /\ (exists v, f' = with_router f v) /\
  (forall a, r = Ok a -> fresh_block id size a w w').
Proof.
  intros Hplan. unfold open_replica_writers, io_bind at 1, now.
  destruct (replica_pool cfg strategy f _ id plan all) as [f1 [pool|e]] eqn:Hp;
    apply replica_pool_router in Hp as [v ->].
  2:{ intros [= <- <- <-]. split; [apply extends_refl|]. split; [eauto|done]. }
  destruct pool as [|info pool].
  { intros [= <- <- <-]. split; [apply extends_refl|]. split; [by eexists|done]. }
  set (ps := info :: pool).
  destruct (degrade_replicas _ _ _ (zlen ps)) as [initial min_needed] eqn:Hdeg.
  assert (Hmin : required_replicas <= min_needed).
  { pose proof (replica_write_plan_bounds _ _ _ _ _ _ Hplan) as Hb.
    assert (Hps : 1 <= zlen ps) by (unfold ps, zlen; cbn; lia).
    unfold degrade_replicas in Hdeg. unfold required_replicas.
    revert Hplan. unfold replica_write_plan. destruct (ws_need_async_persist strategy); cbn [andb].
    - destruct (_ <? Z.max (wc_replication_durable_min cfg) 1); [done|]. intros [= <-]. cbn in *.
      destruct (zlen ps <? _); injection Hdeg as <- <-; cbn; lia.
    - intros [= <-]. cbn in *. destruct (zlen ps <? _); injection Hdeg as <- <-; cbn; lia. }
  unfold io_bind at 1. destruct (open_replicas _ _ _ _ _ _ ps [] None w) as [w1 [f2 [reps err]]] eqn:H1.
  apply open_replicas_spec in H1 as (Hx1 & [v' ->] & new & -> & Hnd & Hnew). cbn [app].
  destruct (_ || _) eqn:Hfew.
  - unfold io_bind, io_ret. destruct (cancel_all env new w1) as [w2 u] eqn:H2. intros [= <- <- <-].
    apply cancel_all_quiet in H2. split; [by eapply extends_step|]. split; [by eexists|done].
  - apply orb_false_iff in Hfew as [_ Hfew%Z.ltb_ge].
    intros [= <- <- <-]. split; [done|]. split; [by eexists|]. intros a [= <-]. by split.
Qed.

(** ** What a block holds *)

Abbreviation cs := (wc_chunk_size cfg).

(** Whether an explicit flush reaches the cache block. *)
Definition flush_reaches_cache : bool :=
  ws_need_async_persist strategy && wc_async_persist_flush_enabled cfg.

(** Whole chunks, then at most one shorter one. *)
Definition aligned (l : list bytes) : Prop :=
  exists l0 tl, l = l0 ++ tl /\ Forall (fun c => zlen c = cs) l0 /\
    (tl = [] \/ exists c, tl = [c] /\ 0 < zlen c < cs).

(** The open block has accepted [content]: its streams have received it up to the
    pending tail. *)
Record block_holds (w : World) (a : ActiveBlockWriter) (content : bytes) : Prop := {
  bh_len : zlen content = aw_bytes_written a;
  bh_room : aw_bytes_written a <= aw_block_size a;
  bh_pending : zlen (aw_pending_chunk a) < cs;
  bh_nodup : NoDup (handles (aw_replicas a));
  bh_min : required_replicas <= aw_min_needed a <= zlen (aw_replicas a);
  bh_streams : forall h, h ∈ handles (aw_replicas a) ->
    opened h (aw_block_id a) GoosefsBlock w /\
    received h w ++ aw_pending_chunk a = content /\
    (flush_reaches_cache = false -> Forall (fun c => zlen c = cs) (chunks h (w_trace w)));
}.

(** A block closed with [content] on enough workers. *)
Definition stored (w : World) (id : Z) (content : bytes) (hs : list nat) : Prop :=
  required_replicas <= zlen hs /\ NoDup hs /\
  forall h, h ∈ hs -> (h < w_next w)%nat /\ opened h id GoosefsBlock w /\ received h w = content /\
    happened (EvClose h) w /\ (flush_reaches_cache = false -> aligned (chunks h (w_trace w))).

Lemma received_extends (P : nat -> Prop) h w w' :
  extends P w w' -> ~ P h -> received h w' = received h w.
Proof. intros [_ _ Hs] Hh. unfold received. by rewrite Hs. Qed.

Lemma stored_extends (P : nat -> Prop) w w' id content hs :
  extends P w w' -> (forall h, h ∈ hs -> ~ P h) -> stored w id content hs -> stored w' id content hs.
Proof.
  intros Hx Hd (Hr & Hnd & Hall). split; [done|]. split; [done|]. intros h Hh.
  destruct (Hall h Hh) as (Hlt & Ho & Hrec & Hc & Hal). pose proof (ex_next _ _ _ Hx).
  split; [lia|]. split; [by eapply opened_extends|].
  split; [by rewrite (received_extends _ _ _ _ Hx (Hd h Hh))|].
  split; [by eapply happened_extends|]. by rewrite (ex_sent _ _ _ Hx h (Hd h Hh)).
Qed.

Lemma block_holds_extends (P : nat -> Prop) w w' a content :
  extends P w w' -> (forall h, h ∈ handles (aw_replicas a) -> ~ P h) ->
  block_holds w a content -> block_holds w' a content.
Proof.
  intros Hx Hd [H1 H2 H3 H4 H5 H6]. split; try done. intros h Hh.
  destruct (H6 h Hh) as (Ho & Hrec & Hal). split; [by eapply opened_extends|].
  split; [by rewrite (received_extends _ _ _ _ Hx (Hd h Hh))|].
  by rewrite (ex_sent _ _ _ Hx h (Hd h Hh)).
Qed.

Lemma received_got hs new w w' h :
  got hs new w w' -> h ∈ hs -> received h w' = received h w ++ mjoin new.
Proof. intros Hg Hh. unfold received. by rewrite Hg, join_app. Qed.

Lemma block_holds_fresh id size a w w' :
  0 <= size -> 0 < cs -> world_ok w -> fresh_block id size a w w' -> extends quiet w w' ->
  block_holds w' a [].
Proof.
  intros Hsize Hcs Hw [Hid Hsz Hwr Hp Hnd Hst Hmin] Hx.
  split; rewrite ?Hwr, ?Hp, ?Hsz; try done. intros h Hh. destruct (Hst h Hh) as [Hlt Ho].
  assert (Hc : chunks h (w_trace w') = []) by (rewrite (ex_sent _ _ _ Hx) by tauto; apply Hw; lia).
  rewrite Hid. split; [done|]. unfold received. rewrite Hc. split; [done|]. intros _. constructor.
Qed.

Lemma block_holds_emit w a content incoming w' a' :
  block_holds w a content -> zlen incoming <= active_remaining a ->
  emit_step cs (set_written a (aw_bytes_written a + zlen incoming)) a' incoming w w' (Ok tt) ->
  block_holds w' a' (content ++ incoming).
Proof.
  intros [H1 H2 H3 H4 H5 H6] Hroom [Hx Hnd Hsub Hsame Hok]. unfold active_remaining in Hroom.
  destruct (Hok eq_refl) as (new & Hgot & Hj & Hall & Hp & Hmin). cbn in *.
  split; try rewrite Hsame; cbn; [rewrite zlen_app; lia|lia|done|done| |].
  - split; [lia|]. apply Hmin. lia.
  - intros h Hh. destruct (H6 h (Hsub h Hh)) as (Ho & Hrec & Hal).
    split; [by eapply opened_extends|].
    rewrite (received_got _ _ _ _ _ Hgot Hh), <- app_assoc, Hj, app_assoc, Hrec. split; [done|].
    intros Hf. rewrite (Hgot h Hh), Forall_app. auto.
Qed.

(** ** Closing a block *)

Lemma aligned_close (l : list bytes) (tail : bytes) :
  Forall (fun c => zlen c = cs) l -> tail <> [] -> zlen tail < cs -> aligned (l ++ [tail]).
Proof.
  intros Hl Ht Hlt. exists l, [tail]. split; [done|]. split; [done|]. right. exists tail.
  split; [done|]. destruct tail; [done|]. unfold zlen in *. cbn in *. lia.
Qed.

(** The replicas have the whole block. *)
Record block_complete (w : World) (a : ActiveBlockWriter) (content : bytes) : Prop := {
  bc_nodup : NoDup (handles (aw_replicas a));
  bc_min : required_replicas <= aw_min_needed a <= zlen (aw_replicas a);
  bc_streams : forall h, h ∈ handles (aw_replicas a) ->
    opened h (aw_block_id a) GoosefsBlock w /\ received h w = content /\
    (flush_reaches_cache = false -> aligned (chunks h (w_trace w)));
}.

(** A step in which every stream that is left got [new]. *)
Lemma block_complete_step w a w' a' new content :
  active_step a a' new w w' (Ok tt) ->
  required_replicas <= aw_min_needed a <= zlen (aw_replicas a) ->
  (forall h, h ∈ handles (aw_replicas a) -> opened h (aw_block_id a) GoosefsBlock w /\
     received h w ++ mjoin new = content /\
     (flush_reaches_cache = false -> aligned (chunks h (w_trace w) ++ new))) ->
  block_complete w' a' content.
Proof.
  intros [Hx Hnd Hsub Hsame Hok] Hmin Hst. destruct (Hok eq_refl) as [Hgot Hm].
  split; [done|rewrite Hsame; cbn; split; [lia|apply Hm; lia]|].
  intros h Hh. destruct (Hst h (Hsub h Hh)) as (Ho & Hrec & Hal).
  split; [rewrite Hsame; by eapply opened_extends|].
  rewrite (received_got _ _ _ _ _ Hgot Hh), (Hgot h Hh). done.
Qed.

Lemma drain_tail w a content w' a' r :
  block_holds w a content ->
  (match aw_pending_chunk a with
   | [] => io_ret (set_pending a [], Ok tt)
   | _ => active_write_chunk env (set_pending a []) (aw_pending_chunk a)
   end) w = (w', (a', r)) ->
  exists new, active_step (set_pending a []) a' new w w' r /\
    (r = Ok tt -> block_complete w' a' content).
Proof.
  intros [H1 H2 H3 H4 H5 H6] Hrun.
  assert (Hstep : exists new, active_step (set_pending a []) a' new w w' r /\
    mjoin new = aw_pending_chunk a /\
    (new = [] \/ new = [aw_pending_chunk a] /\ aw_pending_chunk a <> [])).
  { destruct (aw_pending_chunk a) as [|x pend] eqn:Hp.
    - exists []. unfold io_ret in Hrun. injection Hrun as <- <- <-. split; [|auto].
      split; cbn; [apply extends_refl|done|done|done|].
      intros _. split; [by intros h _; rewrite app_nil_r|done].
    - exists [x :: pend]. split; [by apply (active_write_chunk_spec env (set_pending a []))|].
      split; [cbn; by rewrite app_nil_r|auto]. }
  destruct Hstep as (new & Hstep & Hj & Hnew). exists new. split; [done|]. intros ->.
  apply (block_complete_step w (set_pending a []) w' a' new content Hstep); [done|].
  intros h Hh. destruct (H6 h Hh) as (Ho & Hrec & Hal). split; [done|]. rewrite Hj. split; [done|].
  intros Hf. specialize (Hal Hf). destruct Hnew as [->|[-> Hne]]; [|by apply aligned_close].
  rewrite app_nil_r. exists (chunks h (w_trace w)), []. rewrite app_nil_r. auto.
Qed.

Lemma finish_block_spec f a offset commit w w' f' r content :
  block_complete w a content -> (forall h, h ∈ handles (aw_replicas a) -> (h < w_next w)%nat) ->
  finish_block env strategy f a offset commit w = (w', (f', r)) ->
  extends quiet w w' /\ (f' = f \/ f' = with_committed f (fw_committed_block_ids f ++ [aw_block_id a])) /\
  (is_ok r = true ->
     f' = with_committed f (fw_committed_block_ids f ++ [aw_block_id a]) /\
     stored w' (aw_block_id a) content (handles (aw_replicas a))).
Proof.
  intros [Hnd Hmin Hst] Hlt. unfold finish_block, io_bind at 1.
  destruct (close_replicas env a w) as [w1 r1] eqn:H1. apply close_each_spec in H1 as [Hx1 Hok1].
  assert (Hstored : r1 = Ok tt -> forall w2, extends quiet w1 w2 ->
    stored w2 (aw_block_id a) content (handles (aw_replicas a))).
  { intros Hr1 w2 Hx2. eapply stored_extends; [exact Hx2|tauto|].
    destruct (Hok1 Hr1) as [_ Hcl]. split; [unfold zlen in *; rewrite length_map; lia|].
    split; [done|]. intros h Hh. destruct (Hst h Hh) as (Ho & Hrec & Hal).
    pose proof (ex_next _ _ _ Hx1). specialize (Hlt h Hh). split; [lia|].
    split; [by eapply opened_extends|]. rewrite (received_extends _ _ _ _ Hx1) by tauto.
    rewrite (ex_sent _ _ _ Hx1) by tauto. auto. }
  destruct r1 as [[]|e]; unfold io_ret at 1; [|intros [= <- <- <-]; split; [done|]; split; [by right|done]].
  set (report := match file_location a offset with Some _ => _ | None => _ end).
  unfold io_bind. destruct (report w1) as [w2 r2] eqn:H2.
  assert (Hx2 : extends quiet w1 w2).
  { unfold report in H2. destruct (file_location a offset); [destruct (_ && _)|];
      [by apply attempt_quiet in H2|injection H2 as <- _; apply extends_refl..]. }
  destruct r2; intros [= <- <- <-]; (split; [by eapply extends_step|]).
  - split; [by right|]. intros _. split; [done|]. by apply Hstored.
  - split; [by left|done].
Qed.

Lemma extends_quiet_held (hs : list nat) w w' : extends quiet w w' -> extends (fun h => h ∈ hs) w w'.
Proof. by apply extends_weaken. Qed.

Lemma close_current_block_spec f a content commit w w' f' r :
  fw_current_block_writer f = Some a -> block_holds w a content ->
  held_ok (handles (aw_replicas a)) w ->
  close_current_block env strategy f commit w = (w', (f', r)) ->
  cache_keeps w f w' f' /\ fw_current_block_writer f' = None /\
  (is_ok r = true -> 0 < aw_bytes_written a ->
     fw_committed_block_ids f' = fw_committed_block_ids f ++ [aw_block_id a] /\
     exists hs, hs ⊆ handles (aw_replicas a) /\ stored w' (aw_block_id a) content hs).
Proof.
  intros Ha Hbh Hheld. unfold close_current_block. rewrite Ha. cbn zeta.
  assert (Hkeep : forall w1 f1, same_outer f f1 -> fw_block_opened f1 = fw_block_opened f ->
    fw_current_block_writer f1 = None ->
    extends (fun h => h ∈ handles (aw_replicas a)) w w1 -> cache_keeps w f w1 f1).
  { intros w1 f1 Hso Hbo Hc Hx. apply (cache_keeps_block w f w1 f1 (handles (aw_replicas a)));
      [done|by rewrite Hbo|by rewrite Ha|done| | |done]; rewrite Hc; cbn; [by constructor|set_solver]. }
  cbn [aw_bytes_written set_pending].
  destruct (Z.ltb_spec 0 (aw_bytes_written a)) as [Hpos|Hz].
  2:{ unfold io_bind, io_ret. destruct (cancel_replicas env _ w) as [w1 u] eqn:Hc.
      intros [= <- <- <-]. apply cancel_all_quiet in Hc.
      split; [apply Hkeep; [by split|done|done|by apply extends_quiet_held]|]. split; [done|lia]. }
  io_step w1 out1 H1. destruct out1 as [a1 r1].
  destruct (drain_tail _ _ _ _ _ _ Hbh H1) as (new & [Hx1 Hnd1 Hsub1 Hsame1 _] & Hdone).
  cbn in Hx1, Hsub1. destruct r1 as [[]|e].
  2:{ unfold io_bind, io_ret. destruct (cancel_replicas env a1 w1) as [w2 u] eqn:Hc.
      intros [= <- <- <-]. apply cancel_all_quiet, (extends_quiet_held (handles (aw_replicas a))) in Hc.
      split; [apply Hkeep; [by split|done|done|by eapply extends_step]|]. done. }
  specialize (Hdone eq_refl). io_step w2 out2 H2. destruct out2 as [a2 r2].
  assert (Hflush : active_step a1 a2 [] w1 w2 r2).
  { destruct (should_flush_cache_block_on_close commit); [by apply (flush_replicas_spec env)|].
    unfold io_ret in H2. injection H2 as <- <- <-. split; [apply extends_refl|done|done| |].
    - by rewrite set_replicas_self.
    - intros _. split; [by intros h _; rewrite app_nil_r|done]. }
  pose proof Hflush as [Hx2 Hnd2 Hsub2 Hsame2 _].
  assert (Hx12 : extends (fun h => h ∈ handles (aw_replicas a)) w w2).
  { eapply extends_trans; [..|exact Hx1|exact Hx2]; [done|]. cbn. intros h Hh. by apply Hsub1. }
  destruct r2 as [[]|e].
  2:{ unfold io_bind, io_ret. destruct (cancel_replicas env a2 w2) as [w3 u] eqn:Hc.
      intros [= <- <- <-]. apply cancel_all_quiet, (extends_quiet_held (handles (aw_replicas a))) in Hc.
      split; [apply Hkeep; [by split|done|done|by eapply extends_step]|]. done. }
  assert (Hcomp : block_complete w2 a2 content).
  { destruct Hdone as [Hn Hm Hst]. apply (block_complete_step w1 a1 w2 a2 []); [done|done|].
    intros h Hh. rewrite !app_nil_r. by apply Hst. }
  assert (Hsub : handles (aw_replicas a2) ⊆ handles (aw_replicas a)) by (etrans; done).
  intros H3. apply (finish_block_spec _ _ _ _ _ _ _ _ content) in H3 as (Hx3 & Hf' & Hok); [|done|].
  2:{ intros h Hh. apply Hsub in Hh. apply Hheld in Hh. pose proof (ex_next _ _ _ Hx12). lia. }
  assert (Hid : aw_block_id a2 = aw_block_id a) by (rewrite Hsame2; cbn; by rewrite Hsame1).
  split; [|split; [by destruct Hf' as [->| ->]|]].
  - apply Hkeep; [by destruct Hf' as [->| ->]; split|by destruct Hf' as [->| ->]..|].
    eapply extends_step; [exact Hx12|by apply extends_quiet_held].
  - intros Hr _. destruct (Hok Hr) as [-> Hst]. rewrite Hid in *. split; [done|]. eauto.
Qed.

(** ** The cache stream *)

Abbreviation bs := (block_size_of cfg file_info).
Abbreviation block_id_of i := (compute_block_id (default 0 (fi_file_id file_info)) i).

(** The blocks committed so far and the open one hold [data] block by block. *)
Record cache_ok (w : World) (f : GoosefsFileWriter) (data : bytes) : Prop := {
  co_full : zlen (fw_committed_block_ids f) * bs <= zlen data;
  co_blocks : forall (i : nat) id, fw_committed_block_ids f !! i = Some id ->
    id = block_id_of (Z.of_nat i) /\
    exists hs, stored w id (slice (Z.of_nat i * bs) (Z.of_nat i * bs + bs) data) hs /\
      forall h, h ∈ hs -> h ∉ cache_handles f /\ h ∉ ufs_handles f;
  co_active : match fw_current_block_writer f with
    | None => zlen data = zlen (fw_committed_block_ids f) * bs
    | Some a => aw_block_id a = block_id_of (zlen (fw_committed_block_ids f)) /\
        aw_block_size a = bs /\
        block_holds w a (slice (zlen (fw_committed_block_ids f) * bs) (zlen data) data)
    end;
  co_started : data <> [] \/ is_Some (fw_current_block_writer f) -> fw_block_opened f = true;
}.

Lemma open_next_block_spec f w w' f' r :
  0 < cs -> 0 < bs -> world_ok w -> held_ok (cache_handles f) w ->
  (forall a, fw_current_block_writer f = Some a -> exists content, block_holds w a content) ->
  open_next_block env cfg file_info strategy f bs w = (w', (f', r)) ->
  cache_keeps w f w' f' /\
  (r = Ok tt -> fw_block_opened f' = true /\ exists a', fw_current_block_writer f' = Some a' /\
     aw_block_id a' = block_id_of (zlen (fw_committed_block_ids f')) /\ aw_block_size a' = bs /\
     block_holds w' a' [] /\
     (forall h, h ∈ handles (aw_replicas a') -> (w_next w <= h)%nat) /\
     match fw_current_block_writer f with
     | None => fw_committed_block_ids f' = fw_committed_block_ids f
     | Some a => forall content, block_holds w a content -> 0 < aw_bytes_written a ->
         fw_committed_block_ids f' = fw_committed_block_ids f ++ [aw_block_id a] /\
         exists hs, hs ⊆ handles (aw_replicas a) /\ stored w' (aw_block_id a) content hs
     end).
Proof.
  intros Hcs Hbs Hw Hheld Hactive. unfold open_next_block.
  io_step w1 out1 H1. destruct out1 as [f1 r1].
  assert (Hclose : cache_keeps w f w1 f1 /\ fw_current_block_writer f1 = None /\
    (is_ok r1 = true -> match fw_current_block_writer f with
     | None => fw_committed_block_ids f1 = fw_committed_block_ids f
     | Some a => forall content, block_holds w a content -> 0 < aw_bytes_written a ->
         fw_committed_block_ids f1 = fw_committed_block_ids f ++ [aw_block_id a] /\
         exists hs, hs ⊆ handles (aw_replicas a) /\ stored w1 (aw_block_id a) content hs
     end)).
  { destruct (fw_current_block_writer f) as [a|] eqn:Ha.
    - cbn in Hheld. destruct (Hactive a eq_refl) as [c0 Hc0].
      destruct (close_current_block_spec _ _ _ _ _ _ _ _ Ha Hc0 Hheld H1) as (Hk & Hn & _).
      split; [done|]. split; [done|]. intros Hr content Hc Hpos.
      by apply (close_current_block_spec _ _ _ _ _ _ _ _ Ha Hc Hheld H1).
    - unfold io_ret in H1. injection H1 as <- <- <-. split; [apply cache_keeps_refl|]. done. }
  destruct Hclose as (Hk1 & Hnone & Hcommit).
  destruct r1 as [loc|e]; [|intros [= <- <- <-]; done]. specialize (Hcommit eq_refl).
  set (id := block_id_of (zlen (fw_committed_block_ids f1))).
  destruct (replica_write_plan _ _ _ _ _) as [plan|e] eqn:Hplan; [|intros [= <- <- <-]; done].
  io_step w2 out2 H2. destruct out2 as [f2 r2].
  destruct (open_replica_writers_spec _ _ _ _ _ _ _ _ _ Hplan H2) as (Hx2 & [v2 Hf2] & Hok2).
  io_step w3 out3 H3. destruct out3 as [f3 r3].
  assert (Hopened : extends quiet w1 w3 /\ (exists v, f3 = with_router f1 v) /\
    forall a, r3 = Ok a -> fresh_block id bs a w1 w3).
  { destruct r2 as [a|e].
    - unfold io_ret in H3. injection H3 as <- <- <-. eauto.
    - destruct (open_replica_writers_spec _ _ _ _ _ _ _ _ _ Hplan H3) as (Hx3 & [v3 Hf3] & Hok3).
      split; [by eapply extends_step|]. split; [exists v3; by rewrite Hf3, Hf2|].
      intros a Ha. destruct (Hok3 a Ha) as [E1 E2 E3 E4 E5 E6 E7].
      pose proof (ex_next _ _ _ Hx2). split; try done. intros h Hh. destruct (E6 h Hh). split; [lia|done]. }
  destruct Hopened as (Hx3 & [v Hf3] & Hok3).
  assert (Hk3 : cache_keeps w f w3 f3).
  { eapply cache_keeps_trans; [done|exact Hk1|].
    apply cache_keeps_quiet; [by rewrite Hf3; split|by rewrite Hf3|by rewrite Hf3|done]. }
  destruct r3 as [a|e]; intros [= <- <- <-]; [|done].
  pose proof (Hok3 a eq_refl) as Hfresh. pose proof Hfresh as [E1 E2 E3 E4 E5 E6 E7].
  pose proof (ex_next _ _ _ (ck_extends _ _ _ _ Hk1)).
  pose proof (ex_next _ _ _ Hx3).
  split.
  - destruct Hk3 as [Ho Hb Hx Hwo Hh]. split; [by destruct Ho; split|done|done|done|]. intros _. cbn.
    split; [split; [done|]; intros h Hh'; destruct (E6 h Hh'); lia|].
    intros h Hh'. right. destruct (E6 h Hh'). lia.
  - intros _. split; [done|]. exists a. split; [done|]. cbn [fw_committed_block_ids with_block].
    rewrite Hf3. cbn [fw_committed_block_ids with_router].
    split; [done|]. split; [done|].
    split; [apply (block_holds_fresh id bs a w1); [lia|done|by apply (ck_world _ _ _ _ Hk1)|done|done]|].
    split; [intros h Hh; destruct (E6 h Hh); lia|].
    destruct (fw_current_block_writer f) as [a0|]; [|done]. intros content Hc Hpos.
    destruct (Hcommit content Hc Hpos) as [Hids (hs & Hsub & Hst)]. split; [done|].
    exists hs. split; [done|]. by eapply stored_extends; [exact Hx3|tauto|].
Qed.
End Facts.
