(* ===== verification/FileWriterProps.v ===== *)
(** * File writer: the invariant

    While every call succeeds, the cache blocks hold the data block by block and the
    UFS stream, if there is one, has all of it. *)

From S2P Require Import Prelude Text Errors Proto HashRing Router Crc ReplicaPlan BlockWriter.
From S2P Require Import BlockWriterFacts FileWriter FileWriterFacts.

Lemma slice_app_left {A : Type} (lo hi : Z) (l k : list A) :
  0 <= lo -> hi <= zlen l -> slice lo hi (l ++ k) = slice lo hi l.
Proof.
  intros Hlo Hhi. unfold slice, zlen in *. destruct (Z.le_gt_cases hi lo).
  - replace (Z.to_nat (hi - lo)) with 0%nat by lia. done.
  - rewrite drop_app_le by lia. rewrite take_app_le; [done|]. rewrite length_drop. lia.
Qed.

Section Props.
Context (env : WriteEnv) (cfg : WriterConfig) (file_info : FileInfo) (strategy : WriteStrategy).

Abbreviation bs := (block_size_of cfg file_info).
Abbreviation cs := (wc_chunk_size cfg).
Abbreviation Cache_ok := (cache_ok cfg file_info strategy).
Abbreviation Holds := (block_holds cfg strategy).
Abbreviation Stored := (stored cfg strategy).

Context (Hcs : 0 < cs) (Hbs : 0 < bs).

(** Streams closed for good stay as they are. *)
Lemma stored_away w f w' f' id content hs :
  cache_keeps w f w' f' -> held_ok (cache_handles f) w -> Stored w id content hs ->
  (forall h, h ∈ hs -> h ∉ cache_handles f /\ h ∉ ufs_handles f) ->
  Stored w' id content hs /\ forall h, h ∈ hs -> h ∉ cache_handles f' /\ h ∉ ufs_handles f'.
Proof.
  intros Hk Hheld Hst Hoff. pose proof Hst as (_ & _ & Hall).
  assert (Hown : forall h, h ∈ hs -> ~ own (cache_handles f) w w' h).
  { intros h Hh [Hin|Hin]; [by destruct (Hoff h Hh)|]. destruct (Hall h Hh). lia. }
  split; [by eapply stored_extends; [apply (ck_extends _ _ _ _ Hk)| |]|].
  intros h Hh. destruct (ck_held _ _ _ _ Hk Hheld) as [_ Hsub]. split.
  - intros Hin. by apply (Hown h Hh), Hsub.
  - unfold ufs_handles. rewrite (so_ufs _ _ (ck_outer _ _ _ _ Hk)). by apply Hoff.
Qed.

Lemma cache_ok_blocks w f w' f' data i id :
  cache_keeps w f w' f' -> held_ok (cache_handles f) w -> Cache_ok w f data ->
  fw_committed_block_ids f !! i = Some id ->
  id = compute_block_id (default 0 (fi_file_id file_info)) (Z.of_nat i) /\
  exists hs, Stored w' id (slice (Z.of_nat i * bs) (Z.of_nat i * bs + bs) data) hs /\
    forall h, h ∈ hs -> h ∉ cache_handles f' /\ h ∉ ufs_handles f'.
Proof.
  intros Hk Hheld Hc Hi. destruct (co_blocks _ _ _ _ _ _ Hc i id Hi) as (Hid & hs & Hst & Hoff).
  split; [done|]. exists hs. by apply (stored_away w f).
Qed.

(** A full block is committed and a new one is open. *)
Lemma cache_ok_open w f data w' f' r :
  world_ok w -> held_ok (cache_handles f) w ->
  (forall h, h ∈ cache_handles f -> h ∉ ufs_handles f) ->
  (forall h, h ∈ ufs_handles f -> (h < w_next w)%nat) ->
  Cache_ok w f data -> needs_fresh_block (active_remaining <$> fw_current_block_writer f) = true ->
  open_next_block env cfg file_info strategy f bs w = (w', (f', r)) ->
  cache_keeps w f w' f' /\
  (r = Ok tt -> Cache_ok w' f' data /\ exists a, fw_current_block_writer f' = Some a /\
     active_remaining a = bs).
Proof.
  intros Hw Hheld Hdis Hufs Hc Hfresh Hrun.
  assert (Hact : forall a, fw_current_block_writer f = Some a -> exists content, Holds w a content).
  { intros a Ha. pose proof (co_active _ _ _ _ _ _ Hc) as H. rewrite Ha in H.
    destruct H as (_ & _ & H). eauto. }
  destruct (open_next_block_spec env cfg file_info strategy _ _ _ _ _ Hcs Hbs Hw Hheld Hact Hrun)
    as [Hk Hok]. split; [done|]. intros ->.
  destruct (Hok eq_refl) as (Hop & a' & Ha' & Hid' & Hsz' & Hh' & Hnew & Hcommit).
  split; [|exists a'; split; [done|]; unfold active_remaining; rewrite Hsz', <- (bh_len _ _ _ _ _ Hh');
    change (zlen []) with 0; lia].
  pose proof (co_full _ _ _ _ _ _ Hc) as Hfull. pose proof (co_active _ _ _ _ _ _ Hc) as Hact'.
  assert (Hlen : zlen data = zlen (fw_committed_block_ids f') * bs /\
    forall i id, fw_committed_block_ids f' !! i = Some id ->
      id = compute_block_id (default 0 (fi_file_id file_info)) (Z.of_nat i) /\
      exists hs, Stored w' id (slice (Z.of_nat i * bs) (Z.of_nat i * bs + bs) data) hs /\
        forall h, h ∈ hs -> h ∉ cache_handles f' /\ h ∉ ufs_handles f').
  { pose proof (cache_ok_blocks w f w' f' data) as Hold.
    destruct (fw_current_block_writer f) as [a|] eqn:Ha.
    2:{ rewrite Hcommit. split; [done|]. intros i id Hi. by apply Hold. }
    destruct Hact' as (Hid & Hsz & Hhold). cbn in Hfresh. apply Z.eqb_eq in Hfresh.
    unfold active_remaining in Hfresh. pose proof (bh_len _ _ _ _ _ Hhold) as Hl.
    pose proof (zlen_nonneg (fw_committed_block_ids f)).
    rewrite zlen_slice in Hl by lia.
    destruct (Hcommit _ Hhold ltac:(lia)) as [Hids (hs & Hsub & Hst)]. rewrite Hids.
    rewrite zlen_app. change (zlen [aw_block_id a]) with 1. split; [lia|].
    intros i id [Hi|[Hi Hid1]]%lookup_app_Some; [by apply Hold|].
    apply list_lookup_singleton_Some in Hid1 as [Hi0 <-].
    assert (Hiz : Z.of_nat i = zlen (fw_committed_block_ids f)) by (unfold zlen; lia).
    rewrite Hiz. split; [done|]. exists hs.
    replace (zlen (fw_committed_block_ids f) * bs + bs) with (zlen data) by lia. split; [done|].
    intros h Hh. specialize (Hsub h Hh). split.
    - rewrite Ha'. cbn. intros Hin. specialize (Hnew h Hin). apply Hheld in Hsub. lia.
    - unfold ufs_handles. rewrite (so_ufs _ _ (ck_outer _ _ _ _ Hk)). by apply Hdis. }
  destruct Hlen as [Hlen Hblocks]. split; [lia|done| |done].
  rewrite Ha'. split; [done|]. split; [done|]. by rewrite slice_nil by lia.
Qed.

(** Placing the next bytes in the open block. *)
Lemma cache_ok_place w f data a incoming w' a' :
  held_ok (cache_handles f) w -> Cache_ok w f data -> fw_current_block_writer f = Some a ->
  0 < zlen incoming <= active_remaining a ->
  emit_step cs (set_written a (aw_bytes_written a + zlen incoming)) a' incoming w w' (Ok tt) ->
  cache_keeps w f w' (with_block f (fw_block_opened f) (Some a')) ->
  Cache_ok w' (with_block f (fw_block_opened f) (Some a')) (data ++ incoming).
Proof.
  intros Hheld Hc Ha Hin Hemit Hk. pose proof (co_active _ _ _ _ _ _ Hc) as Hact.
  rewrite Ha in Hact. destruct Hact as (Hid & Hsz & Hhold).
  pose proof (block_holds_emit cfg strategy w a _ incoming w' a' Hhold (proj2 Hin) Hemit) as Hhold'.
  pose proof (es_same _ _ _ _ _ _ _ Hemit) as Hsame. pose proof (co_full _ _ _ _ _ _ Hc) as Hfull.
  pose proof (zlen_nonneg (fw_committed_block_ids f)).
  split; cbn [fw_committed_block_ids with_block fw_current_block_writer fw_block_opened].
  - rewrite zlen_app. lia.
  - intros i id Hi. destruct (cache_ok_blocks _ _ _ _ _ i id Hk Hheld Hc Hi) as [Hid' (hs & Hst & Hoff)].
    split; [done|]. exists hs. split; [|done]. apply lookup_lt_Some in Hi.
    rewrite slice_app_left; [done|lia|]. unfold zlen in *. nia.
  - rewrite Hsame. cbn. split; [done|]. split; [done|]. rewrite <- Hsame.
    replace (slice (zlen (fw_committed_block_ids f) * bs) (zlen (data ++ incoming)) (data ++ incoming))
      with (slice (zlen (fw_committed_block_ids f) * bs) (zlen data) data ++ incoming); [done|].
    rewrite <- (slice_app_left _ _ data incoming) by lia.
    assert (Hi : incoming = slice (zlen data) (zlen (data ++ incoming)) (data ++ incoming)).
    { unfold slice, zlen. rewrite Nat2Z.id, drop_app_length, length_app, take_ge; [done|lia]. }
    rewrite Hi at 2. apply slice_app; rewrite ?zlen_app; lia.
  - intros _. apply (co_started _ _ _ _ _ _ Hc). right. by rewrite Ha.
Qed.

(** The streams the writer holds: below the counter, distinct, cache apart from UFS. *)
Record calm (w : World) (f : GoosefsFileWriter) : Prop := {
  ca_world : world_ok w;
  ca_cache : held_ok (cache_handles f) w;
  ca_apart : forall h, h ∈ cache_handles f -> h ∉ ufs_handles f;
  ca_ufs : forall h, h ∈ ufs_handles f -> (h < w_next w)%nat;
}.

Lemma calm_keeps w f w' f' : calm w f -> cache_keeps w f w' f' -> calm w' f'.
Proof.
  intros [Hw Hc Ha Hu] Hk. pose proof (ex_next _ _ _ (ck_extends _ _ _ _ Hk)).
  destruct (ck_held _ _ _ _ Hk Hc) as [Hc' Hown].
  assert (Heq : ufs_handles f' = ufs_handles f)
    by (unfold ufs_handles; by rewrite (so_ufs _ _ (ck_outer _ _ _ _ Hk))).
  split; [by apply (ck_world _ _ _ _ Hk)|done|rewrite Heq..].
  - intros h Hh Hin. destruct (Hown h Hh) as [Hold|Hnew]; [by apply (Ha h)|].
    specialize (Hu h Hin). lia.
  - intros h Hh. specialize (Hu h Hh). lia.
Qed.

Lemma emit_keeps w f a incoming n w' a' r :
  held_ok (cache_handles f) w -> fw_current_block_writer f = Some a ->
  emit_step cs (set_written a n) a' incoming w w' r ->
  cache_keeps w f w' (with_block f (fw_block_opened f) (Some a')).
Proof.
  intros Hheld Ha [Hx Hnd Hsub _ _]. cbn in *.
  apply (cache_keeps_block _ _ _ _ (handles (aw_replicas a))); try done; [by rewrite Ha|].
  by rewrite Ha in Hheld.
Qed.

Lemma write_to_cache_loop_spec fuel f data offset acc w w' f' r :
  calm w f -> Cache_ok w f acc -> 0 <= offset <= zlen data ->
  zlen data - offset <= Z.of_nat fuel ->
  write_to_cache_loop env cfg file_info strategy fuel f data offset w = (w', (f', r)) ->
  cache_keeps w f w' f' /\
  (r = Ok tt -> Cache_ok w' f' (acc ++ slice offset (zlen data) data)).
Proof.
  revert f offset acc w. induction fuel as [|fuel IH]; intros f offset acc w Hcalm Hc Ho Hf;
    cbn [write_to_cache_loop]; (destruct (Z.ltb_spec offset (zlen data)) as [Hlt|Hge];
      [try lia|intros [= <- <- <-]; split; [apply cache_keeps_refl|]; intros _;
        by rewrite slice_nil, app_nil_r by lia]).
  io_step w1 out1 H1. destruct out1 as [f1 r1].
  assert (Hready : cache_keeps w f w1 f1 /\ (r1 = Ok tt -> Cache_ok w1 f1 acc /\
    exists a, fw_current_block_writer f1 = Some a /\ 0 < active_remaining a)).
  { destruct Hcalm as [Hw Hh Ha Hu]. destruct (needs_fresh_block _) eqn:Hfresh.
    - destruct (cache_ok_open _ _ _ _ _ _ Hw Hh Ha Hu Hc Hfresh H1) as [Hk Hok]. split; [done|].
      intros Hr. destruct (Hok Hr) as (Hc' & a & Ha' & Hrem). split; [done|]. exists a. split; [done|lia].
    - unfold io_ret in H1. injection H1 as <- <- <-. split; [apply cache_keeps_refl|].
      intros _. split; [done|]. pose proof (co_active _ _ _ _ _ _ Hc) as Hact.
      destruct (fw_current_block_writer f) as [a|]; [|done]. exists a. split; [done|].
      destruct Hact as (_ & _ & Hhold). pose proof (bh_room _ _ _ _ _ Hhold).
      cbn in Hfresh. apply Z.eqb_neq in Hfresh. unfold active_remaining in *. lia. }
  destruct Hready as [Hk1 Hok1]. pose proof (calm_keeps _ _ _ _ Hcalm Hk1) as Hcalm1.
  destruct r1 as [[]|e]; [|intros [= <- <- <-]; done].
  destruct (Hok1 eq_refl) as (Hc1 & a & Ha & Hrem). rewrite Ha. cbn zeta.
  set (n := Z.min (active_remaining a) (zlen data - offset)).
  assert (Hn : zlen (slice offset (offset + n) data) = n) by (rewrite zlen_slice by lia; lia).
  io_step w2 out2 H2. destruct out2 as [a2 r2].
  pose proof (co_active _ _ _ _ _ _ Hc1) as Hact. rewrite Ha in Hact. destruct Hact as (_ & _ & Hhold).
  apply emit_spec in H2; [|done|exact (bh_pending _ _ _ _ _ Hhold)|exact (bh_nodup _ _ _ _ _ Hhold)].
  pose proof (emit_keeps _ _ _ _ _ _ _ _ (ca_cache _ _ Hcalm1) Ha H2) as Hk2.
  pose proof (cache_keeps_trans _ _ _ _ _ _ (ca_cache _ _ Hcalm) Hk1 Hk2) as Hk12.
  destruct r2 as [[]|e]; [|intros [= <- <- <-]; done]. intros H3.
  assert (Hc2 : Cache_ok w2 (with_block f1 (fw_block_opened f1) (Some a2))
    (acc ++ slice offset (offset + n) data)).
  { apply (cache_ok_place w1 f1 acc a _ w2 a2 (ca_cache _ _ Hcalm1) Hc1 Ha); rewrite ?Hn;
      [lia|done|done]. }
  apply (IH _ _ _ _ (calm_keeps _ _ _ _ Hcalm Hk12) Hc2) in H3 as [Hk3 Hok3]; [|lia|lia].
  split; [by eapply cache_keeps_trans; [apply (ca_cache _ _ Hcalm)|..]|].
  intros Hr. specialize (Hok3 Hr). rewrite <- app_assoc, slice_app in Hok3 by lia. done.
Qed.

(** ** The UFS stream *)

Definition ufs_holds (w : World) (f : GoosefsFileWriter) (data : bytes) : Prop :=
  match fw_ufs_stream f with
  | Some g => opened (gw_handle g) UFS_BLOCK_ID UfsFile w /\ received (gw_handle g) w = data
  | None => data = []
  end.

Lemma open_ufs_stream_spec f w w' f' r :
  open_ufs_stream env strategy f w = (w', (f', r)) ->
  extends quiet w w' /\
  (r <> Ok tt -> exists v, f' = with_router f v) /\
  (r = Ok tt -> exists v g addr, f' = with_ufs (with_router f v) (Some g) addr (fw_ufs_stream_completed f) /\
     (w_next w <= gw_handle g < w_next w')%nat /\ opened (gw_handle g) UFS_BLOCK_ID UfsFile w').
Proof.
  unfold open_ufs_stream. destruct (view_pick_any_worker _ _ _) as [v [info|e]];
    [|intros [= <- <- <-]; split; [apply extends_refl|]; split; [eauto|done]].
  destruct (wi_address info) as [addr|];
    [|intros [= <- <- <-]; split; [apply extends_refl|]; split; [eauto|done]].
  cbn zeta. io_step w1 r1 H1. apply attempt_quiet in H1 as Hx1; [|done].
  assert (Hblack : forall w2 e, extends quiet w w2 ->
    (let! f := blacklist env (with_router f v) addr (rpc_endpoint addr) in io_ret (f, Err e)) w2
      = (w', (f', r)) -> extends quiet w w' /\ (r <> Ok tt -> exists v, f' = with_router f v) /\
      r = Err e).
  { intros w2 e Hx. unfold io_bind, io_ret. destruct (blacklist env _ _ _ w2) as [w3 f3] eqn:Hb.
    intros [= <- <- <-]. apply blacklist_spec in Hb as [Hx3 [v3 ->]].
    split; [by eapply extends_step|]. split; [by eexists|done]. }
  destruct r1 as [u|e]; [|intros (Hx & Hv & ->)%Hblack; done].
  io_step w2 r2 H2. apply writer_open_spec in H2 as (Hx2 & Hn2 & Hok2).
  destruct r2 as [g|e]; [|intros (Hx & Hv & ->)%Hblack; [done|by eapply extends_step]].
  destruct (Hok2 g eq_refl) as (Hg & _ & Ho). pose proof (ex_next _ _ _ Hx1).
  intros [= <- <- <-]. split; [by eapply extends_step|]. split; [done|]. intros _.
  exists v, g, (Some (rpc_endpoint addr)). split; [done|]. rewrite Hg. split; [lia|done].
Qed.

(** All but the router and the UFS stream. *)
Record same_but_ufs (f f' : GoosefsFileWriter) : Prop := {
  su_block : fw_current_block_writer f' = fw_current_block_writer f;
  su_committed : fw_committed_block_ids f' = fw_committed_block_ids f;
  su_opened : fw_block_opened f' = fw_block_opened f;
  su_cache : fw_should_cache f' = fw_should_cache f;
  su_ufs_enabled : fw_ufs_write_enabled f' = fw_ufs_write_enabled f;
  su_total : fw_total_bytes_written f' = fw_total_bytes_written f;
  su_checksum : fw_checksum f' = fw_checksum f;
  su_cancelled : fw_cancelled f' = fw_cancelled f;
  su_closed : fw_closed f' = fw_closed f;
  su_completed : fw_ufs_stream_completed f' = fw_ufs_stream_completed f;
}.

(** Traffic on the UFS stream leaves the cache blocks alone. *)
Lemma cache_ok_ufs (P : nat -> Prop) w f w' f' data :
  calm w f -> fw_current_block_writer f' = fw_current_block_writer f ->
  fw_committed_block_ids f' = fw_committed_block_ids f -> fw_block_opened f' = fw_block_opened f ->
  extends P w w' ->
  (forall h, P h -> h ∈ ufs_handles f \/ (w_next w <= h < w_next w')%nat) ->
  (forall h, h ∈ ufs_handles f' -> h ∈ ufs_handles f \/ (w_next w <= h < w_next w')%nat) ->
  calm w' f' /\ (Cache_ok w f data -> Cache_ok w' f' data).
Proof.
  intros [Hw [Hnd Hlt] Ha Hu] Hb Hids Hop Hx HP Hufs. pose proof (ex_next _ _ _ Hx) as Hn. split.
  - split; rewrite ?Hb.
    + eapply world_ok_extends; [done| |exact Hx]. intros h Hh. destruct (HP h Hh) as [Hin|]; [|lia].
      specialize (Hu h Hin). lia.
    + split; [done|]. intros h Hh. specialize (Hlt h Hh). lia.
    + intros h Hh Hin. specialize (Hlt h Hh). destruct (Hufs h Hin) as [Hin'|]; [by apply (Ha h)|lia].
    + intros h Hh. destruct (Hufs h Hh) as [Hin|]; [specialize (Hu h Hin)|]; lia.
  - intros [Hfull Hblocks Hact Hst].
    split; rewrite ?Hb, ?Hids, ?Hop; [done| | |done].
    + intros i id Hi. destruct (Hblocks i id Hi) as (Hid & hs & Hstored & Hoff). split; [done|].
      pose proof Hstored as (_ & _ & Hall). exists hs. split.
      * eapply stored_extends; [exact Hx| |done]. intros h Hh Hp.
        destruct (HP h Hp) as [Hin|]; [by destruct (Hoff h Hh)|]. destruct (Hall h Hh). lia.
      * intros h Hh. split; [by apply Hoff|]. intros Hin.
        destruct (Hufs h Hin) as [Hin'|]; [by destruct (Hoff h Hh)|]. destruct (Hall h Hh). lia.
    + destruct (fw_current_block_writer f) as [a|]; [|done]. destruct Hact as (H1 & H2 & H3).
      split; [done|]. split; [done|]. eapply block_holds_extends; [exact Hx| |done].
      intros h Hh Hp. cbn in Hlt, Ha. destruct (HP h Hp) as [Hin|]; [by apply (Ha h)|].
      specialize (Hlt h Hh). lia.
Qed.

Lemma write_to_ufs_spec f data acc w w' f' :
  calm w f -> ufs_holds w f acc -> write_to_ufs_stream env cfg strategy f data w = (w', (f', Ok tt)) ->
  same_but_ufs f f' /\ calm w' f' /\ ufs_holds w' f' (acc ++ data) /\
  is_Some (fw_ufs_stream f') /\ (forall d, Cache_ok w f d -> Cache_ok w' f' d).
Proof.
  intros Hcalm Hu. unfold write_to_ufs_stream. io_step w1 out1 H1. destruct out1 as [f1 r1].
  assert (Hopen : r1 = Ok tt -> exists g, fw_ufs_stream f1 = Some g /\ same_but_ufs f f1 /\
    extends quiet w w1 /\ opened (gw_handle g) UFS_BLOCK_ID UfsFile w1 /\
    received (gw_handle g) w1 = acc /\ (gw_handle g < w_next w1)%nat /\
    (gw_handle g ∈ ufs_handles f \/ (w_next w <= gw_handle g < w_next w1)%nat)).
  { intros ->. unfold ufs_holds in Hu. destruct (fw_ufs_stream f) as [g|] eqn:Hg.
    - unfold io_ret in H1. injection H1 as <- <-. exists g. destruct Hu. split; [done|].
      assert (Hin : gw_handle g ∈ ufs_handles f) by (unfold ufs_handles; rewrite Hg; set_solver).
      split; [by split|]. split; [apply extends_refl|]. split; [done|]. split; [done|].
      split; [by apply (ca_ufs _ _ Hcalm)|by left].
    - apply open_ufs_stream_spec in H1 as (Hx & _ & Hok).
      destruct (Hok eq_refl) as (v & g & addr & -> & Hlt & Ho). exists g. split; [done|].
      split; [by split|]. split; [done|]. split; [done|]. split; [|split; [lia|by right]].
      subst acc. unfold received. rewrite (ex_sent _ _ _ Hx) by tauto.
      rewrite (ca_world _ _ Hcalm) by lia. done. }
  destruct r1 as [[]|e]; [|done].
  destruct (Hopen eq_refl) as (g & Hg1 & Hs1 & Hx1 & Ho1 & Hrec1 & Hlt1 & Hown).
  rewrite Hg1. io_step w2 out2 H2. destruct out2 as [g2 r2].
  apply write_all_loop_spec in H2 as (Hx2 & Hg2 & Hok2); [|done|pose proof (zlen_nonneg data); lia
    |unfold zlen; lia].
  destruct r2 as [[]|e].
  2:{ unfold handle_ufs_write_exception. io_step w3 u3 H3. io_step w4 f4 H4. unfold io_ret.
      by intros [= _ _]. }
  intros [= <- <-]. pose proof (ex_next _ _ _ Hx2).
  assert (Hx : extends (eq (gw_handle g)) w w2)
    by (eapply extends_trans; [..|exact Hx1|exact Hx2]; done).
  assert (Hs : same_but_ufs f (with_ufs f1 (Some g2) (fw_ufs_worker_addr f1) (fw_ufs_stream_completed f1)))
    by (destruct Hs1; by split).
  assert (HP : forall h, gw_handle g = h -> h ∈ ufs_handles f \/ (w_next w <= h < w_next w2)%nat)
    by (intros h <-; destruct Hown; [by left|right; lia]).
  assert (Hall := fun d => cache_ok_ufs _ w f w2 _ d Hcalm (su_block _ _ Hs)
    (su_committed _ _ Hs) (su_opened _ _ Hs) Hx HP).
  assert (Hin : forall h, h ∈ ufs_handles (with_ufs f1 (Some g2) (fw_ufs_worker_addr f1)
    (fw_ufs_stream_completed f1)) -> h ∈ ufs_handles f \/ (w_next w <= h < w_next w2)%nat).
  { unfold ufs_handles at 1. cbn. intros h ->%list_elem_of_singleton. rewrite Hg2. by apply HP. }
  split; [done|]. split; [by apply (Hall [])|]. split; [|split; [by eexists|intros d; by apply Hall]].
  unfold ufs_holds. cbn. rewrite Hg2. split; [by apply (opened_extends _ _ _ _ _ _ Hx2)|].
  rewrite (Hok2 eq_refl), Hrec1. by rewrite slice_all.
Qed.
End Props.
