(* ===== verification/FileWriterInv.v ===== *)
(** * File writer: the session invariant

    The invariant between calls that succeed, kept by [write] and [flush] and
    established by [create_with_context]; what a successful [close] makes of it. *)

From S2P Require Import Prelude Text Errors Proto HashRing Router Crc ReplicaPlan BlockWriter.
From S2P Require Import BlockWriterFacts FileWriter FileWriterFacts FileWriterProps.

Lemma append_checksum_app ty crc a b :
  append_checksum ty (append_checksum ty crc a) b = append_checksum ty crc (a ++ b).
Proof. destruct ty; cbn; [done|apply crc_append_app..]. Qed.

Section Inv.
Context (env : WriteEnv) (cfg : WriterConfig) (file_info : FileInfo) (strategy : WriteStrategy).
Context (shared : WorkerRouter) (operation_id : Z).

Abbreviation bs := (block_size_of cfg file_info).
Abbreviation cs := (wc_chunk_size cfg).
Abbreviation Cache_ok := (cache_ok cfg file_info strategy).
Abbreviation checksum := (append_checksum (wc_writer_checksum_type cfg) 0).

Context (Hcs : 0 < cs) (Hbs : 0 < bs).

Record writer_inv (w : World) (f : GoosefsFileWriter) (data : bytes) : Prop := {
  wi_calm : calm w f;
  wi_cancelled : fw_cancelled f = false;
  wi_closed : fw_closed f = false;
  wi_completed : fw_ufs_stream_completed f = false;
  wi_total : fw_total_bytes_written f = zlen data;
  wi_checksum : fw_checksum f = checksum data;
  wi_cache : fw_should_cache f = true -> Cache_ok w f data;
  wi_uncached : fw_should_cache f = false -> fw_current_block_writer f = None;
  wi_ufs : fw_ufs_write_enabled f = true -> is_Some (fw_ufs_stream f) /\ ufs_holds w f data;
  wi_no_ufs : fw_ufs_write_enabled f = false ->
    fw_ufs_stream f = None /\ fw_should_cache f = true /\ ws_ufs_stream strategy = false;
  wi_must : ws_ufs_stream strategy = false -> ws_need_async_persist strategy = false ->
    fw_ufs_write_enabled f = false;
}.

(** ** Degrading from the cache to the UFS *)

Lemma ufs_holds_keeps w f w' f' data :
  calm w f -> cache_keeps w f w' f' -> ufs_holds w f data -> ufs_holds w' f' data.
Proof.
  intros [Hw Hc Ha Hu] Hk. unfold ufs_holds. rewrite (so_ufs _ _ (ck_outer _ _ _ _ Hk)).
  pose proof (ck_extends _ _ _ _ Hk) as Hx.
  destruct (fw_ufs_stream f) as [g|] eqn:Hg; [|done]. intros [Ho Hr].
  assert (Hin : gw_handle g ∈ ufs_handles f) by (unfold ufs_handles; rewrite Hg; set_solver).
  split; [by apply (opened_extends _ _ _ _ _ _ Hx)|].
  rewrite (received_extends _ _ _ _ Hx); [done|]. intros [Hown|Hown]; [by apply (Ha _ Hown)|].
  specialize (Hu _ Hin). lia.
Qed.

Lemma blacklist_replicas_spec rs f w w' f' :
  blacklist_replicas env f rs w = (w', f') -> extends quiet w w' /\ exists v, f' = with_router f v.
Proof.
  revert f w. induction rs as [|r rs IH]; intros f w; cbn [blacklist_replicas].
  - intros [= <- <-]. split; [apply extends_refl|]. exists (fw_router f). by destruct f.
  - io_step w1 f1 H1. apply blacklist_spec in H1 as [Hx1 [v1 ->]].
    intros H2. apply IH in H2 as [Hx2 [v ->]]. split; [by eapply extends_step|by eexists].
Qed.

Lemma tear_down_spec f b w w' f' :
  held_ok (cache_handles f) w -> tear_down_cache_block env f b w = (w', f') ->
  cache_keeps w f w' f' /\ fw_block_opened f' = fw_block_opened f /\
  fw_current_block_writer f' = None.
Proof.
  intros Hheld. unfold tear_down_cache_block. destruct (fw_current_block_writer f) as [a|] eqn:Ha.
  2:{ intros [= <- <-]. split; [apply cache_keeps_refl|]. done. }
  io_step w1 f1 H1. unfold io_bind, io_ret. destruct (cancel_replicas env a w1) as [w2 u] eqn:H2.
  intros [= <- <-]. apply cancel_all_quiet in H2.
  assert (Hx1 : extends quiet w w1 /\ exists v, f1 = with_router (with_block f (fw_block_opened f) None) v).
  { destruct b; [by apply blacklist_replicas_spec in H1|]. injection H1 as <- <-.
    split; [apply extends_refl|]. by exists (fw_router f). }
  destruct Hx1 as [Hx1 [v ->]]. split; [|done].
  apply (cache_keeps_block _ _ _ _ (handles (aw_replicas a))); cbn; [by split|done|by rewrite Ha| |intros _; apply NoDup_nil_2
    |set_solver|done].
  apply extends_quiet_held. by eapply extends_step.
Qed.

(** A cache failure the writer survives: the block is gone and the UFS takes over. *)
Lemma cache_failure_spec f e w w' f' :
  held_ok (cache_handles f) w -> handle_cache_write_exception env cfg strategy f e w = (w', (f', Ok tt)) ->
  exists f1, cache_keeps w f w' f1 /\ f' = with_degraded f1 /\ fw_current_block_writer f1 = None /\
    cache_write_failure_is_fatal e strategy (fw_block_opened f)
      (wc_ignore_unknown_first_block_status cfg) = false.
Proof.
  intros Hheld. unfold handle_cache_write_exception. io_step w1 f1 H1.
  apply tear_down_spec in H1 as (Hk & Hop & Hnone); [|done].
  destruct (cache_write_failure_is_fatal _ _ _ _) eqn:Hfatal; [done|].
  intros [= <- <-]. by exists f1.
Qed.

Lemma fatal_without_ufs e opened ignore :
  cache_write_failure_is_fatal e strategy opened ignore = false -> ws_ufs_stream strategy = false ->
  opened = false /\ ws_need_async_persist strategy = true.
Proof.
  unfold cache_write_failure_is_fatal. intros H Hu. rewrite Hu in H.
  destruct (ws_need_async_persist strategy), opened; cbn in H; by destruct e.
Qed.

Lemma calm_degraded w f : calm w f -> calm w (with_degraded f).
Proof. by intros []; split. Qed.

(** The cache half of a write: it stored the data, or the writer now has only the UFS. *)
Lemma cache_half_spec f data d w w' f' :
  writer_inv w f data ->
  (if fw_should_cache f then
     let! (f, r) := write_to_cache_stream env cfg file_info strategy f d in
     match r with
     | Ok _ => io_ret (f, Ok tt)
     | Err e => handle_cache_write_exception env cfg strategy f e
     end
   else io_ret (f, Ok tt)) w = (w', (f', Ok tt)) ->
  calm w' f' /\ fw_cancelled f' = false /\ fw_closed f' = false /\
  fw_ufs_stream_completed f' = false /\ fw_total_bytes_written f' = zlen data /\
  fw_checksum f' = checksum data /\
  (fw_should_cache f' = true -> Cache_ok w' f' (data ++ d)) /\
  (fw_should_cache f' = false -> fw_current_block_writer f' = None) /\
  (fw_ufs_write_enabled f' = true -> ufs_holds w' f' data) /\
  (fw_ufs_write_enabled f' = false -> fw_ufs_stream f' = None /\ fw_should_cache f' = true /\
     ws_ufs_stream strategy = false) /\
  (ws_ufs_stream strategy = false -> ws_need_async_persist strategy = false ->
     fw_ufs_write_enabled f' = false).
Proof.
  intros [Hcalm Hcan Hclo Hcom Htot Hck Hc Hunc Hufs Hno Hmust].
  destruct (fw_should_cache f) eqn:Hsc.
  2:{ unfold io_ret. intros [= <- <-]. rewrite Hsc. repeat (split; [done|]).
      split; [by intros Hu; apply Hufs|done]. }
  specialize (Hc eq_refl). io_step w1 out1 H1. destruct out1 as [f1 r1].
  apply (write_to_cache_loop_spec env cfg file_info strategy Hcs Hbs _ _ _ _ _ _ _ _ _ Hcalm Hc)
    in H1 as [Hk Hok]; [|pose proof (zlen_nonneg d); lia|unfold zlen; lia].
  rewrite slice_all in Hok. pose proof (calm_keeps _ _ _ _ Hcalm Hk) as Hcalm1.
  assert (Hu1 : fw_ufs_write_enabled f1 = true -> ufs_holds w1 f1 data).
  { rewrite (so_ufs_enabled _ _ (ck_outer _ _ _ _ Hk)). intros Hu. apply (ufs_holds_keeps w f); [done|done|].
    by apply Hufs. }
  pose proof (ck_outer _ _ _ _ Hk) as Ho. pose proof Ho as [E1 E2 E3 E4 E5 E6 E7 E8].
  destruct r1 as [[]|e].
  - intros [= <- <-]. rewrite E1, E2, E3, E4, E5, E6, E7, E8, Hsc. rewrite E6 in Hu1.
    repeat (split; [done|]). split; [intros _; by apply Hok|]. done.
  - intros H2. apply cache_failure_spec in H2 as (f2 & Hk2 & -> & Hnone & Hfatal); [|apply Hcalm1].
    pose proof (ck_outer _ _ _ _ Hk2) as [F1 F2 F3 F4 F5 F6 F7 F8]. cbn.
    rewrite F1, F2, F3, F4, F8, E1, E2, E3, E4, E8.
    split; [by eapply calm_degraded, calm_keeps|]. repeat (split; [done|]).
    split; [|split; [done|]].
    2:{ intros Hs Hna. destruct (fatal_without_ufs _ _ _ Hfatal Hs). congruence. }
    intros _. assert (Hd : ufs_holds w1 f1 data).
    { destruct (fw_ufs_write_enabled f1) eqn:Hen; [by apply Hu1|].
      destruct (Hno (eq_sym E6)) as (Hnu & _ & Hs). unfold ufs_holds. rewrite E7, Hnu.
      destruct (fatal_without_ufs _ _ _ Hfatal Hs) as [Hop _].
      destruct data as [|x data]; [done|]. pose proof (co_started _ _ _ _ _ _ Hc) as Hst.
      rewrite (ck_opened _ _ _ _ Hk) in Hop; [done|]. by apply Hst; left. }
    pose proof (ufs_holds_keeps _ _ _ _ _ Hcalm1 Hk2 Hd) as Hd2. done.
Qed.

Lemma init_inv w f f' data r :
  ensure_router_init shared f = (f', r) -> writer_inv w f data -> writer_inv w f' data.
Proof.
  unfold ensure_router_init. destruct (negb _); [by intros [= <- _]|].
  destruct (wr_workers shared); intros [= <- _]; [done|].
  intros [Hcalm Hcan Hclo Hcom Htot Hck Hc Hunc Hufs Hno Hmust]. split; try done.
  - destruct Hcalm. by split.
  - intros Hs. destruct (Hc Hs). by split.
Qed.

Lemma write_inv f data d w w' f' :
  writer_inv w f data ->
  fw_write env cfg file_info strategy shared f d w = (w', (f', Ok tt)) ->
  writer_inv w' f' (data ++ d).
Proof.
  intros Hinv. unfold fw_write. rewrite (wi_cancelled _ _ _ Hinv), (wi_closed _ _ _ Hinv). cbn [orb].
  destruct (Z.eqb_spec (zlen d) 0) as [Hz|Hz].
  { apply zlen_nil_inv in Hz as ->. rewrite app_nil_r. by intros [= <- <-]. }
  destruct (ensure_router_init shared f) as [f0 r0] eqn:Hinit.
  apply (init_inv _ _ _ _ _ Hinit) in Hinv. destruct r0 as [[]|e]; [|done].
  io_step w1 out1 H1. destruct out1 as [f1 [[]|e]]; [|done].
  apply (cache_half_spec _ _ _ _ _ _ Hinv) in H1
    as (Hcalm & Hcan & Hclo & Hcom & Htot & Hck & Hc & Hunc & Hufs & Hno & Hmust).
  io_step w2 out2 H2. destruct out2 as [f2 [[]|e]]; [|done]. intros [= <- <-].
  destruct (fw_ufs_write_enabled f1) eqn:Hen.
  - apply (write_to_ufs_spec env cfg file_info strategy Hcs Hbs _ d data) in H2
      as ([E1 E2 E3 E4 E5 E6 E7 E8 E9 E10] & Hcalm2 & Hh & Hs & Hc2); [|done|by apply Hufs].
    split; cbn; rewrite ?E4, ?E5, ?E6, ?E7, ?E8, ?E9, ?E10, ?E1; try done.
    + by destruct Hcalm2; split.
    + rewrite Htot. by rewrite zlen_app.
    + rewrite Hck. apply append_checksum_app.
    + intros Hsc. by destruct (Hc2 _ (Hc Hsc)); split.
    + by rewrite Hen.
    + by rewrite Hen.
  - unfold io_ret in H2. injection H2 as <- <-.
    split; cbn; try done.
    + by destruct Hcalm; split.
    + rewrite Htot. by rewrite zlen_app.
    + rewrite Hck. apply append_checksum_app.
    + intros Hsc. by destruct (Hc Hsc); split.
    + by rewrite Hen.
    + intros _. by apply Hno.
Qed.

(** ** Flushing *)

Lemma flush_block_spec f w w' f' data :
  calm w f -> Cache_ok w f data -> flush_reaches_cache cfg strategy = true ->
  flush_cache_block env f w = (w', (f', Ok tt)) -> cache_keeps w f w' f' /\ Cache_ok w' f' data.
Proof.
  intros Hcalm Hc Hf. unfold flush_cache_block.
  destruct (fw_current_block_writer f) as [a|] eqn:Ha;
    [|intros [= <- <-]; split; [apply cache_keeps_refl|done]].
  destruct (0 <? aw_bytes_written a); [|intros [= <- <-]; split; [apply cache_keeps_refl|done]].
  pose proof (co_active _ _ _ _ _ _ Hc) as Hact. rewrite Ha in Hact. destruct Hact as (Hid & Hsz & Hhold).
  cbn zeta. io_step w1 out1 H1. destruct out1 as [a1 r1].
  destruct (drain_tail _ _ _ _ _ _ _ _ _ Hhold H1) as (new & [Hx1 Hnd1 Hsub1 Hsame1 _] & Hdone).
  destruct r1 as [[]|e]; [|done]. specialize (Hdone eq_refl).
  io_step w2 out2 H2. destruct out2 as [a2 r2]. intros [= <- <- ->].
  apply flush_replicas_spec in H2; [|done]. pose proof H2 as [Hx2 Hnd2 Hsub2 Hsame2 _]. cbn in Hsub1, Hx1.
  assert (Hcomp : block_complete cfg strategy w2 a2 (slice (zlen (fw_committed_block_ids f) * bs) (zlen data) data)).
  { destruct Hdone as [Hn Hm Hst]. apply (block_complete_step cfg strategy w1 a1 w2 a2 []); [done|done|].
    intros h Hh. rewrite !app_nil_r. by apply Hst. }
  assert (Heq : a2 = set_replicas (set_pending a []) (aw_replicas a2)).
  { transitivity (set_replicas a1 (aw_replicas a2)); [done|]. by rewrite Hsame1. }
  pose proof (ca_cache _ _ Hcalm) as Hheld. rewrite Ha in Hheld.
  assert (Hk : cache_keeps w f w2 (with_block f (fw_block_opened f) (Some a2))).
  { apply (cache_keeps_block _ _ _ _ (handles (aw_replicas a))); cbn; [by split|done|by rewrite Ha| |done
      |by etrans|done].
    eapply extends_trans; [..|exact Hx1|exact Hx2]; [done|]. intros h Hh. by apply Hsub1. }
  split; [done|]. destruct Hhold as [B1 B2 B3 B4 B5 B6]. destruct Hcomp as [C1 C2 C3].
  split; cbn [fw_committed_block_ids with_block fw_current_block_writer fw_block_opened];
    [apply Hc| | |intros _; apply (co_started _ _ _ _ _ _ Hc); right; by rewrite Ha].
  - intros i id Hi. by apply (cache_ok_blocks _ _ _ w f w2 _ data i id Hk (ca_cache _ _ Hcalm) Hc).
  - assert (Hid2 : aw_block_id a2 = aw_block_id a /\ aw_block_size a2 = aw_block_size a /\
      aw_bytes_written a2 = aw_bytes_written a /\ aw_pending_chunk a2 = []) by (by rewrite Heq).
    destruct Hid2 as (I1 & I2 & I3 & I4). rewrite I1, I2. split; [done|]. split; [done|].
    split; rewrite ?I1, ?I2, ?I3, ?I4; try done. intros h Hh. rewrite app_nil_r.
    destruct (C3 h Hh) as (O1 & O2 & _). rewrite I1 in O1. split; [done|]. split; [done|]. by rewrite Hf.
Qed.

Lemma writer_inv_quiet w f data w' :
  writer_inv w f data -> extends quiet w w' -> writer_inv w' f data.
Proof.
  intros [Hcalm Hcan Hclo Hcom Htot Hck Hc Hunc Hufs Hno Hmust] Hx.
  destruct (cache_ok_ufs cfg file_info strategy quiet w f w' f data Hcalm) as [Hcalm' Hc'];
    [done..|by intros h []|by left|].
  split; try done; [auto|]. intros Hu. destruct (Hufs Hu) as [Hs Hh]. split; [done|].
  unfold ufs_holds in *. destruct (fw_ufs_stream f) as [g|]; [|done]. destruct Hh as [Ho Hr].
  split; [by apply (opened_extends _ _ _ _ _ _ Hx)|]. rewrite (received_extends _ _ _ _ Hx); [done|by intros []].
Qed.

Lemma writer_inv_keeps w f data w' f' :
  writer_inv w f data -> cache_keeps w f w' f' -> fw_should_cache f = true -> Cache_ok w' f' data ->
  writer_inv w' f' data.
Proof.
  intros [Hcalm Hcan Hclo Hcom Htot Hck Hc Hunc Hufs Hno Hmust] Hk Hs Hc'.
  pose proof (ck_outer _ _ _ _ Hk) as [E1 E2 E3 E4 E5 E6 E7 E8].
  split; rewrite ?E1, ?E2, ?E3, ?E4, ?E5, ?E6, ?E7, ?E8; try done; [by eapply calm_keeps|by rewrite Hs|].
  intros Hu. destruct (Hufs Hu). split; [done|]. by apply (ufs_holds_keeps w f).
Qed.

Lemma flush_inv f data w w' f' :
  writer_inv w f data -> fw_flush env cfg strategy f w = (w', (f', Ok tt)) -> writer_inv w' f' data.
Proof.
  intros Hinv. unfold fw_flush. rewrite (wi_cancelled _ _ _ Hinv), (wi_closed _ _ _ Hinv). cbn [orb].
  io_step w1 r1 H1. assert (Hx : extends quiet w w1).
  { destruct (fw_ufs_stream f); [by apply flush_spec in H1 as [? _]|].
    injection H1 as <- <-. apply extends_refl. }
  apply (writer_inv_quiet _ _ _ _ Hinv) in Hx as Hinv1. destruct r1 as [[]|e]; [|done].
  destruct (ws_need_async_persist strategy && wc_async_persist_flush_enabled cfg) eqn:Hf;
    [|by intros [= <- <-]].
  destruct (fw_should_cache f) eqn:Hs.
  - intros H2. apply (flush_block_spec _ _ _ _ data) in H2 as [Hk Hc]; [|apply Hinv1|by apply Hinv1|done].
    by apply (writer_inv_keeps w1 f).
  - unfold flush_cache_block. rewrite (wi_uncached _ _ _ Hinv1 Hs). by intros [= <- <-].
Qed.

(** ** Creation *)

Lemma fw_create_inv w f :
  (ws_cache_stream strategy || ws_ufs_stream strategy) = true ->
  fw_create env strategy shared (mkWorld [] 0) = (w, Ok f) -> writer_inv w f [].
Proof.
  intros Hsome. unfold fw_create. io_step w1 r1 H1. destruct r1 as [u|e]; [|done].
  io_step w2 r2 H2. apply attempt_quiet in H1; [|done]. apply perform_quiet in H2; [|done].
  assert (Hx2 : extends quiet (mkWorld [] 0) w2) by (by eapply extends_step).
  assert (Hinit : forall w' f', extends quiet (mkWorld [] 0) w' ->
    fw_current_block_writer f' = None -> fw_committed_block_ids f' = [] ->
    (forall h, h ∈ ufs_handles f' -> (h < w_next w')%nat) -> calm w' f' /\ Cache_ok w' f' []).
  { intros w' f' Hx Hn Hids Hu. split.
    - split; rewrite ?Hn; cbn; [|apply held_ok_nil|by intros h ?%elem_of_nil|done].
      intros h Hh. by rewrite (ex_sent _ _ _ Hx) by tauto.
    - split; rewrite ?Hn, ?Hids; cbn; [done|done|done|]. by intros [|[]]. }
  destruct (ws_ufs_stream strategy) eqn:Hu.
  - unfold ensure_router_init. cbn [fw_router_needs_init initial_writer negb].
    destruct (wr_workers shared) as [|wk wks]; [done|]. io_step w3 out3 H3. destruct out3 as [f3 [u3|e]]; [|done].
    intros [= <- <-]. apply open_ufs_stream_spec in H3 as (Hx3 & _ & Hok). destruct u3.
    destruct (Hok eq_refl) as (v & g & addr & -> & Hlt & Ho).
    assert (Hx : extends quiet (mkWorld [] 0) w3) by (by eapply extends_step).
    destruct (Hinit w3 (with_ufs (with_router (with_init_router (initial_writer strategy)
      (from_shared shared)) v) (Some g) addr false) Hx) as [Hcalm Hc]; [done|done| |].
    { unfold ufs_handles. cbn. intros h ->%list_elem_of_singleton. lia. }
    split; cbn; try done; [by destruct (wc_writer_checksum_type cfg)| |by rewrite Hu].
    intros _. split; [done|]. split; [done|]. unfold received. cbn. by rewrite (ex_sent _ _ _ Hx) by tauto.
  - intros [= <- <-]. rewrite orb_false_r in Hsome.
    destruct (Hinit w2 (initial_writer strategy) Hx2) as [Hcalm Hc]; [done|done|by intros h ?%elem_of_nil|].
    split; cbn; try done; [by destruct (wc_writer_checksum_type cfg)|by rewrite Hu].
Qed.

(** ** Closing *)

(** Every block of the file is on enough workers, closed. *)
Definition cached (w : World) (data : bytes) : Prop :=
  forall i, 0 <= i -> i * bs < zlen data ->
    exists hs, stored cfg strategy w (compute_block_id (default 0 (fi_file_id file_info)) i)
                 (slice (i * bs) (i * bs + bs) data) hs.

(** One UFS stream received the whole file and was closed. *)
Definition persisted_on (h : nat) (w : World) (data : bytes) : Prop :=
  opened h UFS_BLOCK_ID UfsFile w /\ received h w = data /\ happened (EvClose h) w.

Definition persisted (w : World) (data : bytes) : Prop := exists h, persisted_on h w data.

Lemma persisted_extends (P : nat -> Prop) h w w' data :
  extends P w w' -> ~ P h -> persisted_on h w data -> persisted_on h w' data.
Proof.
  intros Hx Hh (Ho & Hr & Hc). split; [by apply (opened_extends _ _ _ _ _ _ Hx)|].
  split; [by rewrite (received_extends _ _ _ _ Hx Hh)|by apply (happened_extends _ _ _ _ Hx)].
Qed.

(** The master was told the length and checksum of the file.  If it refused, the file
    is in the UFS and its GooseFS metadata was dropped. *)
Definition completed (w : World) (data : bytes) : Prop :=
  exists options r, (EvCompleteFile options, r) ∈ w_trace w /\
    cf_ufs_length options = as_i64 (zlen data) /\ cf_inode_id options = fi_file_id file_info /\
    cf_crc_type options = checksum_as_i32 (wc_writer_checksum_type cfg) /\
    cf_crc_value options = checksum data /\
    (r = Ok tt \/ happened (EvDelete true) w /\ persisted w data).

(** None of these is undone by traffic on other streams. *)
Lemma cached_quiet w w' data : extends quiet w w' -> cached w data -> cached w' data.
Proof.
  intros Hx Hc i Hi Hlt. destruct (Hc i Hi Hlt) as [hs Hs]. exists hs.
  by eapply stored_extends; [exact Hx|tauto|].
Qed.

Lemma persisted_quiet w w' data : extends quiet w w' -> persisted w data -> persisted w' data.
Proof. intros Hx [h Hh]. exists h. by eapply persisted_extends; [exact Hx|tauto|]. Qed.

Lemma completed_quiet w w' data : extends quiet w w' -> completed w data -> completed w' data.
Proof.
  intros Hx (o & r & Hin & H1 & H2 & H3 & H4 & H5). exists o, r. split; [by apply (ex_mono _ _ _ Hx)|].
  repeat (split; [done|]). destruct H5 as [->|[Hd Hp]]; [by left|]. right.
  split; [by apply (happened_extends _ _ _ _ Hx)|by apply (persisted_quiet w)].
Qed.

Lemma close_block_cached f data commit w w' f' loc :
  calm w f -> Cache_ok w f data ->
  close_current_block env strategy f commit w = (w', (f', Ok loc)) -> cached w' data.
Proof.
  intros Hcalm Hc Hrun. pose proof (co_active _ _ _ _ _ _ Hc) as Hact.
  pose proof (ca_cache _ _ Hcalm) as Hheld. pose proof (co_full _ _ _ _ _ _ Hc) as Hfull.
  pose proof (zlen_nonneg (fw_committed_block_ids f)) as Hnn.
  assert (Hk : cache_keeps w f w' f' /\ (zlen data > zlen (fw_committed_block_ids f) * bs ->
    zlen data <= zlen (fw_committed_block_ids f) * bs + bs /\
    exists hs, stored cfg strategy w' (compute_block_id (default 0 (fi_file_id file_info))
      (zlen (fw_committed_block_ids f))) (slice (zlen (fw_committed_block_ids f) * bs) (zlen data) data) hs)).
  { destruct (fw_current_block_writer f) as [a|] eqn:Ha.
    - destruct Hact as (Hid & Hsz & Hhold). cbn in Hheld.
      destruct (close_current_block_spec _ cfg _ _ _ _ _ _ _ _ _ Ha Hhold Hheld Hrun) as (Hk & _ & Hst).
      split; [done|]. intros Hgt. pose proof (bh_len _ _ _ _ _ Hhold) as Hl.
      pose proof (bh_room _ _ _ _ _ Hhold). rewrite zlen_slice in Hl by lia. split; [lia|].
      destruct (Hst eq_refl ltac:(lia)) as [_ (hs & _ & Hs)]. rewrite Hid in Hs. eauto.
    - unfold close_current_block in Hrun. rewrite Ha in Hrun. injection Hrun as <- <- _.
      split; [apply cache_keeps_refl|lia]. }
  destruct Hk as [Hk Hlast]. intros i Hi Hlt.
  destruct (Z.lt_ge_cases i (zlen (fw_committed_block_ids f))) as [Hin|Hout].
  - destruct (fw_committed_block_ids f !! Z.to_nat i) as [id|] eqn:Hid.
    2:{ apply lookup_ge_None in Hid. unfold zlen in Hin. lia. }
    destruct (cache_ok_blocks _ _ _ _ _ _ _ _ _ _ Hk Hheld Hc Hid) as [-> (hs & Hst & _)].
    rewrite Z2Nat.id in Hst by lia. eauto.
  - assert (Hgt : zlen data > zlen (fw_committed_block_ids f) * bs) by nia.
    destruct (Hlast Hgt) as [Hle Hst]. replace i with (zlen (fw_committed_block_ids f)) by nia.
    rewrite (slice_clamp _ (_ + bs)) by lia. done.
Qed.

Lemma close_current_quiet_ufs f commit data w w' f' r :
  calm w f -> Cache_ok w f data \/ fw_current_block_writer f = None ->
  close_current_block env strategy f commit w = (w', (f', r)) -> cache_keeps w f w' f'.
Proof.
  intros Hcalm Hc Hrun. pose proof (ca_cache _ _ Hcalm) as Hheld.
  destruct (fw_current_block_writer f) as [a|] eqn:Ha.
  - destruct Hc as [Hc|Hc]; [|done]. pose proof (co_active _ _ _ _ _ _ Hc) as Hact. rewrite Ha in Hact.
    destruct Hact as (_ & _ & Hhold).
    by destruct (close_current_block_spec _ cfg _ _ _ _ _ _ _ _ _ Ha Hhold Hheld Hrun) as (Hk & _).
  - unfold close_current_block in Hrun. rewrite Ha in Hrun. injection Hrun as <- <- _.
    apply cache_keeps_refl.
Qed.

Lemma close_ufs_spec f c b data w w' f' :
  writer_inv w f data -> close_ufs env (with_flags f c b) w = (w', (f', Ok tt)) ->
  extends quiet w w' /\
  same_but_ufs (with_ufs (with_flags f c b) None None (fw_ufs_write_enabled f)) f' /\
  fw_ufs_stream f' = None /\ (fw_ufs_write_enabled f = true ->
     exists h, h ∈ ufs_handles f /\ persisted_on h w' data).
Proof.
  intros Hinv. unfold close_ufs. cbn [fw_ufs_stream with_flags].
  destruct (fw_ufs_stream f) as [g|] eqn:Hg.
  - io_step w1 r1 H1. apply flush_spec in H1 as [Hx1 _].
    destruct r1 as [[]|e].
    2:{ io_step w2 r2 H2. io_step w3 f3 H3. done. }
    io_step w2 r2 H2. apply close_spec in H2 as (Hx2 & _ & Hok). destruct r2 as [[]|e].
    2:{ io_step w3 f3 H3. done. }
    intros [= <- <-]. assert (Hx : extends quiet w w2) by (by eapply extends_step).
    destruct (fw_ufs_write_enabled f) eqn:Hen.
    2:{ destruct (wi_no_ufs _ _ _ Hinv Hen) as [Hn _]. by rewrite Hn in Hg. }
    split; [done|]. split; [by split|]. split; [done|]. intros _.
    destruct (wi_ufs _ _ _ Hinv Hen) as [_ Hh]. unfold ufs_holds in Hh. rewrite Hg in Hh.
    destruct Hh as [Ho Hr]. exists (gw_handle g).
    split; [unfold ufs_handles; rewrite Hg; set_solver|]. split; [by apply (opened_extends _ _ _ _ _ _ Hx)|].
    split; [|by apply Hok]. rewrite (received_extends _ _ _ _ Hx); [done|by intros []].
  - intros [= <- <-]. split; [apply extends_refl|].
    destruct (fw_ufs_write_enabled f) eqn:Hen.
    { destruct (wi_ufs _ _ _ Hinv Hen) as [[g Hn] _]. by rewrite Hn in Hg. }
    split; [|done]. split; try done. cbn. by rewrite (wi_completed _ _ _ Hinv).
Qed.

Lemma complete_or_recover_spec f last data w w' :
  fw_total_bytes_written f = zlen data -> fw_checksum f = checksum data ->
  (fw_ufs_stream_completed f = true -> persisted w data) ->
  complete_or_recover env cfg file_info strategy operation_id f last w = (w', Ok tt) -> extends quiet w w' /\ completed w' data.
Proof.
  intros Htot Hck Hp. unfold complete_or_recover. io_step w1 r1 H1.
  assert (Hin : (EvCompleteFile (complete_options cfg file_info strategy operation_id f last), r1) ∈ w_trace w1).
  { unfold attempt in H1. injection H1 as <- <-. cbn. set_solver. }
  apply attempt_quiet in H1 as Hx1; [|done].
  assert (Hopts : forall w2, extends quiet w1 w2 ->
    (r1 = Ok tt \/ happened (EvDelete true) w2 /\ persisted w2 data) -> completed w2 data).
  { intros w2 Hx2 Hr. exists (complete_options cfg file_info strategy operation_id f last), r1.
    split; [by apply (ex_mono _ _ _ Hx2)|]. unfold complete_options, complete_file_crc.
    destruct (resolve_persist_options _ _ _). cbn. by rewrite Htot, Hck. }
  destruct r1 as [[]|e].
  - intros [= <-]. split; [done|]. apply Hopts; [apply extends_refl|by left].
  - unfold handle_complete_file_error. destruct (_ || _) eqn:Hno; [done|].
    apply orb_false_iff in Hno as [_ Hcom%negb_false_iff].
    io_step w2 r2 H2. apply attempt_spec in H2 as (_ & Hx2 & Hdel). specialize (Hx2 I).
    destruct r2 as [[]|]; [|done]. io_step w3 r3 H3. apply attempt_quiet in H3; [|done].
    destruct r3; [|done]. io_step w4 r4 H4. apply perform_quiet in H4; [|done]. intros [= <-].
    assert (Hx24 : extends quiet w2 w4) by (by eapply extends_step).
    assert (Hx14 : extends quiet w1 w4) by (by eapply extends_step).
    assert (Hx04 : extends quiet w w4) by (by eapply extends_step).
    split; [done|]. apply Hopts; [done|]. right. split; [by apply (happened_extends _ _ _ _ Hx24), Hdel|].
    destruct (Hp Hcom) as [h Hh]. exists h.
    apply (persisted_extends _ _ _ _ _ Hx04); [tauto|done].
Qed.

Lemma close_inv f data w w' f' :
  writer_inv w f data ->
  fw_close env cfg file_info strategy operation_id f w = (w', (f', Ok tt)) ->
  (fw_should_cache f = true -> cached w' data) /\ (fw_ufs_write_enabled f = true -> persisted w' data) /\
  completed w' data /\ fw_closed f' = true /\ fw_total_bytes_written f' = zlen data.
Proof.
  intros Hinv. unfold fw_close. rewrite (wi_closed _ _ _ Hinv). cbn [fw_cancelled with_flags].
  rewrite (wi_cancelled _ _ _ Hinv). io_step w1 out1 H1. destruct out1 as [f1 [[]|e]]; [|done].
  apply (close_ufs_spec _ _ _ data) in H1 as (Hx1 & Hs1 & Hn1 & Hp1); [|done].
  pose proof Hs1 as [E1 E2 E3 E4 E5 E6 E7 E8 E9 E10]. cbn in E1, E2, E3, E4, E5, E6, E7, E8, E9, E10.
  pose proof (wi_calm _ _ _ Hinv) as Hcalm.
  destruct (cache_ok_ufs cfg file_info strategy quiet w f w1 f1 data Hcalm) as [Hcalm1 Hc1].
  { by rewrite E1. } { by rewrite E2. } { by rewrite E3. } { done. } { by intros h []. }
  { unfold ufs_handles at 1. rewrite Hn1. by intros h ?%elem_of_nil. }
  io_step w2 out2 H2. destruct out2 as [f2 r2].
  assert (Hk2 : cache_keeps w1 f1 w2 f2).
  { apply (close_current_quiet_ufs f1 false data w1 w2 f2 r2); [done| |done].
    destruct (fw_should_cache f) eqn:Hsc; [left; by apply Hc1, Hinv|right].
    rewrite E1. by apply (wi_uncached _ _ _ Hinv). }
  pose proof (ck_outer _ _ _ _ Hk2) as [F1 F2 F3 F4 F5 F6 F7 F8].
  destruct r2 as [last|e]; [|by io_step w3 f3 H3].
  assert (Hcache : fw_should_cache f = true -> cached w2 data).
  { intros Hsc. by eapply close_block_cached; [exact Hcalm1|apply Hc1, Hinv|exact H2]. }
  assert (Hpers : fw_ufs_write_enabled f = true -> persisted w2 data).
  { intros Hen. destruct (Hp1 Hen) as (h & Hh & Hph). exists h.
    apply (persisted_extends _ _ _ _ _ (ck_extends _ _ _ _ Hk2)); [|done]. rewrite E1.
    intros [Hin|Hin]; [by apply (ca_apart _ _ Hcalm h)|].
    apply (ca_ufs _ _ Hcalm) in Hh. pose proof (ex_next _ _ _ Hx1). lia. }
  io_step w3 r3 H3. destruct r3 as [[]|e]; [|done]. io_step w4 u4 H4. intros [= <- <-].
  apply perform_quiet in H4; [|done].
  apply (complete_or_recover_spec _ _ data) in H3 as [Hx3 Hcompl].
  2:{ by rewrite F1, E6, (wi_total _ _ _ Hinv). } 2:{ by rewrite F2, E7, (wi_checksum _ _ _ Hinv). }
  2:{ by rewrite F8, E10. }
  assert (Hx24 : extends quiet w2 w4) by (by eapply extends_step).
  split; [intros Hsc; by apply (cached_quiet w2), Hcache|].
  split; [intros Hen; by apply (persisted_quiet w2), Hpers|]. split; [by apply (completed_quiet w3)|].
  by rewrite F4, E9, F1, E6, (wi_total _ _ _ Hinv).
Qed.
End Inv.
