(* ===== verification/StreamOwnership.v ===== *)
(** * Stream ownership

    A small program logic for the streams a computation owns.  [owns hs m Q] says that
    [m], started as the owner of the streams [hs], ends as the owner of [Q a] when its
    result is [a]: every stream it was given or opened is still owned or has been
    closed, cancelled or dropped.  The rules frame, so the pieces of the writer are
    verified one at a time, on every path, failing ones included. *)

From S2P Require Import Prelude Text Errors Proto HashRing Router Crc ReplicaPlan BlockWriter.
From S2P Require Import BlockWriterFacts FileWriter FileWriterFacts FileWriterProps.

(** ** Open and ended streams *)

Definition is_open (h : nat) (w : World) : Prop := exists id ty, opened h id ty w.

Definition ends (h : nat) (e : Effect) : bool :=
  match e with
  | EvClose h' | EvCancel h' | EvDrop h' => bool_decide (h' = h)
  | _ => false
  end.

Definition ended (h : nat) (w : World) : Prop := exists e r, (e, r) ∈ w_trace w /\ ends h e = true.

Record handed (hs hs' : list nat) (w w' : World) : Prop := {
  hd_mono : forall e, e ∈ w_trace w -> e ∈ w_trace w';
  hd_new : forall h, is_open h w' -> is_open h w \/ h ∈ hs' \/ ended h w';
  hd_old : forall h, h ∈ hs -> h ∈ hs' \/ ended h w';
}.

Lemma ended_mono h w w' :
  (forall e, e ∈ w_trace w -> e ∈ w_trace w') -> ended h w -> ended h w'.
Proof. intros Hm (e & r & Hin & He). exists e, r. auto. Qed.

Lemma handed_refl (hs hs' : list nat) w : hs ⊆ hs' -> handed hs hs' w w.
Proof. split; auto. Qed.

Lemma handed_trans hs1 hs2 hs3 w1 w2 w3 :
  handed hs1 hs2 w1 w2 -> handed hs2 hs3 w2 w3 -> handed hs1 hs3 w1 w3.
Proof.
  intros [M1 N1 O1] [M2 N2 O2]. pose proof (fun h => ended_mono h w2 w3 M2) as Hm.
  split; [auto| |].
  - intros h Hh. destruct (N2 h Hh) as [Hh2|]; [|tauto]. destruct (N1 h Hh2) as [|[Hin|]]; [tauto| |auto].
    destruct (O2 h Hin); tauto.
  - intros h Hh. destruct (O1 h Hh) as [Hin|]; [|auto]. apply (O2 h Hin).
Qed.

(** ** Rules *)

Definition owns {A : Type} (hs : list nat) (m : IO A) (Q : A -> list nat) : Prop :=
  forall w w' a, m w = (w', a) -> handed hs (Q a) w w'.

Lemma owns_ret {A : Type} (hs : list nat) (a : A) Q : hs ⊆ Q a -> owns hs (io_ret a) Q.
Proof. intros Hs w w' a' [= <- <-]. by apply handed_refl. Qed.

Lemma owns_bind {A B : Type} hs (m : IO A) (k : A -> IO B) Q R :
  owns hs m Q -> (forall a, owns (Q a) (k a) R) -> owns hs (io_bind m k) R.
Proof.
  intros Hm Hk w w' b. unfold io_bind. destruct (m w) as [w1 a] eqn:H1. intros H2.
  eapply handed_trans; [by apply Hm|by apply (Hk a)].
Qed.

(** ... with a fact about the intermediate result. *)
Lemma owns_bind_fact {A B : Type} (R : A -> Prop) hs (m : IO A) (k : A -> IO B) Q S :
  owns hs m Q -> (forall w w' a, m w = (w', a) -> R a) -> (forall a, R a -> owns (Q a) (k a) S) ->
  owns hs (io_bind m k) S.
Proof.
  intros Hm HR Hk w w' b. unfold io_bind. destruct (m w) as [w1 a] eqn:H1. intros H2.
  eapply handed_trans; [by apply Hm|by apply (Hk a (HR _ _ _ H1))].
Qed.

Lemma owns_weaken {A : Type} (hs0 hs : list nat) (m : IO A) Q0 Q :
  owns hs0 m Q0 -> hs ⊆ hs0 -> (forall a, Q0 a ⊆ Q a) -> owns hs m Q.
Proof.
  intros Hm Hs HQ w w' a H. destruct (Hm w w' a H) as [M N O]. split; [done| |].
  - intros h Hh. destruct (N h Hh) as [|[|]]; auto. right. left. by apply (HQ a).
  - intros h Hh. destruct (O h (Hs h Hh)); auto. left. by apply (HQ a).
Qed.

Lemma owns_frame {A : Type} X (hs : list nat) (m : IO A) Q :
  owns hs m Q -> owns (hs ++ X) m (fun a => Q a ++ X).
Proof.
  intros Hm w w' a H. destruct (Hm w w' a H) as [M N O]. split; [done| |].
  - intros h Hh. rewrite elem_of_app. destruct (N h Hh) as [|[|]]; auto.
  - intros h [Hh|Hh]%elem_of_app; rewrite elem_of_app; [|auto]. destruct (O h Hh); auto.
Qed.

Definition not_open (e : Effect) : bool :=
  match e with EvOpen _ _ _ _ _ => false | _ => true end.

Section Rules.
Context (env : WriteEnv).

Lemma owns_attempt (hs hs' : list nat) e :
  not_open e = true -> (forall h, h ∈ hs -> h ∈ hs' \/ ends h e = true) ->
  owns hs (attempt env e) (fun _ => hs').
Proof.
  intros He Hs w w' r. unfold attempt. intros [= <- <-]. split; cbn; [by constructor 2| |].
  - intros h (id & ty & addr & space & options & [Heq|Hin]%elem_of_cons & Ht).
    + by injection Heq as <- _.
    + left. by exists id, ty, addr, space, options.
  - intros h [Hh|Hh]%Hs; [by left|]. right. eexists _, _. split; [by constructor 1|done].
Qed.

Lemma owns_perform (hs hs' : list nat) e :
  not_open e = true -> (forall h, h ∈ hs -> h ∈ hs' \/ ends h e = true) ->
  owns hs (perform env e) (fun _ => hs').
Proof.
  intros He Hs. eapply owns_bind; [by apply owns_attempt|]. intros []; by apply owns_ret.
Qed.

(** An effect that concerns no stream of the owner. *)
Lemma owns_quiet hs e : not_open e = true -> owns hs (attempt env e) (fun _ => hs).
Proof. intros He. apply owns_attempt; auto. Qed.

Lemma owns_now hs : owns hs (now env) (fun _ => hs).
Proof. intros w w' a [= <- <-]. by apply handed_refl. Qed.

Lemma ends_self h e : e = EvClose h \/ e = EvCancel h \/ e = EvDrop h -> ends h e = true.
Proof. intros [->|[->| ->]]; cbn; by apply bool_decide_eq_true. Qed.

(** Ending each stream of a list. *)
Lemma owns_each {A : Type} (f : A -> IO unit) (handle : A -> nat) (l : list A) :
  (forall x hs, owns (handle x :: hs) (f x) (fun _ => hs)) ->
  owns (map handle l) (io_each f l) (fun _ => []).
Proof.
  intros Hf. induction l as [|x l IH]; cbn [io_each map]; [by apply owns_ret|].
  eapply owns_bind; [apply Hf|]. intros ?. apply IH.
Qed.

Lemma owns_cancel g hs : owns (gw_handle g :: hs) (writer_cancel env g) (fun _ => hs).
Proof.
  apply owns_perform; [done|]. intros h [->|]%elem_of_cons; [right|by left]. apply ends_self. auto.
Qed.

Lemma owns_close g hs : owns (gw_handle g :: hs) (writer_close env g) (fun _ => hs).
Proof.
  apply owns_attempt; [done|]. intros h [->|]%elem_of_cons; [right|by left]. apply ends_self. auto.
Qed.

Lemma owns_cancel_all rs : owns (handles rs) (cancel_all env rs) (fun _ => []).
Proof. apply owns_each. intros r hs. apply owns_cancel. Qed.

Lemma owns_drop_all rs :
  owns (handles rs) (io_each (fun r => perform env (EvDrop (rw_handle r))) rs) (fun _ => []).
Proof.
  apply owns_each. intros r hs. apply owns_perform; [done|].
  intros h [->|]%elem_of_cons; [right|by left]. apply ends_self. auto.
Qed.

Lemma owns_open addr id space options hs :
  owns hs (writer_open env addr id space options)
    (fun r => match r with Ok g => gw_handle g :: hs | Err _ => hs end).
Proof.
  intros w w' r. unfold writer_open, io_bind, attempt, io_ret. cbn.
  destruct (env_answer env (w_trace w) _) as [[]|e] eqn:Ha; intros [= <- <-].
  all: split; cbn; [by constructor 2| |intros h Hh; left; set_solver].
  all: intros h (id' & ty & addr' & space' & options' & [Heq|Hin]%elem_of_cons & Ht);
    [|left; by exists id', ty, addr', space', options'].
  - injection Heq as -> _. right. left. by constructor 1.
  - done.
Qed.

(** ** The replicas of a block *)

Lemma owns_write_chunk g data hs : owns hs (writer_write_chunk env g data) (fun _ => hs).
Proof. eapply owns_bind; [by apply owns_quiet|]. intros r. by apply owns_ret. Qed.

Lemma write_chunk_handle g data w w' g' :
  writer_write_chunk env g data w = (w', Ok g') -> gw_handle g' = gw_handle g.
Proof.
  unfold writer_write_chunk, io_bind, io_ret. destruct (attempt env _ w) as [w1 [|]]; [|done].
  by intros [= _ <-].
Qed.

Lemma owns_flush g hs : owns hs (writer_flush env g) (fun _ => hs).
Proof.
  eapply owns_bind; [by apply owns_quiet|]. intros [|]; [by apply owns_quiet|by apply owns_ret].
Qed.

Lemma owns_write_all fuel g data offset chunk_size hs :
  owns hs (write_all_loop env fuel g data offset chunk_size) (fun _ => hs).
Proof.
  revert g offset. induction fuel as [|fuel IH]; intros g offset; cbn [write_all_loop];
    (destruct (_ <? _); [|by apply owns_ret]); [by apply owns_ret|].
  eapply owns_bind; [apply owns_write_chunk|]. intros [g'|e]; [apply IH|by apply owns_ret].
Qed.

Definition kept_handles {A : Type} (r : result A (list ReplicaWriter)) : list nat :=
  match r with Ok rs => handles rs | Err _ => [] end.

Lemma owns_send_sequential rs kept data :
  owns (handles (kept ++ rs)) (send_sequential env rs kept data) kept_handles.
Proof.
  revert kept. induction rs as [|r rs IH]; intros kept; cbn [send_sequential].
  { rewrite app_nil_r. by apply owns_ret. }
  eapply (owns_bind_fact (fun out => forall g, out = Ok g -> gw_handle g = rw_handle r));
    [apply owns_write_chunk|intros w w' out H g ->; by apply write_chunk_handle in H|].
  intros [g|e] Hg.
  - specialize (Hg g eq_refl). eapply owns_weaken; [apply IH| |done]. rewrite !map_app. cbn. rewrite <- app_assoc. cbn.
    change (rw_handle (set_writer r g)) with (gw_handle g). by rewrite Hg.
  - eapply owns_bind; [eapply owns_weaken; [apply (owns_cancel (rw_writer r) (handles kept ++ handles rs))| |done]|].
    { rewrite map_app. cbn. unfold rw_handle at 2. set_solver. }
    intros ?. cbn beta. eapply owns_bind; [apply owns_frame, owns_cancel_all|].
    intros ?. cbn. eapply owns_bind; [apply owns_drop_all|]. intros ?. by apply owns_ret.
Qed.

Lemma owns_replica_op op r hs : owns hs (replica_op env op r) (fun _ => hs).
Proof.
  destruct op; cbn [replica_op].
  - eapply owns_bind; [apply owns_write_chunk|]. intros [g|e]; by apply owns_ret.
  - eapply owns_bind; [apply owns_flush|]. intros [u|e]; by apply owns_ret.
Qed.

Lemma replica_op_handle op r w w' r' :
  replica_op env op r w = (w', Ok r') -> rw_handle r' = rw_handle r.
Proof.
  destruct op; cbn [replica_op]; unfold io_bind, io_ret.
  - destruct (writer_write_chunk _ _ _ w) as [w1 [g|e]] eqn:H; [|done]. intros [= _ <-].
    by apply write_chunk_handle in H.
  - destruct (writer_flush _ _ w) as [w1 [u|e]]; [|done]. by intros [= _ <-].
Qed.

Lemma owns_drop_one r hs : owns (rw_handle r :: hs) (perform env (EvDrop (rw_handle r))) (fun _ => hs).
Proof.
  apply owns_perform; [done|]. intros h [->|]%elem_of_cons; [right|by left]. apply ends_self. auto.
Qed.

Lemma owns_fate hs b : owns hs (abort_fate env b) (fun _ => hs).
Proof. intros w w' fate. unfold abort_fate. intros [= <- _]. by apply handed_refl. Qed.

Lemma owns_join op size m rs kept n :
  owns (handles (kept ++ rs)) (join_replicas env op size m rs kept n) (fun out => handles (fst out)).
Proof.
  revert kept n. induction rs as [|r rs IH]; intros kept n; cbn [join_replicas].
  { rewrite app_nil_r. by apply owns_ret. }
  assert (Hlost : forall (end_ : IO unit) n', (forall hs, owns (rw_handle r :: hs) end_ (fun _ => hs)) ->
    owns (handles (kept ++ r :: rs)) (let! _ := end_ in join_replicas env op size m rs kept n')
      (fun out => handles (fst out))).
  { intros end_ n' Hend. eapply owns_bind; [|intros ?; apply IH].
    eapply owns_weaken; [apply (Hend (handles (kept ++ rs)))| |done]. rewrite !map_app. cbn. set_solver. }
  eapply owns_bind; [apply owns_fate|]. intros fate. destruct fate; [apply Hlost; intros hs; apply owns_drop_one|..].
  all: eapply (owns_bind_fact (fun out => forall r', out = Ok r' -> rw_handle r' = rw_handle r));
    [apply owns_replica_op|intros w w' out H r' ->; by apply replica_op_handle in H|].
  all: intros [r'|e] Hr; [|apply Hlost; intros hs; apply owns_cancel].
  - apply Hlost. intros hs. apply owns_drop_one.
  - specialize (Hr r' eq_refl). eapply owns_weaken; [apply IH| |done].
    rewrite !map_app. cbn. rewrite <- app_assoc. cbn. by rewrite Hr.
Qed.

Lemma handles_sort rs : handles (sort_by_key rw_ordinal rs) ≡ₚ handles rs.
Proof. apply Permutation_map, sort_by_key_perm. Qed.

Lemma owns_fanout rs m id op :
  owns (handles rs) (fanout_parallel env rs m id op) (fun out => handles (fst out)).
Proof.
  unfold fanout_parallel. destruct (_ <? m); [by apply owns_ret|].
  eapply owns_bind; [apply (owns_join op _ m rs [] 0)|]. intros [kept n]. cbn [fst snd].
  destruct (negb _).
  - eapply owns_bind; [eapply owns_weaken; [apply owns_cancel_all| |done]|]; [by rewrite handles_sort|].
    intros ?. by apply owns_ret.
  - apply owns_ret. cbn. by rewrite handles_sort.
Qed.

Lemma owns_active_write a data :
  owns (handles (aw_replicas a)) (active_write_chunk env a data) (fun out => handles (aw_replicas (fst out))).
Proof.
  unfold active_write_chunk. destruct (aw_replicas a) as [|r rs] eqn:Ha.
  { apply owns_ret. set_solver. }
  destruct (_ && _).
  - eapply owns_bind; [apply owns_fanout|]. intros out. by apply owns_ret.
  - eapply owns_bind; [apply (owns_send_sequential _ [])|]. intros [kept|e]; by apply owns_ret.
Qed.

Lemma owns_flush_each rs hs : owns hs (flush_each env rs) (fun _ => hs).
Proof.
  induction rs as [|r rs IH]; cbn [flush_each]; [by apply owns_ret|].
  eapply owns_bind; [apply owns_flush|]. intros [u|e]; [apply IH|by apply owns_ret].
Qed.

Lemma owns_flush_replicas a :
  owns (handles (aw_replicas a)) (flush_replicas env a) (fun out => handles (aw_replicas (fst out))).
Proof.
  unfold flush_replicas. destruct (aw_replicas a) as [|r rs] eqn:Ha; [apply owns_ret; set_solver|].
  destruct (_ && _).
  - eapply owns_bind; [apply owns_fanout|]. intros out. by apply owns_ret.
  - eapply owns_bind; [apply owns_flush_each|]. intros out. apply owns_ret. cbn. by rewrite Ha.
Qed.

Lemma owns_close_each rs e : owns (handles rs) (close_each env rs e) (fun _ => []).
Proof.
  revert e. induction rs as [|r rs IH]; intros e; cbn [close_each map]; [by apply owns_ret|].
  eapply owns_bind; [apply owns_close|]. intros ?. apply IH.
Qed.

Lemma owns_emit_loop fuel a src offset chunk_size :
  owns (handles (aw_replicas a)) (emit_loop env fuel a src offset chunk_size)
    (fun out => handles (aw_replicas (fst out))).
Proof.
  revert a offset. induction fuel as [|fuel IH]; intros a offset; cbn [emit_loop];
    (destruct (_ <=? _); [|destruct (_ <? _); by apply owns_ret]); [by apply owns_ret|].
  eapply owns_bind; [apply owns_active_write|]. intros [a' [u|e]]; cbn [fst snd]; [apply IH|by apply owns_ret].
Qed.

Lemma owns_emit a incoming chunk_size :
  owns (handles (aw_replicas a)) (emit_aligned_chunks env a incoming chunk_size)
    (fun out => handles (aw_replicas (fst out))).
Proof.
  unfold emit_aligned_chunks. destruct (chunk_size =? 0); [by apply owns_ret|].
  destruct (take_completed_pending _ _ _) as [[pending src] [chunk|]].
  - eapply owns_bind; [apply (owns_active_write (set_pending a pending))|].
    intros [a' [u|e]]; cbn [fst snd]; [apply owns_emit_loop|by apply owns_ret].
  - apply (owns_emit_loop _ (set_pending a pending)).
Qed.
End Rules.

(** ** The file writer *)

(** Every stream the writer holds. *)
Definition held (f : GoosefsFileWriter) : list nat := cache_handles f ++ ufs_handles f.

(** A rule of consequence with a fact about the result. *)
Lemma owns_conseq {A : Type} (R : A -> Prop) hs (m : IO A) Q0 Q :
  owns hs m Q0 -> (forall w w' a, m w = (w', a) -> R a) -> (forall a, R a -> Q0 a ⊆ Q a) -> owns hs m Q.
Proof.
  intros Hm HR HQ w w' a H. destruct (Hm w w' a H) as [M N O].
  specialize (HQ a (HR w w' a H)). split; [done| |].
  - intros h Hh. destruct (N h Hh) as [|[|]]; auto.
  - intros h Hh. destruct (O h Hh); auto.
Qed.

Section Writer.
Context (env : WriteEnv) (cfg : WriterConfig) (file_info : FileInfo) (strategy : WriteStrategy).
Context (shared : WorkerRouter) (operation_id : Z).

Lemma owns_blacklist X f addr a :
  owns (X ++ held f) (blacklist env f addr a) (fun f' => X ++ held f').
Proof.
  eapply owns_bind; [apply owns_now|]. intros t.
  eapply owns_bind; [by apply owns_perform; [|by left]|]. intros ?. by apply owns_ret.
Qed.

Lemma owns_blacklist_replicas X f rs :
  owns (X ++ held f) (blacklist_replicas env f rs) (fun f' => X ++ held f').
Proof.
  revert f. induction rs as [|r rs IH]; intros f; cbn [blacklist_replicas]; [by apply owns_ret|].
  eapply owns_bind; [apply owns_blacklist|]. intros f'. apply IH.
Qed.

(** *** The UFS stream *)

Lemma owns_open_ufs f :
  fw_ufs_stream f = None -> owns (held f) (open_ufs_stream env strategy f) (fun out => held (fst out)).
Proof.
  intros Hn w w' out. unfold open_ufs_stream. destruct (view_pick_any_worker _ _ _) as [v [info|e]];
    [|intros [= <- <-]; by apply handed_refl].
  destruct (wi_address info) as [addr|]; [|intros [= <- <-]; by apply handed_refl].
  match goal with |- ?m w = _ -> _ => cut (owns (held (with_router f v)) m (fun out => held (fst out))) end.
  { intros Ho. apply Ho. }
  eapply owns_bind; [by apply owns_quiet|]. intros [u|e].
  2:{ eapply owns_bind; [apply (owns_blacklist [])|]. intros f'. by apply owns_ret. }
  eapply owns_bind; [apply owns_open|]. intros [g|e].
  - apply owns_ret. unfold held, ufs_handles. cbn. rewrite Hn. set_solver.
  - eapply owns_bind; [apply (owns_blacklist [])|]. intros f'. by apply owns_ret.
Qed.

Lemma owns_ufs_failure f e :
  owns (held f) (handle_ufs_write_exception env f e) (fun out => held (fst out)).
Proof.
  unfold handle_ufs_write_exception.
  eapply (owns_bind _ _ _ (fun _ => cache_handles f)).
  { unfold held, ufs_handles. destruct (fw_ufs_stream f) as [g|].
    - eapply owns_weaken; [apply (owns_cancel _ _ (cache_handles f))| |done]. set_solver.
    - apply owns_ret. by rewrite app_nil_r. }
  intros ?. eapply (owns_bind _ _ _ (fun f' => cache_handles f')).
  { destruct (fw_ufs_worker_addr f) as [addr|]; [|by apply owns_ret].
    eapply owns_bind; [apply owns_now|]. intros t.
    eapply owns_bind; [by apply owns_perform; [|by left]|]. intros ?. by apply owns_ret. }
  intros f'. apply owns_ret. unfold held. cbn. by rewrite app_nil_r.
Qed.

Lemma write_all_handle fuel g data offset chunk_size w w' g' r :
  write_all_loop env fuel g data offset chunk_size w = (w', (g', r)) -> gw_handle g' = gw_handle g.
Proof.
  revert g offset w. induction fuel as [|fuel IH]; intros g offset w; cbn [write_all_loop];
    (destruct (_ <? _); [|by intros [= _ <- _]]); [by intros [= _ <- _]|].
  io_step w1 r1 H1. destruct r1 as [g1|e]; [|by intros [= _ <- _]].
  intros H2%IH. by rewrite H2, (write_chunk_handle _ _ _ _ _ _ H1).
Qed.

Lemma owns_write_ufs f data :
  owns (held f) (write_to_ufs_stream env cfg strategy f data) (fun out => held (fst out)).
Proof.
  unfold write_to_ufs_stream. eapply (owns_bind _ _ _ (fun out => held (fst out))).
  { destruct (fw_ufs_stream f) eqn:Hn; [by apply owns_ret|by apply owns_open_ufs]. }
  intros [f1 [u|e]]; [|by apply owns_ret]. cbn [fst]. destruct (fw_ufs_stream f1) as [g|] eqn:Hg;
    [|by apply owns_ret].
  set (put g' := with_ufs f1 (Some g') (fw_ufs_worker_addr f1) (fw_ufs_stream_completed f1)).
  eapply (owns_bind _ _ _ (fun out => held (put (fst out)))).
  - eapply (owns_conseq (fun out => gw_handle (fst out) = gw_handle g)); [apply owns_write_all| |].
    + intros w w' [g' r] H. by apply write_all_handle in H.
    + intros [g' r] Heq. cbn in Heq. unfold held, ufs_handles. cbn. by rewrite Hg, Heq.
  - intros [g' [u'|e]]; [by apply owns_ret|apply owns_ufs_failure].
Qed.

(** *** Cache blocks *)

Definition opened_handle (r : result Error ReplicaWriter) : list nat :=
  match r with Ok rep => [rw_handle rep] | Err _ => [] end.

Lemma owns_try_open id size info ordinal :
  owns [] (try_open_replica env strategy id size info ordinal) opened_handle.
Proof.
  unfold try_open_replica. destruct (wi_address info) as [addr|]; [|by apply owns_ret].
  eapply owns_bind; [by apply owns_quiet|]. intros [u|e]; [|by apply owns_ret].
  eapply owns_bind; [apply owns_open|]. intros [g|e]; by apply owns_ret.
Qed.

Lemma owns_open_replicas pool f id size initial reps err :
  owns (handles reps ++ held f) (open_replicas env strategy f id size initial pool reps err)
    (fun out => handles (fst (snd out)) ++ held (fst out)).
Proof.
  revert f reps err. induction pool as [|info pool IH]; intros f reps err; cbn [open_replicas];
    [by apply owns_ret|]. destruct (_ <=? _); [by apply owns_ret|].
  eapply owns_bind; [apply (owns_frame (handles reps ++ held f) []), owns_try_open|]. intros [rep|e].
  - eapply owns_weaken; [apply IH| |done]. rewrite map_app. cbn. set_solver.
  - eapply owns_bind; [|intros f'; apply IH]. cbn [opened_handle app].
    destruct (wi_address info); [apply owns_blacklist|by apply owns_ret].
Qed.

(** The streams of a block that was opened, if it was. *)
Definition block_result (r : result Error ActiveBlockWriter) : list nat :=
  match r with Ok a => handles (aw_replicas a) | Err _ => [] end.

Lemma owns_open_replica_writers f id size plan all :
  owns (held f) (open_replica_writers env cfg strategy f id size plan all)
    (fun out => block_result (snd out) ++ held (fst out)).
Proof.
  unfold open_replica_writers. eapply owns_bind; [apply owns_now|]. intros t.
  destruct (replica_pool cfg strategy f t id plan all) as [f1 r1] eqn:Hp.
  apply replica_pool_router in Hp as [v ->].
  destruct r1 as [[|info pool]|e]; [by apply owns_ret| |by apply owns_ret].
  destruct (degrade_replicas _ _ _ _) as [initial min_needed].
  eapply owns_bind; [apply (owns_open_replicas _ (with_router f v) _ _ _ [])|].
  intros [f2 [reps err]]. cbn [fst snd]. destruct (_ || _); [|by apply owns_ret].
  eapply owns_bind; [apply owns_frame, owns_cancel_all|]. intros ?. by apply owns_ret.
Qed.

Lemma owns_finish_block f a offset commit :
  owns (handles (aw_replicas a) ++ held f) (finish_block env strategy f a offset commit)
    (fun out => held (fst out)).
Proof.
  unfold finish_block. eapply owns_bind; [apply owns_frame, owns_close_each|]. cbn [app].
  intros [u|e]; [|by apply owns_ret].
  eapply (owns_bind _ _ _ (fun _ => held f)).
  { destruct (file_location a offset); [destruct (_ && _)|]; [by apply owns_quiet|by apply owns_ret..]. }
  intros [u'|e]; by apply owns_ret.
Qed.

Lemma owns_cancel_block f a {A : Type} (r : A) :
  owns (handles (aw_replicas a) ++ held f) (let! _ := cancel_replicas env a in io_ret (f, r))
    (fun out => held (fst out)).
Proof.
  eapply owns_bind; [apply owns_frame, owns_cancel_all|]. intros ?. by apply owns_ret.
Qed.

Lemma held_block f a : fw_current_block_writer f = Some a ->
  held f = handles (aw_replicas a) ++ held (with_block f (fw_block_opened f) None).
Proof. intros Ha. unfold held. cbn. by rewrite Ha. Qed.

Lemma owns_close_current f commit :
  owns (held f) (close_current_block env strategy f commit) (fun out => held (fst out)).
Proof.
  unfold close_current_block. destruct (fw_current_block_writer f) as [a|] eqn:Ha; [|by apply owns_ret].
  rewrite (held_block f a Ha). set (f0 := with_block f (fw_block_opened f) None). cbn zeta.
  destruct (0 <? _); [|apply (owns_cancel_block f0 (set_pending a []))].
  eapply (owns_bind _ _ _ (fun out => handles (aw_replicas (fst out)) ++ held f0)).
  { apply owns_frame. destruct (aw_pending_chunk a); [by apply owns_ret|].
    apply (owns_active_write env (set_pending a [])). }
  intros [a1 [u1|e]]; [|apply owns_cancel_block].
  eapply (owns_bind _ _ _ (fun out => handles (aw_replicas (fst out)) ++ held f0)).
  { apply owns_frame. destruct (should_flush_cache_block_on_close commit);
      [apply owns_flush_replicas|by apply owns_ret]. }
  intros [a2 [u2|e]]; [apply owns_finish_block|apply owns_cancel_block].
Qed.

Lemma close_current_none f commit w w' f' r :
  close_current_block env strategy f commit w = (w', (f', r)) ->
  fw_current_block_writer f' = None /\ fw_ufs_stream f' = fw_ufs_stream f.
Proof.
  unfold close_current_block. destruct (fw_current_block_writer f) as [a|] eqn:Ha; [|by intros [= _ <- _]].
  cbn zeta. destruct (0 <? _); [|unfold io_bind at 1; destruct (cancel_replicas _ _ _); by intros [= _ <- _]].
  io_step w1 out1 H1. destruct out1 as [a1 [u1|e1]];
    [|unfold io_bind at 1; destruct (cancel_replicas _ _ _); by intros [= _ <- _]].
  io_step w2 out2 H2. destruct out2 as [a2 [u2|e2]];
    [|unfold io_bind at 1; destruct (cancel_replicas _ _ _); by intros [= _ <- _]].
  unfold finish_block. io_step w3 r3 H3. destruct r3 as [u3|e3]; [|by intros [= _ <- _]].
  io_step w4 r4 H4. destruct r4 as [u4|e4]; by intros [= _ <- _].
Qed.

Lemma owns_open_next f size :
  owns (held f) (open_next_block env cfg file_info strategy f size) (fun out => held (fst out)).
Proof.
  unfold open_next_block.
  eapply (owns_bind_fact (fun out => fw_current_block_writer (fst out) = None) _ _ _ (fun out => held (fst out))).
  { destruct (fw_current_block_writer f); [apply owns_close_current|by apply owns_ret]. }
  { intros w w' [f' r]. destruct (fw_current_block_writer f) as [a|] eqn:Ha.
    - intros H. by apply close_current_none in H as [? _].
    - by intros [= _ <- _]. }
  intros [f1 [l1|e1]] Hn; cbn in Hn |- *; [|by apply owns_ret].
  destruct (replica_write_plan _ _ _ _ _) as [plan|e] eqn:Hplan; [|by apply owns_ret].
  assert (Hrouter : forall f0 all w w' f' r, fw_current_block_writer f0 = None ->
    open_replica_writers env cfg strategy f0 (compute_block_id (default 0 (fi_file_id file_info))
      (zlen (fw_committed_block_ids f1))) size plan all w = (w', (f', r)) -> fw_current_block_writer f' = None).
  { intros f0 all w w' f' r H0 H. by apply (open_replica_writers_spec _ _ _ _ _ _ _ _ _ _ _ _ Hplan) in H as (_ & [v ->] & _). }
  eapply (owns_bind_fact (fun out => fw_current_block_writer (fst out) = None));
    [apply owns_open_replica_writers|intros w w' [f' r]; by apply Hrouter|].
  intros [f2 r2] Hn2. cbn [fst snd] in *.
  eapply (owns_bind_fact (fun out => fw_current_block_writer (fst out) = None) _ _ _
    (fun out => block_result (snd out) ++ held (fst out))).
  { destruct r2; [by apply owns_ret|apply owns_open_replica_writers]. }
  { intros w w' [f' r]. destruct r2; [by intros [= _ <- _]|by apply Hrouter]. }
  intros [f3 [a|e]] Hn3; apply owns_ret; [|done]. cbn in *. unfold held. cbn. by rewrite Hn3.
Qed.

Lemma owns_cache_loop fuel f data offset :
  owns (held f) (write_to_cache_loop env cfg file_info strategy fuel f data offset) (fun out => held (fst out)).
Proof.
  revert f offset. induction fuel as [|fuel IH]; intros f offset; cbn [write_to_cache_loop];
    (destruct (_ <? _); [|by apply owns_ret]); [by apply owns_ret|].
  eapply (owns_bind _ _ _ (fun out => held (fst out))).
  { destruct (needs_fresh_block _); [apply owns_open_next|by apply owns_ret]. }
  intros [f1 [u|e]]; [|by apply owns_ret]. cbn [fst].
  destruct (fw_current_block_writer f1) as [a|] eqn:Ha; [|by apply owns_ret].
  rewrite (held_block f1 a Ha). cbn zeta.
  eapply owns_bind; [apply owns_frame, (owns_emit env (set_written a _))|].
  intros [a' r']. assert (Hh : handles (aw_replicas a') ++ held (with_block f1 (fw_block_opened f1) None) =
    held (with_block f1 (fw_block_opened f1) (Some a'))) by done.
  cbn [fst]. rewrite Hh. destruct r'; [apply IH|by apply owns_ret].
Qed.

Lemma owns_tear_down f b : owns (held f) (tear_down_cache_block env f b) held.
Proof.
  unfold tear_down_cache_block. destruct (fw_current_block_writer f) as [a|] eqn:Ha; [|by apply owns_ret].
  rewrite (held_block f a Ha). cbn zeta.
  eapply (owns_bind _ _ _ (fun f' => handles (aw_replicas a) ++ held f')).
  { destruct b; [apply owns_blacklist_replicas|by apply owns_ret]. }
  intros f1. eapply owns_bind; [apply owns_frame, owns_cancel_all|]. intros ?. by apply owns_ret.
Qed.

(** *** Public operations *)

Lemma owns_fw_write f data :
  owns (held f) (fw_write env cfg file_info strategy shared f data) (fun out => held (fst out)).
Proof.
  unfold fw_write. destruct (_ || _); [by apply owns_ret|]. destruct (_ =? 0); [by apply owns_ret|].
  destruct (ensure_router_init shared f) as [f0 r0] eqn:Hi.
  assert (Hh : held f = held f0).
  { unfold ensure_router_init in Hi. destruct (negb _); [by injection Hi as <- _|].
    destruct (wr_workers shared); by injection Hi as <- _. }
  rewrite Hh. destruct r0 as [u0|e0]; [|by apply owns_ret].
  eapply (owns_bind _ _ _ (fun out => held (fst out))).
  { destruct (fw_should_cache f0); [|by apply owns_ret].
    eapply owns_bind; [apply owns_cache_loop|]. intros [f1 [u1|e1]]; [by apply owns_ret|].
    unfold handle_cache_write_exception. eapply owns_bind; [apply owns_tear_down|].
    intros f2. destruct (cache_write_failure_is_fatal _ _ _ _); by apply owns_ret. }
  intros [f1 [u1|e1]]; [|by apply owns_ret]. cbn [fst].
  eapply (owns_bind _ _ _ (fun out => held (fst out))).
  { destruct (fw_ufs_write_enabled f1); [apply owns_write_ufs|by apply owns_ret]. }
  intros [f2 [u2|e2]]; by apply owns_ret.
Qed.

Lemma owns_fw_flush f : owns (held f) (fw_flush env cfg strategy f) (fun out => held (fst out)).
Proof.
  unfold fw_flush. destruct (_ || _); [by apply owns_ret|].
  eapply (owns_bind _ _ _ (fun _ => held f)).
  { destruct (fw_ufs_stream f); [apply owns_flush|by apply owns_ret]. }
  intros [u|e]; [|by apply owns_ret]. destruct (_ && _); [|by apply owns_ret].
  unfold flush_cache_block. destruct (fw_current_block_writer f) as [a|] eqn:Ha; [|by apply owns_ret].
  destruct (0 <? _); [|by apply owns_ret]. rewrite (held_block f a Ha). cbn zeta.
  eapply owns_bind.
  { apply owns_frame. instantiate (1 := fun out => handles (aw_replicas (fst out))).
    destruct (aw_pending_chunk a); [by apply owns_ret|apply (owns_active_write env (set_pending a []))]. }
  intros [a1 [u1|e1]]; [|by apply owns_ret].
  eapply owns_bind; [apply owns_frame, owns_flush_replicas|]. intros [a2 r2]. by apply owns_ret.
Qed.

Lemma owns_remove_committed hs ids : owns hs (remove_committed env ids) (fun _ => hs).
Proof.
  unfold remove_committed. destruct ids; [by apply owns_ret|].
  eapply owns_bind; [by apply owns_quiet|]. intros [u|e]; [by apply owns_ret|].
  by apply owns_perform; [|by left].
Qed.

(** Cancelling a UFS stream and a block that may not be there. *)
Lemma owns_cancel_ufs (g : option GrpcBlockWriter) hs :
  owns (hs ++ match g with Some g => [gw_handle g] | None => [] end)
    (match g with Some g => writer_cancel env g | None => io_ret tt end) (fun _ => hs).
Proof.
  destruct g as [g|]; [|apply owns_ret; by rewrite app_nil_r].
  eapply owns_weaken; [apply (owns_cancel _ _ hs)| |done]. set_solver.
Qed.

Lemma owns_cancel_current (b : option ActiveBlockWriter) :
  owns (block_handles b) (match b with Some a => cancel_replicas env a | None => io_ret tt end) (fun _ => []).
Proof. destruct b as [a|]; [apply owns_cancel_all|by apply owns_ret]. Qed.

Lemma owns_cleanup f : owns (held f) (do_cancel_cleanup env f) (fun _ => []).
Proof.
  unfold do_cancel_cleanup. eapply owns_bind; [apply owns_cancel_ufs|]. intros ?.
  eapply owns_bind; [apply owns_cancel_current|]. intros ?.
  eapply owns_bind; [apply owns_remove_committed|]. intros ?. by apply owns_ret.
Qed.

Lemma owns_cleanup_then f {A : Type} (r : A) (hs : list nat) Q :
  hs ⊆ held f -> owns hs (let! f' := do_cancel_cleanup env f in io_ret (f', r)) Q.
Proof.
  intros Hs. eapply owns_weaken with (hs0 := held f) (Q0 := fun _ => []); [|done|set_solver].
  eapply owns_bind; [apply owns_cleanup|]. intros f'. by apply owns_ret.
Qed.

(** Closing ends every stream, whether it succeeds or not. *)
Lemma owns_fw_close f :
  fw_closed f = false -> fw_cancelled f = false ->
  owns (held f) (fw_close env cfg file_info strategy operation_id f) (fun _ => []).
Proof.
  intros Hcl Hca. unfold fw_close. rewrite Hcl. cbn [fw_cancelled with_flags]. rewrite Hca.
  assert (Hufs : owns (held f) (close_ufs env (with_flags f false true)) (fun out =>
    match snd out with Ok _ => cache_handles (fst out) | Err _ => [] end)).
  { unfold close_ufs, held, ufs_handles. cbn [fw_ufs_stream with_flags].
    destruct (fw_ufs_stream f) as [g|] eqn:Hg; [|apply owns_ret; cbn; by rewrite app_nil_r].
    eapply owns_bind; [apply owns_flush|]. intros [u|e].
    - eapply owns_bind; [eapply owns_weaken; [apply (owns_close _ _ (cache_handles f))|set_solver|done]|].
      cbn beta. intros [u2|e2]; [by apply owns_ret|].
      apply owns_cleanup_then. unfold held. cbn. set_solver.
    - eapply owns_bind; [eapply owns_weaken; [apply (owns_cancel _ _ (cache_handles f))|set_solver|done]|].
      intros ?. apply owns_cleanup_then. unfold held. cbn. set_solver. }
  eapply (owns_bind_fact (fun out => snd out = Ok tt -> fw_ufs_stream (fst out) = None)); [exact Hufs| |].
  { intros w w' [f' r]. unfold close_ufs. destruct (fw_ufs_stream _) eqn:Hg; [|by intros [= _ <- _]].
    io_step w1 r1 H1. destruct r1 as [[]|e].
    - io_step w2 r2 H2. destruct r2 as [[]|e]; [by intros [= _ <- _]|]. io_step w3 f3 H3. by intros [= _ _ <-].
    - io_step w2 r2 H2. io_step w3 f3 H3. by intros [= _ _ <-]. }
  intros [f1 [[]|e]] Hn; cbn [fst snd] in *; [|by apply owns_ret]. specialize (Hn eq_refl).
  eapply (owns_bind_fact (fun out => held (fst out) = []) _ _ _ (fun out => held (fst out))).
  { eapply owns_weaken; [apply owns_close_current| |done]. unfold held. set_solver. }
  { intros w w' [f' r] [H1 H2]%close_current_none. unfold held, ufs_handles. cbn. by rewrite H1, H2, Hn. }
  intros [f2 r2] Hh. cbn [fst] in *. rewrite Hh. destruct r2 as [last|e].
  2:{ apply owns_cleanup_then. set_solver. }
  eapply (owns_bind _ _ _ (fun _ => [])).
  { unfold complete_or_recover. eapply owns_bind; [by apply owns_quiet|]. intros [u|e]; [by apply owns_ret|].
    unfold handle_complete_file_error. destruct (_ || _); [by apply owns_ret|].
    eapply owns_bind; [by apply owns_quiet|]. intros [u|e2]; [|by apply owns_ret].
    eapply owns_bind; [by apply owns_quiet|]. intros [u2|e2]; [|by apply owns_ret].
    eapply owns_bind; [by apply owns_perform; [|by left]|]. intros ?. by apply owns_ret. }
  intros [u|e]; [|by apply owns_ret].
  eapply owns_bind; [by apply owns_perform; [|by left]|]. intros ?. by apply owns_ret.
Qed.

Lemma owns_fw_cancel f :
  fw_closed f = false -> fw_cancelled f = false -> owns (held f) (fw_cancel env f) (fun _ => []).
Proof.
  intros Hcl Hca. unfold fw_cancel. rewrite Hcl, Hca.
  eapply owns_bind; [apply (owns_cleanup (with_flags f true false))|]. intros f'.
  eapply owns_bind; [by apply owns_perform; [|by left]|]. intros ?. by apply owns_ret.
Qed.

Lemma owns_drop rt f :
  fw_closed f = false -> fw_cancelled f = false ->
  owns (held f) (perform_drop_cleanup env rt f) (fun _ => []).
Proof.
  intros Hcl Hca. unfold perform_drop_cleanup. rewrite Hcl, Hca. cbn [orb]. destruct rt.
  - eapply owns_bind; [apply owns_cancel_ufs|]. intros ?.
    eapply owns_bind; [apply owns_cancel_current|]. intros ?.
    eapply owns_bind; [apply owns_remove_committed|]. intros ?. by apply owns_ret.
  - eapply (owns_bind _ _ _ (fun _ => cache_handles f)).
    { unfold held, ufs_handles. destruct (fw_ufs_stream f) as [g|]; [|apply owns_ret; by rewrite app_nil_r].
      apply owns_perform; [done|]. intros h [Hh|Hh]%elem_of_app; [by left|].
      apply list_elem_of_singleton in Hh as ->. right. apply ends_self. auto. }
    intros ?. eapply (owns_bind _ _ _ (fun _ => [])).
    { destruct (fw_current_block_writer f) as [b|]; [apply owns_drop_all|by apply owns_ret]. }
    intros ?. by apply owns_ret.
Qed.

Lemma owns_create :
  owns [] (fw_create env strategy shared) (fun r => match r with Ok f => held f | Err _ => [] end).
Proof.
  unfold fw_create. eapply owns_bind; [by apply owns_quiet|]. intros [u|e]; [|by apply owns_ret].
  eapply owns_bind; [by apply owns_perform; [|by left]|]. intros ?.
  destruct (ws_ufs_stream strategy); [|by apply owns_ret].
  destruct (ensure_router_init shared (initial_writer strategy)) as [f0 r0] eqn:Hi.
  assert (Hh : held f0 = [] /\ fw_ufs_stream f0 = None).
  { unfold ensure_router_init in Hi. cbn [negb fw_router_needs_init initial_writer] in Hi.
    destruct (wr_workers shared); by injection Hi as <- _. }
  destruct Hh as [Hh Hn]. destruct r0 as [u0|e0]; [|by apply owns_ret].
  eapply (owns_bind_fact (fun out => forall e, snd out = Err e -> held (fst out) = [])).
  - rewrite <- Hh. by apply owns_open_ufs.
  - intros w w' [f1 r1] H1 e. cbn. intros ->. apply open_ufs_stream_spec in H1 as (_ & Hbad & _).
    destruct (Hbad ltac:(done)) as [v ->]. exact Hh.
  - intros [f1 [u1|e1]] Hbad; apply owns_ret; [done|].
    specialize (Hbad e1 eq_refl). cbn in *. by rewrite Hbad.
Qed.

(** ** Any sequence of calls *)

Inductive FileCall : Type :=
| CallWrite (data : bytes)
| CallFlush
| CallCancel
| CallClose.

Definition run_call (f : GoosefsFileWriter) (c : FileCall) : IO (GoosefsFileWriter * Answer) :=
  match c with
  | CallWrite data => fw_write env cfg file_info strategy shared f data
  | CallFlush => fw_flush env cfg strategy f
  | CallCancel => fw_cancel env f
  | CallClose => fw_close env cfg file_info strategy operation_id f
  end.

(** The caller goes on whatever a call returned. *)
Fixpoint run_calls (f : GoosefsFileWriter) (cs : list FileCall) : IO GoosefsFileWriter :=
  match cs with
  | [] => io_ret f
  | c :: cs => let! (f, _) := run_call f c in run_calls f cs
  end.

Lemma owns_run_call f c : owns (held f) (run_call f c) (fun out => held (fst out)).
Proof.
  destruct c; cbn [run_call]; [apply owns_fw_write|apply owns_fw_flush|..].
  - destruct (fw_closed f) eqn:Hcl; [unfold fw_cancel; rewrite Hcl; by apply owns_ret|].
    destruct (fw_cancelled f) eqn:Hca; [unfold fw_cancel; rewrite Hcl, Hca; by apply owns_ret|].
    eapply owns_weaken; [by apply owns_fw_cancel|done|set_solver].
  - destruct (fw_closed f) eqn:Hcl; [unfold fw_close; rewrite Hcl; by apply owns_ret|].
    destruct (fw_cancelled f) eqn:Hca.
    { unfold fw_close. rewrite Hcl. cbn [fw_cancelled with_flags]. rewrite Hca. by apply owns_ret. }
    eapply owns_weaken; [by apply owns_fw_close|done|set_solver].
Qed.

Lemma owns_run_calls f cs : owns (held f) (run_calls f cs) held.
Proof.
  revert f. induction cs as [|c cs IH]; intros f; cbn [run_calls]; [by apply owns_ret|].
  eapply owns_bind; [apply owns_run_call|]. intros [f' r]. apply IH.
Qed.
End Writer.
