(* ===== verification/WriterTermination.v ===== *)
(** * The loops of the writer stop

    The loops that send chunks, fill blocks and feed the UFS stream carry a bound; the
    source loops have none.  No call ever reaches a bound, whatever workers and the
    master answer and whatever calls failed before: the loops of the source stop. *)

From S2P Require Import Prelude Text Errors Proto HashRing Router Crc ReplicaPlan BlockWriter.
From S2P Require Import BlockWriterFacts FileWriter FileWriterFacts StreamOwnership.

(** ** What every result of a computation satisfies *)

Definition ensures {A : Type} (m : IO A) (Q : A -> Prop) : Prop :=
  forall w w' a, m w = (w', a) -> Q a.

Lemma ensures_ret {A : Type} (a : A) (Q : A -> Prop) : Q a -> ensures (io_ret a) Q.
Proof. by intros H w w' a' [= _ <-]. Qed.

Lemma ensures_bind {A B : Type} (m : IO A) (k : A -> IO B) (Q : A -> Prop) (R : B -> Prop) :
  ensures m Q -> (forall a, Q a -> ensures (k a) R) -> ensures (io_bind m k) R.
Proof.
  intros Hm Hk w w' b. unfold io_bind. destruct (m w) as [w1 a] eqn:H1.
  apply (Hk a). by eapply Hm.
Qed.

(** ... when nothing about the first result matters. *)
Lemma ensures_seq {A B : Type} (m : IO A) (k : A -> IO B) (R : B -> Prop) :
  (forall a, ensures (k a) R) -> ensures (io_bind m k) R.
Proof. intros Hk. by apply (ensures_bind m k (fun _ => True)). Qed.

Abbreviation stops r := (r <> Err write_out_of_fuel).

Section Termination.
Context (env : WriteEnv) (cfg : WriterConfig) (file_info : FileInfo) (strategy : WriteStrategy).
Context (shared : WorkerRouter) (operation_id : Z).

Abbreviation bs := (block_size_of cfg file_info).
Abbreviation cs := (wc_chunk_size cfg).

(** Workers and the master do not answer with the mark of an exhausted bound. *)
Context (Henv : forall tr e, stops (env_answer env tr e)).
Context (Hcs : 0 < cs) (Hbs : 0 < bs).

Lemma attempt_stops e : ensures (attempt env e) (fun r => stops r).
Proof. intros w w' r. unfold attempt. intros [= _ <-]. apply Henv. Qed.

Lemma open_stops addr id space options :
  ensures (writer_open env addr id space options) (fun r => stops r).
Proof.
  intros w w' r. unfold writer_open, io_bind. destruct (attempt env _ _) as [w1 [u|e]] eqn:H1;
    intros [= _ <-]; [done|]. apply attempt_stops in H1. congruence.
Qed.

Lemma write_chunk_stops g data : ensures (writer_write_chunk env g data) (fun r => stops r).
Proof. apply ensures_seq. intros [|]; by apply ensures_ret. Qed.

Lemma flush_stops g : ensures (writer_flush env g) (fun r => stops r).
Proof. apply ensures_seq. intros [|]; [apply attempt_stops|by apply ensures_ret]. Qed.

Lemma write_all_stops fuel g data offset :
  zlen data - offset <= Z.of_nat fuel ->
  ensures (write_all_loop env fuel g data offset cs) (fun out => stops (snd out)).
Proof.
  revert g offset. induction fuel as [|fuel IH]; intros g offset Hf; cbn [write_all_loop];
    (destruct (Z.ltb_spec offset (zlen data)); [try lia|by apply ensures_ret]).
  eapply ensures_bind; [apply write_chunk_stops|]. intros [g'|e] He.
  - apply IH. lia.
  - apply ensures_ret. cbn. congruence.
Qed.

(** ** Blocks *)

(** The block keeps its size and what it has accepted. *)
Definition same_fill (a a' : ActiveBlockWriter) : Prop :=
  aw_block_size a' = aw_block_size a /\ aw_bytes_written a' = aw_bytes_written a.

Lemma send_sequential_stops rs kept data :
  ensures (send_sequential env rs kept data) (fun r => stops r).
Proof.
  revert kept. induction rs as [|r rs IH]; intros kept; cbn [send_sequential]; [by apply ensures_ret|].
  eapply ensures_bind; [apply write_chunk_stops|]. intros [g|e] He; [apply IH|].
  do 3 (apply ensures_seq; intros ?). apply ensures_ret. congruence.
Qed.

Lemma fanout_stops rs m id op : ensures (fanout_parallel env rs m id op) (fun out => stops (snd out)).
Proof.
  unfold fanout_parallel. destruct (_ <? m); [by apply ensures_ret|]. apply ensures_seq. intros joined.
  cbn zeta. destruct (negb _); [|by apply ensures_ret]. apply ensures_seq. intros ?. by apply ensures_ret.
Qed.

Lemma active_write_stops a data :
  ensures (active_write_chunk env a data) (fun out => stops (snd out) /\ same_fill a (fst out)).
Proof.
  unfold active_write_chunk. destruct (aw_replicas a); [by apply ensures_ret|]. destruct (_ && _).
  - eapply ensures_bind; [apply fanout_stops|]. intros [rs' r'] Hr. by apply ensures_ret.
  - eapply ensures_bind; [apply send_sequential_stops|]. intros [rs'|e] Hr; apply ensures_ret; [done|].
    cbn. split; [congruence|done].
Qed.

Lemma flush_each_stops rs : ensures (flush_each env rs) (fun r => stops r).
Proof.
  induction rs as [|r rs IH]; cbn [flush_each]; [by apply ensures_ret|].
  eapply ensures_bind; [apply flush_stops|]. intros [u|e] He; [done|]. apply ensures_ret. congruence.
Qed.

Lemma flush_replicas_stops a :
  ensures (flush_replicas env a) (fun out => stops (snd out) /\ same_fill a (fst out)).
Proof.
  unfold flush_replicas. destruct (aw_replicas a) eqn:Ha; [by apply ensures_ret|]. destruct (_ && _).
  - eapply ensures_bind; [apply fanout_stops|]. intros [rs' r'] Hr. by apply ensures_ret.
  - eapply ensures_bind; [apply flush_each_stops|]. intros r' Hr. by apply ensures_ret.
Qed.

Lemma close_each_stops rs err :
  (forall e, err = Some e -> e <> write_out_of_fuel) -> ensures (close_each env rs err) (fun r => stops r).
Proof.
  revert err. induction rs as [|r rs IH]; intros err Herr; cbn [close_each].
  { apply ensures_ret. destruct err as [e|]; [|done]. intros [= ->]. by apply (Herr _ eq_refl). }
  eapply ensures_bind; [apply attempt_stops|]. intros closed Hcl. apply IH.
  destruct err as [e|]; [done|]. destruct closed as [|e]; [done|]. intros e' [= <-] ->. done.
Qed.

Lemma emit_loop_stops fuel a src offset :
  zlen src - offset <= Z.of_nat fuel ->
  ensures (emit_loop env fuel a src offset cs) (fun out => stops (snd out) /\ same_fill a (fst out)).
Proof.
  revert a offset. induction fuel as [|fuel IH]; intros a offset Hf; cbn [emit_loop];
    (destruct (Z.leb_spec (offset + cs) (zlen src)); [try lia|destruct (_ <? _); by apply ensures_ret]).
  eapply ensures_bind; [apply active_write_stops|]. intros [a' [[]|e]] [Hr [H1 H2]]; cbn [fst snd] in *.
  - intros w w' [a2 r2] Hrun. apply IH in Hrun as [Hr2 [H3 H4]]; [|lia]. cbn in *.
    split; [done|]. split; congruence.
  - apply ensures_ret. by split.
Qed.

Lemma emit_stops a incoming :
  ensures (emit_aligned_chunks env a incoming cs) (fun out => stops (snd out) /\ same_fill a (fst out)).
Proof.
  unfold emit_aligned_chunks. rewrite (proj2 (Z.eqb_neq _ _)) by lia.
  destruct (take_completed_pending _ _ _) as [[pending src] [chunk|]].
  - eapply ensures_bind; [apply active_write_stops|]. intros [a' [[]|e]] [Hr [H1 H2]]; cbn [fst snd] in *.
    + intros w w' [a2 r2] Hrun. apply emit_loop_stops in Hrun as [Hr2 [H3 H4]]; [|unfold zlen; lia].
      cbn in *. split; [done|]. split; congruence.
    + apply ensures_ret. by split.
  - apply (emit_loop_stops _ (set_pending a pending)). unfold zlen. lia.
Qed.

(** ** The file writer *)

(** The open block is not over-full. *)
Definition sane (f : GoosefsFileWriter) : Prop :=
  match fw_current_block_writer f with
  | Some a => aw_bytes_written a <= aw_block_size a
  | None => True
  end.

Lemma blacklist_block f addr a :
  ensures (blacklist env f addr a) (fun f' => fw_current_block_writer f' = fw_current_block_writer f).
Proof. do 2 (apply ensures_seq; intros ?). by apply ensures_ret. Qed.

Lemma try_open_stops id size info ordinal :
  ensures (try_open_replica env strategy id size info ordinal) (fun r => stops r).
Proof.
  unfold try_open_replica. destruct (wi_address info); [|by apply ensures_ret].
  eapply ensures_bind; [apply attempt_stops|]. intros [u|e] He; [|apply ensures_ret; congruence].
  eapply ensures_bind; [apply open_stops|]. intros [g|e] Hg; apply ensures_ret; congruence.
Qed.

Lemma open_replicas_stops pool f id size initial reps err :
  (forall e, err = Some e -> e <> write_out_of_fuel) ->
  ensures (open_replicas env strategy f id size initial pool reps err) (fun out =>
    fw_current_block_writer (fst out) = fw_current_block_writer f /\
    forall e, snd (snd out) = Some e -> e <> write_out_of_fuel).
Proof.
  revert f reps err. induction pool as [|info pool IH]; intros f reps err Herr; cbn [open_replicas];
    [by apply ensures_ret|]. destruct (_ <=? _); [by apply ensures_ret|].
  eapply ensures_bind; [apply try_open_stops|]. intros [rep|e] Hr; [by apply IH|].
  eapply (ensures_bind _ _ (fun f' => fw_current_block_writer f' = fw_current_block_writer f)).
  { destruct (wi_address info); [apply blacklist_block|by apply ensures_ret]. }
  intros f' <-. apply IH. intros e' [= <-] ->. done.
Qed.

Lemma select_several_stops t sn id n tr : stops (snd (select_several t sn id n tr)).
Proof.
  unfold select_several. destruct (n =? 0)%nat; [done|]. destruct (sn_workers sn); [done|].
  cbn zeta. destruct (consistent_hash_select_n_from_ring _ _ _ _ _ true); [|done].
  by destruct (consistent_hash_select_n_from_ring _ _ _ _ _ false).
Qed.

Lemma replica_pool_stops f t id plan all :
  stops (snd (replica_pool cfg strategy f t id plan all)) /\
  fw_current_block_writer (fst (replica_pool cfg strategy f t id plan all)) = fw_current_block_writer f.
Proof.
  destruct (replica_pool cfg strategy f t id plan all) as [f' r] eqn:H.
  pose proof (replica_pool_router _ _ _ _ _ _ _ _ _ H) as [v ->]. split; [|done]. revert H.
  unfold replica_pool, view_select_workers, view_lift. cbn. destruct all.
  - unfold filter_not_failed. cbn. by intros [= _ <-].
  - pose proof (select_several_stops t (view_snapshot (fw_router f)) id
      (Z.to_nat (rp_max_retry_node plan)) (vw_tracker (fw_router f))) as Hs.
    destruct (select_several _ _ _ _ _) as [tr [pool|e]]; cbn in *.
    + unfold filter_not_failed. cbn. by intros [= _ <-].
    + intros [= _ <-]. congruence.
Qed.

Lemma open_replica_writers_stops f id size plan all :
  ensures (open_replica_writers env cfg strategy f id size plan all) (fun out =>
    stops (snd out) /\ fw_current_block_writer (fst out) = fw_current_block_writer f /\
    forall a, snd out = Ok a -> aw_block_size a = size /\ aw_bytes_written a = 0).
Proof.
  unfold open_replica_writers. apply ensures_seq. intros t.
  destruct (replica_pool_stops f t id plan all) as [Hs Hb].
  destruct (replica_pool cfg strategy f t id plan all) as [f1 [pool|e]]; cbn [fst snd] in *;
    [|apply ensures_ret; cbn; split; [congruence|done]].
  destruct pool as [|info pool]; [by apply ensures_ret|].
  destruct (degrade_replicas _ _ _ _) as [initial min_needed].
  eapply ensures_bind; [by apply open_replicas_stops|]. intros [f2 [reps err]] [Hb2 Herr].
  cbn [fst snd] in *. destruct (_ || _).
  - apply ensures_seq. intros ?. apply ensures_ret. cbn. split; [|split; [congruence|done]].
    destruct (_ =? 0); [|done]. destruct err as [e|]; [|done]. cbn. intros [= ->]. by apply (Herr _ eq_refl).
  - apply ensures_ret. cbn. split; [done|]. split; [congruence|]. by intros a [= <-].
Qed.

Lemma close_current_stops f commit :
  ensures (close_current_block env strategy f commit) (fun out => stops (snd out)).
Proof.
  unfold close_current_block. destruct (fw_current_block_writer f) as [a|]; [|by apply ensures_ret].
  cbn zeta. destruct (0 <? _); [|apply ensures_seq; intros ?; by apply ensures_ret].
  eapply (ensures_bind _ _ (fun out => stops (snd out))).
  { destruct (aw_pending_chunk a); [by apply ensures_ret|].
    intros w w' out H. by apply active_write_stops in H as [? _]. }
  intros [a1 [[]|e1]] Hr1; [|apply ensures_seq; intros ?; apply ensures_ret; cbn in *; congruence].
  eapply (ensures_bind _ _ (fun out => stops (snd out))).
  { destruct (should_flush_cache_block_on_close commit); [|by apply ensures_ret].
    intros w w' out H. by apply flush_replicas_stops in H as [? _]. }
  intros [a2 [[]|e2]] Hr2; [|apply ensures_seq; intros ?; apply ensures_ret; cbn in *; congruence].
  unfold finish_block. eapply ensures_bind; [by apply close_each_stops|].
  intros [u|e] Hr3; [|apply ensures_ret; cbn; congruence].
  eapply (ensures_bind _ _ (fun r => stops r)).
  { destruct (file_location a2 _); [destruct (_ && _)|]; [apply attempt_stops|by apply ensures_ret..]. }
  intros [u'|e] Hr4; apply ensures_ret; cbn; congruence.
Qed.

Lemma open_next_stops f :
  ensures (open_next_block env cfg file_info strategy f bs) (fun out =>
    stops (snd out) /\
    match snd out with
    | Ok _ => exists a, fw_current_block_writer (fst out) = Some a /\ aw_block_size a = bs /\
                aw_bytes_written a = 0
    | Err _ => fw_current_block_writer (fst out) = None
    end).
Proof.
  unfold open_next_block.
  eapply (ensures_bind _ _ (fun out => stops (snd out) /\ fw_current_block_writer (fst out) = None)).
  { destruct (fw_current_block_writer f) eqn:Ha; [|by apply ensures_ret].
    intros w w' [f' r] H. split; [by apply close_current_stops in H|].
    by apply close_current_none in H as [? _]. }
  intros [f1 [l1|e1]] [Hr1 Hn1]; cbn [fst snd] in *; [|apply ensures_ret; cbn; split; [congruence|done]].
  destruct (replica_write_plan _ _ _ _ _) as [plan|e] eqn:Hplan.
  2:{ apply ensures_ret. cbn. split; [|done]. intros [= ->]. revert Hplan. unfold replica_write_plan.
      by destruct (_ && _). }
  eapply ensures_bind; [apply open_replica_writers_stops|]. intros [f2 r2] (Hr2 & Hn2 & Ha2).
  cbn [fst snd] in *.
  eapply (ensures_bind _ _ (fun out => stops (snd out) /\ fw_current_block_writer (fst out) = None /\
    forall a, snd out = Ok a -> aw_block_size a = bs /\ aw_bytes_written a = 0)).
  { destruct r2; [apply ensures_ret; cbn; split; [done|]; split; [congruence|done]|].
    intros w w' [f3 r3] H. apply open_replica_writers_stops in H as (H1 & H2 & H3). cbn in *.
    split; [done|]. split; [congruence|done]. }
  intros [f3 [a|e]] (Hr3 & Hn3 & Ha3); apply ensures_ret; cbn in *.
  - split; [done|]. exists a. split; [done|]. by apply Ha3.
  - split; [congruence|done].
Qed.

(** Each turn of the cache loop places at least a byte. *)
Lemma cache_loop_stops fuel f data offset :
  sane f -> zlen data - offset <= Z.of_nat fuel ->
  ensures (write_to_cache_loop env cfg file_info strategy fuel f data offset)
    (fun out => stops (snd out) /\ sane (fst out)).
Proof.
  revert f offset. induction fuel as [|fuel IH]; intros f offset Hs Hf; cbn [write_to_cache_loop];
    (destruct (Z.ltb_spec offset (zlen data)); [try lia|by apply ensures_ret]).
  eapply (ensures_bind _ _ (fun out => stops (snd out) /\
    match snd out with
    | Ok _ => exists a, fw_current_block_writer (fst out) = Some a /\ 0 < active_remaining a
    | Err _ => sane (fst out)
    end)).
  { destruct (needs_fresh_block _) eqn:Hfresh.
    - intros w w' [f1 [u|e]] [Hr Hm]%open_next_stops; (split; [done|]).
      + destruct Hm as (a & Ha & Hsz & Hw). exists a. split; [done|]. unfold active_remaining. lia.
      + unfold sane. cbn in *. by rewrite Hm.
    - apply ensures_ret. split; [done|]. unfold sane in Hs. cbn in *.
      destruct (fw_current_block_writer f) as [a|]; [|done]. exists a. split; [done|].
      cbn in Hfresh. apply Z.eqb_neq in Hfresh. unfold active_remaining in *. lia. }
  intros [f1 [u|e]] [Hr1 Hm1]; cbn [fst snd] in *;
    [|apply ensures_ret; cbn; split; [congruence|done]].
  destruct Hm1 as (a & -> & Hrem). cbn zeta.
  eapply ensures_bind; [apply emit_stops|]. intros [a2 r2] [Hr2 [Hsz Hw]]; cbn [fst snd] in *. cbn in Hsz, Hw.
  assert (Hs2 : sane (with_block f1 (fw_block_opened f1) (Some a2)))
    by (unfold sane; cbn; unfold active_remaining in *; lia).
  destruct r2 as [[]|e]; [|apply ensures_ret; cbn; split; [congruence|done]].
  apply IH; [done|lia].
Qed.

Lemma tear_down_sane f b : ensures (tear_down_cache_block env f b) (fun f' => fw_current_block_writer f' = None).
Proof.
  unfold tear_down_cache_block. destruct (fw_current_block_writer f) as [a|] eqn:Ha; [|by apply ensures_ret].
  cbn zeta. eapply (ensures_bind _ _ (fun f' => fw_current_block_writer f' = None)).
  { destruct b; [|by apply ensures_ret].
    assert (Hl : forall rs f0, fw_current_block_writer f0 = None ->
      ensures (blacklist_replicas env f0 rs) (fun f' => fw_current_block_writer f' = None)).
    { induction rs as [|r rs IH]; intros f0 H0; cbn [blacklist_replicas]; [by apply ensures_ret|].
      eapply ensures_bind; [apply blacklist_block|]. intros f1 H1. apply IH. congruence. }
    by apply Hl. }
  intros f1 H1. apply ensures_seq. intros ?. by apply ensures_ret.
Qed.

Lemma open_ufs_stops f :
  ensures (open_ufs_stream env strategy f) (fun out => stops (snd out) /\
    fw_current_block_writer (fst out) = fw_current_block_writer f /\
    (snd out = Ok tt -> is_Some (fw_ufs_stream (fst out)))).
Proof.
  intros w w' out. unfold open_ufs_stream, view_pick_any_worker, view_lift, pick_any.
  destruct (sn_workers _) as [|x l] eqn:Hl; [by intros [= _ <-]|]. cbn zeta.
  destruct (_ !! _) as [info|]; [|by intros [= _ <-]]. cbn [fst snd].
  destruct (wi_address info) as [addr|]; [|by intros [= _ <-]].
  match goal with |- ?m w = _ -> ?R => cut (ensures m (fun out => stops (snd out) /\
    fw_current_block_writer (fst out) = fw_current_block_writer f /\
    (snd out = Ok tt -> is_Some (fw_ufs_stream (fst out))))) end; [by intros H; apply H|].
  eapply ensures_bind; [apply attempt_stops|]. intros [u|e] He.
  2:{ eapply ensures_bind; [apply blacklist_block|]. intros f1 H1. apply ensures_ret. cbn.
      split; [congruence|done]. }
  eapply ensures_bind; [apply open_stops|]. intros [g|e] Hg.
  - apply ensures_ret. cbn. split; [done|]. by split.
  - eapply ensures_bind; [apply blacklist_block|]. intros f1 H1. apply ensures_ret. cbn.
    split; [congruence|done].
Qed.

Lemma write_ufs_stops f data :
  ensures (write_to_ufs_stream env cfg strategy f data) (fun out => stops (snd out) /\
    fw_current_block_writer (fst out) = fw_current_block_writer f).
Proof.
  unfold write_to_ufs_stream.
  eapply (ensures_bind _ _ (fun out => stops (snd out) /\
    fw_current_block_writer (fst out) = fw_current_block_writer f /\
    (snd out = Ok tt -> is_Some (fw_ufs_stream (fst out))))).
  { destruct (fw_ufs_stream f) eqn:Hg; [|apply open_ufs_stops]. apply ensures_ret. cbn. by rewrite Hg. }
  intros [f1 [[]|e]] (Hr1 & Hb1 & Hs1); cbn [fst snd] in *;
    [|apply ensures_ret; cbn; split; [congruence|done]].
  destruct (Hs1 eq_refl) as [g ->].
  eapply ensures_bind; [apply write_all_stops; unfold zlen; lia|]. intros [g2 [[]|e]] Hr2; cbn [fst snd] in *.
  - apply ensures_ret. by split.
  - unfold handle_ufs_write_exception. apply ensures_seq. intros ?.
    eapply (ensures_bind _ _ (fun f' => fw_current_block_writer f' = fw_current_block_writer f1)).
    { destruct (fw_ufs_worker_addr _); [|by apply ensures_ret].
      intros w w' f' H. by apply blacklist_block in H. }
    intros f2 H2. apply ensures_ret. cbn. split; [congruence|congruence].
Qed.

Lemma write_stops f data :
  sane f -> ensures (fw_write env cfg file_info strategy shared f data)
    (fun out => stops (snd out) /\ sane (fst out)).
Proof.
  intros Hs. unfold fw_write. destruct (_ || _); [by apply ensures_ret|].
  destruct (_ =? 0); [by apply ensures_ret|].
  destruct (ensure_router_init shared f) as [f0 r0] eqn:Hi.
  assert (Hi' : sane f0 /\ stops r0).
  { unfold ensure_router_init in Hi. destruct (negb _); [by injection Hi as <- <-|].
    destruct (wr_workers shared); by injection Hi as <- <-. }
  destruct Hi' as [Hs0 Hr0]. destruct r0 as [u0|e0]; [|by apply ensures_ret].
  eapply (ensures_bind _ _ (fun out => stops (snd out) /\ sane (fst out))).
  { destruct (fw_should_cache f0); [|by apply ensures_ret].
    eapply ensures_bind; [apply cache_loop_stops; [done|unfold zlen; lia]|].
    intros [f1 [u1|e1]] [Hr1 Hs1]; [by apply ensures_ret|]. cbn [fst snd] in *.
    unfold handle_cache_write_exception. eapply ensures_bind; [apply tear_down_sane|]. intros f2 H2.
    destruct (cache_write_failure_is_fatal _ _ _ _); apply ensures_ret; unfold sane; cbn; rewrite H2;
      split; [congruence|done|done|done]. }
  intros [f1 [u1|e1]] [Hr1 Hs1]; [|by apply ensures_ret]. cbn [fst snd] in *.
  eapply (ensures_bind _ _ (fun out => stops (snd out) /\ sane (fst out))).
  { destruct (fw_ufs_write_enabled f1); [|by apply ensures_ret].
    intros w w' out H. apply write_ufs_stops in H as [H1 H2]. split; [done|]. unfold sane. by rewrite H2. }
  intros [f2 [u2|e2]] [Hr2 Hs2]; by apply ensures_ret.
Qed.

Lemma fw_flush_stops f :
  sane f -> ensures (fw_flush env cfg strategy f) (fun out => stops (snd out) /\ sane (fst out)).
Proof.
  intros Hs. unfold fw_flush. destruct (_ || _); [by apply ensures_ret|].
  eapply (ensures_bind _ _ (fun r => stops r)).
  { destruct (fw_ufs_stream f); [apply flush_stops|by apply ensures_ret]. }
  intros [u|e] Hr; [|by apply ensures_ret; cbn; split; [congruence|]].
  destruct (_ && _); [|by apply ensures_ret]. unfold flush_cache_block.
  destruct (fw_current_block_writer f) as [a|] eqn:Ha; [|by apply ensures_ret].
  destruct (0 <? _); [|by apply ensures_ret]. cbn zeta.
  assert (Hfill : forall a', same_fill a a' -> sane (with_block f (fw_block_opened f) (Some a'))).
  { intros a' [H1 H2]. unfold sane in *. cbn. rewrite Ha in Hs. lia. }
  eapply (ensures_bind _ _ (fun out => stops (snd out) /\ same_fill a (fst out))).
  { destruct (aw_pending_chunk a); [by apply ensures_ret|].
    intros w w' out H. by apply active_write_stops in H. }
  intros [a1 [u1|e1]] [Hr1 Hf1]; cbn [fst snd] in *;
    [|apply ensures_ret; cbn; split; [congruence|by apply Hfill]].
  eapply ensures_bind; [apply flush_replicas_stops|]. intros [a2 r2] [Hr2 [H1 H2]]. apply ensures_ret. cbn in *.
  split; [done|]. apply Hfill. destruct Hf1. by split; congruence.
Qed.

Lemma cleanup_sane f : ensures (do_cancel_cleanup env f) sane.
Proof. do 3 (apply ensures_seq; intros ?). by apply ensures_ret. Qed.

Lemma fw_cancel_stops f :
  sane f -> ensures (fw_cancel env f) (fun out => stops (snd out) /\ sane (fst out)).
Proof.
  intros Hs. unfold fw_cancel. destruct (fw_closed f); [by apply ensures_ret|].
  destruct (fw_cancelled f); [by apply ensures_ret|].
  eapply ensures_bind; [apply cleanup_sane|]. intros f' Hf. apply ensures_seq. intros ?. by apply ensures_ret.
Qed.

Lemma cleanup_then_stops f e :
  e <> write_out_of_fuel -> ensures (let! f' := do_cancel_cleanup env f in io_ret (f', @Err Error unit e))
    (fun out => stops (snd out) /\ sane (fst out)).
Proof.
  intros He. eapply ensures_bind; [apply cleanup_sane|]. intros f' Hf. apply ensures_ret. cbn.
  split; [congruence|done].
Qed.

Lemma close_ufs_stops f :
  sane f -> ensures (close_ufs env f) (fun out => stops (snd out) /\ sane (fst out)).
Proof.
  intros Hs. unfold close_ufs. destruct (fw_ufs_stream f) as [g|]; [|by apply ensures_ret].
  eapply ensures_bind; [apply flush_stops|]. intros [u|e] Hr.
  - eapply ensures_bind; [apply attempt_stops|]. intros [u2|e] Hr2; [by apply ensures_ret|].
    apply cleanup_then_stops. congruence.
  - apply ensures_seq. intros ?. apply cleanup_then_stops. congruence.
Qed.

Lemma recover_stops f last :
  ensures (complete_or_recover env cfg file_info strategy operation_id f last) (fun r => stops r).
Proof.
  unfold complete_or_recover. eapply ensures_bind; [apply attempt_stops|]. intros [u|e] He; [by apply ensures_ret|].
  assert (He' : stops (@Err Error unit e)) by congruence.
  unfold handle_complete_file_error. destruct (_ || _); [by apply ensures_ret|].
  apply ensures_seq. intros [u|e2]; [|by apply ensures_ret].
  apply ensures_seq. intros [u2|e2]; [|by apply ensures_ret].
  apply ensures_seq. intros ?. by apply ensures_ret.
Qed.

Lemma fw_close_stops f :
  sane f -> ensures (fw_close env cfg file_info strategy operation_id f)
    (fun out => stops (snd out) /\ sane (fst out)).
Proof.
  intros Hs. unfold fw_close. destruct (fw_closed f); [by apply ensures_ret|].
  cbn [fw_cancelled with_flags]. destruct (fw_cancelled f); [by apply ensures_ret|].
  eapply ensures_bind; [by apply close_ufs_stops|]. intros [f1 [u1|e1]] [Hr1 Hs1];
    [|by apply ensures_ret]. cbn [fst snd] in *.
  eapply (ensures_bind _ _ (fun out => stops (snd out) /\ sane (fst out))).
  { intros w w' [f2 r2] H. split; [by apply close_current_stops in H|].
    apply close_current_none in H as [H _]. unfold sane. cbn. by rewrite H. }
  intros [f2 [last|e2]] [Hr2 Hs2]; cbn [fst snd] in *; [|apply cleanup_then_stops; congruence].
  eapply ensures_bind; [apply recover_stops|]. intros [u|e] Hr3.
  - apply ensures_seq. intros ?. by apply ensures_ret.
  - by apply ensures_ret.
Qed.

(** ** Any sequence of calls *)

Lemma run_call_stops f c :
  sane f -> ensures (run_call env cfg file_info strategy shared operation_id f c)
    (fun out => stops (snd out) /\ sane (fst out)).
Proof.
  intros Hs. destruct c; cbn [run_call];
    [by apply write_stops|by apply fw_flush_stops|by apply fw_cancel_stops|by apply fw_close_stops].
Qed.

Lemma run_calls_sane f l :
  sane f -> ensures (run_calls env cfg file_info strategy shared operation_id f l) sane.
Proof.
  revert f. induction l as [|c l IH]; intros f Hs; cbn [run_calls]; [by apply ensures_ret|].
  eapply ensures_bind; [by apply run_call_stops|]. intros [f' r] [_ Hs']. by apply IH.
Qed.

Lemma create_stops :
  ensures (fw_create env strategy shared) (fun r => stops r /\ forall f, r = Ok f -> sane f).
Proof.
  unfold fw_create. eapply ensures_bind; [apply attempt_stops|]. intros [u|e] He;
    [|apply ensures_ret; split; [congruence|done]].
  apply ensures_seq. intros ?. destruct (ws_ufs_stream strategy).
  2:{ apply ensures_ret. split; [done|]. by intros f [= <-]. }
  destruct (ensure_router_init shared (initial_writer strategy)) as [f0 r0] eqn:Hi.
  assert (Hi' : fw_current_block_writer f0 = None /\ stops r0).
  { unfold ensure_router_init in Hi. cbn [negb fw_router_needs_init initial_writer] in Hi.
    destruct (wr_workers shared); by injection Hi as <- <-. }
  destruct Hi' as [Hn Hr0]. destruct r0 as [u0|e0]; [|apply ensures_ret; split; [congruence|done]].
  eapply ensures_bind; [apply open_ufs_stops|]. intros [f1 [[]|e]] (Hr1 & Hb1 & _); cbn [fst snd] in *;
    apply ensures_ret; (split; [congruence|]); [|done]. intros f [= <-]. unfold sane. by rewrite Hb1, Hn.
Qed.
End Termination.
