(* ===== verification/FileWriterTheorems.v ===== *)
(** * File writer: theorems

    What a caller can rely on: a session whose calls succeed leaves the whole file
    where its write type says, [close] and [cancel] leave no stream behind on any
    path, and no call loops forever.  An example shows the path that does leave
    streams and blocks behind. *)

From Stdlib Require Import SpecFloat.
From S2P Require Import Prelude Text Errors Proto HashRing Router Crc ReplicaPlan BlockWriter.
From S2P Require Import BlockWriterFacts FileWriter FileWriterFacts FileWriterProps FileWriterInv.
From S2P Require Import StreamOwnership WriterTermination.

(** ** Sessions *)

Section Session.
Context (env : WriteEnv) (cfg : WriterConfig) (file_info : FileInfo) (strategy : WriteStrategy).
Context (shared : WorkerRouter) (operation_id : Z).

(** Calls until the first error, as with [?]. *)
Fixpoint run_until_error (f : GoosefsFileWriter) (l : list FileCall) : IO (GoosefsFileWriter * Answer) :=
  match l with
  | [] => io_ret (f, Ok tt)
  | c :: l =>
      let! (f, r) := run_call env cfg file_info strategy shared operation_id f c in
      match r with
      | Ok _ => run_until_error f l
      | Err e => io_ret (f, Err e)
      end
  end.
End Session.

Definition is_data_call (c : FileCall) : bool :=
  match c with CallWrite _ | CallFlush => true | _ => false end.

(** The bytes written by a sequence of calls. *)
Definition written (l : list FileCall) : bytes :=
  mjoin (map (fun c => match c with CallWrite data => data | _ => [] end) l).

Lemma session_inv env cfg file_info strategy shared operation_id l f data w w' f' :
  0 < wc_chunk_size cfg -> 0 < block_size_of cfg file_info -> forallb is_data_call l = true ->
  writer_inv cfg file_info strategy w f data ->
  run_until_error env cfg file_info strategy shared operation_id f l w = (w', (f', Ok tt)) ->
  writer_inv cfg file_info strategy w' f' (data ++ written l).
Proof.
  intros Hcs Hbs. revert f data w. induction l as [|c l IH]; intros f data w Hl Hinv; cbn [run_until_error].
  { intros [= <- <-]. by rewrite app_nil_r. }
  cbn in Hl. apply andb_true_iff in Hl as [Hc Hl]. io_step w1 out1 H1. destruct out1 as [f1 [[]|e]]; [|done].
  change (written (c :: l)) with
    ((match c with CallWrite d => d | _ => [] end) ++ written l). rewrite app_assoc. apply IH; [done|].
  destruct c; cbn [run_call] in H1; try done.
  - by apply (write_inv env cfg file_info strategy shared Hcs Hbs f data _ w).
  - rewrite app_nil_r. by apply (flush_inv env cfg file_info strategy Hcs Hbs f data w).
Qed.

Lemma resolved_strategy_writes ty file_info :
  let s := resolve_write_strategy ty file_info in (ws_cache_stream s || ws_ufs_stream s) = true.
Proof. unfold resolve_write_strategy. destruct ty as [[|[[|[]|]|[|[]|]|]|]|]; done. Qed.

(** C2. A session that succeeds stores the file.  Create a file, write and flush in any
    pattern, close; every call returned [Ok], whatever failures and retries happened
    behind it.  Then the master was told the length and checksum of exactly the bytes
    written, in order; a write-through file has one closed UFS stream that received
    exactly those bytes; a cache-only file has every block, cut at the block size and
    under its own id, on at least the required number of closed worker streams, in
    whole chunks; an asynchronously persisted file has one or the other; and a file
    still cached at the end has all of its blocks. *)
Theorem write_session_stores_file env cfg file_info shared operation_id ty l w0 f0 w1 f1 w2 f2 :
  let strategy := resolve_write_strategy ty file_info in
  0 < wc_chunk_size cfg -> 0 < block_size_of cfg file_info -> forallb is_data_call l = true ->
  fw_create env strategy shared (mkWorld [] 0) = (w0, Ok f0) ->
  run_until_error env cfg file_info strategy shared operation_id f0 l w0 = (w1, (f1, Ok tt)) ->
  fw_close env cfg file_info strategy operation_id f1 w1 = (w2, (f2, Ok tt)) ->
  completed cfg file_info w2 (written l) /\
  (ws_ufs_stream strategy = true -> persisted w2 (written l)) /\
  (ws_ufs_stream strategy = false -> ws_need_async_persist strategy = false ->
     cached cfg file_info strategy w2 (written l)) /\
  (cached cfg file_info strategy w2 (written l) \/ persisted w2 (written l)) /\
  (fw_should_cache f1 = true -> cached cfg file_info strategy w2 (written l)).
Proof.
  intros strategy Hcs Hbs Hl Hcreate Hrun Hclose.
  pose proof (fw_create_inv env cfg file_info strategy shared _ _ (resolved_strategy_writes ty file_info) Hcreate)
    as Hinv.
  apply (session_inv _ _ _ _ _ _ _ _ _ _ _ _ Hcs Hbs Hl Hinv) in Hrun as Hinv1. cbn [app] in Hinv1.
  destruct (close_inv env cfg file_info strategy operation_id Hcs Hbs f1 _ _ _ _ Hinv1 Hclose)
    as (Hcache & Hufs & Hcomp & _).
  destruct Hinv1 as [_ _ _ _ _ _ _ _ _ Hno Hmust].
  split; [done|]. destruct (fw_ufs_write_enabled f1) eqn:Hen.
  - split; [auto|]. split; [|auto]. intros H1 H2. by specialize (Hmust H1 H2).
  - destruct (Hno eq_refl) as (_ & Hsc & Hs). rewrite Hs.
    split; [done|]. split; [auto|]. split; [left; auto|auto].
Qed.

(** The one-shot [write_file] reports the number of bytes it was given, and only when
    the file is complete on the master and stored in the cache or in the UFS. *)
Theorem write_file_stores_file env cfg file_info shared operation_id ty data w n :
  let strategy := resolve_write_strategy ty file_info in
  0 < wc_chunk_size cfg -> 0 < block_size_of cfg file_info ->
  write_file env cfg file_info strategy shared operation_id data (mkWorld [] 0) = (w, Ok n) ->
  n = zlen data /\ completed cfg file_info w data /\
  (cached cfg file_info strategy w data \/ persisted w data).
Proof.
  intros strategy Hcs Hbs. unfold write_file. io_step w0 r0 Hcreate. destruct r0 as [f0|e]; [|done].
  pose proof (fw_create_inv env cfg file_info strategy shared _ _ (resolved_strategy_writes ty file_info) Hcreate)
    as Hinv.
  io_step w1 out1 Hwrite. destruct out1 as [f1 [[]|e]]; [|by io_step wa fa Ha].
  apply (write_inv env cfg file_info strategy shared Hcs Hbs f0 [] data w0) in Hwrite as Hinv1; [|done].
  io_step w2 out2 Hclose. destruct out2 as [f2 r2]. io_step w3 f3 Hdrop.
  destruct r2 as [[]|e]; [|done]. intros [= <- <-].
  destruct (close_inv env cfg file_info strategy operation_id Hcs Hbs f1 _ _ _ _ Hinv1 Hclose)
    as (Hcache & Hufs & Hcomp & Hclosed & Htot).
  unfold perform_drop_cleanup in Hdrop. rewrite Hclosed in Hdrop. injection Hdrop as <- <-.
  split; [done|]. split; [done|]. destruct Hinv1 as [_ _ _ _ _ _ _ _ _ Hno _].
  destruct (fw_ufs_write_enabled f1); [right; auto|left]. by apply Hcache, Hno.
Qed.

(** Two workers, blocks of five bytes, chunks of two, everything answered [Ok]. *)
Definition example_cfg : WriterConfig :=
  mkWriterConfig 5 2 None 1 2 1 2 0 (S754_zero false) (S754_zero false) false true 0 ChecksumCrc32c.
Definition example_file : FileInfo := default_FileInfo.
Definition example_env : WriteEnv := mkWriteEnv (fun _ _ => Ok tt) (fun _ => 10) (fun _ _ => 0%nat).
Definition example_calls : list FileCall := [CallWrite [1; 2; 3]; CallFlush; CallWrite [4; 5; 6; 7]].
Definition example_strategy : WriteStrategy := resolve_write_strategy (Some 3) example_file.
Definition example_created := fw_create example_env example_strategy example_router (mkWorld [] 0).
Definition example_writer : GoosefsFileWriter :=
  match snd example_created with Ok f => f | Err _ => initial_writer example_strategy end.
Definition example_run :=
  run_until_error example_env example_cfg example_file example_strategy example_router 9
    example_writer example_calls (fst example_created).
Definition example_closed :=
  fw_close example_env example_cfg example_file example_strategy 9 (fst (snd example_run)) (fst example_run).

Lemma write_session_stores_file_witness :
  cached example_cfg example_file example_strategy (fst example_closed) [1; 2; 3; 4; 5; 6; 7] /\
  persisted (fst example_closed) [1; 2; 3; 4; 5; 6; 7].
Proof.
  destruct (write_session_stores_file example_env example_cfg example_file example_router 9 (Some 3)
    example_calls (fst example_created) example_writer (fst example_run) (fst (snd example_run))
    (fst example_closed) (fst (snd example_closed))) as (_ & Hp & _ & _ & Hc).
  - reflexivity.
  - reflexivity.
  - reflexivity.
  - vm_compute. reflexivity.
  - vm_compute. reflexivity.
  - vm_compute. reflexivity.
  - split; [apply Hc; vm_compute; reflexivity|apply Hp; reflexivity].
Defined.

Lemma write_file_stores_file_witness :
  snd (write_file example_env example_cfg example_file example_strategy example_router 9 [1; 2; 3]
         (mkWorld [] 0)) = Ok 3 /\
  completed example_cfg example_file
    (fst (write_file example_env example_cfg example_file example_strategy example_router 9 [1; 2; 3]
            (mkWorld [] 0))) [1; 2; 3].
Proof.
  split; [vm_compute; reflexivity|].
  destruct (write_file_stores_file example_env example_cfg example_file example_router 9 (Some 3) [1; 2; 3]
    (fst (write_file example_env example_cfg example_file example_strategy example_router 9 [1; 2; 3]
            (mkWorld [] 0))) 3) as (_ & H & _).
  - reflexivity.
  - reflexivity.
  - vm_compute. reflexivity.
  - exact H.
Defined.

(** ** Streams *)

Lemma streams_accounted env cfg file_info strategy shared operation_id l w0 f0 w f :
  fw_create env strategy shared (mkWorld [] 0) = (w0, Ok f0) ->
  run_calls env cfg file_info strategy shared operation_id f0 l w0 = (w, f) ->
  handed [] (held f) (mkWorld [] 0) w.
Proof.
  intros H1%owns_create H2%owns_run_calls. by eapply handed_trans.
Qed.

Lemma nothing_open_at_start h : ~ is_open h (mkWorld [] 0).
Proof. intros (id & ty & addr & space & options & H & _). by apply elem_of_nil in H. Qed.

Lemma cancel_removes env f w w' f' r :
  fw_closed f = false -> fw_cancelled f = false -> fw_committed_block_ids f <> [] ->
  fw_cancel env f w = (w', (f', r)) ->
  exists a, (EvRemoveBlocks (fw_committed_block_ids f), a) ∈ w_trace w'.
Proof.
  intros Hcl Hca Hids. unfold fw_cancel. rewrite Hcl, Hca. io_step w1 f1 H1. io_step w2 u2 H2. intros [= <- _ _].
  apply perform_quiet in H2; [|done]. revert H1. unfold do_cancel_cleanup.
  io_step wa ua Ha. io_step wb ub Hb. io_step wc uc Hc. intros [= <- _].
  cbn [fw_committed_block_ids with_block with_ufs with_flags] in Hc. revert Hc. unfold remove_committed.
  destruct (fw_committed_block_ids f) as [|i ids]; [done|].
  io_step wd rd Hd. assert (Hin : (EvRemoveBlocks (i :: ids), rd) ∈ w_trace wd).
  { unfold attempt in Hd. injection Hd as <- <-. cbn. set_solver. }
  intros Hc. exists rd. apply (ex_mono _ _ _ H2).
  destruct rd; [by injection Hc as <- _|]. apply perform_quiet in Hc; [|done]. by apply (ex_mono _ _ _ Hc).
Qed.

(** C5. No stream outlives the writer.  Create a file and make any calls, with any
    outcomes, that leave the writer neither closed nor cancelled; then [close] it,
    [cancel] it or drop it, with or without a runtime.  Every stream that was ever
    opened on any worker has been closed, cancelled or dropped, even when the final
    call itself fails at any step.  Cancelling also asks the master to remove every
    block committed so far. *)
Theorem writer_leaves_no_stream env cfg file_info strategy shared operation_id l w0 f0 w f :
  fw_create env strategy shared (mkWorld [] 0) = (w0, Ok f0) ->
  run_calls env cfg file_info strategy shared operation_id f0 l w0 = (w, f) ->
  fw_closed f = false -> fw_cancelled f = false ->
  (forall w' out, fw_close env cfg file_info strategy operation_id f w = (w', out) ->
     forall h, is_open h w' -> ended h w') /\
  (forall w' out, fw_cancel env f w = (w', out) ->
     (forall h, is_open h w' -> ended h w') /\
     (fw_committed_block_ids f <> [] ->
        exists r, (EvRemoveBlocks (fw_committed_block_ids f), r) ∈ w_trace w')) /\
  (forall rt w' f', perform_drop_cleanup env rt f w = (w', f') -> forall h, is_open h w' -> ended h w').
Proof.
  intros Hcreate Hrun Hcl Hca. pose proof (streams_accounted _ _ _ _ _ _ _ _ _ _ _ Hcreate Hrun) as Hh.
  assert (Hdone : forall w', handed (held f) [] w w' -> forall h, is_open h w' -> ended h w').
  { intros w' Hw' h Ho. destruct (hd_new _ _ _ _ (handed_trans _ _ _ _ _ _ Hh Hw') h Ho) as [H|[H|H]];
      [by apply nothing_open_at_start in H|by apply elem_of_nil in H|done]. }
  split; [|split].
  - intros w' out H. apply Hdone. by apply owns_fw_close in H.
  - intros w' [f' r] H. split; [apply Hdone; by apply owns_fw_cancel in H|].
    intros Hids. by apply (cancel_removes env f w w' f' r).
  - intros rt w' f' H. apply Hdone. by apply owns_drop in H.
Qed.

(** A worker that refuses the second block after accepting the first. *)
Definition refusing_env : WriteEnv :=
  mkWriteEnv (fun _ e => match e with
                         | EvOpen _ _ id _ _ => if id =? 1 then Err (ResourceExhausted "full") else Ok tt
                         | _ => Ok tt
                         end)
    (fun _ => 10) (fun _ _ => 0%nat).
Definition refused_run (l : list FileCall) :=
  run_calls refusing_env example_cfg example_file example_strategy example_router 9 example_writer l
    (fst example_created).

Lemma writer_leaves_no_stream_witness :
  let '(w, f) := refused_run [CallWrite [1; 2; 3; 4]; CallFlush] in
  forall w' out, fw_close refusing_env example_cfg example_file example_strategy 9 f w = (w', out) ->
    forall h, is_open h w' -> ended h w'.
Proof.
  destruct (refused_run [CallWrite [1; 2; 3; 4]; CallFlush]) as [w f] eqn:H.
  destruct (writer_leaves_no_stream refusing_env example_cfg example_file example_strategy example_router 9
    [CallWrite [1; 2; 3; 4]; CallFlush] (fst example_created) example_writer w f) as (Hclose & _).
  - vm_compute. reflexivity.
  - exact H.
  - revert H. vm_compute. by intros [= _ <-].
  - revert H. vm_compute. by intros [= _ <-].
  - exact Hclose.
Defined.

Lemma ended_spec h w : ended h w <-> existsb (fun p => ends h (fst p)) (w_trace w) = true.
Proof.
  rewrite existsb_exists. split.
  - intros (e & r & Hin & He). exists (e, r). split; [by apply list_elem_of_In|done].
  - intros ([e r] & Hin & He). exists e, r. split; [by apply list_elem_of_In|done].
Qed.

(** A worker whose credentials expire at the flush of the second block. *)
Definition expiring_env : WriteEnv :=
  mkWriteEnv (fun _ e => match e with
                         | EvAck h => if (h =? 2)%nat then Err (PermissionDenied "expired") else Ok tt
                         | _ => Ok tt
                         end)
    (fun _ => 10) (fun _ _ => 0%nat).

(** A write that fails at the end of its second block, then [cancel], [close], drop. *)
Definition abandoned_run : World * GoosefsFileWriter * list Answer :=
  let '(w, (f, r)) := fw_write expiring_env example_cfg example_file example_strategy example_router
                        example_writer (replicate 11 7) (fst example_created) in
  let '(w, (f, r1)) := fw_cancel expiring_env f w in
  let '(w, (f, r2)) := fw_close expiring_env example_cfg example_file example_strategy 9 f w in
  let '(w, f) := perform_drop_cleanup expiring_env true f w in
  (w, f, [r; r1; r2]).

(** A fatal cache failure marks the writer cancelled without cleaning up, so the
    calls meant to clean up do nothing.  Writing through the cache, the worker rejects
    the second block and [write] fails.  A following [cancel] and [close] both return
    [Ok], but the UFS stream is still open, the committed first block is never removed,
    and dropping the writer does not help. *)
Theorem fatal_cache_failure_abandons_cleanup :
  let '(w, f, answers) := abandoned_run in
  answers = [Err (PermissionDenied "expired"); Ok tt; Ok tt] /\
  is_open 0 w /\ ~ ended 0 w /\ fw_committed_block_ids f = [0] /\
  existsb (fun p => match fst p with EvRemoveBlocks _ | EvDelete _ => true | _ => false end)
    (w_trace w) = false.
Proof.
  destruct abandoned_run as [[w f] answers] eqn:H. vm_compute in H. injection H as <- <- <-.
  split; [reflexivity|]. split; [|split; [|split; reflexivity]].
  - exists (-1), UfsFile. do 3 eexists. split; [apply list_elem_of_In; cbn; tauto|reflexivity].
  - intros H%ended_spec. discriminate H.
Qed.

(** Workers that reject the credentials when a block is opened. *)
Definition rejecting_env : WriteEnv :=
  mkWriteEnv (fun _ e => match e with
                         | EvOpen _ _ id _ _ => if 0 <=? id then Err (PermissionDenied "no") else Ok tt
                         | _ => Ok tt
                         end)
    (fun _ => 10) (fun _ _ => 0%nat).

(** Rejected credentials are not recognised when a block is opened.  The decision
    on a cache failure aborts the file when the credentials are rejected, and does
    not blacklist the worker.  But opening a block blacklists every candidate that
    rejects it, and the retry over all workers then reports that no worker is
    available: writing through the cache, the write succeeds on the UFS alone. *)
Theorem rejected_credentials_masked :
  cache_write_failure_is_fatal (PermissionDenied "no") example_strategy false true = true /\
  let '(w, (f, r)) := fw_write rejecting_env example_cfg example_file example_strategy example_router
                        example_writer [1; 2; 3] (fst example_created) in
  r = Ok tt /\ fw_should_cache f = false /\
  existsb (fun p => match fst p with EvInvalidateWorker _ => true | _ => false end) (w_trace w) = true.
Proof. vm_compute. auto. Qed.

(** ** Termination *)

(** C10. No call loops forever.  In any session, with any outcomes, no call of the
    writer reaches the bound of one of its loops: as long as the chunk and block
    sizes are positive, each turn of the loop that fills blocks, of the one that cuts
    chunks and of the one that feeds the UFS stream makes progress. *)
Theorem writer_loops_stop env cfg file_info strategy shared operation_id l c w0 f0 w f w' f' r :
  (forall tr e, env_answer env tr e <> Err write_out_of_fuel) ->
  0 < wc_chunk_size cfg -> 0 < block_size_of cfg file_info ->
  fw_create env strategy shared (mkWorld [] 0) = (w0, Ok f0) ->
  run_calls env cfg file_info strategy shared operation_id f0 l w0 = (w, f) ->
  run_call env cfg file_info strategy shared operation_id f c w = (w', (f', r)) ->
  r <> Err write_out_of_fuel.
Proof.
  intros Henv Hcs Hbs Hcreate Hrun Hcall.
  apply create_stops in Hcreate as [_ Hs0]; [|done]. specialize (Hs0 f0 eq_refl).
  apply run_calls_sane in Hrun; [|done..]. by apply run_call_stops in Hcall as [? _].
Qed.

Lemma writer_loops_stop_witness :
  snd (snd (run_call refusing_env example_cfg example_file example_strategy example_router 9
              example_writer (CallWrite [1; 2; 3; 4; 5; 6; 7]) (fst example_created)))
  <> Err write_out_of_fuel.
Proof.
  destruct (run_call refusing_env _ _ _ _ _ _ _ _) as [w' [f' r]] eqn:H.
  apply (writer_loops_stop refusing_env example_cfg example_file example_strategy example_router 9 []
    (CallWrite [1; 2; 3; 4; 5; 6; 7]) (fst example_created) example_writer (fst example_created)
    example_writer w' f' r).
  - clear H. intros tr e. destruct e; cbn; try discriminate. by destruct (_ =? 1).
  - reflexivity.
  - reflexivity.
  - vm_compute. reflexivity.
  - reflexivity.
  - exact H.
Defined.

(** ** Block ids *)

(** Block ids name blocks.  For a file id, the id of block [i] carries the file's
    container and [i] itself, so that the blocks of a file (up to 2^24 of them) have
    distinct ids, distinct from those of files in other containers. *)
Theorem block_ids_name_blocks file_id i :
  0 <= file_id < 2 ^ 63 -> 0 <= i < 2 ^ 24 ->
  block_sequence_number (compute_block_id file_id i) = i /\
  Z.shiftr (compute_block_id file_id i) 24 = Z.shiftr file_id 24.
Proof.
  intros Hf Hi. unfold block_sequence_number, compute_block_id, SEQUENCE_NUMBER_BITS.
  change CONTAINER_ID_MASK with (Z.ones 40). change SEQUENCE_NUMBER_MASK with (Z.ones 24).
  rewrite !Z.land_ones by lia. rewrite (Z.mod_small i) by lia.
  assert (Hc : 0 <= Z.shiftr file_id 24 < 2 ^ 39).
  { rewrite Z.shiftr_div_pow2 by lia. split; [apply Z.div_pos; lia|apply Z.div_lt_upper_bound; lia]. }
  rewrite (Z.mod_small (Z.shiftr file_id 24)) by lia.
  assert (Hs : 0 <= Z.shiftl (Z.shiftr file_id 24) 24 < 2 ^ 63)
    by (rewrite Z.shiftl_mul_pow2 by lia; lia).
  rewrite as_i64_small by (unfold is_i64; lia).
  unfold as_u64. change u64_mod with (2 ^ 40 * 2 ^ 24).
  rewrite Z.mod_mod_divide by (by exists (2 ^ 40)). split.
  - rewrite <- Z.land_ones, Z.land_lor_distr_l, !Z.land_ones, (Z.mod_small i) by lia.
    by rewrite Z.shiftl_mul_pow2, Z.mod_mul, Z.lor_0_l by lia.
  - rewrite Z.shiftr_lor, Z.shiftr_shiftl_l, Z.sub_diag, Z.shiftl_0_r by lia.
    rewrite (Z.shiftr_div_pow2 i), (Z.div_small i) by lia. apply Z.lor_0_r.
Qed.

Lemma block_ids_name_blocks_witness :
  block_sequence_number (compute_block_id 33554437 6) = 6 /\
  Z.shiftr (compute_block_id 33554437 6) 24 = 2.
Proof. apply (block_ids_name_blocks 33554437 6); lia. Defined.
