(* ===== verification/Master.v ===== *)
(** * Master client

    [src/src/client/master.rs]: [MasterClient::with_retry] and the RPCs built on it, the
    client-side walk of [list_status], and the channel choice of [MasterClientPool].  The
    master, the network and the source of operation ids are the world [W]: what an RPC, a
    reconnection or a fresh id does to it is a parameter. *)

From S2P Require Import Prelude Text Proto Errors MetadataCache BlockWriter FileWriter.

Definition MAX_RPC_RETRIES : Z := 2.

(** ** Requests *)

Record FsOpPId : Type := mkFsOpPId {
  most_significant_bits : Z;
  least_significant_bits : Z;
}.

#[global] Instance FsOpPId_eq_dec : EqDecision FsOpPId.
Proof. solve_decision. Defined.

Record CommonPOptions : Type := mkCommonPOptions {
  cp_sync_interval_ms : option Z;
  cp_operation_id : option FsOpPId;
}.

Record DeleteOptions : Type := mkDeleteOptions {
  do_recursive : bool;
  do_unchecked : bool;
  do_goosefs_only : bool;
}.

(** [Default]: unchecked. *)
Definition default_delete_options : DeleteOptions := mkDeleteOptions false true false.

Record PMode : Type := mkPMode { owner_bits : Z; group_bits : Z; other_bits : Z }.

(** [Bits::All], [Bits::ReadExecute], [Bits::ReadWrite] and [Bits::Read]. *)
Definition default_dir_mode : PMode := mkPMode 8 6 6.
Definition default_file_mode : PMode := mkPMode 7 5 5.

Inductive MasterRequest : Type :=
| GetStatusRequest (path : string) (load : option LoadMetadataPType) (common : option CommonPOptions)
| ListStatusRequest (path : string) (load : option LoadMetadataPType) (common : option CommonPOptions)
| CreateFileRequest (path : string) (options : CreateFilePOptions) (common : option CommonPOptions)
| CompleteFileRequest (path : string) (options : CompleteFileOptions) (common : option CommonPOptions)
    (inode_id : option Z)
| CommitLocationRequest (path : string) (inode_id : option Z) (block_id : Z) (locations : list FileLocation)
| RemoveBlocksRequest (block_ids : list Z)
| RemoveRequest (path : string) (options : DeleteOptions) (common : option CommonPOptions)
| RenameRequest (src dst : string) (persist : bool) (common : option CommonPOptions)
| CreateDirectoryRequest (path : string) (recursive allow_exists : bool) (mode : PMode)
    (common : option CommonPOptions)
| SchedulePersistRequest (path : string) (common : option CommonPOptions) (wait : option Z).

(** A listing arrives as a stream of batches, any of which can be an error. *)
Inductive MasterReply : Type :=
| StatusReply (file_info : option FileInfo)
| ListingReply (batches : list (result Error (list FileInfo)))
| DoneReply.

(** ** Request options *)

Definition common_p_options (sync_interval_ms : Z) (operation_id : option FsOpPId) : CommonPOptions :=
  mkCommonPOptions (Some sync_interval_ms) operation_id.

Definition get_status_p_options (load : option LoadMetadataPType) (sync : option Z)
  : option LoadMetadataPType * option CommonPOptions :=
  (load, (fun ms => common_p_options ms None) <$> sync).

Definition list_status_p_options (load : option LoadMetadataPType) (sync : option Z)
  : option LoadMetadataPType * option CommonPOptions :=
  (load, (fun ms => common_p_options ms None) <$> sync).

Definition complete_file_request (path : string) (opts : CompleteFileOptions) (sync_interval_ms : Z)
  : MasterRequest :=
  let '(hi, lo) := cf_operation_id opts in
  CompleteFileRequest path opts
    (Some (common_p_options sync_interval_ms (Some (mkFsOpPId hi lo)))) (cf_inode_id opts).

(** ** Paths of the recursive listing *)

Definition list_status_path_key (path : string) : string :=
  if (1 <? String.length path)%nat then
    let n := (String.length path - 1)%nat in
    if String.eqb (String.substring n 1 path) "/" then String.substring 0 n path else path
  else path.

Definition list_status_bfs_child_dir (cur : string) (child_path : option string) (is_folder : bool)
  : option string :=
  if negb is_folder then None
  else match child_path with
  | None | Some EmptyString => None
  | Some child =>
      if String.eqb (list_status_path_key child) (list_status_path_key cur) then None else Some child
  end.

(** ** The client *)

Record MasterConfig : Type := mkMasterConfig {
  file_metadata_load_type : LoadMetadataPType;
  file_metadata_sync_interval : Z;
  file_persist_on_rename : bool;
}.

(** [mc_channel] names the [AuthedState] snapshot in [state]. *)
Record MasterClient : Type := mkMasterClient {
  mc_channel : Z;
  mc_inflight : Z;
  mc_rpc_errors_total : Z;
  mc_rpc_auth_errors : Z;
  mc_rpc_unavailable_errors : Z;
  mc_get_status_ops : Z;
  mc_list_status_ops : Z;
  mc_create_file_ops : Z;
  mc_create_dir_ops : Z;
  mc_delete_ops : Z;
  mc_rename_ops : Z;
}.

Definition from_parts (channel : Z) : MasterClient := mkMasterClient channel 0 0 0 0 0 0 0 0 0 0.

Definition set_channel (c : MasterClient) (channel : Z) : MasterClient :=
  let 'mkMasterClient _ i e a u g l cf cd d r := c in mkMasterClient channel i e a u g l cf cd d r.

Definition add_inflight (c : MasterClient) (n : Z) : MasterClient :=
  let 'mkMasterClient ch i e a u g l cf cd d r := c in mkMasterClient ch (i + n) e a u g l cf cd d r.

Definition count_rpc_error (c : MasterClient) (err : Error) : MasterClient :=
  let 'mkMasterClient ch i e a u g l cf cd d r := c in
  if is_authentication_error err then mkMasterClient ch i (e + 1) (a + 1) u g l cf cd d r
  else if is_unavailable err then mkMasterClient ch i (e + 1) a (u + 1) g l cf cd d r
  else mkMasterClient ch i (e + 1) a u g l cf cd d r.

Inductive OpCounter : Type := GetStatusOps | ListStatusOps | CreateFileOps | CreateDirOps | DeleteOps | RenameOps.

Definition count_op (op : OpCounter) (c : MasterClient) : MasterClient :=
  let 'mkMasterClient ch i e a u g l cf cd d r := c in
  match op with
  | GetStatusOps => mkMasterClient ch i e a u (g + 1) l cf cd d r
  | ListStatusOps => mkMasterClient ch i e a u g (l + 1) cf cd d r
  | CreateFileOps => mkMasterClient ch i e a u g l (cf + 1) cd d r
  | CreateDirOps => mkMasterClient ch i e a u g l cf (cd + 1) d r
  | DeleteOps => mkMasterClient ch i e a u g l cf cd (d + 1) r
  | RenameOps => mkMasterClient ch i e a u g l cf cd d (r + 1)
  end.

(** What the client does to the world: send a request on a channel, find the primary and
    authenticate a new channel to it, draw an operation id. *)
Class MasterNet (W : Type) : Type := {
  net_send : Z -> MasterRequest -> W -> W * result Error MasterReply;
  net_connect : W -> W * result Error Z;
  net_op_id : W -> W * FsOpPId;
}.

Section Client.
Context {W : Type} `{!MasterNet W}.
(** [Display] of an error. *)
Context (error_display : Error -> string) (cfg : MasterConfig).

Definition State : Type := MasterClient * W.

Definition reconnect (s : State) : State * result Error unit :=
  let '(c, w) := s in
  let '(w, r) := net_connect w in
  match r with
  | Ok channel => ((set_channel c channel, w), Ok tt)
  | Err e => ((c, w), Err e)
  end.

(** One RPC: the guard takes the in-flight count back when the attempt is over. *)
Definition attempt_rpc {T : Type} (f : Z -> W -> W * result Error T) (s : State)
  : State * result Error T :=
  let '(c, w) := s in
  let c := add_inflight c 1 in
  let '(w, r) := f (mc_channel c) w in
  match r with
  | Ok t => ((add_inflight c (-1), w), Ok t)
  | Err err => ((add_inflight (count_rpc_error c err) (-1), w), Err err)
  end.

(** [n] attempts are left. *)
Fixpoint retry_loop {T : Type} (op_name : string) (f : Z -> W -> W * result Error T)
    (n : nat) (attempt : Z) (last_err : option Error) (s : State) : State * result Error T :=
  match n with
  | O => (s, Err (default (Internal (op_name +:+ ": exhausted all retries") None) last_err))
  | S n =>
      let '(s, connected) := if 0 <? attempt then reconnect s else (s, Ok tt) in
      match connected with
      | Err reconnect_err =>
          retry_loop op_name f n (attempt + 1)
            (Some (Internal ("master reconnect failed: " +:+ error_display reconnect_err) None)) s
      | Ok _ =>
          let '(s, r) := attempt_rpc f s in
          match r with
          | Ok t => (s, Ok t)
          | Err err =>
              if is_retriable err && (attempt <? MAX_RPC_RETRIES)
              then retry_loop op_name f n (attempt + 1) (Some err) s
              else (s, Err err)
          end
      end
  end.

(** [for attempt in 0..=MAX_RPC_RETRIES]. *)
Definition with_retry {T : Type} (op_name : string) (f : Z -> W -> W * result Error T) (s : State)
  : State * result Error T :=
  retry_loop op_name f (Z.to_nat (MAX_RPC_RETRIES + 1)) 0 None s.

Definition counted {T : Type} (op : OpCounter) (x : State * result Error T) : State * result Error T :=
  let '((c, w), r) := x in ((count_op op c, w), r).

(** [client.rpc(req).await?], for the RPCs whose reply is not looked at. *)
Definition send_unit (req : MasterRequest) (channel : Z) (w : W) : W * result Error unit :=
  let '(w, r) := net_send channel req w in (w, let? _ := r in Ok tt).

(** [into_inner().file_info.ok_or_else(missing_field)]. *)
Definition send_file_info (req : MasterRequest) (channel : Z) (w : W) : W * result Error FileInfo :=
  let '(w, r) := net_send channel req w in
  (w, let? reply := r in
      match reply with StatusReply (Some fi) => Ok fi | _ => Err (missing_field "file_info") end).

(** [while let Some(resp) = stream.message().await?]. *)
Fixpoint drain_listing (batches : list (result Error (list FileInfo))) : result Error (list FileInfo) :=
  match batches with
  | [] => Ok []
  | b :: batches => let? items := b in let? rest := drain_listing batches in Ok (items ++ rest)
  end.

Definition send_listing (req : MasterRequest) (channel : Z) (w : W) : W * result Error (list FileInfo) :=
  let '(w, r) := net_send channel req w in
  (w, let? reply := r in match reply with ListingReply batches => drain_listing batches | _ => Ok [] end).

Definition write_common_p_options (w : W) : W * CommonPOptions :=
  let '(w, id) := net_op_id w in
  (w, common_p_options (file_metadata_sync_interval cfg) (Some id)).

Definition fill_write_common_options (slot : option CommonPOptions) (w : W) : W * CommonPOptions :=
  match slot with
  | None => write_common_p_options w
  | Some existing =>
      let sync := or_default (cp_sync_interval_ms existing) (Some (file_metadata_sync_interval cfg)) in
      match cp_operation_id existing with
      | Some id => (w, mkCommonPOptions sync (Some id))
      | None => let '(w, id) := net_op_id w in (w, mkCommonPOptions sync (Some id))
      end
  end.

Definition get_status_with_load_type (path : string) (load : option LoadMetadataPType) (sync : option Z)
    (s : State) : State * result Error FileInfo :=
  let '(load, common) := get_status_p_options load sync in
  counted GetStatusOps (with_retry "get_status" (send_file_info (GetStatusRequest path load common)) s).

Definition get_status (path : string) (s : State) : State * result Error FileInfo :=
  get_status_with_load_type path (Some (file_metadata_load_type cfg))
    (Some (file_metadata_sync_interval cfg)) s.

Definition list_status_one_level (path : string)
    (options : option LoadMetadataPType * option CommonPOptions) (s : State)
  : State * result Error (list FileInfo) :=
  counted ListStatusOps
    (with_retry "list_status" (send_listing (ListStatusRequest path (fst options) (snd options))) s).

(** One pass over the entries of a directory: what to visit next. *)
Definition bfs_entry (cur : string) (st : list string * gset string) (fi : FileInfo)
  : list string * gset string :=
  let '(queue, visited) := st in
  match list_status_bfs_child_dir cur (fi_path fi) (default false (fi_folder fi)) with
  | None => st
  | Some child =>
      let key := list_status_path_key child in
      if bool_decide (key ∈ visited) then st else (queue ++ [key], {[key]} ∪ visited)
  end.

(** The walk, for at most [fuel] directories; [None] when that was not enough. *)
Fixpoint bfs (list_dir : string -> State -> State * result Error (list FileInfo)) (fuel : nat)
    (queue : list string) (visited : gset string) (out : list FileInfo) (s : State)
  : State * option (result Error (list FileInfo)) :=
  match queue with
  | [] => (s, Some (Ok out))
  | cur :: queue =>
      match fuel with
      | O => (s, None)
      | S fuel =>
          let '(s, r) := list_dir cur s in
          match r with
          | Err e => (s, Some (Err e))
          | Ok items =>
              let '(queue, visited) := foldl (bfs_entry cur) (queue, visited) items in
              bfs list_dir fuel queue visited (out ++ items) s
          end
      end
  end.

Definition list_status_with_options (fuel : nat) (path : string) (recursive : bool)
    (load : option LoadMetadataPType) (sync : option Z) (s : State)
  : State * option (result Error (list FileInfo)) :=
  let load := default (file_metadata_load_type cfg) load in
  let options := list_status_p_options (Some load) sync in
  if negb recursive then
    let '(s, r) := list_status_one_level path options s in (s, Some r)
  else
    let start := list_status_path_key path in
    bfs (fun p => list_status_one_level p options) fuel [start] {[start]} [] s.

Definition list_status_with_load_type (fuel : nat) (path : string) (recursive : bool)
    (load : option LoadMetadataPType) (s : State) : State * option (result Error (list FileInfo)) :=
  list_status_with_options fuel path recursive load (Some (file_metadata_sync_interval cfg)) s.

Definition list_status (fuel : nat) (path : string) (recursive : bool) (s : State)
  : State * option (result Error (list FileInfo)) :=
  list_status_with_load_type fuel path recursive None s.

Definition create_file (path : string) (options : CreateFilePOptions) (common : option CommonPOptions)
    (s : State) : State * result Error FileInfo :=
  let '(c, w) := s in
  let '(w, common) := fill_write_common_options common w in
  counted CreateFileOps
    (with_retry "create_file" (send_file_info (CreateFileRequest path options (Some common))) (c, w)).

Definition complete_file_with_options (path : string) (opts : CompleteFileOptions) (s : State)
  : State * result Error unit :=
  with_retry "complete_file"
    (send_unit (complete_file_request path opts (file_metadata_sync_interval cfg))) s.

Definition commit_location (path : string) (inode_id : option Z) (block_id : Z)
    (locations : list FileLocation) (s : State) : State * result Error unit :=
  match locations with
  | [] => (s, Ok tt)
  | _ => with_retry "commit_location"
           (send_unit (CommitLocationRequest path inode_id block_id locations)) s
  end.

Definition remove_blocks (block_ids : list Z) (s : State) : State * result Error unit :=
  match block_ids with
  | [] => (s, Ok tt)
  | _ => with_retry "remove_blocks" (send_unit (RemoveBlocksRequest block_ids)) s
  end.

Definition delete_with_options (path : string) (opts : DeleteOptions) (s : State)
  : State * result Error unit :=
  let '(c, w) := s in
  let '(w, common) := write_common_p_options w in
  with_retry "delete_with_options" (send_unit (RemoveRequest path opts (Some common))) (c, w).

Definition master_delete (path : string) (recursive : bool) (s : State) : State * result Error unit :=
  counted DeleteOps (delete_with_options path (mkDeleteOptions recursive true false) s).

Definition rename (src dst : string) (s : State) : State * result Error unit :=
  let '(c, w) := s in
  let '(w, common) := write_common_p_options w in
  counted RenameOps
    (with_retry "rename" (send_unit (RenameRequest src dst (file_persist_on_rename cfg) (Some common)))
       (c, w)).

Definition create_directory (path : string) (recursive : bool) (s : State) : State * result Error unit :=
  let '(c, w) := s in
  let '(w, common) := write_common_p_options w in
  counted CreateDirOps
    (with_retry "create_directory"
       (send_unit (CreateDirectoryRequest path recursive true default_dir_mode (Some common))) (c, w)).

Definition schedule_async_persistence (path : string) (wait : option Z) (s : State)
  : State * result Error unit :=
  with_retry "schedule_async_persistence"
    (send_unit (SchedulePersistRequest path
                  (Some (common_p_options (file_metadata_sync_interval cfg) None)) wait)) s.
End Client.

(** ** The pool *)

Inductive MasterPoolSchedule : Type := RoundRobin | P2C.

(** [loads] are the in-flight counts of the clients; [draws] the indices [fastrand] gives.
    The result is the new cursor and the index of the client picked, [None] when the draws
    ran out before two differed. *)
Fixpoint second_draw (a : nat) (draws : list nat) : option nat :=
  match draws with
  | [] => None
  | b :: draws => if (b =? a)%nat then second_draw a draws else Some b
  end.

Definition pick (schedule : MasterPoolSchedule) (rr : Z) (loads : list Z) (draws : list nat)
  : Z * option nat :=
  let n := zlen loads in
  if n =? 1 then (rr, Some 0%nat)
  else match schedule with
  | RoundRobin => (u64_add rr 1, Some (Z.to_nat (rr mod n)))
  | P2C =>
      (rr, match draws with
           | [] => None
           | a :: draws =>
               b ← second_draw a draws; la ← loads !! a; lb ← loads !! b;
               Some (if la <=? lb then a else b)
           end)
  end.
