(* ===== verification/MasterTheorems.v ===== *)
(** * Master client: theorems

    How often a request is sent and on which channel, that a mutation takes effect once
    however often it is sent, that the recursive listing visits every directory once and
    ends, and which client the pool picks. *)

From S2P Require Import Prelude Text Proto Errors MetadataCache BlockWriter FileWriter Master.

(** ** Closures that send one request *)

Section Retry.
Context {W : Type} `{!MasterNet W}.
Context (error_display : Error -> string) (cfg : MasterConfig).

(** [f] sends [req] and looks at the reply. *)
Definition sends {T : Type} (req : MasterRequest) (f : Z -> W -> W * result Error T) : Prop :=
  exists g, forall ch w,
    f ch w = let '(w', r) := net_send ch req w in (w', result_bind r g).

Lemma send_unit_sends req : sends req (send_unit req).
Proof. eexists. intros ch w. unfold send_unit. by destruct (net_send ch req w). Qed.

Lemma send_file_info_sends req : sends req (send_file_info req).
Proof. eexists. intros ch w. unfold send_file_info. by destruct (net_send ch req w). Qed.

Lemma send_listing_sends req : sends req (send_listing req).
Proof. eexists. intros ch w. unfold send_listing. by destruct (net_send ch req w). Qed.

(** An invariant of the world that sending [req] and reconnecting keep, and what an [Ok]
    says about the world it leaves. *)
Lemma retry_loop_invariant {T : Type} (P Q : W -> Prop) op (f : Z -> W -> W * result Error T) :
  (forall ch w, P w -> P (fst (f ch w))) ->
  (forall ch w t, P w -> snd (f ch w) = Ok t -> Q (fst (f ch w))) ->
  (forall w, P w -> P (fst (net_connect w))) ->
  forall n attempt last s, P (snd s) ->
    let '(s', r) := retry_loop error_display op f n attempt last s in
    P (snd s') /\ (is_ok r = true -> Q (snd s')).
Proof.
  intros Hf Hok Hc. induction n as [|n IH]; intros attempt last [c w] Hp; [done|]. cbn [retry_loop].
  destruct (if 0 <? attempt then _ else _) as [[c1 w1] r1] eqn:Hconn.
  assert (Hp1 : P w1).
  { destruct (0 <? attempt); [|by simplify_eq]. unfold reconnect in Hconn. specialize (Hc w Hp).
    destruct (net_connect w) as [w' [ch|e]]; by simplify_eq. }
  destruct r1 as [u|e]; [|by apply IH].
  unfold attempt_rpc. specialize (Hf (mc_channel (add_inflight c1 1)) w1 Hp1).
  specialize (fun t => Hok (mc_channel (add_inflight c1 1)) w1 t Hp1).
  destruct (f (mc_channel (add_inflight c1 1)) w1) as [w2 [t|e]]; cbn in Hf, Hok.
  - split; [done|]. intros _. by eapply Hok.
  - destruct (is_retriable e && (attempt <? MAX_RPC_RETRIES)); [by apply IH|]. by split.
Qed.

(** A reply that is [Ok] came from the closure. *)
Lemma with_retry_result {T : Type} (R : T -> Prop) op (f : Z -> W -> W * result Error T) s t :
  (forall ch w t, snd (f ch w) = Ok t -> R t) -> snd (with_retry error_display op f s) = Ok t -> R t.
Proof.
  intros Hf. unfold with_retry. generalize (Z.to_nat (MAX_RPC_RETRIES + 1)) as n, 0 as attempt.
  intros n. generalize (@None Error). revert s. induction n as [|n IH]; intros [c w] last attempt; [done|].
  cbn [retry_loop]. destruct (if 0 <? attempt then _ else _) as [[c1 w1] [u|e]];
    [|by apply IH].
  unfold attempt_rpc. specialize (Hf (mc_channel (add_inflight c1 1)) w1).
  destruct (f (mc_channel (add_inflight c1 1)) w1) as [w2 [t'|e]].
  - intros [= <-]. by apply Hf.
  - destruct (is_retriable e && (attempt <? MAX_RPC_RETRIES)); [by apply IH|done].
Qed.
End Retry.

(** ** A mutation takes effect once *)

Definition request_op_id (req : MasterRequest) : option FsOpPId :=
  match req with
  | GetStatusRequest _ _ c | ListStatusRequest _ _ c | CreateFileRequest _ _ c
  | CompleteFileRequest _ _ c _ | RemoveRequest _ _ c | RenameRequest _ _ _ c
  | CreateDirectoryRequest _ _ _ _ c | SchedulePersistRequest _ c _ => c ≫= cp_operation_id
  | CommitLocationRequest _ _ _ _ | RemoveBlocksRequest _ => None
  end.

(** The master keeps a log of the requests it applied.  A request may or may not reach it,
    and its reply may or may not come back; one that carries an operation id is applied
    only if no request with that id was, and its reply is a success only once one was. *)
Class ExactlyOnceMaster (W : Type) `{!MasterNet W} : Type := {
  applied : W -> list MasterRequest;
  log_has : FsOpPId -> W -> Prop := fun id w => exists req, req ∈ applied w /\ request_op_id req = Some id;
  applied_send ch req w id : request_op_id req = Some id ->
    applied (fst (net_send ch req w)) = applied w \/
    applied (fst (net_send ch req w)) = applied w ++ [req] /\ ~ log_has id w;
  applied_ok ch req w id reply : request_op_id req = Some id ->
    snd (net_send ch req w) = Ok reply -> log_has id (fst (net_send ch req w));
  applied_connect w : applied (fst (net_connect w)) = applied w;
  applied_op_id w : applied (fst (net_op_id w)) = applied w;
  fresh_op_id w : ~ log_has (snd (net_op_id w)) w;
}.

Inductive Mutation : Type :=
| MutDelete (path : string) (opts : DeleteOptions)
| MutRename (src dst : string)
| MutMkdir (path : string) (recursive : bool)
| MutCreate (path : string) (options : CreateFilePOptions).

Section Mutations.
Context {W : Type} `{!MasterNet W, !ExactlyOnceMaster W}.
Context (error_display : Error -> string) (cfg : MasterConfig).

Definition mutate (m : Mutation) (s : State (W := W)) : State * result Error unit :=
  match m with
  | MutDelete path opts => delete_with_options error_display cfg path opts s
  | MutRename src dst => rename error_display cfg src dst s
  | MutMkdir path recursive => create_directory error_display cfg path recursive s
  | MutCreate path options =>
      let '(s, r) := create_file error_display cfg path options None s in (s, let? _ := r in Ok tt)
  end.

Definition mutation_request (m : Mutation) (common : CommonPOptions) : MasterRequest :=
  match m with
  | MutDelete path opts => RemoveRequest path opts (Some common)
  | MutRename src dst => RenameRequest src dst (file_persist_on_rename cfg) (Some common)
  | MutMkdir path recursive => CreateDirectoryRequest path recursive true default_dir_mode (Some common)
  | MutCreate path options => CreateFileRequest path options (Some common)
  end.

Lemma with_retry_once {T : Type} op req id (f : Z -> W -> W * result Error T) (s : State) :
  request_op_id req = Some id -> sends req f -> ~ log_has id (snd s) ->
  let '(s', r) := with_retry error_display op f s in
  applied (snd s') = applied (snd s) /\ is_ok r = false \/ applied (snd s') = applied (snd s) ++ [req].
Proof.
  intros Hid [g Hf] Hfresh.
  set (P := fun w => applied w = applied (snd s) \/ applied w = applied (snd s) ++ [req]).
  pose proof (retry_loop_invariant error_display P (fun w => applied w = applied (snd s) ++ [req]) op f)
    as Hinv. unfold with_retry.
  assert (Hstep : forall ch w, P w -> P (fst (net_send ch req w))).
  { unfold P. intros ch w Hw. destruct (applied_send ch req w id Hid) as [->|[-> Hnew]]; [done|].
    destruct Hw as [->|Heq]; [by right|]. exfalso. apply Hnew. exists req. split; [|done].
    rewrite Heq. set_solver. }
  specialize (Hinv ltac:(intros ch w Hw; rewrite Hf; specialize (Hstep ch w Hw);
                         by destruct (net_send ch req w))).
  specialize (Hinv ltac:(intros ch w t Hw; rewrite Hf; specialize (Hstep ch w Hw);
    pose proof (fun reply => applied_ok ch req w id reply Hid) as Hok;
    destruct (net_send ch req w) as [w' [reply|e]]; [|done]; cbn in *; intros _;
    destruct Hstep as [Heq|]; [|done]; destruct (Hok reply eq_refl) as (req' & Hin & Hid');
    exfalso; apply Hfresh; exists req'; by rewrite <- Heq)).
  specialize (Hinv ltac:(intros w Hw; unfold P; by rewrite applied_connect)).
  specialize (Hinv (Z.to_nat (MAX_RPC_RETRIES + 1)) 0 None s ltac:(by left)).
  destruct (retry_loop error_display op f _ 0 None s) as [s' [t|e]]; cbn in *.
  - right. by apply Hinv.
  - destruct Hinv as [[?|?] _]; [by left|by right].
Qed.

Lemma counted_keeps {T : Type} op (x : State (W := W) * result Error T) :
  snd (fst (counted op x)) = snd (fst x) /\ snd (counted op x) = snd x.
Proof. by destruct x as [[c w] r]. Qed.

(** A request sent with a freshly drawn id. *)
Lemma fresh_once {T : Type} op req c w w1 id (f : Z -> W -> W * result Error T) s' r :
  net_op_id w = (w1, id) -> request_op_id req = Some id -> sends req f ->
  with_retry error_display op f (c, w1) = (s', r) ->
  applied (snd s') = applied w /\ is_ok r = false \/ applied (snd s') = applied w ++ [req].
Proof.
  intros Hop Hid Hf Hr. pose proof (fresh_op_id w) as Hfresh. pose proof (applied_op_id w) as Happ.
  rewrite Hop in Hfresh, Happ. cbn in Hfresh, Happ.
  pose proof (with_retry_once op req id f (c, w1) Hid Hf) as Honce. rewrite Hr in Honce. cbn in Honce.
  rewrite Happ in Honce. apply Honce. unfold log_has in *. by rewrite Happ.
Qed.

(** C11. A mutation takes effect at most once.  Each create, mkdir, delete or rename draws
    one operation id and sends one request, the same in every attempt.  However many
    attempts are made and whichever replies are lost, the master applies it at most once;
    when the call returns [Ok] it was applied, exactly once, and nothing else was. *)
Theorem mutation_applied_once (m : Mutation) (s : State (W := W)) :
  let '(s', r) := mutate m s in
  exists id, let common := common_p_options (file_metadata_sync_interval cfg) (Some id) in
    applied (snd s') = applied (snd s) /\ is_ok r = false \/
    applied (snd s') = applied (snd s) ++ [mutation_request m common].
Proof.
  destruct s as [c w]. destruct m; cbn [mutate]; unfold delete_with_options, rename, create_directory,
    create_file, fill_write_common_options, write_common_p_options, counted;
  destruct (net_op_id w) as [w1 id] eqn:Hop;
  match goal with |- context [with_retry ?d ?op ?f ?s] =>
    destruct (with_retry d op f s) as [[c' w'] r] eqn:Hr end; cbn [snd]; exists id; cbv zeta.
  - by eapply (fresh_once _ _ c w w1 id _ (c', w') r Hop); [| |exact Hr]; [|apply send_unit_sends].
  - by eapply (fresh_once _ _ c w w1 id _ (c', w') r Hop); [| |exact Hr]; [|apply send_unit_sends].
  - by eapply (fresh_once _ _ c w w1 id _ (c', w') r Hop); [| |exact Hr]; [|apply send_unit_sends].
  - assert (H : applied w' = applied w /\ is_ok r = false \/ applied w' = applied w ++
      [CreateFileRequest path options (Some (common_p_options (file_metadata_sync_interval cfg) (Some id)))]).
    { by eapply (fresh_once _ _ c w w1 id _ (c', w') r Hop); [| |exact Hr]; [|apply send_file_info_sends]. }
    destruct H as [[H He]|H]; [left|by right]. by destruct r.
Qed.
End Mutations.

(** ** How often and where a request is sent *)

Inductive NetEvent : Type :=
| Sent (channel : Z) (req : MasterRequest)
| Connected (r : result Error Z).

(** The same network, with a record of what happened, in order. *)
Definition logged_net {W : Type} (net : MasterNet W) : MasterNet (W * list NetEvent) := {|
  net_send := fun ch req '(w, log) =>
    let '(w, r) := net_send ch req w in ((w, log ++ [Sent ch req]), r);
  net_connect := fun '(w, log) =>
    let '(w, r) := net_connect w in ((w, log ++ [Connected r]), r);
  net_op_id := fun '(w, log) => let '(w, id) := net_op_id w in ((w, log), id);
|}.

Definition is_sent (e : NetEvent) : bool := match e with Sent _ _ => true | _ => false end.

(** An attempt ends with a send or with a failed reconnection. *)
Definition ends_attempt (e : NetEvent) : bool :=
  match e with Sent _ _ | Connected (Err _) => true | Connected (Ok _) => false end.

Definition count (P : NetEvent -> bool) (evs : list NetEvent) : nat := length (List.filter P evs).

(** Every send of [req] goes out on the channel opened just before it: [ready] is that
    channel, if there is one. *)
Fixpoint paced (req : MasterRequest) (ready : option Z) (evs : list NetEvent) : Prop :=
  match evs with
  | [] => True
  | Sent ch req' :: evs => ready = Some ch /\ req' = req /\ paced req None evs
  | Connected (Ok ch) :: evs => paced req (Some ch) evs
  | Connected (Err _) :: evs => paced req None evs
  end.

Section Discipline.
Context {W : Type} (net : MasterNet W).
Context (error_display : Error -> string).

#[local] Instance recorded : MasterNet (W * list NetEvent) := logged_net net.

(** What [n] attempts starting at number [attempt] do. *)
Record disciplined {T : Type} (req : MasterRequest) (n : nat) (attempt : Z) (c c' : MasterClient)
    (evs : list NetEvent) (r : result Error T) : Prop := {
  dis_attempts : (count ends_attempt evs <= n)%nat;
  dis_connects : (count (fun e => negb (is_sent e)) evs <= n - (if (0 <? attempt)%Z then 0 else 1))%nat;
  dis_paced : paced req (if 0 <? attempt then None else Some (mc_channel c)) evs;
  dis_inflight : mc_inflight c' = mc_inflight c;
  dis_exhausted e : r = Err e -> is_retriable e = true -> count ends_attempt evs = n;
}.

Lemma add_inflight_back c e : 
  mc_inflight (add_inflight (count_rpc_error (add_inflight c 1) e) (-1)) = mc_inflight c /\
  mc_inflight (add_inflight (add_inflight c 1) (-1)) = mc_inflight c.
Proof.
  destruct c. unfold count_rpc_error. cbn.
  destruct (is_authentication_error e), (is_unavailable e); cbn; lia.
Qed.

Lemma attempt_rpc_sends {T : Type} req (f : Z -> W * list NetEvent -> (W * list NetEvent) * result Error T) c w log :
  sends req f ->
  exists c' w' r, attempt_rpc f (c, (w, log)) = ((c', (w', log ++ [Sent (mc_channel c) req])), r) /\
    mc_inflight c' = mc_inflight c.
Proof.
  intros [g Hf]. unfold attempt_rpc. rewrite Hf. cbn.
  replace (mc_channel (add_inflight c 1)) with (mc_channel c) by by destruct c.
  destruct (net_send (mc_channel c) req w) as [w' r]. destruct (result_bind r g) as [t|e].
  - eexists _, _, _. split; [done|]. apply (add_inflight_back c (missing_field "")).
  - eexists _, _, _. split; [done|]. apply add_inflight_back.
Qed.

(** An attempt in front of the later ones. *)
Lemma disciplined_reconnected {T : Type} req n attempt c c' ch evs (r : result Error T) :
  0 < attempt -> disciplined req n (attempt + 1) (set_channel c ch) c' evs r ->
  disciplined req (S n) attempt c c' (Connected (Ok ch) :: Sent ch req :: evs) r.
Proof.
  intros Hat [H1 H2 H3 H4 H5]. replace (0 <? attempt + 1) with true in * by lia.
  split; replace (0 <? attempt) with true by lia; unfold count in *; cbn in *; [lia|lia|by split| |].
  - rewrite H4. by destruct c.
  - intros e He Hre. by rewrite (H5 e He Hre).
Qed.

Lemma disciplined_unconnected {T : Type} req n attempt c c' e evs (r : result Error T) :
  0 < attempt -> disciplined req n (attempt + 1) c c' evs r ->
  disciplined req (S n) attempt c c' (Connected (Err e) :: evs) r.
Proof.
  intros Hat [H1 H2 H3 H4 H5]. replace (0 <? attempt + 1) with true in * by lia.
  split; replace (0 <? attempt) with true by lia; unfold count in *; cbn in *; [lia|lia|done|done|].
  intros e' He Hre. by rewrite (H5 e' He Hre).
Qed.

Lemma disciplined_first {T : Type} req n c c' evs (r : result Error T) :
  disciplined req n 1 c c' evs r -> disciplined req (S n) 0 c c' (Sent (mc_channel c) req :: evs) r.
Proof.
  intros [H1 H2 H3 H4 H5]. split; unfold count in *; cbn in *; [lia|lia|done|done|].
  intros e He Hre. by rewrite (H5 e He Hre).
Qed.

Lemma retry_loop_disciplined {T : Type} op req (f : Z -> W * list NetEvent -> (W * list NetEvent) * result Error T) :
  sends req f ->
  forall n attempt last c w log, 0 <= attempt -> Z.of_nat n + attempt = MAX_RPC_RETRIES + 1 ->
    (forall e, last = Some e -> is_retriable e = true -> n <> 0%nat) -> (n = 0%nat -> last <> None) ->
    exists c' w' evs r, retry_loop error_display op f n attempt last (c, (w, log)) = ((c', (w', log ++ evs)), r) /\
      disciplined req n attempt c c' evs r.
Proof.
  intros Hf. induction n as [|n IH]; intros attempt last c w log Hpos Hsum Hlast Hsome.
  - exists c, w, [], (Err (default (Internal (op +:+ ": exhausted all retries") None) last)). cbn.
    rewrite app_nil_r. split; [done|]. split; [cbn; lia|cbn; lia|done|done|].
    destruct last as [e0|]; [|by destruct (Hsome eq_refl)]. cbn. intros e [= <-] He. by destruct (Hlast e0 eq_refl He).
  - cbn [retry_loop].
    assert (Hrest : forall c1 w1 log1, exists c' w' evs r,
      (let '(s, r) := attempt_rpc f (c1, (w1, log1)) in
       match r with
       | Ok t => (s, Ok t)
       | Err err =>
           if is_retriable err && (attempt <? MAX_RPC_RETRIES)
           then retry_loop error_display op f n (attempt + 1) (Some err) s
           else (s, Err err)
       end) = ((c', (w', log1 ++ Sent (mc_channel c1) req :: evs)), r) /\
      disciplined req n (attempt + 1) c1 c' evs r).
    { intros c1 w1 log1. destruct (attempt_rpc_sends req f c1 w1 log1 Hf) as (c2 & w2 & r2 & -> & Hin2).
      assert (Hstop : forall r : result Error T, (forall e, r = Err e -> is_retriable e = true -> n = 0%nat) ->
        disciplined req n (attempt + 1) c1 c2 [] r).
      { intros r Hr. split; [cbn; lia|cbn; lia|done|done|]. intros e He Hre. by rewrite (Hr e He Hre). }
      destruct r2 as [t|e]; [exists c2, w2, [], (Ok t); by split; [|apply Hstop]|].
      destruct (is_retriable e && (attempt <? MAX_RPC_RETRIES)) eqn:Hretry.
      - apply andb_true_iff in Hretry as [Hre Hat].
        destruct (IH (attempt + 1) (Some e) c2 w2 (log1 ++ [Sent (mc_channel c1) req])) as (c' & w' & evs & r & -> & Hd);
          [lia|lia|intros; unfold MAX_RPC_RETRIES in *; lia|done|].
        exists c', w', evs, r. rewrite <- app_assoc. split; [done|]. destruct Hd as [H1 H2 H3 H4 H5].
        split; [done|done| |congruence|done]. by replace (0 <? attempt + 1) with true in H3 |- * by lia.
      - exists c2, w2, [], (Err e). split; [done|]. apply Hstop. intros e' [= <-] Hre. rewrite Hre in Hretry.
        unfold MAX_RPC_RETRIES in *. cbn in Hretry. lia. }
    destruct (Z.ltb_spec 0 attempt) as [Hat|Hat].
    + unfold reconnect. cbn [net_connect recorded logged_net]. destruct (net_connect w) as [w1 [ch|e]].
      * destruct (Hrest (set_channel c ch) w1 (log ++ [Connected (Ok ch)])) as (c' & w' & evs & r & -> & Hd).
        exists c', w', (Connected (Ok ch) :: Sent ch req :: evs), r. rewrite <- app_assoc.
        replace (mc_channel (set_channel c ch)) with ch by by destruct c.
        split; [done|by apply disciplined_reconnected].
      * destruct (IH (attempt + 1) (Some (Internal ("master reconnect failed: " +:+ error_display e) None)) c w1
                    (log ++ [Connected (Err e)])) as (c' & w' & evs & r & -> & Hd);
          [lia|lia|by intros ? [= <-]|done|].
        exists c', w', (Connected (Err e) :: evs), r. rewrite <- app_assoc.
        split; [done|by apply disciplined_unconnected].
    + destruct (Hrest c w log) as (c' & w' & evs & r & -> & Hd). exists c', w', (Sent (mc_channel c) req :: evs), r.
      split; [done|]. replace attempt with 0 in * by lia. by apply disciplined_first.
Qed.

End Discipline.

(** ** The recursive listing *)

Section Walk.
Context (tree : string -> list FileInfo).

Definition child_key (cur : string) (fi : FileInfo) : option string :=
  list_status_path_key <$> list_status_bfs_child_dir cur (fi_path fi) (default false (fi_folder fi)).

Definition child_keys (cur : string) : list string := omap (child_key cur) (tree cur).

(** The directories under [start], by the keys the walk knows them under. *)
Inductive reach (start : string) : string -> Prop :=
| reach_start : reach start start
| reach_child d k : reach start d -> k ∈ child_keys d -> reach start k.

Lemma bfs_entry_key cur queue visited fi :
  bfs_entry cur (queue, visited) fi =
  match child_key cur fi with
  | None => (queue, visited)
  | Some key => if bool_decide (key ∈ visited) then (queue, visited) else (queue ++ [key], {[key]} ∪ visited)
  end.
Proof. unfold bfs_entry, child_key. by destruct (list_status_bfs_child_dir _ _ _). Qed.

Lemma bfs_entries cur items : forall queue visited,
  exists added, foldl (bfs_entry cur) (queue, visited) items = (queue ++ added, list_to_set added ∪ visited) /\
    NoDup added /\ (forall k, k ∈ added -> k ∉ visited /\ k ∈ omap (child_key cur) items) /\
    (forall k, k ∈ omap (child_key cur) items -> k ∈ added \/ k ∈ visited).
Proof.
  induction items as [|fi items IH]; intros queue visited.
  { exists []. rewrite app_nil_r. split_and!; [cbn; f_equal; set_solver|constructor|set_solver..]. }
  change (omap (child_key cur) (fi :: items)) with
    (match child_key cur fi with Some y => y :: omap (child_key cur) items | None => omap (child_key cur) items end).
  cbn [foldl]. rewrite bfs_entry_key. destruct (child_key cur fi) as [key|]; [|by apply IH]. case_bool_decide as Hin.
  - destruct (IH queue visited) as (added & -> & Hnd & H1 & H2). exists added. split_and!; [done|done|set_solver|].
    intros k [->|Hk]%elem_of_cons; [by right|by apply H2].
  - destruct (IH (queue ++ [key]) ({[key]} ∪ visited)) as (added & -> & Hnd & H1 & H2).
    exists (key :: added). rewrite <- app_assoc. split_and!.
    + cbn. f_equal. set_solver.
    + constructor; [|done]. intros Hk. apply H1 in Hk. set_solver.
    + set_solver.
    + intros k [->|Hk]%elem_of_cons; [set_solver|]. apply H2 in Hk. set_solver.
Qed.

(** Mid-walk: [done] was listed, [queue] is next, [out] is what was seen. *)
Record walk_inv (start : string) (done_ queue : list string) (visited : gset string)
    (out : list FileInfo) : Prop := {
  wi_nodup : NoDup (done_ ++ queue);
  wi_visited k : k ∈ visited <-> k ∈ done_ ++ queue;
  wi_reach k : k ∈ done_ ++ queue -> reach start k;
  wi_start : start ∈ done_ ++ queue;
  wi_closed d k : d ∈ done_ -> k ∈ child_keys d -> k ∈ done_ ++ queue;
  wi_out : out = flat_map tree done_;
}.

Lemma walk_step start done_ cur queue visited out :
  walk_inv start done_ (cur :: queue) visited out ->
  let '(queue', visited') := foldl (bfs_entry cur) (queue, visited) (tree cur) in
  walk_inv start (done_ ++ [cur]) queue' visited' (out ++ tree cur).
Proof.
  intros [Hnd Hv Hr Hs Hc Ho]. destruct (bfs_entries cur (tree cur) queue visited) as (added & -> & Hna & H1 & H2).
  assert (Heq : (done_ ++ [cur]) ++ queue ++ added = (done_ ++ cur :: queue) ++ added) by by rewrite <- !app_assoc.
  split; rewrite ?Heq.
  - apply NoDup_app. split_and!; [done| |done]. intros k Hk Hka. apply H1 in Hka as [Hn _]. by apply Hn, Hv.
  - intros k. rewrite elem_of_union, elem_of_list_to_set, Hv, (elem_of_app (done_ ++ _)). tauto.
  - intros k [Hk|Hk]%elem_of_app; [by apply Hr|]. apply H1 in Hk as [_ Hk].
    eapply reach_child; [apply (Hr cur); set_solver|done].
  - apply elem_of_app. by left.
  - intros d k Hd Hk. apply elem_of_app. apply elem_of_app in Hd as [Hd|Hd].
    + left. by apply (Hc d).
    + apply list_elem_of_singleton in Hd as ->. apply H2 in Hk as [Hk|Hk]; [by right|left; by apply Hv].
  - rewrite Ho, flat_map_app. cbn. by rewrite app_nil_r.
Qed.

Lemma walk_end start done_ visited out :
  walk_inv start done_ [] visited out ->
  NoDup done_ /\ (forall d, d ∈ done_ <-> reach start d) /\ out = flat_map tree done_.
Proof.
  intros [Hnd Hv Hr Hs Hc Ho]. rewrite app_nil_r in Hnd, Hs. split; [done|]. split; [|done].
  intros d. split; [intros Hd; apply Hr; by rewrite app_nil_r|]. induction 1 as [|d k _ IH Hk]; [done|]. specialize (Hc d k IH Hk).
  by rewrite app_nil_r in Hc.
Qed.

Context {W : Type} (list_dir : string -> MasterClient * W -> (MasterClient * W) * result Error (list FileInfo)).
Hypothesis lists_tree : forall p s items, snd (list_dir p s) = Ok items -> items = tree p.

(** With room for every directory the walk ends, and a result is all of them. *)
Lemma bfs_correct start dirs : (forall d, reach start d -> d ∈ dirs) ->
  forall fuel done_ queue visited out s,
    walk_inv start done_ queue visited out -> (length dirs <= length done_ + fuel)%nat ->
    match snd (bfs list_dir fuel queue visited out s) with
    | None => False
    | Some (Err _) => True
    | Some (Ok out') =>
        exists order, NoDup order /\ (forall d, d ∈ order <-> reach start d) /\ out' = flat_map tree order
    end.
Proof.
  intros Hdirs. induction fuel as [|fuel IH]; intros done_ queue visited out s Hinv Hfuel.
  - destruct queue as [|cur queue]; cbn; [exists done_; by apply (walk_end start done_ visited)|].
    destruct Hinv as [Hnd _ Hr _ _ _]. assert (Hle : (length (done_ ++ cur :: queue) <= length dirs)%nat).
    { apply submseteq_length, NoDup_submseteq; [done|]. intros d Hd. by apply Hdirs, Hr. }
    rewrite length_app in Hle. cbn in Hle. lia.
  - destruct queue as [|cur queue]; cbn; [exists done_; by apply (walk_end start done_ visited)|].
    pose proof (lists_tree cur s) as Hl. destruct (list_dir cur s) as [s' [items|e]]; cbn in Hl |- *; [|done].
    rewrite (Hl items eq_refl). pose proof (walk_step start done_ cur queue visited out Hinv) as Hstep.
    destruct (foldl (bfs_entry cur) (queue, visited) (tree cur)) as [queue' visited'].
    apply (IH (done_ ++ [cur])); [done|]. rewrite length_app. cbn. lia.
Qed.
End Walk.

Section Listing.
Context {W : Type} `{!MasterNet W}.
Context (error_display : Error -> string) (cfg : MasterConfig) (tree : string -> list FileInfo).
(** The namespace does not change during the walk: whatever listing of [p] comes back
    whole is that of [tree]. *)
Hypothesis listing_of_tree : forall ch p load common w reply,
  snd (net_send ch (ListStatusRequest p load common) w) = Ok reply ->
  exists batches, reply = ListingReply batches /\ forall items, drain_listing batches = Ok items -> items = tree p.

Lemma one_level_lists_tree options p (s : State) items :
  snd (list_status_one_level error_display p options s) = Ok items -> items = tree p.
Proof.
  unfold list_status_one_level. rewrite (proj2 (counted_keeps ListStatusOps _)).
  apply (with_retry_result error_display (fun items => items = tree p)).
  intros ch w t. unfold send_listing.
  pose proof (listing_of_tree ch p (fst options) (snd options) w) as Hl.
  destruct (net_send ch _ w) as [w' [reply|e]]; cbn; [|done].
  destruct (Hl reply eq_refl) as (batches & -> & Hb). apply Hb.
Qed.

(** C12. The recursive listing ends and is complete.  With room for every directory under
    [path] it does not run out; and a listing it returns is made of the entries of those
    directories, each listed once, whatever links lead back to one already seen. *)
Theorem recursive_listing_complete fuel dirs path load sync (s : State) :
  (forall d, reach tree (list_status_path_key path) d -> d ∈ dirs) -> (length dirs <= fuel)%nat ->
  match snd (list_status_with_options error_display cfg fuel path true load sync s) with
  | None => False
  | Some (Err _) => True
  | Some (Ok out) =>
      exists order, NoDup order /\ (forall d, d ∈ order <-> reach tree (list_status_path_key path) d) /\
        out = flat_map tree order
  end.
Proof.
  intros Hdirs Hfuel. unfold list_status_with_options. cbn [negb].
  apply (bfs_correct tree _ (fun p s' items => one_level_lists_tree _ p s' items) _ dirs Hdirs fuel []); [|done].
  split; cbn; [repeat constructor; set_solver|set_solver| |set_solver|set_solver|done].
  intros k ->%list_elem_of_singleton. constructor.
Qed.
End Listing.

(** ** The pool *)

Fixpoint picks (schedule : MasterPoolSchedule) (rr : Z) (loads : list Z) (k : nat) : list (option nat) :=
  match k with
  | O => []
  | S k => let '(rr, i) := pick schedule rr loads [] in i :: picks schedule rr loads k
  end.

(** Round robin gives every channel one of any [n] consecutive picks. *)
Theorem round_robin_covers (loads : list Z) (rr : Z) :
  (1 < length loads)%nat -> 0 <= rr -> rr + zlen loads <= u64_max ->
  picks RoundRobin rr loads (length loads) ≡ₚ map Some (seq 0 (length loads)).
Proof.
  intros Hn Hrr Hmax. assert (Hlen : 1 < zlen loads) by (unfold zlen; lia).
  assert (Hpicks : forall k rr, 0 <= rr -> rr + Z.of_nat k <= u64_max ->
    picks RoundRobin rr loads k = map (fun i => Some (Z.to_nat ((rr + Z.of_nat i) mod zlen loads))) (seq 0 k)).
  { induction k as [|k IH]; intros r Hr Hm; [done|]. cbn [picks pick]. unfold pick.
    replace (zlen loads =? 1) with false by lia. cbn [seq map]. rewrite Z.add_0_r. f_equal.
    rewrite u64_add_small by (unfold u64_max, u64_mod in *; lia). rewrite IH by lia.
    rewrite <- seq_shift, List.map_map. apply List.map_ext.
    intros i. do 3 f_equal. lia. }
  rewrite Hpicks by (done || (unfold zlen in Hmax; lia)). rewrite <- (List.map_map _ Some).
  apply Permutation_map. apply NoDup_Permutation_bis.
  - apply NoDup_ListNoDup, NoDup_fmap_2_strong; [|apply NoDup_seq]. intros i j Hi%elem_of_seq Hj%elem_of_seq Heq.
    assert (Hz : (rr + Z.of_nat i) mod zlen loads = (rr + Z.of_nat j) mod zlen loads).
    { apply Z2Nat.inj in Heq; [done|apply Z.mod_pos_bound; lia..]. }
    pose proof (Z.div_mod (rr + Z.of_nat i) (zlen loads) ltac:(lia)).
    pose proof (Z.div_mod (rr + Z.of_nat j) (zlen loads) ltac:(lia)).
    set (q1 := (rr + Z.of_nat i) / zlen loads) in *. set (q2 := (rr + Z.of_nat j) / zlen loads) in *.
    assert (Hij : Z.of_nat i - Z.of_nat j = zlen loads * (q1 - q2)) by lia.
    assert (Hb : - zlen loads < zlen loads * (q1 - q2) < zlen loads) by (unfold zlen in *; lia).
    assert (q1 = q2) by nia. lia.
  - by rewrite length_map, !length_seq.
  - intros x Hx. apply in_map_iff in Hx as (i & <- & Hi). apply in_seq.
    pose proof (Z.mod_pos_bound (rr + Z.of_nat i) (zlen loads) ltac:(lia)). unfold zlen in *. lia.
Qed.

(** ** A master that keeps its promises *)

Inductive Fault : Type := NoFault | RequestLost | ReplyLost.

Record FaultyMaster : Type := mkFaultyMaster {
  fm_log : list MasterRequest;
  fm_faults : list Fault;
}.

Definition log_ids (log : list MasterRequest) : list FsOpPId := omap request_op_id log.

(** Requests carrying an id are logged once. *)
Definition apply_request (req : MasterRequest) (log : list MasterRequest) : list MasterRequest :=
  match request_op_id req with
  | Some id => if bool_decide (id ∈ log_ids log) then log else log ++ [req]
  | None => log ++ [req]
  end.

Definition unused_id (log : list MasterRequest) : FsOpPId :=
  mkFsOpPId (1 + foldr (fun id n => Z.max (most_significant_bits id) n) 0 (log_ids log)) 0.

Definition unavailable : Error := TransportError "connection reset" "connection reset".

#[export] Instance faulty_net : MasterNet FaultyMaster := {|
  net_send := fun _ req m =>
    let reply := StatusReply (Some default_FileInfo) in
    match fm_faults m with
    | RequestLost :: fs => (mkFaultyMaster (fm_log m) fs, Err unavailable)
    | ReplyLost :: fs => (mkFaultyMaster (apply_request req (fm_log m)) fs, Err unavailable)
    | NoFault :: fs => (mkFaultyMaster (apply_request req (fm_log m)) fs, Ok reply)
    | [] => (mkFaultyMaster (apply_request req (fm_log m)) [], Ok reply)
    end;
  net_connect := fun m => (m, Ok (zlen (fm_faults m)));
  net_op_id := fun m => (m, unused_id (fm_log m));
|}.

Lemma elem_of_log_ids log id : id ∈ log_ids log <-> exists req, req ∈ log /\ request_op_id req = Some id.
Proof. apply list_elem_of_omap. Qed.

Lemma apply_request_cases req log id :
  request_op_id req = Some id ->
  (apply_request req log = log \/ apply_request req log = log ++ [req] /\ ~ id ∈ log_ids log) /\
  id ∈ log_ids (apply_request req log).
Proof.
  intros Hid. unfold apply_request. rewrite Hid. case_bool_decide as Hin; [by split; [left|]|].
  split; [by right|]. apply elem_of_log_ids. exists req. split; [set_solver|done].
Qed.

Lemma unused_id_fresh log : ~ unused_id log ∈ log_ids log.
Proof.
  unfold unused_id. generalize (log_ids log) as ids. intros ids.
  assert (H : Forall (fun id => most_significant_bits id
    <= foldr (fun id n => Z.max (most_significant_bits id) n) 0 ids) ids).
  { induction ids as [|id ids IH]; constructor; cbn; [lia|]. eapply Forall_impl; [exact IH|]. cbn. lia. }
  intros Hin. rewrite Forall_forall in H. specialize (H _ Hin). cbn in H. lia.
Qed.

#[export] Program Instance faulty_exactly_once : ExactlyOnceMaster FaultyMaster := {|
  applied := fm_log;
|}.
Next Obligation.
  intros ch req [log fs] id Hid. cbn. destruct (apply_request_cases req log id Hid) as [H _].
  rewrite elem_of_log_ids in H. destruct fs as [|[] fs]; cbn; tauto.
Qed.
Next Obligation.
  intros ch req [log fs] id reply Hid. cbn. destruct (apply_request_cases req log id Hid) as [_ H].
  rewrite elem_of_log_ids in H. destruct fs as [|[] fs]; cbn; done.
Qed.
Next Obligation. done. Qed.
Next Obligation. done. Qed.
Next Obligation. intros [log fs]. cbn. rewrite <- elem_of_log_ids. apply unused_id_fresh. Qed.

Definition example_config : MasterConfig := mkMasterConfig LoadOnce (-1) false.

(** The first reply is lost, the second request is lost, the third attempt gets through. *)
Definition flaky : FaultyMaster := mkFaultyMaster [] [ReplyLost; RequestLost; NoFault].

Lemma mutation_applied_once_witness :
  let '(s', r) := mutate (fun _ => ""%string) example_config (MutMkdir "/a" true) (from_parts 0, flaky) in
  is_ok r = true /\
  exists id, let common := common_p_options (-1) (Some id) in
    applied (snd s') = [] /\ is_ok r = false \/
    applied (snd s') = [] ++ [CreateDirectoryRequest "/a" true true default_dir_mode (Some common)].
Proof.
  pose proof (mutation_applied_once (fun _ => ""%string) example_config (MutMkdir "/a" true)
                (from_parts 0, flaky)) as H.
  destruct (mutate _ _ _ _) as [s' r] eqn:Heq. split; [|exact H].
  clear H. vm_compute in Heq. by injection Heq as <- <-.
Defined.


(** A namespace whose directory [/d] lists itself, with a trailing slash, and its parent. *)
Definition entry (path : string) (folder : bool) : FileInfo :=
  mkFileInfo None None (Some path) None None None None None (Some folder) None None [] None None
    None None None None [] None None None None None [] None.

Definition small_tree (p : string) : list FileInfo :=
  if String.eqb p "/" then [entry "/f" false; entry "/d" true]
  else if String.eqb p "/d" then [entry "/d/" true; entry "/d/g" false; entry "/" true]
  else [].

Definition still_net : MasterNet unit := {|
  net_send := fun _ req w =>
    (w, match req with
        | ListStatusRequest p _ _ => Ok (ListingReply [Ok (small_tree p)])
        | _ => Ok DoneReply
        end);
  net_connect := fun w => (w, Ok 0);
  net_op_id := fun w => (w, mkFsOpPId 0 0);
|}.

Lemma small_tree_dirs d : reach small_tree "/" d -> d ∈ ["/"; "/d"]%string.
Proof.
  induction 1 as [|d k _ IH Hk]; [set_solver|]. rewrite !elem_of_cons in IH.
  destruct IH as [->|[->|IH]]; [..|set_solver]; vm_compute in Hk; set_solver.
Qed.

Lemma recursive_listing_complete_witness :
  match snd (list_status_with_options (MasterNet0 := still_net) (fun _ => ""%string) example_config 2 "/"
               true None None (from_parts 0, tt)) with
  | None => False
  | Some (Err _) => True
  | Some (Ok out) =>
      exists order, NoDup order /\ (forall d, d ∈ order <-> reach small_tree "/" d) /\
        out = flat_map small_tree order
  end.
Proof.
  apply (recursive_listing_complete (MasterNet0 := still_net) (fun _ => ""%string) example_config small_tree)
    with (dirs := ["/"; "/d"]%string); [|exact small_tree_dirs|done].
  intros ch p load common w reply [= <-]. exists [Ok (small_tree p)]. split; [done|].
  intros items. cbn. rewrite app_nil_r. by intros [= <-].
Defined.

(** [FileSystem::delete] goes through [delete_with_options] and is not counted. *)
Example uncounted_delete :
  mc_delete_ops (fst (fst (delete_with_options (fun _ => ""%string) example_config "/a" default_delete_options
                             (from_parts 0, flaky)))) = 0 /\
  mc_delete_ops (fst (fst (master_delete (fun _ => ""%string) example_config "/a" false (from_parts 0, flaky)))) = 1.
Proof. by vm_compute. Qed.

(** A failed reconnection uses up an attempt: after two of them the request has been sent
    once and the original error is gone. *)
Definition cut_off_net : MasterNet nat := {|
  net_send := fun _ _ sent => (S sent, Err unavailable);
  net_connect := fun sent => (sent, Err (MasterUnavailable "no primary"));
  net_op_id := fun sent => (sent, mkFsOpPId 0 0);
|}.

Example failed_reconnects_spend_attempts :
  let '((_, sent), r) :=
    with_retry (MasterNet0 := cut_off_net) (fun _ => "no primary"%string) "rename"
      (send_unit (MasterNet0 := cut_off_net) (RenameRequest "/a" "/b" false None)) (from_parts 0, 0%nat) in
  sent = 1%nat /\ r = Err (Internal "master reconnect failed: no primary" None).
Proof. by vm_compute. Qed.
