(* ===== verification/Config.v ===== *)
(** * Configuration

    [src/src/config.rs]: the [gfs://] address syntax, the properties file syntax, sizes,
    switches and enum names, the constructors from addresses, and [validate].  The
    theorems are round trips with the printed form and the meaning of a valid
    configuration. *)

From Stdlib Require Import Ascii.
From S2P Require Import Prelude Text MetadataCache FileWriter Master.

(** ** Enumerations by name *)

Inductive WriteType : Type := MustCache | TryCache | CacheThrough | Through | AsyncThrough.

Inductive WritePType : Type :=
| PUnspecifiedWriteType | PMustCache | PTryCache | PCacheThrough | PThrough | PAsyncThrough | PNone.

#[global] Instance WriteType_eq_dec : EqDecision WriteType.
Proof. solve_decision. Defined.

Definition write_type_all : list WriteType := [MustCache; TryCache; CacheThrough; Through; AsyncThrough].

Definition write_type_as_str (wt : WriteType) : string :=
  match wt with
  | MustCache => "must_cache"
  | TryCache => "try_cache"
  | CacheThrough => "cache_through"
  | Through => "through"
  | AsyncThrough => "async_through"
  end.

Definition write_ptype (wt : WriteType) : WritePType :=
  match wt with
  | MustCache => PMustCache
  | TryCache => PTryCache
  | CacheThrough => PCacheThrough
  | Through => PThrough
  | AsyncThrough => PAsyncThrough
  end.

Definition write_ptype_i32 (pt : WritePType) : Z :=
  match pt with
  | PUnspecifiedWriteType => 0 | PMustCache => 1 | PTryCache => 2 | PCacheThrough => 3
  | PThrough => 4 | PAsyncThrough => 5 | PNone => 6
  end.

Definition write_type_as_i32 (wt : WriteType) : Z := write_ptype_i32 (write_ptype wt).

(** [None] is [Err]. *)
Definition write_type_from_str (s : string) : option WriteType :=
  let s := str_map to_ascii_lowercase s in
  if String.eqb s "must_cache" then Some MustCache
  else if String.eqb s "try_cache" then Some TryCache
  else if String.eqb s "cache_through" then Some CacheThrough
  else if String.eqb s "through" then Some Through
  else if String.eqb s "async_through" then Some AsyncThrough
  else None.

Definition write_type_try_from_proto (pt : WritePType) : option WriteType :=
  match pt with
  | PMustCache => Some MustCache
  | PTryCache => Some TryCache
  | PCacheThrough => Some CacheThrough
  | PThrough => Some Through
  | PAsyncThrough => Some AsyncThrough
  | _ => None
  end.

Definition checksum_as_str (t : WriterChecksumType) : string :=
  match t with ChecksumNull => "NULL" | ChecksumCrc32 => "CRC32" | ChecksumCrc32c => "CRC32C" end.

Definition checksum_from_str (s : string) : option WriterChecksumType :=
  let s := str_map to_ascii_uppercase (trim s) in
  if String.eqb s "NULL" || String.eqb s "CHECKSUM_NULL" then Some ChecksumNull
  else if String.eqb s "CRC32" || String.eqb s "CHECKSUM_CRC32" then Some ChecksumCrc32
  else if String.eqb s "CRC32C" || String.eqb s "CHECKSUM_CRC32C" then Some ChecksumCrc32c
  else None.

Definition parse_load_metadata_type (s : string) : option LoadMetadataPType :=
  let s := str_map to_ascii_uppercase (trim s) in
  if String.eqb s "ONCE" then Some LoadOnce
  else if String.eqb s "ALWAYS" then Some LoadAlways
  else if String.eqb s "NEVER" then Some LoadNever
  else None.

(** [replace(['-', '_'], "")]. *)
Fixpoint drop_dashes (s : string) : string :=
  match s with
  | EmptyString => EmptyString
  | String c s => if Ascii.eqb c "-" || Ascii.eqb c "_" then drop_dashes s else String c (drop_dashes s)
  end.

Definition schedule_from_str (s : string) : option MasterPoolSchedule :=
  let s := drop_dashes (str_map to_ascii_lowercase s) in
  if String.eqb s "roundrobin" then Some RoundRobin
  else if String.eqb s "p2c" then Some P2C
  else None.

Definition parse_bool_loose (s : string) : option bool :=
  let s := str_map to_ascii_lowercase (trim s) in
  if String.eqb s "true" || String.eqb s "1" then Some true
  else if String.eqb s "false" || String.eqb s "0" then Some false
  else None.

(** ** Sizes *)

Inductive ByteSizeError : Type := InvalidByteSize | ByteSizeOverflow.

(** A size without its two-letter unit, and the unit's factor. *)
Fixpoint split_unit (s : string) : option (string * Z) :=
  match s with
  | String a (String b EmptyString) =>
      if Ascii.eqb (to_ascii_uppercase b) "B" then
        if Ascii.eqb (to_ascii_uppercase a) "G" then Some (EmptyString, 1073741824)
        else if Ascii.eqb (to_ascii_uppercase a) "M" then Some (EmptyString, 1048576)
        else if Ascii.eqb (to_ascii_uppercase a) "K" then Some (EmptyString, 1024)
        else None
      else None
  | String c s =>
      match split_unit s with Some (num, m) => Some (String c num, m) | None => None end
  | EmptyString => None
  end.

Definition parse_byte_size (s : string) : result ByteSizeError Z :=
  let s := trim s in
  let '(num_str, multiplier) := default (s, 1) (split_unit s) in
  match parse_u64 (trim num_str) with
  | None => Err InvalidByteSize
  | Some n => if n * multiplier <=? u64_max then Ok (n * multiplier) else Err ByteSizeOverflow
  end.

(** ** Addresses *)

Inductive UriParseError : Type := InvalidScheme (input : string) | EmptyAuthority (input : string).

(** Before the first slash, and from it on. *)
Fixpoint split_path (s : string) : string * string :=
  match s with
  | EmptyString => (EmptyString, EmptyString)
  | String c s' =>
      if Ascii.eqb c "/" then (EmptyString, s)
      else let '(a, p) := split_path s' in (String c a, p)
  end.

(** [split(',').map(trim).filter(non-empty)]. *)
Definition split_list (s : string) : list string :=
  List.filter (fun a => negb (String.eqb a EmptyString)) (map trim (split "," s)).

Definition parse_gfs_uri (uri : string) : result UriParseError (list string * string) :=
  match strip_prefix "gfs://" uri with
  | None => Err (InvalidScheme uri)
  | Some rest =>
      let '(authority, root) := split_path rest in
      match split_list authority with
      | [] => Err (EmptyAuthority uri)
      | addrs => Ok (addrs, trim_end_slashes root)
      end
  end.

(** ** Properties files *)

(** [str::lines]: at line feeds, a carriage return before one dropped, and no empty last line. *)
Fixpoint strip_cr (s : string) : string :=
  match s with
  | String c EmptyString => if Ascii.eqb c "013" then EmptyString else s
  | String c s => String c (strip_cr s)
  | EmptyString => EmptyString
  end.

(** Every part but the last ended with a line feed. *)
Fixpoint line_parts (parts : list string) : list string :=
  match parts with
  | [] => []
  | [last] => match last with EmptyString => [] | _ => [last] end
  | l :: parts => strip_cr l :: line_parts parts
  end.

Definition lines (s : string) : list string := line_parts (split "010" s).

Definition is_comment (s : string) : bool :=
  match s with
  | EmptyString => true
  | String c _ => Ascii.eqb c "#" || Ascii.eqb c "!"
  end.

Definition parse_property (line : string) : option (string * string) :=
  let trimmed := trim line in
  if is_comment trimmed then None
  else
    match (match split_once "=" trimmed with Some kv => Some kv | None => split_once ":" trimmed end) with
    | None => None
    | Some (k, v) =>
        let key := trim k in
        if String.eqb key EmptyString then None else Some (key, trim v)
    end.

Definition properties_parse (content : string) : gmap string string :=
  foldl (fun m line => match parse_property line with Some (k, v) => <[k := v]> m | None => m end)
    ∅ (lines content).

Definition get_bool (props : gmap string string) (key : string) : option bool :=
  v ← props !! key; parse_bool_loose v.

Definition get_list (props : gmap string string) (key : string) : option (list string) :=
  split_list <$> props !! key.

(** ** The configuration *)

(** The fields the constructors set and [validate] looks at; durations in nanoseconds. *)
Record GoosefsConfig : Type := mkGoosefsConfig {
  gc_master_addr : string;
  gc_master_addrs : list string;
  gc_root : string;
  gc_block_size : Z;
  gc_chunk_size : Z;
  gc_write_type : option Z;
  gc_metadata_cache_enabled : bool;
  gc_client_cache_enabled : bool;
  gc_client_cache_uring_enabled : bool;
  gc_pushgateway_enabled : bool;
  gc_metrics_heartbeat_interval : Z;
  gc_metrics_heartbeat_timeout : Z;
}.

Definition MIN_METRICS_HEARTBEAT_INTERVAL_MS : Z := 1000.

(** The crate features compiled in. *)
Record Features : Type := mkFeatures {
  ft_metadata_cache : bool;
  ft_page_cache : bool;
  ft_page_cache_io_uring : bool;
  ft_metrics_pushgateway : bool;
}.

Section Constructors.
(** [Default::default()]. *)
Context (default_config : GoosefsConfig).

Definition with_masters (addr : string) (addrs : list string) : GoosefsConfig :=
  let 'mkGoosefsConfig _ _ r b ch w m c u p i t := default_config in
  mkGoosefsConfig addr addrs r b ch w m c u p i t.

Definition config_new (addr : string) : GoosefsConfig :=
  with_masters addr (gc_master_addrs default_config).

(** [None] is a panic on an empty list. *)
Definition new_ha (addrs : list string) : option GoosefsConfig :=
  match addrs with
  | [] => None
  | a :: _ => Some (with_masters a addrs)
  end.

Definition from_addresses (addrs : list string) : option GoosefsConfig :=
  match addrs with
  | [] => None
  | [a] => Some (config_new a)
  | _ => new_ha addrs
  end.

Definition with_root (cfg : GoosefsConfig) (root : string) : GoosefsConfig :=
  let 'mkGoosefsConfig a l _ b ch w m c u p i t := cfg in
  mkGoosefsConfig a l root b ch w m c u p i t.

Definition from_uri (uri : string) : result UriParseError (option GoosefsConfig) :=
  let? parsed := parse_gfs_uri uri in
  let '(addrs, root) := parsed in
  Ok (cfg ← from_addresses addrs;
      Some (if String.eqb root EmptyString then cfg else with_root cfg root)).
End Constructors.

Definition master_addresses (cfg : GoosefsConfig) : list string :=
  match gc_master_addrs cfg with
  | [] => [gc_master_addr cfg]
  | addrs => addrs
  end.

Definition is_multi_master (cfg : GoosefsConfig) : bool := (1 <? length (gc_master_addrs cfg))%nat.

Fixpoint trim_start_slashes (s : string) : string :=
  match s with
  | String c s' => if Ascii.eqb c "/" then trim_start_slashes s' else s
  | EmptyString => EmptyString
  end.

Definition full_path (cfg : GoosefsConfig) (path : string) : string :=
  if String.eqb (gc_root cfg) EmptyString then path
  else trim_end_slashes (gc_root cfg) +:+ "/" +:+ trim_start_slashes path.

Definition get_write_type (cfg : GoosefsConfig) : option WritePType :=
  v ← gc_write_type cfg;
  List.find (fun pt => write_ptype_i32 pt =? v)
    [PUnspecifiedWriteType; PMustCache; PTryCache; PCacheThrough; PThrough; PAsyncThrough; PNone].

Inductive ConfigProblem : Type :=
| MissingFeature (feature : string)
| NoMasterAddress
| EmptyMasterAddress
| ZeroBlockSize
| ZeroChunkSize
| ChunkLargerThanBlock
| HeartbeatIntervalTooShort
| HeartbeatTimeoutTooShort
| HeartbeatTimeoutTooLong.

Definition validate (ft : Features) (cfg : GoosefsConfig) : result ConfigProblem unit :=
  if negb (ft_metadata_cache ft) && gc_metadata_cache_enabled cfg then Err (MissingFeature "metadata-cache")
  else if negb (ft_page_cache ft) && gc_client_cache_enabled cfg then Err (MissingFeature "page-cache")
  else if negb (ft_page_cache_io_uring ft) && (gc_client_cache_enabled cfg && gc_client_cache_uring_enabled cfg)
  then Err (MissingFeature "page-cache-io-uring")
  else if negb (ft_metrics_pushgateway ft) && gc_pushgateway_enabled cfg
  then Err (MissingFeature "metrics-pushgateway")
  else if String.eqb (gc_master_addr cfg) EmptyString && bool_decide (gc_master_addrs cfg = [])
  then Err NoMasterAddress
  else if existsb (String.eqb EmptyString) (gc_master_addrs cfg) then Err EmptyMasterAddress
  else if gc_block_size cfg =? 0 then Err ZeroBlockSize
  else if gc_chunk_size cfg =? 0 then Err ZeroChunkSize
  else if gc_block_size cfg <? gc_chunk_size cfg then Err ChunkLargerThanBlock
  else if gc_metrics_heartbeat_interval cfg <? MIN_METRICS_HEARTBEAT_INTERVAL_MS * 1000000
  then Err HeartbeatIntervalTooShort
  else if gc_metrics_heartbeat_timeout cfg <? 1000000000 then Err HeartbeatTimeoutTooShort
  else if gc_metrics_heartbeat_interval cfg <=? gc_metrics_heartbeat_timeout cfg
  then Err HeartbeatTimeoutTooLong
  else Ok tt.

(** ** Strings that survive trimming and splitting *)

Definition lacks (c : ascii) (s : string) : Prop := str_forall (fun d => negb (Ascii.eqb c d)) s.

Definition no_space (s : string) : Prop := str_forall (fun c => negb (is_space c)) s.

Definition join (sep : ascii) : list string -> string :=
  fix go (l : list string) : string :=
    match l with
    | [] => EmptyString
    | [s] => s
    | s :: l => s +:+ String sep (go l)
    end.

Lemma append_cons c s t : String c s +:+ t = String c (s +:+ t).
Proof. done. Qed.

Lemma append_nil_r s : s +:+ EmptyString = s.
Proof. induction s as [|c s IH]; [done|]. rewrite append_cons. by f_equal. Qed.

Lemma split_lacks c s : lacks c s -> split c s = [s].
Proof.
  induction s as [|d s IH]; intros Hs; [done|]. inversion Hs as [|? ? Hd Hs']; subst. cbn.
  by rewrite (proj1 (negb_true_iff _) Hd), IH.
Qed.

Lemma split_append c s t : lacks c s -> split c (s +:+ String c t) = s :: split c t.
Proof.
  induction s as [|d s IH]; intros Hs.
  - change (EmptyString +:+ String c t) with (String c t). cbn. by rewrite Ascii.eqb_refl.
  - inversion Hs as [|? ? Hd Hs']; subst. rewrite append_cons. cbn.
    by rewrite (proj1 (negb_true_iff _) Hd), IH.
Qed.

Lemma split_join c l : l <> [] -> Forall (lacks c) l -> split c (join c l) = l.
Proof.
  induction l as [|s l IH]; [done|]. intros _ [Hs Hl]%Forall_cons. destruct l as [|s' l]; [by apply split_lacks|].
  change (join c (s :: s' :: l)) with (s +:+ String c (join c (s' :: l))).
  rewrite split_append by done. by rewrite IH.
Qed.

Lemma split_path_append a p :
  lacks "/" a -> (p = EmptyString \/ exists q, p = String "/" q) -> split_path (a +:+ p) = (a, p).
Proof.
  intros Ha Hp. induction a as [|c a IH].
  - destruct Hp as [->|(q & ->)]; done.
  - inversion Ha as [|? ? Hc Ha']; subst. rewrite append_cons. cbn. rewrite (IH Ha').
    rewrite Ascii.eqb_sym, (proj1 (negb_true_iff _) Hc). done.
Qed.

Lemma lacks_join c d l : c <> d -> Forall (lacks c) l -> lacks c (join d l).
Proof.
  intros Hne. induction 1 as [|s l Hs Hl IH]; [constructor|]. destruct l as [|s' l]; [done|].
  change (join d (s :: s' :: l)) with (s +:+ String d (join d (s' :: l))).
  apply str_forall_app. split; [done|]. constructor; [|done]. by destruct (Ascii.eqb_spec c d).
Qed.

(** ** The address syntax *)

Definition print_uri (addrs : list string) (root : string) : string := "gfs://" +:+ join "," addrs +:+ root.

(** A master address as it can appear in a URI. *)
Definition plain_address (a : string) : Prop :=
  a <> EmptyString /\ lacks "," a /\ lacks "/" a /\ no_space a.

Definition plain_root (root : string) : Prop :=
  (root = EmptyString \/ exists q, root = String "/" q) /\ trim_end_slashes root = root.

Lemma split_list_join addrs : addrs <> [] -> Forall plain_address addrs -> split_list (join "," addrs) = addrs.
Proof.
  intros Hne Hall. unfold split_list. rewrite split_join; [|done|].
  - clear Hne. induction Hall as [|a l (Ha & _ & _ & Hs) Hl IH]; [done|]. cbn. rewrite trim_no_space by done.
    destruct (String.eqb_spec a EmptyString); [done|]. cbn. by f_equal.
  - eapply Forall_impl; [exact Hall|]. by intros a (_ & ? & _).
Qed.

Lemma parse_print_uri addrs root :
  addrs <> [] -> Forall plain_address addrs -> plain_root root ->
  parse_gfs_uri (print_uri addrs root) = Ok (addrs, root).
Proof.
  intros Hne Hall [Hroot Htrim]. unfold parse_gfs_uri, print_uri.
  change (strip_prefix "gfs://" ("gfs://" +:+ join "," addrs +:+ root)) with (Some (join "," addrs +:+ root)).
  cbv iota. rewrite split_path_append; [|apply lacks_join; [done|]|done].
  - rewrite split_list_join by done. rewrite Htrim. by destruct addrs.
  - eapply Forall_impl; [exact Hall|]. by intros a (_ & _ & ? & _).
Qed.

(** An address list and a root survive the trip through a URI: the configuration made
    from the printed form has these masters, in this order, and this root. *)
Theorem gfs_uri_roundtrip (default_config : GoosefsConfig) (addrs : list string) (root : string) :
  gc_master_addrs default_config = [] -> gc_root default_config = EmptyString ->
  addrs <> [] -> Forall plain_address addrs -> plain_root root ->
  exists cfg, from_uri default_config (print_uri addrs root) = Ok (Some cfg) /\
    master_addresses cfg = addrs /\ gc_root cfg = root /\
    is_multi_master cfg = (1 <? length addrs)%nat.
Proof.
  intros Hd Hr Hne Hall Hroot. unfold from_uri. rewrite parse_print_uri by done. cbn.
  unfold from_addresses, config_new, new_ha, with_masters.
  destruct default_config as [a0 l0 r0 b ch w m c u p i t]. cbn in Hd, Hr. subst.
  destruct addrs as [|a [|a' addrs]]; [done|..]; cbn;
    (destruct (String.eqb_spec root EmptyString) as [->|_]; eexists; (split; [reflexivity|]); done).
Qed.

(** ** Properties files *)

Definition newline : ascii := "010".

Definition print_property (kv : string * string) : string := fst kv +:+ "=" +:+ snd kv.

Definition print_properties (kvs : list (string * string)) : string :=
  foldr (fun kv s => print_property kv +:+ String newline s) EmptyString kvs.

Definition trimmed (s : string) : Prop := trim_start s = s /\ trim_end s = s.

Definition plain_key (k : string) : Prop :=
  k <> EmptyString /\ trimmed k /\ lacks "=" k /\ lacks newline k /\ is_comment k = false.

Definition plain_value (v : string) : Prop := trimmed v /\ lacks newline v.

Lemma trim_end_append a b : b <> EmptyString -> trim_end b = b -> trim_end (a +:+ b) = a +:+ b.
Proof.
  intros Hb Ht. induction a as [|c a IH]; [done|]. rewrite append_cons. cbn. rewrite IH.
  destruct a; [|done]. change (EmptyString +:+ b) with b. by destruct b.
Qed.

Lemma strip_cr_trimmed s : trim_end s = s -> strip_cr s = s.
Proof.
  induction s as [|c s IH]; [done|]. destruct s as [|d s].
  - cbn. destruct (is_space c) eqn:Hc; [done|]. intros _.
    destruct (Ascii.eqb_spec c "013") as [->|]; [by vm_compute in Hc|done].
  - intros Ht. cbn [strip_cr]. f_equal. apply IH. revert Ht. generalize (String d s) as t. intros t. cbn.
    destruct (trim_end t) as [|d' t'] eqn:Hd; [|congruence].
    destruct (is_space c); [done|]. intros [= <-]. done.
Qed.

Lemma print_property_trimmed k v : plain_key k -> plain_value v ->
  trim_start (print_property (k, v)) = print_property (k, v) /\
  trim_end (print_property (k, v)) = print_property (k, v).
Proof.
  intros (Hne & [Hs _] & _) ([_ He] & _). unfold print_property. cbn [fst snd]. split.
  - destruct k as [|c k]; [done|]. rewrite append_cons. cbn in Hs |- *. destruct (is_space c); [|done].
    exfalso. assert (Hlen : forall t, (String.length (trim_start t) <= String.length t)%nat).
    { induction t as [|x t IHt]; cbn; [lia|]. destruct (is_space x); cbn; lia. }
    specialize (Hlen k). rewrite Hs in Hlen. cbn in Hlen. lia.
  - apply trim_end_append; [done|]. change ("=" +:+ v) with (String "=" v). cbn. rewrite He. by destruct v.
Qed.

Lemma parse_print_property k v :
  plain_key k -> plain_value v -> parse_property (strip_cr (print_property (k, v))) = Some (k, v).
Proof.
  intros Hk Hv. destruct (print_property_trimmed k v Hk Hv) as [H1 H2]. rewrite strip_cr_trimmed by done.
  unfold parse_property, trim. rewrite H1, H2.
  destruct Hk as (Hne & [Hks Hke] & Heq & _ & Hcom), Hv as [[Hvs Hve] _].
  assert (Hc : is_comment (print_property (k, v)) = false) by by destruct k.
  rewrite Hc. unfold print_property. cbn [fst snd]. change ("=" +:+ v) with (String "=" v).
  rewrite (split_once_app "=" k v Heq). cbv iota. rewrite Hks, Hke, Hvs, Hve.
  destruct (String.eqb_spec k EmptyString); done.
Qed.

Lemma line_parts_cons l parts : parts <> [] -> line_parts (l :: parts) = strip_cr l :: line_parts parts.
Proof. by destruct parts. Qed.

Lemma split_nonempty c s : split c s <> [].
Proof. destruct s as [|d s]; [done|]. cbn. destruct (Ascii.eqb c d); [done|]. by destruct (split c s). Qed.

Lemma lines_print kvs :
  Forall (fun kv => plain_key (fst kv) /\ plain_value (snd kv)) kvs ->
  lines (print_properties kvs) = map (fun kv => strip_cr (print_property kv)) kvs.
Proof.
  unfold lines. induction 1 as [|[k v] kvs [Hk Hv] _ IH]; [done|]. cbn [print_properties foldr].
  fold (print_properties kvs). change "010"%char with newline in *. rewrite split_append.
  - rewrite line_parts_cons by apply split_nonempty. cbn [map]. by rewrite IH.
  - unfold print_property. apply str_forall_app. split; [apply Hk|]. apply str_forall_app.
    split; [by repeat constructor|apply Hv].
Qed.

(** Properties survive the trip through a file: what was printed, one [key=value] line
    each, is what is read, a later line for a key replacing an earlier one. *)
Theorem properties_roundtrip (kvs : list (string * string)) :
  Forall (fun kv => plain_key (fst kv) /\ plain_value (snd kv)) kvs ->
  properties_parse (print_properties kvs) = foldl (fun m kv => <[fst kv := snd kv]> m) ∅ kvs.
Proof.
  intros Hall. unfold properties_parse. rewrite lines_print by done.
  generalize (∅ : gmap string string) as m. induction Hall as [|[k v] kvs [Hk Hv] _ IH]; intros m; [done|].
  cbn [map foldl]. rewrite parse_print_property by done. cbn. apply IH.
Qed.

(** The separator is the first [=] of the line even when a [:] comes before it. *)
Theorem properties_prefer_equals :
  parse_property "store:uri=cos://bucket" = Some ("store:uri", "cos://bucket")%string /\
  parse_property "store:cos//bucket" = Some ("store", "cos//bucket")%string.
Proof. by vm_compute. Qed.

(** ** Sizes *)

Lemma split_unit_append s a b : split_unit (s +:+ String a (String b EmptyString)) =
  match split_unit (String a (String b EmptyString)) with Some (_, m) => Some (s, m) | None => None end.
Proof.
  induction s as [|c s IH].
  - change (EmptyString +:+ String a (String b EmptyString)) with (String a (String b EmptyString)). cbn.
    repeat case_match; simplify_eq; done.
  - rewrite append_cons.
    assert (Hlong : exists x y t, s +:+ String a (String b EmptyString) = String x (String y t)).
    { destruct s as [|x [|y t]]; [by exists a, b, EmptyString|exists x, a, (String b EmptyString)|
        exists x, y, (t +:+ String a (String b EmptyString))]; done. }
    destruct Hlong as (x & y & t & Hlong). rewrite Hlong in *.
    transitivity (match split_unit (String x (String y t)) with
                  | Some (num, m) => Some (String c num, m) | None => None end); [done|].
    rewrite IH. by destruct (split_unit (String a (String b EmptyString))) as [[? ?]|].
Qed.

Lemma split_unit_digits s : str_forall is_numeral s -> split_unit s = None.
Proof.
  induction s as [|c s IH]; [done|]. intros Hs. inversion Hs as [|? ? Hc Hs']; subst.
  destruct s as [|b [|d s]]; [done| |].
  - inversion Hs' as [|? ? Hb _]; subst. clear -Hb. cbn.
    destruct b as [[] [] [] [] [] [] [] []]; vm_compute in Hb; done.
  - transitivity (match split_unit (String b (String d s)) with
                  | Some (num, m) => Some (String c num, m) | None => None end); [done|].
    by rewrite (IH Hs').
Qed.

(** The suffixes and their factors. *)
Definition units : list (string * Z) :=
  [(""%string, 1); ("KB"%string, 1024); ("MB"%string, 1048576); ("GB"%string, 1073741824);
   ("kb"%string, 1024); ("mb"%string, 1048576); ("gb"%string, 1073741824)].

(** A size is read exactly or refused: a number with a unit gives the product when that
    fits 64 bits, and an overflow error when it does not, never a wrapped value. *)
Theorem parse_byte_size_exact (n : Z) (unit : string) (factor : Z) :
  0 <= n <= u64_max -> (unit, factor) ∈ units ->
  parse_byte_size (show_nonneg n +:+ unit) =
    if n * factor <=? u64_max then Ok (n * factor) else Err ByteSizeOverflow.
Proof.
  intros Hn Hu. assert (Hnum : str_forall is_numeral (show_nonneg n)).
  { pose proof (show_Z_numeral n) as H. unfold show_Z in H. by replace (n <? 0) with false in H by lia. }
  assert (Hns : no_space (show_nonneg n)) by (eapply str_forall_weaken; [apply numeral_not_space|done]).
  unfold parse_byte_size, units in *. rewrite !elem_of_cons in Hu.
  assert (Hunit : trim (show_nonneg n +:+ unit) = show_nonneg n +:+ unit).
  { apply trim_no_space, str_forall_app. split; [done|].
    destruct_or! Hu; try (by apply elem_of_nil in Hu); simplify_eq; by repeat constructor. }
  rewrite Hunit. destruct_or! Hu; try (by apply elem_of_nil in Hu); injection Hu as -> ->.
  { rewrite append_nil_r, split_unit_digits by done. cbn [default].
    unfold id. rewrite trim_no_space, parse_u64_show by done. done. }
  all: rewrite split_unit_append;
    match goal with |- context [split_unit ?u] =>
      let v := eval vm_compute in (split_unit u) in change (split_unit u) with v end;
    unfold default, id; cbv iota beta; rewrite trim_no_space, parse_u64_show by done; done.
Qed.

(** ** Names *)

Lemma eq_ignore_case_spec s t :
  eq_ignore_ascii_case s t = true <-> str_map to_ascii_lowercase s = str_map to_ascii_lowercase t.
Proof.
  revert t. induction s as [|a s IH]; intros [|b t]; cbn; [done|done|done|].
  rewrite andb_true_iff, Ascii.eqb_eq, IH. split; [by intros [-> ->]|by intros [= -> ->]].
Qed.

(** A write type is known by its name in any case, and by nothing else; and it survives
    the trip through its protobuf number. *)
Theorem write_type_names (s : string) (wt : WriteType) (cfg : GoosefsConfig) :
  (write_type_from_str s = Some wt <-> eq_ignore_ascii_case s (write_type_as_str wt) = true) /\
  (gc_write_type cfg = Some (write_type_as_i32 wt) ->
   (get_write_type cfg ≫= write_type_try_from_proto) = Some wt).
Proof.
  split.
  - rewrite eq_ignore_case_spec. unfold write_type_from_str.
    generalize (str_map to_ascii_lowercase s) as l. intros l.
    destruct (String.eqb_spec l "must_cache") as [->|]; [by destruct wt|].
    destruct (String.eqb_spec l "try_cache") as [->|]; [by destruct wt|].
    destruct (String.eqb_spec l "cache_through") as [->|]; [by destruct wt|].
    destruct (String.eqb_spec l "through") as [->|]; [by destruct wt|].
    destruct (String.eqb_spec l "async_through") as [->|]; [by destruct wt|].
    by destruct wt.
  - unfold get_write_type. intros ->. by destruct wt.
Qed.

(** ** Validation *)

(** Every switched-on part of the client was compiled in. *)
Definition features_cover (ft : Features) (cfg : GoosefsConfig) : Prop :=
  (gc_metadata_cache_enabled cfg = true -> ft_metadata_cache ft = true) /\
  (gc_client_cache_enabled cfg = true -> ft_page_cache ft = true) /\
  (gc_client_cache_enabled cfg = true -> gc_client_cache_uring_enabled cfg = true ->
   ft_page_cache_io_uring ft = true) /\
  (gc_pushgateway_enabled cfg = true -> ft_metrics_pushgateway ft = true).

Lemma features_checked ft cfg :
  (negb (ft_metadata_cache ft) && gc_metadata_cache_enabled cfg = false /\
   negb (ft_page_cache ft) && gc_client_cache_enabled cfg = false /\
   negb (ft_page_cache_io_uring ft) && (gc_client_cache_enabled cfg && gc_client_cache_uring_enabled cfg) = false /\
   negb (ft_metrics_pushgateway ft) && gc_pushgateway_enabled cfg = false) <-> features_cover ft cfg.
Proof.
  unfold features_cover. destruct ft as [[] [] [] []]; cbn;
    destruct (gc_metadata_cache_enabled cfg), (gc_client_cache_enabled cfg),
      (gc_client_cache_uring_enabled cfg), (gc_pushgateway_enabled cfg); cbn; naive_solver.
Qed.

Lemma addresses_checked cfg :
  String.eqb (gc_master_addr cfg) EmptyString && bool_decide (gc_master_addrs cfg = []) = false /\
  existsb (String.eqb EmptyString) (gc_master_addrs cfg) = false <->
  Forall (fun a => a <> EmptyString) (master_addresses cfg).
Proof.
  unfold master_addresses. destruct (gc_master_addrs cfg) as [|a l] eqn:Hl.
  - rewrite bool_decide_eq_true_2, andb_true_r, String.eqb_neq, Forall_singleton by done. by split; [intros []|].
  - rewrite bool_decide_eq_false_2, andb_false_r by done. rewrite <- Hl. clear. split.
    + intros [_ H]. apply Forall_forall. intros b Hb ->. rewrite <- not_true_iff_false in H. apply H.
      apply existsb_exists. exists EmptyString. by rewrite <- list_elem_of_In.
    + intros H. split; [done|]. apply not_true_iff_false. intros (b & Hb & He)%existsb_exists.
      apply String.eqb_eq in He as <-. rewrite Forall_forall in H. apply (H EmptyString); [|done].
      by rewrite list_elem_of_In.
Qed.

(** A configuration is accepted exactly when it can work: all master addresses the client
    would use are non-empty, chunks are positive and fit a block, the heartbeat timeout is
    at least a second and shorter than the interval, and no switched-on feature is missing. *)
Theorem validate_accepts_exactly (ft : Features) (cfg : GoosefsConfig) :
  0 <= gc_block_size cfg -> 0 <= gc_chunk_size cfg ->
  validate ft cfg = Ok tt <->
  features_cover ft cfg /\ Forall (fun a => a <> EmptyString) (master_addresses cfg) /\
  0 < gc_chunk_size cfg <= gc_block_size cfg /\
  1000000000 <= gc_metrics_heartbeat_timeout cfg < gc_metrics_heartbeat_interval cfg.
Proof.
  intros Hb Hc. rewrite <- features_checked, <- addresses_checked. unfold validate, MIN_METRICS_HEARTBEAT_INTERVAL_MS.
  repeat (match goal with |- context [if ?b then _ else _] => destruct b eqn:?; [split; [done|]; intros; exfalso; intuition (congruence || lia)|] end).
  split; [intros _|done]. repeat split; lia || done.
Qed.

(** ** Witnesses *)

Definition sample_config : GoosefsConfig :=
  mkGoosefsConfig "127.0.0.1:9200" [] "" 67108864 1048576 None false false false false 10000000000 5000000000.

Lemma gfs_uri_roundtrip_witness :
  exists cfg, from_uri sample_config (print_uri ["a:9200"; "b:9200"]%string "/data") = Ok (Some cfg) /\
    master_addresses cfg = ["a:9200"; "b:9200"]%string /\ gc_root cfg = "/data"%string /\
    is_multi_master cfg = (1 <? 2)%nat.
Proof.
  apply gfs_uri_roundtrip; [reflexivity|reflexivity|done| |].
  - repeat constructor; done.
  - split; [right; by exists "data"%string|reflexivity].
Defined.

Lemma properties_roundtrip_witness :
  properties_parse (print_properties [("a", "1"); ("b.c", "x y"); ("a", "")]%string)
  = <["a" := ""]> (<["b.c" := "x y"]> (<["a" := "1"]> ∅))%string.
Proof. apply properties_roundtrip. repeat constructor; done. Defined.

Lemma parse_byte_size_exact_witness :
  parse_byte_size (show_nonneg 64 +:+ "MB") = Ok 67108864 /\
  parse_byte_size (show_nonneg 99999999999 +:+ "GB") = Err ByteSizeOverflow.
Proof.
  split.
  - apply (parse_byte_size_exact 64 "MB" 1048576); [vm_compute; split; congruence|unfold units; set_solver].
  - apply (parse_byte_size_exact 99999999999 "GB" 1073741824); [vm_compute; split; congruence|unfold units; set_solver].
Defined.

Lemma validate_accepts_exactly_witness :
  validate (mkFeatures true true true true) sample_config = Ok tt <->
  features_cover (mkFeatures true true true true) sample_config /\
  Forall (fun a => a <> EmptyString) ["127.0.0.1:9200"%string] /\
  0 < 1048576 <= 67108864 /\ 1000000000 <= 5000000000 < 10000000000.
Proof. apply (validate_accepts_exactly (mkFeatures true true true true) sample_config); cbn; lia. Defined.
