(* ===== verification/PyWriter.v ===== *)
(** * Python bindings: the file writers (src/bindings/python/src/streaming.rs)

    [AsyncFileWriter] and [FileWriter]: a writer of the SDK that [close] and [cancel] take out
    of the object, and the [with] statement over it.  The first half is a small logic for the
    effects a computation cannot emit, by which a cancelled file is never completed. *)

From Stdlib Require Import Ascii.
From S2P Require Import Prelude Text Errors Proto HashRing Router Crc ReplicaPlan BlockWriter.
From S2P Require Import BlockWriterFacts FileWriter FileWriterFacts FileWriterProps FileWriterInv.
From S2P Require Import StreamOwnership WriterTermination FileWriterTheorems AsyncReader PyErrors Config PyStream.

(** ** Effects a computation cannot emit *)

Definition avoids {A : Type} (bad : Effect -> bool) (m : IO A) : Prop :=
  forall w w' a, m w = (w', a) -> forall e r, bad e = true -> (e, r) ∈ w_trace w' -> (e, r) ∈ w_trace w.

Definition is_complete (e : Effect) : bool :=
  match e with EvCompleteFile _ => true | _ => false end.

Create HintDb avoids.

Section Avoids.
Context (bad : Effect -> bool).

Lemma avoids_ret {A : Type} (a : A) : avoids bad (io_ret a).
Proof. by intros w w' a' [= <- <-]. Qed.

Lemma avoids_bind {A B : Type} (m : IO A) (k : A -> IO B) :
  avoids bad m -> (forall a, avoids bad (k a)) -> avoids bad (io_bind m k).
Proof.
  intros Hm Hk w w' b. unfold io_bind. destruct (m w) as [w1 a] eqn:H1. intros H2 e r He Hin.
  eapply Hm; [done..|]. by eapply Hk.
Qed.

Lemma avoids_attempt env e : bad e = false -> avoids bad (attempt env e).
Proof.
  intros He w w' r. unfold attempt. intros [= <- _] e' r' He' [Heq|Hin]%elem_of_cons; [|done].
  injection Heq as -> _. congruence.
Qed.

Lemma avoids_now env : avoids bad (now env).
Proof. by intros w w' a [= <- <-]. Qed.

Lemma avoids_each {A : Type} (f : A -> IO unit) l :
  (forall x, avoids bad (f x)) -> avoids bad (io_each f l).
Proof. intros Hf. induction l; cbn; [apply avoids_ret|by apply avoids_bind]. Qed.

(** Drawing a handle emits nothing. *)
Lemma avoids_fresh {A : Type} (m : nat -> IO A) :
  (forall h, avoids bad (m h)) ->
  avoids bad (fun w => m (w_next w) (mkWorld (w_trace w) (S (w_next w)))).
Proof. intros Hm w w' a H e r He Hin. exact (Hm _ _ _ _ H e r He Hin). Qed.
End Avoids.

(** The rules, applied to the shape of the code. *)
Ltac avoid := repeat first
  [ apply avoids_ret
  | apply avoids_attempt; reflexivity
  | apply avoids_now
  | solve [auto with avoids]
  | apply avoids_each; intros ?
  | apply avoids_bind; [|intros ?]
  | case_match ].

(** ** Writing and cancelling never complete a file *)

Section NeverCompletes.
Context (env : WriteEnv) (cfg : WriterConfig) (file_info : FileInfo) (strategy : WriteStrategy).
Context (shared : WorkerRouter) (operation_id : Z).

Abbreviation silent m := (avoids is_complete m).

Lemma silent_perform e : is_complete e = false -> silent (perform env e).
Proof. intros He. unfold perform. apply avoids_bind; [by apply avoids_attempt|]. intros ?. avoid. Qed.
#[local] Hint Extern 1 (avoids is_complete (perform _ _)) => (apply silent_perform; reflexivity) : avoids.

Lemma silent_open addr id space options : silent (writer_open env addr id space options).
Proof.
  apply (avoids_fresh _ (fun h => try! _ := attempt env (EvOpen h addr id space options) in
                                   io_ret (Ok (mkGrpcBlockWriter id 0 h)))).
  intros h. avoid.
Qed.
#[local] Hint Resolve silent_open : avoids.

Lemma silent_write_chunk g data : silent (writer_write_chunk env g data).
Proof. unfold writer_write_chunk. avoid. Qed.
Lemma silent_flush g : silent (writer_flush env g).
Proof. unfold writer_flush. avoid. Qed.
Lemma silent_close g : silent (writer_close env g).
Proof. unfold writer_close. avoid. Qed.
Lemma silent_cancel g : silent (writer_cancel env g).
Proof. unfold writer_cancel. avoid. Qed.
#[local] Hint Resolve silent_write_chunk silent_flush silent_close silent_cancel : avoids.

Lemma silent_write_all g data cs : silent (writer_write_all env g data cs).
Proof.
  unfold writer_write_all. generalize (length data) as fuel, 0 as offset. intros fuel. revert g.
  induction fuel as [|fuel IH]; intros g offset; cbn [write_all_loop]; avoid.
Qed.

Lemma silent_cancel_all rs : silent (cancel_all env rs).
Proof. unfold cancel_all. avoid. Qed.
#[local] Hint Resolve silent_write_all silent_cancel_all : avoids.

(** *** The replicas of a block *)

Lemma silent_send_sequential rs kept data : silent (send_sequential env rs kept data).
Proof. revert kept. induction rs as [|r rs IH]; intros kept; cbn [send_sequential]; avoid. Qed.

Lemma silent_replica_op op r : silent (replica_op env op r).
Proof. unfold replica_op. avoid. Qed.

Lemma silent_abort_fate b : silent (abort_fate env b).
Proof. by intros w w' a [= <- <-]. Qed.
#[local] Hint Resolve silent_send_sequential silent_replica_op silent_abort_fate : avoids.

Lemma silent_join op size need rs kept n : silent (join_replicas env op size need rs kept n).
Proof. revert kept n. induction rs as [|r rs IH]; intros kept n; cbn [join_replicas]; avoid. Qed.
#[local] Hint Resolve silent_join : avoids.

Lemma silent_fanout rs need id op : silent (fanout_parallel env rs need id op).
Proof. unfold fanout_parallel. avoid. Qed.
#[local] Hint Resolve silent_fanout : avoids.

Lemma silent_active_write a data : silent (active_write_chunk env a data).
Proof. unfold active_write_chunk. avoid. Qed.

Lemma silent_flush_each rs : silent (flush_each env rs).
Proof. induction rs as [|r rs IH]; cbn [flush_each]; avoid. Qed.
#[local] Hint Resolve silent_active_write silent_flush_each : avoids.

Lemma silent_flush_replicas a : silent (flush_replicas env a).
Proof. unfold flush_replicas. avoid. Qed.

Lemma silent_close_replicas a : silent (close_replicas env a).
Proof.
  unfold close_replicas. generalize (aw_replicas a) as rs, (None : option Error) as e.
  induction rs as [|r rs IH]; intros e; cbn [close_each]; avoid.
Qed.

Lemma silent_cancel_replicas a : silent (cancel_replicas env a).
Proof. unfold cancel_replicas. avoid. Qed.

Lemma silent_emit_loop fuel a src offset cs : silent (emit_loop env fuel a src offset cs).
Proof. revert a offset. induction fuel as [|fuel IH]; intros a offset; cbn [emit_loop]; avoid. Qed.
#[local] Hint Resolve silent_flush_replicas silent_close_replicas silent_cancel_replicas silent_emit_loop : avoids.

Lemma silent_emit a src cs : silent (emit_aligned_chunks env a src cs).
Proof. unfold emit_aligned_chunks. avoid. Qed.
#[local] Hint Resolve silent_emit : avoids.

(** *** The file *)

Lemma silent_blacklist f addr a : silent (blacklist env f addr a).
Proof. unfold blacklist. avoid. Qed.
#[local] Hint Resolve silent_blacklist : avoids.

Lemma silent_open_ufs f : silent (open_ufs_stream env strategy f).
Proof.
  intros w w' out. unfold open_ufs_stream.
  destruct (view_pick_any_worker _ _ _) as [v [wi|e]]; [|by intros [= <- _]].
  destruct (wi_address wi) as [addr|]; [|by intros [= <- _]].
  match goal with |- ?m w = _ -> _ => assert (Hm : silent m) by avoid; apply Hm end.
Qed.

Lemma silent_ufs_exception f e : silent (handle_ufs_write_exception env f e).
Proof. unfold handle_ufs_write_exception. avoid. Qed.
#[local] Hint Resolve silent_open_ufs silent_ufs_exception : avoids.

Lemma silent_write_ufs f data : silent (write_to_ufs_stream env cfg strategy f data).
Proof. unfold write_to_ufs_stream. avoid. Qed.

Lemma silent_try_open id size wi n : silent (try_open_replica env strategy id size wi n).
Proof. unfold try_open_replica. avoid. Qed.
#[local] Hint Resolve silent_write_ufs silent_try_open : avoids.

Lemma silent_open_replicas f id size n pool opened last :
  silent (open_replicas env strategy f id size n pool opened last).
Proof.
  revert f opened last. induction pool as [|wi pool IH]; intros f opened last; cbn [open_replicas]; avoid.
Qed.
#[local] Hint Resolve silent_open_replicas : avoids.

Lemma silent_open_replica_writers f id size plan all :
  silent (open_replica_writers env cfg strategy f id size plan all).
Proof. unfold open_replica_writers. avoid. Qed.

Lemma silent_finish_block f a off c : silent (finish_block env strategy f a off c).
Proof. unfold finish_block. avoid. Qed.
#[local] Hint Resolve silent_open_replica_writers silent_finish_block : avoids.

Lemma silent_close_block f c : silent (close_current_block env strategy f c).
Proof. unfold close_current_block. avoid. Qed.
#[local] Hint Resolve silent_close_block : avoids.

Lemma silent_open_next f size : silent (open_next_block env cfg file_info strategy f size).
Proof. unfold open_next_block. avoid. Qed.
#[local] Hint Resolve silent_open_next : avoids.

Lemma silent_cache_loop fuel f data off :
  silent (write_to_cache_loop env cfg file_info strategy fuel f data off).
Proof. revert f off. induction fuel as [|fuel IH]; intros f off; cbn [write_to_cache_loop]; avoid. Qed.

Lemma silent_blacklist_replicas f rs : silent (blacklist_replicas env f rs).
Proof. revert f. induction rs as [|r rs IH]; intros f; cbn [blacklist_replicas]; avoid. Qed.
#[local] Hint Resolve silent_cache_loop silent_blacklist_replicas : avoids.

Lemma silent_fw_write f data : silent (fw_write env cfg file_info strategy shared f data).
Proof.
  unfold fw_write, write_to_cache_stream, handle_cache_write_exception, tear_down_cache_block. avoid.
Qed.

Lemma silent_cleanup f : silent (do_cancel_cleanup env f).
Proof. unfold do_cancel_cleanup, remove_committed. avoid. Qed.
#[local] Hint Resolve silent_cleanup : avoids.

Lemma silent_fw_cancel f : silent (fw_cancel env f).
Proof. unfold fw_cancel. avoid. Qed.

Lemma silent_drop rt f : silent (perform_drop_cleanup env rt f).
Proof. unfold perform_drop_cleanup, remove_committed. avoid. Qed.

Lemma silent_create : silent (fw_create env strategy shared).
Proof. unfold fw_create. avoid. Qed.
End NeverCompletes.

(** ** Arguments *)

(** A Python object by what PyO3 finds in it: a string, or bytes it can extract. *)
Record PyObject : Type := mkPyObject {
  po_is_str : bool;
  po_extract : option bytes;
}.

Definition got_str : PyErr := mkPyErr PyTypeError
  ("`data` must be a bytes-like object (bytes, bytearray, memoryview); got str. Encode it explicitly with `s.encode("
   +:+ String "034"%char "utf-8" +:+ String "034"%char ")` first.").

Definition not_bytes_like : PyErr :=
  mkPyErr PyTypeError "`data` must be a bytes-like object (bytes, bytearray, memoryview)".

Definition extract_bytes_like (data : PyObject) : PyResult bytes :=
  if po_is_str data then Err got_str
  else match po_extract data with Some b => Ok b | None => Err not_bytes_like end.

Definition build_create_file_options (write_type : option WriteType) (block_size_bytes : option Z)
    (recursive : bool) : CreateFilePOptions :=
  mkCreateFilePOptions (Some recursive) block_size_bytes None (write_type_as_i32 <$> write_type) None.

(** What the master is asked to create: [recursive] is the caller's, and what the caller left
    out is the configuration's. *)
Theorem created_as_asked default_mode cfg write_type block_size recursive :
  let o := apply_create_file_defaults default_mode
             (build_create_file_options write_type block_size recursive) cfg in
  co_recursive o = Some recursive /\
  co_write_type o = match write_type with
                    | Some wt => Some (write_type_as_i32 wt)
                    | None => wc_write_type cfg
                    end /\
  co_block_size_bytes o = match block_size with
                          | None | Some 0 => Some (as_i64 (wc_block_size cfg))
                          | Some n => Some n
                          end.
Proof. cbn. destruct write_type, block_size as [[]|]; done. Qed.

(** ** The writers *)

(** [PyAsyncFileWriter] and [PyFileWriter]: [None] once closed or cancelled. *)
Record PyWriter : Type := mkPyWriter {
  pw_inner : option GoosefsFileWriter;
  pw_path : string;
}.

Definition writer_from_sdk (f : GoosefsFileWriter) (path : string) : PyWriter := mkPyWriter (Some f) path.

Definition writer_closed (front : Front) : PyErr :=
  mkPyErr PyRuntimeError (match front with
                          | AsyncFront => "AsyncFileWriter is closed"
                          | SyncFront => "FileWriter is closed"
                          end).

(** The guard applies to the blocking class only. *)
Definition front_guard (front : Front) (site : CallSite) : option PyErr :=
  match front with
  | AsyncFront => None
  | SyncFront => streaming_guard site
  end.

Section Writer.
Context (env : WriteEnv) (cfg : WriterConfig) (file_info : FileInfo) (strategy : WriteStrategy).
Context (shared : WorkerRouter) (operation_id : Z).
Context (show_status : Status -> string) (front : Front).

Abbreviation WM A := (IO (PyWriter * PyResult A)).

Definition py_write (p : PyWriter) (site : CallSite) (data : PyObject) : WM Z :=
  match extract_bytes_like data with
  | Err e => io_ret (p, Err e)
  | Ok payload =>
      match front_guard front site, pw_inner p with
      | Some e, _ => io_ret (p, Err e)
      | None, None => io_ret (p, Err (writer_closed front))
      | None, Some f =>
          let! (f, r) := fw_write env cfg file_info strategy shared f payload in
          io_ret (mkPyWriter (Some f) (pw_path p),
                  match r with Ok _ => Ok (zlen payload) | Err e => Err (map_err show_status e) end)
      end
  end.

(** The writer is taken out first, and dropped on the runtime when the call ends. *)
Definition take_and (finish : GoosefsFileWriter -> IO (GoosefsFileWriter * Answer)) (p : PyWriter)
    (site : CallSite) : WM unit :=
  match front_guard front site, pw_inner p with
  | Some e, _ => io_ret (p, Err e)
  | None, None => io_ret (p, Ok tt)
  | None, Some f =>
      let! (f, r) := finish f in
      let! _ := perform_drop_cleanup env true f in
      io_ret (mkPyWriter None (pw_path p), py_result show_status r)
  end.

Definition py_close : PyWriter -> CallSite -> WM unit :=
  take_and (fw_close env cfg file_info strategy operation_id).

Definition py_cancel : PyWriter -> CallSite -> WM unit := take_and (fw_cancel env).

(** [__exit__] and [__aexit__]; [raised]: the body raised. *)
Definition py_exit (p : PyWriter) (site : CallSite) (raised : bool) : WM unit :=
  if raised then py_cancel p site else py_close p site.

(** The object is collected outside the runtime. *)
Definition py_collect (p : PyWriter) : IO unit :=
  match pw_inner p with
  | Some f => let! _ := perform_drop_cleanup env false f in io_ret tt
  | None => io_ret tt
  end.

(** ** The [with] statement *)

(** The body writes each object; the first exception leaves it. *)
Fixpoint with_body (p : PyWriter) (site : CallSite) (body : list PyObject) : WM unit :=
  match body with
  | [] => io_ret (p, Ok tt)
  | data :: body =>
      let! (p, r) := py_write p site data in
      match r with
      | Ok _ => with_body p site body
      | Err e => io_ret (p, Err e)
      end
  end.

(** [raises]: an exception of the caller's own at the end of the body.  What [__exit__] raises
    replaces the exception of the body; what it returns lets that one through. *)
Definition with_writer (path : string) (site : CallSite) (body : list PyObject) (raises : option PyErr)
  : IO (PyResult unit) :=
  let! created := fw_create env strategy shared in
  match created with
  | Err e => io_ret (Err (map_err show_status e))
  | Ok f =>
      let! (p, wrote) := with_body (writer_from_sdk f path) site body in
      let outcome := match wrote, raises with
                     | Err e, _ => Err e
                     | Ok _, Some e => Err e
                     | Ok _, None => Ok tt
                     end in
      let! (p, left) := py_exit p site (negb (is_ok outcome)) in
      let! _ := py_collect p in
      io_ret (match left with Err e => Err e | Ok _ => outcome end)
  end.
End Writer.

(** ** The [with] statement commits or cancels *)

(** The bytes of a body whose writes succeed. *)
Definition payload (data : PyObject) : bytes := default [] (po_extract data).
Definition body_calls (body : list PyObject) : list FileCall := map (fun d => CallWrite (payload d)) body.

Lemma extract_ok data b : extract_bytes_like data = Ok b -> b = payload data.
Proof. unfold extract_bytes_like, payload. by destruct (po_is_str data), (po_extract data); intros [= <-]. Qed.

Section With.
Context (env : WriteEnv) (cfg : WriterConfig) (file_info : FileInfo) (strategy : WriteStrategy).
Context (shared : WorkerRouter) (operation_id : Z).
Context (show_status : Status -> string) (front : Front).

Abbreviation Body := (with_body env cfg file_info strategy shared show_status front).
Abbreviation until_error := (run_until_error env cfg file_info strategy shared operation_id).
Abbreviation silent m := (avoids is_complete m).

Lemma py_write_cases p site data f :
  front_guard front site = None -> pw_inner p = Some f ->
  (exists e, py_write env cfg file_info strategy shared show_status front p site data = io_ret (p, Err e)) \/
  py_write env cfg file_info strategy shared show_status front p site data
    = (let! (f, r) := fw_write env cfg file_info strategy shared f (payload data) in
       io_ret (mkPyWriter (Some f) (pw_path p),
               match r with Ok _ => Ok (zlen (payload data)) | Err e => Err (map_err show_status e) end)).
Proof.
  intros Hg Hp. unfold py_write. rewrite Hg, Hp.
  destruct (extract_bytes_like data) as [b|e] eqn:Hx; [right|left; eauto]. by rewrite (extract_ok _ _ Hx).
Qed.

(** A body keeps its writer, and when nothing was raised it has made the calls of a session. *)
Lemma with_body_calls site body p f w w' p' r :
  front_guard front site = None -> pw_inner p = Some f -> Body p site body w = (w', (p', r)) ->
  exists f', pw_inner p' = Some f' /\
    (r = Ok tt -> until_error f (body_calls body) w = (w', (f', Ok tt))).
Proof.
  intros Hg. revert p f w. induction body as [|data body IH]; intros p f w Hp; cbn [with_body].
  { intros [= <- <- <-]. eauto. }
  destruct (py_write_cases p site data f Hg Hp) as [[e ->]| ->].
  { io_step w1 out1 H1. injection H1 as <- <-. intros [= <- <- <-]. by exists f. }
  io_step w1 out1 H1. unfold io_bind in H1.
  destruct (fw_write env cfg file_info strategy shared f (payload data) w) as [w2 [f2 r2]] eqn:Hw.
  injection H1 as <- <-. destruct r2 as [[]|e].
  - intros H. destruct (IH (mkPyWriter (Some f2) (pw_path p)) f2 w2 eq_refl H) as (f' & Hf' & Hrun).
    exists f'. split; [done|]. intros Hr. cbn [body_calls map run_until_error run_call].
    unfold io_bind. rewrite Hw. by apply Hrun.
  - intros [= <- <- <-]. by exists f2.
Qed.

Lemma silent_body site body p : silent (Body p site body).
Proof.
  revert p. induction body as [|data body IH]; intros p; cbn [with_body]; [apply avoids_ret|].
  apply avoids_bind; [|intros [p1 [n|e]]; [apply IH|apply avoids_ret]].
  unfold py_write. repeat case_match; try apply avoids_ret.
  apply avoids_bind; [apply silent_fw_write|intros [f r]; apply avoids_ret].
Qed.

Lemma silent_take_cancel site p : silent (py_cancel env show_status front p site).
Proof.
  unfold py_cancel, take_and. repeat case_match; try apply avoids_ret.
  apply avoids_bind; [apply silent_fw_cancel|]. intros [f r].
  apply avoids_bind; [apply silent_drop|]. intros ?. apply avoids_ret.
Qed.

(** *** A taken writer is finished, so dropping it does nothing *)

Definition finished (f : GoosefsFileWriter) : Prop := (fw_closed f || fw_cancelled f) = true.

Ltac flags := repeat first
  [ apply ensures_ret; first [assumption|by unfold finished in *; cbn in *; rewrite ?orb_true_r]
  | apply ensures_seq; intros ?
  | case_match ].

Lemma cleanup_finished f : finished f -> ensures (do_cancel_cleanup env f) finished.
Proof. intros Hf. unfold do_cancel_cleanup. flags. Qed.

Lemma cancel_finished f : ensures (fw_cancel env f) (fun out => finished (fst out)).
Proof.
  unfold fw_cancel, finished. destruct (fw_closed f) eqn:Hcl; [by apply ensures_ret; cbn; rewrite Hcl|].
  destruct (fw_cancelled f) eqn:Hca; [by apply ensures_ret; cbn; rewrite Hca, orb_true_r|].
  eapply ensures_bind; [by apply cleanup_finished; unfold finished; cbn; rewrite ?orb_true_r|].
  intros f' Hf'. apply ensures_seq. intros ?. by apply ensures_ret.
Qed.

Lemma close_block_finished f c :
  finished f -> ensures (close_current_block env strategy f c) (fun out => finished (fst out)).
Proof. intros Hf. unfold close_current_block, finish_block. flags. Qed.

Lemma close_ufs_finished f :
  finished f -> ensures (close_ufs env f) (fun out => finished (fst out)).
Proof.
  intros Hf. unfold close_ufs. case_match; [|by apply ensures_ret].
  apply ensures_seq. intros [u|e].
  - apply ensures_seq. intros [u1|e1]; [by apply ensures_ret|].
    eapply ensures_bind; [by apply cleanup_finished|]. intros f' Hf'. by apply ensures_ret.
  - apply ensures_seq. intros ?. eapply ensures_bind; [by apply cleanup_finished|].
    intros f' Hf'. by apply ensures_ret.
Qed.

Lemma close_finished f :
  ensures (fw_close env cfg file_info strategy operation_id f) (fun out => finished (fst out)).
Proof.
  unfold fw_close. destruct (fw_closed f) eqn:Hcl; [by apply ensures_ret; unfold finished; cbn; rewrite Hcl|].
  case_match; [by apply ensures_ret|].
  eapply ensures_bind; [by apply close_ufs_finished|]. intros [f1 [u|e]] H1; [|by apply ensures_ret].
  eapply ensures_bind; [by apply close_block_finished|]. intros [f2 [last|e]] H2.
  - apply ensures_seq. intros [u2|e2]; [|by apply ensures_ret]. apply ensures_seq. intros ?.
    by apply ensures_ret.
  - eapply ensures_bind; [by apply cleanup_finished|]. intros f' Hf'. by apply ensures_ret.
Qed.

Lemma drop_finished rt f : finished f -> perform_drop_cleanup env rt f = io_ret f.
Proof. unfold finished, perform_drop_cleanup. by intros ->. Qed.

(** Taking the writer out is the SDK's call and nothing else. *)
Lemma take_and_runs finish p site f :
  (forall f, ensures (finish f) (fun out => finished (fst out))) ->
  front_guard front site = None -> pw_inner p = Some f ->
  forall w, take_and env show_status front finish p site w
    = let '(w', (_, r)) := finish f w in (w', (mkPyWriter None (pw_path p), py_result show_status r)).
Proof.
  intros Hfin Hg Hp w. unfold take_and. rewrite Hg, Hp. unfold io_bind at 1.
  destruct (finish f w) as [w' [f' r]] eqn:H. rewrite drop_finished; [done|]. by apply (Hfin f w w' (f', r)).
Qed.

(** A session without errors is a session. *)
Lemma until_error_calls f l w w' f' :
  until_error f l w = (w', (f', Ok tt)) ->
  run_calls env cfg file_info strategy shared operation_id f l w = (w', f').
Proof.
  revert f w. induction l as [|c l IH]; intros f w; cbn [run_until_error run_calls]; [by intros [= <- <-]|].
  io_step w1 out1 H1. destruct out1 as [f1 [u|e]]; [|done]. intros H. unfold io_bind. rewrite H1. by apply IH.
Qed.

(** After a body without errors, [close] and [cancel] end every stream. *)
Lemma finishing_ends_streams w0 f0 l w1 f1 :
  fw_create env strategy shared (mkWorld [] 0) = (w0, Ok f0) ->
  until_error f0 l w0 = (w1, (f1, Ok tt)) -> fw_closed f1 = false -> fw_cancelled f1 = false ->
  (forall w' out, fw_close env cfg file_info strategy operation_id f1 w1 = (w', out) ->
     forall h, is_open h w' -> ended h w') /\
  (forall w' out, fw_cancel env f1 w1 = (w', out) -> forall h, is_open h w' -> ended h w').
Proof.
  intros Hcreate Hrun Hcl Hca.
  pose proof (streams_accounted _ _ _ _ _ _ _ _ _ _ _ Hcreate (until_error_calls _ _ _ _ _ Hrun)) as Hh.
  assert (Hdone : forall w', handed (held f1) [] w1 w' -> forall h, is_open h w' -> ended h w').
  { intros w' Hw' h Ho. destruct (hd_new _ _ _ _ (handed_trans _ _ _ _ _ _ Hh Hw') h Ho) as [H|[H|H]];
      [by apply nothing_open_at_start in H|by apply elem_of_nil in H|done]. }
  split; intros w' out H; apply Hdone; [by apply owns_fw_close in H|by apply owns_fw_cancel in H].
Qed.
End With.

Lemma body_calls_data body : forallb is_data_call (body_calls body) = true.
Proof. unfold body_calls. by induction body. Qed.

(** A writer after a session without errors, and what ending it does to its streams. *)
Lemma clean_body env cfg file_info shared operation_id ty l w0 f0 w1 f1 :
  let strategy := resolve_write_strategy ty file_info in
  0 < wc_chunk_size cfg -> 0 < block_size_of cfg file_info -> forallb is_data_call l = true ->
  fw_create env strategy shared (mkWorld [] 0) = (w0, Ok f0) ->
  run_until_error env cfg file_info strategy shared operation_id f0 l w0 = (w1, (f1, Ok tt)) ->
  writer_inv cfg file_info strategy w1 f1 (written l) /\
  (forall w' out, fw_close env cfg file_info strategy operation_id f1 w1 = (w', out) ->
     forall h, is_open h w' -> ended h w') /\
  (forall w' out, fw_cancel env f1 w1 = (w', out) -> forall h, is_open h w' -> ended h w').
Proof.
  intros strategy Hcs Hbs Hl Hcreate Hrun.
  assert (Hinv : writer_inv cfg file_info strategy w1 f1 (written l)).
  { apply (session_inv env cfg file_info strategy shared operation_id l f0 [] w0 w1 f1 Hcs Hbs Hl); [|done].
    exact (fw_create_inv env cfg file_info strategy shared _ _ (resolved_strategy_writes ty file_info) Hcreate). }
  split; [done|]. destruct Hinv. by eapply finishing_ends_streams.
Qed.

(** The file was created and every write of the body succeeded. *)
Definition body_succeeds env cfg file_info strategy shared show_status front path site body : Prop :=
  exists w0 f w1 p,
    fw_create env strategy shared (mkWorld [] 0) = (w0, Ok f) /\
    with_body env cfg file_info strategy shared show_status front (writer_from_sdk f path) site body w0
      = (w1, (p, Ok tt)).

(** C2. The [with] statement commits or cancels.  Over a file opened for writing from Python, by
    either class: if the statement ends without an exception then no exception was raised in it,
    the master was told the length and checksum of exactly the bytes written, and they are stored
    in the cache or in the UFS.  If the body raises, be it the caller's exception, a failed write
    or an object that is not bytes-like, the master is never asked to complete the file.  If
    every write of the body succeeded, no stream outlives the statement, however it ends. *)
Theorem with_statement_commits_or_cancels env cfg file_info shared operation_id show_status front ty
    path site body raises w out :
  let strategy := resolve_write_strategy ty file_info in
  let succeeds := body_succeeds env cfg file_info strategy shared show_status front path site body in
  0 < wc_chunk_size cfg -> 0 < block_size_of cfg file_info -> front_guard front site = None ->
  with_writer env cfg file_info strategy shared operation_id show_status front path site body raises
    (mkWorld [] 0) = (w, out) ->
  (out = Ok tt -> raises = None /\ completed cfg file_info w (written (body_calls body)) /\
     (cached cfg file_info strategy w (written (body_calls body)) \/
      persisted w (written (body_calls body)))) /\
  ((exists options r, (EvCompleteFile options, r) ∈ w_trace w) ->
     raises = None /\ succeeds) /\
  (succeeds -> forall h, is_open h w -> ended h w).
Proof.
  intros strategy succeeds Hcs Hbs Hg. unfold with_writer. io_step w0 r0 Hcreate.
  assert (Hsil0 : forall options r, (EvCompleteFile options, r) ∉ w_trace w0).
  { intros o r Hin. apply (silent_create _ _ _ _ _ _ Hcreate (EvCompleteFile o) r eq_refl) in Hin. by apply elem_of_nil in Hin. }
  destruct r0 as [f0|e0].
  2:{ intros [= <- <-]. split; [done|]. split; [intros (o & r & Hin); by apply Hsil0 in Hin|].
      intros (? & ? & ? & ? & H & _). rewrite Hcreate in H. done. }
  io_step w1 out1 Hbody. destruct out1 as [p1 r1].
  destruct (with_body_calls env cfg file_info strategy shared operation_id show_status front site body
    (writer_from_sdk f0 path) f0 w0 w1 p1 r1 Hg eq_refl Hbody) as (f1 & Hp1 & Hrun).
  assert (Hsil1 : forall options r, (EvCompleteFile options, r) ∉ w_trace w1).
  { intros o r Hin. apply (silent_body _ _ _ _ _ _ _ _ _ _ _ _ _ Hbody (EvCompleteFile o) r eq_refl) in Hin. by eapply Hsil0. }
  pose proof (fun Hr => clean_body env cfg file_info shared operation_id ty (body_calls body) w0 f0 w1 f1 Hcs Hbs
    (body_calls_data body) Hcreate (Hrun Hr)) as Hclean.
  assert (Hone : succeeds -> r1 = Ok tt).
  { intros (w0' & f' & w1' & p' & Hc & Hb). rewrite Hcreate in Hc. injection Hc as <- <-.
    rewrite Hbody in Hb. by injection Hb as _ _ ->. }
  destruct r1 as [[]|e1], raises as [e|]; cbn [is_ok negb]; unfold py_exit.
  1,3,4: io_step w2 out2 Hexit; unfold py_cancel in Hexit;
    rewrite (take_and_runs _ _ _ _ _ _ f1 (cancel_finished env) Hg Hp1) in Hexit;
    destruct (fw_cancel env f1 w1) as [w3 [f3 r3]] eqn:Hcan in Hexit; injection Hexit as <- <-;
    io_step w4 u4 Hcol; injection Hcol as <- <-; intros [= <- <-];
    (split; [by destruct r3|]);
    (split; [intros (o & r & Hin); apply (silent_fw_cancel _ _ _ _ _ Hcan (EvCompleteFile o) r eq_refl) in Hin; by apply Hsil1 in Hin|]);
    (intros Hw; by apply (proj2 (proj2 (Hclean (Hone Hw))) _ _ Hcan)).
  io_step w2 out2 Hexit. unfold py_close in Hexit.
  rewrite (take_and_runs _ _ _ _ _ _ f1 (close_finished env cfg file_info strategy operation_id) Hg Hp1) in Hexit.
  destruct (fw_close env cfg file_info strategy operation_id f1 w1) as [w3 [f3 r3]] eqn:Hcl in Hexit. injection Hexit as <- <-.
  io_step w4 u4 Hcol. injection Hcol as <- <-. intros [= <- <-].
  split; [|split; [by unfold succeeds, body_succeeds; eauto 10|by intros _; apply (proj1 (proj2 (Hclean eq_refl)) _ _ Hcl)]].
  destruct r3 as [[]|e3]; [intros _|done]. split; [done|]. destruct (Hclean eq_refl) as [Hinv _].
  destruct (close_inv env cfg file_info strategy operation_id Hcs Hbs f1 _ _ _ _ Hinv Hcl)
    as (Hcache & Hufs & Hcomp & _). split; [done|].
  destruct Hinv as [_ _ _ _ _ _ _ _ _ Hno _].
  destruct (fw_ufs_write_enabled f1); [right; auto|left]. by apply Hcache, Hno.
Qed.

(** ** Two statements over the example cluster *)

Module PyWriterDemo.
Definition body : list PyObject :=
  [mkPyObject false (Some [1; 2; 3]); mkPyObject false (Some [4; 5; 6; 7])].

Definition run (body : list PyObject) (raises : option PyErr) : World * PyResult unit :=
  with_writer example_env example_cfg example_file example_strategy example_router 9
    (fun _ => EmptyString) SyncFront "/f" PlainThread body raises (mkWorld [] 0).
End PyWriterDemo.

Lemma with_statement_commits_or_cancels_witness :
  snd (PyWriterDemo.run PyWriterDemo.body None) = Ok tt /\
  completed example_cfg example_file (fst (PyWriterDemo.run PyWriterDemo.body None)) [1; 2; 3; 4; 5; 6; 7].
Proof.
  assert (Hok : snd (PyWriterDemo.run PyWriterDemo.body None) = Ok tt) by (vm_compute; reflexivity).
  split; [exact Hok|].
  destruct (with_statement_commits_or_cancels example_env example_cfg example_file example_router 9
    (fun _ => EmptyString) SyncFront (Some 3) "/f" PlainThread PyWriterDemo.body None
    (fst (PyWriterDemo.run PyWriterDemo.body None)) (snd (PyWriterDemo.run PyWriterDemo.body None)))
    as (H & _ & _).
  - reflexivity.
  - reflexivity.
  - reflexivity.
  - exact (surjective_pairing (PyWriterDemo.run PyWriterDemo.body None)).
  - exact (proj1 (proj2 (H Hok))).
Defined.

(** A string in the body raises and the file is cancelled. *)
Example string_cancels_the_file :
  let '(w, out) := PyWriterDemo.run [mkPyObject false (Some [1; 2; 3]); mkPyObject true None] None in
  out = Err got_str /\
  existsb (fun p => is_complete (fst p)) (w_trace w) = false /\
  existsb (fun p => match fst p with EvCancel _ => true | _ => false end) (w_trace w) = true.
Proof. vm_compute. auto. Qed.
