(* ===== verification/ConfigLoad.v ===== *)
(** * Loading the configuration

    [src/src/config.rs]: the whole of [GoosefsConfig] and the ways it is filled in, which
    are its defaults, the keys of a properties file ([into_goosefs_config]), the
    environment ([apply_env]), the search for the file ([discover_config_file],
    [from_properties_auto]), the [with_*] builders, and the refresher of the two switches
    that may change at run time ([ConfigRefresher]).

    A configuration is a function from its fields, each field with its type.  A loader is
    a list of rules in the order of the source: a rule reads a value from the source of
    settings, if there is a usable one, and stores it in a field. *)

From Stdlib Require Import Ascii SpecFloat.
From S2P Require Import Prelude Text MetadataCache FileWriter Master Auth Metrics Config.

(** ** Fields *)

Inductive CacheEvictorType : Type := EvictLru | EvictLfu | EvictS3Fifo.

Module Field.
Inductive ConfigField : Type :=
| master_addr | master_addrs | block_size | chunk_size | connect_timeout | request_timeout
| use_vpc_mapping | root | write_type | writer_checksum_type | file_replication_number
| file_replication_durable | file_replication_durable_min | file_write_max_node_retry
| block_worker_available_min_remain_bytes | block_worker_available_min_remain_ratio
| worker_read_cache_min_ratio | file_async_persist_flush_enabled
| file_persistence_initial_wait_time_ms | file_persist_on_rename
| local_ufs_client_ignore_block_stream_unknown_status | check_block_replicas
| file_read_max_node_retry | prefetch_window | read_buffer_messages | ack_interval_bytes
| ack_interval_chunks | master_connection_pool_size | master_connection_pool_schedule
| worker_connection_pool_size | master_inquire_retry_max_duration | master_inquire_initial_sleep
| master_inquire_max_sleep | master_polling_timeout | auth_type | auth_username | auth_timeout
| config_manager_rpc_addresses | config_rpc_port | transparent_acceleration_enabled
| transparent_acceleration_cosranger_enabled | authorization_permission_enabled
| login_impersonation_username | metrics_enabled | metrics_heartbeat_interval
| metrics_heartbeat_timeout | app_id | metrics_max_batch_size | pushgateway_enabled
| pushgateway_endpoint | pushgateway_push_interval | pushgateway_job | pushgateway_instance
| client_cache_enabled | client_cache_page_size | client_cache_size | client_cache_dirs
| client_cache_evictor | client_cache_async_write_enabled | client_cache_async_write_threads
| client_cache_quota_enabled | client_cache_ttl_secs | client_cache_uring_enabled
| client_cache_uring_queue_depth | client_cache_uring_thread_count | client_cache_sync_read_enabled
| client_cache_sequential_read_enabled | metadata_cache_enabled | metadata_cache_max_size
| metadata_cache_expiration | file_metadata_sync_interval | file_metadata_load_type
| range_coalesce_enabled | range_coalesce_gap_bytes | range_coalesce_max_bytes.
End Field.

Notation ConfigField := Field.ConfigField.

Definition field_type (f : ConfigField) : Type :=
  match f with
  | Field.master_addr | Field.root | Field.auth_username | Field.login_impersonation_username
  | Field.pushgateway_endpoint | Field.pushgateway_job => string
  | Field.master_addrs | Field.config_manager_rpc_addresses | Field.client_cache_dirs => list string
  | Field.use_vpc_mapping | Field.file_async_persist_flush_enabled | Field.file_persist_on_rename
  | Field.local_ufs_client_ignore_block_stream_unknown_status
  | Field.transparent_acceleration_enabled | Field.transparent_acceleration_cosranger_enabled
  | Field.authorization_permission_enabled | Field.metrics_enabled | Field.pushgateway_enabled
  | Field.client_cache_enabled | Field.client_cache_async_write_enabled
  | Field.client_cache_quota_enabled | Field.client_cache_uring_enabled
  | Field.client_cache_sync_read_enabled | Field.client_cache_sequential_read_enabled
  | Field.metadata_cache_enabled | Field.range_coalesce_enabled => bool
  | Field.write_type => option Z
  | Field.writer_checksum_type => WriterChecksumType
  | Field.block_worker_available_min_remain_ratio | Field.worker_read_cache_min_ratio => spec_float
  | Field.master_connection_pool_schedule => MasterPoolSchedule
  | Field.auth_type => AuthType
  | Field.app_id | Field.pushgateway_instance => option string
  | Field.client_cache_evictor => CacheEvictorType
  | Field.file_metadata_load_type => LoadMetadataPType
  | _ => Z
  end.

Definition field_all : list ConfigField :=
  [Field.master_addr; Field.master_addrs; Field.block_size; Field.chunk_size; Field.connect_timeout;
  Field.request_timeout; Field.use_vpc_mapping; Field.root; Field.write_type;
  Field.writer_checksum_type; Field.file_replication_number; Field.file_replication_durable;
  Field.file_replication_durable_min; Field.file_write_max_node_retry;
  Field.block_worker_available_min_remain_bytes; Field.block_worker_available_min_remain_ratio;
  Field.worker_read_cache_min_ratio; Field.file_async_persist_flush_enabled;
  Field.file_persistence_initial_wait_time_ms; Field.file_persist_on_rename;
  Field.local_ufs_client_ignore_block_stream_unknown_status; Field.check_block_replicas;
  Field.file_read_max_node_retry; Field.prefetch_window; Field.read_buffer_messages;
  Field.ack_interval_bytes; Field.ack_interval_chunks; Field.master_connection_pool_size;
  Field.master_connection_pool_schedule; Field.worker_connection_pool_size;
  Field.master_inquire_retry_max_duration; Field.master_inquire_initial_sleep;
  Field.master_inquire_max_sleep; Field.master_polling_timeout; Field.auth_type;
  Field.auth_username; Field.auth_timeout; Field.config_manager_rpc_addresses;
  Field.config_rpc_port; Field.transparent_acceleration_enabled;
  Field.transparent_acceleration_cosranger_enabled; Field.authorization_permission_enabled;
  Field.login_impersonation_username; Field.metrics_enabled; Field.metrics_heartbeat_interval;
  Field.metrics_heartbeat_timeout; Field.app_id; Field.metrics_max_batch_size;
  Field.pushgateway_enabled; Field.pushgateway_endpoint; Field.pushgateway_push_interval;
  Field.pushgateway_job; Field.pushgateway_instance; Field.client_cache_enabled;
  Field.client_cache_page_size; Field.client_cache_size; Field.client_cache_dirs;
  Field.client_cache_evictor; Field.client_cache_async_write_enabled;
  Field.client_cache_async_write_threads; Field.client_cache_quota_enabled;
  Field.client_cache_ttl_secs; Field.client_cache_uring_enabled;
  Field.client_cache_uring_queue_depth; Field.client_cache_uring_thread_count;
  Field.client_cache_sync_read_enabled; Field.client_cache_sequential_read_enabled;
  Field.metadata_cache_enabled; Field.metadata_cache_max_size; Field.metadata_cache_expiration;
  Field.file_metadata_sync_interval; Field.file_metadata_load_type; Field.range_coalesce_enabled;
  Field.range_coalesce_gap_bytes; Field.range_coalesce_max_bytes].

Definition field_index (f : ConfigField) : nat :=
  match f with
  | Field.master_addr => 0 | Field.master_addrs => 1 | Field.block_size => 2
  | Field.chunk_size => 3 | Field.connect_timeout => 4 | Field.request_timeout => 5
  | Field.use_vpc_mapping => 6 | Field.root => 7 | Field.write_type => 8
  | Field.writer_checksum_type => 9 | Field.file_replication_number => 10
  | Field.file_replication_durable => 11 | Field.file_replication_durable_min => 12
  | Field.file_write_max_node_retry => 13 | Field.block_worker_available_min_remain_bytes => 14
  | Field.block_worker_available_min_remain_ratio => 15 | Field.worker_read_cache_min_ratio => 16
  | Field.file_async_persist_flush_enabled => 17
  | Field.file_persistence_initial_wait_time_ms => 18 | Field.file_persist_on_rename => 19
  | Field.local_ufs_client_ignore_block_stream_unknown_status => 20
  | Field.check_block_replicas => 21 | Field.file_read_max_node_retry => 22
  | Field.prefetch_window => 23 | Field.read_buffer_messages => 24 | Field.ack_interval_bytes => 25
  | Field.ack_interval_chunks => 26 | Field.master_connection_pool_size => 27
  | Field.master_connection_pool_schedule => 28 | Field.worker_connection_pool_size => 29
  | Field.master_inquire_retry_max_duration => 30 | Field.master_inquire_initial_sleep => 31
  | Field.master_inquire_max_sleep => 32 | Field.master_polling_timeout => 33
  | Field.auth_type => 34 | Field.auth_username => 35 | Field.auth_timeout => 36
  | Field.config_manager_rpc_addresses => 37 | Field.config_rpc_port => 38
  | Field.transparent_acceleration_enabled => 39
  | Field.transparent_acceleration_cosranger_enabled => 40
  | Field.authorization_permission_enabled => 41 | Field.login_impersonation_username => 42
  | Field.metrics_enabled => 43 | Field.metrics_heartbeat_interval => 44
  | Field.metrics_heartbeat_timeout => 45 | Field.app_id => 46 | Field.metrics_max_batch_size => 47
  | Field.pushgateway_enabled => 48 | Field.pushgateway_endpoint => 49
  | Field.pushgateway_push_interval => 50 | Field.pushgateway_job => 51
  | Field.pushgateway_instance => 52 | Field.client_cache_enabled => 53
  | Field.client_cache_page_size => 54 | Field.client_cache_size => 55
  | Field.client_cache_dirs => 56 | Field.client_cache_evictor => 57
  | Field.client_cache_async_write_enabled => 58 | Field.client_cache_async_write_threads => 59
  | Field.client_cache_quota_enabled => 60 | Field.client_cache_ttl_secs => 61
  | Field.client_cache_uring_enabled => 62 | Field.client_cache_uring_queue_depth => 63
  | Field.client_cache_uring_thread_count => 64 | Field.client_cache_sync_read_enabled => 65
  | Field.client_cache_sequential_read_enabled => 66 | Field.metadata_cache_enabled => 67
  | Field.metadata_cache_max_size => 68 | Field.metadata_cache_expiration => 69
  | Field.file_metadata_sync_interval => 70 | Field.file_metadata_load_type => 71
  | Field.range_coalesce_enabled => 72 | Field.range_coalesce_gap_bytes => 73
  | Field.range_coalesce_max_bytes => 74
  end%nat.

Definition field_of (n : nat) : ConfigField := nth n field_all Field.master_addr.

Lemma field_of_index (f : ConfigField) : field_of (field_index f) = f.
Proof. destruct f; reflexivity. Defined.

Definition field_eq (f g : ConfigField) (e : field_index f = field_index g) : f = g :=
  eq_trans (eq_sym (field_of_index f)) (eq_trans (f_equal field_of e) (field_of_index g)).

#[global] Instance ConfigField_eq_dec : EqDecision ConfigField :=
  fun f g =>
    match Nat.eq_dec (field_index f) (field_index g) with
    | left e => left (field_eq f g e)
    | right ne => right (fun e => ne (f_equal field_index e))
    end.

Definition FullConfig : Type := forall f : ConfigField, field_type f.

(** [cfg.f = v]. *)
Definition set_field (f : ConfigField) (v : field_type f) (cfg : FullConfig) : FullConfig :=
  fun g => match decide (f = g) with
           | left e => eq_rect f field_type v g e
           | right _ => cfg g
           end.

(** ** Values *)

Definition i32_max : Z := 2147483647.
Definition u16_max : Z := 65535.

Definition parse_i32 (s : string) : option Z := n ← parse_i64 s; within (- 2147483648) i32_max n.
Definition parse_u16 (s : string) : option Z := n ← parse_u64 s; within 0 u16_max n.

(** [str::parse::<bool>]. *)
Definition parse_bool (s : string) : option bool :=
  if String.eqb s "true" then Some true else if String.eqb s "false" then Some false else None.

Definition parse_bool_lowercase (s : string) : option bool := parse_bool (str_map to_ascii_lowercase s).

Definition evictor_from_str (s : string) : option CacheEvictorType :=
  let s := str_map to_ascii_uppercase (trim s) in
  if String.eqb s "LRU" then Some EvictLru
  else if String.eqb s "LFU" then Some EvictLfu
  else if String.eqb s "S3FIFO" || String.eqb s "S3-FIFO" then Some EvictS3Fifo
  else None.

(** Leading digits, their value and what follows them. *)
Fixpoint span_digits (s : string) : string * string :=
  match s with
  | String c s' =>
      match digit_of c with
      | Some _ => let '(ds, rest) := span_digits s' in (String c ds, rest)
      | None => (EmptyString, s)
      end
  | EmptyString => (EmptyString, EmptyString)
  end.

Definition time_unit (unit : string) : option Z :=
  if existsb (String.eqb unit) [""; "ms"; "millisecond"]%string then Some 1
  else if existsb (String.eqb unit) ["s"; "sec"; "second"]%string then Some 1000
  else if existsb (String.eqb unit) ["m"; "min"; "minute"]%string then Some 60000
  else if existsb (String.eqb unit) ["h"; "hr"; "hour"]%string then Some 3600000
  else if existsb (String.eqb unit) ["d"; "day"]%string then Some 86400000
  else None.

(** [as i64] on a float saturates. *)
Definition saturate_i64 (n : Z) : Z := Z.max (- 9223372036854775808) (Z.min i64_max n).

(** The product is computed in [f64]: the number and the product are rounded to it.  A number
    beyond its range becomes infinite, and is cut to the same end of the [i64] range. *)
Definition parse_time_size (s : string) : option Z :=
  let s := trim s in
  let '(sign, unsigned) :=
    match s with
    | String "-" rest => (-1, rest)
    | String "+" rest => (1, rest)
    | _ => (1, s)
    end in
  let '(num_str, rest) := span_digits unsigned in
  value ← parse_magnitude num_str;
  multiplier ← time_unit (str_map to_ascii_lowercase (trim rest));
  Some (saturate_i64 (as_f64 (as_f64 (sign * value) * multiplier))).

(** Durations are in nanoseconds. *)
Definition from_millis (ms : Z) : Z := ms * 1000000.

Definition duration_from_time_size_ms (ms : Z) : Z := if ms <=? 0 then 0 else from_millis ms.

(** What [overlay_positive_duration] stores, if anything. *)
Definition positive_duration (raw : string) : option Z :=
  ms ← parse_time_size raw; if 0 <? ms then Some (duration_from_time_size_ms ms) else None.

(** [str::parse] of a float: [m * 10 ^ e], rounded to nearest. *)
Definition decimal (prec emax : Z) (sign : bool) (m e : Z) : spec_float :=
  if m =? 0 then S754_zero sign
  else
    let '(q, e', l) := SFdiv_core_binary prec emax (m * 10 ^ Z.max 0 e) 0 (10 ^ Z.max 0 (- e)) 0 in
    binary_round_aux prec emax sign q e' l.

Definition parse_exponent (s : string) : option Z :=
  match s with
  | EmptyString => Some 0
  | String c s =>
      if Ascii.eqb (to_ascii_lowercase c) "e" then
        match s with
        | String "+" s => parse_magnitude s
        | String "-" s => n ← parse_magnitude s; Some (- n)
        | _ => parse_magnitude s
        end
      else None
  end.

Definition parse_float (prec emax : Z) (s : string) : option spec_float :=
  let '(sign, s) :=
    match s with String "-" s => (true, s) | String "+" s => (false, s) | _ => (false, s) end in
  let word := str_map to_ascii_lowercase s in
  if String.eqb word "inf" || String.eqb word "infinity" then Some (S754_infinity sign)
  else if String.eqb word "nan" then Some S754_nan
  else
    let '(whole, rest) := span_digits s in
    let '(frac, rest) := match rest with String "." rest => span_digits rest | _ => (EmptyString, rest) end in
    m ← parse_magnitude (whole +:+ frac);
    e ← parse_exponent rest;
    Some (decimal prec emax sign m (e - Z.of_nat (String.length frac))).

Definition parse_f32 : string -> option spec_float := parse_float 24 128.
Definition parse_f64 : string -> option spec_float := parse_float 53 1024.

(** ** Rules *)

(** A properties file or the environment. *)
Definition Source : Type := string -> option string.

Record Rule : Type := mkRule { ru_field : ConfigField; ru_read : Source -> option (field_type ru_field) }.

Definition apply_rule (src : Source) (cfg : FullConfig) (r : Rule) : FullConfig :=
  match ru_read r src with Some v => set_field (ru_field r) v cfg | None => cfg end.

Definition overlay (rules : list Rule) (src : Source) (cfg : FullConfig) : FullConfig :=
  foldl (apply_rule src) cfg rules.

Definition parsed {A} (key : string) (parse : string -> option A) (src : Source) : option A :=
  src key ≫= parse.

Definition non_empty (s : string) : option string := if String.eqb s EmptyString then None else Some s.

Definition guarded (ok : Z -> bool) (parse : string -> option Z) (s : string) : option Z :=
  n ← parse s; if ok n then Some n else None.

Definition positive : (string -> option Z) -> string -> option Z := guarded (Z.ltb 0).
Definition not_negative : (string -> option Z) -> string -> option Z := guarded (Z.leb 0).

Definition at_least_one (parse : string -> option Z) (s : string) : option Z := Z.max 1 <$> parse s.

Definition byte_size (s : string) : option Z := match parse_byte_size s with Ok n => Some n | Err _ => None end.

Definition interval_ms (s : string) : option Z :=
  from_millis <$> guarded (Z.leb MIN_METRICS_HEARTBEAT_INTERVAL_MS) parse_u64 s.

Definition non_empty_list (s : string) : option (list string) :=
  match split_list s with [] => None | l => Some l end.

Definition auth_type_of (s : string) : option AuthType := match auth_from_str s with Ok t => Some t | Err _ => None end.

Definition write_type_value (s : string) : option (option Z) :=
  wt ← write_type_from_str s; Some (Some (write_type_as_i32 wt)).

Definition nonneg_ratio (s : string) : option spec_float :=
  r ← parse_f32 s; if SFleb (S754_zero false) r then Some r else None.

(** ** The properties file *)

(** The addresses of [goosefs.master.rpc.addresses]; the host name is looked at only when that
    key is absent. *)
Definition props_master_addr (src : Source) : option string :=
  match src "goosefs.master.rpc.addresses" with
  | Some v => head (split_list v)
  | None =>
      host ← src "goosefs.master.hostname";
      Some (host +:+ ":" +:+ show_Z (default 9200 (parsed "goosefs.master.rpc.port" parse_u16 src)))
  end.

Definition props_master_addrs (src : Source) : option (list string) :=
  v ← src "goosefs.master.rpc.addresses";
  if (1 <? length (split_list v))%nat then Some (split_list v) else None.

(** The first key that is present. *)
Definition checksum_source (src : Source) : option string :=
  match src "goosefs.user.streaming.writer.checksum.type" with
  | Some v => Some v
  | None => src "goosefs_streaming_writer_checksum_type"
  end%string.

Definition property_rules_addresses : list Rule :=
  [mkRule Field.master_addr props_master_addr;
   mkRule Field.master_addrs props_master_addrs;
   mkRule Field.config_manager_rpc_addresses (parsed "goosefs.config.manager.rpc.addresses" non_empty_list);
   mkRule Field.config_rpc_port (parsed "goosefs.config.rpc.port" parse_u16);
   mkRule Field.auth_type (parsed "goosefs.security.authentication.type" auth_type_of);
   mkRule Field.authorization_permission_enabled
     (parsed "goosefs.security.authorization.permission.enabled" parse_bool_loose);
   mkRule Field.login_impersonation_username
     (parsed "goosefs.security.login.impersonation.username" non_empty);
   mkRule Field.auth_username (parsed "goosefs.security.login.username" non_empty);
   mkRule Field.transparent_acceleration_enabled
     (parsed "goosefs.user.client.transparent_acceleration.enabled" parse_bool_loose);
   mkRule Field.transparent_acceleration_cosranger_enabled
     (parsed "goosefs.user.client.transparent_acceleration.cosranger.enabled" parse_bool_loose)].

Definition property_rules_files : list Rule :=
  [mkRule Field.write_type (parsed "goosefs.user.file.writetype.default" write_type_value);
   mkRule Field.writer_checksum_type (fun src => checksum_source src ≫= checksum_from_str);
   mkRule Field.file_replication_number (parsed "goosefs.user.file.replication.number" (positive parse_i32));
   mkRule Field.file_replication_durable (parsed "goosefs.user.file.replication.durable" (positive parse_i32));
   mkRule Field.file_replication_durable_min
     (parsed "goosefs.user.file.replication.durable.min" (positive parse_i32));
   mkRule Field.file_write_max_node_retry
     (parsed "goosefs.user.file.write.max.node.retry" (positive parse_i32));
   mkRule Field.block_worker_available_min_remain_bytes
     (parsed "goosefs.user.block.worker.available.min.remain.bytes" byte_size);
   mkRule Field.block_worker_available_min_remain_ratio
     (parsed "goosefs.user.block.worker.available.min.remain.ratio" nonneg_ratio);
   mkRule Field.worker_read_cache_min_ratio (parsed "goosefs.worker.read.cache.min.ratio" parse_f64);
   mkRule Field.file_async_persist_flush_enabled
     (parsed "goosefs.user.file.async.persist.flush.enabled" parse_bool_loose);
   mkRule Field.file_persistence_initial_wait_time_ms
     (parsed "goosefs.user.file.persistence.initial.wait.time" parse_i64);
   mkRule Field.file_persist_on_rename (parsed "goosefs.user.file.persist.on.rename" parse_bool_loose);
   mkRule Field.local_ufs_client_ignore_block_stream_unknown_status
     (parsed "goosefs.user.local.ufs.client.ignore.block.stream.unknown.status" parse_bool_loose);
   mkRule Field.check_block_replicas (parsed "goosefs.user.file.check.block.replicas" (not_negative parse_i32));
   mkRule Field.file_read_max_node_retry (parsed "goosefs.user.file.read.max.node.retry" (positive parse_i32))].

Definition property_rules_network : list Rule :=
  [mkRule Field.block_size (parsed "goosefs.user.block.size.bytes.default" (positive byte_size));
   mkRule Field.chunk_size (parsed "goosefs.user.network.data.transfer.chunk.size" (positive byte_size));
   mkRule Field.connect_timeout (parsed "goosefs.user.network.rpc.connect.timeout" positive_duration);
   mkRule Field.connect_timeout (parsed "goosefs_connect_timeout" positive_duration);
   mkRule Field.request_timeout (parsed "goosefs.user.network.rpc.timeout" positive_duration);
   mkRule Field.request_timeout (parsed "goosefs_request_timeout" positive_duration);
   mkRule Field.use_vpc_mapping (parsed "goosefs.user.network.vpc.mapping.enabled" parse_bool_loose);
   mkRule Field.use_vpc_mapping (parsed "goosefs_use_vpc_mapping" parse_bool_loose)].

Definition property_rules_metrics : list Rule :=
  [mkRule Field.metrics_enabled (parsed "goosefs.user.metrics.collection.enabled" parse_bool_lowercase);
   mkRule Field.metrics_heartbeat_interval (parsed "goosefs.user.metrics.heartbeat.interval" interval_ms);
   mkRule Field.app_id (parsed "goosefs.user.app.id" (fun s => Some <$> non_empty s));
   mkRule Field.pushgateway_enabled (parsed "goosefs.metrics.pushgateway.enabled" parse_bool_lowercase);
   mkRule Field.pushgateway_endpoint (parsed "goosefs.metrics.pushgateway.endpoint" non_empty);
   mkRule Field.pushgateway_push_interval (parsed "goosefs.metrics.pushgateway.push.interval" interval_ms);
   mkRule Field.pushgateway_job (parsed "goosefs.metrics.pushgateway.job" non_empty);
   mkRule Field.pushgateway_instance
     (parsed "goosefs.metrics.pushgateway.instance" (fun s => Some <$> non_empty s))].

Definition property_rules_cache : list Rule :=
  [mkRule Field.client_cache_enabled (parsed "goosefs.user.client.cache.enabled" parse_bool_loose);
   mkRule Field.client_cache_page_size (parsed "goosefs.user.client.cache.page.size" (positive byte_size));
   mkRule Field.client_cache_size (parsed "goosefs.user.client.cache.size" byte_size);
   mkRule Field.client_cache_dirs (parsed "goosefs.user.client.cache.dirs" non_empty_list);
   mkRule Field.client_cache_evictor (parsed "goosefs.user.client.cache.eviction.policy" evictor_from_str);
   mkRule Field.client_cache_async_write_enabled
     (parsed "goosefs.user.client.cache.async.write.enabled" parse_bool_loose);
   mkRule Field.client_cache_async_write_threads
     (parsed "goosefs.user.client.cache.async.write.threads" (positive parse_u64));
   mkRule Field.client_cache_quota_enabled (parsed "goosefs.user.client.cache.quota.enabled" parse_bool_loose);
   mkRule Field.client_cache_ttl_secs (parsed "goosefs.user.client.cache.ttl.seconds" parse_u64);
   mkRule Field.client_cache_sequential_read_enabled
     (parsed "goosefs.user.client.cache.sequential.read.enabled" parse_bool_loose);
   mkRule Field.client_cache_uring_enabled (parsed "goosefs.user.client.cache.uring.enabled" parse_bool_loose);
   mkRule Field.client_cache_uring_queue_depth
     (parsed "goosefs.user.client.cache.uring.queue.depth" (positive parse_u64));
   mkRule Field.client_cache_uring_thread_count
     (parsed "goosefs.user.client.cache.uring.thread.count" (positive parse_u64));
   mkRule Field.client_cache_sync_read_enabled
     (parsed "goosefs.user.client.cache.sync.read.enabled" parse_bool_loose)].

Definition metadata_expiration (s : string) : option Z := duration_from_time_size_ms <$> parse_time_size s.

Definition property_rules_tuning : list Rule :=
  [mkRule Field.worker_connection_pool_size
     (parsed "goosefs.user.worker.connection.pool.size" (at_least_one parse_u64));
   mkRule Field.master_connection_pool_size
     (parsed "goosefs.user.master.connection.pool.size" (at_least_one parse_u64));
   mkRule Field.master_connection_pool_schedule (parsed "goosefs.user.master.pool.schedule" schedule_from_str);
   mkRule Field.metadata_cache_enabled (parsed "goosefs.user.metadata.cache.enabled" parse_bool_loose);
   mkRule Field.metadata_cache_max_size
     (parsed "goosefs.user.metadata.cache.max.size" (at_least_one parse_u64));
   mkRule Field.metadata_cache_expiration
     (parsed "goosefs.user.metadata.cache.expiration.time" metadata_expiration);
   mkRule Field.file_metadata_sync_interval (parsed "goosefs.user.file.metadata.sync.interval" parse_time_size);
   mkRule Field.file_metadata_load_type
     (parsed "goosefs.user.file.metadata.load.type" parse_load_metadata_type);
   mkRule Field.metadata_cache_enabled (parsed "goosefs_metadata_cache_enabled" parse_bool_loose);
   mkRule Field.metadata_cache_max_size (parsed "goosefs_metadata_cache_max_size" (at_least_one parse_u64));
   mkRule Field.metadata_cache_expiration (parsed "goosefs_metadata_cache_expiration" metadata_expiration);
   mkRule Field.file_metadata_sync_interval (parsed "goosefs_file_metadata_sync_interval" parse_time_size);
   mkRule Field.file_metadata_load_type (parsed "goosefs_file_metadata_load_type" parse_load_metadata_type);
   mkRule Field.file_persist_on_rename (parsed "goosefs_file_persist_on_rename" parse_bool_loose)].

Definition property_rules : list Rule :=
  property_rules_addresses ++ property_rules_files ++ property_rules_network ++ property_rules_metrics
  ++ property_rules_cache ++ property_rules_tuning.

(** ** The environment *)

Definition starts_with (p s : string) : bool := match strip_prefix p s with Some _ => true | None => false end.

(** The masters and the root of [GOOSEFS_MASTER_ADDR]: a [gfs://] URI or a bare list.  A
    malformed URI changes nothing. *)
Definition env_masters (src : Source) : option (list string * string) :=
  addr ← src "GOOSEFS_MASTER_ADDR";
  if starts_with "gfs://" (trim_start addr)
  then match parse_gfs_uri (trim addr) with Ok parsed => Some parsed | Err _ => None end
  else addrs ← non_empty_list addr; Some (addrs, EmptyString).

Definition env_rules_masters : list Rule :=
  [mkRule Field.master_addr (fun src => m ← env_masters src; head (fst m));
   mkRule Field.master_addrs
     (fun src => m ← env_masters src; Some (if (1 <? length (fst m))%nat then fst m else []));
   mkRule Field.root (fun src => m ← env_masters src; non_empty (snd m))].

Definition env_rules_files : list Rule :=
  [mkRule Field.write_type (parsed "GOOSEFS_WRITE_TYPE" write_type_value);
   mkRule Field.writer_checksum_type (parsed "GOOSEFS_USER_STREAMING_WRITER_CHECKSUM_TYPE" checksum_from_str);
   mkRule Field.file_replication_number (parsed "GOOSEFS_USER_FILE_REPLICATION_NUMBER" (positive parse_i32));
   mkRule Field.file_replication_durable (parsed "GOOSEFS_USER_FILE_REPLICATION_DURABLE" (positive parse_i32));
   mkRule Field.file_replication_durable_min
     (parsed "GOOSEFS_USER_FILE_REPLICATION_DURABLE_MIN" (positive parse_i32));
   mkRule Field.file_write_max_node_retry (parsed "GOOSEFS_USER_FILE_WRITE_MAX_NODE_RETRY" (positive parse_i32));
   mkRule Field.file_async_persist_flush_enabled
     (parsed "GOOSEFS_USER_FILE_ASYNC_PERSIST_FLUSH_ENABLED" parse_bool_loose);
   mkRule Field.file_persistence_initial_wait_time_ms
     (parsed "GOOSEFS_USER_FILE_PERSISTENCE_INITIAL_WAIT_TIME" parse_i64);
   mkRule Field.file_persist_on_rename (parsed "GOOSEFS_USER_FILE_PERSIST_ON_RENAME" parse_bool_loose);
   mkRule Field.local_ufs_client_ignore_block_stream_unknown_status
     (parsed "GOOSEFS_USER_LOCAL_UFS_CLIENT_IGNORE_BLOCK_STREAM_UNKNOWN_STATUS" parse_bool_loose);
   mkRule Field.check_block_replicas (parsed "GOOSEFS_USER_FILE_CHECK_BLOCK_REPLICAS" (not_negative parse_i32));
   mkRule Field.file_read_max_node_retry (parsed "GOOSEFS_USER_FILE_READ_MAX_NODE_RETRY" (positive parse_i32))].

Definition env_rules_network : list Rule :=
  [mkRule Field.block_size (parsed "GOOSEFS_BLOCK_SIZE" parse_u64);
   mkRule Field.chunk_size (parsed "GOOSEFS_CHUNK_SIZE" parse_u64);
   mkRule Field.connect_timeout (parsed "GOOSEFS_USER_NETWORK_RPC_CONNECT_TIMEOUT" positive_duration);
   mkRule Field.request_timeout (parsed "GOOSEFS_USER_NETWORK_RPC_TIMEOUT" positive_duration);
   mkRule Field.use_vpc_mapping (parsed "GOOSEFS_USER_NETWORK_VPC_MAPPING_ENABLED" parse_bool_loose);
   mkRule Field.auth_type (parsed "GOOSEFS_AUTH_TYPE" auth_type_of);
   mkRule Field.auth_username (parsed "GOOSEFS_AUTH_USERNAME" non_empty);
   mkRule Field.config_manager_rpc_addresses (parsed "GOOSEFS_CONFIG_MANAGER_RPC_ADDRESSES" non_empty_list);
   mkRule Field.config_rpc_port (parsed "GOOSEFS_CONFIG_RPC_PORT" parse_u16);
   mkRule Field.transparent_acceleration_enabled (parsed "GOOSEFS_TRANSPARENT_ACCELERATION_ENABLED" parse_bool);
   mkRule Field.transparent_acceleration_cosranger_enabled
     (parsed "GOOSEFS_TRANSPARENT_ACCELERATION_COSRANGER_ENABLED" parse_bool);
   mkRule Field.authorization_permission_enabled (parsed "GOOSEFS_AUTHORIZATION_PERMISSION_ENABLED" parse_bool);
   mkRule Field.login_impersonation_username (parsed "GOOSEFS_LOGIN_IMPERSONATION_USERNAME" non_empty)].

(** The collection switch is read twice, as in the source. *)
Definition env_rules_metrics : list Rule :=
  [mkRule Field.metrics_enabled (parsed "GOOSEFS_USER_METRICS_COLLECTION_ENABLED" parse_bool_lowercase);
   mkRule Field.metrics_enabled (parsed "GOOSEFS_USER_METRICS_COLLECTION_ENABLED" parse_bool_lowercase);
   mkRule Field.metrics_heartbeat_interval (parsed "GOOSEFS_USER_METRICS_HEARTBEAT_INTERVAL_MS" interval_ms);
   mkRule Field.app_id (parsed "GOOSEFS_USER_APP_ID" (fun s => Some <$> non_empty s));
   mkRule Field.pushgateway_enabled (parsed "GOOSEFS_METRICS_PUSHGATEWAY_ENABLED" parse_bool_lowercase);
   mkRule Field.pushgateway_endpoint (parsed "GOOSEFS_METRICS_PUSHGATEWAY_ENDPOINT" non_empty);
   mkRule Field.pushgateway_push_interval (parsed "GOOSEFS_METRICS_PUSHGATEWAY_PUSH_INTERVAL_MS" interval_ms);
   mkRule Field.pushgateway_job (parsed "GOOSEFS_METRICS_PUSHGATEWAY_JOB" non_empty);
   mkRule Field.pushgateway_instance
     (parsed "GOOSEFS_METRICS_PUSHGATEWAY_INSTANCE" (fun s => Some <$> non_empty s))].

Definition env_rules_cache : list Rule :=
  [mkRule Field.client_cache_enabled (parsed "GOOSEFS_USER_CLIENT_CACHE_ENABLED" parse_bool_lowercase);
   mkRule Field.client_cache_page_size (parsed "GOOSEFS_USER_CLIENT_CACHE_PAGE_SIZE" (positive parse_u64));
   mkRule Field.client_cache_size (parsed "GOOSEFS_USER_CLIENT_CACHE_SIZE" parse_u64);
   mkRule Field.client_cache_dirs (parsed "GOOSEFS_USER_CLIENT_CACHE_DIRS" non_empty_list);
   mkRule Field.client_cache_evictor (parsed "GOOSEFS_USER_CLIENT_CACHE_EVICTION_POLICY" evictor_from_str);
   mkRule Field.client_cache_async_write_enabled
     (parsed "GOOSEFS_USER_CLIENT_CACHE_ASYNC_WRITE_ENABLED" parse_bool_lowercase);
   mkRule Field.client_cache_async_write_threads
     (parsed "GOOSEFS_USER_CLIENT_CACHE_ASYNC_WRITE_THREADS" (positive parse_u64));
   mkRule Field.client_cache_quota_enabled
     (parsed "GOOSEFS_USER_CLIENT_CACHE_QUOTA_ENABLED" parse_bool_lowercase);
   mkRule Field.client_cache_ttl_secs (parsed "GOOSEFS_USER_CLIENT_CACHE_TTL_SECONDS" parse_u64);
   mkRule Field.client_cache_sequential_read_enabled
     (parsed "GOOSEFS_USER_CLIENT_CACHE_SEQUENTIAL_READ_ENABLED" parse_bool_lowercase);
   mkRule Field.client_cache_uring_enabled
     (parsed "GOOSEFS_USER_CLIENT_CACHE_URING_ENABLED" parse_bool_lowercase);
   mkRule Field.client_cache_uring_queue_depth
     (parsed "GOOSEFS_USER_CLIENT_CACHE_URING_QUEUE_DEPTH" (positive parse_u64));
   mkRule Field.client_cache_uring_thread_count
     (parsed "GOOSEFS_USER_CLIENT_CACHE_URING_THREAD_COUNT" (positive parse_u64));
   mkRule Field.client_cache_sync_read_enabled
     (parsed "GOOSEFS_USER_CLIENT_CACHE_SYNC_READ_ENABLED" parse_bool_lowercase)].

Definition env_rules_tuning : list Rule :=
  [mkRule Field.worker_connection_pool_size
     (parsed "GOOSEFS_WORKER_CONNECTION_POOL_SIZE" (at_least_one parse_u64));
   mkRule Field.master_connection_pool_size
     (parsed "GOOSEFS_MASTER_CONNECTION_POOL_SIZE" (at_least_one parse_u64));
   mkRule Field.master_connection_pool_schedule (parsed "GOOSEFS_MASTER_POOL_SCHEDULE" schedule_from_str);
   mkRule Field.metadata_cache_enabled (parsed "GOOSEFS_METADATA_CACHE_ENABLED" parse_bool_loose);
   mkRule Field.metadata_cache_max_size (parsed "GOOSEFS_METADATA_CACHE_MAX_SIZE" (at_least_one parse_u64));
   mkRule Field.metadata_cache_expiration (parsed "GOOSEFS_METADATA_CACHE_EXPIRATION" metadata_expiration);
   mkRule Field.file_metadata_sync_interval (parsed "GOOSEFS_FILE_METADATA_SYNC_INTERVAL" parse_time_size);
   mkRule Field.file_metadata_load_type (parsed "GOOSEFS_FILE_METADATA_LOAD_TYPE" parse_load_metadata_type)].

Definition env_rules : list Rule :=
  env_rules_masters ++ env_rules_files ++ env_rules_network ++ env_rules_metrics ++ env_rules_cache
  ++ env_rules_tuning.

Definition apply_env (env : Source) (cfg : FullConfig) : FullConfig := overlay env_rules env cfg.

(** ** Defaults *)

(** What the process runs in: its environment, the number of processors if known, whether
    the build has [io_uring] on Linux, and the file system the configuration is read from. *)
Record Host : Type := mkHost {
  ho_env : Source;
  ho_cores : option Z;
  ho_uring : bool;
  ho_exists : string -> bool;
  ho_read : string -> result string string;
}.

(** [std::env::var(a).or_else(|_| std::env::var(b))]. *)
Definition env_or (src : Source) (a b : string) : option string :=
  match src a with Some v => Some v | None => src b end.

Definition default_worker_connection_pool_size (cores : option Z) : Z := Z.min (Z.max (default 1 cores) 1) 4.

Definition default_auth_username (src : Source) : string := default "unknown"%string (env_or src "USER" "USERNAME").

Definition default_full_config (h : Host) : FullConfig :=
  fun f =>
    match f as f return field_type f with
    | Field.master_addr => "127.0.0.1:9200"%string
    | Field.master_addrs => []
    | Field.block_size => 64 * 1024 * 1024
    | Field.chunk_size => 1024 * 1024
    | Field.connect_timeout => from_millis 30000
    | Field.request_timeout => from_millis 300000
    | Field.use_vpc_mapping => false
    | Field.root => EmptyString
    | Field.write_type => None
    | Field.writer_checksum_type => ChecksumCrc32c
    | Field.file_replication_number => 1
    | Field.file_replication_durable => 2
    | Field.file_replication_durable_min => 2
    | Field.file_write_max_node_retry => 3
    | Field.block_worker_available_min_remain_bytes => 128 * 1024 * 1024
    | Field.block_worker_available_min_remain_ratio => decimal 24 128 false 15 (-3)
    | Field.worker_read_cache_min_ratio => decimal 53 1024 false 1 (-1)
    | Field.file_async_persist_flush_enabled => true
    | Field.file_persistence_initial_wait_time_ms => 0
    | Field.file_persist_on_rename => false
    | Field.local_ufs_client_ignore_block_stream_unknown_status => true
    | Field.check_block_replicas => 0
    | Field.file_read_max_node_retry => 3
    | Field.prefetch_window => 8
    | Field.read_buffer_messages => 16
    | Field.ack_interval_bytes => 0
    | Field.ack_interval_chunks => 1
    | Field.master_connection_pool_size => 1
    | Field.master_connection_pool_schedule => RoundRobin
    | Field.worker_connection_pool_size => default_worker_connection_pool_size (ho_cores h)
    | Field.master_inquire_retry_max_duration => from_millis 120000
    | Field.master_inquire_initial_sleep => from_millis 50
    | Field.master_inquire_max_sleep => from_millis 3000
    | Field.master_polling_timeout => from_millis 30000
    | Field.auth_type => Simple
    | Field.auth_username => default_auth_username (ho_env h)
    | Field.auth_timeout => from_millis 30000
    | Field.config_manager_rpc_addresses => []
    | Field.config_rpc_port => 9214
    | Field.transparent_acceleration_enabled => true
    | Field.transparent_acceleration_cosranger_enabled => false
    | Field.authorization_permission_enabled => false
    | Field.login_impersonation_username => "_HDFS_USER_"%string
    | Field.metrics_enabled => true
    | Field.metrics_heartbeat_interval => from_millis 10000
    | Field.metrics_heartbeat_timeout => from_millis 5000
    | Field.app_id => None
    | Field.metrics_max_batch_size => 1024
    | Field.pushgateway_enabled => false
    | Field.pushgateway_endpoint => "http://127.0.0.1:9091"%string
    | Field.pushgateway_push_interval => from_millis 10000
    | Field.pushgateway_job => "goosefs_client"%string
    | Field.pushgateway_instance => None
    | Field.client_cache_enabled => false
    | Field.client_cache_page_size => 1024 * 1024
    | Field.client_cache_size => 20 * 1024 * 1024 * 1024
    | Field.client_cache_dirs => ["/tmp/goosefs_cache"%string]
    | Field.client_cache_evictor => EvictLru
    | Field.client_cache_async_write_enabled => true
    | Field.client_cache_async_write_threads => 16
    | Field.client_cache_quota_enabled => false
    | Field.client_cache_ttl_secs => 0
    | Field.client_cache_uring_enabled => ho_uring h
    | Field.client_cache_uring_queue_depth => 32768
    | Field.client_cache_uring_thread_count => 2
    | Field.client_cache_sync_read_enabled => false
    | Field.client_cache_sequential_read_enabled => false
    | Field.metadata_cache_enabled => false
    | Field.metadata_cache_max_size => 100000
    | Field.metadata_cache_expiration => from_millis 600000
    | Field.file_metadata_sync_interval => -1
    | Field.file_metadata_load_type => LoadOnce
    | Field.range_coalesce_enabled => false
    | Field.range_coalesce_gap_bytes => 64 * 1024
    | Field.range_coalesce_max_bytes => 4 * 1024 * 1024
    end.

Definition into_goosefs_config (h : Host) (props : gmap string string) : FullConfig :=
  overlay property_rules (fun key => props !! key) (default_full_config h).

Definition from_env (h : Host) : FullConfig := apply_env (ho_env h) (default_full_config h).

Definition from_properties_str (h : Host) (content : string) : FullConfig :=
  into_goosefs_config h (properties_parse content).

Inductive ConfigLoadError : Type := ConfigIoError (path source : string).

Definition from_properties (h : Host) (path : string) : result ConfigLoadError FullConfig :=
  match ho_read h path with
  | Ok content => Ok (from_properties_str h content)
  | Err e => Err (ConfigIoError path e)
  end.

(** [PathBuf::join] with a relative name. *)
Definition path_join (dir name : string) : string :=
  match dir with
  | EmptyString => name
  | _ => if String.eqb (trim_end_slashes dir) dir then dir +:+ "/" +:+ name else dir +:+ name
  end.

Definition PROPERTIES_FILENAME : string := "goosefs-site.properties".

Definition dirs_next_home (src : Source) : option string := env_or src "HOME" "USERPROFILE".

(** The places looked at, best first. *)
Definition config_candidates (src : Source) : list string :=
  omap id
    [src "GOOSEFS_CONFIG_FILE"%string;
     (fun d => path_join d PROPERTIES_FILENAME) <$> src "GOOSEFS_CONF_DIR"%string;
     (fun d => path_join (path_join d "conf") PROPERTIES_FILENAME) <$> src "GOOSEFS_HOME"%string;
     (fun d => path_join (path_join d ".goosefs") PROPERTIES_FILENAME) <$> dirs_next_home src;
     Some (path_join "/etc/goosefs" PROPERTIES_FILENAME)].

Definition discover_config_file (h : Host) : option string :=
  List.find (ho_exists h) (config_candidates (ho_env h)).

Definition from_properties_auto (h : Host) : result ConfigLoadError FullConfig :=
  let? base :=
    match discover_config_file h with
    | Some path => from_properties h path
    | None => Ok (default_full_config h)
    end in
  Ok (apply_env (ho_env h) base).

(** ** The constructors and the checks of [Config] on the whole configuration *)

Definition core (cfg : FullConfig) : GoosefsConfig :=
  mkGoosefsConfig (cfg Field.master_addr) (cfg Field.master_addrs) (cfg Field.root) (cfg Field.block_size)
    (cfg Field.chunk_size) (cfg Field.write_type) (cfg Field.metadata_cache_enabled)
    (cfg Field.client_cache_enabled) (cfg Field.client_cache_uring_enabled) (cfg Field.pushgateway_enabled)
    (cfg Field.metrics_heartbeat_interval) (cfg Field.metrics_heartbeat_timeout).

Definition master_endpoint (cfg : FullConfig) : string := "http://" +:+ cfg Field.master_addr.

Definition worker_endpoint (cfg : FullConfig) (host : string) (rpc_port : Z) : string :=
  if cfg Field.use_vpc_mapping then "http://" +:+ host +:+ ":" +:+ show_Z rpc_port
  else "http://" +:+ host +:+ ":" +:+ show_Z rpc_port.

(** ** Builders *)

(** A setter that ignores a value its guard refuses. *)
Definition set_if (ok : bool) (f : ConfigField) (v : field_type f) (cfg : FullConfig) : FullConfig :=
  if ok then set_field f v cfg else cfg.

(** [assert!] is a panic, [None]. *)
Definition with_auth_type (auth_type : AuthType) : FullConfig -> FullConfig :=
  set_field Field.auth_type auth_type.

Definition with_auth_type_str (auth_type : string) (cfg : FullConfig) : result string FullConfig :=
  let? at_ := auth_from_str auth_type in Ok (with_auth_type at_ cfg).

Definition with_auth_username (username : string) : FullConfig -> FullConfig :=
  set_field Field.auth_username username.

Definition with_write_type (wt : WritePType) : FullConfig -> FullConfig :=
  set_field Field.write_type (Some (write_ptype_i32 wt)).

Definition with_file_replication_number (n : Z) : FullConfig -> FullConfig :=
  set_if (0 <? n) Field.file_replication_number n.

Definition with_file_replication_durable (n : Z) : FullConfig -> FullConfig :=
  set_if (0 <? n) Field.file_replication_durable n.

Definition with_file_replication_durable_min (n : Z) : FullConfig -> FullConfig :=
  set_if (0 <? n) Field.file_replication_durable_min n.

Definition with_file_write_max_node_retry (n : Z) : FullConfig -> FullConfig :=
  set_if (0 <? n) Field.file_write_max_node_retry n.

Definition with_file_persistence_initial_wait_time_ms (ms : Z) : FullConfig -> FullConfig :=
  set_field Field.file_persistence_initial_wait_time_ms ms.

Definition with_file_persist_on_rename (persist : bool) : FullConfig -> FullConfig :=
  set_field Field.file_persist_on_rename persist.

Definition with_ignore_block_stream_unknown_status (ignore : bool) : FullConfig -> FullConfig :=
  set_field Field.local_ufs_client_ignore_block_stream_unknown_status ignore.

Definition with_check_block_replicas (n : Z) : FullConfig -> FullConfig :=
  set_if (0 <=? n) Field.check_block_replicas n.

Definition with_file_read_max_node_retry (n : Z) : FullConfig -> FullConfig :=
  set_if (0 <? n) Field.file_read_max_node_retry n.

Definition with_write_type_enum (wt : WriteType) : FullConfig -> FullConfig :=
  set_field Field.write_type (Some (write_type_as_i32 wt)).

Definition with_write_type_str (wt : string) (cfg : FullConfig) : option FullConfig :=
  (fun ty => with_write_type_enum ty cfg) <$> write_type_from_str wt.

Definition with_writer_checksum_type (ty : WriterChecksumType) : FullConfig -> FullConfig :=
  set_field Field.writer_checksum_type ty.

Definition with_writer_checksum_type_str (ty : string) (cfg : FullConfig) : option FullConfig :=
  (fun ty => with_writer_checksum_type ty cfg) <$> checksum_from_str ty.

Definition with_prefetch_window (window : Z) : FullConfig -> FullConfig :=
  set_field Field.prefetch_window window.

Definition with_ack_interval_bytes (bytes : Z) : FullConfig -> FullConfig :=
  set_field Field.ack_interval_bytes bytes.

Definition with_master_connection_pool_size (size : Z) : FullConfig -> FullConfig :=
  set_field Field.master_connection_pool_size (Z.max 1 size).

Definition with_master_pool_schedule (schedule : MasterPoolSchedule) : FullConfig -> FullConfig :=
  set_field Field.master_connection_pool_schedule schedule.

Definition with_worker_connection_pool_size (size : Z) : FullConfig -> FullConfig :=
  set_field Field.worker_connection_pool_size (Z.max 1 size).

Definition with_connect_timeout (timeout : Z) : FullConfig -> FullConfig :=
  set_field Field.connect_timeout timeout.

Definition with_request_timeout (timeout : Z) : FullConfig -> FullConfig :=
  set_field Field.request_timeout timeout.

Definition with_use_vpc_mapping (enabled : bool) : FullConfig -> FullConfig :=
  set_field Field.use_vpc_mapping enabled.

Definition with_metadata_cache_enabled (enabled : bool) : FullConfig -> FullConfig :=
  set_field Field.metadata_cache_enabled enabled.

Definition with_metadata_cache_max_size (max_size : Z) : FullConfig -> FullConfig :=
  set_field Field.metadata_cache_max_size (Z.max 1 max_size).

Definition with_metadata_cache_expiration (expiration : Z) : FullConfig -> FullConfig :=
  set_field Field.metadata_cache_expiration expiration.

Definition with_file_metadata_sync_interval (interval_ms : Z) : FullConfig -> FullConfig :=
  set_field Field.file_metadata_sync_interval interval_ms.

Definition with_file_metadata_load_type (load_type : LoadMetadataPType) : FullConfig -> FullConfig :=
  set_field Field.file_metadata_load_type load_type.

Definition with_range_coalesce_enabled (enabled : bool) : FullConfig -> FullConfig :=
  set_field Field.range_coalesce_enabled enabled.

Definition with_range_coalesce_gap_bytes (gap : Z) : FullConfig -> FullConfig :=
  set_field Field.range_coalesce_gap_bytes gap.

Definition with_range_coalesce_max_bytes (max_bytes : Z) : FullConfig -> FullConfig :=
  set_field Field.range_coalesce_max_bytes (Z.max 1 max_bytes).

Definition with_metrics_enabled (enabled : bool) : FullConfig -> FullConfig :=
  set_field Field.metrics_enabled enabled.

Definition with_metrics_heartbeat_interval (interval : Z) (cfg : FullConfig) : option FullConfig :=
  if 1000000000 <=? interval then Some (set_field Field.metrics_heartbeat_interval interval cfg) else None.

Definition with_metrics_heartbeat_timeout (timeout : Z) (cfg : FullConfig) : option FullConfig :=
  if 1000000000 <=? timeout then Some (set_field Field.metrics_heartbeat_timeout timeout cfg) else None.

Definition with_app_id (app_id : string) : FullConfig -> FullConfig := set_field Field.app_id (Some app_id).

Definition with_pushgateway_enabled (enabled : bool) : FullConfig -> FullConfig :=
  set_field Field.pushgateway_enabled enabled.

Definition with_pushgateway_endpoint (endpoint : string) : FullConfig -> FullConfig :=
  set_field Field.pushgateway_endpoint endpoint.

Definition with_pushgateway_push_interval (interval : Z) (cfg : FullConfig) : option FullConfig :=
  if 1000000000 <=? interval then Some (set_field Field.pushgateway_push_interval interval cfg) else None.

Definition with_pushgateway_job (job : string) : FullConfig -> FullConfig :=
  set_field Field.pushgateway_job job.

Definition with_pushgateway_instance (instance : string) : FullConfig -> FullConfig :=
  set_field Field.pushgateway_instance (Some instance).

(** ** The refresher *)

Record TransparentAccelerationSwitch : Type := mkSwitch { ts_enabled : bool; ts_cosranger_enabled : bool }.

Record ConfigRefresher : Type := mkRefresher {
  cr_last_load_time : option Z;
  cr_expire_duration : Z;
  cr_switch : TransparentAccelerationSwitch;
}.

Definition DEFAULT_CONFIG_EXPIRE_MS : Z := 30000.

Definition switch_of (cfg : FullConfig) : TransparentAccelerationSwitch :=
  mkSwitch (cfg Field.transparent_acceleration_enabled) (cfg Field.transparent_acceleration_cosranger_enabled).

(** [now] is [Instant::now()]; a file that cannot be read gives the defaults. *)
Definition with_expire (h : Host) (now expire_duration : Z) : ConfigRefresher :=
  let initial := match from_properties_auto h with Ok cfg => cfg | Err _ => default_full_config h end in
  mkRefresher (Some now) expire_duration (switch_of initial).

Definition refresher_new (h : Host) (now : Z) : ConfigRefresher :=
  with_expire h now (from_millis DEFAULT_CONFIG_EXPIRE_MS).

Definition from_config (now : Z) (cfg : FullConfig) : ConfigRefresher :=
  mkRefresher (Some now) (from_millis DEFAULT_CONFIG_EXPIRE_MS) (switch_of cfg).

Definition current_switch (r : ConfigRefresher) : TransparentAccelerationSwitch := cr_switch r.

(** [duration_since] saturates at zero. *)
Definition needs_reload (r : ConfigRefresher) (now : Z) : bool :=
  match cr_last_load_time r with
  | None => true
  | Some t => cr_expire_duration r <=? Z.max 0 (now - t)
  end.

Definition reload_properties (h : Host) (r : ConfigRefresher) : ConfigRefresher :=
  match from_properties_auto h with
  | Ok cfg => mkRefresher (cr_last_load_time r) (cr_expire_duration r) (switch_of cfg)
  | Err _ => r
  end.

(** The part under the lock: the second check, the reload, and the time [done] it ended at. *)
Definition reload_locked (h : Host) (now done : Z) (r : ConfigRefresher) : ConfigRefresher :=
  if needs_reload r now then
    let r := reload_properties h r in
    mkRefresher (Some done) (cr_expire_duration r) (cr_switch r)
  else r.

(** A caller alone. *)
Definition load_if_expire (h : Host) (now done : Z) (r : ConfigRefresher) : ConfigRefresher :=
  if needs_reload r now then reload_locked h now done r else r.

Definition refresh_transparent_acceleration_switch (h : Host) (now done : Z) (r : ConfigRefresher)
    : ConfigRefresher * TransparentAccelerationSwitch :=
  let r := load_if_expire h now done r in (r, current_switch r).

(** Several callers: each takes its time, looks, and if the configuration looked expired comes
    back for the lock.  [rf_log] has the reloads, latest first, each with the time its caller
    took and the time it ended at. *)
Record RefreshWorld : Type := mkRefreshWorld {
  rf_refresher : ConfigRefresher;
  rf_waiting : list Z;
  rf_clock : Z;
  rf_log : list (Z * Z);
}.

Inductive refresh_step : RefreshWorld -> RefreshWorld -> Prop :=
| RefreshTick w t : rf_clock w <= t ->
    refresh_step w (mkRefreshWorld (rf_refresher w) (rf_waiting w) t (rf_log w))
| RefreshCheck w :
    refresh_step w
      (mkRefreshWorld (rf_refresher w)
         (if needs_reload (rf_refresher w) (rf_clock w) then rf_clock w :: rf_waiting w else rf_waiting w)
         (rf_clock w) (rf_log w))
| RefreshLocked w h l1 now l2 : rf_waiting w = l1 ++ now :: l2 ->
    refresh_step w
      (mkRefreshWorld (reload_locked h now (rf_clock w) (rf_refresher w)) (l1 ++ l2) (rf_clock w)
         (if needs_reload (rf_refresher w) now then (now, rf_clock w) :: rf_log w else rf_log w)).
