(* ===== verification/ConfigLoadTheorems.v ===== *)
(** * Loading the configuration: theorems

    What [ConfigLoad] loads: the value of every field by layer, the bounds every loaded
    configuration keeps under the builders, when it is valid, which masters it names, and
    what the refresher of the run-time switches serves. *)

From Stdlib Require Import Ascii SpecFloat.
From S2P Require Import Prelude Text MetadataCache FileWriter Master Auth Metrics Config ConfigLoad.

(** ** The value of a field *)

Lemma set_field_same f v cfg : set_field f v cfg f = v.
Proof.
  unfold set_field. destruct (decide (f = f)) as [e|]; [|done].
  by rewrite <- (Eqdep_dec.eq_rect_eq_dec ConfigField_eq_dec).
Qed.

Lemma set_field_other f g v cfg : f <> g -> set_field f v cfg g = cfg g.
Proof. intros Hne. unfold set_field. by destruct (decide (f = g)). Qed.

(** What a rule says about a field. *)
Definition rule_setting (r : Rule) (src : Source) (f : ConfigField) : option (field_type f) :=
  match decide (ru_field r = f) with
  | left e => eq_rect (ru_field r) (fun g => option (field_type g)) (ru_read r src) f e
  | right _ => None
  end.

(** The last rule for the field that finds a usable value. *)
Fixpoint setting (rules : list Rule) (src : Source) (f : ConfigField) : option (field_type f) :=
  match rules with
  | [] => None
  | r :: rules =>
      match setting rules src f with
      | Some v => Some v
      | None => rule_setting r src f
      end
  end.

Lemma rule_setting_at f read src : rule_setting (mkRule f read) src f = read src.
Proof.
  unfold rule_setting. cbn [ru_field ru_read]. destruct (decide (f = f)) as [e|]; [|done].
  by rewrite <- (Eqdep_dec.eq_rect_eq_dec ConfigField_eq_dec).
Qed.

Lemma rule_setting_off r src f : ru_field r <> f -> rule_setting r src f = None.
Proof. intros Hne. unfold rule_setting. by destruct (decide (ru_field r = f)). Qed.

Lemma apply_rule_value src cfg r f : apply_rule src cfg r f = default (cfg f) (rule_setting r src f).
Proof.
  unfold apply_rule, rule_setting. destruct (decide (ru_field r = f)) as [<-|Hne].
  - cbn [eq_rect]. destruct (ru_read r src); [apply set_field_same|done].
  - destruct (ru_read r src); [by apply set_field_other|done].
Qed.

Lemma overlay_value rules src cfg f : overlay rules src cfg f = default (cfg f) (setting rules src f).
Proof.
  revert cfg. induction rules as [|r rules IH]; intros cfg; [done|].
  change (overlay (r :: rules) src cfg) with (overlay rules src (apply_rule src cfg r)).
  rewrite IH, apply_rule_value. cbn [setting]. by destruct (setting rules src f).
Qed.

(** The settings of the discovered file: none without a file, [None] when it cannot be read. *)
Definition file_source (h : Host) : option Source :=
  match discover_config_file h with
  | None => Some (fun _ => None)
  | Some path =>
      match ho_read h path with
      | Ok content => Some (fun key => properties_parse content !! key)
      | Err _ => None
      end
  end.

Lemma setting_silent rules f : Forall (fun r => ru_read r (fun _ => None) = None) rules ->
  setting rules (fun _ => None) f = None.
Proof.
  induction 1 as [|r rules Hr _ IH]; [done|]. cbn [setting]. rewrite IH. unfold rule_setting.
  destruct (decide (ru_field r = f)) as [<-|]; [exact Hr|done].
Qed.

Lemma property_rules_silent : Forall (fun r => ru_read r (fun _ => None) = None) property_rules.
Proof. repeat constructor. Qed.


(** ** Bounds *)

(** The values a field can take. *)
Definition field_ok (f : ConfigField) : field_type f -> Prop :=
  match f as f return field_type f -> Prop with
  | Field.file_replication_number | Field.file_replication_durable | Field.file_replication_durable_min
  | Field.file_write_max_node_retry | Field.file_read_max_node_retry => fun n : Z => 0 < n <= i32_max
  | Field.check_block_replicas => fun n : Z => 0 <= n <= i32_max
  | Field.master_connection_pool_size | Field.worker_connection_pool_size | Field.client_cache_page_size
  | Field.client_cache_async_write_threads | Field.client_cache_uring_queue_depth
  | Field.client_cache_uring_thread_count | Field.metadata_cache_max_size
  | Field.range_coalesce_max_bytes => fun n : Z => 0 < n <= u64_max
  | Field.block_size | Field.chunk_size | Field.block_worker_available_min_remain_bytes
  | Field.client_cache_size | Field.client_cache_ttl_secs
  | Field.range_coalesce_gap_bytes => fun n : Z => 0 <= n <= u64_max
  | Field.metrics_heartbeat_interval | Field.metrics_heartbeat_timeout
  | Field.pushgateway_push_interval => fun n : Z => 1000000000 <= n
  | Field.connect_timeout | Field.request_timeout | Field.metadata_cache_expiration => fun n : Z => 0 <= n
  | Field.config_rpc_port => fun n : Z => 0 <= n <= u16_max
  | Field.write_type => fun v : option Z => from_option (fun n => 0 <= n <= 6) True v
  | Field.master_addr => fun s : string => s <> EmptyString
  | Field.master_addrs => fun l : list string => length l <> 1%nat /\ Forall (fun s => s <> EmptyString) l
  | Field.client_cache_dirs => fun l : list string => l <> [] /\ Forall (fun s => s <> EmptyString) l
  | _ => fun _ => True
  end.

Definition in_bounds (cfg : FullConfig) : Prop := forall f, field_ok f (cfg f).

(** Everything [parse] accepts satisfies [P]. *)
Definition reads {A} (parse : string -> option A) (P : A -> Prop) : Prop :=
  forall s v, parse s = Some v -> P v.

Definition rule_ok (r : Rule) : Prop := forall src v, ru_read r src = Some v -> field_ok (ru_field r) v.

Lemma rule_ok_parsed (f : ConfigField) key (parse : string -> option (field_type f)) :
  reads parse (field_ok f) -> rule_ok (mkRule f (parsed key parse)).
Proof. intros Hp src v. cbn. unfold parsed. intros (s & _ & Hs)%bind_Some. by apply (Hp s). Qed.

Lemma within_Some lo hi n v : within lo hi n = Some v -> v = n /\ lo <= n <= hi.
Proof. unfold within. destruct ((lo <=? n) && (n <=? hi)) eqn:H; [|done]. intros [= <-]. split; [done|lia]. Qed.

Lemma reads_u64 : reads parse_u64 (fun n => 0 <= n <= u64_max).
Proof. intros s v. unfold parse_u64. by intros (n & _ & [-> ?]%within_Some)%bind_Some. Qed.

Lemma reads_u16 : reads parse_u16 (fun n => 0 <= n <= u16_max).
Proof. intros s v. unfold parse_u16. by intros (n & _ & [-> ?]%within_Some)%bind_Some. Qed.

Lemma reads_i32 : reads parse_i32 (fun n => n <= i32_max).
Proof. intros s v. unfold parse_i32. by intros (n & _ & [-> [_ ?]]%within_Some)%bind_Some. Qed.

Lemma reads_byte_size : reads byte_size (fun n => 0 <= n <= u64_max).
Proof.
  intros s v. unfold byte_size, parse_byte_size. destruct (default _ (split_unit (trim s))) as [num m] eqn:Hd.
  destruct (parse_u64 (trim num)) as [n|] eqn:Hn; [|done]. destruct (n * m <=? u64_max) eqn:Hm; [|done].
  intros [= <-]. apply reads_u64 in Hn. enough (0 <= m) by nia.
  destruct (split_unit (trim s)) as [[num' m']|] eqn:Hu; cbn in Hd; injection Hd as <- <-; [|lia].
  clear -Hu. revert num' m' Hu. generalize (trim s) as t. induction t as [|c t IH]; [done|]. intros num m.
  destruct t as [|b [|d t]]; [done|cbn; repeat case_match; intros; simplify_eq; lia|].
  intros H. assert (Hs : exists num', split_unit (String b (String d t)) = Some (num', m)).
  { revert H. change (split_unit (String c (String b (String d t)))) with
      (match split_unit (String b (String d t)) with Some (n, m) => Some (String c n, m) | None => None end).
    destruct (split_unit (String b (String d t))) as [[n' m'']|]; [|done]. intros [= _ <-]. by exists n'. }
  destruct Hs as [num' Hs]. by apply (IH _ _ Hs).
Qed.

Lemma reads_positive parse hi : reads parse (fun n => n <= hi) -> reads (positive parse) (fun n => 0 < n <= hi).
Proof.
  intros Hp s v (n & Hn & Hv)%bind_Some. destruct (0 <? n) eqn:H0; [|done]. injection Hv as <-.
  apply Hp in Hn. lia.
Qed.

Lemma reads_not_negative parse hi :
  reads parse (fun n => n <= hi) -> reads (not_negative parse) (fun n => 0 <= n <= hi).
Proof.
  intros Hp s v (n & Hn & Hv)%bind_Some. destruct (0 <=? n) eqn:H0; [|done]. injection Hv as <-.
  apply Hp in Hn. lia.
Qed.

Lemma reads_upper parse lo hi : reads parse (fun n => lo <= n <= hi) -> reads parse (fun n => n <= hi).
Proof. intros Hp s v Hv. by apply Hp in Hv as [_ ?]. Qed.

Lemma reads_weaken parse hi : reads parse (fun n => 0 < n <= hi) -> reads parse (fun n => 0 <= n <= hi).
Proof. intros Hp s v Hv. apply Hp in Hv. lia. Qed.

Lemma reads_at_least_one : reads (at_least_one parse_u64) (fun n => 0 < n <= u64_max).
Proof. intros s v (n & Hn & ->)%fmap_Some. apply reads_u64 in Hn. cbn beta in Hn |- *. unfold u64_max, u64_mod in *. lia. Qed.

Lemma reads_interval : reads interval_ms (fun n => 1000000000 <= n).
Proof.
  intros s v (n & (m & _ & Hv)%bind_Some & ->)%fmap_Some. unfold MIN_METRICS_HEARTBEAT_INTERVAL_MS in Hv.
  destruct (1000 <=? m) eqn:Hm; [|done]. injection Hv as <-. unfold from_millis. lia.
Qed.

Lemma reads_positive_duration : reads positive_duration (fun n => 0 <= n).
Proof.
  intros s v (ms & _ & Hv)%bind_Some. destruct (0 <? ms) eqn:H0; [|done]. injection Hv as <-.
  unfold duration_from_time_size_ms, from_millis. destruct (ms <=? 0) eqn:?; lia.
Qed.

Lemma reads_expiration : reads metadata_expiration (fun n => 0 <= n).
Proof.
  intros s v (ms & _ & ->)%fmap_Some. unfold duration_from_time_size_ms, from_millis. destruct (ms <=? 0) eqn:?; lia.
Qed.

Lemma reads_write_type : reads write_type_value (from_option (fun n => 0 <= n <= 6) True).
Proof. intros s v (wt & _ & [= <-])%bind_Some. destruct wt; cbn; lia. Qed.

Lemma split_list_non_empty s : Forall (fun a => a <> EmptyString) (split_list s).
Proof.
  apply Forall_forall. intros a Ha. unfold split_list in Ha. apply list_elem_of_In, filter_In in Ha as [_ Ha].
  intros ->. done.
Qed.

Lemma reads_list : reads non_empty_list (fun l => l <> [] /\ Forall (fun s => s <> EmptyString) l).
Proof.
  intros s v. unfold non_empty_list. pose proof (split_list_non_empty s) as H.
  destruct (split_list s) as [|a l]; [done|]. intros [= <-]. done.
Qed.

Lemma reads_any {A} (parse : string -> option A) : reads parse (fun _ => True).
Proof. by intros s v _. Qed.

Create HintDb config.
#[export] Hint Resolve rule_ok_parsed reads_u64 reads_u16 reads_i32 reads_byte_size reads_positive
  reads_not_negative reads_upper reads_weaken reads_at_least_one reads_interval
  reads_positive_duration reads_expiration reads_write_type reads_list reads_any : config.

Lemma parse_gfs_uri_addrs uri addrs root :
  parse_gfs_uri uri = Ok (addrs, root) -> addrs <> [] /\ Forall (fun s => s <> EmptyString) addrs.
Proof.
  unfold parse_gfs_uri. destruct (strip_prefix "gfs://" uri) as [rest|]; [|done].
  destruct (split_path rest) as [a p]. pose proof (split_list_non_empty a) as H.
  destruct (split_list a) as [|x l]; [done|]. intros [= <- <-]. done.
Qed.

Lemma env_masters_ok src addrs root :
  env_masters src = Some (addrs, root) -> addrs <> [] /\ Forall (fun s => s <> EmptyString) addrs.
Proof.
  intros (addr & _ & H)%bind_Some. destruct (starts_with "gfs://" (trim_start addr)).
  - destruct (parse_gfs_uri (trim addr)) as [p|] eqn:Hp; [|done]. injection H as ->. by eapply parse_gfs_uri_addrs.
  - apply bind_Some in H as (l & Hl & [= <- <-]). by apply reads_list in Hl.
Qed.

Lemma env_masters_rules_ok : Forall rule_ok env_rules_masters.
Proof.
  repeat first [apply List.Forall_nil|apply List.Forall_cons]; intros src v; cbn; intros ([addrs root] & Hm & Hv)%bind_Some;
    apply env_masters_ok in Hm as [Hne Hall]; cbn in *.
  - destruct addrs as [|a l]; [done|]. injection Hv as <-. by apply Forall_cons in Hall as [? _].
  - injection Hv as <-. destruct addrs as [|a [|b l]]; cbn; [done|split; [done|constructor]|split; [lia|done]].
  - done.
Qed.

Lemma props_masters_ok :
  rule_ok (mkRule Field.master_addr props_master_addr) /\ rule_ok (mkRule Field.master_addrs props_master_addrs).
Proof.
  split; intros src v; cbn.
  - unfold props_master_addr. destruct (src _) as [addrs|].
    + pose proof (split_list_non_empty addrs) as H. destruct (split_list addrs) as [|a l]; [done|].
      cbn. intros [= <-]. by apply Forall_cons in H as [? _].
    + intros (host & _ & [= <-])%bind_Some. by destruct host.
  - intros (addrs & _ & Hv)%bind_Some. pose proof (split_list_non_empty addrs) as H.
    destruct (split_list addrs) as [|a [|b l]]; [done|done|]. injection Hv as <-. split; [cbn; lia|done].
Qed.

Lemma property_rules_ok : Forall rule_ok property_rules.
Proof.
  destruct props_masters_ok as [Ha Hl].
  repeat first [apply List.Forall_nil|apply List.Forall_cons; [first [exact Ha|exact Hl|by eauto with config|done]|]].
Qed.

Lemma env_rules_ok : Forall rule_ok env_rules.
Proof.
  apply Forall_app. split; [apply env_masters_rules_ok|].
  repeat first [apply List.Forall_nil|apply List.Forall_cons; [by eauto with config|]].
Qed.

Lemma set_field_in_bounds f v cfg : field_ok f v -> in_bounds cfg -> in_bounds (set_field f v cfg).
Proof.
  intros Hv Hc g. destruct (decide (f = g)) as [<-|Hne]; [by rewrite set_field_same|].
  by rewrite set_field_other.
Qed.

Lemma overlay_in_bounds rules src cfg : Forall rule_ok rules -> in_bounds cfg -> in_bounds (overlay rules src cfg).
Proof.
  intros Hr. revert cfg. induction Hr as [|r rules Hr _ IH]; intros cfg Hc; [done|]. apply IH. unfold apply_rule.
  destruct (ru_read r src) as [v|] eqn:Hv; [|done]. apply set_field_in_bounds; [by eapply Hr|done].
Qed.

Lemma default_in_bounds h : in_bounds (default_full_config h).
Proof.
  intros f. destruct f; cbn; try exact I; try done; unfold default_worker_connection_pool_size, u64_max, u64_mod, i32_max, u16_max, from_millis;
    try lia; try (split; [done|by repeat constructor]).
Qed.

Lemma loaded_in_bounds h cfg : from_properties_auto h = Ok cfg -> in_bounds cfg.
Proof.
  unfold from_properties_auto, from_properties. intros H.
  assert (Hb : exists base, in_bounds base /\ cfg = apply_env (ho_env h) base).
  { destruct (discover_config_file h) as [path|]; [destruct (ho_read h path) as [content|e]|]; cbn [result_bind] in H;
      try done; injection H as <-; eexists; (split; [|reflexivity]).
    - by apply overlay_in_bounds; [apply property_rules_ok|apply default_in_bounds].
    - apply default_in_bounds. }
  destruct Hb as (base & Hb & ->). by apply overlay_in_bounds; [apply env_rules_ok|].
Qed.

(** One call of a builder, with an argument of the machine type of the source. *)
Inductive build_step : FullConfig -> FullConfig -> Prop :=
| BuildAuthType auth_type cfg : build_step cfg (with_auth_type auth_type cfg)
| BuildAuthTypeStr auth_type cfg cfg' : with_auth_type_str auth_type cfg = Ok cfg' -> build_step cfg cfg'
| BuildAuthUsername username cfg : build_step cfg (with_auth_username username cfg)
| BuildWriteType wt cfg : build_step cfg (with_write_type wt cfg)
| BuildFileReplicationNumber n cfg : n <= i32_max -> build_step cfg (with_file_replication_number n cfg)
| BuildFileReplicationDurable n cfg : n <= i32_max -> build_step cfg (with_file_replication_durable n cfg)
| BuildFileReplicationDurableMin n cfg :
    n <= i32_max -> build_step cfg (with_file_replication_durable_min n cfg)
| BuildFileWriteMaxNodeRetry n cfg : n <= i32_max -> build_step cfg (with_file_write_max_node_retry n cfg)
| BuildFilePersistenceInitialWaitTimeMs ms cfg :
    build_step cfg (with_file_persistence_initial_wait_time_ms ms cfg)
| BuildFilePersistOnRename persist cfg : build_step cfg (with_file_persist_on_rename persist cfg)
| BuildIgnoreBlockStreamUnknownStatus ignore cfg :
    build_step cfg (with_ignore_block_stream_unknown_status ignore cfg)
| BuildCheckBlockReplicas n cfg : n <= i32_max -> build_step cfg (with_check_block_replicas n cfg)
| BuildFileReadMaxNodeRetry n cfg : n <= i32_max -> build_step cfg (with_file_read_max_node_retry n cfg)
| BuildWriteTypeEnum wt cfg : build_step cfg (with_write_type_enum wt cfg)
| BuildWriteTypeStr wt cfg cfg' : with_write_type_str wt cfg = Some cfg' -> build_step cfg cfg'
| BuildWriterChecksumType ty cfg : build_step cfg (with_writer_checksum_type ty cfg)
| BuildWriterChecksumTypeStr ty cfg cfg' :
    with_writer_checksum_type_str ty cfg = Some cfg' -> build_step cfg cfg'
| BuildPrefetchWindow window cfg : window <= i32_max -> build_step cfg (with_prefetch_window window cfg)
| BuildAckIntervalBytes bytes cfg : build_step cfg (with_ack_interval_bytes bytes cfg)
| BuildMasterConnectionPoolSize size cfg :
    0 <= size <= u64_max -> build_step cfg (with_master_connection_pool_size size cfg)
| BuildMasterPoolSchedule schedule cfg : build_step cfg (with_master_pool_schedule schedule cfg)
| BuildWorkerConnectionPoolSize size cfg :
    0 <= size <= u64_max -> build_step cfg (with_worker_connection_pool_size size cfg)
| BuildConnectTimeout timeout cfg : 0 <= timeout -> build_step cfg (with_connect_timeout timeout cfg)
| BuildRequestTimeout timeout cfg : 0 <= timeout -> build_step cfg (with_request_timeout timeout cfg)
| BuildUseVpcMapping enabled cfg : build_step cfg (with_use_vpc_mapping enabled cfg)
| BuildMetadataCacheEnabled enabled cfg : build_step cfg (with_metadata_cache_enabled enabled cfg)
| BuildMetadataCacheMaxSize max_size cfg :
    0 <= max_size <= u64_max -> build_step cfg (with_metadata_cache_max_size max_size cfg)
| BuildMetadataCacheExpiration expiration cfg :
    0 <= expiration -> build_step cfg (with_metadata_cache_expiration expiration cfg)
| BuildFileMetadataSyncInterval interval_ms cfg :
    build_step cfg (with_file_metadata_sync_interval interval_ms cfg)
| BuildFileMetadataLoadType load_type cfg : build_step cfg (with_file_metadata_load_type load_type cfg)
| BuildRangeCoalesceEnabled enabled cfg : build_step cfg (with_range_coalesce_enabled enabled cfg)
| BuildRangeCoalesceGapBytes gap cfg :
    0 <= gap <= u64_max -> build_step cfg (with_range_coalesce_gap_bytes gap cfg)
| BuildRangeCoalesceMaxBytes max_bytes cfg :
    0 <= max_bytes <= u64_max -> build_step cfg (with_range_coalesce_max_bytes max_bytes cfg)
| BuildMetricsEnabled enabled cfg : build_step cfg (with_metrics_enabled enabled cfg)
| BuildMetricsHeartbeatInterval interval cfg cfg' :
    0 <= interval -> with_metrics_heartbeat_interval interval cfg = Some cfg' -> build_step cfg cfg'
| BuildMetricsHeartbeatTimeout timeout cfg cfg' :
    0 <= timeout -> with_metrics_heartbeat_timeout timeout cfg = Some cfg' -> build_step cfg cfg'
| BuildAppId app_id cfg : build_step cfg (with_app_id app_id cfg)
| BuildPushgatewayEnabled enabled cfg : build_step cfg (with_pushgateway_enabled enabled cfg)
| BuildPushgatewayEndpoint endpoint cfg : build_step cfg (with_pushgateway_endpoint endpoint cfg)
| BuildPushgatewayPushInterval interval cfg cfg' :
    0 <= interval -> with_pushgateway_push_interval interval cfg = Some cfg' -> build_step cfg cfg'
| BuildPushgatewayJob job cfg : build_step cfg (with_pushgateway_job job cfg)
| BuildPushgatewayInstance instance cfg : build_step cfg (with_pushgateway_instance instance cfg).

Lemma set_if_in_bounds ok f v cfg : (ok = true -> field_ok f v) -> in_bounds cfg -> in_bounds (set_if ok f v cfg).
Proof. destruct ok; cbn; [intros; apply set_field_in_bounds; by eauto|done]. Qed.

Lemma build_step_in_bounds cfg cfg' : build_step cfg cfg' -> in_bounds cfg -> in_bounds cfg'.
Proof.
  intros Hs Hc. destruct Hs;
    lazymatch goal with
    | H : ?b _ _ = Ok _ |- _ =>
        unfold b in H; destruct (auth_from_str _); cbn [result_bind] in H; [injection H as <-|done]
    | H : ?b _ _ = Some _ |- _ =>
        unfold b in H; first
          [ apply fmap_Some in H as (? & _ & ->)
          | match type of H with context [if ?c then _ else _] =>
              destruct c eqn:?; [injection H as <-|done] end ]
    | |- _ => idtac
    end; (apply set_if_in_bounds || apply set_field_in_bounds); try done;
    cbn; unfold u64_max, u64_mod in *; intros; try lia;
    match goal with wt : WriteType |- _ => destruct wt | wt : WritePType |- _ => destruct wt end; cbn; lia.
Qed.

(** C26. Every field stays within its bounds: from any environment and any file, and after any
    calls of the builders, replication factors, retry and pool sizes, page size and
    thread counts are positive and fit their machine type, the intervals and the timeout
    of the metrics are at least a second, the master address is not empty, the list of
    masters has no empty entry and never exactly one, and the cache has a directory. *)
Theorem loaded_config_in_bounds (h : Host) (cfg cfg' : FullConfig) :
  from_properties_auto h = Ok cfg -> rtc build_step cfg cfg' -> in_bounds cfg'.
Proof.
  intros Hl Hb. apply loaded_in_bounds in Hl. induction Hb as [|c1 c2 c3 Hs _ IH]; [done|].
  by apply IH, (build_step_in_bounds c1).
Qed.

(** ** Validity *)

Lemma overlay_untouched rules src cfg f :
  forallb (fun r => negb (bool_decide (ru_field r = f))) rules = true -> overlay rules src cfg f = cfg f.
Proof.
  revert cfg. induction rules as [|r rules IH]; intros cfg; [done|]. cbn [forallb]. intros [Hr H]%andb_true_iff.
  change (overlay (r :: rules) src cfg) with (overlay rules src (apply_rule src cfg r)). rewrite IH by done.
  rewrite apply_rule_value. unfold rule_setting. by destruct (decide (ru_field r = f)) as [e|]; [rewrite bool_decide_true in Hr by done|].
Qed.

(** No key and no variable sets the heartbeat timeout. *)
Lemma loaded_heartbeat_timeout h cfg :
  from_properties_auto h = Ok cfg -> cfg Field.metrics_heartbeat_timeout = from_millis 5000.
Proof.
  unfold from_properties_auto, from_properties. intros H.
  destruct (discover_config_file h) as [path|]; [destruct (ho_read h path) as [content|e]|]; cbn [result_bind] in H;
    try done; injection H as <-; unfold apply_env, from_properties_str, into_goosefs_config;
    rewrite !overlay_untouched by reflexivity; reflexivity.
Qed.

(** C27. What can be wrong with a loaded configuration.  It is accepted exactly when the parts it
    switches on are compiled in, its chunks are positive and fit its blocks, and its
    heartbeat interval is more than five seconds: the addresses are always usable, and the
    timeout the interval has to exceed is not read from anywhere. *)
Theorem loaded_config_valid_iff (ft : Features) (h : Host) (cfg : FullConfig) :
  from_properties_auto h = Ok cfg ->
  validate ft (core cfg) = Ok tt <->
  features_cover ft (core cfg) /\ 0 < cfg Field.chunk_size <= cfg Field.block_size /\
  from_millis 5000 < cfg Field.metrics_heartbeat_interval.
Proof.
  intros Hl. pose proof (loaded_in_bounds h cfg Hl) as Hb.
  pose proof (Hb Field.block_size) as Hbs. pose proof (Hb Field.chunk_size) as Hcs.
  pose proof (Hb Field.master_addr) as Ha. pose proof (Hb Field.master_addrs) as [_ Hm]. cbn in Hbs, Hcs, Ha.
  rewrite validate_accepts_exactly by (cbn; lia). change (gc_metrics_heartbeat_timeout (core cfg)) with
    (cfg Field.metrics_heartbeat_timeout). rewrite (loaded_heartbeat_timeout h cfg Hl).
  assert (Hma : Forall (fun a => a <> EmptyString) (master_addresses (core cfg))).
  { unfold master_addresses. cbn. destruct (cfg Field.master_addrs); [by repeat constructor|done]. }
  unfold from_millis. cbn [core gc_chunk_size gc_block_size gc_metrics_heartbeat_interval].
  split; [intros (Hf & _ & Hc & Hi)|intros (Hf & Hc & Hi)]; (split; [exact Hf|]); [lia|]. split; [exact Hma|lia].
Qed.

(** ** The masters of the environment *)

Lemma no_space_join c l : is_space c = false -> Forall no_space l -> no_space (join c l).
Proof.
  intros Hc. induction 1 as [|s l Hs Hl IH]; [constructor|]. destruct l as [|s' l]; [done|].
  change (join c (s :: s' :: l)) with (s +:+ String c (join c (s' :: l))).
  apply str_forall_app. split; [done|]. constructor; [by rewrite Hc|done].
Qed.

Lemma strip_prefix_append p s t : strip_prefix p s = Some t -> s = p +:+ t.
Proof.
  revert s. induction p as [|c p IH]; intros s; [by intros [= ->]|]. destruct s as [|d s]; [done|]. cbn.
  destruct (Ascii.eqb_spec c d) as [->|]; [|done]. intros H. by rewrite append_cons, <- (IH _ H).
Qed.

Lemma lacks_slash_no_scheme s : lacks "/" s -> starts_with "gfs://" s = false.
Proof.
  intros Hs. unfold starts_with. destruct (strip_prefix "gfs://" s) as [t|] eqn:Hp; [|done].
  apply strip_prefix_append in Hp as ->. apply str_forall_app in Hs as [Hs _].
  do 4 (inversion Hs as [|? ? _ Hs']; subst; clear Hs; rename Hs' into Hs). by inversion Hs.
Qed.

Lemma env_masters_uri env addrs root :
  addrs <> [] -> Forall plain_address addrs -> plain_root root -> no_space root ->
  env "GOOSEFS_MASTER_ADDR"%string = Some (print_uri addrs root) -> env_masters env = Some (addrs, root).
Proof.
  intros Hne Hall Hroot Hs He. unfold env_masters. rewrite He. cbn [mbind option_bind].
  assert (Hns : no_space (print_uri addrs root)).
  { unfold print_uri. apply str_forall_app. split; [by repeat constructor|]. apply str_forall_app. split; [|done].
    apply no_space_join; [done|]. eapply Forall_impl; [exact Hall|]. by intros a (_ & _ & _ & ?). }
  rewrite trim_start_no_space, trim_no_space, parse_print_uri by done. done.
Qed.

Lemma env_masters_list env addrs :
  addrs <> [] -> Forall plain_address addrs ->
  env "GOOSEFS_MASTER_ADDR"%string = Some (join "," addrs) -> env_masters env = Some (addrs, EmptyString).
Proof.
  intros Hne Hall He. unfold env_masters. rewrite He. cbn [mbind option_bind].
  rewrite trim_start_no_space, lacks_slash_no_scheme; cycle 1.
  { apply lacks_join; [done|]. eapply Forall_impl; [exact Hall|]. by intros a (_ & _ & ? & _). }
  { apply no_space_join; [done|]. eapply Forall_impl; [exact Hall|]. by intros a (_ & _ & _ & ?). }
  unfold non_empty_list. rewrite split_list_join by done. by destruct addrs.
Qed.

Lemma overlay_app rules1 rules2 src cfg :
  overlay (rules1 ++ rules2) src cfg = overlay rules2 src (overlay rules1 src cfg).
Proof. unfold overlay. apply foldl_app. Qed.

Lemma apply_env_masters env cfg f :
  forallb (fun r => negb (bool_decide (ru_field r = f)))
    (env_rules_files ++ env_rules_network ++ env_rules_metrics ++ env_rules_cache ++ env_rules_tuning) = true ->
  apply_env env cfg f = default (cfg f) (setting env_rules_masters env f).
Proof.
  intros Hf. unfold apply_env, env_rules. rewrite overlay_app, overlay_untouched by exact Hf. apply overlay_value.
Qed.

(** The environment has the last word on the masters: a list of addresses, bare or in a
    [gfs://] URI with a root, replaces those of the configuration whatever they were, and a
    single one turns the list of masters off. *)
Theorem env_masters_take_over (env : Source) (cfg : FullConfig) (addrs : list string) (root : string) :
  addrs <> [] -> Forall plain_address addrs -> plain_root root -> no_space root ->
  (env "GOOSEFS_MASTER_ADDR"%string = Some (print_uri addrs root) \/
   env "GOOSEFS_MASTER_ADDR"%string = Some (join "," addrs) /\ root = EmptyString) ->
  let c := core (apply_env env cfg) in
  master_addresses c = addrs /\ is_multi_master c = (1 <? length addrs)%nat /\
  gc_root c = if String.eqb root EmptyString then cfg Field.root else root.
Proof.
  intros Hne Hall Hroot Hs He.
  assert (Hm : env_masters env = Some (addrs, root)).
  { destruct He as [He|[He ->]]; [by apply env_masters_uri|by apply env_masters_list]. }
  assert (Ha : apply_env env cfg Field.master_addr = default (cfg Field.master_addr) (head addrs)).
  { rewrite apply_env_masters by (vm_compute; reflexivity). unfold env_rules_masters. cbn [setting].
    rewrite rule_setting_at, !rule_setting_off, Hm by done. done. }
  assert (Hl : apply_env env cfg Field.master_addrs = if (1 <? length addrs)%nat then addrs else []).
  { rewrite apply_env_masters by (vm_compute; reflexivity). unfold env_rules_masters. cbn [setting].
    rewrite rule_setting_at, !rule_setting_off, Hm by done. done. }
  assert (Hr : apply_env env cfg Field.root = default (cfg Field.root) (non_empty root)).
  { rewrite apply_env_masters by (vm_compute; reflexivity). unfold env_rules_masters. cbn [setting].
    rewrite rule_setting_at, !rule_setting_off, Hm by done. cbn [mbind option_bind snd]. by destruct (non_empty root). }
  cbn zeta. unfold core, master_addresses, is_multi_master. cbn [gc_master_addr gc_master_addrs gc_root].
  rewrite Ha, Hl, Hr. split; [|split].
  - destruct addrs as [|a [|b l]]; done.
  - destruct addrs as [|a [|b l]]; done.
  - unfold non_empty. by destruct (String.eqb root EmptyString).
Qed.

(** ** The run-time switches *)

(** A refresh serves the files as they are once the period is over, keeps its values when the
    file cannot be read, and reads nothing before. *)
Theorem refresh_serves_current_files (h : Host) (now done t : Z) (r : ConfigRefresher) :
  cr_last_load_time r = Some t -> 0 < cr_expire_duration r ->
  refresh_transparent_acceleration_switch h now done r =
  if cr_expire_duration r <=? now - t then
    let switch := match from_properties_auto h with Ok cfg => switch_of cfg | Err _ => cr_switch r end in
    (mkRefresher (Some done) (cr_expire_duration r) switch, switch)
  else (r, cr_switch r).
Proof.
  intros Ht Hx. unfold refresh_transparent_acceleration_switch, load_if_expire, reload_locked, current_switch.
  assert (Hn : needs_reload r now = (cr_expire_duration r <=? now - t)).
  { unfold needs_reload. rewrite Ht. lia. }
  rewrite Hn. destruct (cr_expire_duration r <=? now - t); [|done]. unfold reload_properties.
  by destruct (from_properties_auto h).
Qed.

(** When the reload before these ended: the refresher was made at [t0]. *)
Definition last_done (t0 : Z) (log : list (Z * Z)) : Z := match log with [] => t0 | (_, d) :: _ => d end.

(** Every reload was asked for at least a period after the one before it had ended. *)
Fixpoint well_spaced (expire t0 : Z) (log : list (Z * Z)) : Prop :=
  match log with
  | [] => True
  | (now, d) :: log => last_done t0 log + expire <= now <= d /\ well_spaced expire t0 log
  end.

Definition refresh_inv (expire t0 : Z) (w : RefreshWorld) : Prop :=
  cr_last_load_time (rf_refresher w) = Some (last_done t0 (rf_log w)) /\
  cr_expire_duration (rf_refresher w) = expire /\
  Forall (fun now => now <= rf_clock w) (rf_waiting w) /\ well_spaced expire t0 (rf_log w).

Lemma refresh_step_inv expire t0 w w' :
  0 < expire -> refresh_step w w' -> refresh_inv expire t0 w -> refresh_inv expire t0 w'.
Proof.
  intros Hx Hs (Hl & He & Hw & Hp). destruct Hs as [w t Ht|w|w h l1 now l2 Hq]; unfold refresh_inv; cbn.
  - split_and!; try done. eapply Forall_impl; [exact Hw|]. cbn. lia.
  - split_and!; try done. destruct (needs_reload _ _); [|done]. by constructor.
  - rewrite Hq in Hw. apply Forall_app in Hw as [Hw1 [Hn Hw2]%Forall_cons]. unfold reload_locked.
    destruct (needs_reload (rf_refresher w) now) eqn:Hr; [|split_and!; try done; by apply Forall_app].
    assert (last_done t0 (rf_log w) + expire <= now) by (unfold needs_reload in Hr; rewrite Hl, He in Hr; lia).
    split_and!; cbn; try done; [unfold reload_properties; by destruct (from_properties_auto h)|by apply Forall_app|lia..].
Qed.


(** ** Examples *)

Module LoadDemo.
Definition file : string :=
  "goosefs.master.rpc.addresses = m1:9200, m2:9200
goosefs.user.block.size.bytes.default=64MB
goosefs.user.metrics.heartbeat.interval=12000
goosefs.user.file.replication.number=0".

Definition slow_file : string := "goosefs.user.metrics.heartbeat.interval=3000".

Definition env : Source := fun key =>
  if String.eqb key "GOOSEFS_HOME" then Some "/opt/goosefs"%string
  else if String.eqb key "GOOSEFS_BLOCK_SIZE" then Some "33554432"%string
  else if String.eqb key "GOOSEFS_CHUNK_SIZE" then Some "1MB"%string
  else None.

Definition host (content : string) : Host :=
  mkHost env (Some 8) false (fun path => String.eqb path "/opt/goosefs/conf/goosefs-site.properties")
    (fun _ => Ok content).

Definition config (content : string) : FullConfig :=
  match from_properties_auto (host content) with Ok cfg => cfg | Err _ => default_full_config (host content) end.

Definition all_features : Features := mkFeatures true true true true.
End LoadDemo.

(** The environment over the file over the defaults, each malformed value ignored. *)
Example layers_of_the_demo :
  let cfg := LoadDemo.config LoadDemo.file in
  cfg Field.master_addrs = ["m1:9200"; "m2:9200"]%string /\ cfg Field.block_size = 33554432 /\
  cfg Field.chunk_size = 1048576 /\ cfg Field.file_replication_number = 1 /\
  cfg Field.worker_connection_pool_size = 4.
Proof. by vm_compute. Qed.

(** An interval of three seconds, which the loader accepts, is refused by [validate]. *)
Example short_heartbeat_is_refused :
  LoadDemo.config LoadDemo.slow_file Field.metrics_heartbeat_interval = from_millis 3000 /\
  validate LoadDemo.all_features (core (LoadDemo.config LoadDemo.slow_file)) = Err HeartbeatTimeoutTooLong.
Proof. by vm_compute. Qed.

Lemma loaded_config_in_bounds_witness : in_bounds (with_check_block_replicas 2 (LoadDemo.config LoadDemo.file)).
Proof.
  apply (loaded_config_in_bounds (LoadDemo.host LoadDemo.file) (LoadDemo.config LoadDemo.file)).
  - reflexivity.
  - apply rtc_once. constructor. unfold i32_max. lia.
Defined.

Lemma loaded_config_valid_iff_witness :
  validate LoadDemo.all_features (core (LoadDemo.config LoadDemo.file)) = Ok tt <->
  features_cover LoadDemo.all_features (core (LoadDemo.config LoadDemo.file)) /\
  0 < 1048576 <= 33554432 /\ from_millis 5000 < from_millis 12000.
Proof.
  apply (loaded_config_valid_iff LoadDemo.all_features (LoadDemo.host LoadDemo.file)
           (LoadDemo.config LoadDemo.file)). reflexivity.
Defined.

Lemma env_masters_take_over_witness :
  let env := fun key : string => if String.eqb key "GOOSEFS_MASTER_ADDR" then Some "gfs://a:9200/data"%string else None in
  let c := core (apply_env env (LoadDemo.config LoadDemo.file)) in
  master_addresses c = ["a:9200"]%string /\ is_multi_master c = false /\ gc_root c = "/data"%string.
Proof.
  intros env. apply (env_masters_take_over env (LoadDemo.config LoadDemo.file) ["a:9200"]%string "/data").
  - done.
  - by repeat constructor.
  - split; [right; by exists "data"%string|reflexivity].
  - by repeat constructor.
  - by left.
Defined.

Lemma refresh_serves_current_files_witness :
  snd (refresh_transparent_acceleration_switch (LoadDemo.host LoadDemo.file) (from_millis 40000) (from_millis 40001)
         (from_config 0 (set_field Field.transparent_acceleration_enabled false (LoadDemo.config LoadDemo.file))))
  = mkSwitch true false.
Proof.
  rewrite (refresh_serves_current_files _ _ _ 0); [reflexivity|reflexivity|done].
Defined.

