(* ===== verification/PyConfig.v ===== *)
(** * Python bindings: [Config]

    [PyConfig] of src/bindings/python/src/config.rs: the constructor, its [gfs://] and
    comma-separated forms, the [properties=] dictionary that is printed as a properties file
    and read back by the SDK, and [from_properties_file].  The layers and the loader are
    those of [ConfigLoad]. *)

From Stdlib Require Import Ascii.
From S2P Require Import Prelude Text Config ConfigLoad ConfigLoadTheorems PyErrors.

(** ** The SDK's constructors on the whole configuration *)

Section SdkConstructors.
Context (h : Host).

Definition full_new (addr : string) : FullConfig := set_field Field.master_addr addr (default_full_config h).

(** [None] is a panic on an empty list. *)
Definition full_new_ha (addrs : list string) : option FullConfig :=
  match addrs with
  | [] => None
  | a :: _ => Some (set_field Field.master_addrs addrs (full_new a))
  end.

Definition full_from_addresses (addrs : list string) : option FullConfig :=
  match addrs with
  | [] => None
  | [a] => Some (full_new a)
  | _ => full_new_ha addrs
  end.

Definition full_from_uri (uri : string) : result UriParseError (option FullConfig) :=
  let? parsed := parse_gfs_uri uri in
  let '(addrs, root) := parsed in
  Ok (cfg ← full_from_addresses addrs;
      Some (if String.eqb root EmptyString then cfg else set_field Field.root root cfg)).
End SdkConstructors.

(** ** The Python class *)

(** A value of the dictionary, by [extract::<String>]: the text, or the text of the error. *)
Abbreviation PyText := (result string string).

Fixpoint contains_char (c : ascii) (s : string) : bool :=
  match s with
  | EmptyString => false
  | String d s' => Ascii.eqb c d || contains_char c s'
  end.

Definition config_error {A : Type} (msg : string) : PyResult A := Err (mkPyErr PyConfigError msg).

Section PyConfig.
(** [{:?}] of a string. *)
Context (debug : string -> string).

Definition uri_error_display (e : UriParseError) : string :=
  match e with
  | InvalidScheme input =>
      "invalid Goosefs URI (expected 'gfs://<host:port>[,...][/path]'): " +:+ debug input
  | EmptyAuthority input => "Goosefs URI has no master addresses: " +:+ debug input
  end.

(** One entry of the dictionary as a line. *)
Definition property_line (kv : PyText * PyText) : PyResult string :=
  match fst kv with
  | Err e => config_error ("property key must be str: " +:+ e)
  | Ok key =>
      match snd kv with
      | Err e => config_error ("property value for '" +:+ key +:+ "' must be str: " +:+ e)
      | Ok val =>
          if contains_char "=" key || contains_char newline key
          then config_error ("property key may not contain '=' or newline: " +:+ debug key)
          else if contains_char newline val
          then config_error ("property value for " +:+ debug key +:+ " may not contain newline")
          else Ok (key +:+ "=" +:+ val +:+ String newline EmptyString)
      end
  end.

(** The dictionary in its iteration order, appended to [buf]. *)
Fixpoint properties_buffer (buf : string) (props : list (PyText * PyText)) : PyResult string :=
  match props with
  | [] => Ok buf
  | kv :: props =>
      let? line := property_line kv in
      properties_buffer (buf +:+ line) props
  end.

(** The masters named by the first argument. *)
Definition base_config (h : Host) (master_addr : string) : PyResult (option FullConfig) :=
  if starts_with "gfs://" (trim_start master_addr) then
    match full_from_uri h (trim master_addr) with
    | Ok cfg => Ok cfg
    | Err e => config_error (uri_error_display e)
    end
  else
    let addrs := split_list master_addr in
    match addrs with
    | [] => config_error
        "master_addr must be a non-empty 'host:port', comma-separated list, or 'gfs://' URI"
    | [a] => Ok (Some (full_new h a))
    | _ => Ok (full_new_ha h addrs)
    end.

(** [cfg.f = parsed.f], or what the arguments chose when that is empty. *)
Definition preserve (cfg parsed : FullConfig) : FullConfig :=
  let parsed := if String.eqb (parsed Field.master_addr) EmptyString
                then set_field Field.master_addr (cfg Field.master_addr) parsed else parsed in
  let parsed := match parsed Field.master_addrs with
                | [] => set_field Field.master_addrs (cfg Field.master_addrs) parsed
                | _ => parsed
                end in
  if String.eqb (parsed Field.root) EmptyString then set_field Field.root (cfg Field.root) parsed else parsed.

(** [Ok None] is a panic, which [constructor_never_panics] excludes. *)
Definition py_config_new (h : Host) (master_addr : string) (properties : option (list (PyText * PyText))) :
    PyResult (option FullConfig) :=
  let? base := base_config h master_addr in
  match base with
  | None => Ok None
  | Some cfg =>
      let? cfg :=
        match properties with
        | None => Ok cfg
        | Some props =>
            let? buf := properties_buffer EmptyString props in
            Ok (preserve cfg (from_properties_str h buf))
        end in
      Ok (Some (apply_env (ho_env h) cfg))
  end.

Definition py_config_from_uri (h : Host) (uri : string) (properties : option (list (PyText * PyText))) :
    PyResult (option FullConfig) :=
  py_config_new h uri properties.

Definition load_error_display (e : ConfigLoadError) : string :=
  match e with ConfigIoError path source => "failed to read config file '" +:+ path +:+ "': " +:+ source end.

Definition py_config_from_properties_file (h : Host) (path : string) : PyResult FullConfig :=
  match from_properties h path with
  | Ok cfg => Ok (apply_env (ho_env h) cfg)
  | Err e => config_error (load_error_display e)
  end.

(** ** Printing the dictionary *)

Definition py_entry (kv : string * string) : PyText * PyText := (Ok (fst kv), Ok (snd kv)).

Definition plain_entry (kv : string * string) : Prop := plain_key (fst kv) /\ plain_value (snd kv).

Lemma contains_char_lacks c s : lacks c s -> contains_char c s = false.
Proof.
  unfold lacks. induction s as [|d s IH]; [done|]. intros [Hd H]%Forall_cons. cbn [contains_char].
  apply negb_true_iff in Hd. rewrite Hd. by apply IH.
Qed.

Lemma append_assoc (s t u : string) : (s +:+ t) +:+ u = s +:+ (t +:+ u).
Proof. induction s as [|c s IH]; [done|]. rewrite !append_cons. by rewrite IH. Qed.

Lemma property_line_plain kv :
  plain_entry kv -> property_line (py_entry kv) = Ok (print_property kv +:+ String newline EmptyString).
Proof.
  destruct kv as [k v]. intros [(_ & _ & Heq & Hnl & _) [_ Hv]]. cbn [fst snd] in *. unfold property_line, py_entry.
  cbn [fst snd]. rewrite !contains_char_lacks by done. cbn [orb]. unfold print_property. cbn [fst snd].
  by rewrite !append_assoc.
Qed.

Lemma properties_buffer_plain buf kvs :
  Forall plain_entry kvs -> properties_buffer buf (map py_entry kvs) = Ok (buf +:+ print_properties kvs).
Proof.
  intros H. revert buf. induction H as [|kv kvs Hkv _ IH]; intros buf; cbn [map properties_buffer].
  - by rewrite append_nil_r.
  - rewrite property_line_plain by done. cbn [result_bind]. rewrite IH. cbn [print_properties foldr].
    f_equal. rewrite append_assoc. f_equal. by rewrite append_assoc.
Qed.

(** ** What the arguments say *)

(** The masters and the root of the first argument. *)
Definition named_masters (master_addr : string) : option (list string * string) :=
  if starts_with "gfs://" (trim_start master_addr) then
    match parse_gfs_uri (trim master_addr) with Ok named => Some named | Err _ => None end
  else match split_list master_addr with [] => None | addrs => Some (addrs, EmptyString) end.

(** A list of masters is kept as such only when it has more than one. *)
Definition ha_list (addrs : list string) : list string := if (1 <? length addrs)%nat then addrs else [].

(** The configuration the first argument stands for, over the defaults. *)
Definition argument_layer (h : Host) (addrs : list string) (root : string) : FullConfig :=
  fun f => match f as f return field_type f with
           | Field.master_addr => default EmptyString (head addrs)
           | Field.master_addrs => ha_list addrs
           | Field.root => root
           | f => default_full_config h f
           end.

(** The configuration of an argument and a dictionary: the dictionary over the defaults, of the
    argument only a list of several masters and the root. *)
Definition dictionary_layer (h : Host) (addrs : list string) (root : string) (src : Source) : FullConfig :=
  fun f => match f as f return field_type f with
           | Field.master_addrs => default (ha_list addrs) (setting property_rules src Field.master_addrs)
           | Field.root => root
           | f => default (default_full_config h f) (setting property_rules src f)
           end.

Lemma base_config_named h arg addrs root :
  named_masters arg = Some (addrs, root) ->
  addrs <> [] /\ exists cfg, base_config h arg = Ok (Some cfg) /\ forall f, cfg f = argument_layer h addrs root f.
Proof.
  assert (Hbase : forall a l r, exists cfg, full_from_addresses h (a :: l) = Some cfg /\
    forall f, (if String.eqb r EmptyString then cfg else set_field Field.root r cfg) f =
              argument_layer h (a :: l) r f).
  { intros a l r. destruct l as [|b l]; (eexists; split; [reflexivity|]); intros f;
      (destruct (String.eqb_spec r EmptyString) as [->|]); by destruct f. }
  unfold named_masters, base_config, full_from_uri. destruct (starts_with _ _).
  - destruct (parse_gfs_uri (trim arg)) as [[l r]|e] eqn:Hp; [|done]. intros [= -> ->].
    apply parse_gfs_uri_addrs in Hp as [Hne _]. cbn [result_bind]. destruct addrs as [|a l]; [done|]. split; [done|].
    destruct (Hbase a l root) as (cfg & Hc & Hf). rewrite Hc. eexists. split; [reflexivity|exact Hf].
  - destruct (split_list arg) as [|a l]; [done|]. intros [= <- <-]. split; [done|].
    destruct (Hbase a l EmptyString) as (cfg & Hc & Hf). exists cfg. split; [|exact Hf].
    destruct l; cbn [full_from_addresses] in Hc; [by injection Hc as <-|by rewrite Hc].
Qed.

Lemma setting_usable rules src f v : Forall rule_ok rules -> setting rules src f = Some v -> field_ok f v.
Proof.
  induction 1 as [|r rules Hr _ IH]; [done|]. cbn [setting]. destruct (setting rules src f) as [u|]; [by intros [= ->]; auto|].
  unfold rule_setting. destruct (decide (ru_field r = f)) as [<-|]; [|done]. cbn. apply Hr.
Qed.

Lemma overlay_address_usable h src :
  overlay property_rules src (default_full_config h) Field.master_addr <> EmptyString.
Proof.
  rewrite overlay_value. destruct (setting _ _ _) as [v|] eqn:Hs; [|done].
  exact (setting_usable _ _ _ _ property_rules_ok Hs).
Qed.

Lemma setting_off rules src f :
  forallb (fun r => negb (bool_decide (ru_field r = f))) rules = true -> setting rules src f = None.
Proof.
  induction rules as [|r rules IH]; [done|]. cbn [forallb setting]. intros [Hr H]%andb_true_iff. rewrite IH by done.
  apply rule_setting_off. by apply negb_true_iff, bool_decide_eq_false in Hr.
Qed.

Lemma masters_setting src : setting property_rules src Field.master_addrs = props_master_addrs src.
Proof.
  unfold property_rules, property_rules_addresses. cbn [app setting]. rewrite rule_setting_at, rule_setting_off by done.
  match goal with |- context [setting ?rules src Field.master_addrs] =>
    rewrite (setting_off rules) by reflexivity end.
  by destruct (props_master_addrs src).
Qed.

Lemma props_master_addrs_several src l : props_master_addrs src = Some l -> l <> [].
Proof.
  intros (v & _ & H)%bind_Some. destruct (1 <? _)%nat eqn:Hl; [|done]. injection H as <-.
  by destruct (split_list v).
Qed.

Lemma preserve_value h addrs root base src f :
  (forall f, base f = argument_layer h addrs root f) ->
  preserve base (overlay property_rules src (default_full_config h)) f = dictionary_layer h addrs root src f.
Proof.
  intros Hbase. unfold preserve. cbv zeta. pose proof (overlay_address_usable h src) as Ha.
  destruct (String.eqb_spec (overlay property_rules src (default_full_config h) Field.master_addr) EmptyString)
    as [He|_]; [done|clear Ha].
  assert (Hroot : overlay property_rules src (default_full_config h) Field.root = EmptyString)
    by (by rewrite overlay_untouched by reflexivity).
  assert (Hl : overlay property_rules src (default_full_config h) Field.master_addrs = default [] (props_master_addrs src))
    by (rewrite overlay_value, masters_setting; reflexivity).
  assert (Hd : dictionary_layer h addrs root src Field.master_addrs = default (ha_list addrs) (props_master_addrs src))
    by (cbn [dictionary_layer]; by rewrite masters_setting).
  rewrite Hl. destruct (props_master_addrs src) as [l|] eqn:Hp; cbn [default from_option id] in *.
  - pose proof (props_master_addrs_several _ _ Hp) as Hne. destruct l as [|a l]; [done|]. cbv iota. rewrite Hroot. cbn [String.eqb].
    destruct (decide (f = Field.root)) as [->|Hr]; [by rewrite set_field_same, Hbase|]. rewrite set_field_other by done.
    destruct (decide (f = Field.master_addrs)) as [->|Hm]; [by rewrite Hl, Hd|]. rewrite overlay_value. by destruct f.
  - cbv iota. rewrite (set_field_other Field.master_addrs Field.root), Hroot by done. cbn [String.eqb].
    destruct (decide (f = Field.root)) as [->|Hr]; [by rewrite set_field_same, Hbase|]. rewrite set_field_other by done.
    destruct (decide (f = Field.master_addrs)) as [->|Hm]; [by rewrite set_field_same, Hbase, Hd|].
    rewrite set_field_other by done. rewrite overlay_value. by destruct f.
Qed.

(** The constructor refuses an unusable argument with an exception and never panics. *)
Theorem constructor_never_panics h arg props : py_config_new h arg props <> Ok None.
Proof.
  unfold py_config_new. destruct (named_masters arg) as [[addrs root]|] eqn:Hn.
  - destruct (base_config_named h arg addrs root Hn) as (_ & cfg & -> & _). cbn [result_bind].
    destruct props as [props|]; [|done]. by destruct (properties_buffer _ props).
  - unfold base_config, full_from_uri. unfold named_masters in Hn. destruct (starts_with _ _).
    + by destruct (parse_gfs_uri _).
    + by destruct (split_list arg).
Qed.

(** C1. What a Python configuration holds.  When the first argument names masters, by a list or
    a [gfs://] URI, the constructor succeeds.  Alone, the argument stands over the defaults and
    the environment over both.  With a [properties=] dictionary of plain entries, every
    field has the value of the environment, or else the one the dictionary gives as a
    properties file would, or else its default; of the first argument only its root and a
    list of several masters remain, so that a single master is replaced by the default
    address. *)
Theorem python_config_layers (h : Host) (arg root : string) (addrs : list string) (kvs : list (string * string)) :
  named_masters arg = Some (addrs, root) -> Forall plain_entry kvs ->
  let src key := foldl (fun m kv => <[fst kv := snd kv]> m) (∅ : gmap string string) kvs !! key in
  exists alone with_dict,
    py_config_new h arg None = Ok (Some alone) /\
    py_config_new h arg (Some (map py_entry kvs)) = Ok (Some with_dict) /\
    (forall f, alone f = default (argument_layer h addrs root f) (setting env_rules (ho_env h) f)) /\
    (forall f, with_dict f = default (dictionary_layer h addrs root src f) (setting env_rules (ho_env h) f)).
Proof.
  intros Hn Hkvs src. destruct (base_config_named h arg addrs root Hn) as (_ & base & Hb & Hf).
  unfold py_config_new. rewrite Hb. cbn [result_bind]. rewrite properties_buffer_plain by done. cbn [result_bind].
  do 2 eexists. split; [reflexivity|]. split; [reflexivity|]. unfold apply_env. split; intros f; rewrite overlay_value.
  - by rewrite Hf.
  - unfold from_properties_str, into_goosefs_config. change (EmptyString +:+ ?s) with s.
    rewrite properties_roundtrip by done. by rewrite (preserve_value h addrs root base).
Qed.
End PyConfig.

(** ** Examples *)

Definition plain_host : Host := mkHost (fun _ => None) (Some 8) false (fun _ => false) (fun _ => Err EmptyString).

Lemma python_config_layers_witness :
  named_masters "m1:9200, m2:9200" = Some (["m1:9200"; "m2:9200"], EmptyString)%string /\
  exists alone with_dict,
    py_config_new id plain_host "m1:9200, m2:9200" None = Ok (Some alone) /\
    py_config_new id plain_host "m1:9200, m2:9200"
      (Some [(Ok "goosefs.user.block.size.bytes.default", Ok "4MB")%string]) = Ok (Some with_dict) /\
    with_dict Field.block_size = 4194304 /\ with_dict Field.master_addrs = ["m1:9200"; "m2:9200"]%string.
Proof.
  split; [by vm_compute|].
  destruct (python_config_layers id plain_host "m1:9200, m2:9200" EmptyString ["m1:9200"; "m2:9200"]%string
              [("goosefs.user.block.size.bytes.default", "4MB")%string])
    as (alone & with_dict & Ha & Hd & _ & Hf).
  - by vm_compute.
  - repeat constructor; by vm_compute.
  - exists alone, with_dict. split; [exact Ha|]. split; [exact Hd|]. rewrite !Hf. split; by vm_compute.
Defined.

(** The documented call [Config("m1:9200", properties={...})] talks to the local host. *)
Example dictionary_replaces_the_master :
  (exists cfg, py_config_new id plain_host "m1:9200" None = Ok (Some cfg) /\
     master_addresses (core cfg) = ["m1:9200"]%string) /\
  exists cfg, py_config_new id plain_host "m1:9200"
      (Some [(Ok "goosefs.user.block.size.bytes.default", Ok "4MB")%string]) = Ok (Some cfg) /\
    master_addresses (core cfg) = ["127.0.0.1:9200"]%string.
Proof. split; eexists; (split; [reflexivity|]); by vm_compute. Qed.
