(* ===== verification/Context.v ===== *)
(** * The file system context

    [src/src/context.rs]: [FileSystemContext::connect], what it builds from the
    configuration and starts in the background, the refresh loops, [close] and [drop].
    The clients, the router, the caches and the metrics tasks are the other components;
    here they are put together.  What the servers answer while connecting and what the
    background tasks meet are inputs.

    The theorems follow a context from [connect] through any interleaving of its
    background tasks with calls of [close]. *)

From S2P Require Import Prelude Text Proto Errors HashRing Router MetadataCache Master Auth.
From S2P Require Import Metrics Pushgateway Config ConfigLoad ConfigLoadTheorems.

Definition REFRESH_CHECK_INTERVAL : Z := from_millis 30000.
Definition CONFIG_REFRESH_INTERVAL : Z := from_millis 60000.

(** ** The pieces [connect] builds *)

(** The text of the error [validate] answers with. *)
Definition validation_message (cfg : GoosefsConfig) (p : ConfigProblem) : string :=
  let ms duration := show_Z (duration / 1000000) in
  match p with
  | MissingFeature "metadata-cache" => "metadata_cache_enabled requires the `metadata-cache` crate feature"
  | MissingFeature "page-cache" => "client_cache_enabled requires the `page-cache` crate feature"
  | MissingFeature "page-cache-io-uring" =>
      "client_cache_uring_enabled requires the `page-cache-io-uring` crate feature"
  | MissingFeature _ => "pushgateway_enabled requires the `metrics-pushgateway` crate feature"
  | NoMasterAddress => "at least one master address must be provided (master_addr or master_addrs)"
  | EmptyMasterAddress => "master_addrs contains an empty address"
  | ZeroBlockSize => "block_size must be > 0"
  | ZeroChunkSize => "chunk_size must be > 0"
  | ChunkLargerThanBlock => "chunk_size must be <= block_size"
  | HeartbeatIntervalTooShort =>
      "metrics_heartbeat_interval must be >= 1000ms (got " +:+ ms (gc_metrics_heartbeat_interval cfg) +:+ "ms)"
  | HeartbeatTimeoutTooShort =>
      "metrics_heartbeat_timeout must be >= 1000ms (got " +:+ ms (gc_metrics_heartbeat_timeout cfg) +:+ "ms)"
  | HeartbeatTimeoutTooLong =>
      "metrics_heartbeat_timeout (" +:+ ms (gc_metrics_heartbeat_timeout cfg)
      +:+ "ms) must be < metrics_heartbeat_interval (" +:+ ms (gc_metrics_heartbeat_interval cfg)
      +:+ "ms) to prevent in-flight RPCs from piling up across ticks"
  end%string.

(** The socket calls: [None] when binding fails, [Some None] when the route or the address
    cannot be had. *)
Definition resolve_local_ip (socket : option (option string)) : string :=
  match socket with
  | Some (Some ip) => ip
  | _ => "127.0.0.1"
  end.

Definition with_push_interval (c : PushgatewayConfig) (interval : Z) : PushgatewayConfig :=
  mkPushgatewayConfig (pg_endpoint c) (pg_job c) (pg_instance c) (interval / 1000000) (pg_extra_labels c).

(** The configuration the push task is started with, if it is. *)
Definition pushgateway_config (h : Host) (cfg : FullConfig) (socket : option (option string)) (pid : Z)
    : option PushgatewayConfig :=
  let chosen : option FullConfig :=
    if cfg Field.pushgateway_enabled then Some cfg
    else
      match from_properties_auto h with
      | Ok file_cfg => if file_cfg Field.pushgateway_enabled then Some file_cfg else None
      | Err _ => None
      end in
  effective ← chosen;
  let effective : FullConfig := effective in
  let pg_config :=
    with_push_interval
      (pushgateway_new (effective Field.pushgateway_endpoint) (effective Field.pushgateway_job))
      (effective Field.pushgateway_push_interval) in
  Some (match effective Field.pushgateway_instance with
        | Some instance => with_instance pg_config instance
        | None => with_instance pg_config (resolve_local_ip socket +:+ ":" +:+ show_Z pid)
        end).

(** ** State *)

(** The worker list loop: asleep, waiting for the list it asked for, or over. *)
Inductive WorkerTask : Type := WorkerSleeping | WorkerFetching | WorkerGone.

Inductive ConfigTask : Type := ConfigStarting | ConfigSleeping | ConfigGone.

(** How far the call of [close] that is running has come: the names say what is next. *)
Inductive ClosePoint : Type :=
| AbortWorkerTask | AbortConfigTask | SignalHeartbeat | AwaitHeartbeat | SignalPush | AwaitPush.

Record FileSystemContext (C L : Type) : Type := mkContext {
  cx_config : FullConfig;
  cx_worker_manager : bool;
  cx_router : WorkerRouter;
  cx_cache_manager : option C;
  cx_metadata_cache : option (MetadataCache L);
  cx_refresher : ConfigRefresher;
  cx_closed : bool;
  cx_closing : option ClosePoint;
  cx_worker_task : WorkerTask;
  cx_config_task : ConfigTask;
  cx_heartbeat : option (TaskState (gmap string Z) ClientMetrics);
  cx_push : option (TaskState unit string);
}.
Arguments mkContext {C L}.
Arguments cx_config {C L}.
Arguments cx_worker_manager {C L}.
Arguments cx_router {C L}.
Arguments cx_cache_manager {C L}.
Arguments cx_metadata_cache {C L}.
Arguments cx_refresher {C L}.
Arguments cx_closed {C L}.
Arguments cx_closing {C L}.
Arguments cx_worker_task {C L}.
Arguments cx_config_task {C L}.
Arguments cx_heartbeat {C L}.
Arguments cx_push {C L}.

(** What [connect] meets: the features compiled in, the host, the time, the answers of the
    master pool and of the worker manager, the page cache, the metrics client, and the
    socket and process number that name a push instance. *)
Record Answers (C : Type) : Type := mkAnswers {
  an_features : Features;
  an_host : Host;
  an_now : Z;
  an_master_pool : result Error unit;
  an_worker_manager : result Error unit;
  an_worker_list : result Error (list WorkerInfo);
  an_cache : result Error C;
  an_metrics_client : result Error unit;
  an_registry : Registry;
  an_socket : option (option string);
  an_pid : Z;
}.
Arguments mkAnswers {C}.
Arguments an_features {C}.
Arguments an_host {C}.
Arguments an_now {C}.
Arguments an_master_pool {C}.
Arguments an_worker_manager {C}.
Arguments an_worker_list {C}.
Arguments an_cache {C}.
Arguments an_metrics_client {C}.
Arguments an_registry {C}.
Arguments an_socket {C}.
Arguments an_pid {C}.

Section Context_.
Context {C L : Type} `{!Lru L}.
(** The parameters of the router's fingerprint and of its search for a local worker. *)
Context (xxh3 : bytes -> Z) (hostname : option string) (is_local_address : string -> bool).

Abbreviation Ctx := (FileSystemContext C L).

(** ** Connecting *)

(** The workers found, if the worker manager is to be used. *)
Definition discovered (a : Answers C) : option (list WorkerInfo) :=
  match an_worker_manager a with
  | Err _ => None
  | Ok _ =>
      match an_worker_list a with
      | Ok [] => None
      | Ok workers => Some workers
      | Err _ => None
      end
  end.

Definition build_cache_manager (a : Answers C) (cfg : FullConfig) : option C :=
  if ft_page_cache (an_features a) then
    if cfg Field.client_cache_enabled then match an_cache a with Ok c => Some c | Err _ => None end else None
  else None.

Definition build_metadata_cache (cfg : FullConfig) : option (MetadataCache L) :=
  if cfg Field.metadata_cache_enabled
  then maybe_new (cfg Field.metadata_cache_expiration) (cfg Field.metadata_cache_max_size)
  else None.

Definition start_worker_refresh_task (worker_manager : bool) : WorkerTask :=
  if worker_manager then WorkerSleeping else WorkerGone.

Definition start_metrics_heartbeat_task (a : Answers C) (cfg : FullConfig)
    : result Error (option (TaskState (gmap string Z) ClientMetrics)) :=
  if negb (cfg Field.metrics_enabled) then Ok None
  else let? _ := an_metrics_client a in Ok (Some (spawn (an_registry a) ∅)).

Definition start_pushgateway_task (a : Answers C) (cfg : FullConfig) : option (TaskState unit string) :=
  if ft_metrics_pushgateway (an_features a) then
    (fun _ => spawn (an_registry a) tt) <$> pushgateway_config (an_host a) cfg (an_socket a) (an_pid a)
  else None.

Definition connect (a : Answers C) (cfg : FullConfig) : result Error Ctx :=
  match validate (an_features a) (core cfg) with
  | Err p => Err (InvalidArgument (validation_message (core cfg) p))
  | Ok _ =>
      let? _ := an_master_pool a in
      let router := with_ttls (an_now a) (from_millis 60000) (from_millis 30000) in
      let router :=
        match discovered a with
        | Some workers => update_workers xxh3 hostname is_local_address (an_now a) workers router
        | None => router
        end in
      let worker_manager := match discovered a with Some _ => true | None => false end in
      let? heartbeat := start_metrics_heartbeat_task a cfg in
      Ok (mkContext cfg worker_manager router (build_cache_manager a cfg) (build_metadata_cache cfg)
            (from_config (an_now a) cfg) false None (start_worker_refresh_task worker_manager)
            ConfigStarting heartbeat (start_pushgateway_task a cfg))
  end.

(** ** Invalidation *)

Definition invalidate_metadata (c : option (MetadataCache L)) (path : string) (with_parent : bool)
    : option (MetadataCache L) :=
  (fun cache => if with_parent then invalidate_with_parent cache path else mc_invalidate cache path) <$> c.

Definition invalidate_file_info (c : option (MetadataCache L)) (path : string) : option (MetadataCache L) :=
  invalidate_metadata c path true.

(** ** The background *)

Definition set_router (x : Ctx) (r : WorkerRouter) (t : WorkerTask) : Ctx :=
  mkContext (cx_config x) (cx_worker_manager x) r (cx_cache_manager x) (cx_metadata_cache x) (cx_refresher x)
    (cx_closed x) (cx_closing x) t (cx_config_task x) (cx_heartbeat x) (cx_push x).

Definition set_refresher (x : Ctx) (r : ConfigRefresher) (t : ConfigTask) : Ctx :=
  mkContext (cx_config x) (cx_worker_manager x) (cx_router x) (cx_cache_manager x) (cx_metadata_cache x) r
    (cx_closed x) (cx_closing x) (cx_worker_task x) t (cx_heartbeat x) (cx_push x).

Definition set_closing (x : Ctx) (closed : bool) (p : option ClosePoint) : Ctx :=
  mkContext (cx_config x) (cx_worker_manager x) (cx_router x) (cx_cache_manager x) (cx_metadata_cache x)
    (cx_refresher x) closed p (cx_worker_task x) (cx_config_task x) (cx_heartbeat x) (cx_push x).

Definition set_tasks (x : Ctx) (hb : option (TaskState (gmap string Z) ClientMetrics))
    (push : option (TaskState unit string)) : Ctx :=
  mkContext (cx_config x) (cx_worker_manager x) (cx_router x) (cx_cache_manager x) (cx_metadata_cache x)
    (cx_refresher x) (cx_closed x) (cx_closing x) (cx_worker_task x) (cx_config_task x) hb push.

(** The loop of [start_worker_refresh_task] after a sleep, up to the request. *)
Definition worker_wake (now : Z) (x : Ctx) : Ctx :=
  set_router x (cx_router x)
    (if cx_closed x then WorkerGone
     else if needs_refresh now (cx_router x) then WorkerFetching else WorkerSleeping).

(** Its answer. *)
Definition worker_fetched (now : Z) (fetched : result Error (list WorkerInfo)) (x : Ctx) : Ctx :=
  set_router x (fst (refresh_workers xxh3 hostname is_local_address now fetched (cx_router x))) WorkerSleeping.

(** One turn of [start_config_refresh_task]; the first is before the first sleep and does not
    look at [closed]. *)
Definition config_turn (h : Host) (now done : Z) (x : Ctx) : Ctx :=
  let refreshed := fst (refresh_transparent_acceleration_switch h now done (cx_refresher x)) in
  match cx_config_task x with
  | ConfigStarting => set_refresher x refreshed ConfigSleeping
  | _ => if cx_closed x then set_refresher x (cx_refresher x) ConfigGone
         else set_refresher x refreshed ConfigSleeping
  end.

(** An event of a metrics task, if there is one. *)
Definition task_event {M P : Type} (beat : Registry -> M -> M * option P) (ev : TaskEvent)
    (t : option (TaskState M P)) : option (option (TaskState M P)) :=
  match t with
  | None => Some None
  | Some t => Some <$> task_step beat t ev
  end.

(** ** Shutting down *)

Inductive ContextEvent : Type :=
| CtxWorkerWake (now : Z)
| CtxWorkerFetched (now : Z) (fetched : result Error (list WorkerInfo))
| CtxConfigTurn (h : Host) (now done : Z)
| CtxCount (name : string) (n : Z)
| CtxHeartbeatWake
| CtxHeartbeatAnswer (o : BeatOutcome)
| CtxPushWake
| CtxPushAnswer (o : BeatOutcome)
| CtxClose
| CtxCloseNext
| CtxDrop.

Section Steps.
Context (app_id : string).

Abbreviation hb_event := (task_event (heartbeat_beat app_id)).
Abbreviation push_event := (task_event push_beat).

(** [close]: the flag is shared with the heartbeat task. *)
Definition close (x : Ctx) : option Ctx :=
  if cx_closed x then Some x
  else
    hb ← hb_event EvClose (cx_heartbeat x);
    Some (set_closing (set_tasks x hb (cx_push x)) true (Some AbortWorkerTask)).

(** The rest of the first call, step by step.  [shutdown] signals the task and then waits for
    it with a time limit; the end of the wait drops the task's handle, which signals again. *)
Definition close_next (x : Ctx) (p : ClosePoint) : option Ctx :=
  match p with
  | AbortWorkerTask =>
      Some (set_closing (set_router x (cx_router x) WorkerGone) true (Some AbortConfigTask))
  | AbortConfigTask =>
      Some (set_closing (set_refresher x (cx_refresher x) ConfigGone) true (Some SignalHeartbeat))
  | SignalHeartbeat =>
      hb ← hb_event EvSend (cx_heartbeat x);
      Some (set_closing (set_tasks x hb (cx_push x)) true (Some AwaitHeartbeat))
  | AwaitHeartbeat =>
      hb ← hb_event EvTrySend (cx_heartbeat x);
      Some (set_closing (set_tasks x hb (cx_push x)) true (Some SignalPush))
  | SignalPush =>
      closed ← push_event EvClose (cx_push x);
      push ← push_event EvSend closed;
      Some (set_closing (set_tasks x (cx_heartbeat x) push) true (Some AwaitPush))
  | AwaitPush =>
      push ← push_event EvTrySend (cx_push x);
      Some (set_closing (set_tasks x (cx_heartbeat x) push) true None)
  end.

(** [drop], when no call is running; the push task is dropped with the fields.  After [close]
    there is nothing left to abort or to signal. *)
Definition drop_context (x : Ctx) : option Ctx :=
  if cx_closed x then Some x
  else
    hb ← hb_event EvClose (cx_heartbeat x);
    hb ← hb_event EvTrySend hb;
    push ← push_event EvClose (cx_push x);
    push ← push_event EvTrySend push;
    Some (set_closing (set_tasks (set_refresher (set_router x (cx_router x) WorkerGone) (cx_refresher x) ConfigGone)
                         hb push) true None).

(** One event; [None] when it cannot happen. *)
Definition context_step (x : Ctx) (ev : ContextEvent) : option Ctx :=
  match ev with
  | CtxWorkerWake now =>
      match cx_worker_task x with WorkerSleeping => Some (worker_wake now x) | _ => None end
  | CtxWorkerFetched now fetched =>
      match cx_worker_task x with WorkerFetching => Some (worker_fetched now fetched x) | _ => None end
  | CtxConfigTurn h now done =>
      match cx_config_task x with ConfigGone => None | _ => Some (config_turn h now done x) end
  | CtxCount name n =>
      hb ← hb_event (EvInc name n) (cx_heartbeat x);
      push ← push_event (EvInc name n) (cx_push x);
      Some (set_tasks x hb push)
  | CtxHeartbeatWake => hb ← hb_event EvWake (cx_heartbeat x); Some (set_tasks x hb (cx_push x))
  | CtxHeartbeatAnswer o => hb ← hb_event (EvAnswer o) (cx_heartbeat x); Some (set_tasks x hb (cx_push x))
  | CtxPushWake => push ← push_event EvWake (cx_push x); Some (set_tasks x (cx_heartbeat x) push)
  | CtxPushAnswer o => push ← push_event (EvAnswer o) (cx_push x); Some (set_tasks x (cx_heartbeat x) push)
  | CtxClose => close x
  | CtxCloseNext => p ← cx_closing x; close_next x p
  | CtxDrop => match cx_closing x with None => drop_context x | Some _ => None end
  end.

Fixpoint context_run (x : Ctx) (evs : list ContextEvent) : option Ctx :=
  match evs with
  | [] => Some x
  | ev :: evs => x ← context_step x ev; context_run x evs
  end.
End Steps.

(** ** Tasks that are being stopped *)

(** Not signalled yet; [closed] is the flag. *)
Definition unsignalled {M P : Type} (closed : bool) (t : TaskState M P) : Prop :=
  ts_closed t = closed /\ ts_flush t = false.

(** Told to stop: it has exited, or it is in a beat it will exit after, or a signal is waiting
    for it. *)
Definition stopping {M P : Type} (t : TaskState M P) : Prop :=
  ts_closed t = true /\ (ts_phase t = Waiting -> ts_flush t = true).

(** The events a task takes by itself. *)
Definition own_event (ev : TaskEvent) : Prop :=
  match ev with EvInc _ _ | EvWake | EvAnswer _ => True | _ => False end.

Lemma own_event_unsignalled {M P} (beat : Registry -> M -> M * option P) c t ev t' :
  own_event ev -> task_step beat t ev = Some t' -> unsignalled c t -> unsignalled c t'.
Proof.
  intros Hev Hs [Hc Hf]. destruct ev; try done; cbn in Hs;
    [injection Hs as <-; done| |destruct (ts_phase t); [done| |done]; injection Hs as <-; done].
  destruct (ts_phase t); [|done|done]. destruct (beat (ts_registry t) (ts_local t)) as [l p].
  injection Hs as <-. done.
Qed.

Lemma own_event_stopping {M P} (beat : Registry -> M -> M * option P) t ev t' :
  own_event ev -> task_step beat t ev = Some t' -> stopping t -> stopping t'.
Proof.
  intros Hev Hs [Hc Hf]. destruct ev; try done; cbn in Hs; [by injection Hs as <-| |];
    destruct (ts_phase t) eqn:Hp; try done.
  - destruct (beat (ts_registry t) (ts_local t)) as [l p]. injection Hs as <-. split; [done|]. cbn.
    rewrite Hc. by destruct p.
  - injection Hs as <-. split; [done|]. cbn. by rewrite Hc.
Qed.

Lemma close_event {M P} (beat : Registry -> M -> M * option P) t :
  unsignalled false t -> exists t', task_step beat t EvClose = Some t' /\ unsignalled true t'.
Proof. intros [Hc Hf]. by eexists. Qed.

Lemma send_event {M P} (beat : Registry -> M -> M * option P) t :
  unsignalled true t -> exists t', task_step beat t EvSend = Some t' /\ stopping t'.
Proof.
  intros [Hc Hf]. cbn. rewrite Hf. destruct (ts_phase t) eqn:Hp; eexists; (split; [reflexivity|]); split; cbn; try done.
  by rewrite Hp.
Qed.

Lemma try_send_event {M P} (beat : Registry -> M -> M * option P) t :
  ts_closed t = true -> exists t', task_step beat t EvTrySend = Some t' /\ stopping t'.
Proof.
  intros Hc. cbn. destruct (ts_phase t) eqn:Hp; eexists; (split; [reflexivity|]); split; cbn; try done.
  by rewrite Hp.
Qed.

(** The same for a task that may not have been started. *)
Definition on_task {M P : Type} (Q : TaskState M P -> Prop) (t : option (TaskState M P)) : Prop :=
  from_option Q True t.

Lemma task_event_own {M P} (beat : Registry -> M -> M * option P) (Q : TaskState M P -> Prop) ev t t' :
  (forall t t', task_step beat t ev = Some t' -> Q t -> Q t') ->
  task_event beat ev t = Some t' -> on_task Q t -> on_task Q t'.
Proof.
  intros HQ Hs Hq. destruct t as [t|]; cbn in Hs; [|by injection Hs as <-].
  apply fmap_Some in Hs as (t1 & Hs & ->). by apply (HQ t).
Qed.

Lemma task_event_given {M P} (beat : Registry -> M -> M * option P) (Q R : TaskState M P -> Prop) ev t :
  (forall t, Q t -> exists t', task_step beat t ev = Some t' /\ R t') ->
  on_task Q t -> exists t', task_event beat ev t = Some t' /\ on_task R t'.
Proof.
  intros HQ Hq. destruct t as [t|]; [|by exists None]. destruct (HQ t Hq) as (t' & Hs & Hr).
  exists (Some t'). cbn. by rewrite Hs.
Qed.

(** ** The life of a context *)

(** How far the shutdown has come. *)
Definition stage (x : Ctx) : nat :=
  match cx_closed x, cx_closing x with
  | false, _ => 0
  | true, Some AbortWorkerTask => 1
  | true, Some AbortConfigTask => 2
  | true, Some SignalHeartbeat => 3
  | true, Some AwaitHeartbeat => 4
  | true, Some SignalPush => 5
  | true, Some AwaitPush => 6
  | true, None => 7
  end%nat.

Definition heartbeat_at (n : nat) (t : TaskState (gmap string Z) ClientMetrics) : Prop :=
  match n with
  | 0 => unsignalled false t
  | 1 | 2 | 3 => unsignalled true t
  | _ => stopping t
  end%nat.

Definition push_at (n : nat) (t : TaskState unit string) : Prop :=
  if (n <=? 5)%nat then unsignalled false t else stopping t.

Record context_inv (x : Ctx) : Prop := {
  ci_closing : cx_closed x = false -> cx_closing x = None;
  ci_worker : (2 <= stage x)%nat -> cx_worker_task x = WorkerGone;
  ci_config : (3 <= stage x)%nat -> cx_config_task x = ConfigGone;
  ci_heartbeat : on_task (heartbeat_at (stage x)) (cx_heartbeat x);
  ci_push : on_task (push_at (stage x)) (cx_push x);
}.

Lemma own_heartbeat_at app_id n ev t t' :
  own_event ev -> task_step (heartbeat_beat app_id) t ev = Some t' -> heartbeat_at n t -> heartbeat_at n t'.
Proof.
  intros Hev Hs. destruct n as [|[|[|[|n]]]]; cbn; eauto using own_event_unsignalled, own_event_stopping.
Qed.

Lemma own_push_at n ev t t' : own_event ev -> task_step push_beat t ev = Some t' -> push_at n t -> push_at n t'.
Proof.
  intros Hev Hs. unfold push_at. destruct (n <=? 5)%nat; eauto using own_event_unsignalled, own_event_stopping.
Qed.

(** A change of the metrics tasks that keeps them where they are. *)
Lemma set_tasks_inv x hb push :
  context_inv x -> on_task (heartbeat_at (stage x)) hb -> on_task (push_at (stage x)) push ->
  context_inv (set_tasks x hb push).
Proof. intros [] Hh Hp. by constructor. Qed.

Lemma close_runs app_id x : context_inv x ->
  exists x', close app_id x = Some x' /\ context_inv x' /\ (cx_closed x = false -> stage x' = 1%nat).
Proof.
  intros Hi. unfold close. destruct (cx_closed x) eqn:Hc; [by exists x|].
  assert (H0 : stage x = 0%nat) by (unfold stage; by rewrite Hc). destruct Hi as [Hl Hw Hf Hh Hp].
  rewrite H0 in *.
  destruct (task_event_given (heartbeat_beat app_id) _ (unsignalled true) EvClose _
              (close_event (heartbeat_beat app_id)) Hh) as (hb & -> & Hhb).
  eexists. split; [reflexivity|]. split; [|done]. constructor; cbn; try done; lia.
Qed.

Lemma close_next_runs app_id x p : context_inv x -> cx_closing x = Some p ->
  exists x', close_next app_id x p = Some x' /\ context_inv x' /\ stage x' = S (stage x).
Proof.
  intros [Hl Hw Hf Hh Hp] Hx.
  assert (Hc : cx_closed x = true) by (destruct (cx_closed x); [done|]; by rewrite Hl in Hx).
  unfold stage in *. rewrite Hc, Hx in *. destruct p; cbn [close_next].
  - eexists. split; [reflexivity|]. split; [|done]. constructor; cbn; try done; lia.
  - eexists. split; [reflexivity|]. split; [|done]. constructor; cbn; try done. intros _. apply Hw. lia.
  - destruct (task_event_given (heartbeat_beat app_id) _ stopping EvSend _
                (send_event (heartbeat_beat app_id)) Hh) as (hb & -> & Hhb).
    eexists. split; [reflexivity|]. split; [|done].
    constructor; cbn; try done; intros; [apply Hw|apply Hf]; lia.
  - destruct (task_event_given (heartbeat_beat app_id) stopping stopping EvTrySend _
                (fun t H => try_send_event (heartbeat_beat app_id) t (proj1 H)) Hh) as (hb & -> & Hhb).
    eexists. split; [reflexivity|]. split; [|done].
    constructor; cbn; try done; intros; [apply Hw|apply Hf]; lia.
  - destruct (task_event_given push_beat _ (unsignalled true) EvClose _ (close_event push_beat) Hp)
      as (closed & -> & Hcl). cbn [mbind option_bind].
    destruct (task_event_given push_beat _ stopping EvSend _ (send_event push_beat) Hcl) as (push & -> & Hpu).
    eexists. split; [reflexivity|]. split; [|done].
    constructor; cbn; try done; intros; [apply Hw|apply Hf]; lia.
  - destruct (task_event_given push_beat stopping stopping EvTrySend _
                (fun t H => try_send_event push_beat t (proj1 H)) Hp) as (push & -> & Hpu).
    eexists. split; [reflexivity|]. split; [|done].
    constructor; cbn; try done; intros; [apply Hw|apply Hf]; lia.
Qed.

Lemma drop_inv app_id x x' : context_inv x -> drop_context app_id x = Some x' -> context_inv x'.
Proof.
  intros Hi. unfold drop_context. destruct (cx_closed x) eqn:Hc; [by intros [= <-]|].
  assert (H0 : stage x = 0%nat) by (unfold stage; by rewrite Hc). destruct Hi as [Hl Hw Hf Hh Hp].
  rewrite H0 in *.
  destruct (task_event_given (heartbeat_beat app_id) _ (unsignalled true) EvClose _
              (close_event (heartbeat_beat app_id)) Hh) as (hb & -> & Hhb).
  destruct (task_event_given push_beat _ (unsignalled true) EvClose _ (close_event push_beat) Hp) as (pc & -> & Hpc).
  cbn [mbind option_bind].
  destruct (task_event_given (heartbeat_beat app_id) _ stopping EvTrySend _
              (fun t H => try_send_event (heartbeat_beat app_id) t (proj1 H)) Hhb) as (hb' & -> & Hhb').
  destruct (task_event_given push_beat _ stopping EvTrySend _
              (fun t H => try_send_event push_beat t (proj1 H)) Hpc) as (pc' & -> & Hpc').
  cbn [mbind option_bind]. intros [= <-]. by constructor.
Qed.

(** An event of the metrics tasks alone. *)
Lemma own_step_inv app_id x ev ev' hb push : context_inv x -> own_event ev -> own_event ev' ->
  (task_event (heartbeat_beat app_id) ev (cx_heartbeat x) = Some hb \/ hb = cx_heartbeat x) ->
  (task_event push_beat ev' (cx_push x) = Some push \/ push = cx_push x) ->
  context_inv (set_tasks x hb push).
Proof.
  intros Hi Hev Hev' Hh Hp. apply set_tasks_inv; [done|..].
  - destruct Hh as [Hh| ->]; [|apply Hi]. eapply task_event_own; [|exact Hh|apply Hi].
    intros t t'. by apply own_heartbeat_at.
  - destruct Hp as [Hp| ->]; [|apply Hi]. eapply task_event_own; [|exact Hp|apply Hi].
    intros t t'. by apply own_push_at.
Qed.

Lemma context_step_inv app_id x ev x' : context_inv x -> context_step app_id x ev = Some x' -> context_inv x'.
Proof.
  intros Hi Hs. destruct ev; cbn in Hs.
  - destruct (cx_worker_task x) eqn:Hw; try done. injection Hs as <-. destruct Hi as [? Hg ? ? ?].
    constructor; try done. cbn. intros Hst. by rewrite Hg in Hw.
  - destruct (cx_worker_task x) eqn:Hw; try done. injection Hs as <-. destruct Hi as [? Hg ? ? ?].
    constructor; try done. cbn. intros Hst. by rewrite Hg in Hw.
  - assert (Hst : cx_config_task x <> ConfigGone -> ~ (3 <= stage x)%nat) by (intros Hg Hst; by apply Hg, Hi).
    destruct Hi as [H1 H2 H3 H4 H5].
    destruct (cx_config_task x) eqn:Hg; [..|done]; injection Hs as <-; unfold config_turn; rewrite Hg;
      [|destruct (cx_closed x) eqn:Hc]; constructor; try done; intros H; first [by destruct (Hst ltac:(done))|by apply H1|cbn in H; congruence].
  - apply bind_Some in Hs as (hb & Hh & (push & Hp & [= <-])%bind_Some).
    by eapply own_step_inv; [exact Hi|..|left; exact Hh|left; exact Hp].
  - apply bind_Some in Hs as (hb & Hh & [= <-]).
    by eapply (own_step_inv _ _ _ EvWake); [exact Hi|..|left; exact Hh|right].
  - apply bind_Some in Hs as (hb & Hh & [= <-]).
    by eapply (own_step_inv _ _ _ EvWake); [exact Hi|..|left; exact Hh|right].
  - apply bind_Some in Hs as (push & Hp & [= <-]).
    by eapply (own_step_inv "" _ EvWake); [exact Hi|..|right|left; exact Hp].
  - apply bind_Some in Hs as (push & Hp & [= <-]).
    by eapply (own_step_inv "" _ EvWake); [exact Hi|..|right|left; exact Hp].
  - destruct (close_runs app_id x Hi) as (x1 & Hx & Hi1 & _). congruence.
  - apply bind_Some in Hs as (p & Hp & Hs). destruct (close_next_runs app_id x p Hi Hp) as (x1 & Hx & Hi1 & _).
    congruence.
  - destruct (cx_closing x); [done|]. by eapply drop_inv.
Qed.

Lemma context_run_inv app_id evs x x' : context_inv x -> context_run app_id x evs = Some x' -> context_inv x'.
Proof.
  revert x. induction evs as [|ev evs IH]; intros x Hi; cbn; [by intros [= <-]|].
  intros (x1 & Hs & Hr)%bind_Some. by eapply IH, Hr; eapply context_step_inv.
Qed.

Lemma connect_inv a cfg x : connect a cfg = Ok x -> context_inv x.
Proof.
  unfold connect. destruct (validate _ _); [|done]. destruct (an_master_pool a); [|done]. cbn [result_bind].
  destruct (start_metrics_heartbeat_task a cfg) as [hb|] eqn:Hh; [|done]. cbn [result_bind]. intros [= <-].
  constructor; cbn; try done; try lia.
  - unfold start_metrics_heartbeat_task in Hh. destruct (cfg Field.metrics_enabled); cbn in Hh;
      [destruct (an_metrics_client a); [|done]; cbn in Hh|]; by injection Hh as <-.
  - unfold start_pushgateway_task. destruct (ft_metrics_pushgateway _); [|done]. by destruct (pushgateway_config _ _ _ _).
Qed.

(** The shutdown is over. *)
Definition shut_down (x : Ctx) : Prop := cx_closed x = true /\ cx_closing x = None.

Lemma close_finishes app_id x : context_inv x -> cx_closed x = true ->
  exists n x', (n <= 6)%nat /\ context_run app_id x (replicate n CtxCloseNext) = Some x' /\ shut_down x'.
Proof.
  intros Hi Hc. remember (7 - stage x)%nat as k eqn:Hk. assert (Hle : (k <= 6)%nat).
  { subst k. unfold stage. rewrite Hc. destruct (cx_closing x) as [[]|]; lia. }
  exists k. clear Hle. revert x Hi Hc Hk. induction k as [|k IH]; intros x Hi Hc Hk.
  - exists x. split; [lia|]. split; [done|]. split; [done|]. unfold stage in Hk. rewrite Hc in Hk.
    by destruct (cx_closing x) as [[]|].
  - destruct (cx_closing x) as [p|] eqn:Hp; [|unfold stage in Hk; rewrite Hc, Hp in Hk; lia].
    destruct (close_next_runs app_id x p Hi Hp) as (x1 & Hx & Hi1 & Hs).
    assert (Hc1 : cx_closed x1 = true) by (destruct (cx_closed x1) eqn:H1; [done|]; unfold stage in Hs; rewrite H1 in Hs; lia).
    destruct (IH x1 Hi1 Hc1 ltac:(lia)) as (x' & Hk' & Hr & Hd). exists x'. split; [|split; [|done]].
    + unfold stage in Hk. rewrite Hc, Hp in Hk. destruct p; lia.
    + cbn. rewrite Hp. cbn. by rewrite Hx.
Qed.

Lemma shut_down_step app_id x ev x' : context_inv x -> shut_down x -> context_step app_id x ev = Some x' ->
  shut_down x' /\ cx_router x' = cx_router x /\ cx_refresher x' = cx_refresher x.
Proof.
  intros Hi [Hc Hx] Hs. assert (H7 : stage x = 7%nat) by (unfold stage; by rewrite Hc, Hx).
  pose proof (ci_worker x Hi ltac:(lia)) as Hw. pose proof (ci_config x Hi ltac:(lia)) as Hf.
  destruct ev; cbn in Hs; rewrite ?Hw, ?Hf in Hs; try done.
  - apply bind_Some in Hs as (hb & _ & (push & _ & [= <-])%bind_Some). done.
  - apply bind_Some in Hs as (hb & _ & [= <-]). done.
  - apply bind_Some in Hs as (hb & _ & [= <-]). done.
  - apply bind_Some in Hs as (hb & _ & [= <-]). done.
  - apply bind_Some in Hs as (hb & _ & [= <-]). done.
  - unfold close in Hs. rewrite Hc in Hs. by injection Hs as <-.
  - by rewrite Hx in Hs.
  - rewrite Hx in Hs. unfold drop_context in Hs. rewrite Hc in Hs. by injection Hs as <-.
Qed.

Lemma shut_down_run app_id evs x x' : context_inv x -> shut_down x -> context_run app_id x evs = Some x' ->
  shut_down x' /\ cx_router x' = cx_router x /\ cx_refresher x' = cx_refresher x.
Proof.
  revert x. induction evs as [|ev evs IH]; intros x Hi Hd; cbn; [by intros [= <-]|].
  intros (x1 & Hs & Hr)%bind_Some. destruct (shut_down_step app_id x ev x1 Hi Hd Hs) as (Hd1 & Hr1 & Hf1).
  pose proof (context_step_inv app_id x ev x1 Hi Hs) as Hi1.
  destruct (IH x1 Hi1 Hd1 Hr) as (Hd' & Hr' & Hf'). split; [done|]. split; congruence.
Qed.


(** ** The worker list *)

Lemma no_task_step app_id x ev x' : cx_worker_task x = WorkerGone -> context_step app_id x ev = Some x' ->
  cx_worker_task x' = WorkerGone /\ cx_router x' = cx_router x.
Proof.
  intros Hw Hs. destruct ev; cbn in Hs; rewrite ?Hw in Hs; try done.
  - destruct (cx_config_task x) eqn:Hf; [..|done]; injection Hs as <-; unfold config_turn; rewrite Hf;
      [|destruct (cx_closed x)]; done.
  - apply bind_Some in Hs as (hb & _ & (push & _ & [= <-])%bind_Some). done.
  - apply bind_Some in Hs as (hb & _ & [= <-]). done.
  - apply bind_Some in Hs as (hb & _ & [= <-]). done.
  - apply bind_Some in Hs as (hb & _ & [= <-]). done.
  - apply bind_Some in Hs as (hb & _ & [= <-]). done.
  - unfold close in Hs. destruct (cx_closed x); [by injection Hs as <-|].
    apply bind_Some in Hs as (hb & _ & [= <-]). done.
  - apply bind_Some in Hs as (p & _ & Hs). destruct p; cbn in Hs; [by injection Hs as <-|by injection Hs as <-|..];
      repeat (apply bind_Some in Hs as (? & _ & Hs)); injection Hs as <-; done.
  - destruct (cx_closing x); [done|]. unfold drop_context in Hs. destruct (cx_closed x); [by injection Hs as <-|].
    do 4 (apply bind_Some in Hs as (? & _ & Hs)). injection Hs as <-. done.
Qed.

(** C28. What [connect] learns about the workers it keeps.  When the worker manager answers with
    workers, the router has exactly those and the refresh loop runs.  When the manager cannot
    be reached, its first answer is an error, or the list is still empty, the context is
    connected all the same, and whatever happens afterwards its router stays empty: no
    loop is started, so workers that register a moment later are never seen. *)
Theorem discovery_is_decided_once (app_id : string) (a : Answers C) (cfg : FullConfig) (x0 : Ctx) :
  connect a cfg = Ok x0 ->
  match discovered a with
  | Some workers =>
      wr_workers (cx_router x0) = workers /\ workers <> [] /\ cx_worker_task x0 = WorkerSleeping
  | None =>
      forall evs x1, context_run app_id x0 evs = Some x1 ->
        cx_router x1 = with_ttls (an_now a) (from_millis 60000) (from_millis 30000)
  end.
Proof.
  unfold connect. destruct (validate _ _); [|done]. destruct (an_master_pool a); [|done]. cbn [result_bind].
  destruct (start_metrics_heartbeat_task a cfg) as [hb|]; [|done]. cbn [result_bind]. intros [= <-].
  destruct (discovered a) as [workers|] eqn:Hd.
  - assert (Hne : workers <> []).
    { unfold discovered in Hd. destruct (an_worker_manager a); [|done]. destruct (an_worker_list a) as [[|w ws]|]; try done.
      injection Hd as <-. done. }
    split; [|done]. cbn. unfold update_workers. by rewrite andb_false_r.
  - intros evs. match goal with |- forall x1, context_run _ ?y _ = _ -> _ => set (x := y) end.
    assert (Hw : cx_worker_task x = WorkerGone) by done.
    change (with_ttls (an_now a) (from_millis 60000) (from_millis 30000)) with (cx_router x). clearbody x.
    revert x Hw. induction evs as [|ev evs IH]; intros x Hw x1; cbn; [by intros [= <-]|].
    intros (x2 & Hs & Hr)%bind_Some. destruct (no_task_step app_id x ev x2 Hw Hs) as [Hw2 Hr2].
    rewrite <- Hr2. by apply IH.
Qed.

(** The loop refetches a list that is a period old, and takes what the manager answers. *)
Theorem stale_list_is_refetched (app_id : string) (x : Ctx) (now later : Z) (workers : list WorkerInfo) :
  cx_worker_task x = WorkerSleeping -> cx_closed x = false ->
  wr_last_refresh (cx_router x) + wr_worker_refresh_ttl (cx_router x) <= now ->
  0 <= wr_worker_refresh_ttl (cx_router x) ->
  exists x', context_run app_id x [CtxWorkerWake now; CtxWorkerFetched later (Ok workers)] = Some x' /\
    workers_fingerprint xxh3 (wr_workers (cx_router x')) = workers_fingerprint xxh3 workers /\
    wr_last_refresh (cx_router x') = later /\ cx_worker_task x' = WorkerSleeping.
Proof.
  intros Hw Hc Hold Hpos. cbn. rewrite Hw. cbn. rewrite Hc.
  assert (needs_refresh now (cx_router x) = true) as -> by (unfold needs_refresh, elapsed; lia).
  eexists. split; [reflexivity|]. cbn. unfold update_workers.
  destruct (_ && _) eqn:Hsame; [|done]. apply andb_true_iff in Hsame as [Hsame _]. cbn. split; [lia|done].
Qed.

(** The first turn of the configuration loop, meant to load the file right after [connect],
    reads nothing: the refresher [connect] makes counts as loaded at that moment. *)
Theorem eager_load_reads_nothing (a : Answers C) (cfg : FullConfig) (x : Ctx) (h : Host) (now done : Z) :
  connect a cfg = Ok x -> now < an_now a + from_millis DEFAULT_CONFIG_EXPIRE_MS ->
  cx_refresher (config_turn h now done x) = from_config (an_now a) cfg.
Proof.
  unfold connect. destruct (validate _ _); [|done]. destruct (an_master_pool a); [|done]. cbn [result_bind].
  destruct (start_metrics_heartbeat_task a cfg) as [hb|]; [|done]. cbn [result_bind]. intros [= <-] Hn. cbn.
  unfold load_if_expire, needs_reload. cbn. unfold from_millis, DEFAULT_CONFIG_EXPIRE_MS in *.
  by replace (_ <=? _) with false by lia.
Qed.
End Context_.

(** ** Examples *)

Module ContextDemo.
Definition workers : list WorkerInfo := [example_worker_used 1 "w1" 0].

Definition answers (found : list WorkerInfo) : Answers unit :=
  mkAnswers LoadDemo.all_features (LoadDemo.host LoadDemo.file) 0 (Ok tt) (Ok tt) (Ok found)
    (Err (Internal "no cache" None)) (Ok tt) empty_registry None 7.

Definition config : FullConfig := LoadDemo.config LoadDemo.file.

Notation connected found :=
  (connect (fun bs => Z.of_nat (length bs)) None (fun _ => false) (answers found) config
   : result Error (FileSystemContext unit FlushLru)) (only parsing).

Definition blank : FileSystemContext unit FlushLru :=
  mkContext config false (router_new 0) None None (from_config 0 config) false None WorkerGone ConfigGone None None.

Definition context (found : list WorkerInfo) : FileSystemContext unit FlushLru :=
  match connected found with Ok x => x | Err _ => blank end.

Notation run found evs :=
  (context_run (fun bs => Z.of_nat (length bs)) None (fun _ => false) "app" (context found) evs) (only parsing).

(** A beat under way, then [close] called twice. *)
Definition events : list ContextEvent :=
  [CtxCount "Client.BytesReadLocal" 5; CtxWorkerWake (from_millis 30000); CtxHeartbeatWake; CtxClose; CtxClose;
   CtxWorkerFetched (from_millis 30010) (Ok workers); CtxCloseNext; CtxCloseNext; CtxCloseNext;
   CtxHeartbeatAnswer BeatOk; CtxCloseNext; CtxCloseNext; CtxCloseNext].

Definition final : FileSystemContext unit FlushLru := default blank (run workers events).
End ContextDemo.

Lemma some_default {A} (a : A) (o : option A) : bool_decide (is_Some o) = true -> o = Some (default a o).
Proof. destruct o; done. Qed.

Lemma connected_context found : match ContextDemo.connected found with Ok _ => true | Err _ => false end = true ->
  ContextDemo.connected found = Ok (ContextDemo.context found).
Proof. unfold ContextDemo.context. by destruct (ContextDemo.connected found). Qed.

Lemma final_run : ContextDemo.run ContextDemo.workers ContextDemo.events = Some ContextDemo.final.
Proof. unfold ContextDemo.final. apply some_default. vm_compute. reflexivity. Qed.

Lemma final_shut_down : shut_down ContextDemo.final.
Proof. split; vm_compute; reflexivity. Qed.


Lemma discovery_is_decided_once_witness :
  wr_workers (cx_router (ContextDemo.context ContextDemo.workers)) = ContextDemo.workers /\
  forall evs x1, ContextDemo.run [] evs = Some x1 -> wr_workers (cx_router x1) = [].
Proof.
  split.
  - exact (proj1 (discovery_is_decided_once _ _ _ "app" _ _ _
                    (connected_context ContextDemo.workers ltac:(vm_compute; reflexivity)))).
  - intros evs x1 Hr.
    pose proof (discovery_is_decided_once _ _ _ "app" _ _ _
                  (connected_context [] ltac:(vm_compute; reflexivity))) as H.
    by rewrite (H evs x1 Hr).
Defined.
