(* ===== verification/BaseFileSystem.v ===== *)
(** * File system facade

    [src/src/fs/base_filesystem.rs] and [src/src/fs/write_type.rs]: the operations of
    [BaseFileSystem], made of the master client, the metadata cache, the location probe
    and [URIStatus].  Opening and writing files are the stream and writer components.

    The theorems follow a status through the cache: what is cached is the master's answer
    and never the probe's, and a mutation sends the next status back to the master. *)

From Stdlib Require Import Ascii.
From S2P Require Import Prelude Text Proto Errors HashRing Router BlockLocations UriStatus.
From S2P Require Import MetadataCache BlockWriter FileWriter Master MasterTheorems Config.

(** ** Write types in extended attributes *)

Definition WRITE_TYPE_XATTR_KEY : string := "innerWriteType".

(** [Inherit] is [None]. *)
Definition WriteTypeXAttr : Type := option WriteType.

(** Bytes of a string that [from_utf8] accepts and that can name a write type. *)
Fixpoint ascii_string (bs : list Z) : option string :=
  match bs with
  | [] => Some EmptyString
  | b :: bs =>
      if (0 <=? b) && (b <? 128) then String (ascii_of_N (Z.to_N b)) <$> ascii_string bs else None
  end.

Definition get_write_type_from_xattr (xattr : list (string * list Z)) : option WriteType :=
  raw ← snd <$> List.find (fun kv => String.eqb (fst kv) WRITE_TYPE_XATTR_KEY) xattr;
  s ← ascii_string raw;
  write_type_from_str s.

(** ** State *)

Record FsConfig : Type := mkFsConfig {
  fc_master : MasterConfig;
  fc_check_block_replicas : Z;
  fc_base : GoosefsConfig;
}.

Record CreateFileOptions : Type := mkCreateFileOptions {
  cfo_write_type : WriteTypeXAttr;
  cfo_block_size_bytes : option Z;
  cfo_recursive : bool;
}.

(** The metadata cache of the context, the pooled client the call was given with the world
    behind it, and the shared router. *)
Record FsState (L W : Type) : Type := mkFsState {
  fs_cache : option (MetadataCache L);
  fs_master : MasterClient * W;
  fs_router : WorkerRouter;
}.
Arguments mkFsState {L W}.
Arguments fs_cache {L W}.
Arguments fs_master {L W}.
Arguments fs_router {L W}.

(** What a location probe meets: the iteration orders of its hash maps, the answers of the
    workers and the clock. *)
Record ProbeEnv : Type := mkProbeEnv {
  pe_blocks_order : gmap Z (list WorkerInfo) -> list (Z * list WorkerInfo);
  pe_workers_order : gmap string (WorkerInfo * gset Z) -> list (string * (WorkerInfo * gset Z));
  pe_check_blocks : string -> gset Z -> option (gmap Z Z);
  pe_clock : nat -> Z;
}.

Section FileSystem.
Context {L : Type} `{!Lru L} {W : Type} `{!MasterNet W}.
Context (error_display : Error -> string) (cfg : FsConfig).

Abbreviation FS := (FsState L W).

(** ** Status *)

(** What is done to the owned copy of the status. *)
Definition probe_status (env : ProbeEnv) (router : WorkerRouter) (fi : FileInfo) : FileInfo :=
  if 0 <? fc_check_block_replicas cfg then
    snd (maybe_enrich_file_block_locations (pe_blocks_order env) (pe_workers_order env)
           (pe_check_blocks env) (pe_clock env) (from_shared router) (fc_check_block_replicas cfg) fi)
  else fill_in_goosefs_percentage_without_probe (ensure_block_ids_from_file_block_infos fi).

(** The cache is consulted at [now]; the master, when asked, answers at [fetched]. *)
Definition get_status_with_options (env : ProbeEnv) (now fetched : Z) (path : string)
    (sync : option Z) (load : option LoadMetadataPType) (s : FS) : FS * result Error URIStatus :=
  let sync := default (file_metadata_sync_interval (fc_master cfg)) sync in
  let load := default (file_metadata_load_type (fc_master cfg)) load in
  let '(asked, fetch) :=
    get_status_with_load_type error_display path (Some load) (Some sync) (fs_master s) in
  let '(cache, r, called) := get_status_through_cache now fetched (fs_cache s) path sync fetch in
  let s := mkFsState cache (if called then asked else fs_master s) (fs_router s) in
  (s, let? fi := r in Ok (from_proto (probe_status env (fs_router s) fi))).

Definition fs_get_status (env : ProbeEnv) (now fetched : Z) (path : string) (s : FS)
  : FS * result Error URIStatus := get_status_with_options env now fetched path None None s.

Definition fs_exists (env : ProbeEnv) (now fetched : Z) (path : string) (s : FS) : FS * result Error bool :=
  let '(s, r) := fs_get_status env now fetched path s in
  (s, match r with
      | Ok status => Ok (is_readable status)
      | Err (NotFound _) => Ok false
      | Err e => Err e
      end).

(** ** Listing *)

(** [None] when the recursive walk ran out of [fuel]. *)
Definition fs_list_status_with_options (fuel : nat) (now fetched : Z) (path : string) (recursive : bool)
    (sync : option Z) (load : option LoadMetadataPType) (load_metadata_only : bool) (s : FS)
  : FS * option (result Error (list URIStatus)) :=
  let sync := default (file_metadata_sync_interval (fc_master cfg)) sync in
  let load := default (file_metadata_load_type (fc_master cfg)) load in
  let statuses r := let? items := r in Ok (map from_proto items) in
  let '(asked, listing) :=
    list_status_with_options error_display (fc_master cfg) fuel path recursive (Some load) (Some sync)
      (fs_master s) in
  if recursive then (mkFsState (fs_cache s) asked (fs_router s), statuses <$> listing)
  else
    match listing with
    | None => (s, None)
    | Some fetch =>
        let skip := should_skip_listing_cache false load load_metadata_only sync in
        let '(cache, r, called) := list_status_through_cache now fetched (fs_cache s) path skip fetch in
        (mkFsState cache (if called then asked else fs_master s) (fs_router s), Some (statuses r))
    end.

Definition fs_list_status (fuel : nat) (now fetched : Z) (path : string) (recursive : bool) (s : FS)
  : FS * option (result Error (list URIStatus)) :=
  fs_list_status_with_options fuel now fetched path recursive None None false s.

(** ** Mutations *)

Definition fs_mkdir (path : string) (recursive : bool) (s : FS) : FS * result Error unit :=
  let '(m, r) := create_directory error_display (fc_master cfg) path recursive (fs_master s) in
  let '(cache, r) := invalidate_on_success (fs_cache s) path r in
  (mkFsState cache m (fs_router s), r).

Definition fs_delete (path : string) (opts : DeleteOptions) (s : FS) : FS * result Error unit :=
  let '(m, r) := delete_with_options error_display (fc_master cfg) path opts (fs_master s) in
  let '(cache, r) := invalidate_on_success (fs_cache s) path r in
  (mkFsState cache m (fs_router s), r).

Definition fs_rename (src dst : string) (s : FS) : FS * result Error unit :=
  let '(m, r) := rename error_display (fc_master cfg) src dst (fs_master s) in
  let '(cache, r) := invalidate_rename_on_success (fs_cache s) src dst r in
  (mkFsState cache m (fs_router s), r).

(** ** Creating files *)

(** The write type of a file nobody chose one for. *)
Definition default_write_type : WriteType :=
  default MustCache (pt ← get_write_type (fc_base cfg); write_type_try_from_proto pt).

(** A parent that cannot be read, for whatever reason, counts as one without the attribute. *)
Definition resolve_write_type (path : string) (options : CreateFileOptions) (s : FS) : FS * WriteType :=
  match cfo_write_type options with
  | Some wt => (s, wt)
  | None =>
      match parent_path path with
      | None => (s, default_write_type)
      | Some parent =>
          let '(m, r) := get_status error_display (fc_master cfg) parent (fs_master s) in
          let s := mkFsState (fs_cache s) m (fs_router s) in
          (s, match r with
              | Ok info => default default_write_type (get_write_type_from_xattr (us_xattr (from_proto info)))
              | Err _ => default_write_type
              end)
      end
  end.

(** The options [create_file] and [write_file] hand to the writer. *)
Definition create_options (path : string) (options : CreateFileOptions) (s : FS) : FS * CreateFilePOptions :=
  let '(s, wt) := resolve_write_type path options s in
  (s, mkCreateFilePOptions (Some (cfo_recursive options)) (cfo_block_size_bytes options) None
        (Some (write_type_as_i32 wt)) None).
End FileSystem.

(** ** From a cache without the path to the master *)

Section Facts.
Context {L : Type} `{!Lru L, !LruOk L} {W : Type} `{!MasterNet W}.
Context (error_display : Error -> string) (cfg : FsConfig).

Lemma get_status_absent (c : MetadataCache L) now fetched q sync fetch :
  lru_entries (mc_lru c) !! normalize_path q = None ->
  exists c', mc_ttl c' = mc_ttl c /\
    get_status_through_cache now fetched (Some c) q sync fetch = (Some (write_back fetched c' q fetch), fetch, true).
Proof.
  intros Hnone. unfold get_status_through_cache, write_back.
  pose proof (lookup_status_absent now c q Hnone) as Hs. pose proof (lookup_status_ttl now c q) as Ht.
  destruct (sync =? 0).
  - exists c. split; [done|]. destruct fetch as [info|e]; [done|]. by destruct (is_not_found e).
  - destruct (lookup_status now c q) as [c1 l]. cbn in Hs, Ht. subst l. exists c1. split; [done|].
    destruct fetch as [info|e]; [done|]. by destruct (is_not_found e).
Qed.

(** No live entry for [q]. *)
Definition uncached (s : FsState L W) (q : string) : Prop :=
  match fs_cache s with Some c => lru_entries (mc_lru c) !! normalize_path q = None | None => True end.

Abbreviation ask path sync load s :=
  (get_status_with_load_type error_display path
     (Some (default (file_metadata_load_type (fc_master cfg)) load))
     (Some (default (file_metadata_sync_interval (fc_master cfg)) sync)) (fs_master s)).

Lemma status_uncached env now fetched q sync load (s : FsState L W) :
  uncached s q ->
  let '(s', r) := get_status_with_options error_display cfg env now fetched q sync load s in
  fs_master s' = fst (ask q sync load s) /\ fs_router s' = fs_router s /\
  r = (let? fi := snd (ask q sync load s) in Ok (from_proto (probe_status cfg env (fs_router s) fi))).
Proof.
  unfold uncached, get_status_with_options. intros Hu. destruct (ask q sync load s) as [asked fetch].
  destruct (fs_cache s) as [c|].
  - destruct (get_status_absent c now fetched q (default (file_metadata_sync_interval (fc_master cfg)) sync) fetch Hu)
      as (c' & _ & ->). done.
  - unfold get_status_through_cache. destruct fetch as [info|e]; [done|]. by destruct (is_not_found e).
Qed.

Inductive FsMutation : Type :=
| FsMkdir (path : string) (recursive : bool)
| FsDelete (path : string) (opts : DeleteOptions)
| FsRename (src dst : string).

Definition fs_mutate (m : FsMutation) (s : FsState L W) : FsState L W * result Error unit :=
  match m with
  | FsMkdir path recursive => fs_mkdir error_display cfg path recursive s
  | FsDelete path opts => fs_delete error_display cfg path opts s
  | FsRename src dst => fs_rename error_display cfg src dst s
  end.

(** The paths a mutation changes: its own and their parents. *)
Definition changes (m : FsMutation) (k : string) : Prop :=
  match m with
  | FsMkdir path _ | FsDelete path _ => touched path k
  | FsRename src dst => touched src k \/ touched dst k
  end.

Lemma fs_mutate_cache m (s : FsState L W) :
  let '(s', r) := fs_mutate m s in
  (is_ok r = false -> fs_cache s' = fs_cache s) /\
  (is_ok r = true -> forall q, changes m (normalize_path q) -> uncached s' q).
Proof.
  destruct m as [path recursive|path opts|src dst]; cbn [fs_mutate changes];
    unfold fs_mkdir, fs_delete, fs_rename, invalidate_on_success, invalidate_rename_on_success, uncached.
  - destruct (create_directory _ _ _ _ _) as [m [[]|e]]; cbn; (split; [done|]); [intros _ q Hq|done].
    destruct (fs_cache s); cbn; [|done]. by apply invalidate_with_parent_absent.
  - destruct (delete_with_options _ _ _ _ _) as [m [[]|e]]; cbn; (split; [done|]); [intros _ q Hq|done].
    destruct (fs_cache s); cbn; [|done]. by apply invalidate_with_parent_absent.
  - destruct (rename _ _ _ _ _) as [m [[]|e]]; cbn; (split; [done|]); [intros _ q Hq|done].
    destruct (fs_cache s) as [c|]; cbn; [|done].
    destruct Hq as [Hq|Hq]; [|by apply invalidate_with_parent_absent].
    pose proof (invalidate_with_parent_absent c src _ Hq) as Hn.
    apply eq_None_not_Some. intros [e He].
    pose proof (lookup_weaken _ _ _ _ He (invalidate_with_parent_sub (invalidate_with_parent c src) dst)).
    congruence.
Qed.

(** What is cached is the master's answer, not the probe's.  After a status the master
    was asked for, a second one within the time to live sends nothing to the master, and
    reports the master's file with the locations of its own probe: neither the first
    probe's answers nor its cached share are remembered. *)
Theorem status_cached_without_probe (c : MetadataCache L) (env env' : ProbeEnv) now fetched now' fetched'
    path path' sync load sync' load' info (s : FsState L W) :
  fs_cache s = Some c -> uncached s path -> snd (ask path sync load s) = Ok info ->
  status_is_completed info = true -> normalize_path path' = normalize_path path ->
  fetched <= now' -> now' - fetched < mc_ttl c -> 0 < mc_ttl c ->
  default (file_metadata_sync_interval (fc_master cfg)) sync' <> 0 ->
  let '(s1, r1) := get_status_with_options error_display cfg env now fetched path sync load s in
  let '(s2, r2) := get_status_with_options error_display cfg env' now' fetched' path' sync' load' s1 in
  fs_master s2 = fs_master s1 /\
  r1 = Ok (from_proto (probe_status cfg env (fs_router s) info)) /\
  r2 = Ok (from_proto (probe_status cfg env' (fs_router s) info)).
Proof.
  intros Hc Hu Hinfo Hcomp Hn Hle Hage Httl Hsync. unfold uncached in Hu. rewrite Hc in Hu.
  unfold get_status_with_options at 1. destruct (ask path sync load s) as [asked fetch]. cbn in Hinfo. subst fetch.
  rewrite Hc.
  destruct (get_status_absent c now fetched path (default (file_metadata_sync_interval (fc_master cfg)) sync)
              (Ok info) Hu) as (c' & Ht & ->). cbn [write_back].
  unfold get_status_with_options. cbn [fs_master fs_cache fs_router].
  destruct (get_status_with_load_type _ _ _ _ asked) as [asked' fetch'].
  pose proof (get_status_after_put fetched now' fetched' c' path path' (SlotPresent info)
    (default (file_metadata_sync_interval (fc_master cfg)) sync') fetch' Hn Hle ltac:(by rewrite Ht)
    ltac:(by rewrite Ht) Hsync) as Hget. unfold insert_arc.
  destruct (get_status_through_cache _ _ _ _ _ _) as [[c2 r2] called]. rewrite Hcomp in Hget.
  destruct Hget as [-> ->]. done.
Qed.

(** C22. After a successful mutation the master decides.  The next status of a path the
    mutation changed, or of its parent, is the master's own answer at that time, whatever
    was cached before; a failed mutation leaves the cache alone. *)
Theorem mutation_seen_by_next_status (m : FsMutation) (env : ProbeEnv) now fetched q sync load
    (s : FsState L W) :
  let '(s1, r) := fs_mutate m s in
  let '(s2, r2) := get_status_with_options error_display cfg env now fetched q sync load s1 in
  (is_ok r = false -> fs_cache s1 = fs_cache s) /\
  (is_ok r = true -> changes m (normalize_path q) ->
   fs_master s2 = fst (ask q sync load s1) /\
   r2 = (let? fi := snd (ask q sync load s1) in Ok (from_proto (probe_status cfg env (fs_router s1) fi)))).
Proof.
  pose proof (fs_mutate_cache m s) as Hm. destruct (fs_mutate m s) as [s1 r]. destruct Hm as [Hfail Hok].
  pose proof (status_uncached env now fetched q sync load s1) as Hs.
  destruct (get_status_with_options _ _ _ _ _ _ _ _ s1) as [s2 r2]. split; [done|]. intros Hr Hq.
  by destruct (Hs (Hok Hr q Hq)) as (? & _ & ?).
Qed.
End Facts.

(** ** Witnesses and an example *)

(** A master that has a completed file of 3 bytes everywhere. *)
Definition same_file_net : MasterNet unit := {|
  net_send := fun _ req w =>
    (w, match req with
        | GetStatusRequest _ _ _ => Ok (StatusReply (Some (completed_info 3)))
        | _ => Ok DoneReply
        end);
  net_connect := fun w => (w, Ok 0);
  net_op_id := fun w => (w, mkFsOpPId 0 0);
|}.

Definition example_fs_config : FsConfig := mkFsConfig example_config 2 sample_config.

Definition example_fs : FsState FlushLru unit :=
  mkFsState (Some two_entry_cache) (from_parts 0, tt) example_router.

Definition silent_probe : ProbeEnv := mkProbeEnv map_to_list map_to_list (fun _ _ => None) (fun _ => 0).

Lemma status_cached_without_probe_witness :
  let get now fetched path := get_status_with_options (MasterNet0 := same_file_net) (fun _ => ""%string)
                                example_fs_config silent_probe now fetched path None None in
  let '(s1, r1) := get 0 1 "/a"%string example_fs in
  let '(s2, r2) := get 2 3 "/a/"%string s1 in
  fs_master s2 = fs_master s1 /\
  r1 = Ok (from_proto (probe_status example_fs_config silent_probe example_router (completed_info 3))) /\
  r2 = Ok (from_proto (probe_status example_fs_config silent_probe example_router (completed_info 3))).
Proof.
  apply (status_cached_without_probe (MasterNet0 := same_file_net) (fun _ => ""%string) example_fs_config
    two_entry_cache silent_probe silent_probe 0 1 2 3 "/a" "/a/" None None None None (completed_info 3) example_fs);
    reflexivity || (vm_compute; congruence) || idtac.
Defined.

Lemma mutation_seen_by_next_status_witness :
  let '(s1, r) := fs_mutate (MasterNet0 := same_file_net) (fun _ => ""%string) example_fs_config
                    (FsRename "/d" "/e") example_fs in
  let '(s2, r2) := get_status_with_options (MasterNet0 := same_file_net) (fun _ => ""%string)
                     example_fs_config silent_probe 2 3 "/e" None None s1 in
  is_ok r = true /\
  (is_ok r = true -> changes (FsRename "/d" "/e") (normalize_path "/e") ->
   fs_master s2 = fst (get_status_with_load_type (MasterNet0 := same_file_net) (fun _ => ""%string) "/e"
                         (Some LoadOnce) (Some (-1)) (fs_master s1))).
Proof.
  pose proof (mutation_seen_by_next_status (MasterNet0 := same_file_net) (fun _ => ""%string) example_fs_config
    (FsRename "/d" "/e") silent_probe 2 3 "/e" None None example_fs) as H.
  assert (Hok : is_ok (snd (fs_mutate (MasterNet0 := same_file_net) (fun _ => ""%string) example_fs_config
    (FsRename "/d" "/e") example_fs)) = true) by (vm_compute; reflexivity).
  destruct (fs_mutate _ _ _ _) as [s1 r]. destruct (get_status_with_options _ _ _ _ _ _ _ _ s1) as [s2 r2].
  split; [exact Hok|]. intros H1 H2. exact (proj1 (proj2 H H1 H2)).
Defined.

(** What lies below a renamed directory is not a path the rename changes: its cached status
    is served, with no call to the master, until it expires. *)
Example renamed_children_still_served :
  let get now fetched path := get_status_with_options (MasterNet0 := same_file_net) (fun _ => ""%string)
                                example_fs_config silent_probe now fetched path None None in
  let s1 := fst (get 0 1 "/d/f"%string example_fs) in
  let '(s2, r) := fs_rename (MasterNet0 := same_file_net) (fun _ => ""%string) example_fs_config "/d" "/e" s1 in
  let '(s3, r') := get 2 3 "/d/f"%string s2 in
  r = Ok tt /\ fs_master s3 = fs_master s2 /\ is_ok r' = true.
Proof. by vm_compute. Qed.
