(* ===== verification/PyClient.v ===== *)
(** * Python bindings: the clients

    [AsyncGoosefs] and [Goosefs] of src/bindings/python/src/filesystem.rs and sync_fs.rs with
    the handle of context.rs: connecting, the single and the batched calls, closing and the
    [with] statements.  The calls go to the SDK through [SdkCall]; what the SDK does with
    one is an argument, and every call is logged, so that the theorems say what a client
    sends and when.  A call to a method and the wait for its answer are one step, and the
    calls of a batch take effect one after the other in the order the combinator picks. *)

From stdpp Require Import sorting.
From S2P Require Import Prelude Text Errors UriStatus FileWriter Master Config PyErrors PyStream PyWriter.

(** ** What the SDK is asked *)

(** The methods of [FileSystemContext], [BaseFileSystem], [GoosefsFileReader],
    [GoosefsFileWriter] and [GoosefsFileInStream] the clients call. *)
Inductive SdkCall : Type :=
| SdkConnect
| SdkGetStatus (path : string)
| SdkListStatus (path : string) (recursive : bool)
| SdkExists (path : string)
| SdkMkdir (path : string) (recursive : bool)
| SdkDelete (path : string) (opts : DeleteOptions)
| SdkRename (src dst : string)
| SdkReadFile (path : string)
| SdkReadRange (path : string) (offset length : Z)
| SdkWriteFile (path : string) (data : list Z) (opts : CreateFilePOptions)
| SdkOpenInStream (path : string)
| SdkCreateWriter (path : string) (opts : CreateFilePOptions)
| SdkCloseContext.

(** [RUNTIME_MAX_BLOCKING_THREADS] and the limits of the two kinds of batch. *)
Definition BATCH_CONCURRENCY_LIMIT : nat := 64.
Definition RESOURCE_BATCH_CONCURRENCY_LIMIT : nat := 64.

(** [StreamExt::buffered]: of the futures of a stream at most so many are in flight, each
    runs once, and the answers come in the order of the stream.  What is left open is the
    order in which the calls take effect. *)
Class Buffered : Type := {
  buffered_order : nat -> nat -> list nat;
  buffered_perm : forall limit len, buffered_order limit len ≡ₚ seq 0 len;
}.

(** [collect::<Result<Vec<_>, _>>]: the first error counts. *)
Fixpoint collect {A : Type} (rs : list (PyResult A)) : PyResult (list A) :=
  match rs with
  | [] => Ok []
  | Err e :: _ => Err e
  | Ok a :: rs => let? l := collect rs in Ok (a :: l)
  end.

(** [chunks_exact(2)]. *)
Fixpoint chunks_of_two (l : list string) : list (string * string) :=
  match l with
  | a :: b :: l => (a, b) :: chunks_of_two l
  | _ => []
  end.

Definition parse_read_range (show_status : Status -> string) (offset length : Z) : PyResult (Z * Z) :=
  if (offset <? 0) || (length <? 0)
  then Err (map_err show_status (InvalidArgument
         ("read_range offset and length must be non-negative (offset=" +:+ show_Z offset +:+ ", length="
          +:+ show_Z length +:+ ")")))
  else Ok (offset, length).

Section Client.
(** The world of the SDK, and its open streams and writers. *)
Context {W Stream Writer : Type}.

Definition answer (c : SdkCall) : Type :=
  match c with
  | SdkConnect | SdkMkdir _ _ | SdkDelete _ _ | SdkRename _ _ | SdkCloseContext => unit
  | SdkGetStatus _ => URIStatus
  | SdkListStatus _ _ => list URIStatus
  | SdkExists _ => bool
  | SdkReadFile _ | SdkReadRange _ _ _ => list Z
  | SdkWriteFile _ _ _ => Z
  | SdkOpenInStream _ => Stream
  | SdkCreateWriter _ _ => Writer
  end.

Context (sdk : forall c : SdkCall, W -> W * result Error (answer c)) (show_status : Status -> string).
Context {Hbuf : Buffered}.
Context (front : Front).

Record St : Type := mkSt { st_world : W; st_log : list SdkCall }.

Definition Act (A : Type) : Type := St -> St * PyResult A.

(** A call with its [.map_err(map_err)]. *)
Definition perform (c : SdkCall) : Act (answer c) := fun st =>
  let '(w, r) := sdk c (st_world st) in
  (mkSt w (st_log st ++ [c]), py_result show_status r).

(** ** The client *)

(** Whether the handle is there, and for [Goosefs] the process that made it. *)
Record PyClient : Type := mkPyClient {
  pc_open : bool;
  pc_creator_pid : Z;
}.

Definition forked (creator pid : Z) (advice : string) : PyErr :=
  mkPyErr PyRuntimeError ("Goosefs cannot be used after fork (created in pid=" +:+ show_Z creator
    +:+ ", now in pid=" +:+ show_Z pid +:+ ")" +:+ advice).

Definition client_handle (pid : Z) (c : PyClient) : PyResult unit :=
  match front with
  | AsyncFront => if pc_open c then Ok tt else Err (mkPyErr PyRuntimeError "AsyncGoosefs is closed")
  | SyncFront =>
      if negb (pid =? pc_creator_pid c)
      then Err (forked (pc_creator_pid c) pid "; reconnect in the child process")
      else if pc_open c then Ok tt else Err (mkPyErr PyRuntimeError "Goosefs is closed")
  end.

Definition client_guard (site : CallSite) : option PyErr :=
  match front with AsyncFront => None | SyncFront => goosefs_guard site end.

(** [future_into_py], or [guarded_block_on]. *)
Definition drive {A : Type} (site : CallSite) (body : Act A) : Act A := fun st =>
  match client_guard site with
  | Some e => (st, Err e)
  | None => body st
  end.

Definition with_handle {A : Type} (pid : Z) (c : PyClient) (body : Act A) : Act A := fun st =>
  match client_handle pid c with
  | Err e => (st, Err e)
  | Ok _ => body st
  end.

(** [connect], and [Goosefs(...)]. *)
Definition py_connect (site : CallSite) (pid : Z) : Act PyClient :=
  drive site (fun st =>
    let '(st, r) := perform SdkConnect st in
    (st, let? _ := r in Ok (mkPyClient true pid))).

(** ** Batches *)

(** The calls of [items] in the given order, the answers by index. *)
Fixpoint run_order {A B : Type} (f : A -> Act B) (items : list A) (order : list nat) (st : St) :
    St * gmap nat (PyResult B) :=
  match order with
  | [] => (st, ∅)
  | i :: order =>
      match items !! i with
      | None => run_order f items order st
      | Some a =>
          let '(st, r) := f a st in
          let '(st, rs) := run_order f items order st in
          (st, <[i := r]> rs)
      end
  end.

(** [stream::iter(items.map(f)).buffered(limit).collect::<Vec<_>>()], then
    [collect::<PyResult<Vec<_>>>()]: all the answers are there before the first is looked at. *)
Definition batch {A B : Type} (limit : nat) (f : A -> Act B) (items : list A) : Act (list B) := fun st =>
  let '(st, rs) := run_order f items (buffered_order limit (length items)) st in
  (st, collect (omap (fun i => rs !! i) (seq 0 (length items)))).

(** [collect::<PyResult<()>>()]. *)
Definition batch_unit {A : Type} (limit : nat) (f : A -> Act unit) (items : list A) : Act unit := fun st =>
  let '(st, r) := batch limit f items st in
  (st, let? _ := r in Ok tt).

(** ** Methods *)

Section Methods.
Context (site : CallSite) (pid : Z) (c : PyClient).

Definition method {A : Type} (body : Act A) : Act A := with_handle pid c (drive site body).

Definition py_get_status (path : string) : Act URIStatus := method (perform (SdkGetStatus path)).

(** Also [list_status_grouped], whose list object wraps the same statuses. *)
Definition py_list_status (path : string) (recursive : bool) : Act (list URIStatus) :=
  method (perform (SdkListStatus path recursive)).

Definition py_exists (path : string) : Act bool := method (perform (SdkExists path)).

Definition py_mkdir (path : string) (recursive : bool) : Act unit := method (perform (SdkMkdir path recursive)).

Definition py_delete (path : string) (recursive unchecked goosefs_only : bool) : Act unit :=
  method (perform (SdkDelete path (mkDeleteOptions recursive unchecked goosefs_only))).

(** [PyDeleteOptions::into_sdk] keeps the three flags. *)
Definition py_delete_with_options (path : string) (options : DeleteOptions) : Act unit :=
  method (perform (SdkDelete path options)).

Definition py_rename (src dst : string) : Act unit := method (perform (SdkRename src dst)).

Definition py_read_file (path : string) : Act (list Z) := method (perform (SdkReadFile path)).

(** The range is looked at before the client. *)
Definition py_read_range (path : string) (offset length : Z) : Act (list Z) := fun st =>
  match parse_read_range show_status offset length with
  | Err e => (st, Err e)
  | Ok (offset, length) => method (perform (SdkReadRange path offset length)) st
  end.

(** The payload is looked at after the client and before the guard. *)
Definition py_write_file (path : string) (data : PyObject) (write_type : option WriteType)
    (block_size_bytes : option Z) (recursive : bool) : Act Z :=
  with_handle pid c (fun st =>
    match extract_bytes_like data with
    | Err e => (st, Err e)
    | Ok payload =>
        drive site (perform (SdkWriteFile path payload
          (build_create_file_options write_type block_size_bytes recursive))) st
    end).

(** The stream and the writer are then wrapped by [from_sdk]. *)
Definition py_open_file (path : string) : Act Stream := method (perform (SdkOpenInStream path)).

Definition py_create_file (path : string) (write_type : option WriteType) (block_size_bytes : option Z)
    (recursive : bool) : Act Writer :=
  method (perform (SdkCreateWriter path (build_create_file_options write_type block_size_bytes recursive))).

Definition py_batch_get_status (paths : list string) : Act (list URIStatus) :=
  method (batch BATCH_CONCURRENCY_LIMIT (fun p => perform (SdkGetStatus p)) paths).

Definition py_batch_exists (paths : list string) : Act (list bool) :=
  method (batch BATCH_CONCURRENCY_LIMIT (fun p => perform (SdkExists p)) paths).

Definition py_batch_open_file (paths : list string) : Act (list Stream) :=
  method (batch RESOURCE_BATCH_CONCURRENCY_LIMIT (fun p => perform (SdkOpenInStream p)) paths).

(** Empty files, with the bytes written. *)
Definition py_batch_create_file (paths : list string) (write_type : option WriteType)
    (block_size_bytes : option Z) (recursive : bool) : Act (list Z) :=
  let opts := build_create_file_options write_type block_size_bytes recursive in
  method (batch BATCH_CONCURRENCY_LIMIT (fun p => perform (SdkWriteFile p [] opts)) paths).

Definition py_batch_create_dir (paths : list string) (recursive : bool) : Act unit :=
  method (batch_unit BATCH_CONCURRENCY_LIMIT (fun p => perform (SdkMkdir p recursive)) paths).

Definition py_batch_rename (pairs : list string) : Act unit := fun st =>
  if negb (Nat.even (length pairs))
  then (st, Err (mkPyErr PyValueError "pairs must have even length (flat src, dst, src, dst, ...)"))
  else method (batch_unit BATCH_CONCURRENCY_LIMIT (fun '(src, dst) => perform (SdkRename src dst))
                 (chunks_of_two pairs)) st.

Definition py_batch_delete (paths : list string) (recursive unchecked goosefs_only : bool) : Act unit :=
  let opts := mkDeleteOptions recursive unchecked goosefs_only in
  method (batch_unit BATCH_CONCURRENCY_LIMIT (fun p => perform (SdkDelete p opts)) paths).

(** Also [batch_list_status_grouped]. *)
Definition py_batch_list_status (dirs : list string) (recursive : bool) : Act (list (list URIStatus)) :=
  method (batch BATCH_CONCURRENCY_LIMIT (fun d => perform (SdkListStatus d recursive)) dirs).

(** ** Lifecycle *)

(** The handle is taken first.  [__exit__] and [__aexit__] are [close]. *)
Definition py_client_close (st : St) : PyClient * St * PyResult unit :=
  if match front with AsyncFront => false | SyncFront => negb (pid =? pc_creator_pid c) end
  then (c, st, Err (forked (pc_creator_pid c) pid EmptyString))
  else
    let closed := mkPyClient false (pc_creator_pid c) in
    if pc_open c then
      let '(st, r) := drive site (perform SdkCloseContext) st in (closed, st, r)
    else (closed, st, Ok tt).
End Methods.

(** ** Sequences of calls *)

Inductive Method : Type :=
| MGetStatus (path : string)
| MListStatus (path : string) (recursive : bool)
| MExists (path : string)
| MMkdir (path : string) (recursive : bool)
| MDelete (path : string) (recursive unchecked goosefs_only : bool)
| MDeleteWithOptions (path : string) (options : DeleteOptions)
| MRename (src dst : string)
| MReadFile (path : string)
| MReadRange (path : string) (offset length : Z)
| MWriteFile (path : string) (data : PyObject) (write_type : option WriteType) (block_size : option Z)
    (recursive : bool)
| MOpenFile (path : string)
| MCreateFile (path : string) (write_type : option WriteType) (block_size : option Z) (recursive : bool)
| MBatchGetStatus (paths : list string)
| MBatchExists (paths : list string)
| MBatchOpenFile (paths : list string)
| MBatchCreateFile (paths : list string) (write_type : option WriteType) (block_size : option Z)
    (recursive : bool)
| MBatchCreateDir (paths : list string) (recursive : bool)
| MBatchRename (pairs : list string)
| MBatchDelete (paths : list string) (recursive unchecked goosefs_only : bool)
| MBatchListStatus (dirs : list string) (recursive : bool)
| MClose.

Inductive PyAnswer : Type :=
| AnsNone | AnsBool (b : bool) | AnsInt (n : Z) | AnsBytes (b : list Z) | AnsStatus (s : URIStatus)
| AnsReader (s : Stream) | AnsWriter (w : Writer) | AnsList (l : list PyAnswer).

Record Call : Type := mkCall { ca_site : CallSite; ca_pid : Z; ca_method : Method }.

Definition answering {A : Type} (k : A -> PyAnswer) (f : Act A) : Act PyAnswer := fun st =>
  let '(st, r) := f st in (st, let? a := r in Ok (k a)).

(** A method other than [close]; [close] is [None]. *)
Definition ordinary (site : CallSite) (pid : Z) (c : PyClient) (m : Method) : option (Act PyAnswer) :=
  match m with
  | MGetStatus p => Some (answering AnsStatus (py_get_status site pid c p))
  | MListStatus p r => Some (answering (fun l => AnsList (map AnsStatus l)) (py_list_status site pid c p r))
  | MExists p => Some (answering AnsBool (py_exists site pid c p))
  | MMkdir p r => Some (answering (fun _ => AnsNone) (py_mkdir site pid c p r))
  | MDelete p r u g => Some (answering (fun _ => AnsNone) (py_delete site pid c p r u g))
  | MDeleteWithOptions p o => Some (answering (fun _ => AnsNone) (py_delete_with_options site pid c p o))
  | MRename src dst => Some (answering (fun _ => AnsNone) (py_rename site pid c src dst))
  | MReadFile p => Some (answering AnsBytes (py_read_file site pid c p))
  | MReadRange p o n => Some (answering AnsBytes (py_read_range site pid c p o n))
  | MWriteFile p d wt bs r => Some (answering AnsInt (py_write_file site pid c p d wt bs r))
  | MOpenFile p => Some (answering AnsReader (py_open_file site pid c p))
  | MCreateFile p wt bs r => Some (answering AnsWriter (py_create_file site pid c p wt bs r))
  | MBatchGetStatus ps => Some (answering (fun l => AnsList (map AnsStatus l)) (py_batch_get_status site pid c ps))
  | MBatchExists ps => Some (answering (fun l => AnsList (map AnsBool l)) (py_batch_exists site pid c ps))
  | MBatchOpenFile ps => Some (answering (fun l => AnsList (map AnsReader l)) (py_batch_open_file site pid c ps))
  | MBatchCreateFile ps wt bs r =>
      Some (answering (fun l => AnsList (map AnsInt l)) (py_batch_create_file site pid c ps wt bs r))
  | MBatchCreateDir ps r => Some (answering (fun _ => AnsNone) (py_batch_create_dir site pid c ps r))
  | MBatchRename ps => Some (answering (fun _ => AnsNone) (py_batch_rename site pid c ps))
  | MBatchDelete ps r u g => Some (answering (fun _ => AnsNone) (py_batch_delete site pid c ps r u g))
  | MBatchListStatus ds r =>
      Some (answering (fun l => AnsList (map (fun s => AnsList (map AnsStatus s)) l)) (py_batch_list_status site pid c ds r))
  | MClose => None
  end.

Definition client_call (call : Call) (c : PyClient) (st : St) : PyClient * St * PyResult PyAnswer :=
  match ordinary (ca_site call) (ca_pid call) c (ca_method call) with
  | Some f => let '(st, r) := f st in (c, st, r)
  | None =>
      let '(c, st, r) := py_client_close (ca_site call) (ca_pid call) c st in
      (c, st, let? _ := r in Ok AnsNone)
  end.

Fixpoint client_calls (calls : list Call) (c : PyClient) (st : St) : PyClient * St * list (PyResult PyAnswer) :=
  match calls with
  | [] => (c, st, [])
  | call :: calls =>
      let '(c, st, r) := client_call call c st in
      let '(c, st, rs) := client_calls calls c st in
      (c, st, r :: rs)
  end.

(** ** What is sent *)

(** Whatever the action sends satisfies [P]. *)
Definition sends {A : Type} (P : SdkCall -> Prop) (f : Act A) : Prop :=
  forall st, exists sent, st_log (fst (f st)) = st_log st ++ sent /\ Forall P sent.

Lemma sends_nothing {A} P (r : PyResult A) : sends P (fun st => (st, r)).
Proof. intros st. exists []. by rewrite app_nil_r. Qed.

Lemma sends_perform (P : SdkCall -> Prop) k : P k -> sends P (perform k).
Proof.
  intros Hk st. exists [k]. unfold perform. destruct (sdk k (st_world st)) as [w r]. cbn.
  split; [done|by constructor].
Qed.

Lemma sends_drive {A} P site (f : Act A) : sends P f -> sends P (drive site f).
Proof. intros Hf st. unfold drive. destruct (client_guard site); [apply (sends_nothing P (Err _))|apply Hf]. Qed.

Lemma sends_with_handle {A} P pid c (f : Act A) : sends P f -> sends P (with_handle pid c f).
Proof. intros Hf st. unfold with_handle. destruct (client_handle pid c); [apply Hf|apply (sends_nothing P (Err _))]. Qed.

Lemma sends_method {A} P site pid c (f : Act A) : sends P f -> sends P (method site pid c f).
Proof. intros Hf. by apply sends_with_handle, sends_drive. Qed.

Lemma sends_answering {A} P k (f : Act A) : sends P f -> sends P (answering k f).
Proof.
  intros Hf st. destruct (Hf st) as (sent & Hs & HP). exists sent. unfold answering. by destruct (f st) as [st' r].
Qed.

Lemma sends_run_order {A B} P (f : A -> Act B) items order st :
  (forall a, sends P (f a)) ->
  exists sent, st_log (fst (run_order f items order st)) = st_log st ++ sent /\ Forall P sent.
Proof.
  intros Hf. revert st. induction order as [|i order IH]; intros st; cbn [run_order].
  { exists []. by rewrite app_nil_r. }
  destruct (items !! i) as [a|]; [|apply IH]. destruct (Hf a st) as (s1 & H1 & HP1).
  destruct (f a st) as [st1 r]. destruct (IH st1) as (s2 & H2 & HP2).
  destruct (run_order f items order st1) as [st2 rs]. cbn in *. exists (s1 ++ s2). rewrite H2, H1, app_assoc.
  split; [done|by apply Forall_app].
Qed.

Lemma sends_batch {A B} P limit (f : A -> Act B) items : (forall a, sends P (f a)) -> sends P (batch limit f items).
Proof.
  intros Hf st. destruct (sends_run_order P f items (buffered_order limit (length items)) st Hf) as (sent & Hs & HP).
  exists sent. unfold batch. by destruct (run_order f items _ st).
Qed.

Lemma sends_batch_unit {A} P limit (f : A -> Act unit) items :
  (forall a, sends P (f a)) -> sends P (batch_unit limit f items).
Proof.
  intros Hf st. destruct (sends_batch P limit f items Hf st) as (sent & Hs & HP). exists sent. unfold batch_unit.
  by destruct (batch limit f items st).
Qed.

Ltac sends_call :=
  lazymatch goal with |- sends ?P (perform ?k) => exact (sends_perform P k ltac:(done)) end.

Lemma ordinary_keeps_context site pid c m f :
  ordinary site pid c m = Some f -> sends (fun k => k <> SdkCloseContext) f.
Proof.
  destruct m; cbn [ordinary]; try done; intros [= <-]; apply sends_answering;
    try solve [apply sends_method; first [sends_call|apply sends_batch; intros; sends_call
                                         |apply sends_batch_unit; intros; sends_call]].
  - intros st. unfold py_read_range. destruct (parse_read_range _ _ _) as [[o n]|e].
    + apply sends_method. sends_call.
    + apply (sends_nothing _ (Err e)).
  - apply sends_with_handle. intros st. destruct (extract_bytes_like data) as [b|e].
    + apply sends_drive. sends_call.
    + apply (sends_nothing _ (Err e)).
  - intros st. unfold py_batch_rename. destruct (negb _); [apply (sends_nothing _ (Err _))|].
    apply sends_method, sends_batch_unit. intros [src dst]. sends_call.
Qed.

(** A call that takes the handle: [close], in the process that made the client. *)
Definition takes_handle (creator : Z) (call : Call) : bool :=
  match ca_method call with
  | MClose => match front with AsyncFront => true | SyncFront => ca_pid call =? creator end
  | _ => false
  end.

(** What closing sends: one close of the context, when the call is let through. *)
Definition closing (call : Call) : list SdkCall :=
  match client_guard (ca_site call) with None => [SdkCloseContext] | Some _ => [] end.

(** Without a handle a method answers with an error and does nothing. *)
Lemma refused_without_handle site pid c m f st e :
  client_handle pid c = Err e -> ordinary site pid c m = Some f -> exists r, f st = (st, r).
Proof.
  intros He. destruct m; cbn [ordinary]; try done; intros [= <-]; unfold answering, py_get_status, py_list_status,
    py_exists, py_mkdir, py_delete, py_delete_with_options, py_rename, py_read_file, py_read_range, py_write_file,
    py_open_file, py_create_file, py_batch_get_status, py_batch_exists, py_batch_open_file, py_batch_create_file,
    py_batch_create_dir, py_batch_rename, py_batch_delete, py_batch_list_status, method, with_handle;
    rewrite ?He; try (by eexists).
  - destruct (parse_read_range _ _ _) as [[??]|?]; by eexists.
  - destruct (negb _); by eexists.
Qed.

Lemma closed_sends_nothing call c st :
  pc_open c = false ->
  exists c' r, client_call call c st = (c', st, r) /\ pc_open c' = false /\ pc_creator_pid c' = pc_creator_pid c.
Proof.
  intros Hc. assert (Hh : exists e, client_handle (ca_pid call) c = Err e).
  { unfold client_handle. rewrite Hc. destruct front; [eauto|]. destruct (negb _); eauto. }
  destruct Hh as [e He]. unfold client_call. destruct (ordinary _ _ c (ca_method call)) as [f|] eqn:Hf.
  - destruct (refused_without_handle _ _ _ _ _ st _ He Hf) as [r ->]. by do 2 eexists.
  - unfold py_client_close. rewrite Hc. destruct front; [by do 2 eexists|]. destruct (negb _); by do 2 eexists.
Qed.

Lemma open_call call c st :
  pc_open c = true ->
  let '(c', st', _) := client_call call c st in
  pc_creator_pid c' = pc_creator_pid c /\ pc_open c' = negb (takes_handle (pc_creator_pid c) call) /\
  if takes_handle (pc_creator_pid c) call then st_log st' = st_log st ++ closing call
  else exists sent, st_log st' = st_log st ++ sent /\ SdkCloseContext ∉ sent.
Proof.
  intros Hc. unfold client_call. destruct (ordinary _ _ c (ca_method call)) as [f|] eqn:Hf.
  - assert (takes_handle (pc_creator_pid c) call = false) as ->.
    { unfold takes_handle. revert Hf. destruct (ca_method call); intros Hf; [reflexivity..|discriminate Hf]. }
    destruct (ordinary_keeps_context _ _ _ _ _ Hf st) as (sent & Hs & HP). destruct (f st) as [st' r].
    split; [done|]. split; [done|]. exists sent. split; [done|]. intros Hin.
    by apply (proj1 (Forall_forall _ _) HP) in Hin.
  - assert (ca_method call = MClose) as Hm by (revert Hf; destruct (ca_method call); intros Hf; [discriminate Hf..|reflexivity]).
    unfold takes_handle. rewrite Hm. unfold py_client_close, closing, drive, perform. rewrite Hc.
    destruct front; [|destruct (ca_pid call =? pc_creator_pid c); cbn [negb]];
      (destruct (client_guard (ca_site call)) as [e|]); try destruct (sdk SdkCloseContext (st_world st)) as [w r]; cbn;
      rewrite ?app_nil_r; repeat split; try done;
      exists []; (split; [by rewrite app_nil_r|apply not_elem_of_nil]).
Qed.

Lemma closed_calls calls c st :
  pc_open c = false ->
  exists c' rs, client_calls calls c st = (c', st, rs) /\ pc_open c' = false.
Proof.
  revert c. induction calls as [|call calls IH]; intros c Hc; [by do 2 eexists|]. cbn [client_calls].
  destruct (closed_sends_nothing call c st Hc) as (c1 & r & -> & H1 & _). destruct (IH c1 H1) as (c2 & rs & -> & H2).
  by do 2 eexists.
Qed.

(** C1. A client closes its context at most once and sends nothing afterwards.  Over any calls
    on an open client, the calls before the first [close] of its process send what they
    send but never close the context; that [close] takes the handle and, when it is not
    refused for being made in an event loop or a runtime, closes the context; whatever
    comes later, from whatever process or place, sends nothing. *)
Theorem client_closes_once (calls : list Call) (c : PyClient) (st : St) :
  pc_open c = true ->
  let '(c', st', _) := client_calls calls c st in
  pc_open c' = negb (existsb (takes_handle (pc_creator_pid c)) calls) /\
  exists sent, SdkCloseContext ∉ sent /\
    st_log st' = st_log st ++ sent ++
      match List.find (takes_handle (pc_creator_pid c)) calls with Some call => closing call | None => [] end.
Proof.
  revert c st. induction calls as [|call calls IH]; intros c st Hc; cbn [client_calls].
  { split; [by rewrite Hc|]. exists []. split; [by apply not_elem_of_nil|]. by rewrite app_nil_r. }
  pose proof (open_call call c st Hc) as Ho. destruct (client_call call c st) as [[c1 st1] r].
  destruct Ho as (Hp & Ho & Hs). cbn [existsb List.find]. destruct (takes_handle (pc_creator_pid c) call).
  - destruct (closed_calls calls c1 st1 Ho) as (c2 & rs & -> & H2). split; [done|]. exists [].
    split; [by apply not_elem_of_nil|done].
  - specialize (IH c1 st1 Ho). destruct (client_calls calls c1 st1) as [[c2 st2] rs]. rewrite Hp in IH.
    destruct IH as (Hopen & sent2 & Hn2 & H2), Hs as (sent1 & H1 & Hn1). split; [done|]. exists (sent1 ++ sent2).
    split; [rewrite elem_of_app; tauto|]. by rewrite H2, H1, <- !app_assoc.
Qed.

(** ** Batches *)

(** The world after a sequence of calls. *)
Fixpoint world_after (calls : list SdkCall) (w : W) : W :=
  match calls with
  | [] => w
  | k :: calls => world_after calls (fst (sdk k w))
  end.

(** The calls of the items in the given order. *)
Definition calls_in {A : Type} (call : A -> SdkCall) (items : list A) (order : list nat) : list SdkCall :=
  omap (fun i => call <$> items !! i) order.

(** [f] is one call per item and a conversion of its answer. *)
Definition calls_each {A B : Type} (call : A -> SdkCall) (conv : forall a, PyResult (answer (call a)) -> PyResult B)
    (f : A -> Act B) : Prop :=
  forall a st, f a st = (fst (perform (call a) st), conv a (snd (perform (call a) st))).

(** What the SDK answers to a call made after the given ones. *)
Definition answer_after {A B : Type} (call : A -> SdkCall) (conv : forall a, PyResult (answer (call a)) -> PyResult B)
    (before : list SdkCall) (w : W) (a : A) : PyResult B :=
  conv a (py_result show_status (snd (sdk (call a) (world_after before w)))).

Lemma run_order_spec {A B : Type} call (conv : forall a, PyResult (answer (call a)) -> PyResult B) (f : A -> Act B)
    (items : list A) order st :
  calls_each call conv f -> NoDup order -> Forall (fun i => i < length items)%nat order ->
  let '(st', rs) := run_order f items order st in
  st_log st' = st_log st ++ calls_in call items order /\
  (forall i, i ∉ order -> rs !! i = None) /\
  (forall k i a, order !! k = Some i -> items !! i = Some a ->
     rs !! i = Some (answer_after call conv (calls_in call items (take k order)) (st_world st) a)).
Proof.
  intros Hf Hnd. revert st. induction Hnd as [|i order Hi Hnd IH]; intros st Hlt; cbn [run_order].
  { split; [by rewrite app_nil_r|]. split; [done|]. by intros k j a Hk. }
  apply Forall_cons in Hlt as [Hi' Hlt]. destruct (lookup_lt_is_Some_2 items i Hi') as [a Ha]. rewrite Ha, Hf.
  unfold perform. destruct (sdk (call a) (st_world st)) as [w r] eqn:Hsdk. cbn [fst snd].
  specialize (IH (mkSt w (st_log st ++ [call a])) Hlt). destruct (run_order f items order _) as [st2 rs].
  destruct IH as (Hlog & Hnone & Hans). cbn [st_log st_world] in *. split.
  { rewrite Hlog, <- app_assoc. f_equal. unfold calls_in. cbn [omap list_omap]. by rewrite Ha. }
  split.
  - intros j Hj. apply not_elem_of_cons in Hj as [Hne Hj]. rewrite lookup_insert_ne by done. by apply Hnone.
  - intros [|k] j b Hk Hb; cbn in Hk.
    + injection Hk as <-. rewrite Ha in Hb. injection Hb as <-. rewrite lookup_insert_eq. unfold answer_after. cbn.
      by rewrite Hsdk.
    + assert (i <> j) by (intros ->; apply Hi; by eapply list_elem_of_lookup_2). rewrite lookup_insert_ne by done.
      rewrite (Hans k j b Hk Hb). unfold answer_after, calls_in. cbn [take omap list_omap]. rewrite Ha. cbn.
      by rewrite Hsdk.
Qed.

Lemma collect_ok {A} (rs : list (PyResult A)) l : collect rs = Ok l <-> rs = map Ok l.
Proof.
  revert l. induction rs as [|[a|e] rs IH]; intros l; cbn [collect].
  - destruct l; split; intros H; by simplify_eq/=.
  - destruct (collect rs) as [l'|e]; cbn [result_bind].
    + pose proof (proj1 (IH l') eq_refl) as ->. destruct l as [|b l]; cbn; [done|].
      split; [intros [= -> ->]; done|]. intros [= -> Hm]. apply IH in Hm. by injection Hm as ->.
    + split; [done|]. destruct l as [|b l]; cbn; [done|]. intros [= -> Hm]. by apply IH in Hm.
  - split; [done|]. by destruct l.
Qed.

Lemma collect_err {A} (rs : list (PyResult A)) e :
  collect rs = Err e <-> exists i, rs !! i = Some (Err e) /\ forall j r, (j < i)%nat -> rs !! j = Some r -> is_ok r = true.
Proof.
  induction rs as [|[a|e'] rs IH]; cbn [collect].
  - split; [done|]. by intros (i & Hi & _).
  - transitivity (collect rs = Err e); [by destruct (collect rs); cbn; split; intros H; simplify_eq|]. rewrite IH. split.
    + intros (i & Hi & Hlt). exists (S i). split; [done|]. intros [|j] r Hj Hr; [by injection Hr as <-|].
      apply (Hlt j); [lia|done].
    + intros ([|i] & Hi & Hlt); [done|]. exists i. split; [done|]. intros j r Hj. apply (Hlt (S j)). lia.
  - split.
    + intros [= ->]. exists 0%nat. split; [done|]. lia.
    + intros ([|i] & Hi & Hlt); [by injection Hi as ->|]. specialize (Hlt 0%nat (Err e') ltac:(lia) eq_refl). done.
Qed.

Lemma omap_seq_lookup {A} (rs : gmap nat A) n :
  (forall i, (i < n)%nat -> is_Some (rs !! i)) ->
  length (omap (fun i => rs !! i) (seq 0 n)) = n /\
  forall i, (i < n)%nat -> omap (fun i => rs !! i) (seq 0 n) !! i = rs !! i.
Proof.
  induction n as [|n IH]; intros Hsome; [split; [done|lia]|]. destruct IH as [Hlen Hlook]; [auto with lia|].
  rewrite seq_S, omap_app. destruct (Hsome n) as [x Hx]; [lia|]. cbn [omap list_omap Nat.add]. rewrite Hx.
  split; [rewrite length_app, Hlen; cbn; lia|]. intros i Hi. destruct (decide (i = n)) as [->|].
  - rewrite lookup_app_r by lia. by rewrite Hlen, Nat.sub_diag.
  - rewrite lookup_app_l by lia. apply Hlook. lia.
Qed.

Lemma calls_in_perm {A} (call : A -> SdkCall) items order :
  order ≡ₚ seq 0 (length items) -> calls_in call items order ≡ₚ map call items.
Proof.
  intros Hperm. unfold calls_in. rewrite Hperm. clear. induction items as [|a items IH] using rev_ind; [done|].
  rewrite length_app, Nat.add_1_r, seq_S, omap_app, map_app. cbn [omap list_omap Nat.add].
  rewrite lookup_app_r, Nat.sub_diag by lia. cbn. f_equiv. rewrite <- IH.
  assert (Heq : forall l, Forall (fun i => i < length items)%nat l ->
            omap (fun i => call <$> (items ++ [a]) !! i) l = omap (fun i => call <$> items !! i) l).
  { induction 1 as [|i l Hi _ IHl]; [done|]. cbn [omap list_omap]. rewrite lookup_app_l by done. by rewrite IHl. }
  rewrite Heq; [done|]. apply Forall_forall. intros i Hi%elem_of_seq. lia.
Qed.

(** C2. A batch runs every call and answers in the order it was asked.  On an open client, one
    call per item is sent, each item once, in the order the combinator picks; every answer
    is the SDK's at the time of its call; the batch returns all of them in the order of the
    items, or, when some call fails, the error of the first failing item, and then too
    every call has been made. *)
Theorem batch_runs_every_call {A B : Type} (call : A -> SdkCall) (conv : forall a, PyResult (answer (call a)) -> PyResult B)
    (f : A -> Act B) (limit : nat) (items : list A) (site : CallSite) (pid : Z) (c : PyClient) (st : St) :
  calls_each call conv f -> client_handle pid c = Ok tt -> client_guard site = None ->
  let order := buffered_order limit (length items) in
  let '(st', r) := method site pid c (batch limit f items) st in
  st_log st' = st_log st ++ calls_in call items order /\ calls_in call items order ≡ₚ map call items /\
  exists answers, length answers = length items /\
    (forall k i a, order !! k = Some i -> items !! i = Some a ->
       answers !! i = Some (answer_after call conv (calls_in call items (take k order)) (st_world st) a)) /\
    (forall l, r = Ok l <-> answers = map Ok l) /\
    (forall e, r = Err e <-> exists i, answers !! i = Some (Err e) /\
                 forall j a, (j < i)%nat -> answers !! j = Some a -> is_ok a = true).
Proof.
  intros Hf Hh Hg order. unfold method, with_handle, drive. rewrite Hh, Hg. unfold batch. fold order.
  pose proof (buffered_perm limit (length items)) as Hperm. fold order in Hperm.
  assert (Hnd : NoDup order) by (rewrite Hperm; apply NoDup_seq).
  assert (Hlt : forall i, i ∈ order <-> (i < length items)%nat) by (intros i; rewrite Hperm, elem_of_seq; lia).
  pose proof (run_order_spec call conv f items order st Hf Hnd) as Hrun.
  destruct (run_order f items order st) as [st' rs].
  destruct Hrun as (Hlog & _ & Hans); [apply Forall_forall; intros i; apply Hlt|].
  destruct (omap_seq_lookup rs (length items)) as [Hlen Hlook].
  { intros i Hi. destruct (proj1 (list_elem_of_lookup order i) (proj2 (Hlt i) Hi)) as [k Hk].
    destruct (lookup_lt_is_Some_2 items i Hi) as [a Ha]. rewrite (Hans k i a Hk Ha). eauto. }
  split; [done|]. split; [by apply calls_in_perm|].
  eexists. split; [exact Hlen|]. split; [|split; intros; [apply collect_ok|apply collect_err]].
  intros k i a Hk Ha. rewrite Hlook by (by apply Hlt; eapply list_elem_of_lookup_2). by apply Hans.
Qed.
End Client.

(** ** A client of a small file system *)

#[local] Instance in_turn : Buffered := {|
  buffered_order := fun _ len => seq 0 len;
  buffered_perm := fun _ len => Permutation_refl _;
|}.

#[local] Instance last_first : Buffered := {|
  buffered_order := fun _ len => rev (seq 0 len);
  buffered_perm := fun _ len => Permutation_sym (Permutation_rev _);
|}.

Module ClientDemo.
(** The world is the list of the directories; making one twice fails. *)
Definition sdk (c : SdkCall) (w : list string) : list string * result Error (answer (Stream := unit) (Writer := unit) c) :=
  match c with
  | SdkConnect | SdkCloseContext => (w, Ok tt)
  | SdkExists p => (w, Ok (existsb (String.eqb p) w))
  | SdkMkdir p _ => if existsb (String.eqb p) w then (w, Err (AlreadyExists p)) else (w ++ [p], Ok tt)
  | _ => (w, Err (Internal "not here" None))
  end.

Definition no_text : Status -> string := fun _ => EmptyString.

Definition client : PyClient := mkPyClient true 7.
Definition start : St := mkSt ["/a"%string] [].

Definition call (site : CallSite) (m : Method) : Call := mkCall site 7 m.
End ClientDemo.

Lemma client_closes_once_witness :
  pc_open ClientDemo.client = true /\
  exists sent, SdkCloseContext ∉ sent /\
    st_log (snd (fst (client_calls ClientDemo.sdk ClientDemo.no_text SyncFront
      [ClientDemo.call PlainThread (MExists "/a"); ClientDemo.call PlainThread MClose;
       ClientDemo.call PlainThread (MExists "/a")] ClientDemo.client ClientDemo.start)))
    = [] ++ sent ++ [SdkCloseContext].
Proof.
  split; [reflexivity|].
  exact (proj2 (client_closes_once ClientDemo.sdk ClientDemo.no_text SyncFront
    [ClientDemo.call PlainThread (MExists "/a"); ClientDemo.call PlainThread MClose;
     ClientDemo.call PlainThread (MExists "/a")] ClientDemo.client ClientDemo.start eq_refl)).
Defined.

(** The directories are looked up last first, and answered in the order they were given. *)
Lemma batch_runs_every_call_witness :
  client_handle SyncFront 7 ClientDemo.client = Ok tt /\
  py_batch_exists ClientDemo.sdk ClientDemo.no_text SyncFront (Hbuf := last_first) PlainThread 7 ClientDemo.client
    ["/a"; "/b"]%string ClientDemo.start = (mkSt ["/a"%string] [SdkExists "/b"; SdkExists "/a"], Ok [true; false]) /\
  calls_in SdkExists ["/a"; "/b"]%string [1; 0]%nat ≡ₚ [SdkExists "/a"; SdkExists "/b"].
Proof.
  split; [reflexivity|]. split; [reflexivity|].
  pose proof (batch_runs_every_call (Hbuf := last_first) ClientDemo.sdk ClientDemo.no_text SyncFront SdkExists
    (fun _ r => r) (fun p => perform ClientDemo.sdk ClientDemo.no_text (SdkExists p)) BATCH_CONCURRENCY_LIMIT
    ["/a"; "/b"]%string PlainThread 7 ClientDemo.client ClientDemo.start
    (fun a st => surjective_pairing _) eq_refl eq_refl) as Hb.
  cbv beta iota zeta in Hb. destruct (method _ _ _ _ _ _) as [st' r]. exact (proj1 (proj2 Hb)).
Defined.

(** The batch fails at its first directory, and makes the two others. *)
Example failed_batch_makes_every_call :
  py_batch_create_dir ClientDemo.sdk ClientDemo.no_text SyncFront (Hbuf := in_turn) PlainThread 7 ClientDemo.client
    ["/a"; "/b"; "/c"]%string false ClientDemo.start =
  (mkSt ["/a"; "/b"; "/c"]%string [SdkMkdir "/a" false; SdkMkdir "/b" false; SdkMkdir "/c" false],
   Err (map_err ClientDemo.no_text (AlreadyExists "/a"))).
Proof. reflexivity. Qed.

(** A [close] refused in an event loop has dropped the handle; the next one succeeds, and the
    context is never closed. *)
Example refused_close_leaves_context_open :
  exists refusal,
  client_calls ClientDemo.sdk ClientDemo.no_text SyncFront (Hbuf := in_turn)
    [ClientDemo.call InEventLoop MClose; ClientDemo.call PlainThread MClose] ClientDemo.client ClientDemo.start =
  (mkPyClient false 7, ClientDemo.start, [Err refusal; Ok AnsNone]).
Proof. eexists. reflexivity. Qed.
